(* ===== verification/_CoqProject ===== *)
-Q . S2P
Prelude.v
Utf8.v
Encoding.v
BatchInsert.v
Crc16.v
Strkey.v
Toid.v
Decimal.v
Amount.v
Price.v
FloatText.v
Xdr.v
LedgerEntry.v
HistoryRange.v
ChangeCache.v
Transaction.v
Keypair.v
TxnTypes.v
TxnOperations.v
TxnRoundtrip.v
TxnTransaction.v
Challenge.v
LedgerReaders.v
HistoryArchive.v
LedgerBackend.v
CaptiveCore.v
CaptiveStream.v
StateReader.v
StateVerifier.v
HistoryTables.v
Operations.v
Effects.v
HistoryRows.v
Heap.v
SequenceQueue.v
TxSub.v
StatPages.v
ChangeProcessor.v
StateProcessors.v
TransactionProcessors.v
OperationTypes.v
LedgerHistory.v
SignersProcessor.v
RowEntries.v
AssetStats.v
ProcessorRunner.v
HistoryRunner.v
IngestVerify.v
VerifyState.v
OrderBook.v
OrderBookStream.v
Paths.v
IngestFsm.v
Parallel.v
