(* ===== verification/Prelude.v ===== *)
(** * Verification of the Hcnet Go monorepo

    The repository holds the Go software of the Hcnet network: the libraries
    that read and write its data ([src/xdr], [src/strkey], [src/amount],
    [src/price], [src/keypair]), the library that makes and signs transactions
    ([src/txnbuild]), the one that ingests ledgers ([src/ingest],
    [src/historyarchive]), the in-memory order book ([src/exp/orderbook]), and
    the aurora server ([src/services/aurora]), which ingests the ledgers into a
    Postgres database and answers queries about it.  This development models the
    logic between the wire format of transactions and ledgers and the rows of
    that database, and the making of transactions on the side of a client.  Its
    definitions are functions that keep the names of the Go code; a file opens
    with the source files it models.

    ** How the program is put together

    A ledger backend delivers each ledger as its transactions with their results
    and the changes that they made to the entries of the ledger
    (LedgerReaders.v).  There are three ([src/ingest/ledgerbackend]): one reads
    ahead from the pipe of a hcnet-core subprocess (CaptiveCore.v,
    CaptiveStream.v), and two read the files of a history archive and the database
    of hcnet-core (LedgerBackend.v).
    The state machine of aurora ([fsm.go], IngestFsm.v) decides which ledger to
    ingest next, fills the state from a history archive when there is none
    (HistoryArchive.v, StateReader.v), and owns the database transaction of a
    ledger; several instances share one database.  For a ledger it calls the
    processor runner ([processor_runner.go]), which has two sides.

    The side of the state (ProcessorRunner.v) hands every change to each of the
    change processors ([processors/], StateProcessors.v, SignersProcessor.v,
    AssetStats.v).  A processor collects the changes of one type of entry in a
    [LedgerEntryChangeCache] ([src/ingest/io], ChangeCache.v), which squashes
    the changes of an entry into one, and writes the result to its table
    ([db2/history], HistoryTables.v) through statements and batch inserts
    ([src/support/db], BatchInsert.v).  Every checkpoint (HistoryRange.v) the
    state verifier ([src/ingest/verify], StateVerifier.v) compares the tables
    with the history archive: the ingestion reads the rows back as ledger
    entries (RowEntries.v) and gives them to it ([ingest/verify.go],
    IngestVerify.v).

    The side of the history (HistoryRunner.v) hands every transaction to each of
    the transaction processors (TransactionProcessors.v), which write its rows
    (HistoryRows.v) with the details and participants of its operations
    (Operations.v) and their effects (Effects.v), under the identifiers of
    Toid.v.  Historical ledgers are reingested by parallel workers (Parallel.v),
    whose sub-ranges run the state machine again.

    Each node of aurora brings an order book in memory (OrderBook.v) up to date
    with the table of the offers (OrderBookStream.v), and the path finder
    searches on it (Paths.v) with the exchange arithmetic of Price.v.  The keys
    and assets in the rows are the strings of Xdr.v, built on the strkeys of
    Strkey.v and their checksum (Crc16.v).

    A client makes transactions with txnbuild: operations (TxnOperations.v) of
    accounts, assets and prices (TxnTypes.v) become the operations of an
    envelope (TxnTransaction.v), whose hash (Transaction.v) key pairs sign
    (Keypair.v); a server authenticates a client with a transaction that both
    sign (Challenge.v).  Aurora takes transactions from clients (TxSub.v): each
    request waits in the queue of its account for its turn (SequenceQueue.v), is
    submitted to hcnet-core, and is answered when the transaction is ingested.

    ** The files

    - Prelude.v: this header; results of Go calls ([outcome]: a value, an error
      or a panic) with their monad, loops over fallible steps ([mfold]),
      machine integers as [Z] with explicit wrap-around ([u8] to [u64], [i32],
      [i64]) and the tactics [int_lia], [bit_blast] and [case_if]; byte strings
      and the [strings] package; sorting with an order given as a boolean.
    - Utf8.v, Encoding.v: the scrubbing of text; hexadecimal and base64.
    - BatchInsert.v: [src/support/db/batch_insert_builder.go], [columnsForStruct].
    - Crc16.v, Strkey.v: [src/crc16], [src/strkey], with the base32 codec they
      use (Module [Base32]).
    - Toid.v: [src/services/aurora/internal/toid].
    - Decimal.v, Amount.v, Price.v, FloatText.v: decimal numbers as [strconv]
      and [math/big] read and print them, [src/amount], [src/price] with the
      price functions of [src/xdr], and the shortest text of a quotient.
    - Xdr.v, LedgerEntry.v, Transaction.v: [src/xdr]: identifiers, keys, assets
      and balances; the entries of the ledger; transactions, their results and
      meta, with the hashes of [src/network].
    - Keypair.v, TxnTypes.v, TxnOperations.v, TxnTransaction.v, Challenge.v:
      [src/keypair] and [src/txnbuild]; TxnRoundtrip.v proves that operations
      are read and built again.
    - ChangeCache.v, LedgerReaders.v, StateReader.v: [src/ingest/io]: changes
      and their cache, the readers of a ledger, the reader of a checkpoint.
    - HistoryRange.v, HistoryArchive.v: [src/historyarchive].
    - LedgerBackend.v, CaptiveCore.v, CaptiveStream.v: [src/ingest/ledgerbackend]:
      ranges and the backends over archives and databases; the captive core
      backend with its goroutine, and its sessions.
    - StateVerifier.v: [src/ingest/verify/main.go], what a loop that drives it
      decides for any source of entries, and [transformEntry].
    - HistoryTables.v, StatPages.v: rows, statements, queries and batches of the
      state tables; the pages of asset statistics ([GetAssetStats]).
    - ChangeProcessor.v: the interface of a change processor and the theory of
      processors that follow the ledger.
    - StateProcessors.v, SignersProcessor.v, AssetStats.v: the seven processors
      of the ledger state.
    - Operations.v, Effects.v, HistoryRows.v, TransactionProcessors.v: details
      and participants of operations, effects, the rows of the history, and the
      six processors of transactions.
    - OperationTypes.v, LedgerHistory.v: what these expect of an operation, and
      what they write for a ledger.
    - ProcessorRunner.v, HistoryRunner.v: [processor_runner.go] and
      [group_processors.go], the sides of the state and of the history.
    - RowEntries.v, IngestVerify.v, VerifyState.v: [verify.go]: the entries made
      from rows, the functions that fetch the rows of a batch of keys, the check
      of the asset statistics, [verifyState] itself and what it decides.
    - OrderBook.v, Paths.v: [edges.go], [batch.go], [graph.go], and [dfs.go].
    - OrderBookStream.v: [orderbook.go] of the ingestion.
    - Heap.v, SequenceQueue.v, TxSub.v: [container/heap], and
      [src/services/aurora/internal/txsub] with its queues.
    - IngestFsm.v: [fsm.go], [main.go] of the ingestion, transactions of
      [src/support/db/session.go], keys of [key_value.go].
    - Parallel.v: [parallel.go] of the ingestion.

    ** How state and effects are modelled

    State is passed explicitly.  A processor is a record of its batch and its
    cache, a table is a finite map from its primary key to rows, and a statement
    the function it computes on the table; the order book is a record of finite
    maps.  The ingestion machine runs in a state and error monad of its own
    ([body]) over a [world]: the committed database, the transaction of this
    session, and an oracle of [answer]s, one for each call that leaves the
    process.  Concurrency is a step relation: the workers of Parallel.v, the
    instances of a cluster in IngestFsm.v ([cluster_step]), the requests and the
    ticker of TxSub.v ([transition]), the ingestion and the stream of
    OrderBookStream.v ([world_step]).  A call of CaptiveCore.v takes a schedule
    with it, which says how far the goroutine runs before each access of the call
    to what they share, so that it may also not return.  A method that
    changes its receiver returns it, also beside an error ([NewTransaction],
    [SetOptions_build]).

    ** Interfaces

    [LedgerCache] (ChangeProcessor.v) is what a cache of changes needs: the
    marshalled text of a ledger key, different for different keys, and the order
    in which Go iterates over the map of the cache.  [ChangeProcessor] is what a
    processor supplies, and [ProcessorLaws] what it promises: that writing a
    batch of squashed changes takes a table that represents a ledger to one that
    represents the next ledger.  Everything about processors is proved from
    these laws, and each of the seven processors is an instance.
    [SignerOrder], [StatsOrder] and [RowOrder] are again orders of iterating
    over a map or of the rows of a query, about which only that they are
    permutations is known.  [SearchState] (Paths.v) is the Go interface
    [searchState], with an instance for each direction of search, and [Account]
    (TxnTypes.v) the interface of that name.  [StateTables] and
    [StateTablesLaws] (IngestFsm.v) are the state tables as the machine sees
    them.  What is outside of the source comes in through classes as well, the
    laws apart from the operations: [Network] (the hash of a payload),
    [Ed25519] and [Ed25519Laws] (signatures), [EnvelopeCodec] and
    [EnvelopeCodecLaws] (the marshaller of envelopes), [ResultCodec] (of the
    results of transactions), [XdrText] (the texts in
    the rows of transactions), [LedgerSources], [ArchiveFiles], [CategoryFiles] and
    [BucketFiles] (what a ledger backend and a history archive hold).  [Stable]
    (CaptiveCore.v) is what the goroutine of a backend keeps true while a call
    waits.

    ** The theorems

    - The state follows the ledger: [ProcessorRunner.Ingestion_follows_ledger],
      over [ChangeCache.AddChange_squashes], the laws of each processor and the
      readers ([LedgerReaders], [StateReader]); the verifier accepts exactly the
      databases that agree with the archive ([StateVerifier.verifyState_spec]);
      the verification of aurora, over tables that follow a ledger, accepts the
      archives with the entries of that ledger and rejects every other archive
      whose entries have different keys ([VerifyState.verifyState_decides]), and
      so it does over the tables that ingestion fills
      ([VerifyState.Ingested_state_verifies]).
    - The history follows the transactions: their rows are those of the abstract
      history of the ledger
      ([HistoryRunner.RunTransactionProcessorsOnLedger_writes]), reingesting a
      ledger gives the same ([reingest_ledger_same]), operations of the types
      that the code expects never fail ([OperationTypes]), and the effects on
      signers say how the signers changed ([Effects]).
    - The machine: instances on one database keep it consistent whatever fails
      and whenever ([IngestFsm.cluster_consistent]), no transaction is leaked,
      nothing panics ([Run_safe]), progress is made when calls succeed and the
      backend is prepared ([build_catches_up]), reingestion replaces what it should
      ([reingest_replaces]), and parallel reingestion ends and leaves no gap
      below its restart point, where the lowest failed part begins ([Parallel]).
    - The ledgers: the backend over an archive whose files have the headers of
      their ledgers and nothing of other checkpoints returns what they say,
      whatever it was asked before ([LedgerBackend.Archive_GetLedger_reads]), and a
      ledger of the database is read back as it was written
      ([Database_ledger_reads_back]); the captive core backend never panics but
      after a factory that failed ([CaptiveCore.Captive_never_panics]), returns
      what a search of the stream gives ([CaptiveStream.GetLedger_refines]),
      replays a bounded range to its end, also after another one
      ([BoundedRange_replayed]), but waits for ever beyond it ([past_range_waits]); when it closes ([Close_spec]) and what
      an unbounded range leaves ([UnboundedRange_prepared]).
    - The market: the graph refines an abstract order book of offers
      ([OrderBook.OrderBookGraph_refines]); the stream keeps it equal to the
      table of the offers, whatever valid ledgers are ingested and whatever fails,
      but for a state that is built between two updates, whose lost offers stay
      until they are verified ([OrderBookStream_follows]); so it shows the offers
      of the ledger ([OrderBookStream_shows_ledger]), and the verification repairs it
      ([verification_repairs]); the searches return exactly the
      paths of the walks over the offers, ranked ([Paths]); the exchange
      arithmetic is exact rounding of the full product ([Price]).
    - Transactions: operations are read, validated and built again unchanged
      ([TxnRoundtrip.operations_rebuild]); which parameters make a transaction
      or a fee bump, with what fee, and when an upgrade keeps the hash
      ([TxnTransaction]); a challenge that is accepted was signed by the server
      and by every signer in the result, with no signature left or counted
      twice, and one that was made and signed is accepted ([Challenge]).
    - Submission: every request gets one answer, and a successful one only from
      the database ([TxSub.Submit_answers_once]); no wake-up is lost
      ([waiting_is_queued]); a tick answers what is ingested or too old
      ([Tick_answers]); a queue lets exactly the next number pass
      ([SequenceQueue.Queue_Update_spec]).
    - The data: round trips of strkeys, identifiers, amounts, signer keys and
      assets; canonical and injective forms; the exact language of the parsers;
      the checkpoint arithmetic; batch inserts.

    ** Bounds and fuel

    Loops whose recursion is not structural carry fuel.  [cf_fuel] (Price.v) is
    twice the binary size of the denominator, since two steps of Euclid's
    algorithm at least halve it; the theorem of the parser shows that it always
    answers.  [dfs_fuel] (Paths.v) exceeds the maximal path length, at which the
    search turns back by itself.  [range_fuel] (IngestFsm.v) and the fuel of the
    loop of [Checkpoints] (HistoryRange.v) are the length of the range.
    The loops of Heap.v run for the index or the length of the slice, which
    [up_heap] and [down_heap] show to be enough.  [places_fuel] (FloatText.v) exceeds the places that nine digits of a
    quotient of 32-bit numbers take.  The loop of the verifier reads a batch in
    each round; its theorem says how much fuel reaches the end of the archive.
    [GetLedger_loop] (CaptiveCore.v) has a round for each group of its schedule
    and one more, and each round that goes on takes a group; three steps of the
    goroutine in a group are what it needs for a ledger.
    The run of the state machine, which may go on for ever, is bounded by a
    number of nodes over which the theorems quantify.

    ** What the hypotheses stand for

    Code that is not under [src/] is a parameter: Postgres (the statements are
    modelled by their documented effect), the XDR marshaller, the cryptography,
    the iteration order of maps, [sort.Slice], the network, hcnet-core, the
    clock and the random bytes.  The key of a row that the source makes by
    marshalling a ledger key is known only to be different for different keys,
    and never to fail.

    ** What is not modelled

    The generated XDR codec ([xdr_generated.go]) is one reflection-driven
    marshaller with sixteen thousand lines of types, of which those that the
    models use are written out.  The HTTP layer, the SQL queries of the API and
    the clients move data between formats, and what they promise is a matter of
    the database or of the other side.  The runner of the hcnet-core subprocess
    and the remote captive core are processes and requests.  Commands, documentation tools, tests and the other services are
    left out, as are logging, metrics and locks in every model.  In the modelled
    files, what is missing is named in the header of the file. *)

From stdpp Require Export base tactics numbers list gmap strings sorting.
From Stdlib Require Export Lia.

#[global] Open Scope Z_scope.
#[global] Set Default Goal Selector "!".

(** ** Go results

    A Go call either returns a value, returns an error value, or panics. *)

Inductive outcome (E A : Type) : Type :=
  | Ret (a : A)
  | Fail (e : E)
  | Panic.
Arguments Ret {E A} a.
Arguments Fail {E A} e.
Arguments Panic {E A}.

Definition outcome_bind {E A B} (f : A → outcome E B) (m : outcome E A) : outcome E B :=
  match m with
  | Ret a => f a
  | Fail e => Fail e
  | Panic => Panic
  end.

#[global] Instance outcome_ret E : MRet (outcome E) := λ A a, Ret a.
#[global] Instance outcome_mbind E : MBind (outcome E) := λ A B f m, outcome_bind f m.

(** Runs the binds whose first computation is known. *)
Ltac outcome_simpl := unfold mbind, outcome_mbind in *; cbn [outcome_bind] in *.

Lemma outcome_bind_no_panic {E A B} (f : A → outcome E B) m :
  m ≠ Panic → (∀ a, m = Ret a → f a ≠ Panic) → outcome_bind f m ≠ Panic.
Proof. destruct m; simpl; eauto. Qed.

(** Running a fallible step over the elements of a list, in order; the first
    error or panic ends the loop (the shape of a Go [for ... range] whose body
    returns on error). *)
Fixpoint mfold {E S A} (f : S → A → outcome E S) (s : S) (l : list A) : outcome E S :=
  match l with
  | [] => Ret s
  | x :: l' => outcome_bind (λ s', mfold f s' l') (f s x)
  end.

Lemma mfold_app {E S A} (f : S → A → outcome E S) s l1 l2 :
  mfold f s (l1 ++ l2) = outcome_bind (λ s', mfold f s' l2) (mfold f s l1).
Proof.
  revert s; induction l1 as [|x l1 IH]; intros s; simpl; [done|].
  destruct (f s x); simpl; [apply IH|done|done].
Qed.

(** What a loop that returns maintains. *)
Lemma mfold_ret_ind {E S A} (f : S → A → outcome E S) (P : list A → S → Prop) s l s' :
  mfold f s l = Ret s' → P [] s →
  (∀ done x s1 s2, P done s1 → x ∈ l → f s1 x = Ret s2 → P (done ++ [x]) s2) → P l s'.
Proof.
  intros Hm H0 Hstep. change l with ([] ++ l). revert Hm H0. generalize (@nil A) as pre. revert s Hstep.
  induction l as [|x l IH]; intros s Hstep pre Hm H0; simpl in *; [by injection Hm as <-; rewrite app_nil_r|].
  destruct (f s x) as [s1|e|] eqn:Hfx; simpl in Hm; [|done..].
  replace (pre ++ x :: l) with ((pre ++ [x]) ++ l) by (by rewrite <- app_assoc).
  apply (IH s1); [|done|].
  - intros done y s2 s3 Hp Hy. apply Hstep; [done|by right].
  - eapply Hstep; [done|by left|done].
Qed.

(** A loop that appends the result of a call for each element. *)
Lemma mfold_ext {E S A} (f g : S → A → outcome E S) s l :
  (∀ s x, x ∈ l → f s x = g s x) → mfold f s l = mfold g s l.
Proof.
  revert s. induction l as [|x l IH]; intros s Hl; simpl; [done|]. rewrite Hl by by left.
  destruct (g s x); simpl; [|done..]. apply IH. intros s' y Hy. apply Hl. by right.
Qed.

Lemma mfold_fmap {E S A B} (f : S → B → outcome E S) (g : A → B) s l :
  mfold f s (g <$> l) = mfold (λ s x, f s (g x)) s l.
Proof. revert s. induction l as [|x l IH]; intros s; simpl; [done|]. destruct (f s (g x)); simpl; [apply IH|done..]. Qed.

Lemma mfold_map {E A B} (F : list B → A → outcome E (list B)) (g : A → B) l acc :
  (∀ acc x, x ∈ l → F acc x = Ret (acc ++ [g x])) → mfold F acc l = Ret (acc ++ (g <$> l)).
Proof.
  revert acc. induction l as [|x l IH]; intros acc HF; [by rewrite app_nil_r|]. simpl.
  rewrite HF by by left. simpl. rewrite IH by (intros; apply HF; by right). by rewrite <- app_assoc.
Qed.

(** The results of a fallible function on the elements of a list. *)
Definition mmap {E A B} (f : A → outcome E B) (l : list A) : outcome E (list B) :=
  mfold (λ ys x, outcome_bind (λ y, Ret (ys ++ [y])) (f x)) [] l.

Lemma mmap_cons {E A B} (f : A → outcome E B) x l :
  mmap f (x :: l) = outcome_bind (λ y, outcome_bind (λ ys, Ret (y :: ys)) (mmap f l)) (f x).
Proof.
  unfold mmap. simpl. destruct (f x) as [y|e|]; simpl; [|done..].
  enough (∀ acc, mfold (λ ys x, outcome_bind (λ y, Ret (ys ++ [y])) (f x)) (y :: acc) l =
    outcome_bind (λ ys, Ret (y :: ys)) (mfold (λ ys x, outcome_bind (λ y, Ret (ys ++ [y])) (f x)) acc l)) as H by apply H.
  induction l as [|z l IH]; intros acc; simpl; [done|]. destruct (f z); simpl; [|done..]. by rewrite <- IH.
Qed.

Lemma mmap_Ret {E A B} (f : A → outcome E B) l ys : mmap f l = Ret ys ↔ Forall2 (λ x y, f x = Ret y) l ys.
Proof.
  revert ys. induction l as [|x l IH]; intros ys.
  - split; [by intros [= <-]|intros ->%Forall2_nil_inv_l; done].
  - rewrite mmap_cons. split.
    + destruct (f x) as [y|e|] eqn:Ef; simpl; [|done..]. destruct (mmap f l) as [zs|e|] eqn:El; simpl; [|done..].
      intros [= <-]. constructor; [done|by apply IH].
    + intros (y & zs & Hy & Hl & ->)%Forall2_cons_inv_l. rewrite Hy. simpl. apply IH in Hl as ->. done.
Qed.

Lemma mmap_total {E A B} (f : A → outcome E B) l : (∀ x, x ∈ l → ∃ y, f x = Ret y) → ∃ ys, mmap f l = Ret ys.
Proof.
  induction l as [|x l IH]; intros Hf; [by exists []|]. rewrite mmap_cons.
  destruct (Hf x) as [y ->]; [by left|]. destruct IH as [ys ->]; [intros z Hz; apply Hf; by right|]. by exists (y :: ys).
Qed.

Lemma mmap_app {E A B} (f : A → outcome E B) l l' ys ys' :
  mmap f l = Ret ys → mmap f l' = Ret ys' → mmap f (l ++ l') = Ret (ys ++ ys').
Proof. rewrite !mmap_Ret. apply Forall2_app. Qed.

Lemma mmap_app_inv {E A B} (f : A → outcome E B) l l' zs :
  mmap f (l ++ l') = Ret zs → ∃ ys ys', mmap f l = Ret ys ∧ mmap f l' = Ret ys' ∧ zs = ys ++ ys'.
Proof. rewrite mmap_Ret. intros (ys & ys' & H1 & H2 & ->)%Forall2_app_inv_l. exists ys, ys'. by rewrite !mmap_Ret. Qed.

Lemma mmap_concat {E A B C} (f : A → outcome E B) (h : C → list A) l ys :
  mmap f (concat (h <$> l)) = Ret ys → ∃ yss, mmap (λ x, mmap f (h x)) l = Ret yss ∧ ys = concat yss.
Proof.
  revert ys. induction l as [|x l IH]; intros ys; [intros [= <-]; by exists []|]. rewrite fmap_cons. cbn [concat].
  intros (ys1 & ys2 & H1 & (yss & H2 & ->)%IH & ->)%mmap_app_inv. exists (ys1 :: yss). split; [|done].
  rewrite mmap_cons, H1. simpl. by rewrite H2.
Qed.

(** A loop that appends lists. *)
Lemma mfold_append {E A B} (f : A → outcome E (list B)) l acc r :
  mfold (λ acc x, outcome_bind (λ p, Ret (acc ++ p)) (f x)) acc l = Ret r ↔
  ∃ ps, mmap f l = Ret ps ∧ r = acc ++ concat ps.
Proof.
  setoid_rewrite mmap_Ret. revert acc. induction l as [|x l IH]; intros acc; simpl.
  - split; [intros [= <-]; exists []; by rewrite app_nil_r|]. intros (ps & ->%Forall2_nil_inv_l & ->). by rewrite app_nil_r.
  - split.
    + destruct (f x) as [p|e|] eqn:Ef; simpl; [|done..]. intros (ps & Hps & ->)%IH. exists (p :: ps). split; [by constructor|].
      by rewrite <- app_assoc.
    + intros (ps & (p & ps' & Hp & Hps & ->)%Forall2_cons_inv_l & ->). rewrite Hp. simpl. apply IH. exists ps'. split; [done|].
      by rewrite <- app_assoc.
Qed.

(** A loop that first maps. *)
Lemma mfold_mmap {E S A B} (f : A → outcome E B) (g : S → B → outcome E S) s l ys :
  mmap f l = Ret ys → mfold (λ s x, outcome_bind (g s) (f x)) s l = mfold g s ys.
Proof.
  rewrite mmap_Ret. intros H. revert s. induction H as [|x y l ys Hxy _ IH]; intros s; simpl; [done|].
  rewrite Hxy. simpl. destruct (g s y); simpl; [apply IH|done..].
Qed.

(** A loop over the elements of lists. *)
Lemma mfold_concat {E S A} (f : S → A → outcome E S) s (ls : list (list A)) :
  mfold (mfold f) s ls = mfold f s (concat ls).
Proof. revert s. induction ls as [|l ls IH]; intros s; simpl; [done|]. rewrite mfold_app. by destruct (mfold f s l); simpl. Qed.

(** ** Machine integers

    A Go integer of width [w] is a [Z] in range; every arithmetic operation of
    the source that can leave the range is followed by the conversion below. *)

Definition wrap_u (w x : Z) : Z := x mod 2 ^ w.
Definition wrap_s (w x : Z) : Z := (x + 2 ^ (w - 1)) mod 2 ^ w - 2 ^ (w - 1).

Definition u8 : Z → Z := wrap_u 8.
Definition u16 : Z → Z := wrap_u 16.
Definition u32 : Z → Z := wrap_u 32.
Definition u64 : Z → Z := wrap_u 64.
Definition i32 : Z → Z := wrap_s 32.
Definition i64 : Z → Z := wrap_s 64.

Definition MaxInt32 : Z := 2147483647.
Definition MaxInt64 : Z := 9223372036854775807.
Definition MinInt64 : Z := -9223372036854775808.
Definition MaxUint32 : Z := 4294967295.
Definition MaxUint64 : Z := 18446744073709551615.

Definition is_u8 (x : Z) : Prop := 0 ≤ x < 2 ^ 8.
Definition is_u16 (x : Z) : Prop := 0 ≤ x < 2 ^ 16.
Definition is_u32 (x : Z) : Prop := 0 ≤ x < 2 ^ 32.
Definition is_u64 (x : Z) : Prop := 0 ≤ x < 2 ^ 64.
Definition is_i32 (x : Z) : Prop := -2 ^ 31 ≤ x < 2 ^ 31.
Definition is_i64 (x : Z) : Prop := -2 ^ 63 ≤ x < 2 ^ 63.

(** [norm_pow] evaluates the powers of two with a literal exponent, and [zlia]
    is [lia] with the defining equations of [/] and [mod]. *)
Ltac is_lit n :=
  match n with Z0 => idtac | Zpos ?p => is_pos p | Zneg ?p => is_pos p end
with is_pos p :=
  match p with xH => idtac | xO ?q => is_pos q | xI ?q => is_pos q end.
Ltac norm_pow :=
  repeat match goal with
  | |- context [2 ^ ?n] => is_lit n; let v := eval vm_compute in (2 ^ n) in change (2 ^ n) with v
  | H : context [2 ^ ?n] |- _ =>
      is_lit n; let v := eval vm_compute in (2 ^ n) in change (2 ^ n) with v in H
  end.
Ltac zlia := norm_pow; Z.div_mod_to_equations; lia.
Ltac unfold_int :=
  unfold u8, u16, u32, u64, i32, i64, wrap_u, wrap_s, is_u8, is_u16, is_u32, is_u64,
    is_i32, is_i64, MaxInt32, MaxInt64, MinInt64, MaxUint32, MaxUint64 in *.
(** [int_lia] decides linear goals about machine integers and conversions. *)
Ltac int_lia := unfold_int; cbn [Z.sub Z.add Z.opp Z.pos_sub Pos.pred_double] in *; zlia.

Lemma wrap_u_small w x : 0 ≤ x < 2 ^ w → wrap_u w x = x.
Proof. intros H. unfold wrap_u. by apply Z.mod_small. Qed.
Lemma wrap_u_range w x : 0 ≤ w → 0 ≤ wrap_u w x < 2 ^ w.
Proof. intros H. apply Z.mod_pos_bound. by apply Z.pow_pos_nonneg. Qed.
Lemma wrap_s_small w x : 0 < w → - 2 ^ (w - 1) ≤ x < 2 ^ (w - 1) → wrap_s w x = x.
Proof.
  intros Hw H. unfold wrap_s.
  assert (2 ^ w = 2 * 2 ^ (w - 1)) as E by (rewrite <- Z.pow_succ_r by lia; f_equal; lia).
  rewrite Z.mod_small; lia.
Qed.
Lemma wrap_s_range w x : 0 < w → - 2 ^ (w - 1) ≤ wrap_s w x < 2 ^ (w - 1).
Proof.
  intros Hw. unfold wrap_s.
  assert (2 ^ w = 2 * 2 ^ (w - 1)) as E by (rewrite <- Z.pow_succ_r by lia; f_equal; lia).
  pose proof (Z.mod_pos_bound (x + 2 ^ (w - 1)) (2 ^ w)) as Hb.
  assert (0 < 2 ^ (w - 1)) by (apply Z.pow_pos_nonneg; lia). lia.
Qed.

Lemma u64_small x : is_u64 x → u64 x = x.
Proof. apply wrap_u_small. Qed.
Lemma u32_small x : is_u32 x → u32 x = x.
Proof. apply wrap_u_small. Qed.
Lemma u16_small x : is_u16 x → u16 x = x.
Proof. apply wrap_u_small. Qed.
Lemma u8_small x : is_u8 x → u8 x = x.
Proof. apply wrap_u_small. Qed.
Lemma i64_small x : is_i64 x → i64 x = x.
Proof. intros. apply wrap_s_small; unfold is_i64 in *; simpl Z.sub; lia. Qed.
Lemma i32_small x : is_i32 x → i32 x = x.
Proof. intros. apply wrap_s_small; unfold is_i32 in *; simpl Z.sub; lia. Qed.
Lemma i64_range x : is_i64 (i64 x).
Proof. apply (wrap_s_range 64 x). lia. Qed.
Lemma i32_range x : is_i32 (i32 x).
Proof. apply (wrap_s_range 32 x). lia. Qed.
Lemma u64_range x : is_u64 (u64 x).
Proof. apply (wrap_u_range 64 x). lia. Qed.
Lemma u32_range x : is_u32 (u32 x).
Proof. apply (wrap_u_range 32 x). lia. Qed.

Create HintDb ints.
Create Rewrite HintDb ints.
#[export] Hint Resolve i64_range i32_range u64_range u32_range : ints.
#[export] Hint Rewrite u64_small u32_small u16_small u8_small i64_small i32_small
  using (unfold_int; lia) : ints.

(** ** Bits *)

Lemma testbit_high x n w : 0 ≤ x < 2 ^ w → w ≤ n → Z.testbit x n = false.
Proof.
  intros [H1 H2] Hn. destruct (Z.eq_dec x 0) as [->|]; [apply Z.bits_0|].
  apply Z.bits_above_log2; [done|].
  apply Z.log2_lt_pow2; [lia|]. eapply Z.lt_le_trans; [done|].
  apply Z.pow_le_mono_r; lia.
Qed.

(** Two values below [2^w] are equal when their low [w] bits are. *)
Lemma bits_ext w x y :
  0 ≤ x < 2 ^ w → 0 ≤ y < 2 ^ w →
  (∀ n, 0 ≤ n < w → Z.testbit x n = Z.testbit y n) → x = y.
Proof.
  intros Hx Hy H. apply Z.bits_inj'. intros n Hn.
  destruct (Z_lt_dec n w); [apply H; lia|].
  rewrite !(testbit_high _ n w) by (done || lia). done.
Qed.

Lemma below_of_bits w x :
  0 ≤ w → 0 ≤ x → (∀ n, w ≤ n → Z.testbit x n = false) → x < 2 ^ w.
Proof.
  intros Hw H0 H. destruct (Z_lt_dec x (2 ^ w)) as [|Hge]; [done|].
  assert (0 < 2 ^ w) by (by apply Z.pow_pos_nonneg).
  assert (w ≤ Z.log2 x) by (apply Z.log2_le_pow2; lia).
  pose proof (Z.bit_log2 x ltac:(lia)) as Hb. rewrite H in Hb; [done|lia].
Qed.

Lemma lxor_range w x y :
  0 ≤ w → 0 ≤ x < 2 ^ w → 0 ≤ y < 2 ^ w → 0 ≤ Z.lxor x y < 2 ^ w.
Proof.
  intros Hw Hx Hy. assert (0 ≤ Z.lxor x y) by (apply Z.lxor_nonneg; lia).
  split; [done|]. apply below_of_bits; [done..|].
  intros n Hn. by rewrite Z.lxor_spec, !(testbit_high _ n w).
Qed.
Lemma lor_range w x y :
  0 ≤ w → 0 ≤ x < 2 ^ w → 0 ≤ y < 2 ^ w → 0 ≤ Z.lor x y < 2 ^ w.
Proof.
  intros Hw Hx Hy. assert (0 ≤ Z.lor x y) by (apply Z.lor_nonneg; lia).
  split; [done|]. apply below_of_bits; [done..|].
  intros n Hn. by rewrite Z.lor_spec, !(testbit_high _ n w).
Qed.

(** Numbers whose bits do not overlap. *)
Lemma lor_shifted a b s : 0 ≤ s → 0 ≤ b < 2 ^ s → Z.lor (a * 2 ^ s) b = a * 2 ^ s + b.
Proof.
  intros Hs Hb. rewrite <- Z.shiftl_mul_pow2 by done.
  rewrite <- Z.lxor_lor, <- Z.add_nocarry_lxor; try done;
    apply Z.bits_inj'; intros n Hn; rewrite Z.land_spec, Z.bits_0, Z.shiftl_spec by done;
    (destruct (Z_lt_dec n s);
     [by rewrite (Z.testbit_neg_r a) by lia
     |by rewrite (testbit_high b n s), andb_false_r by (done || lia)]).
Qed.

(** Equations between exclusive or's, bit by bit. *)
Ltac lxor_bits :=
  apply Z.bits_inj'; intros ?n ?Hn; rewrite ?Z.lxor_spec;
  repeat match goal with |- context [Z.testbit ?a ?m] => destruct (Z.testbit a m) end;
  reflexivity.

(** The bits of [wrap_u], with the width as a side condition. *)
Lemma wrap_u_testbit w x n :
  0 ≤ w → Z.testbit (wrap_u w x) n = (bool_decide (n < w)) && Z.testbit x n.
Proof.
  intros Hw. unfold wrap_u. case_bool_decide as H; simpl.
  - destruct (Z_lt_dec n 0); [by rewrite !Z.testbit_neg_r by lia|].
    apply Z.mod_pow2_bits_low; lia.
  - apply Z.mod_pow2_bits_high; lia.
Qed.

(** [bit_norm] pushes [Z.testbit] at a literal index through the bit operations;
    bits above the width of a bounded hypothesis are false.  [bit_blast w]
    proves that two values below [2^w] are equal, bit by bit. *)
Ltac bit_lit :=
  match goal with
  | |- context [?a - ?b] =>
      is_lit a; is_lit b; let v := eval vm_compute in (a - b) in change (a - b) with v
  | |- context [?a + ?b] =>
      is_lit a; is_lit b; let v := eval vm_compute in (a + b) in change (a + b) with v
  | |- context [bool_decide (?a < ?b)] =>
      is_lit a; is_lit b;
      let v := eval vm_compute in (bool_decide (a < b)) in change (bool_decide (a < b)) with v
  | |- context [Z.testbit ?a ?n] =>
      is_lit a; is_lit n;
      let v := eval vm_compute in (Z.testbit a n) in change (Z.testbit a n) with v
  | |- context [Z.testbit ?a (Zneg ?p)] => rewrite (Z.testbit_neg_r a (Zneg p)) by lia
  | H : 0 ≤ ?a < 2 ^ ?w |- context [Z.testbit ?a ?n] =>
      is_lit w; is_lit n; rewrite (testbit_high a n w H) by lia
  end.
Ltac bit_norm :=
  unfold u8, u16, u32, u64 in *;
  repeat first
    [ bit_lit
    | rewrite Z.lor_spec | rewrite Z.land_spec
    | rewrite Z.shiftl_spec by lia | rewrite Z.shiftr_spec by lia
    | rewrite wrap_u_testbit by lia
    | progress rewrite ?orb_false_r, ?orb_false_l, ?andb_true_r, ?andb_true_l, ?andb_false_r,
        ?andb_false_l ].
Ltac bit_index n :=
  let rec go k :=
    match k with
    | 8%nat => exfalso; lia
    | _ => let z := eval vm_compute in (Z.of_nat k) in
           destruct (Z.eq_dec n z) as [->|]; [|go (S k)]
    end in go 0%nat.
Ltac bit_blast w := apply (bits_ext w); [..|intros ?n ?Hn; bit_index n; bit_norm; try reflexivity].

Lemma list_bits_ext w (l k : list Z) :
  Forall (λ x, 0 ≤ x < 2 ^ w) l → Forall (λ x, 0 ≤ x < 2 ^ w) k →
  Forall2 (λ x y, ∀ n, 0 ≤ n < w → Z.testbit x n = Z.testbit y n) l k → l = k.
Proof.
  intros Hl Hk H. induction H as [|x y l k Hxy H IH]; [done|].
  apply Forall_cons in Hl as [? ?], Hk as [? ?]. f_equal; [by apply (bits_ext w)|by apply IH].
Qed.

(** ** Byte strings

    A Go [string] is a sequence of bytes; [str] writes a literal. *)

Abbreviation gostring := (list Z).

Fixpoint str (s : string) : gostring :=
  match s with
  | EmptyString => []
  | String a s' => Z.of_N (Ascii.N_of_ascii a) :: str s'
  end.

(** The byte-wise [<] of Go strings. *)
Fixpoint str_ltb (s t : gostring) : bool :=
  match s, t with
  | _, [] => false
  | [], _ :: _ => true
  | a :: s', b :: t' => if a =? b then str_ltb s' t' else a <? b
  end.

(** ** Lists *)

Lemma Forall_lookup_Z {A} (P : A → Prop) (l : list A) i x :
  Forall P l → l !! i = Some x → P x.
Proof. intros H Hl. rewrite Forall_lookup in H. eauto. Qed.

Lemma omap_fmap {A B C} (f : B → option C) (g : A → B) (l : list A) : omap f (g <$> l) = omap (λ x, f (g x)) l.
Proof. induction l as [|x l IH]; [done|]. rewrite fmap_cons. cbn [omap list_omap]. by rewrite <- IH. Qed.

(** Case analysis on the boolean conditions of an executable definition. *)
Ltac case_if :=
  match goal with
  | |- context [if ?b then _ else _] => destruct b eqn:?
  | H : context [if ?b then _ else _] |- _ => destruct b eqn:?
  end.

(** Wrapping an error. *)
Definition map_fail {E E' A} (f : E → E') (m : outcome E A) : outcome E' A :=
  match m with Ret a => Ret a | Fail e => Fail (f e) | Panic => Panic end.
(** A [Must] function panics where the plain one returns an error. *)
Definition must {E E' A} (m : outcome E A) : outcome E' A :=
  match m with Ret a => Ret a | _ => Panic end.

Lemma mfold_map_fail {E E' S A} (h : E → E') (f : S → A → outcome E S) s l :
  mfold (λ s x, map_fail h (f s x)) s l = map_fail h (mfold f s l).
Proof. revert s. induction l as [|x l IH]; intros s; simpl; [done|]. destruct (f s x); simpl; [apply IH|done..]. Qed.

Lemma map_fail_Ret {E E' A} (f : E → E') (m : outcome E A) a :
  map_fail f m = Ret a ↔ m = Ret a.
Proof. destruct m; simpl; naive_solver. Qed.

(** ** Strings of the Go standard library *)

(** [strings.Split] with a one-byte separator *)
Fixpoint split (sep : Z) (s : gostring) : list gostring :=
  match s with
  | [] => [[]]
  | c :: s' =>
      if c =? sep then [] :: split sep s'
      else match split sep s' with [] => [[c]] | p :: ps => (c :: p) :: ps end
  end.
Fixpoint join (sep : Z) (ps : list gostring) : gostring :=
  match ps with [] => [] | [p] => p | p :: ps' => p ++ sep :: join sep ps' end.

Lemma split_plain sep s : Forall (λ c, c ≠ sep) s → split sep s = [s].
Proof.
  induction 1 as [|c s Hc Hs IH]; simpl; [done|].
  rewrite (proj2 (Z.eqb_neq c sep)) by done. by rewrite IH.
Qed.

Lemma split_app sep s r :
  Forall (λ c, c ≠ sep) s → split sep (s ++ sep :: r) = s :: split sep r.
Proof.
  induction 1 as [|c s Hc Hs IH]; simpl; [by rewrite Z.eqb_refl|].
  rewrite (proj2 (Z.eqb_neq c sep)) by done. by rewrite IH.
Qed.

Lemma split_join sep ps :
  ps ≠ [] → Forall (Forall (λ c, c ≠ sep)) ps → split sep (join sep ps) = ps.
Proof.
  intros Hne H. induction H as [|p ps Hp Hps IH]; [done|].
  destruct ps as [|q ps]; [by apply split_plain|].
  change (join sep (p :: q :: ps)) with (p ++ sep :: join sep (q :: ps)).
  rewrite split_app by done. by rewrite IH.
Qed.

(** [strings.TrimRight(s, "\x00")] and the padding that [copy] into a zeroed
    array of [n] bytes gives. *)
Fixpoint trim_right (l : list Z) : list Z :=
  match l with
  | [] => []
  | x :: l' => match trim_right l' with
               | [] => if x =? 0 then [] else [x]
               | r => x :: r
               end
  end.
Definition copy_pad (n : nat) (l : list Z) : list Z := take n l ++ replicate (n - length l) 0.

Lemma trim_right_pad l : l = trim_right l ++ replicate (length l - length (trim_right l)) 0.
Proof.
  induction l as [|x l IH]; simpl; [done|].
  destruct (trim_right l) as [|y r] eqn:E; simpl in *.
  - rewrite Nat.sub_0_r in IH. destruct (Z.eqb_spec x 0) as [->|]; simpl; [by rewrite <- IH|].
    by rewrite Nat.sub_0_r, <- IH.
  - by rewrite <- IH.
Qed.

Lemma trim_right_inj l k : length l = length k → trim_right l = trim_right k → l = k.
Proof.
  intros Hl Ht. rewrite (trim_right_pad l), (trim_right_pad k). by rewrite Ht, Hl.
Qed.

Lemma trim_right_zeros n : trim_right (replicate n 0) = [].
Proof. induction n as [|n IH]; simpl; [done|]. by rewrite IH. Qed.

Lemma trim_right_copy n l :
  (length l ≤ n)%nat → Forall (λ c, c ≠ 0) l → trim_right (copy_pad n l) = l.
Proof.
  intros Hn H. unfold copy_pad. rewrite take_ge by done.
  set (m := (n - length l)%nat). clearbody m. clear Hn.
  induction H as [|x l Hx Hl IH]; simpl; [apply trim_right_zeros|].
  rewrite IH. destruct l; [by rewrite (proj2 (Z.eqb_neq x 0))|done].
Qed.

Lemma trim_right_Forall (P : Z → Prop) l : Forall P l → Forall P (trim_right l).
Proof. intros H. rewrite (trim_right_pad l) in H. by apply Forall_app in H as [? _]. Qed.

Lemma trim_right_no_zero l : Forall (λ c, c ≠ 0) l → trim_right l = l.
Proof.
  intros H. rewrite <- (trim_right_copy (length l) l) at 2 by done.
  unfold copy_pad. by rewrite take_ge, Nat.sub_diag, app_nil_r.
Qed.

(** ** Keys of lists *)

Lemma NoDup_key {A K} (f : A → K) l x y :
  NoDup (f <$> l) → x ∈ l → y ∈ l → f x = f y → x = y.
Proof.
  induction l as [|z l IH]; [by intros _ ?%not_elem_of_nil|].
  rewrite fmap_cons. intros [Hz Hn]%NoDup_cons [-> | Hx]%elem_of_cons [-> | Hy]%elem_of_cons E; auto.
  - exfalso. apply Hz. rewrite E. by apply list_elem_of_fmap_2.
  - exfalso. apply Hz. rewrite <- E. by apply list_elem_of_fmap_2.
Qed.

Lemma NoDup_key_filter {A K} (f : A → K) (P : A → Prop) `{!∀ x, Decision (P x)} l :
  NoDup (f <$> l) → NoDup (f <$> filter P l).
Proof.
  induction l as [|x l IH]; [done|]. rewrite fmap_cons. intros [Hx Hn]%NoDup_cons.
  rewrite filter_cons. destruct (decide (P x)); [|by apply IH].
  rewrite fmap_cons. apply NoDup_cons. split; [|by apply IH].
  intros (y & Hy & Hin)%list_elem_of_fmap. apply Hx. rewrite Hy.
  apply list_elem_of_fmap_2. by apply list_elem_of_filter in Hin as [_ ?].
Qed.

Lemma Forall_filter_2 {A} (Q P : A → Prop) `{!∀ x, Decision (P x)} l :
  Forall Q l → Forall Q (filter P l).
Proof. rewrite !Forall_forall. intros HQ x [_ Hx]%list_elem_of_filter. auto. Qed.

Lemma filter_all {A} (P : A → Prop) `{!∀ x, Decision (P x)} (l : list A) : Forall P l → filter P l = l.
Proof. induction 1 as [|x l Hx _ IH]; [done|]. rewrite filter_cons_True by done. by f_equal. Qed.

Lemma list_filter_iff_in {A} (P Q : A → Prop) `{!∀ x, Decision (P x), !∀ x, Decision (Q x)} (l : list A) :
  (∀ x, x ∈ l → P x ↔ Q x) → filter P l = filter Q l.
Proof.
  induction l as [|x l IH]; intros Hiff; [done|]. rewrite !filter_cons, IH by (intros; apply Hiff; by right).
  pose proof (Hiff x ltac:(by left)). repeat case_decide; tauto.
Qed.

Lemma filter_none {A} (P : A → Prop) `{!∀ x, Decision (P x)} (l : list A) : Forall (λ x, ¬ P x) l → filter P l = [].
Proof. induction 1 as [|x l Hx _ IH]; [done|]. by rewrite filter_cons_False. Qed.

Lemma filter_filter_comm {A} (P Q : A → Prop) `{!∀ x, Decision (P x), !∀ x, Decision (Q x)} (l : list A) :
  filter P (filter Q l) = filter Q (filter P l).
Proof.
  induction l as [|x l IH]; [done|]. rewrite !filter_cons.
  destruct (decide (Q x)) eqn:EQ, (decide (P x)) eqn:EP;
    rewrite ?filter_cons, ?EQ, ?EP; by rewrite ?IH.
Qed.

Lemma elem_of_concat {A} (ls : list (list A)) x : x ∈ concat ls ↔ ∃ l, l ∈ ls ∧ x ∈ l.
Proof.
  induction ls as [|l ls IH]; simpl.
  - split; [by intros ?%not_elem_of_nil|by intros (? & ?%not_elem_of_nil & ?)].
  - rewrite elem_of_app, IH. setoid_rewrite elem_of_cons. naive_solver.
Qed.

(** Lists built from the entries of a map, whose elements tell their entry. *)
(** The keys of lists, of which each has keys with a first component of its own. *)
Lemma NoDup_concat_fst {A B I J} (key : B → I * J) (id : A → I) (l : list A) (ls : list (list B)) :
  Forall2 (λ x ys, NoDup (key <$> ys) ∧ ∀ y, y ∈ ys → (key y).1 = id x) l ls → NoDup (id <$> l) → NoDup (key <$> concat ls).
Proof.
  induction 1 as [|x ys l ls [Hn Hk] Hl IH]; intros Hid; [constructor|]. rewrite fmap_cons in Hid. apply NoDup_cons in Hid as [Hx Hid].
  cbn [concat]. rewrite fmap_app. apply NoDup_app. split_and!; [done| |by apply IH].
  intros k (y & -> & Hy)%list_elem_of_fmap (z & Hyz & Hz)%list_elem_of_fmap. apply Hx.
  apply elem_of_concat in Hz as (zs & [i Hzs]%list_elem_of_lookup_1 & Hz).
  destruct (Forall2_lookup_r _ _ _ _ _ Hl Hzs) as (x' & Hx' & _ & Hk'). rewrite <- (Hk y Hy), Hyz, (Hk' z Hz).
  by apply list_elem_of_fmap_2, (list_elem_of_lookup_2 _ i).
Qed.

Lemma NoDup_concat_key {A K B} (key : B → K) (h : K * A → list B) l :
  NoDup l.*1 → (∀ kv, kv ∈ l → NoDup (h kv) ∧ ∀ x, x ∈ h kv → key x = kv.1) →
  NoDup (concat (h <$> l)).
Proof.
  induction l as [|kv l IH]; intros Hn Hh; [constructor|].
  rewrite fmap_cons in *. apply NoDup_cons in Hn as [Hk Hn]. simpl.
  apply NoDup_app. split; [apply Hh; by left|]. split; [|apply IH; [done|intros; apply Hh; by right]].
  intros x Hx Hin. apply elem_of_concat in Hin as (l' & Hl' & Hx').
  apply list_elem_of_fmap in Hl' as (kv' & -> & Hkv'). apply Hk.
  destruct (Hh kv ltac:(by left)) as [_ H1]. destruct (Hh kv' ltac:(by right)) as [_ H2].
  rewrite <- (H1 x Hx), (H2 x Hx'). by apply list_elem_of_fmap_2.
Qed.

Lemma foldl_insert_lookup {K A} `{Countable K} (key : A → K) (l : list A) (m : gmap K A) x :
  NoDup (key <$> l) → x ∈ l → foldl (λ m y, <[key y := y]> m) m l !! key x = Some x.
Proof.
  revert m. induction l as [|y l IH]; intros m Hn; [by intros ?%not_elem_of_nil|].
  rewrite fmap_cons in Hn. apply NoDup_cons in Hn as [Hy Hn]. simpl.
  intros [-> | Hx]%elem_of_cons; [|by apply IH].
  clear IH Hn. rename y into x.
  assert (<[key x := x]> m !! key x = Some x) as Hm by by rewrite lookup_insert_eq.
  revert Hm. generalize (<[key x := x]> m). clear m. revert Hy.
  induction l as [|z l IH]; intros Hx m Hm; simpl; [done|].
  rewrite fmap_cons, not_elem_of_cons in Hx. destruct Hx as [Hz Hx]. apply IH; [done|].
  by rewrite lookup_insert_ne.
Qed.

Lemma foldl_insert_None {K A} `{Countable K} (key : A → K) (l : list A) (m : gmap K A) k :
  k ∉ key <$> l → foldl (λ m y, <[key y := y]> m) m l !! k = m !! k.
Proof.
  revert m. induction l as [|y l IH]; intros m Hk; simpl; [done|].
  rewrite fmap_cons, not_elem_of_cons in Hk. destruct Hk as [Hy Hk].
  rewrite IH by done. by rewrite lookup_insert_ne.
Qed.

(** ** The order of strings is total *)

Lemma str_ltb_irrefl s : str_ltb s s = false.
Proof. induction s as [|a s IH]; simpl; [done|]. by rewrite Z.eqb_refl. Qed.

Lemma str_ltb_antisym s t : str_ltb s t = false → str_ltb t s = false → s = t.
Proof.
  revert t. induction s as [|a s IH]; intros [|b t]; simpl; try done.
  rewrite (Z.eqb_sym b a). destruct (Z.eqb_spec a b) as [->|]; [|lia].
  intros H1 H2. f_equal. by apply IH.
Qed.

Lemma str_ltb_trans s t u : str_ltb s t = true → str_ltb t u = true → str_ltb s u = true.
Proof.
  revert t u. induction s as [|a s IH]; intros [|b t] [|c u]; simpl; try done.
  destruct (Z.eqb_spec a b) as [->|], (Z.eqb_spec b c) as [->|]; intros H1 H2.
  - by apply (IH t).
  - done.
  - destruct (Z.eqb_spec a c); [lia|done].
  - destruct (Z.eqb_spec a c); lia.
Qed.

(** ** An insertion sort, to instantiate sorting parameters *)

Fixpoint insert_by {A} (less : A → A → bool) (x : A) (l : list A) : list A :=
  match l with
  | [] => [x]
  | y :: l' => if less y x then y :: insert_by less x l' else x :: y :: l'
  end.
Definition sort_by {A} (less : A → A → bool) (l : list A) : list A := foldr (insert_by less) [] l.

Lemma insert_by_perm {A} (less : A → A → bool) x l : insert_by less x l ≡ₚ x :: l.
Proof.
  induction l as [|y l IH]; simpl; [done|]. destruct (less y x); [|done].
  rewrite IH. apply Permutation_swap.
Qed.

Lemma sort_by_perm {A} (less : A → A → bool) l : sort_by less l ≡ₚ l.
Proof. induction l as [|x l IH]; simpl; [done|]. by rewrite insert_by_perm, IH. Qed.

(** [sort.Slice] permutes the list, and sorts it when [less] is a strict weak
    order on its elements. *)
Definition sorts {A} (sort_slice : (A → A → bool) → list A → list A) : Prop :=
  ∀ less l, sort_slice less l ≡ₚ l ∧
    ((∀ x y, x ∈ l → y ∈ l → less x y = true → less y x = false) →
     (∀ x y z, x ∈ l → y ∈ l → z ∈ l → less y x = false → less z y = false → less z x = false) →
     StronglySorted (λ x y, less y x = false) (sort_slice less l)).

Lemma insert_by_sorted {A} (less : A → A → bool) x l :
  (∀ y, y ∈ l → less y x = true → less x y = false) →
  (∀ y z, y ∈ l → z ∈ l → less y x = false → less z y = false → less z x = false) →
  StronglySorted (λ x y, less y x = false) l →
  StronglySorted (λ x y, less y x = false) (insert_by less x l).
Proof.
  intros Ha Ht Hs. induction Hs as [|y l Hs IH Hy]; simpl; [by repeat constructor|].
  destruct (less y x) eqn:E.
  - constructor.
    + apply IH; [intros; apply Ha; [by right|done]|].
      intros a b Hain Hbin. apply Ht; by right.
    + rewrite insert_by_perm. apply Forall_cons. split; [|done]. apply Ha; [by left|done].
  - constructor; [by constructor|]. apply Forall_cons. split; [done|].
    rewrite Forall_forall in Hy |- *. intros z Hz. apply (Ht y z); [by left|by right|done|by apply Hy].
Qed.

Lemma sort_by_sorts {A} : sorts (@sort_by A).
Proof.
  intros less l. split; [apply sort_by_perm|]. intros Ha Ht.
  induction l as [|x l IH]; simpl; [constructor|]. apply insert_by_sorted.
  - intros y Hy. rewrite sort_by_perm in Hy. apply Ha; [by right|by left].
  - intros y z Hy Hz. rewrite sort_by_perm in Hy, Hz. apply Ht; [by left|by right|by right].
  - apply IH; [intros; apply Ha; [by right|by right|done]|].
    intros a b c Ha' Hb' Hc'. apply Ht; by right.
Qed.

(** Sorted lists of strings are determined by their elements. *)
Definition str_le (s t : gostring) : Prop := str_ltb t s = false.

Lemma str_ltb_asym s t : str_ltb s t = true → str_ltb t s = false.
Proof.
  intros H1. destruct (str_ltb t s) eqn:H2; [|done].
  pose proof (str_ltb_trans _ _ _ H1 H2) as H. by rewrite str_ltb_irrefl in H.
Qed.

Lemma str_le_trans s t u : str_le s t → str_le t u → str_le s u.
Proof.
  unfold str_le. intros H1 H2. destruct (str_ltb u s) eqn:H; [|done].
  destruct (str_ltb t u) eqn:E.
  - rewrite (str_ltb_trans _ _ _ E H) in H1. done.
  - by rewrite (str_ltb_antisym t u E H2), H in H1.
Qed.

Lemma sort_str_sorted l : StronglySorted str_le (sort_by str_ltb l).
Proof.
  apply (sort_by_sorts str_ltb l).
  - intros s t _ _. apply str_ltb_asym.
  - intros s t u _ _ _ H1 H2. exact (str_le_trans s t u H1 H2).
Qed.

Lemma sort_str_perm l k : l ≡ₚ k → sort_by str_ltb l = sort_by str_ltb k.
Proof.
  intros Hp. apply (StronglySorted_unique_strong str_le).
  - intros s t _ _ H1 H2. by apply str_ltb_antisym.
  - apply sort_str_sorted.
  - apply sort_str_sorted.
  - by rewrite !sort_by_perm.
Qed.

Lemma sort_str_id l : StronglySorted str_le l → sort_by str_ltb l = l.
Proof.
  intros Hs. apply (StronglySorted_unique_strong str_le); [|apply sort_str_sorted|done|apply sort_by_perm].
  intros s t _ _ H1 H2. by apply str_ltb_antisym.
Qed.

Lemma seqZ_sorted m n : StronglySorted Z.lt (seqZ m n).
Proof.
  destruct (Z.leb_spec n 0) as [Hn|Hn]; [rewrite seqZ_nil by lia; constructor|].
  revert m. assert (0 ≤ n) as Hn' by lia. clear Hn. revert n Hn'.
  apply (natlike_ind (λ n, ∀ m, StronglySorted Z.lt (seqZ m n))); [constructor|].
  intros n Hn IH m. rewrite seqZ_cons by lia. rewrite Z.pred_succ. constructor; [apply IH|].
  apply Forall_forall. intros x Hx%elem_of_seqZ. lia.
Qed.
