(* ===== verification/Utf8.v ===== *)
(** * utf8: scrubbing of text

    Models [src/services/aurora/internal/utf8/main.go] with the functions of the
    standard package [unicode/utf8] that it calls. *)

From S2P Require Import Prelude.

Definition RuneError : Z := 0xfffd.

(** The number of bytes that a first byte announces, and the range of the second
    byte. *)
Definition first_byte (b : Z) : option (nat * Z * Z) :=
  if b <? 0x80 then Some (1%nat, 0, 0)
  else if b <? 0xc2 then None
  else if b <? 0xe0 then Some (2%nat, 0x80, 0xbf)
  else if b =? 0xe0 then Some (3%nat, 0xa0, 0xbf)
  else if b =? 0xed then Some (3%nat, 0x80, 0x9f)
  else if b <? 0xf0 then Some (3%nat, 0x80, 0xbf)
  else if b =? 0xf0 then Some (4%nat, 0x90, 0xbf)
  else if b <? 0xf4 then Some (4%nat, 0x80, 0xbf)
  else if b =? 0xf4 then Some (4%nat, 0x80, 0x8f)
  else None.
Definition in_range (b lo hi : Z) : bool := (lo <=? b) && (b <=? hi).
Definition continuation (b : Z) : bool := in_range b 0x80 0xbf.

(** The bits of a byte below the mask, shifted. *)
Definition part (b mask shift : Z) : Z := Z.shiftl (Z.land b mask) shift.

(** The rune at the beginning of a string, and its size: [RuneError] and 1 when
    it is not valid, and 0 at the end. *)
Definition DecodeRune (s : gostring) : Z * nat :=
  match s with
  | [] => (RuneError, 0%nat)
  | b0 :: s =>
      match first_byte b0, s with
      | Some (1%nat, _, _), _ => (b0, 1%nat)
      | Some (2%nat, lo, hi), b1 :: _ =>
          if in_range b1 lo hi then (Z.lor (part b0 0x1f 6) (part b1 0x3f 0), 2%nat) else (RuneError, 1%nat)
      | Some (3%nat, lo, hi), b1 :: b2 :: _ =>
          if in_range b1 lo hi && continuation b2
          then (Z.lor (Z.lor (part b0 0x0f 12) (part b1 0x3f 6)) (part b2 0x3f 0), 3%nat) else (RuneError, 1%nat)
      | Some (4%nat, lo, hi), b1 :: b2 :: b3 :: _ =>
          if in_range b1 lo hi && continuation b2 && continuation b3
          then (Z.lor (Z.lor (Z.lor (part b0 0x07 18) (part b1 0x3f 12)) (part b2 0x3f 6)) (part b3 0x3f 0), 4%nat)
          else (RuneError, 1%nat)
      | _, _ => (RuneError, 1%nat)
      end
  end.

(** Whether the first rune is valid. *)
Definition valid_rune (s : gostring) : bool :=
  match DecodeRune s with
  | (r, 1%nat) => negb (r =? RuneError)
  | (_, O) => false
  | _ => true
  end.
Fixpoint valid_loop (fuel : nat) (s : gostring) : bool :=
  match fuel, s with
  | _, [] => true
  | O, _ => false
  | S fuel, _ => valid_rune s && valid_loop fuel (drop (DecodeRune s).2 s)
  end.
Definition ValidString (s : gostring) : bool := valid_loop (length s) s.

(** [bytes.Buffer.WriteRune] *)
Definition EncodeRune (r : Z) : gostring :=
  let tail shift := Z.lor 0x80 (Z.land (Z.shiftr r shift) 0x3f) in
  if r <? 0x80 then [u8 r]
  else if r <? 0x800 then [Z.lor 0xc0 (Z.shiftr r 6); tail 0]
  else if (0x10ffff <? r) || in_range r 0xd800 0xdfff then [0xef; 0xbf; 0xbd]
  else if r <? 0x10000 then [Z.lor 0xe0 (Z.shiftr r 12); tail 6; tail 0]
  else [Z.lor 0xf0 (Z.shiftr r 18); tail 12; tail 6; tail 0].

Fixpoint scrub_loop (fuel : nat) (left result : gostring) : gostring :=
  match fuel, left with
  | _, [] => result
  | O, _ => result
  | S fuel, _ =>
      let '(r, n) := DecodeRune left in
      scrub_loop fuel (drop n left) (result ++ EncodeRune r)
  end.
Definition Scrub (s : gostring) : gostring := if ValidString s then s else scrub_loop (length s) s [].

(** ** A rune is a well-formed sequence of bytes *)

(** The well-formed sequences, as in the table of the Unicode standard. *)
Inductive utf8_rune : gostring → Prop :=
  | rune1 b0 : 0 ≤ b0 < 0x80 → utf8_rune [b0]
  | rune2 b0 b1 lo hi : first_byte b0 = Some (2%nat, lo, hi) → lo ≤ b1 ≤ hi → utf8_rune [b0; b1]
  | rune3 b0 b1 b2 lo hi :
      first_byte b0 = Some (3%nat, lo, hi) → lo ≤ b1 ≤ hi → 0x80 ≤ b2 ≤ 0xbf → utf8_rune [b0; b1; b2]
  | rune4 b0 b1 b2 b3 lo hi :
      first_byte b0 = Some (4%nat, lo, hi) → lo ≤ b1 ≤ hi → 0x80 ≤ b2 ≤ 0xbf → 0x80 ≤ b3 ≤ 0xbf → utf8_rune [b0; b1; b2; b3].
Inductive utf8_string : gostring → Prop :=
  | utf8_nil : utf8_string []
  | utf8_cons r s : utf8_rune r → utf8_string s → utf8_string (r ++ s).

Lemma in_range_spec b lo hi : in_range b lo hi = true ↔ lo ≤ b ≤ hi.
Proof. unfold in_range. rewrite andb_true_iff, !Z.leb_le. done. Qed.

(** The bytes of a first byte. *)
Ltac first_byte_cases H := unfold first_byte in H; repeat case_if; simplify_eq.

Lemma first_byte_range b n lo hi : first_byte b = Some (n, lo, hi) →
  (n = 1%nat ∧ b < 0x80) ∨ (n = 2%nat ∧ 0xc2 ≤ b ≤ 0xdf ∧ lo = 0x80 ∧ hi = 0xbf) ∨
  (n = 3%nat ∧ 0xe0 ≤ b ≤ 0xef ∧ 0x80 ≤ lo ∧ hi ≤ 0xbf ∧ (b = 0xe0 → lo = 0xa0) ∧ (b = 0xed → hi = 0x9f)) ∨
  (n = 4%nat ∧ 0xf0 ≤ b ≤ 0xf4 ∧ 0x80 ≤ lo ∧ hi ≤ 0xbf ∧ (b = 0xf0 → lo = 0x90) ∧ (b = 0xf4 → hi = 0x8f)).
Proof. intros H. first_byte_cases H; lia. Qed.

(** *** Encoding what was decoded *)

Lemma part_spec b k m s : 0 ≤ k → 0 ≤ s → m = Z.ones k → part b m s = (b mod 2 ^ k) * 2 ^ s.
Proof. intros Hk Hs ->. unfold part. by rewrite Z.land_ones, Z.shiftl_mul_pow2 by lia. Qed.

Lemma tail_spec r s : 0 ≤ s → Z.lor 0x80 (Z.land (Z.shiftr r s) 0x3f) = 0x80 + (r / 2 ^ s) mod 64.
Proof.
  intros Hs. change 0x3f with (Z.ones 6). rewrite Z.land_ones, Z.shiftr_div_pow2 by lia.
  change 0x80 with (2 * 2 ^ 6) at 1. rewrite lor_shifted; [done|lia|]. apply Z.mod_pos_bound. lia.
Qed.

Lemma lead_spec c k r s : 0 ≤ k → 0 ≤ s → 0 ≤ r / 2 ^ s < 2 ^ k → Z.lor (c * 2 ^ k) (Z.shiftr r s) = c * 2 ^ k + r / 2 ^ s.
Proof. intros Hk Hs Hr. rewrite Z.shiftr_div_pow2 by lia. by apply lor_shifted. Qed.

(** The number that a sequence encodes. *)
Definition rune_value (r : gostring) : Z :=
  match r with
  | [b0] => b0
  | [b0; b1] => (b0 - 0xc0) * 64 + (b1 - 0x80)
  | [b0; b1; b2] => (b0 - 0xe0) * 4096 + (b1 - 0x80) * 64 + (b2 - 0x80)
  | [b0; b1; b2; b3] => (b0 - 0xf0) * 262144 + (b1 - 0x80) * 4096 + (b2 - 0x80) * 64 + (b3 - 0x80)
  | _ => RuneError
  end.

Lemma DecodeRune_rune r s : utf8_rune r → DecodeRune (r ++ s) = (rune_value r, length r).
Proof.
  destruct 1 as [b0 H0|b0 b1 lo hi E H1|b0 b1 b2 lo hi E H1 H2|b0 b1 b2 b3 lo hi E H1 H2 H3]; cbn [app DecodeRune length rune_value].
  - unfold first_byte. by rewrite (proj2 (Z.ltb_lt _ _)) by lia.
  - rewrite E, (proj2 (in_range_spec b1 lo hi)) by done. apply first_byte_range in E. f_equal.
    rewrite (part_spec b0 5), (part_spec b1 6) by (done || lia). rewrite Z.pow_0_r, Z.mul_1_r, lor_shifted by zlia. zlia.
  - unfold continuation. rewrite E, (proj2 (in_range_spec b1 lo hi)), (proj2 (in_range_spec b2 _ _)) by done.
    apply first_byte_range in E. cbn [andb]. f_equal.
    rewrite (part_spec b0 4), (part_spec b1 6), (part_spec b2 6) by (done || lia).
    rewrite Z.pow_0_r, Z.mul_1_r, <- Z.lor_assoc, (lor_shifted (b1 mod _)), lor_shifted by zlia. zlia.
  - unfold continuation. rewrite E, (proj2 (in_range_spec b1 lo hi)), (proj2 (in_range_spec b2 _ _)), (proj2 (in_range_spec b3 _ _)) by done.
    apply first_byte_range in E. cbn [andb]. f_equal.
    rewrite (part_spec b0 3), (part_spec b1 6), (part_spec b2 6), (part_spec b3 6) by (done || lia).
    rewrite Z.pow_0_r, Z.mul_1_r, <- !Z.lor_assoc, (lor_shifted (b2 mod _)), (lor_shifted (b1 mod _)), lor_shifted by zlia. zlia.
Qed.

Lemma EncodeRune_rune r : utf8_rune r → EncodeRune (rune_value r) = r.
Proof.
  unfold EncodeRune. cbv zeta. rewrite !tail_spec by lia.
  destruct 1 as [b0 H0|b0 b1 lo hi E H1|b0 b1 b2 lo hi E H1 H2|b0 b1 b2 b3 lo hi E H1 H2 H3]; cbn [rune_value].
  - rewrite (proj2 (Z.ltb_lt _ _)) by lia. by rewrite u8_small by (unfold is_u8; lia).
  - apply first_byte_range in E. rewrite (proj2 (Z.ltb_ge _ 0x80)), (proj2 (Z.ltb_lt _ 0x800)) by lia.
    change 0xc0 with (6 * 2 ^ 5) at 1. rewrite lead_spec by zlia. f_equal; [zlia|f_equal; zlia].
  - apply first_byte_range in E.
    assert (0x800 ≤ rune_value [b0; b1; b2] < 0x10000 ∧ in_range (rune_value [b0; b1; b2]) 0xd800 0xdfff = false) as [Hv Hs].
    { cbn [rune_value]. split; [lia|]. unfold in_range. apply andb_false_iff. rewrite !Z.leb_gt. lia. }
    cbn [rune_value] in Hv, Hs. rewrite Hs, orb_false_r.
    rewrite (proj2 (Z.ltb_ge _ 0x80)), (proj2 (Z.ltb_ge _ 0x800)), (proj2 (Z.ltb_ge 0x10ffff _)), (proj2 (Z.ltb_lt _ 0x10000)) by lia.
    change 0xe0 with (14 * 2 ^ 4) at 1. rewrite lead_spec by zlia. f_equal; [zlia|f_equal; [zlia|f_equal; zlia]].
  - apply first_byte_range in E.
    assert (0x10000 ≤ rune_value [b0; b1; b2; b3] ≤ 0x10ffff ∧ in_range (rune_value [b0; b1; b2; b3]) 0xd800 0xdfff = false) as [Hv Hs].
    { cbn [rune_value]. split; [lia|]. unfold in_range. apply andb_false_iff. rewrite !Z.leb_gt. lia. }
    cbn [rune_value] in Hv, Hs. rewrite Hs, orb_false_r.
    rewrite (proj2 (Z.ltb_ge _ 0x80)), (proj2 (Z.ltb_ge _ 0x800)), (proj2 (Z.ltb_ge 0x10ffff _)), (proj2 (Z.ltb_ge _ 0x10000)) by lia.
    change 0xf0 with (30 * 2 ^ 3) at 1. rewrite lead_spec by zlia. f_equal; [zlia|f_equal; [zlia|f_equal; [zlia|f_equal; zlia]]].
Qed.

(** *** Reading a string *)

Lemma utf8_rune_error : utf8_rune [0xef; 0xbf; 0xbd].
Proof. by apply (rune3 _ _ _ 0x80 0xbf). Qed.
Lemma utf8_rune_length r : utf8_rune r → (0 < length r)%nat.
Proof. destruct 1; cbn; lia. Qed.

(** Either a rune begins the string, or one byte is not valid. *)
Lemma DecodeRune_cases s : Forall is_u8 s → s ≠ [] →
  (∃ r s', s = r ++ s' ∧ utf8_rune r ∧ DecodeRune s = (rune_value r, length r)) ∨
  (DecodeRune s = (RuneError, 1%nat) ∧ ¬ ∃ r s', s = r ++ s' ∧ utf8_rune r).
Proof.
  intros Hu Hne. destruct (decide (DecodeRune s = (RuneError, 1%nat))) as [He|He].
  - right. split; [done|]. intros (r & s' & -> & Hr). rewrite (DecodeRune_rune r s' Hr) in He. injection He as Hv Hl.
    destruct Hr; try done. cbn in Hv. unfold RuneError in Hv. lia.
  - left. assert (∃ r s', s = r ++ s' ∧ utf8_rune r) as (r & s' & -> & Hr); [|by exists r, s'; rewrite DecodeRune_rune].
    destruct s as [|b0 s]; [done|]. apply Forall_cons in Hu as [Hb0 _]. unfold is_u8 in Hb0. unfold DecodeRune in He.
    destruct (first_byte b0) as [[[n lo] hi]|] eqn:E; [|done]. pose proof (first_byte_range _ _ _ _ E) as Hn.
    destruct n as [|[|[|[|[|n]]]]]; try lia.
    + exists [b0], s. split; [done|]. constructor. lia.
    + destruct s as [|b1 s]; [done|]. destruct (in_range b1 lo hi) eqn:E1; [|done]. apply in_range_spec in E1.
      exists [b0; b1], s. split; [done|]. by econstructor.
    + destruct s as [|b1 [|b2 s]]; [done..|]. destruct (in_range b1 lo hi && continuation b2) eqn:E1; [|done].
      apply andb_prop in E1 as [E1%in_range_spec E2%in_range_spec]. exists [b0; b1; b2], s. split; [done|]. by econstructor.
    + destruct s as [|b1 [|b2 [|b3 s]]]; [done..|]. destruct (in_range b1 lo hi && continuation b2 && continuation b3) eqn:E1; [|done].
      apply andb_prop in E1 as [[E1%in_range_spec E2%in_range_spec]%andb_prop E3%in_range_spec].
      exists [b0; b1; b2; b3], s. split; [done|]. by econstructor.
Qed.

Lemma valid_rune_spec s : Forall is_u8 s → s ≠ [] → valid_rune s = true ↔ ∃ r s', s = r ++ s' ∧ utf8_rune r.
Proof.
  intros Hu Hne. unfold valid_rune. destruct (DecodeRune_cases s Hu Hne) as [(r & s' & -> & Hr & ->)|[-> Hno]]; [|done].
  split; [intros _; by exists r, s'|intros _]. destruct Hr as [b0 H0| | |]; try done. cbn. rewrite negb_true_iff. apply Z.eqb_neq. unfold RuneError. lia.
Qed.

Lemma utf8_string_cons_inv r s : utf8_rune r → utf8_string (r ++ s) → utf8_string s.
Proof.
  intros Hr Hs. remember (r ++ s) as x eqn:Ex. destruct Hs as [|r' s' Hr' Hs].
  { destruct Hr; done. }
  pose proof (DecodeRune_rune r s Hr) as E1. rewrite <- Ex, (DecodeRune_rune r' s' Hr') in E1. injection E1 as _ El.
  by apply app_inj_1 in Ex as [_ <-].
Qed.

Lemma valid_loop_spec fuel s : (length s ≤ fuel)%nat → Forall is_u8 s → valid_loop fuel s = true ↔ utf8_string s.
Proof.
  revert s. induction fuel as [|fuel IH]; intros s Hf Hu; (destruct s as [|b s]; [split; [constructor|done]|]); [cbn in Hf; lia|].
  cbn [valid_loop]. rewrite andb_true_iff, (valid_rune_spec (b :: s)) by done. split.
  - intros [(r & s' & E & Hr) Hd]. rewrite E in *. rewrite DecodeRune_rune in Hd by done. cbn [snd] in Hd.
    rewrite drop_app_length in Hd. apply Forall_app in Hu as [_ Hu]. rewrite length_app in Hf. apply utf8_rune_length in Hr as Hl.
    apply IH in Hd; [by constructor|lia|done].
  - intros Hs. assert (∃ r s', b :: s = r ++ s' ∧ utf8_rune r) as (r & s' & E & Hr).
    { remember (b :: s) as x eqn:Ex. destruct Hs as [|r s' Hr Hs]; [done|]. by exists r, s'. }
    split; [by exists r, s'|]. rewrite E in *. rewrite DecodeRune_rune by done. cbn [snd]. rewrite drop_app_length.
    apply Forall_app in Hu as [_ Hu]. rewrite length_app in Hf. apply utf8_rune_length in Hr as Hl.
    apply IH; [lia|done|]. by eapply utf8_string_cons_inv.
Qed.

Lemma utf8_string_app s t : utf8_string s → utf8_string t → utf8_string (s ++ t).
Proof. intros Hs Ht. induction Hs as [|r s Hr Hs IH]; [done|]. rewrite <- app_assoc. by constructor. Qed.

Lemma scrub_loop_spec fuel left result :
  (length left ≤ fuel)%nat → Forall is_u8 left → utf8_string result → utf8_string (scrub_loop fuel left result).
Proof.
  revert left result. induction fuel as [|fuel IH]; intros left result Hf Hu Hr; (destruct left as [|b left]; [done|]); [cbn in Hf; lia|].
  cbn [scrub_loop].
  destruct (DecodeRune_cases (b :: left) Hu) as [(r & s' & E & Hr' & ->)|[-> _]]; [done|..].
  - rewrite E in *. apply Forall_app in Hu as [_ Hu]. rewrite length_app in Hf. apply utf8_rune_length in Hr' as Hl.
    rewrite drop_app_length. apply IH; [lia|done|]. rewrite EncodeRune_rune by done. apply utf8_string_app; [done|].
    rewrite <- (app_nil_r r). repeat constructor. done.
  - cbn [drop]. rewrite drop_0. apply IH; [cbn in Hf; lia|by apply Forall_cons in Hu as [_ Hu]|]. apply utf8_string_app; [done|].
    rewrite <- (app_nil_r (EncodeRune RuneError)). constructor; [apply utf8_rune_error|constructor].
Qed.

(** ** Properties *)

(** Scrubbed text is a sequence of well-formed UTF-8 runes, and text that is
    one already is not changed. *)
Lemma Scrub_spec s :
  Forall is_u8 s → utf8_string (Scrub s) ∧ (utf8_string s → Scrub s = s) ∧ (ValidString s = true ↔ utf8_string s).
Proof.
  intros Hu. pose proof (valid_loop_spec (length s) s ltac:(done) Hu) as Hv. unfold Scrub. fold (ValidString s) in Hv.
  destruct (ValidString s) eqn:E.
  - split_and!; [by apply Hv|done|done].
  - split_and!; [apply scrub_loop_spec; [done|done|constructor]|intros Hs; by apply Hv in Hs|done].
Qed.

(** *** Taking bytes out *)

Lemma utf8_string_filter_NUL s : utf8_string s → utf8_string (filter (λ c, c ≠ 0) s).
Proof.
  induction 1 as [|r s Hr Hs IH]; [constructor|]. rewrite filter_app.
  assert (filter (λ c, c ≠ 0) r = r ∨ filter (λ c, c ≠ 0) r = []) as [->| ->]; [|by constructor|done].
  destruct Hr as [b0 H0|b0 b1 lo hi E|b0 b1 b2 lo hi E|b0 b1 b2 b3 lo hi E]; try apply first_byte_range in E.
  - rewrite filter_cons. destruct (decide (b0 ≠ 0)); [by left|by right].
  - left. rewrite !filter_cons, !decide_True by lia. done.
  - left. rewrite !filter_cons, !decide_True by lia. done.
  - left. rewrite !filter_cons, !decide_True by lia. done.
Qed.
