(* ===== verification/Encoding.v ===== *)
(** * Texts of byte strings: hexadecimal and base64

    What the code uses of [encoding/hex] and of the [StdEncoding] of
    [encoding/base64] ([EncodeToString], [DecodeString]), which make the texts of
    hashes, balance identifiers, ledger keys, signatures and nonces. *)

From S2P Require Import Prelude.

Module Hex.

Definition digit (d : Z) : Z := if d <? 10 then d + 48 else d + 87.
Fixpoint EncodeToString (src : list Z) : gostring :=
  match src with
  | [] => []
  | b :: src => digit (Z.shiftr b 4) :: digit (Z.land b 0x0f) :: EncodeToString src
  end.

(** [fromHexChar] *)
Definition value (c : Z) : option Z :=
  if (48 <=? c) && (c <=? 57) then Some (c - 48)
  else if (97 <=? c) && (c <=? 102) then Some (c - 97 + 10)
  else if (65 <=? c) && (c <=? 70) then Some (c - 65 + 10)
  else None.
(** [None] for a character that is no digit or an odd number of digits. *)
Fixpoint DecodeString (s : gostring) : option (list Z) :=
  match s with
  | [] => Some []
  | [_] => None
  | a :: b :: s =>
      a ← value a; b ← value b; rest ← DecodeString s;
      Some (Z.lor (u8 (Z.shiftl a 4)) b :: rest)
  end.

Lemma byte_digits b : is_u8 b →
  value (digit (Z.shiftr b 4)) = Some (Z.shiftr b 4) ∧ value (digit (Z.land b 15)) = Some (Z.land b 15) ∧
  Z.lor (u8 (Z.shiftl (Z.shiftr b 4) 4)) (Z.land b 15) = b.
Proof.
  intros Hb.
  assert (forallb (λ n, let b := Z.of_nat n in
    bool_decide (value (digit (Z.shiftr b 4)) = Some (Z.shiftr b 4)) &&
    bool_decide (value (digit (Z.land b 15)) = Some (Z.land b 15)) &&
    bool_decide (Z.lor (u8 (Z.shiftl (Z.shiftr b 4) 4)) (Z.land b 15) = b)) (seq 0 256) = true) as H by (vm_compute; reflexivity).
  rewrite forallb_forall in H. specialize (H (Z.to_nat b)). unfold is_u8 in Hb.
  rewrite Z2Nat.id in H by lia. cbv zeta in H. rewrite !andb_true_iff, !bool_decide_eq_true in H.
  destruct H as [[? ?] ?]; [|done]. apply in_seq. lia.
Qed.

Lemma hex_Decode_Encode src : Forall is_u8 src → DecodeString (EncodeToString src) = Some src.
Proof.
  induction 1 as [|b src Hb _ IH]; [done|]. cbn [EncodeToString DecodeString].
  destruct (byte_digits b Hb) as (-> & -> & E). simpl. rewrite IH. simpl. by rewrite E.
Qed.

Lemma hex_Encode_inj a b : Forall is_u8 a → Forall is_u8 b → EncodeToString a = EncodeToString b → a = b.
Proof. intros Ha Hb E. apply (inj Some). by rewrite <- (hex_Decode_Encode a), <- (hex_Decode_Encode b), E. Qed.
End Hex.

Module Base64.

Definition alphabet : gostring := str "ABCDEFGHIJKLMNOPQRSTUVWXYZabcdefghijklmnopqrstuvwxyz0123456789+/".
Definition pad : Z := 61.
Definition char (v : Z) : Z := nth (Z.to_nat (Z.land v 0x3f)) alphabet 0.

(** Three bytes as a number. *)
Definition quantum (s0 s1 s2 : Z) : Z := Z.lor (Z.lor (Z.shiftl s0 16) (Z.shiftl s1 8)) s2.
Fixpoint EncodeToString (src : list Z) : gostring :=
  match src with
  | [] => []
  | [s0] => let v := quantum s0 0 0 in [char (Z.shiftr v 18); char (Z.shiftr v 12); pad; pad]
  | [s0; s1] => let v := quantum s0 s1 0 in [char (Z.shiftr v 18); char (Z.shiftr v 12); char (Z.shiftr v 6); pad]
  | s0 :: s1 :: s2 :: src =>
      let v := quantum s0 s1 s2 in
      char (Z.shiftr v 18) :: char (Z.shiftr v 12) :: char (Z.shiftr v 6) :: char v :: EncodeToString src
  end.

Lemma land_range w x : 0 ≤ w → 0 ≤ Z.land x (Z.ones w) < 2 ^ w.
Proof. intros Hw. rewrite Z.land_ones by done. apply Z.mod_pos_bound. by apply Z.pow_pos_nonneg. Qed.

Lemma char_inj u v : char u = char v → Z.land u 0x3f = Z.land v 0x3f.
Proof.
  assert (forallb (λ i, forallb (λ j, implb (nth i alphabet 0 =? nth j alphabet 0) (i =? j)%nat) (seq 0 64)) (seq 0 64) = true)
    as H by (vm_compute; reflexivity).
  rewrite forallb_forall in H. unfold char. intros E.
  pose proof (land_range 6 u ltac:(done)) as Hu. pose proof (land_range 6 v ltac:(done)) as Hv.
  change (Z.ones 6) with 0x3f in *. change (2 ^ 6) with 64 in *. specialize (H (Z.to_nat (Z.land u 0x3f))).
  rewrite forallb_forall in H. specialize (H ltac:(apply in_seq; lia) (Z.to_nat (Z.land v 0x3f)) ltac:(apply in_seq; lia)).
  rewrite E, Z.eqb_refl in H. cbn [implb] in H. apply Nat.eqb_eq in H. lia.
Qed.

Lemma char_pad v : char v ≠ pad.
Proof.
  assert (Forall (λ c, c ≠ pad) alphabet) as H by (apply (bool_decide_unpack _); vm_compute; reflexivity).
  unfold char. pose proof (land_range 6 v ltac:(done)) as Hr.
  change (Z.ones 6) with 0x3f in *. change (2 ^ 6) with 64 in *.
  rewrite List.Forall_forall in H. apply H, nth_In. change (length alphabet) with 64%nat. lia.
Qed.

(** The bytes from the values of the digits. *)
Definition digit (i v : Z) : Z := Z.land (Z.shiftr v (18 - 6 * i)) 0x3f.
Definition byte0 (d0 d1 : Z) : Z := Z.land (Z.lor (Z.shiftl d0 2) (Z.shiftr d1 4)) 0xff.
Definition byte1 (d1 d2 : Z) : Z := Z.land (Z.lor (Z.shiftl d1 4) (Z.shiftr d2 2)) 0xff.
Definition byte2 (d2 d3 : Z) : Z := Z.land (Z.lor (Z.shiftl d2 6) d3) 0xff.

Lemma quantum_digits s0 s1 s2 : 0 ≤ s0 < 2 ^ 8 → 0 ≤ s1 < 2 ^ 8 → 0 ≤ s2 < 2 ^ 8 →
  let v := quantum s0 s1 s2 in
  byte0 (digit 0 v) (digit 1 v) = s0 ∧ byte1 (digit 1 v) (digit 2 v) = s1 ∧ byte2 (digit 2 v) (digit 3 v) = s2.
Proof.
  intros H0 H1 H2 v. subst v. unfold byte0, byte1, byte2, digit, quantum.
  change (18 - 6 * 0) with 18. change (18 - 6 * 1) with 12. change (18 - 6 * 2) with 6. change (18 - 6 * 3) with 0.
  rewrite Z.shiftr_0_r.
  split_and!; (bit_blast 8; [apply (land_range 8); lia|done]).
Qed.

Lemma char0 v v' : char (Z.shiftr v 18) = char (Z.shiftr v' 18) → digit 0 v = digit 0 v'.
Proof. apply char_inj. Qed.
Lemma char1 v v' : char (Z.shiftr v 12) = char (Z.shiftr v' 12) → digit 1 v = digit 1 v'.
Proof. apply char_inj. Qed.
Lemma char2 v v' : char (Z.shiftr v 6) = char (Z.shiftr v' 6) → digit 2 v = digit 2 v'.
Proof. apply char_inj. Qed.
Lemma char3 v v' : char v = char v' → digit 3 v = digit 3 v'.
Proof. unfold digit. change (18 - 6 * 3) with 0. rewrite !Z.shiftr_0_r. apply char_inj. Qed.

Lemma quantum_inj s0 s1 s2 t0 t1 t2 :
  is_u8 s0 → is_u8 s1 → is_u8 s2 → is_u8 t0 → is_u8 t1 → is_u8 t2 →
  let v := quantum s0 s1 s2 in let u := quantum t0 t1 t2 in
  digit 0 v = digit 0 u → digit 1 v = digit 1 u →
  s0 = t0 ∧ (digit 2 v = digit 2 u → s1 = t1 ∧ (digit 3 v = digit 3 u → s2 = t2)).
Proof.
  intros H0 H1 H2 G0 G1 G2 v u E0 E1. unfold is_u8 in *. change 256 with (2 ^ 8) in *.
  destruct (quantum_digits s0 s1 s2) as (Hs0 & Hs1 & Hs2); [done..|].
  destruct (quantum_digits t0 t1 t2) as (Ht0 & Ht1 & Ht2); [done..|]. fold v in Hs0, Hs1, Hs2. fold u in Ht0, Ht1, Ht2.
  rewrite E0, E1 in *. split; [congruence|]. intros E2. rewrite E2 in *. split; [congruence|]. intros E3. rewrite E3 in *. congruence.
Qed.

Lemma base64_Encode_inj a b : Forall is_u8 a → Forall is_u8 b → EncodeToString a = EncodeToString b → a = b.
Proof.
  revert a b. fix IH 1. intros [|s0 [|s1 [|s2 a]]] [|t0 [|t1 [|t2 b]]] Ha Hb E; try discriminate E; try reflexivity;
    cbn [EncodeToString] in E.
  all: repeat match goal with H : Forall _ (_ :: _) |- _ => apply Forall_cons in H as [? H] end.
  all: try (exfalso; injection E; intros; by match goal with
    | H : char _ = pad |- _ => apply char_pad in H
    | H : pad = char _ |- _ => symmetry in H; apply char_pad in H end).
  all: assert (is_u8 0) as Hz by (unfold is_u8; lia).
  - injection E as E0%char0 E1%char1. destruct (quantum_inj s0 0 0 t0 0 0) as [-> _]; done.
  - injection E as E0%char0 E1%char1 E2%char2. destruct (quantum_inj s0 s1 0 t0 t1 0) as [-> Hq]; [done..|].
    by destruct (Hq E2) as [-> _].
  - injection E as E0%char0 E1%char1 E2%char2 E3%char3 E. apply IH in E as ->; [|done..].
    destruct (quantum_inj s0 s1 s2 t0 t1 t2) as [-> Hq]; [done..|]. destruct (Hq E2) as [-> Hq3]. by rewrite (Hq3 E3).
Qed.

(** *** Decoding

    [StdEncoding.DecodeString]: line ends are skipped, the last group is padded,
    bits left over are not checked; [None] for every other text. *)
Definition value (c : Z) : option Z :=
  if (65 <=? c) && (c <=? 90) then Some (c - 65)
  else if (97 <=? c) && (c <=? 122) then Some (c - 71)
  else if (48 <=? c) && (c <=? 57) then Some (c + 4)
  else if c =? 43 then Some 62 else if c =? 47 then Some 63 else None.
Fixpoint decode_groups (s : gostring) : option (list Z) :=
  match s with
  | [] => Some []
  | a :: b :: c :: d :: s =>
      a ← value a; b ← value b;
      if (c =? pad) && (d =? pad) && bool_decide (s = []) then Some [byte0 a b] else
      c ← value c;
      if (d =? pad) && bool_decide (s = []) then Some [byte0 a b; byte1 b c] else
      d ← value d; rest ← decode_groups s; Some (byte0 a b :: byte1 b c :: byte2 c d :: rest)
  | _ => None
  end.
Definition is_line_end (c : Z) : bool := (c =? 10) || (c =? 13).
Definition DecodeString (s : gostring) : option (list Z) := decode_groups (filter (λ c, is_line_end c = false) s).

Lemma char_value v : value (char v) = Some (Z.land v 0x3f) ∧ is_line_end (char v) = false.
Proof.
  pose proof (land_range 6 v ltac:(done)) as Hr. change (Z.ones 6) with 0x3f in *. change (2 ^ 6) with 64 in *. unfold char.
  assert (forallb (λ i, bool_decide (value (nth i alphabet 0) = Some (Z.of_nat i)) && negb (is_line_end (nth i alphabet 0))) (seq 0 64) = true)
    as H by (vm_compute; reflexivity).
  rewrite forallb_forall in H. specialize (H (Z.to_nat (Z.land v 0x3f)) ltac:(apply in_seq; lia)).
  apply andb_true_iff in H as [->%bool_decide_eq_true H2]. rewrite Z2Nat.id by lia. split; [done|]. by apply negb_true_iff.
Qed.

Lemma char_digits v :
  value (char (Z.shiftr v 18)) = Some (digit 0 v) ∧ value (char (Z.shiftr v 12)) = Some (digit 1 v) ∧
  value (char (Z.shiftr v 6)) = Some (digit 2 v) ∧ value (char v) = Some (digit 3 v).
Proof.
  unfold digit. change (18 - 6 * 0) with 18. change (18 - 6 * 1) with 12. change (18 - 6 * 2) with 6. change (18 - 6 * 3) with 0.
  rewrite Z.shiftr_0_r. split_and!; apply char_value.
Qed.

Lemma Encode_no_line_end src : Forall (λ c, is_line_end c = false) (EncodeToString src).
Proof.
  revert src. fix IH 1. intros [|s0 [|s1 [|s2 src]]]; cbn [EncodeToString]; [constructor|..];
    repeat (apply Forall_cons; split; [apply char_value || done|]); [constructor|constructor|apply IH].
Qed.

Lemma decode_groups_Encode src : Forall is_u8 src → decode_groups (EncodeToString src) = Some src.
Proof.
  revert src. fix IH 1. intros [|s0 [|s1 [|s2 src]]] H; [done|..]; cbn [EncodeToString];
    repeat match goal with H : Forall _ (_ :: _) |- _ => apply Forall_cons in H as [? H] end.
  all: assert (is_u8 0) as Hz by (unfold is_u8; lia).
  all: match goal with |- context [quantum ?a ?b ?c] => destruct (quantum_digits a b c) as (Hq0 & Hq1 & Hq2); [done..|];
    destruct (char_digits (quantum a b c)) as (D0 & D1 & D2 & D3) end.
  all: cbn [decode_groups]; rewrite D0, D1; cbn [mbind option_bind].
  - by rewrite Z.eqb_refl, Hq0.
  - rewrite (proj2 (Z.eqb_neq _ pad)) by apply char_pad. cbn [andb]. rewrite D2. cbn [mbind option_bind]. by rewrite Z.eqb_refl, Hq0, Hq1.
  - rewrite !(proj2 (Z.eqb_neq _ pad)) by apply char_pad. cbn [andb]. rewrite D2, D3. cbn [mbind option_bind].
    rewrite (IH src H). by rewrite Hq0, Hq1, Hq2.
Qed.

Lemma base64_Decode_Encode src : Forall is_u8 src → DecodeString (EncodeToString src) = Some src.
Proof. intros H. unfold DecodeString. rewrite filter_all by apply Encode_no_line_end. by apply decode_groups_Encode. Qed.

Lemma base64_Encode_length src : length (EncodeToString src) = (4 * ((length src + 2) / 3))%nat.
Proof.
  revert src. fix IH 1. intros [|s0 [|s1 [|s2 src]]]; [done..|]. cbn [EncodeToString length]. rewrite IH.
  replace (S (S (S (length src))) + 2)%nat with ((length src + 2) + 1 * 3)%nat by lia. rewrite Nat.div_add by done. lia.
Qed.
End Base64.

(** ** Properties *)

(** a byte string reads back from its hexadecimal text and from its base64 text,
    and the base64 texts of different byte strings are different, so they serve as
    keys. *)
Theorem encodings_faithful a b :
  Forall is_u8 a → Forall is_u8 b →
  Hex.DecodeString (Hex.EncodeToString a) = Some a ∧ Base64.DecodeString (Base64.EncodeToString a) = Some a ∧
  (Base64.EncodeToString a = Base64.EncodeToString b ↔ a = b).
Proof.
  intros Ha Hb. split; [by apply Hex.hex_Decode_Encode|]. split; [by apply Base64.base64_Decode_Encode|]. split; [by apply Base64.base64_Encode_inj|by intros ->].
Qed.

Theorem encodings_faithful_witness :
  Hex.DecodeString (Hex.EncodeToString [0; 171; 255]) = Some [0; 171; 255] ∧
  Base64.DecodeString (Base64.EncodeToString [0; 171; 255]) = Some [0; 171; 255] ∧
  (Base64.EncodeToString [0; 171; 255] = Base64.EncodeToString [0; 171] ↔ [0; 171; 255] = [0; 171]).
Proof. apply encodings_faithful; repeat (apply List.Forall_cons; [unfold is_u8; lia|]); apply List.Forall_nil. Defined.

Example base64_text : Base64.EncodeToString (str "any carnal pleas") = str "YW55IGNhcm5hbCBwbGVhcw==".
Proof. reflexivity. Qed.
