(* ===== verification/BatchInsert.v ===== *)
(** * support/db: batch inserts

    Models [src/support/db/batch_insert_builder.go] and [columnsForStruct] of
    [internal.go].  A row of [Row] is a map from columns to values, a row of
    [RowStruct] a type with the map of its fields; reflection is that view of a
    struct.  [exec] is the database's [INSERT] of some rows, a parameter; the
    session is the state it changes. *)

From S2P Require Import Prelude.

Definition postgresQueryMaxParams : Z := 65535.

Inductive batch_error (E : Type) :=
  | ErrNumberOfColumns (expected actual : nat)
  | ErrColumn (column : gostring)
  | ErrType
  | ErrExec (e : E).
Arguments ErrNumberOfColumns {E}. Arguments ErrColumn {E}. Arguments ErrType {E}. Arguments ErrExec {E}.

(** The [INSERT] statement of some rows of values. *)
Record statement (V : Type) := MkStatement { stmt_columns : list gostring; stmt_rows : list (list V) }.
Arguments MkStatement {V}. Arguments stmt_columns {V}. Arguments stmt_rows {V}.

(** [columns == nil] until the first row. *)
Record BatchInsertBuilder (V : Type) := MkBatch {
  MaxBatchSize : nat;
  columns : option (list gostring);
  rows : list (list V);
  rowStructType : option gostring }.
Arguments MkBatch {V}. Arguments MaxBatchSize {V}. Arguments columns {V}. Arguments rows {V}. Arguments rowStructType {V}.

Section builder.
Context {V E T : Type} (exec : statement V → T → outcome E T).

Definition columnsForStruct (row : gmap gostring V) : list gostring :=
  sort_by str_ltb (filter (λ k, 46 ∉ k) (map_to_list row).*1).

(** [insertSQL] is the statement with the columns and no rows. *)
Definition insertSQL (b : BatchInsertBuilder V) : statement V := MkStatement (default [] (columns b)) [].
Definition Values (s : statement V) (row : list V) : statement V :=
  MkStatement (stmt_columns s) (stmt_rows s ++ [row]).

(** The rows are added to [sql]; a full statement is executed at once. *)
Fixpoint exec_loop (b : BatchInsertBuilder V) (todo : list (list V)) (sql : statement V) (paramsCount : Z)
    (t : T) : outcome (batch_error E) (statement V * Z * T) :=
  match todo with
  | [] => Ret (sql, paramsCount, t)
  | row :: todo' =>
      let sql := Values sql row in
      let paramsCount := paramsCount + Z.of_nat (length row) in
      if postgresQueryMaxParams - 2 * Z.of_nat (length (default [] (columns b))) <? paramsCount then
        t ← map_fail ErrExec (exec sql t);
        exec_loop b todo' (insertSQL b) 0 t
      else exec_loop b todo' sql paramsCount t
  end.
Definition Exec (b : BatchInsertBuilder V) (t : T) : outcome (batch_error E) (BatchInsertBuilder V * T) :=
  '(sql, paramsCount, t) ← exec_loop b (rows b) (insertSQL b) 0 t;
  t ← (if 0 <? paramsCount then map_fail ErrExec (exec sql t) else Ret t);
  Ret (MkBatch (MaxBatchSize b) (columns b) [] (rowStructType b), t).

(** The end of [Row] and [RowStruct]. *)
Definition append_row (b : BatchInsertBuilder V) (rowSlice : list V) (t : T)
  : outcome (batch_error E) (BatchInsertBuilder V * T) :=
  let b := MkBatch (MaxBatchSize b) (columns b) (rows b ++ [rowSlice]) (rowStructType b) in
  if (length (rows b) =? MaxBatchSize b)%nat then Exec b t else Ret (b, t).

Definition row_slice (cols : list gostring) (row : gmap gostring V) : outcome (batch_error E) (list V) :=
  mfold (λ rowSlice column,
    match row !! column with
    | Some val => Ret (rowSlice ++ [val])
    | None => Fail (ErrColumn column)
    end) [] cols.

Definition Row (b : BatchInsertBuilder V) (row : gmap gostring V) (t : T)
  : outcome (batch_error E) (BatchInsertBuilder V * T) :=
  let b := match columns b with
           | Some _ => b
           | None => MkBatch (MaxBatchSize b) (Some (sort_by str_ltb (map_to_list row).*1)) [] (rowStructType b)
           end in
  let cols := default [] (columns b) in
  if negb (length cols =? size row)%nat then Fail (ErrNumberOfColumns (length cols) (size row)) else
  rowSlice ← row_slice cols row;
  append_row b rowSlice t.

(** [FieldsByName] panics on a column that the struct does not have. *)
Definition RowStruct (b : BatchInsertBuilder V) (rowType : gostring) (row : gmap gostring V) (t : T)
  : outcome (batch_error E) (BatchInsertBuilder V * T) :=
  let b := match columns b with
           | Some _ => b
           | None => MkBatch (MaxBatchSize b) (Some (columnsForStruct row)) [] (rowStructType b)
           end in
  b ← match rowStructType b with
      | None => Ret (MkBatch (MaxBatchSize b) (columns b) (rows b) (Some rowType))
      | Some ty => if bool_decide (ty = rowType) then Ret b else Fail ErrType
      end;
  columnValues ← must (row_slice (default [] (columns b)) row);
  append_row b columnValues t.

(** Adding rows one after the other, and executing what is left. *)
Definition add_rows (b : BatchInsertBuilder V) (rs : list (gmap gostring V)) (t : T)
  : outcome (batch_error E) (BatchInsertBuilder V * T) :=
  mfold (λ '(b, t) row, Row b row t) (b, t) rs.
Definition insert_all (b : BatchInsertBuilder V) (rs : list (gmap gostring V)) (t : T)
  : outcome (batch_error E) (BatchInsertBuilder V * T) :=
  '(b, t) ← add_rows b rs t;
  Exec b t.
End builder.

(** ** Every row is inserted once, in order, in statements of bounded size *)
Section spec.
Context {V E T : Type} (exec : statement V → T → outcome E T).

(** The values of a row in the order of the columns. *)
Definition values_of (cols : list gostring) (row : gmap gostring V) : list V := omap (λ c, row !! c) cols.
Definition cols_of (row : gmap gostring V) : list gostring := sort_by str_ltb (map_to_list row).*1.

Definition run (stmts : list (statement V)) (t : T) : outcome (batch_error E) T :=
  map_fail ErrExec (mfold (λ t s, exec s t) t stmts).

Lemma run_app s1 s2 t : run (s1 ++ s2) t = outcome_bind (run s2) (run s1 t).
Proof. unfold run. rewrite mfold_app. by destruct (mfold _ t s1). Qed.

Lemma run_one s t : run [s] t = map_fail ErrExec (exec s t).
Proof. unfold run. simpl. by destruct (exec s t). Qed.

Definition stmt_ok (cols : list gostring) (s : statement V) : Prop :=
  stmt_columns s = cols ∧ stmt_rows s ≠ [] ∧
  Z.of_nat (length (stmt_rows s)) * Z.of_nat (length cols) ≤ postgresQueryMaxParams.

Context (cols : list gostring) (Hcols : 0 < Z.of_nat (length cols)) (Hmax : 2 * Z.of_nat (length cols) ≤ postgresQueryMaxParams).

Lemma exec_loop_spec b todo sql :
  columns b = Some cols → stmt_columns sql = cols →
  Z.of_nat (length (stmt_rows sql)) * Z.of_nat (length cols) ≤ postgresQueryMaxParams - 2 * Z.of_nat (length cols) →
  Forall (λ r, length r = length cols) todo →
  ∃ stmts sql', concat (stmt_rows <$> stmts) ++ stmt_rows sql' = stmt_rows sql ++ todo ∧
    Forall (stmt_ok cols) stmts ∧ stmt_columns sql' = cols ∧
    Z.of_nat (length (stmt_rows sql')) * Z.of_nat (length cols) ≤ postgresQueryMaxParams ∧
    ∀ t, exec_loop exec b todo sql (Z.of_nat (length (stmt_rows sql)) * Z.of_nat (length cols)) t =
      outcome_bind (λ t', Ret (sql', Z.of_nat (length (stmt_rows sql')) * Z.of_nat (length cols), t')) (run stmts t).
Proof.
  intros Hb. revert sql. induction todo as [|row todo IH]; intros sql Hsql Hle Hall; simpl.
  { exists [], sql. rewrite app_nil_r. split_and!; [done..|lia|done]. }
  apply Forall_cons in Hall as [Hrow Hall]. rewrite Hb. simpl.
  assert (Z.of_nat (length (stmt_rows (Values sql row))) * Z.of_nat (length cols) =
    Z.of_nat (length (stmt_rows sql)) * Z.of_nat (length cols) + Z.of_nat (length row)) as Hp.
  { simpl. rewrite length_app. simpl. lia. }
  rewrite <- Hp. destruct (Z.ltb_spec (postgresQueryMaxParams - 2 * Z.of_nat (length cols))
    (Z.of_nat (length (stmt_rows (Values sql row))) * Z.of_nat (length cols))) as [Hfull|Hfull].
  - destruct (IH (insertSQL b)) as (stmts & sql' & H1 & H2 & H3 & H4 & H5);
      [unfold insertSQL; by rewrite Hb|simpl; lia|done|].
    exists (Values sql row :: stmts), sql'. split_and!; [|constructor; [split_and!|]|..]; try done.
    + simpl. rewrite <- !app_assoc. f_equal. exact (f_equal (cons row) H1).
    + simpl. by destruct (stmt_rows sql).
    + lia.
    + intros t. change (Values sql row :: stmts) with ([Values sql row] ++ stmts).
      rewrite run_app, run_one. destruct (exec _ t) as [t1|e|]; outcome_simpl; simpl; [|done|done]. apply H5.
  - destruct (IH (Values sql row)) as (stmts & sql' & H1 & H2 & H3 & H4 & H5); [done|lia|done|].
    exists stmts, sql'. split_and!; try done. rewrite H1. simpl. by rewrite <- app_assoc.
Qed.

Lemma Exec_spec b :
  columns b = Some cols → Forall (λ r, length r = length cols) (rows b) →
  ∃ stmts, concat (stmt_rows <$> stmts) = rows b ∧ Forall (stmt_ok cols) stmts ∧
    ∀ t, Exec exec b t =
      outcome_bind (λ t', Ret (MkBatch (MaxBatchSize b) (columns b) [] (rowStructType b), t')) (run stmts t).
Proof.
  intros Hb Hrows. destruct (exec_loop_spec b (rows b) (insertSQL b)) as (stmts & sql & H1 & H2 & H3 & H4 & H5);
    [done|unfold insertSQL; by rewrite Hb|simpl; lia|done|].
  assert (∀ t, exec_loop exec b (rows b) (insertSQL b) 0 t = outcome_bind
    (λ t', Ret (sql, Z.of_nat (length (stmt_rows sql)) * Z.of_nat (length cols), t')) (run stmts t)) as H5' by exact H5.
  clear H5. unfold Exec. destruct (stmt_rows sql) as [|r rs] eqn:Es.
  - exists stmts. rewrite app_nil_r in H1. split_and!; [done..|]. intros t. rewrite (H5' t).
    by destruct (run stmts t).
  - exists (stmts ++ [sql]). split_and!.
    + rewrite fmap_app, concat_app. simpl. by rewrite app_nil_r, Es.
    + apply Forall_app. split; [done|]. constructor; [|done]. unfold stmt_ok. rewrite Es. done.
    + intros t. rewrite (H5' t), run_app. destruct (run stmts t) as [t1|e|]; outcome_simpl; simpl; [|done|done].
      rewrite (proj2 (Z.ltb_lt 0 _)) by lia. by rewrite run_one.
Qed.

Lemma row_slice_values (row : gmap gostring V) cs acc :
  (∀ c, c ∈ cs → is_Some (row !! c)) →
  mfold (λ rowSlice column, match row !! column with
    | Some val => Ret (rowSlice ++ [val]) | None => Fail (ErrColumn column) end) acc cs =
  Ret (acc ++ values_of cs row) :> outcome (batch_error E) _.
Proof.
  revert acc. induction cs as [|c cs IH]; intros acc Hc; simpl; [by rewrite app_nil_r|].
  destruct (Hc c) as [v Hv]; [by left|]. unfold values_of. simpl. rewrite Hv. simpl.
  rewrite IH by (intros; apply Hc; by right). by rewrite <- app_assoc.
Qed.

Lemma values_of_length (row : gmap gostring V) cs :
  (∀ c, c ∈ cs → is_Some (row !! c)) → length (values_of cs row) = length cs.
Proof.
  unfold values_of. induction cs as [|c cs IH]; intros Hc; simpl; [done|].
  destruct (Hc c) as [v ->]; [by left|]. simpl. f_equal. apply IH. intros; apply Hc; by right.
Qed.

(** A builder in use: its pending rows have the columns [cols]. *)
Definition in_use (b : BatchInsertBuilder V) : Prop :=
  match columns b with Some cs => cs = cols | None => rows b = [] end ∧
  Forall (λ r, length r = length cols) (rows b).

Lemma Row_spec b row :
  in_use b → cols_of row = cols →
  ∃ b' stmts, rows b ++ [values_of cols row] = concat (stmt_rows <$> stmts) ++ rows b' ∧
    Forall (stmt_ok cols) stmts ∧ columns b' = Some cols ∧ in_use b' ∧
    ∀ t, Row exec b row t = outcome_bind (λ t', Ret (b', t')) (run stmts t).
Proof.
  intros [Hc Hr] Hrow. unfold Row. unfold cols_of in Hrow.
  set (b1 := match columns b with Some _ => b | None => _ end).
  assert (columns b1 = Some cols ∧ rows b1 = rows b) as [Hc1 Hr1].
  { subst b1. destruct (columns b) as [cs|] eqn:Ec; [by subst cs|]. rewrite Hrow. by rewrite Hc. }
  assert (∀ c, c ∈ cols → is_Some (row !! c)) as Hin.
  { intros c. rewrite <- Hrow, sort_by_perm, list_elem_of_fmap.
    intros ([k v] & -> & H%elem_of_map_to_list). by exists v. }
  assert (length cols = size row) as Hl by (rewrite <- Hrow, sort_by_perm, length_fmap; apply length_map_to_list).
  unfold append_row, row_slice. rewrite Hc1. simpl.
  rewrite Hl, Nat.eqb_refl. simpl. rewrite row_slice_values by done. simpl.
  set (b2 := MkBatch (MaxBatchSize b1) (Some cols) (rows b1 ++ [values_of cols row]) (rowStructType b1)).
  assert (Forall (λ r, length r = length cols) (rows b2)) as Hr2.
  { simpl. rewrite Hr1. apply Forall_app. split; [done|]. constructor; [by apply values_of_length|done]. }
  case_if.
  - destruct (Exec_spec b2 eq_refl Hr2) as (stmts & H1 & H2 & H3).
    exists (MkBatch (MaxBatchSize b2) (columns b2) [] (rowStructType b2)), stmts.
    rewrite H1. simpl. rewrite app_nil_r, Hr1. split_and!; [done..| |exact H3]. by split.
  - exists b2, []. simpl. rewrite Hr1. split_and!; [done..| |done]. by split.
Qed.

Lemma add_rows_spec rs b :
  in_use b → Forall (λ row, cols_of row = cols) rs →
  ∃ b' stmts, rows b ++ (values_of cols <$> rs) = concat (stmt_rows <$> stmts) ++ rows b' ∧
    Forall (stmt_ok cols) stmts ∧ in_use b' ∧ columns b' = match rs with [] => columns b | _ => Some cols end ∧
    ∀ t, add_rows exec b rs t = outcome_bind (λ t', Ret (b', t')) (run stmts t).
Proof.
  unfold add_rows. revert b. induction rs as [|row rs IH]; intros b Hb Hrs.
  { exists b, []. simpl. rewrite app_nil_r. done. }
  apply Forall_cons in Hrs as [Hrow Hrs]. destruct (Row_spec b row Hb Hrow) as (b1 & s1 & H1 & H2 & H3 & H4 & H5).
  destruct (IH b1 H4 Hrs) as (b2 & s2 & G1 & G2 & G3 & G4 & G5). exists b2, (s1 ++ s2). split_and!.
  - rewrite fmap_cons, cons_middle, app_assoc, H1, <- app_assoc, G1, fmap_app, concat_app. by rewrite <- app_assoc.
  - by apply Forall_app.
  - done.
  - rewrite G4. by destruct rs.
  - intros t. simpl. rewrite H5, run_app. destruct (run s1 t); simpl; [apply G5|done|done].
Qed.
End spec.

(** a batch insert builder inserts every row that was added exactly once and
    in the order of the calls, whatever [MaxBatchSize] is, through statements that
    have the columns of the rows, at least one row, and at most
    postgresQueryMaxParams parameters; it fails exactly as the first failing
    statement does, is empty afterwards, and refuses a row with another number of
    columns. *)
Theorem BatchInsertBuilder_inserts {V E T} (exec : statement V → T → outcome E T) cols maxBatchSize rs :
  cols ≠ [] → 2 * Z.of_nat (length cols) ≤ postgresQueryMaxParams →
  rs ≠ [] → Forall (λ row, cols_of row = cols) rs →
  ∃ b stmts, concat (stmt_rows <$> stmts) = values_of cols <$> rs ∧ Forall (stmt_ok cols) stmts ∧ rows b = [] ∧
    (∀ t, insert_all exec (MkBatch maxBatchSize None [] None) rs t = outcome_bind (λ t', Ret (b, t')) (run exec stmts t)) ∧
    (∀ row t, size row ≠ length cols → Row exec b row t = Fail (ErrNumberOfColumns (length cols) (size row))).
Proof.
  intros Hne Hmax Hrs Hall. assert (0 < Z.of_nat (length cols)) as Hc by (destruct cols; simpl; [done|lia]).
  destruct (add_rows_spec exec cols Hc Hmax rs (MkBatch maxBatchSize None [] None)) as (b & s1 & H1 & H2 & [H3 H3'] & H4 & H5);
    [done|done|]. assert (columns b = Some cols) as Hb by (rewrite H4; by destruct rs).
  destruct (Exec_spec exec cols Hc Hmax b Hb H3') as (s2 & G1 & G2 & G3).
  exists (MkBatch (MaxBatchSize b) (columns b) [] (rowStructType b)), (s1 ++ s2). split_and!; [| |done| |].
  - rewrite fmap_app, concat_app, G1. by rewrite <- H1.
  - by apply Forall_app.
  - intros t. unfold insert_all. rewrite H5, run_app. destruct (run exec s1 t); simpl; [apply G3|done|done].
  - intros row t Hsz. unfold Row. simpl. rewrite Hb. simpl. rewrite (proj2 (Nat.eqb_neq _ _)) by done. done.
Qed.

(** Three rows of one column in batches of two, into a list. *)
Definition example_row (v : Z) : gmap gostring Z := {[ str "id" := v ]}.
Definition example_exec (s : statement Z) (t : list (list (list Z))) : outcome unit (list (list (list Z))) :=
  Ret (t ++ [stmt_rows s]).

Example insert_all_batches :
  insert_all example_exec (MkBatch 2 None [] None) (example_row <$> [1; 2; 3]) [] =
  Ret (MkBatch 2 (Some [str "id"]) [] None, [[[1]; [2]]; [[3]]]).
Proof. by vm_compute. Qed.

Theorem BatchInsertBuilder_inserts_witness :
  ∃ b stmts, concat (stmt_rows <$> stmts) = values_of [str "id"] <$> (example_row <$> [1; 2; 3]) ∧
    Forall (stmt_ok [str "id"]) stmts ∧ rows b = [] ∧
    (∀ t, insert_all example_exec (MkBatch 2 None [] None) (example_row <$> [1; 2; 3]) t =
      outcome_bind (λ t', Ret (b, t')) (run example_exec stmts t)) ∧
    (∀ row t, size row ≠ length [str "id"] →
      Row example_exec b row t = Fail (ErrNumberOfColumns (length [str "id"]) (size row))).
Proof.
  apply BatchInsertBuilder_inserts; [done|by vm_compute|done|].
  repeat (apply Forall_cons; split); [..|by apply Forall_nil]; by vm_compute.
Defined.
