(* ===== verification/Crc16.v ===== *)
(** * crc16: the CRC-16/XMODEM checksum of strkeys

    Models [src/crc16/main.go].  [Checksum] is the table-driven loop of the
    source; [crc_byte] is the reference definition, one shift-register step per
    bit with the polynomial 0x1021.  The theorems show that the table computes
    the reference, that [Validate] accepts exactly the computed checksum, and
    that corruption confined to two adjacent bytes never goes unnoticed. *)

From S2P Require Import Prelude.

Inductive crc_error := ErrInvalidChecksum.

Definition crc16tab : list Z := [
    0x0; 0x1021; 0x2042; 0x3063; 0x4084; 0x50a5; 0x60c6; 0x70e7;
    0x8108; 0x9129; 0xa14a; 0xb16b; 0xc18c; 0xd1ad; 0xe1ce; 0xf1ef;
    0x1231; 0x210; 0x3273; 0x2252; 0x52b5; 0x4294; 0x72f7; 0x62d6;
    0x9339; 0x8318; 0xb37b; 0xa35a; 0xd3bd; 0xc39c; 0xf3ff; 0xe3de;
    0x2462; 0x3443; 0x420; 0x1401; 0x64e6; 0x74c7; 0x44a4; 0x5485;
    0xa56a; 0xb54b; 0x8528; 0x9509; 0xe5ee; 0xf5cf; 0xc5ac; 0xd58d;
    0x3653; 0x2672; 0x1611; 0x630; 0x76d7; 0x66f6; 0x5695; 0x46b4;
    0xb75b; 0xa77a; 0x9719; 0x8738; 0xf7df; 0xe7fe; 0xd79d; 0xc7bc;
    0x48c4; 0x58e5; 0x6886; 0x78a7; 0x840; 0x1861; 0x2802; 0x3823;
    0xc9cc; 0xd9ed; 0xe98e; 0xf9af; 0x8948; 0x9969; 0xa90a; 0xb92b;
    0x5af5; 0x4ad4; 0x7ab7; 0x6a96; 0x1a71; 0xa50; 0x3a33; 0x2a12;
    0xdbfd; 0xcbdc; 0xfbbf; 0xeb9e; 0x9b79; 0x8b58; 0xbb3b; 0xab1a;
    0x6ca6; 0x7c87; 0x4ce4; 0x5cc5; 0x2c22; 0x3c03; 0xc60; 0x1c41;
    0xedae; 0xfd8f; 0xcdec; 0xddcd; 0xad2a; 0xbd0b; 0x8d68; 0x9d49;
    0x7e97; 0x6eb6; 0x5ed5; 0x4ef4; 0x3e13; 0x2e32; 0x1e51; 0xe70;
    0xff9f; 0xefbe; 0xdfdd; 0xcffc; 0xbf1b; 0xaf3a; 0x9f59; 0x8f78;
    0x9188; 0x81a9; 0xb1ca; 0xa1eb; 0xd10c; 0xc12d; 0xf14e; 0xe16f;
    0x1080; 0xa1; 0x30c2; 0x20e3; 0x5004; 0x4025; 0x7046; 0x6067;
    0x83b9; 0x9398; 0xa3fb; 0xb3da; 0xc33d; 0xd31c; 0xe37f; 0xf35e;
    0x2b1; 0x1290; 0x22f3; 0x32d2; 0x4235; 0x5214; 0x6277; 0x7256;
    0xb5ea; 0xa5cb; 0x95a8; 0x8589; 0xf56e; 0xe54f; 0xd52c; 0xc50d;
    0x34e2; 0x24c3; 0x14a0; 0x481; 0x7466; 0x6447; 0x5424; 0x4405;
    0xa7db; 0xb7fa; 0x8799; 0x97b8; 0xe75f; 0xf77e; 0xc71d; 0xd73c;
    0x26d3; 0x36f2; 0x691; 0x16b0; 0x6657; 0x7676; 0x4615; 0x5634;
    0xd94c; 0xc96d; 0xf90e; 0xe92f; 0x99c8; 0x89e9; 0xb98a; 0xa9ab;
    0x5844; 0x4865; 0x7806; 0x6827; 0x18c0; 0x8e1; 0x3882; 0x28a3;
    0xcb7d; 0xdb5c; 0xeb3f; 0xfb1e; 0x8bf9; 0x9bd8; 0xabbb; 0xbb9a;
    0x4a75; 0x5a54; 0x6a37; 0x7a16; 0xaf1; 0x1ad0; 0x2ab3; 0x3a92;
    0xfd2e; 0xed0f; 0xdd6c; 0xcd4d; 0xbdaa; 0xad8b; 0x9de8; 0x8dc9;
    0x7c26; 0x6c07; 0x5c64; 0x4c45; 0x3ca2; 0x2c83; 0x1ce0; 0xcc1;
    0xef1f; 0xff3e; 0xcf5d; 0xdf7c; 0xaf9b; 0xbfba; 0x8fd9; 0x9ff8;
    0x6e17; 0x7e36; 0x4e55; 0x5e74; 0x2e93; 0x3eb2; 0xed1; 0x1ef0].

(** One iteration of the loop of [Checksum]. *)
Definition crc_step (crc b : Z) : Z :=
  Z.lxor (Z.land (u16 (Z.shiftl crc 8)) 0xffff)
         (nth (Z.to_nat (Z.land (Z.lxor (Z.shiftr crc 8) b) 0x00ff)) crc16tab 0).

Definition crc_loop (crc : Z) (data : list Z) : Z := foldl crc_step crc data.

(** [binary.Write] of a [uint16] in little-endian order. *)
Definition le16 (x : Z) : list Z := [u8 x; u8 (Z.shiftr x 8)].

Definition Checksum (data : list Z) : list Z := le16 (crc_loop 0 data).

Definition Validate (data expected : list Z) : outcome crc_error unit :=
  if bool_decide (Checksum data = expected) then Ret tt else Fail ErrInvalidChecksum.

(** ** The reference shift register *)

Definition crc_bit (crc : Z) : Z :=
  if Z.testbit crc 15 then Z.lxor (u16 (Z.shiftl crc 1)) 0x1021
  else u16 (Z.shiftl crc 1).
Definition crc_bits (n : nat) (crc : Z) : Z := Nat.iter n crc_bit crc.
Definition crc_byte (crc b : Z) : Z := crc_bits 8 (Z.lxor crc (Z.shiftl b 8)).
Definition crc_ref (data : list Z) : Z := foldl crc_byte 0 data.

(** ** The register is linear over exclusive or *)

Lemma u16_lxor x y : u16 (Z.lxor x y) = Z.lxor (u16 x) (u16 y).
Proof.
  apply Z.bits_inj'. intros n Hn. unfold u16.
  rewrite Z.lxor_spec, !wrap_u_testbit, Z.lxor_spec by lia.
  case_bool_decide; simpl; done.
Qed.

Lemma crc_bit_range x : is_u16 (crc_bit x).
Proof.
  unfold crc_bit, is_u16. case_if; [apply lxor_range|]; try lia; apply (wrap_u_range 16); lia.
Qed.

Lemma crc_bit_lxor x y : crc_bit (Z.lxor x y) = Z.lxor (crc_bit x) (crc_bit y).
Proof.
  unfold crc_bit. rewrite Z.lxor_spec, Z.shiftl_lxor, u16_lxor.
  destruct (Z.testbit x 15), (Z.testbit y 15); simpl; lxor_bits.
Qed.

Lemma crc_bits_lxor n x y : crc_bits n (Z.lxor x y) = Z.lxor (crc_bits n x) (crc_bits n y).
Proof.
  unfold crc_bits. induction n as [|n IH]; simpl; [done|]. by rewrite IH, crc_bit_lxor.
Qed.

Lemma crc_bits_range n x : is_u16 x → is_u16 (crc_bits n x).
Proof. destruct n; simpl; [done|]. intros. apply crc_bit_range. Qed.

Lemma crc_bits_add n m x : crc_bits n (crc_bits m x) = crc_bits (n + m) x.
Proof. unfold crc_bits. by rewrite Nat.iter_add. Qed.

(** A 16-bit register that steps to zero was zero: the polynomial has a
    constant term. *)
Lemma crc_bit_zero x : is_u16 x → crc_bit x = 0 → x = 0.
Proof.
  intros Hx H. unfold crc_bit in H.
  assert (Hs : ∀ n, 0 ≤ n < 15 → Z.testbit (u16 (Z.shiftl x 1)) (n + 1) = Z.testbit x n).
  { intros n Hn. unfold u16. rewrite wrap_u_testbit by lia.
    rewrite bool_decide_eq_true_2, Z.shiftl_spec, andb_true_l by lia. f_equal. lia. }
  assert (H0 : Z.testbit (u16 (Z.shiftl x 1)) 0 = false).
  { unfold u16. rewrite wrap_u_testbit, Z.shiftl_spec by lia.
    rewrite (Z.testbit_neg_r x) by lia. apply andb_false_r. }
  destruct (Z.testbit x 15) eqn:E15.
  { apply (f_equal (λ v, Z.testbit v 0)) in H. by rewrite Z.lxor_spec, H0 in H. }
  rewrite H in Hs. apply (bits_ext 16); [done|lia|]. intros n Hn. rewrite Z.bits_0.
  destruct (decide (n = 15)) as [->|]; [done|].
  rewrite <- Hs by lia. apply Z.bits_0.
Qed.

Lemma crc_bits_zero n x : is_u16 x → crc_bits n x = 0 → x = 0.
Proof.
  intros Hx. induction n as [|n IH]; simpl; [done|]. intros H.
  apply IH, crc_bit_zero; [by apply crc_bits_range|done].
Qed.

Lemma crc_bits_inj n x y : is_u16 x → is_u16 y → crc_bits n x = crc_bits n y → x = y.
Proof.
  intros Hx Hy H. apply Z.lxor_eq, (crc_bits_zero n); [apply lxor_range; done|].
  by rewrite crc_bits_lxor, H, Z.lxor_nilpotent.
Qed.

(** ** The table computes eight register steps *)

Definition bytes256 : list Z := Z.of_nat <$> seq 0 256.

Lemma bytes256_all (P : Z → bool) : forallb P bytes256 = true → ∀ b, is_u8 b → P b = true.
Proof.
  intros H b Hb. rewrite forallb_forall in H. apply H, list_elem_of_In.
  apply list_elem_of_fmap. exists (Z.to_nat b). unfold is_u8 in Hb.
  split; [lia|]. apply elem_of_seq. lia.
Qed.

Lemma crc_table_high b : is_u8 b → nth (Z.to_nat b) crc16tab 0 = crc_bits 8 (Z.shiftl b 8).
Proof.
  intros Hb. apply Z.eqb_eq. revert b Hb. by apply bytes256_all.
Qed.

Lemma crc_bits_low b : is_u8 b → crc_bits 8 b = Z.shiftl b 8.
Proof. intros Hb. apply Z.eqb_eq. revert b Hb. by apply bytes256_all. Qed.

Lemma u16_split x : is_u16 x → x = Z.lxor (Z.shiftl (Z.shiftr x 8) 8) (Z.land x 0xff).
Proof.
  intros Hx. apply Z.bits_inj'. intros n Hn. change 0xff with (Z.ones 8).
  rewrite Z.lxor_spec, Z.land_spec, Z.shiftl_spec by done.
  destruct (decide (n < 8)).
  - rewrite (Z.testbit_neg_r _ (n - 8)), Z.ones_spec_low by lia. by destruct (Z.testbit x n).
  - rewrite Z.shiftr_spec, Z.ones_spec_high by lia.
    rewrite Z.sub_add. by destruct (Z.testbit x n).
Qed.

Lemma land_ff_range x : is_u8 (Z.land x 0xff).
Proof.
  change 0xff with (Z.ones 8). rewrite Z.land_ones by lia. apply Z.mod_pos_bound. lia.
Qed.

Lemma shiftr8_range x : is_u16 x → is_u8 (Z.shiftr x 8).
Proof. unfold is_u16, is_u8. intros H. rewrite Z.shiftr_div_pow2 by lia. zlia. Qed.

Lemma crc_step_byte crc b : is_u16 crc → is_u8 b → crc_step crc b = crc_byte crc b.
Proof.
  intros Hc Hb. unfold crc_step, crc_byte.
  pose proof (shiftr8_range _ Hc) as Hh. pose proof (land_ff_range crc) as Hl.
  assert (is_u8 (Z.lxor (Z.shiftr crc 8) b)) as Hx by (apply lxor_range; done).
  assert (Z.land (Z.lxor (Z.shiftr crc 8) b) 255 = Z.lxor (Z.shiftr crc 8) b) as ->.
  { change 255 with (Z.ones 8). rewrite Z.land_ones by lia. by apply Z.mod_small. }
  rewrite crc_table_high by done. rewrite (u16_split crc Hc) at 3.
  rewrite (Z.lxor_comm (Z.shiftl _ _) (Z.land crc 255)), Z.lxor_assoc, <- Z.shiftl_lxor.
  rewrite crc_bits_lxor, (crc_bits_low (Z.land _ _)) by done. f_equal.
  assert (u16 (Z.shiftl crc 8) = Z.shiftl (Z.land crc 255) 8) as ->.
  { unfold u16, wrap_u. change 255 with (Z.ones 8). rewrite Z.land_ones by lia.
    rewrite !Z.shiftl_mul_pow2 by lia. unfold is_u16 in Hc. zlia. }
  change 0xffff with (Z.ones 16). rewrite Z.land_ones by lia. apply Z.mod_small.
  rewrite Z.shiftl_mul_pow2 by lia. unfold is_u8 in Hl. lia.
Qed.

Lemma crc_byte_range crc b : is_u16 crc → is_u8 b → is_u16 (crc_byte crc b).
Proof.
  intros Hc Hb. apply crc_bits_range, lxor_range; [done..|].
  rewrite Z.shiftl_mul_pow2 by lia. unfold is_u8 in Hb. lia.
Qed.

Lemma crc_loop_byte crc data :
  is_u16 crc → Forall is_u8 data → crc_loop crc data = foldl crc_byte crc data.
Proof.
  intros Hc Hd. revert crc Hc. induction Hd as [|b l Hb Hl IH]; intros crc Hc; simpl; [done|].
  unfold crc_loop in *. simpl. rewrite crc_step_byte by done. apply IH. by apply crc_byte_range.
Qed.

Lemma is_u16_0 : is_u16 0.
Proof. split; lia. Qed.

Lemma crc_foldl_range crc data :
  is_u16 crc → Forall is_u8 data → is_u16 (foldl crc_byte crc data).
Proof.
  intros Hc Hd. revert crc Hc. induction Hd; intros crc Hc; simpl; [done|].
  auto using crc_byte_range.
Qed.

Lemma le16_inj x y : is_u16 x → is_u16 y → le16 x = le16 y → x = y.
Proof.
  unfold le16, u8, wrap_u, is_u16. rewrite !Z.shiftr_div_pow2 by lia.
  intros Hx Hy H. simplify_eq. zlia.
Qed.

Lemma Checksum_length data : length (Checksum data) = 2%nat.
Proof. done. Qed.

Lemma Checksum_bytes data : Forall is_u8 (Checksum data).
Proof. repeat constructor; apply (wrap_u_range 8); lia. Qed.

Definition two_bytes (a b : Z) : Z := Z.lxor (Z.shiftl a 8) b.

(** Two bytes are sixteen register steps on the state with the bytes added. *)
Lemma crc_two_bytes crc a b :
  is_u16 crc → is_u8 a → is_u8 b →
  crc_byte (crc_byte crc a) b = crc_bits 16 (Z.lxor crc (two_bytes a b)).
Proof.
  intros Hc Ha Hb. unfold crc_byte at 1. unfold crc_byte.
  rewrite <- (crc_bits_low b) by done. rewrite <- crc_bits_lxor, crc_bits_add, Z.lxor_assoc.
  done.
Qed.

Lemma crc_foldl_inj data x y :
  is_u16 x → is_u16 y → Forall is_u8 data →
  foldl crc_byte x data = foldl crc_byte y data → x = y.
Proof.
  intros Hx Hy Hd. revert x y Hx Hy. induction Hd as [|b l Hb Hl IH]; intros x y Hx Hy; simpl; [done|].
  intros H. apply IH in H; [|by apply crc_byte_range..].
  unfold crc_byte in H. apply crc_bits_inj in H.
  - apply Z.lxor_eq. apply (f_equal (Z.lxor (Z.lxor y (Z.shiftl b 8)))) in H.
    rewrite Z.lxor_nilpotent in H. rewrite <- H. lxor_bits.
  - apply lxor_range; [done..|]. rewrite Z.shiftl_mul_pow2 by lia. unfold is_u8 in Hb. lia.
  - apply lxor_range; [done..|]. rewrite Z.shiftl_mul_pow2 by lia. unfold is_u8 in Hb. lia.
Qed.

Lemma Checksum_foldl data :
  Forall is_u8 data → Checksum data = le16 (foldl crc_byte 0 data).
Proof. intros Hd. unfold Checksum. rewrite crc_loop_byte; [done|unfold is_u16; lia|done]. Qed.

(** ** Properties *)

(** C34: the table-driven [Checksum] is the CRC-16/XMODEM shift register with
    polynomial 0x1021 and initial value 0, written in little-endian order. *)
Theorem Checksum_is_xmodem data :
  Forall is_u8 data → Checksum data = le16 (crc_ref data).
Proof. apply Checksum_foldl. Qed.

Theorem Checksum_is_xmodem_witness :
  Checksum (str "123456789") = le16 (crc_ref (str "123456789")) ∧
  crc_ref (str "123456789") = 0x31c3.
Proof.
  split; [|by vm_compute].
  apply Checksum_is_xmodem. repeat constructor; unfold is_u8; simpl; lia.
Defined.

Lemma two_bytes_range a b : is_u8 a → is_u8 b → is_u16 (two_bytes a b).
Proof.
  intros Ha Hb. unfold is_u8, is_u16 in *. apply lxor_range; [lia| |lia].
  rewrite Z.shiftl_mul_pow2 by lia. lia.
Qed.

Lemma two_bytes_inj a b a' b' :
  is_u8 a → is_u8 b → is_u8 a' → is_u8 b' → two_bytes a b = two_bytes a' b' → (a, b) = (a', b').
Proof.
  assert (∀ x y, is_u8 x → is_u8 y →
    Z.shiftr (two_bytes x y) 8 = x ∧ Z.land (two_bytes x y) (Z.ones 8) = y) as Hd.
  { intros x y Hx Hy. unfold two_bytes. split.
    - rewrite Z.shiftr_lxor, Z.shiftr_shiftl_l by lia. rewrite Z.sub_diag.
      rewrite (Z.shiftr_div_pow2 y) by lia. rewrite Z.div_small by done. apply Z.lxor_0_r.
    - rewrite Z.land_ones by lia. apply (bits_ext 8); [apply Z.mod_pos_bound; lia|done|].
      intros n Hn. rewrite Z.mod_pow2_bits_low, Z.lxor_spec, Z.shiftl_spec by lia.
      by rewrite (Z.testbit_neg_r x) by lia. }
  intros Ha Hb Ha' Hb' E. destruct (Hd a b Ha Hb) as [E1 E2], (Hd a' b' Ha' Hb') as [E3 E4].
  rewrite E in E1, E2. congruence.
Qed.

Lemma lxor_cancel c x y : Z.lxor c x = Z.lxor c y → x = y.
Proof.
  intros H. apply (f_equal (Z.lxor c)) in H.
  by rewrite <- !Z.lxor_assoc, Z.lxor_nilpotent, !Z.lxor_0_l in H.
Qed.

#[global] Opaque crc_bits.

(** Two payloads that differ only within two adjacent bytes have different
    checksums. *)
Lemma Checksum_burst pre post a b a' b' :
  Forall is_u8 (pre ++ [a; b] ++ post) → is_u8 a' → is_u8 b' → (a, b) ≠ (a', b') →
  Checksum (pre ++ [a; b] ++ post) ≠ Checksum (pre ++ [a'; b'] ++ post).
Proof.
  intros H Ha' Hb' Hne Heq. apply Hne. rewrite Checksum_foldl in Heq by done.
  apply Forall_app in H as [Hpre [[Ha Hb]%Forall_cons_1 Hpost]%Forall_app].
  apply Forall_cons_1 in Hb as [Hb _].
  rewrite Checksum_foldl in Heq
    by (apply Forall_app; split; [done|]; apply Forall_cons; split; [done|];
        by apply Forall_cons; split).
  rewrite !foldl_app in Heq.
  pose proof (crc_foldl_range 0 pre is_u16_0 Hpre) as Hc.
  set (c := foldl crc_byte 0 pre) in *. clearbody c.
  assert (∀ x y, is_u8 x → is_u8 y → is_u16 (foldl crc_byte c [x; y])) as Hr.
  { intros x y Hx Hy. by repeat apply crc_byte_range. }
  apply le16_inj in Heq; [|by apply crc_foldl_range; [apply Hr|]..].
  apply crc_foldl_inj in Heq; [|by apply Hr..|done].
  cbn [foldl] in Heq. rewrite !crc_two_bytes in Heq by done.
  assert (∀ x y, is_u8 x → is_u8 y → is_u16 (Z.lxor c (two_bytes x y))) as Hx.
  { intros x y Hx Hy. apply lxor_range; [lia|done|by apply two_bytes_range]. }
  pose proof (crc_bits_inj 16 _ _ (Hx a b Ha Hb) (Hx a' b' Ha' Hb') Heq) as E.
  by apply lxor_cancel, two_bytes_inj in E.
Qed.

(** [Validate] accepts a payload with its own checksum, and rejects with
    [ErrInvalidChecksum] every payload altered within two adjacent bytes. *)
Theorem Validate_detects_burst pre post a b a' b' :
  Forall is_u8 (pre ++ [a; b] ++ post) → is_u8 a' → is_u8 b' → (a, b) ≠ (a', b') →
  Validate (pre ++ [a; b] ++ post) (Checksum (pre ++ [a; b] ++ post)) = Ret tt ∧
  Validate (pre ++ [a'; b'] ++ post) (Checksum (pre ++ [a; b] ++ post)) = Fail ErrInvalidChecksum.
Proof.
  intros H Ha' Hb' Hne. unfold Validate. split; [by rewrite bool_decide_eq_true_2|].
  rewrite bool_decide_eq_false_2; [done|]. intros Heq. symmetry in Heq. revert Heq.
  by apply Checksum_burst.
Qed.

Theorem Validate_detects_burst_witness :
  Validate [1; 2; 3; 4] (Checksum [1; 2; 3; 4]) = Ret tt ∧
  Validate [1; 7; 9; 4] (Checksum [1; 2; 3; 4]) = Fail ErrInvalidChecksum.
Proof.
  apply (Validate_detects_burst [1] [4] 2 3 7 9); [|unfold is_u8; lia..|done].
  repeat constructor; unfold is_u8; lia.
Defined.
