(* ===== verification/Strkey.v ===== *)
(** * strkey: the checksummed base32 keys of accounts and signers

    Models [src/strkey/main.go].  The base32 codec of the Go standard library
    (1.14/1.15, [encoding/base32], standard alphabet, no padding) is modelled
    as the source uses it: [Decode] first drops CR and LF, reads quanta of
    eight characters, and treats the byte 0xff as padding.  A byte slice is a
    list of byte values; slicing out of bounds panics. *)

From S2P Require Import Prelude Crc16.

(** ** encoding/base32 of the Go standard library *)
Module Base32.

Definition alphabet : gostring := str "ABCDEFGHIJKLMNOPQRSTUVWXYZ234567".

(** Five bytes as eight 5-bit values (the body of [Encode]; an absent byte of
    the last quantum contributes zero bits). *)
Definition unpack (s0 s1 s2 s3 s4 : Z) : list Z :=
  [ Z.shiftr s0 3;
    Z.lor (Z.land (Z.shiftr s1 6) 0x1f) (Z.land (u8 (Z.shiftl s0 2)) 0x1f);
    Z.land (Z.shiftr s1 1) 0x1f;
    Z.lor (Z.land (Z.shiftr s2 4) 0x1f) (Z.land (u8 (Z.shiftl s1 4)) 0x1f);
    Z.lor (Z.shiftr s3 7) (Z.land (u8 (Z.shiftl s2 1)) 0x1f);
    Z.land (Z.shiftr s3 2) 0x1f;
    Z.lor (Z.shiftr s4 5) (Z.land (u8 (Z.shiftl s3 3)) 0x1f);
    Z.land s4 0x1f ].

Fixpoint encode_values (src : list Z) : list Z :=
  match src with
  | s0 :: s1 :: s2 :: s3 :: s4 :: src' => unpack s0 s1 s2 s3 s4 ++ encode_values src'
  | [s0; s1; s2; s3] => take 7 (unpack s0 s1 s2 s3 0)
  | [s0; s1; s2] => take 5 (unpack s0 s1 s2 0 0)
  | [s0; s1] => take 4 (unpack s0 s1 0 0 0)
  | [s0] => take 2 (unpack s0 0 0 0 0)
  | [] => []
  end.

Definition EncodeToString (src : list Z) : gostring :=
  (λ v, nth (Z.to_nat v) alphabet 0) <$> encode_values src.

(** [decodeMap]: the value of a character, 0xff outside the alphabet. *)
Fixpoint index_of (c : Z) (l : list Z) (i : Z) : Z :=
  match l with
  | [] => 0xff
  | x :: l' => if x =? c then i else index_of c l' (i + 1)
  end.
Definition decodeMap (c : Z) : Z := index_of c alphabet 0.

Definition padChar : Z := 0xff.

(** Reads up to eight characters; [None] is [CorruptInputError].  The result is
    the values read, whether the input ended, and the input left. *)
Fixpoint read_quantum (src dbuf : list Z) : option (list Z * bool * list Z) :=
  let j := length dbuf in
  if (j =? 8)%nat then Some (dbuf, false, src) else
  match src with
  | [] => Some (dbuf, true, [])
  | c :: src' =>
      if (c =? padChar) && (2 <=? j)%nat && (length src' <? 8)%nat then
        if (length src' + j <? 7)%nat then None
        else if negb (forallb (Z.eqb padChar) (take (7 - j) src')) then None
        else if (j =? 1)%nat || (j =? 3)%nat || (j =? 6)%nat then None
        else Some (dbuf, true, src')
      else if decodeMap c =? 0xff then None
      else read_quantum src' (dbuf ++ [decodeMap c])
  end.

(** Packs the values of a quantum; the lengths 1, 3 and 6 write nothing. *)
Definition pack (d : list Z) : list Z :=
  let byte (x : Z) := u8 x in
  match d with
  | [d0; d1] => [Z.lor (byte (Z.shiftl d0 3)) (Z.shiftr d1 2)]
  | [d0; d1; d2; d3] =>
      [ Z.lor (byte (Z.shiftl d0 3)) (Z.shiftr d1 2);
        Z.lor (Z.lor (byte (Z.shiftl d1 6)) (byte (Z.shiftl d2 1))) (Z.shiftr d3 4) ]
  | [d0; d1; d2; d3; d4] =>
      [ Z.lor (byte (Z.shiftl d0 3)) (Z.shiftr d1 2);
        Z.lor (Z.lor (byte (Z.shiftl d1 6)) (byte (Z.shiftl d2 1))) (Z.shiftr d3 4);
        Z.lor (byte (Z.shiftl d3 4)) (Z.shiftr d4 1) ]
  | [d0; d1; d2; d3; d4; d5; d6] =>
      [ Z.lor (byte (Z.shiftl d0 3)) (Z.shiftr d1 2);
        Z.lor (Z.lor (byte (Z.shiftl d1 6)) (byte (Z.shiftl d2 1))) (Z.shiftr d3 4);
        Z.lor (byte (Z.shiftl d3 4)) (Z.shiftr d4 1);
        Z.lor (Z.lor (byte (Z.shiftl d4 7)) (byte (Z.shiftl d5 2))) (Z.shiftr d6 3) ]
  | [d0; d1; d2; d3; d4; d5; d6; d7] =>
      [ Z.lor (byte (Z.shiftl d0 3)) (Z.shiftr d1 2);
        Z.lor (Z.lor (byte (Z.shiftl d1 6)) (byte (Z.shiftl d2 1))) (Z.shiftr d3 4);
        Z.lor (byte (Z.shiftl d3 4)) (Z.shiftr d4 1);
        Z.lor (Z.lor (byte (Z.shiftl d4 7)) (byte (Z.shiftl d5 2))) (Z.shiftr d6 3);
        Z.lor (byte (Z.shiftl d6 5)) d7 ]
  | _ => []
  end.

(** Every quantum consumes a character, so the length of the input is fuel
    enough. *)
Fixpoint decode (fuel : nat) (src : list Z) : option (list Z) :=
  match fuel, src with
  | O, _ | _, [] => Some []
  | S fuel', _ =>
      match read_quantum src [] with
      | None => None
      | Some (dbuf, true, _) => Some (pack dbuf)
      | Some (dbuf, false, rest) => app (pack dbuf) <$> decode fuel' rest
      end
  end.

Definition stripNewlines (src : list Z) : list Z :=
  List.filter (λ c, negb ((c =? 13) || (c =? 10))) src.

Definition Decode (src : list Z) : option (list Z) :=
  let buf := stripNewlines src in decode (length buf) buf.

End Base32.

(** ** strkey *)

Inductive strkey_error :=
  | ErrInvalidVersionByte
  | ErrChecksum (e : crc_error)
  | ErrTooShort
  | ErrUnusedLeftoverCharacter
  | ErrUnusedBits
  | ErrBase32.

Definition VersionByteAccountID : Z := Z.shiftl 6 3.
Definition VersionByteSeed : Z := Z.shiftl 18 3.
Definition VersionByteHashTx : Z := Z.shiftl 19 3.
Definition VersionByteHashX : Z := Z.shiftl 23 3.

Definition checkValidVersionByte (version : Z) : outcome strkey_error unit :=
  if (version =? VersionByteAccountID) || (version =? VersionByteSeed)
     || (version =? VersionByteHashTx) || (version =? VersionByteHashX)
  then Ret tt else Fail ErrInvalidVersionByte.

Definition validate_checksum (vp checksum : list Z) : outcome strkey_error unit :=
  match Validate vp checksum with
  | Ret u => Ret u
  | Fail e => Fail (ErrChecksum e)
  | Panic => Panic
  end.

(** The package's own table, built in [initDecodingTable]. *)
Definition initDecodingTable : list Z :=
  foldl (λ tab ic, <[Z.to_nat ic.2 := ic.1]> tab) (replicate 256 0xff)
        (zip (Z.of_nat <$> seq 0 32) Base32.alphabet).
Definition decodingTable : list Z := initDecodingTable.

Definition decodeString (src : gostring) : outcome strkey_error (list Z) :=
  let len := Z.of_nat (length src) in
  if len <? 5 then Fail ErrTooShort else
  let leftoverBits := (len * 5) mod 8 in
  if 5 <=? leftoverBits then Fail ErrUnusedLeftoverCharacter else
  let lastChar := List.last src 0 in
  let decodedLastChar := nth (Z.to_nat lastChar) decodingTable 0 in
  let leftoverBitsMask := Z.shiftr 0x0f (4 - leftoverBits) in
  if (0 <? leftoverBits) && negb (Z.land decodedLastChar leftoverBitsMask =? 0)
  then Fail ErrUnusedBits else
  match Base32.Decode src with
  | None => Fail ErrBase32
  | Some raw => Ret raw
  end.

(** [raw[0]], [raw[0:len-2]], [raw[1:len-2]] and [raw[len-2:]]: fewer than three
    bytes are out of bounds. *)
Definition components (raw : list Z) : outcome strkey_error (Z * list Z * list Z * list Z) :=
  let n := length raw in
  if (n <? 3)%nat then Panic
  else Ret (nth 0 raw 0, take (n - 2) raw, drop 1 (take (n - 2) raw), drop (n - 2) raw).

Definition DecodeAny (src : gostring) : outcome strkey_error (Z * list Z) :=
  raw ← decodeString src;
  '(version, vp, payload, checksum) ← components raw;
  _ ← checkValidVersionByte version;
  _ ← validate_checksum vp checksum;
  Ret (version, payload).

Definition Decode (expected : Z) (src : gostring) : outcome strkey_error (list Z) :=
  _ ← checkValidVersionByte expected;
  raw ← decodeString src;
  '(version, vp, payload, checksum) ← components raw;
  if negb (version =? expected) then Fail ErrInvalidVersionByte else
  _ ← validate_checksum vp checksum;
  Ret payload.

Definition MustDecode (expected : Z) (src : gostring) : outcome strkey_error (list Z) :=
  match Decode expected src with Fail _ => Panic | r => r end.

Definition Encode (version : Z) (src : list Z) : outcome strkey_error gostring :=
  _ ← checkValidVersionByte version;
  let raw := version :: src in
  Ret (Base32.EncodeToString (raw ++ Checksum raw)).

Definition MustEncode (version : Z) (src : list Z) : outcome strkey_error gostring :=
  match Encode version src with Fail _ => Panic | r => r end.

Definition Version (src : gostring) : outcome strkey_error Z :=
  raw ← decodeString src;
  match raw with [] => Panic | v :: _ => Ret v end.

(** [i.(string)] of an [interface{}] argument: [None] is a value of another
    type. *)
Definition IsValidEd25519PublicKey (i : option gostring) : outcome strkey_error bool :=
  match i with
  | None => Ret false
  | Some enc => match Decode VersionByteAccountID enc with
                | Ret _ => Ret true | Fail _ => Ret false | Panic => Panic end
  end.

Definition IsValidEd25519SecretSeed (i : option gostring) : outcome strkey_error bool :=
  match i with
  | None => Ret false
  | Some enc => match Decode VersionByteSeed enc with
                | Ret _ => Ret true | Fail _ => Ret false | Panic => Panic end
  end.

(** ** The base32 codec *)

Definition is_u5 (x : Z) : Prop := 0 ≤ x < 2 ^ 5.
Definition base32_char (v : Z) : Z := nth (Z.to_nat v) Base32.alphabet 0.

(** The decoder on values instead of characters. *)
Fixpoint pack_all (vs : list Z) : list Z :=
  match vs with
  | d0 :: d1 :: d2 :: d3 :: d4 :: d5 :: d6 :: d7 :: vs' =>
      Base32.pack [d0; d1; d2; d3; d4; d5; d6; d7] ++ pack_all vs'
  | _ => Base32.pack vs
  end.

Lemma values32_all (P : Z → bool) :
  forallb P (Z.of_nat <$> seq 0 32) = true → ∀ v, is_u5 v → P v = true.
Proof.
  intros H v Hv. rewrite forallb_forall in H. apply H, list_elem_of_In.
  apply list_elem_of_fmap. exists (Z.to_nat v). unfold is_u5 in Hv.
  split; [lia|]. apply elem_of_seq. lia.
Qed.

Lemma decodeMap_char v : is_u5 v → Base32.decodeMap (base32_char v) = v.
Proof. intros Hv. apply Z.eqb_eq. revert v Hv. by apply values32_all. Qed.

Lemma base32_char_plain v :
  is_u5 v → base32_char v ≠ 13 ∧ base32_char v ≠ 10 ∧ base32_char v ≠ 255.
Proof.
  intros Hv. assert (negb ((base32_char v =? 13) || (base32_char v =? 10) || (base32_char v =? 255))
    = true) as H by (revert v Hv; by apply values32_all).
  rewrite negb_true_iff, !orb_false_iff, !Z.eqb_neq in H. tauto.
Qed.

Lemma decodeMap_inv c : Base32.decodeMap c ≠ 255 →
  is_u5 (Base32.decodeMap c) ∧ base32_char (Base32.decodeMap c) = c.
Proof.
  unfold Base32.decodeMap, base32_char.
  enough (∀ l i, 0 ≤ i → Base32.index_of c l i ≠ 255 →
    i ≤ Base32.index_of c l i < i + Z.of_nat (length l) ∧
    nth (Z.to_nat (Base32.index_of c l i - i)) l 0 = c) as H.
  { intros Hc. destruct (H _ 0 ltac:(lia) Hc) as [Hr Hn].
    rewrite Z.sub_0_r in Hn. by split. }
  induction l as [|x l IH]; intros i Hi; simpl; [done|].
  case_if; [intros _; split; [lia|]; rewrite Z.sub_diag; simpl; lia|].
  intros Hc. destruct (IH (i + 1) ltac:(lia) Hc) as [Hr Hn]. split; [lia|].
  replace (Z.to_nat _) with (S (Z.to_nat (Base32.index_of c l (i + 1) - (i + 1)))) by lia.
  done.
Qed.

Lemma char_map_inv src :
  Forall (λ c, Base32.decodeMap c ≠ 255) src →
  Forall is_u5 (Base32.decodeMap <$> src) ∧ base32_char <$> (Base32.decodeMap <$> src) = src.
Proof.
  induction 1 as [|c l Hc Hl [IH1 IH2]]; [done|].
  destruct (decodeMap_inv c Hc) as [H1 H2]. rewrite !fmap_cons.
  split; [by constructor|]. by rewrite H2, IH2.
Qed.

(** Only characters of the alphabet, hence neither newlines nor padding. *)
Lemma stripNewlines_plain src :
  Forall (λ c, c ≠ 13 ∧ c ≠ 10) src → Base32.stripNewlines src = src.
Proof.
  unfold Base32.stripNewlines. induction 1 as [|c l [H1 H2] Hl IH]; simpl; [done|].
  apply Z.eqb_neq in H1, H2. rewrite H1, H2. simpl. by rewrite IH.
Qed.

Section read_quantum.
Implicit Types vs dbuf rest : list Z.

Lemma read_quantum_step v vs dbuf :
  is_u5 v → (length dbuf < 8)%nat →
  Base32.read_quantum (base32_char v :: vs) dbuf = Base32.read_quantum vs (dbuf ++ [v]).
Proof.
  intros Hv Hd. simpl. rewrite (proj2 (Nat.eqb_neq _ 8)) by lia.
  destruct (base32_char_plain v Hv) as (_ & _ & H3). apply Z.eqb_neq in H3.
  unfold Base32.padChar. rewrite H3, decodeMap_char by done. simpl.
  assert ((v =? 255) = false) as -> by (apply Z.eqb_neq; unfold is_u5 in Hv; lia). done.
Qed.

Lemma read_quantum_full vs dbuf rest :
  Forall is_u5 vs → (length dbuf + length vs = 8)%nat →
  Base32.read_quantum ((base32_char <$> vs) ++ rest) dbuf = Some (dbuf ++ vs, false, rest).
Proof.
  intros Hvs. revert dbuf. induction Hvs as [|v vs Hv Hvs IH]; intros dbuf Hl.
  - simpl in *. rewrite app_nil_r. destruct rest; simpl;
      by rewrite (proj2 (Nat.eqb_eq _ 8)) by lia.
  - simpl in Hl. rewrite fmap_cons. rewrite <- app_comm_cons.
    rewrite read_quantum_step by (done || lia). rewrite IH by (rewrite length_app; simpl; lia).
    by rewrite <- app_assoc.
Qed.

Lemma read_quantum_short vs dbuf :
  Forall is_u5 vs → (length dbuf + length vs < 8)%nat →
  Base32.read_quantum (base32_char <$> vs) dbuf = Some (dbuf ++ vs, true, []).
Proof.
  intros Hvs. revert dbuf. induction Hvs as [|v vs Hv Hvs IH]; intros dbuf Hl.
  - simpl in *. rewrite app_nil_r. by rewrite (proj2 (Nat.eqb_neq _ 8)) by lia.
  - simpl in Hl. rewrite fmap_cons.
    rewrite read_quantum_step by (done || lia). rewrite IH by (rewrite length_app; simpl; lia).
    by rewrite <- app_assoc.
Qed.
End read_quantum.

Lemma decode_values fuel vs :
  (length vs ≤ fuel)%nat → Forall is_u5 vs →
  Base32.decode fuel (base32_char <$> vs) = Some (pack_all vs).
Proof.
  revert vs. induction fuel as [|fuel IH]; intros vs Hf Hvs.
  { destruct vs; simpl in *; [done|lia]. }
  destruct vs as [|v0 vs]; [done|].
  destruct (decide (8 ≤ length (v0 :: vs))%nat) as [Hge|Hlt].
  - rewrite <- (take_drop 8 (v0 :: vs)) at 1. rewrite fmap_app.
    assert (length (take 8 (v0 :: vs)) = 8)%nat as Ht by (rewrite length_take; lia).
    assert (Base32.decode (S fuel) ((base32_char <$> take 8 (v0 :: vs)) ++
        (base32_char <$> drop 8 (v0 :: vs))) =
      app (Base32.pack (take 8 (v0 :: vs))) <$>
        Base32.decode fuel (base32_char <$> drop 8 (v0 :: vs))) as ->.
    { cbn [Base32.decode]. rewrite read_quantum_full;
        [done|by apply Forall_take|simpl length at 1; lia]. }
    rewrite IH; [|rewrite length_drop; simpl in *; lia|by apply Forall_drop].
    do 7 (destruct vs as [|? vs]; [simpl in Hge; lia|]). done.
  - change (base32_char <$> v0 :: vs) with (base32_char v0 :: (base32_char <$> vs)).
    cbn [Base32.decode].
    change (base32_char v0 :: (base32_char <$> vs)) with (base32_char <$> v0 :: vs).
    rewrite read_quantum_short by (done || simpl in *; lia).
    do 7 (destruct vs as [|? vs]; [done|]). simpl in Hlt. lia.
Qed.

Ltac in_range :=
  repeat first
    [ apply lor_range; [lia|..]
    | apply (wrap_u_range 8); lia
    | match goal with |- 0 ≤ Z.land ?x 31 < 2 ^ ?w =>
        change 31 with (Z.ones 5); rewrite (Z.land_ones x 5) by lia end
    | rewrite Z.shiftr_div_pow2 by lia ];
  unfold is_u8, is_u5 in *; try lia; try zlia.

Lemma unpack_u5 s0 s1 s2 s3 s4 :
  is_u8 s0 → is_u8 s1 → is_u8 s2 → is_u8 s3 → is_u8 s4 →
  Forall is_u5 (Base32.unpack s0 s1 s2 s3 s4).
Proof.
  intros. unfold Base32.unpack.
  repeat (apply List.Forall_cons; [unfold is_u5; in_range|]). apply List.Forall_nil.
Qed.

Lemma pack_u8 vs : Forall is_u5 vs → Forall is_u8 (Base32.pack vs).
Proof.
  intros H.
  do 9 (destruct vs as [|? vs];
    [repeat match goal with H : Forall _ (_ :: _) |- _ => apply List.Forall_cons_iff in H as [? H] end;
     repeat (apply List.Forall_cons; [unfold is_u8; in_range|]); apply List.Forall_nil|]).
  constructor.
Qed.

(** Every quantum round-trips, in both directions; the partial quanta of the
    second direction need the unused bits to be zero. *)
Ltac quantum_bits :=
  unfold Base32.unpack, Base32.pack; cbn [take app];
  repeat (apply List.Forall2_cons;
    [intros ?n ?Hn; bit_index n; bit_norm;
     repeat match goal with H : Z.testbit _ _ = false |- _ => rewrite H end; reflexivity|]);
  apply List.Forall2_nil.

Ltac bytes_hyps := repeat (apply List.Forall_cons; [first [assumption|split; lia]|]); apply List.Forall_nil.

Lemma pack_unpack5 s0 s1 s2 s3 s4 :
  is_u8 s0 → is_u8 s1 → is_u8 s2 → is_u8 s3 → is_u8 s4 →
  Base32.pack (Base32.unpack s0 s1 s2 s3 s4) = [s0; s1; s2; s3; s4].
Proof.
  intros. apply (list_bits_ext 8); [by apply pack_u8, unpack_u5|by bytes_hyps|].
  unfold is_u8 in *. quantum_bits.
Qed.

Lemma pack_unpack4 s0 s1 s2 s3 :
  is_u8 s0 → is_u8 s1 → is_u8 s2 → is_u8 s3 →
  Base32.pack (take 7 (Base32.unpack s0 s1 s2 s3 0)) = [s0; s1; s2; s3].
Proof.
  intros. apply (list_bits_ext 8); [by apply pack_u8, Forall_take, unpack_u5|by bytes_hyps|].
  unfold is_u8 in *. quantum_bits.
Qed.

Lemma pack_unpack3 s0 s1 s2 :
  is_u8 s0 → is_u8 s1 → is_u8 s2 →
  Base32.pack (take 5 (Base32.unpack s0 s1 s2 0 0)) = [s0; s1; s2].
Proof.
  intros. apply (list_bits_ext 8); [by apply pack_u8, Forall_take, unpack_u5|by bytes_hyps|].
  unfold is_u8 in *. quantum_bits.
Qed.

Lemma pack_unpack2 s0 s1 :
  is_u8 s0 → is_u8 s1 → Base32.pack (take 4 (Base32.unpack s0 s1 0 0 0)) = [s0; s1].
Proof.
  intros. apply (list_bits_ext 8); [by apply pack_u8, Forall_take, unpack_u5|by bytes_hyps|].
  unfold is_u8 in *. quantum_bits.
Qed.

Lemma pack_unpack1 s0 :
  is_u8 s0 → Base32.pack (take 2 (Base32.unpack s0 0 0 0 0)) = [s0].
Proof.
  intros. apply (list_bits_ext 8); [by apply pack_u8, Forall_take, unpack_u5|by bytes_hyps|].
  unfold is_u8 in *. quantum_bits.
Qed.

(** The low [k] bits of a value masked to zero. *)
Lemma masked_bit x k i : 0 ≤ i < k → Z.land x (Z.ones k) = 0 → Z.testbit x i = false.
Proof.
  intros Hi H. apply (f_equal (λ z, Z.testbit z i)) in H.
  rewrite Z.land_spec, Z.ones_spec_low, Z.bits_0, andb_true_r in H by lia. done.
Qed.
Ltac masked_bits x k :=
  match goal with H : Z.land x (Z.ones k) = 0 |- _ =>
    let n := eval vm_compute in (Z.to_nat k) in
    let rec go i :=
      match i with
      | O => idtac
      | S ?j => let z := eval vm_compute in (Z.of_nat j) in
                  pose proof (masked_bit x k z ltac:(lia) H); go j
      end in
    go n; clear H
  end.

Definition byte_at (l : list Z) (i : nat) : Z := nth i l 0.

Lemma byte_at_u8 l i : Forall is_u8 l → is_u8 (byte_at l i).
Proof.
  intros H. unfold byte_at. destruct (nth_in_or_default i l 0) as [Hin| ->].
  - rewrite List.Forall_forall in H. by apply H.
  - unfold is_u8. lia.
Qed.

Lemma unpack_bytes_u5 l :
  Forall is_u8 l →
  Forall is_u5 (Base32.unpack (byte_at l 0) (byte_at l 1) (byte_at l 2) (byte_at l 3) (byte_at l 4)).
Proof. intros. apply unpack_u5; by apply byte_at_u8. Qed.

Ltac unpack_pack_tac :=
  intros; unfold is_u5 in *;
  match goal with l := Base32.pack _ |- _ => subst l end;
  apply (list_bits_ext 5);
    [match goal with |- Forall _ (take _ (Base32.unpack ?a _ _ _ _)) => apply Forall_take | _ => idtac end;
     apply unpack_bytes_u5, pack_u8; by bytes_hyps
    |by bytes_hyps
    |unfold byte_at, Base32.pack; cbn [nth]; quantum_bits].

Lemma unpack_pack8 d0 d1 d2 d3 d4 d5 d6 d7 :
  is_u5 d0 → is_u5 d1 → is_u5 d2 → is_u5 d3 → is_u5 d4 → is_u5 d5 → is_u5 d6 → is_u5 d7 →
  let l := Base32.pack [d0; d1; d2; d3; d4; d5; d6; d7] in
  Base32.unpack (byte_at l 0) (byte_at l 1) (byte_at l 2) (byte_at l 3) (byte_at l 4)
  = [d0; d1; d2; d3; d4; d5; d6; d7].
Proof. unpack_pack_tac. Qed.

Lemma unpack_pack7 d0 d1 d2 d3 d4 d5 d6 :
  is_u5 d0 → is_u5 d1 → is_u5 d2 → is_u5 d3 → is_u5 d4 → is_u5 d5 → is_u5 d6 →
  Z.land d6 (Z.ones 3) = 0 →
  let l := Base32.pack [d0; d1; d2; d3; d4; d5; d6] in
  take 7 (Base32.unpack (byte_at l 0) (byte_at l 1) (byte_at l 2) (byte_at l 3) (byte_at l 4))
  = [d0; d1; d2; d3; d4; d5; d6].
Proof. intros. masked_bits d6 3. unpack_pack_tac. Qed.

Lemma unpack_pack5 d0 d1 d2 d3 d4 :
  is_u5 d0 → is_u5 d1 → is_u5 d2 → is_u5 d3 → is_u5 d4 →
  Z.land d4 (Z.ones 1) = 0 →
  let l := Base32.pack [d0; d1; d2; d3; d4] in
  take 5 (Base32.unpack (byte_at l 0) (byte_at l 1) (byte_at l 2) (byte_at l 3) (byte_at l 4))
  = [d0; d1; d2; d3; d4].
Proof. intros. masked_bits d4 1. unpack_pack_tac. Qed.

Lemma unpack_pack4 d0 d1 d2 d3 :
  is_u5 d0 → is_u5 d1 → is_u5 d2 → is_u5 d3 →
  Z.land d3 (Z.ones 4) = 0 →
  let l := Base32.pack [d0; d1; d2; d3] in
  take 4 (Base32.unpack (byte_at l 0) (byte_at l 1) (byte_at l 2) (byte_at l 3) (byte_at l 4))
  = [d0; d1; d2; d3].
Proof. intros. masked_bits d3 4. unpack_pack_tac. Qed.

Lemma unpack_pack2 d0 d1 :
  is_u5 d0 → is_u5 d1 →
  Z.land d1 (Z.ones 2) = 0 →
  let l := Base32.pack [d0; d1] in
  take 2 (Base32.unpack (byte_at l 0) (byte_at l 1) (byte_at l 2) (byte_at l 3) (byte_at l 4))
  = [d0; d1].
Proof. intros. masked_bits d1 2. unpack_pack_tac. Qed.

(** Induction over five bytes or eight values at a time. *)
Lemma chunk_ind {A} (k : nat) (P : list A → Prop) :
  (0 < k)%nat →
  (∀ l, (length l < k)%nat → P l) →
  (∀ l1 l2, length l1 = k → P l2 → P (l1 ++ l2)) →
  ∀ l, P l.
Proof.
  intros Hk Hshort Hlong l. remember (length l) as n eqn:Hn. revert l Hn.
  induction (lt_wf n) as [n _ IH]; intros l ->.
  destruct (decide (length l < k)%nat); [by apply Hshort|].
  rewrite <- (take_drop k l). apply Hlong; [rewrite length_take; lia|].
  apply (IH (length (drop k l))); [rewrite length_drop; lia|done].
Qed.

Ltac chunk_induction k v :=
  pattern v; apply (chunk_ind k); [lia| |]; clear v;
  [intros l Hl|intros l1 l2 Hl1 IH].
Ltac list_cases l n :=
  match n with
  | O => destruct l; [|simpl in *; lia]
  | S ?m => destruct l as [|? l]; [|list_cases l m]
  end.
Ltac forall_cons :=
  repeat match goal with H : Forall _ (_ :: _) |- _ => apply Forall_cons in H as [? H] end.

Lemma encode_values_u5 src : Forall is_u8 src → Forall is_u5 (Base32.encode_values src).
Proof.
  chunk_induction 5%nat src; intros H.
  - assert (is_u8 0) by (unfold is_u8; lia).
    list_cases l 4%nat; forall_cons; [done|..]; by apply Forall_take, unpack_u5.
  - list_cases l1 5%nat; try (simpl in *; lia). apply Forall_app in H as [H1 H2].
    forall_cons. apply Forall_app. split; [by apply unpack_u5|by apply IH].
Qed.

Lemma pack_all_encode src : Forall is_u8 src → pack_all (Base32.encode_values src) = src.
Proof.
  chunk_induction 5%nat src; intros H.
  - list_cases l 4%nat; forall_cons; [done|..].
    + by apply pack_unpack1.
    + by apply pack_unpack2.
    + by apply pack_unpack3.
    + by apply pack_unpack4.
  - list_cases l1 5%nat; try (simpl in *; lia). apply Forall_app in H as [H1 H2].
    forall_cons. cbn [Base32.encode_values app].
    change (pack_all (?u ++ ?r)) with (pack_all (u ++ r)).
    rewrite <- (IH H2) at 2. cbn [Base32.unpack app pack_all].
    pose proof (pack_unpack5 z z0 z1 z2 z3) as Hp. unfold Base32.unpack in Hp.
    rewrite Hp by done. done.
Qed.

Lemma encode_values_length src :
  Z.of_nat (length (Base32.encode_values src)) = (Z.of_nat (length src) * 8 + 4) / 5.
Proof.
  chunk_induction 5%nat src.
  - by list_cases l 4%nat.
  - list_cases l1 5%nat; try (simpl in *; lia). cbn [Base32.encode_values app length].
    rewrite length_app. cbn [length Base32.unpack]. zlia.
Qed.

(** The values a strkey may end in: no unused character, unused bits zero. *)
Definition leftover (n : nat) : Z := (Z.of_nat n * 5) mod 8.
Definition canonical_values (vs : list Z) : Prop :=
  leftover (length vs) < 5 ∧
  (0 < leftover (length vs) → Z.land (List.last vs 0) (Z.ones (leftover (length vs))) = 0).

#[export] Instance canonical_values_dec vs : Decision (canonical_values vs).
Proof. unfold canonical_values. apply _. Defined.

Lemma encode_pack_all vs :
  Forall is_u5 vs → canonical_values vs → Base32.encode_values (pack_all vs) = vs.
Proof.
  unfold canonical_values.
  chunk_induction 8%nat vs; intros H [Hc1 Hc2].
  - list_cases l 7%nat; forall_cons; cbn [length List.last] in *;
      try (exfalso; by vm_compute in Hc1); try specialize (Hc2 eq_refl).
    + done.
    + by apply unpack_pack2.
    + by apply unpack_pack4.
    + by apply unpack_pack5.
    + by apply unpack_pack7.
  - list_cases l1 8%nat; try (simpl in *; lia). apply Forall_app in H as [H1 H2].
    forall_cons. cbn [app].
    assert (leftover (length l2) = leftover (8 + length l2)) as E.
    { unfold leftover. rewrite Nat2Z.inj_add. zlia. }
    rewrite length_app in Hc1, Hc2. cbn [length] in Hc1, Hc2.
    change (pack_all _) with (Base32.pack [z; z0; z1; z2; z3; z4; z5; z6] ++ pack_all l2).
    cbn [Base32.pack app Base32.encode_values].
    rewrite IH; [|done|].
    + pose proof (unpack_pack8 z z0 z1 z2 z3 z4 z5 z6) as Hu. cbn zeta in Hu.
      cbn [Base32.pack byte_at nth] in Hu. unfold byte_at in Hu. simpl nth in Hu.
      rewrite Hu by done. done.
    + rewrite E. split; [done|]. intros Hlo. specialize (Hc2 Hlo).
      destruct l2 as [|y l2]; [by vm_compute in Hlo|].
      exact Hc2.
Qed.

(** Encoding yields canonical values. *)
Lemma land_ones_zero k x :
  0 ≤ k → (∀ n, 0 ≤ n < k → Z.testbit x n = false) → Z.land x (Z.ones k) = 0.
Proof.
  intros Hk H. rewrite Z.land_ones by done. apply (bits_ext k); [apply (wrap_u_range k); lia| |].
  - split; [lia|]. by apply Z.pow_pos_nonneg.
  - intros n Hn. rewrite Z.bits_0, Z.mod_pow2_bits_low by lia. by apply H.
Qed.

Lemma encode_values_canonical raw :
  Forall is_u8 raw → canonical_values (Base32.encode_values raw).
Proof.
  unfold canonical_values. chunk_induction 5%nat raw; intros H.
  - list_cases l 4%nat; forall_cons; (split; [done|]); intros _;
      cbn [Base32.encode_values Base32.unpack take List.last length] in *; [done|..];
      match goal with |- context [leftover ?k] =>
        let v := eval vm_compute in (leftover k) in change (leftover k) with v end;
      (apply land_ones_zero; [lia|]); intros n Hn; bit_index n; first [exfalso; lia|bit_norm; reflexivity].
  - list_cases l1 5%nat; try (simpl in *; lia). apply Forall_app in H as [H1 H2].
    specialize (IH H2) as [IH1 IH2]. cbn [app Base32.encode_values Base32.unpack length].
    assert (∀ n, leftover (S (S (S (S (S (S (S (S n)))))))) = leftover n) as E.
    { intros n. unfold leftover. zlia. }
    rewrite E. split; [done|]. intros Hlo. specialize (IH2 Hlo).
    destruct (Base32.encode_values l2) as [|y r]; [by vm_compute in Hlo|exact IH2].
Qed.

(** A successful decoding of a string without padding read only characters of
    the alphabet. *)
Lemma read_quantum_inv src dbuf d e rest :
  Forall (λ c, c ≠ 255) src → Base32.read_quantum src dbuf = Some (d, e, rest) →
  ∃ pre, src = pre ++ rest ∧ Forall (λ c, Base32.decodeMap c ≠ 255) pre ∧
    (e = true → rest = []) ∧ (e = false → (8 ≤ length dbuf + length pre)%nat).
Proof.
  intros Hs. revert dbuf. induction Hs as [|c src Hc Hs IH]; intros dbuf; cbn [Base32.read_quantum].
  - destruct (Nat.eqb_spec (length dbuf) 8); intros; simplify_eq; exists [];
      split_and!; simpl; intros; done || lia.
  - destruct (Nat.eqb_spec (length dbuf) 8); [intros; simplify_eq; exists [];
      split_and!; simpl; intros; done || lia|].
    apply Z.eqb_neq in Hc. unfold Base32.padChar. rewrite Hc. cbn [andb].
    destruct (Z.eqb_spec (Base32.decodeMap c) 255); [done|]. intros Hr.
    apply IH in Hr as (pre & -> & Hp & He1 & He2). exists (c :: pre).
    split_and!; [done|by constructor|done|]. intros E. rewrite length_app in He2. specialize (He2 E). simpl in *. lia.
Qed.

Lemma decode_inv fuel src raw :
  (length src ≤ fuel)%nat → Forall (λ c, c ≠ 255) src → Base32.decode fuel src = Some raw →
  Forall (λ c, Base32.decodeMap c ≠ 255) src.
Proof.
  revert src raw. induction fuel as [|fuel IH]; intros src raw Hf Hs.
  { destruct src; simpl in *; [done|lia]. }
  destruct src as [|c src]; [done|]. cbn [Base32.decode].
  destruct (Base32.read_quantum (c :: src) []) as [[[d e] rest]|] eqn:Hr; [|done].
  apply read_quantum_inv in Hr as (pre & Heq & Hp & He1 & He2); [|done].
  rewrite Heq in *. destruct e.
  - intros _. rewrite He1, app_nil_r by done. done.
  - intros Hd. apply fmap_Some in Hd as (raw' & Hd & _).
    apply Forall_app in Hs as [_ Hs]. apply Forall_app. split; [done|].
    specialize (He2 eq_refl). simpl in He2.
    apply (IH rest raw'); [|done..]. rewrite length_app in Hf. lia.
Qed.

(** ** decodeString *)

Definition plain (src : gostring) : Prop :=
  Forall (λ c, is_u8 c ∧ c ≠ 10 ∧ c ≠ 13 ∧ c ≠ 255) src.

Lemma Base32_Decode_chars vs :
  Forall is_u5 vs → Base32.Decode (base32_char <$> vs) = Some (pack_all vs).
Proof.
  intros Hvs. unfold Base32.Decode. rewrite stripNewlines_plain.
  - apply decode_values; [|done]. by rewrite length_fmap.
  - apply Forall_fmap. eapply Forall_impl; [done|]. intros v Hv.
    destruct (base32_char_plain v Hv) as (? & ? & ?). done.
Qed.

Lemma decodingTable_map c : is_u8 c → nth (Z.to_nat c) decodingTable 0 = Base32.decodeMap c.
Proof. intros Hc. apply Z.eqb_eq. revert c Hc. by apply bytes256_all. Qed.

Lemma base32_char_u8 v : is_u5 v → is_u8 (base32_char v).
Proof.
  intros Hv. assert ((0 <=? base32_char v) && (base32_char v <? 256) = true) as H
    by (revert v Hv; by apply values32_all).
  unfold is_u8. apply andb_true_iff in H as [H1%Z.leb_le H2%Z.ltb_lt]. lia.
Qed.

Lemma last_fmap_default {A B} (f : A → B) l x y :
  l ≠ [] → List.last (f <$> l) y = f (List.last l x).
Proof.
  induction l as [|a [|b l] IH]; intros; [done|done|]. by apply IH.
Qed.

Lemma leftover_mask k : 0 < k < 5 → Z.shiftr 0x0f (4 - k) = Z.ones k.
Proof.
  intros H. assert (k = 1 ∨ k = 2 ∨ k = 3 ∨ k = 4) as Hk by lia.
  by repeat destruct Hk as [->|Hk]; subst.
Qed.

(** [decodeString] on the characters of base32 values: it accepts exactly the
    canonical ones. *)
Lemma decodeString_chars vs :
  Forall is_u5 vs → (5 ≤ length vs)%nat →
  (canonical_values vs → decodeString (base32_char <$> vs) = Ret (pack_all vs)) ∧
  (¬ canonical_values vs → ∃ e, decodeString (base32_char <$> vs) = Fail e).
Proof.
  intros Hvs Hlen. unfold decodeString. cbv zeta. rewrite length_fmap.
  fold (leftover (length vs)).
  destruct (Z.ltb_spec (Z.of_nat (length vs)) 5); [lia|].
  assert (vs ≠ []) as Hne by (by destruct vs; simpl in *; [lia|]).
  rewrite (last_fmap_default base32_char vs 0) by done.
  assert (is_u5 (List.last vs 0)) as Hlast.
  { destruct (exists_last Hne) as (l & x & ->). rewrite List.last_last.
    apply Forall_app in Hvs as [_ Hx]. by apply Forall_cons in Hx as [? _]. }
  rewrite decodingTable_map, decodeMap_char, Base32_Decode_chars
    by (done || by apply base32_char_u8).
  assert (0 ≤ leftover (length vs)) as Hlo by (unfold leftover; apply Z.mod_pos_bound; lia).
  unfold canonical_values. destruct (Z.leb_spec 5 (leftover (length vs))); [naive_solver lia|].
  destruct (Z.ltb_spec 0 (leftover (length vs))); simpl; [|naive_solver lia].
  rewrite leftover_mask by lia.
  destruct (Z.eqb_spec (Z.land (List.last vs 0) (Z.ones (leftover (length vs)))) 0);
    simpl; naive_solver.
Qed.

(** Conversely, whatever [decodeString] accepts of a plain string is the
    characters of canonical values. *)
Lemma decodeString_inv src raw :
  plain src → decodeString src = Ret raw →
  ∃ vs, src = base32_char <$> vs ∧ Forall is_u5 vs ∧ (5 ≤ length vs)%nat ∧
    canonical_values vs ∧ raw = pack_all vs.
Proof.
  intros Hp H.
  assert (∃ raw', Base32.Decode src = Some raw' ∧ (5 ≤ length src)%nat) as (raw' & Hd & Hlen).
  { unfold decodeString in H. cbv zeta in H.
    destruct (Z.ltb_spec (Z.of_nat (length src)) 5); [done|].
    repeat case_match; simplify_eq; eexists; split; (done || lia). }
  assert (Forall (λ c, Base32.decodeMap c ≠ 255) src) as Hg.
  { unfold Base32.Decode in Hd. rewrite stripNewlines_plain in Hd.
    - eapply decode_inv, Hd; [done|]. eapply Forall_impl; [done|]. naive_solver.
    - eapply Forall_impl; [done|]. naive_solver. }
  destruct (char_map_inv src Hg) as [Hu Hs]. exists (Base32.decodeMap <$> src).
  assert (5 ≤ length (Base32.decodeMap <$> src))%nat as Hl by (by rewrite length_fmap).
  destruct (decodeString_chars _ Hu Hl) as [D1 D2]. rewrite Hs in D1, D2.
  destruct (decide (canonical_values (Base32.decodeMap <$> src))) as [Hc|Hc].
  - rewrite (D1 Hc) in H. by simplify_eq.
  - destruct (D2 Hc) as [e He]. congruence.
Qed.

(** ** Properties *)

Definition valid_version (v : Z) : Prop :=
  v = VersionByteAccountID ∨ v = VersionByteSeed ∨ v = VersionByteHashTx ∨ v = VersionByteHashX.

Lemma checkValidVersionByte_spec v :
  (valid_version v ∧ checkValidVersionByte v = Ret tt) ∨
  (¬ valid_version v ∧ checkValidVersionByte v = Fail ErrInvalidVersionByte).
Proof.
  unfold checkValidVersionByte, valid_version.
  repeat match goal with |- context [?a =? ?b] => destruct (Z.eqb_spec a b) end;
    simpl; tauto.
Qed.

Lemma valid_version_u8 v : valid_version v → is_u8 v.
Proof. unfold is_u8. intros [-> | [-> | [-> | ->]]]; by vm_compute. Qed.

Lemma valid_version_check v : valid_version v → checkValidVersionByte v = Ret tt.
Proof. intros. destruct (checkValidVersionByte_spec v) as [[? ?]|[? ?]]; done. Qed.

Lemma components_raw version payload checksum :
  length checksum = 2%nat →
  components (version :: payload ++ checksum)
  = Ret (version, version :: payload, payload, checksum).
Proof.
  intros Hl. unfold components. simpl length. rewrite length_app, Hl.
  destruct (Nat.ltb_spec (S (length payload + 2)) 3); [lia|].
  replace (S (length payload + 2) - 2)%nat with (S (length payload)) by lia. simpl.
  by rewrite drop_app_length, take_app_length, drop_0.
Qed.

Lemma components_inv raw version vp payload checksum :
  components raw = Ret (version, vp, payload, checksum) →
  raw = version :: payload ++ checksum ∧ vp = version :: payload ∧ length checksum = 2%nat.
Proof.
  unfold components. destruct (Nat.ltb_spec (length raw) 3) as [|Hl]; [done|].
  destruct raw as [|v raw]; [simpl in Hl; lia|]. cbn [length] in *. intros [= -> <- <- <-].
  replace (length raw - 1)%nat with (S (length raw - 2)) by lia.
  cbn [take drop nth]. rewrite !drop_0, take_drop, length_drop. split_and!; [done..|lia].
Qed.

(** What a successful [Decode] has checked. *)
Lemma Decode_inv version src payload :
  Decode version src = Ret payload →
  valid_version version ∧
  decodeString src = Ret (version :: payload ++ Checksum (version :: payload)).
Proof.
  unfold Decode. destruct (checkValidVersionByte_spec version) as [[Hv ->]|[_ ->]]; [|done].
  outcome_simpl.
  destruct (decodeString src) as [raw| |] eqn:Hd; outcome_simpl; [|done..].
  destruct (components raw) as [[[[v vp] p] c]| |] eqn:Hc; outcome_simpl; [|done..].
  apply components_inv in Hc as (-> & -> & _).
  destruct (Z.eqb_spec v version) as [->|]; [|done]. cbn [negb].
  unfold validate_checksum, Validate. case_bool_decide as Hk; [|done].
  outcome_simpl. intros [= ->]. by rewrite Hk.
Qed.

(** The raw bytes of an encoding. *)
Lemma EncodeToString_decodeString raw :
  Forall is_u8 raw → (3 ≤ length raw)%nat →
  decodeString (Base32.EncodeToString raw) = Ret raw ∧ plain (Base32.EncodeToString raw).
Proof.
  intros Hr Hlen. pose proof (encode_values_u5 raw Hr) as Hu.
  pose proof (encode_values_length raw) as Hl.
  change (Base32.EncodeToString raw) with (base32_char <$> Base32.encode_values raw).
  destruct (decodeString_chars (Base32.encode_values raw)) as [D1 D2]; [done|zlia|].
  rewrite pack_all_encode in D1 by done. split.
  - by apply D1, encode_values_canonical.
  - apply Forall_fmap. eapply Forall_impl; [done|]. intros v Hv. simpl.
    destruct (base32_char_plain v Hv) as (? & ? & ?). auto using base32_char_u8.
Qed.

Lemma Encode_valid v p :
  valid_version v → Encode v p = Ret (Base32.EncodeToString (v :: p ++ Checksum (v :: p))).
Proof. intros Hv. unfold Encode. by rewrite valid_version_check. Qed.

Lemma Encode_readable version payload s :
  valid_version version → Forall is_u8 payload → Encode version payload = Ret s →
  plain s ∧ Decode version s = Ret payload ∧ DecodeAny s = Ret (version, payload) ∧
  Version s = Ret version.
Proof.
  intros Hv Hp. rewrite Encode_valid by done. intros [= <-].
  set (raw := version :: payload ++ Checksum (version :: payload)).
  assert (Forall is_u8 raw) as Hraw.
  { constructor; [by apply valid_version_u8|]. apply Forall_app. split; [done|apply Checksum_bytes]. }
  destruct (EncodeToString_decodeString raw) as [Hd Hpl]; [done|simpl; rewrite length_app; simpl; lia|].
  unfold Decode, DecodeAny, Version.
  rewrite valid_version_check by done. outcome_simpl.
  split; [done|]. rewrite Hd. outcome_simpl.
  assert (components raw = Ret (version, version :: payload, payload, Checksum (version :: payload)))
    as ->.
  { by apply (components_raw version payload (Checksum (version :: payload))). }
  outcome_simpl. rewrite Z.eqb_refl, valid_version_check by done.
  unfold validate_checksum, Validate. rewrite bool_decide_eq_true_2 by done. done.
Qed.

(** C33: encoding a payload of bytes with a valid version byte and decoding the
    strkey gives the payload back, through [Decode], [DecodeAny] and [Version]. *)
Theorem Encode_Decode version payload :
  valid_version version → Forall is_u8 payload →
  ∃ s, Encode version payload = Ret s ∧ plain s ∧
       Decode version s = Ret payload ∧ DecodeAny s = Ret (version, payload) ∧
       Version s = Ret version.
Proof.
  intros Hv Hp. eexists. split; [by apply Encode_valid|].
  apply Encode_readable; [done|done|by apply Encode_valid].
Qed.

Theorem Encode_Decode_witness :
  ∃ s, Encode VersionByteAccountID [1; 2; 3] = Ret s ∧ plain s ∧
       Decode VersionByteAccountID s = Ret [1; 2; 3] ∧
       DecodeAny s = Ret (VersionByteAccountID, [1; 2; 3]) ∧ Version s = Ret VersionByteAccountID.
Proof.
  apply (Encode_Decode VersionByteAccountID [1; 2; 3]); [by left|].
  repeat constructor; unfold is_u8; lia.
Defined.

Lemma Decode_Encode version src payload :
  plain src → Decode version src = Ret payload → Encode version payload = Ret src.
Proof.
  intros Hp H. destruct (Decode_inv version src payload H) as (Hv & Hd).
  unfold Encode. rewrite valid_version_check by done. outcome_simpl.
  destruct (decodeString_inv _ _ Hp Hd) as (vs & -> & Hu & _ & Hcan & Hraw).
  rewrite <- app_comm_cons, Hraw. unfold Base32.EncodeToString. by rewrite encode_pack_all.
Qed.

(** a strkey without newline or 0xff bytes that decodes is the canonical
    encoding of what it decodes to: no two such strings name the same key. *)
Theorem Decode_canonical version src payload :
  plain src → Decode version src = Ret payload → Encode version payload = Ret src.
Proof. apply Decode_Encode. Qed.

Theorem Decode_canonical_witness :
  Encode VersionByteSeed [7] = Ret (str "SADQY2A").
Proof.
  apply (Decode_canonical VersionByteSeed (str "SADQY2A") [7]); [|by vm_compute].
  repeat constructor; unfold is_u8; simpl; lia.
Defined.

Lemma decodeString_plain_length src raw :
  plain src → decodeString src = Ret raw → (3 ≤ length raw)%nat.
Proof.
  intros Hp H. destruct (decodeString_inv _ _ Hp H) as (vs & -> & Hu & Hl & Hc & ->).
  pose proof (encode_values_length (pack_all vs)) as E.
  rewrite encode_pack_all in E by done. zlia.
Qed.

Lemma components_no_panic raw : (3 ≤ length raw)%nat → ∃ x, components raw = Ret x.
Proof.
  intros H. unfold components. destruct (Nat.ltb_spec (length raw) 3); [lia|]. eauto.
Qed.

Lemma checkValidVersionByte_no_panic v : checkValidVersionByte v ≠ Panic.
Proof. unfold checkValidVersionByte. by case_if. Qed.
Lemma validate_checksum_no_panic vp c : validate_checksum vp c ≠ Panic.
Proof. unfold validate_checksum, Validate. by case_bool_decide. Qed.

(** on a string without newline or 0xff bytes none of [Decode], [DecodeAny]
    and [Version] panics: the bytes they slice are always there. *)
Theorem Decode_no_panic version src :
  plain src →
  Decode version src ≠ Panic ∧ DecodeAny src ≠ Panic ∧ Version src ≠ Panic.
Proof.
  intros Hp. unfold Decode, DecodeAny, Version.
  destruct (decodeString src) as [raw| |] eqn:Hd.
  - pose proof (decodeString_plain_length _ _ Hp Hd) as Hl.
    destruct (components_no_panic raw Hl) as [[[[v vp] p] c] Hc]. outcome_simpl. rewrite Hc.
    outcome_simpl. split_and!; [..|by destruct raw; simpl in Hl; [lia|]];
      repeat (apply outcome_bind_no_panic;
              [auto using checkValidVersionByte_no_panic, validate_checksum_no_panic|intros [] _]);
      try case_if; try done.
    apply outcome_bind_no_panic; [apply validate_checksum_no_panic|done].
  - outcome_simpl. split_and!; [|done..].
    apply outcome_bind_no_panic; [apply checkValidVersionByte_no_panic|done].
  - exfalso. unfold decodeString in Hd. cbv zeta in Hd. repeat case_match; done.
Qed.

Theorem Decode_no_panic_witness :
  Decode VersionByteSeed (str "AAAAA") ≠ Panic ∧ DecodeAny (str "AAAAA") ≠ Panic ∧
  Version (str "AAAAA") ≠ Panic.
Proof.
  apply (Decode_no_panic VersionByteSeed (str "AAAAA")).
  repeat constructor; unfold is_u8; simpl; lia.
Defined.

Lemma decodeString_newlines n src :
  (5 ≤ length src)%nat → leftover (length src) = 0 →
  decodeString (replicate (8 * n) 10 ++ src) = decodeString src.
Proof.
  intros Hl H0. unfold decodeString. cbv zeta. rewrite !length_app, length_replicate.
  fold (leftover (8 * n + length src)) (leftover (length src)).
  assert (leftover (8 * n + length src) = leftover (length src)) as ->.
  { unfold leftover. zlia. }
  rewrite H0. cbn [Z.leb Z.ltb Z.compare andb].
  destruct (Z.ltb_spec (Z.of_nat (8 * n + length src)) 5); [lia|].
  destruct (Z.ltb_spec (Z.of_nat (length src)) 5); [lia|].
  unfold Base32.Decode, Base32.stripNewlines. rewrite List.filter_app.
  assert (List.filter (λ c, negb ((c =? 13) || (c =? 10))) (replicate (8 * n) 10) = []) as ->.
  { generalize (8 * n)%nat. induction n0; simpl; done. }
  done.
Qed.

(** C35: the guard against non-canonical strkeys does not see newlines, which
    the base32 decoder drops: a 56-character key still decodes with any number
    of groups of eight line feeds in front of it, and the line feeds alone make
    [Decode] panic for every version byte. *)
Theorem Decode_accepts_newlines version key n :
  valid_version version → Forall is_u8 key → length key = 32%nat →
  ∃ s, Encode version key = Ret s ∧
       Decode version (replicate (8 * n) 10 ++ s) = Ret key ∧
       Decode version (replicate 8 10) = Panic.
Proof.
  intros Hv Hk Hl. set (raw := version :: key ++ Checksum (version :: key)).
  assert (Forall is_u8 raw) as Hraw.
  { constructor; [by apply valid_version_u8|]. apply Forall_app. split; [done|apply Checksum_bytes]. }
  assert (length raw = 35%nat) as Hlr by (simpl; rewrite length_app, Hl; done).
  destruct (EncodeToString_decodeString raw) as [Hd _]; [done|lia|].
  exists (Base32.EncodeToString raw). unfold Encode, Decode.
  rewrite valid_version_check by done. outcome_simpl. split; [done|].
  assert (length (Base32.EncodeToString raw) = 56%nat) as Hle.
  { unfold Base32.EncodeToString. rewrite length_fmap.
    pose proof (encode_values_length raw) as E. rewrite Hlr in E. zlia. }
  rewrite decodeString_newlines by (rewrite Hle; done || lia). rewrite Hd. outcome_simpl.
  unfold raw. rewrite (components_raw version key (Checksum (version :: key))) by done.
  outcome_simpl. rewrite Z.eqb_refl. unfold validate_checksum, Validate.
  rewrite bool_decide_eq_true_2 by done. done.
Qed.

Theorem Decode_accepts_newlines_witness :
  ∃ s, Encode VersionByteAccountID (replicate 32 1) = Ret s ∧
       Decode VersionByteAccountID (replicate (8 * 2) 10 ++ s) = Ret (replicate 32 1) ∧
       Decode VersionByteAccountID (replicate 8 10) = Panic.
Proof.
  apply (Decode_accepts_newlines VersionByteAccountID (replicate 32 1) 2);
    [by left| |done].
  apply Forall_replicate. unfold is_u8. lia.
Defined.

(** ** Addresses, for the components that print keys *)

Lemma Encode_inj v p q s :
  valid_version v → Forall is_u8 p → Forall is_u8 q →
  Encode v p = Ret s → Encode v q = Ret s → p = q.
Proof.
  intros Hv Hp Hq. rewrite !Encode_valid by done. intros [= <-] [= Heq].
  assert (∀ x, Forall is_u8 x →
    pack_all (Base32.decodeMap <$> Base32.EncodeToString (v :: x ++ Checksum (v :: x)))
    = v :: x ++ Checksum (v :: x)) as H.
  { intros x Hx.
    assert (Forall is_u8 (v :: x ++ Checksum (v :: x))) as Hr.
    { constructor; [by apply valid_version_u8|]. apply Forall_app.
      split; [done|apply Checksum_bytes]. }
    unfold Base32.EncodeToString. rewrite <- list_fmap_compose.
    rewrite <- (pack_all_encode _ Hr) at 2. f_equal.
    rewrite <- (list_fmap_id (Base32.encode_values _)) at 2.
    apply list_fmap_ext. intros i y Hy. unfold compose.
    apply decodeMap_char. eapply Forall_lookup_Z; [|done]. by apply encode_values_u5. }
  pose proof (H p Hp) as E1. rewrite <- Heq, (H q Hq) in E1. injection E1 as E1.
  assert (length q = length p) as Hl.
  { apply (f_equal length) in E1. rewrite !length_app in E1. simpl in E1. lia. }
  by apply app_inj_1 in E1 as [-> _].
Qed.

Lemma Encode_length v p s :
  valid_version v → Encode v p = Ret s → Z.of_nat (length s) = (Z.of_nat (length p) * 8 + 28) / 5.
Proof.
  intros Hv. rewrite Encode_valid by done. intros [= <-].
  unfold Base32.EncodeToString. rewrite length_fmap, encode_values_length.
  cbn [length]. rewrite length_app, Checksum_length. f_equal. lia.
Qed.
