(* ===== verification/Toid.v ===== *)
(** * toid: total order identifiers of ledgers, transactions and operations

    Models [src/services/aurora/internal/toid/main.go].  The fields are 32-bit
    and the packed identifier a 64-bit signed integer, so every conversion is
    written out; [ToInt64] panics as the source does. *)

From S2P Require Import Prelude.

Record ID := MkID {
  LedgerSequence : Z;
  TransactionOrder : Z;
  OperationOrder : Z
}.

Definition LedgerMask : Z := Z.shiftl 1 32 - 1.
Definition TransactionMask : Z := Z.shiftl 1 20 - 1.
Definition OperationMask : Z := Z.shiftl 1 12 - 1.
Definition LedgerShift : Z := 32.
Definition TransactionShift : Z := 12.
Definition OperationShift : Z := 0.

Inductive toid_error := ErrFromAfterTo | ErrNegative.

Definition New (ledger tx op : Z) : ID := MkID ledger tx op.

Definition AfterLedger (seq : Z) : ID := New seq TransactionMask OperationMask.

(** [int64(x) & mask << shift], on 64-bit integers. *)
Definition shift_part (x mask shift : Z) : Z := i64 (Z.shiftl (Z.land x mask) shift).

Definition ToInt64 (id : ID) : outcome toid_error Z :=
  if LedgerSequence id <? 0 then Panic else
  if TransactionMask <? TransactionOrder id then Panic else
  if OperationMask <? OperationOrder id then Panic else
  let result := 0 in
  let result := Z.lor result (shift_part (LedgerSequence id) LedgerMask LedgerShift) in
  let result := Z.lor result (shift_part (TransactionOrder id) TransactionMask TransactionShift) in
  let result := Z.lor result (shift_part (OperationOrder id) OperationMask OperationShift) in
  Ret result.

Definition Parse (id : Z) : ID :=
  MkID (i32 (Z.land (Z.shiftr id LedgerShift) LedgerMask))
       (i32 (Z.land (Z.shiftr id TransactionShift) TransactionMask))
       (i32 (Z.land (Z.shiftr id OperationShift) OperationMask)).

Definition LedgerRangeInclusive (from to : Z) : outcome toid_error (Z * Z) :=
  if to <? from then Fail ErrFromAfterTo else
  if (from <=? 0) || (to <=? 0) then Fail ErrNegative else
  toidFrom ← (if from =? 1 then Ret 0 else ToInt64 (New from 0 0));
  toidTo ← ToInt64 (New (i32 (to + 1)) 0 0);
  Ret (toidFrom, toidTo).

Definition IncOperationOrder (id : ID) : ID :=
  let op := i32 (OperationOrder id + 1) in
  if OperationMask <? op
  then MkID (i32 (LedgerSequence id + 1)) (TransactionOrder id) 0
  else MkID (LedgerSequence id) (TransactionOrder id) op.

(** ** Well-formed identifiers *)

Definition wf (id : ID) : Prop :=
  0 ≤ LedgerSequence id < 2 ^ 31 ∧ 0 ≤ TransactionOrder id < 2 ^ 20 ∧
  0 ≤ OperationOrder id < 2 ^ 12.

(** The order the identifiers express: by ledger, then transaction, then
    operation. *)
Definition id_lt (a b : ID) : Prop :=
  LedgerSequence a < LedgerSequence b ∨
  (LedgerSequence a = LedgerSequence b ∧
   (TransactionOrder a < TransactionOrder b ∨
    (TransactionOrder a = TransactionOrder b ∧ OperationOrder a < OperationOrder b))).

Definition packed (id : ID) : Z :=
  LedgerSequence id * 2 ^ 32 + TransactionOrder id * 2 ^ 12 + OperationOrder id.

Lemma shift_part_spec x k s :
  0 ≤ x < 2 ^ k → 0 ≤ k → 0 ≤ s → k + s ≤ 63 →
  shift_part x (Z.shiftl 1 k - 1) s = x * 2 ^ s.
Proof.
  intros Hx Hk Hs Hks. unfold shift_part.
  rewrite Z.shiftl_1_l. replace (2 ^ k - 1) with (Z.ones k) by (rewrite Z.ones_equiv; lia).
  rewrite Z.land_ones, Z.mod_small, Z.shiftl_mul_pow2 by lia.
  apply i64_small. assert (0 < 2 ^ s) by (by apply Z.pow_pos_nonneg).
  assert (2 ^ (k + s) ≤ 2 ^ 63) by (apply Z.pow_le_mono_r; lia).
  rewrite Z.pow_add_r in * by lia. unfold is_i64. nia.
Qed.

Lemma ToInt64_packed id : wf id → ToInt64 id = Ret (packed id).
Proof.
  intros (Hl & Ht & Ho). unfold ToInt64.
  destruct (Z.ltb_spec (LedgerSequence id) 0); [lia|].
  rewrite (proj2 (Z.ltb_ge TransactionMask _)) by (change TransactionMask with 1048575; lia).
  rewrite (proj2 (Z.ltb_ge OperationMask _)) by (change OperationMask with 4095; lia).
  unfold LedgerMask, TransactionMask, OperationMask, LedgerShift, TransactionShift, OperationShift.
  rewrite (shift_part_spec _ 20 12), (shift_part_spec _ 12 0) by lia.
  assert (shift_part (LedgerSequence id) (Z.shiftl 1 32 - 1) 32 = LedgerSequence id * 2 ^ 32) as ->.
  { unfold shift_part. change (Z.shiftl 1 32 - 1) with (Z.ones 32).
    rewrite Z.land_ones, Z.mod_small, Z.shiftl_mul_pow2 by lia.
    apply i64_small. unfold is_i64. lia. }
  f_equal. unfold packed.
  rewrite Z.lor_0_l, Z.pow_0_r, Z.mul_1_r, <- Z.lor_assoc.
  rewrite (lor_shifted (TransactionOrder id)) by lia. rewrite lor_shifted by lia. lia.
Qed.

Lemma packed_range id : wf id → 0 ≤ packed id < 2 ^ 63.
Proof. unfold wf, packed. lia. Qed.

Lemma Parse_packed id : wf id → Parse (packed id) = id.
Proof.
  destruct id as [l t o]. intros (Hl & Ht & Ho). cbn [LedgerSequence TransactionOrder OperationOrder] in *.
  unfold Parse, packed, LedgerMask, TransactionMask, OperationMask, LedgerShift,
    TransactionShift, OperationShift. cbn [LedgerSequence TransactionOrder OperationOrder].
  change (Z.shiftl 1 32 - 1) with (Z.ones 32). change (Z.shiftl 1 20 - 1) with (Z.ones 20).
  change (Z.shiftl 1 12 - 1) with (Z.ones 12).
  rewrite !Z.land_ones, !Z.shiftr_div_pow2 by lia.
  f_equal; rewrite i32_small; unfold is_i32; zlia.
Qed.

Lemma packed_lt a b : wf a → wf b → packed a < packed b ↔ id_lt a b.
Proof. unfold wf, packed, id_lt. lia. Qed.

(** ** Properties *)

(** packing a well-formed identifier never panics, gives a non-negative
    [int64], and [Parse] recovers the identifier. *)
Theorem ToInt64_Parse id :
  wf id → ∃ n, ToInt64 id = Ret n ∧ 0 ≤ n ≤ MaxInt64 ∧ Parse n = id.
Proof.
  intros H. exists (packed id). split; [by apply ToInt64_packed|].
  split; [|by apply Parse_packed]. pose proof (packed_range id H). unfold MaxInt64. lia.
Qed.

Theorem ToInt64_Parse_witness :
  ∃ n, ToInt64 (MkID 1000000 7 3) = Ret n ∧ 0 ≤ n ≤ MaxInt64 ∧ Parse n = MkID 1000000 7 3.
Proof. apply ToInt64_Parse. unfold wf; simpl; lia. Defined.

(** the integers order exactly as ledger, transaction and operation do, so
    paging by integer comparison pages in application order. *)
Theorem ToInt64_order a b :
  wf a → wf b →
  ∃ m n, ToInt64 a = Ret m ∧ ToInt64 b = Ret n ∧ (m < n ↔ id_lt a b) ∧ (m = n ↔ a = b).
Proof.
  intros Ha Hb. exists (packed a), (packed b). split_and!; try by apply ToInt64_packed.
  - by apply packed_lt.
  - split; [|by intros ->]. intros H. by rewrite <- (Parse_packed a Ha), H, Parse_packed.
Qed.

Theorem ToInt64_order_witness :
  ∃ m n, ToInt64 (MkID 2 5 1) = Ret m ∧ ToInt64 (MkID 3 0 0) = Ret n ∧
    (m < n ↔ id_lt (MkID 2 5 1) (MkID 3 0 0)) ∧ (m = n ↔ MkID 2 5 1 = MkID 3 0 0).
Proof. apply ToInt64_order; unfold wf; simpl; lia. Defined.

(** [LedgerRangeInclusive from to] is a half-open interval that contains an
    identifier exactly when its ledger is between [from] and [to] (ledger 0, of
    which there are no rows, counts as ledger 1). *)
Theorem LedgerRangeInclusive_spec from to :
  1 ≤ from ≤ to → to < MaxInt32 →
  ∃ a b, LedgerRangeInclusive from to = Ret (a, b) ∧
    ∀ id n, wf id → ToInt64 id = Ret n →
      (a ≤ n < b ↔ (from ≤ LedgerSequence id ∨ from = 1) ∧ LedgerSequence id ≤ to).
Proof.
  intros Hf Ht. unfold MaxInt32 in Ht. unfold LedgerRangeInclusive.
  destruct (Z.ltb_spec to from); [lia|].
  destruct (Z.leb_spec from 0); [lia|]. destruct (Z.leb_spec to 0); [lia|]. cbn [orb].
  rewrite i32_small by (unfold is_i32; lia).
  rewrite !ToInt64_packed by (unfold wf, New; simpl; lia).
  exists (if from =? 1 then 0 else packed (New from 0 0)), (packed (New (to + 1) 0 0)).
  split; [by destruct (from =? 1)|].
  intros id n Hid Hn. rewrite ToInt64_packed in Hn by done. injection Hn as <-.
  unfold wf in Hid. unfold packed, New; cbn [LedgerSequence TransactionOrder OperationOrder].
  destruct (Z.eqb_spec from 1); lia.
Qed.

Theorem LedgerRangeInclusive_spec_witness :
  ∃ a b, LedgerRangeInclusive 1 10 = Ret (a, b) ∧
    ∀ id n, wf id → ToInt64 id = Ret n →
      (a ≤ n < b ↔ (1 ≤ LedgerSequence id ∨ 1 = 1) ∧ LedgerSequence id ≤ 10).
Proof. apply LedgerRangeInclusive_spec; unfold MaxInt32; lia. Defined.

(** [IncOperationOrder] steps to the next integer inside a transaction; on
    the last operation index it moves to the next ledger with the transaction
    order kept, an identifier that is strictly later but not the next one: it
    skips the following transactions of the ledger. *)
Theorem IncOperationOrder_spec id :
  wf id → LedgerSequence id < MaxInt32 →
  wf (IncOperationOrder id) ∧ packed id < packed (IncOperationOrder id) ∧
  (OperationOrder id < 4095 → packed (IncOperationOrder id) = packed id + 1) ∧
  (OperationOrder id = 4095 → packed (IncOperationOrder id) = packed id + 2 ^ 32 - 4095).
Proof.
  intros (Hl & Ht & Ho) Hm. unfold MaxInt32 in Hm. unfold IncOperationOrder.
  rewrite !i32_small by (unfold is_i32; lia). unfold wf, packed.
  change OperationMask with 4095. destruct (Z.ltb_spec 4095 (OperationOrder id + 1));
    cbn [LedgerSequence TransactionOrder OperationOrder]; lia.
Qed.

Theorem IncOperationOrder_spec_witness :
  wf (IncOperationOrder (MkID 5 2 4095)) ∧
  packed (MkID 5 2 4095) < packed (IncOperationOrder (MkID 5 2 4095)) ∧
  (OperationOrder (MkID 5 2 4095) < 4095 →
   packed (IncOperationOrder (MkID 5 2 4095)) = packed (MkID 5 2 4095) + 1) ∧
  (OperationOrder (MkID 5 2 4095) = 4095 →
   packed (IncOperationOrder (MkID 5 2 4095)) = packed (MkID 5 2 4095) + 2 ^ 32 - 4095).
Proof. apply IncOperationOrder_spec; unfold wf, MaxInt32; simpl; lia. Defined.

(** The upper bound of a range that ends in the last 32-bit ledger overflows. *)
Example LedgerRangeInclusive_overflow : LedgerRangeInclusive 1 MaxInt32 = Panic.
Proof. by vm_compute. Qed.
