(* ===== verification/Decimal.v ===== *)
(** * Decimal numbers: the Go standard library as [amount] and [price] use it

    Decimal printing and reading ([strconv], [math/big]) on byte strings, and
    [big.Rat] as normalised rationals of the Standard Library's [Q].  Only the
    part of [Rat.SetString] reachable from its callers is modelled: they match
    the string against [^-?[.0-9]{1,20}$] first, so there is no exponent, no
    base prefix and no fraction bar. *)

From Stdlib Require Export QArith Qround.
From S2P Require Import Prelude.
Open Scope Z_scope.

Definition is_digit (c : Z) : bool := (48 <=? c) && (c <=? 57).

(** ** Printing naturals: [nat.utoa(10)] *)

Fixpoint utoa_go (fuel : nat) (n : Z) (acc : gostring) : gostring :=
  match fuel with
  | O => acc
  | S fuel' =>
      let acc' := (48 + n mod 10) :: acc in
      if n <? 10 then acc' else utoa_go fuel' (n / 10) acc'
  end.
(** A number has at most as many decimal digits as binary ones. *)
Definition utoa (n : Z) : gostring := utoa_go (S (Z.to_nat (Z.log2 n))) n [].

(** [Int.String]: a minus sign and the magnitude. *)
Definition itoa (n : Z) : gostring := (if n <? 0 then str "-" else []) ++ utoa (Z.abs n).

(** The magnitude padded with zeros to [k] digits. *)
Definition pad (k : nat) (n : Z) : gostring :=
  let rs := utoa n in replicate (k - length rs) 48 ++ rs.

(** ** Reading *)

Definition read_digits (l : gostring) : Z := foldl (λ a c, a * 10 + (c - 48)) 0 l.

(** [strconv.ParseInt(s, 10, 64)]; [None] stands for both of its errors. *)
Definition ParseInt (s : gostring) : option Z :=
  let '(neg, body) := match s with
    | 45 :: r => (true, r) | 43 :: r => (false, r) | _ => (false, s) end in
  if bool_decide (body = []) || negb (forallb is_digit body) then None else
  let n := (if neg : bool then - read_digits body else read_digits body) in
  if (MinInt64 <=? n) && (n <=? MaxInt64) then Some n else None.

(** The mantissa scan of [Rat.SetString]: the value of the digits, how many
    follow the point, how many there are, and what is left unread. *)
Fixpoint scan (l : gostring) (acc : Z) (count fcount : nat) (dot : bool)
  : Z * nat * nat * gostring :=
  match l with
  | [] => (acc, fcount, count, [])
  | c :: l' =>
      if (c =? 46) && negb dot then scan l' acc count fcount true
      else if is_digit c then
        scan l' (acc * 10 + (c - 48)) (S count) (if dot then S fcount else fcount) dot
      else (acc, fcount, count, l)
  end.

Definition pow10 (k : nat) : Z := 10 ^ Z.of_nat k.

Definition SetString (s : gostring) : option Q :=
  let '(neg, body) := match s with
    | 45 :: r => (true, r) | 43 :: r => (false, r) | _ => (false, s) end in
  let '(m, fcount, count, rest) := scan body 0 0 0 false in
  if (count =? 0)%nat || negb (bool_decide (rest = [])) then None
  else Some (Qred (Qmake (if neg : bool then - m else m) (Z.to_pos (pow10 fcount)))).

(** ** big.Rat *)

Definition RatMul (x y : Q) : Q := Qred (x * y).
Definition RatAdd (x y : Q) : Q := Qred (x + y).
Definition RatSub (x y : Q) : Q := Qred (x - y).
(** [Quo] panics on a zero divisor; its callers never pass one. *)
Definition RatQuo (x y : Q) : Q := Qred (x / y).
Definition IsInt (x : Q) : bool := Pos.eqb (Qden x) 1.

(** [Rat.FloatString], rounding half away from zero. *)
Definition FloatString (x : Q) (prec : nat) : gostring :=
  if IsInt x then
    itoa (Qnum x) ++ (if (prec =? 0)%nat then [] else str "." ++ replicate prec 48)
  else
    let a := Z.abs (Qnum x) in
    let b := Zpos (Qden x) in
    let q := a / b in
    let p := pow10 prec in
    let r := (a mod b) * p in
    let r1 := r / b in
    let r2 := r mod b in
    let up := b <=? r2 + r2 in
    let '(q, r1) :=
      if up then (if p <=? r1 + 1 then (q + 1, r1 + 1 - p) else (q, r1 + 1)) else (q, r1) in
    (if Qnum x <? 0 then str "-" else []) ++ utoa q ++
    (if (prec =? 0)%nat then [] else str "." ++ pad prec r1).

(** ** Digits *)

Lemma pow10_pos k : 0 < pow10 k.
Proof. apply Z.pow_pos_nonneg; lia. Qed.
Lemma pow10_S k : pow10 (S k) = 10 * pow10 k.
Proof. unfold pow10. rewrite Nat2Z.inj_succ, Z.pow_succ_r by lia. done. Qed.

Lemma utoa_go_acc fuel n acc : utoa_go fuel n acc = utoa_go fuel n [] ++ acc.
Proof.
  revert n acc. induction fuel as [|fuel IH]; intros n acc; simpl; [done|].
  case_if; [done|]. rewrite IH, (IH _ [_]), <- app_assoc. done.
Qed.

Lemma utoa_go_fuel f1 f2 n :
  0 ≤ n → n < 10 ^ Z.of_nat f1 → n < 10 ^ Z.of_nat f2 → (0 < f1)%nat → (0 < f2)%nat →
  utoa_go f1 n [] = utoa_go f2 n [].
Proof.
  revert f2 n. induction f1 as [|f1 IH]; intros [|f2] n H0 H1 H2 Hf1 Hf2; [lia..|].
  simpl. destruct (Z.ltb_spec n 10); [done|].
  rewrite utoa_go_acc, (utoa_go_acc f2). f_equal.
  rewrite !Nat2Z.inj_succ, !Z.pow_succ_r in * by lia.
  apply IH; [zlia..| |].
  - destruct f1; [|lia]. simpl in H1. lia.
  - destruct f2; [|lia]. simpl in H2. lia.
Qed.

Lemma utoa_fuel_enough n : 0 ≤ n → n < 10 ^ Z.of_nat (S (Z.to_nat (Z.log2 n))).
Proof.
  intros H. pose proof (Z.log2_nonneg n). rewrite Nat2Z.inj_succ, Z2Nat.id by done.
  destruct (Z.eq_dec n 0) as [->|]; [apply Z.pow_pos_nonneg; lia|].
  pose proof (Z.log2_spec n ltac:(lia)) as [_ Hs].
  eapply Z.lt_le_trans; [done|]. apply Z.pow_le_mono_l. lia.
Qed.

Lemma utoa_small n : 0 ≤ n < 10 → utoa n = [48 + n].
Proof.
  intros H. unfold utoa. simpl. rewrite (proj2 (Z.ltb_lt n 10)) by lia.
  by rewrite Z.mod_small.
Qed.

Lemma utoa_snoc n : 10 ≤ n → utoa n = utoa (n / 10) ++ [48 + n mod 10].
Proof.
  intros H. unfold utoa at 1. cbn [utoa_go]. rewrite (proj2 (Z.ltb_ge n 10)) by lia.
  rewrite utoa_go_acc. f_equal. unfold utoa.
  pose proof (Z.log2_nonneg n).
  assert (1 ≤ Z.log2 n) by (apply (Z.log2_le_mono 2 n); lia).
  apply utoa_go_fuel; [zlia| | |lia|lia].
  - pose proof (utoa_fuel_enough n ltac:(lia)) as Hf.
    rewrite Nat2Z.inj_succ, Z.pow_succ_r in Hf by lia. zlia.
  - apply utoa_fuel_enough. zlia.
Qed.

(** Induction on the decimal expansion. *)
Lemma digits_ind (P : Z → Prop) :
  (∀ n, 0 ≤ n < 10 → P n) → (∀ n, 10 ≤ n → P (n / 10) → P n) → ∀ n, 0 ≤ n → P n.
Proof.
  intros Hs Hl n Hn. revert Hn. pattern n. apply (well_founded_ind (Z.lt_wf 0)). clear n.
  intros n IH Hn. destruct (Z_lt_dec n 10); [by apply Hs|].
  apply Hl; [lia|]. apply IH; zlia.
Qed.

Lemma utoa_digits n : 0 ≤ n → Forall (λ c, is_digit c = true) (utoa n).
Proof.
  assert (∀ k, 0 ≤ k < 10 → is_digit (48 + k) = true) as Hd.
  { intros k Hk. unfold is_digit. apply andb_true_iff. split; apply Z.leb_le; lia. }
  revert n. apply digits_ind; intros n Hn.
  - rewrite utoa_small by done. constructor; [by apply Hd|constructor].
  - intros IH. rewrite utoa_snoc by done. apply Forall_app. split; [done|].
    constructor; [apply Hd; zlia|constructor].
Qed.

Lemma read_digits_app l c : read_digits (l ++ [c]) = read_digits l * 10 + (c - 48).
Proof. unfold read_digits. by rewrite foldl_app. Qed.

Lemma read_utoa n : 0 ≤ n → read_digits (utoa n) = n.
Proof.
  revert n. apply digits_ind; intros n Hn.
  - rewrite utoa_small by done. unfold read_digits. simpl. lia.
  - intros IH. rewrite utoa_snoc, read_digits_app, IH by done. zlia.
Qed.

Lemma utoa_length_pos n : 0 ≤ n → (1 ≤ length (utoa n))%nat.
Proof.
  revert n. apply digits_ind; intros n Hn.
  - by rewrite utoa_small.
  - intros IH. rewrite utoa_snoc, length_app by done. lia.
Qed.

Lemma utoa_length_le n k : 0 ≤ n → (1 ≤ k)%nat → n < pow10 k ↔ (length (utoa n) ≤ k)%nat.
Proof.
  intros Hn. revert k. pattern n. revert n Hn. apply digits_ind; intros n Hn.
  - intros k Hk. rewrite utoa_small by done. simpl. split; [lia|intros _].
    destruct k as [|k]; [lia|]. rewrite pow10_S. pose proof (pow10_pos k). lia.
  - intros IH k Hk. rewrite utoa_snoc, length_app by done. simpl.
    destruct k as [|[|k]]; [lia| |].
    + pose proof (utoa_length_pos (n / 10) ltac:(zlia)). change (pow10 1) with 10. lia.
    + rewrite pow10_S. specialize (IH (S k) ltac:(lia)).
      assert (n < 10 * pow10 (S k) ↔ n / 10 < pow10 (S k)) as -> by zlia. lia.
Qed.

(** A number of more than [k] digits is its leading digits followed by the last
    [k], padded. *)
Lemma pad_S k n : 0 ≤ n < pow10 (S k) → pad (S k) n = pad k (n / 10) ++ [48 + n mod 10] ∨ k = O.
Proof.
  intros Hn. destruct k as [|k]; [by right|left]. unfold pad.
  destruct (Z_lt_dec n 10).
  - rewrite (Z.div_small n 10), Z.mod_small, !utoa_small by lia. simpl.
    replace (k - 0)%nat with k by lia.
    change (48 + 0) with 48. by rewrite app_comm_cons, replicate_cons_app.
  - rewrite utoa_snoc, length_app by lia. simpl.
    replace (S (S k) - (length (utoa (n / 10)) + 1))%nat with (S k - length (utoa (n / 10)))%nat by lia.
    by rewrite app_assoc.
Qed.

Lemma utoa_split k n :
  pow10 k ≤ n → (1 ≤ k)%nat → utoa n = utoa (n / pow10 k) ++ pad k (n mod pow10 k).
Proof.
  revert n. induction k as [|k IH]; intros n Hn Hk; [lia|].
  pose proof (pow10_pos k). rewrite pow10_S in *.
  destruct (decide (k = 0%nat)) as [->|Hk0].
  - change (10 * pow10 0) with 10 in *. rewrite utoa_snoc by lia. f_equal.
    unfold pad. rewrite utoa_small by zlia. done.
  - rewrite utoa_snoc, (IH (n / 10)) by zlia.
    rewrite Z.div_div by lia. rewrite <- app_assoc. f_equal.
    destruct (pad_S k (n mod (10 * pow10 k))) as [->|]; [|f_equal|done].
    + rewrite pow10_S. apply Z.mod_pos_bound. lia.
    + f_equal. rewrite Z.rem_mul_r by lia.
      rewrite (Z.mul_comm 10 (_ mod _)), Z.div_add, (Z.div_small (n mod 10)) by zlia. done.
    + f_equal. f_equal. rewrite Z.rem_mul_r by lia.
      rewrite Z.mul_comm, Z.mod_add, Z.mod_mod by lia. done.
Qed.

Lemma pad_length k n : 0 ≤ n < pow10 k → (1 ≤ k)%nat → length (pad k n) = k.
Proof.
  intros Hn Hk. unfold pad. rewrite length_app, length_replicate.
  pose proof (proj1 (utoa_length_le n k ltac:(lia) Hk)). lia.
Qed.

Lemma pad_digits k n : 0 ≤ n → Forall (λ c, is_digit c = true) (pad k n).
Proof. intros. unfold pad. apply Forall_app. split; [by apply Forall_replicate|by apply utoa_digits]. Qed.

Lemma read_digits_zeros k l : read_digits (replicate k 48 ++ l) = read_digits l.
Proof. unfold read_digits. rewrite foldl_app. f_equal. by induction k. Qed.

Lemma read_pad k n : 0 ≤ n → read_digits (pad k n) = n.
Proof. intros. unfold pad. by rewrite read_digits_zeros, read_utoa. Qed.

(** ** Reading back *)

Lemma digit_not_minus l : Forall (λ c, is_digit c = true) l → ∀ r, l ≠ 45 :: r ∧ l ≠ 43 :: r.
Proof. intros Hl r. split; intros ->; by apply Forall_cons in Hl as [? _]. Qed.

(** Splits a printed number into its sign and its digits. *)
Definition sign_of (neg : bool) : gostring := if neg then str "-" else [].

Lemma sign_split {A} (neg : bool) l (f : bool → gostring → A) :
  Forall (λ c, is_digit c = true ∨ c = 46) l →
  (let '(n, body) := match sign_of neg ++ l with
     | 45 :: r => (true, r) | 43 :: r => (false, r) | _ => (false, sign_of neg ++ l) end in
   f n body) = f neg l.
Proof.
  intros Hl. destruct neg; [done|]. simpl.
  destruct l as [|c l]; [done|]. apply Forall_cons in Hl as [Hc _].
  assert (c ≠ 45 ∧ c ≠ 43) as [H1 H2].
  { split; intros ->; by destruct Hc. }
  destruct c as [|p|p]; [done| |done]. do 6 (destruct p as [p|p|]; try done).
Qed.

Lemma digits_or_dot l : Forall (λ c, is_digit c = true) l → Forall (λ c, is_digit c = true ∨ c = 46) l.
Proof. intros H. eapply Forall_impl; [done|]. auto. Qed.

Lemma utoa_not_nil n : 0 ≤ n → utoa n ≠ [].
Proof. intros H E. pose proof (utoa_length_pos n H) as Hl. rewrite E in Hl. simpl in Hl. lia. Qed.

Lemma forallb_digits l : Forall (λ c, is_digit c = true) l → forallb is_digit l = true.
Proof. intros H. apply forallb_forall. by apply List.Forall_forall. Qed.

Lemma itoa_sign n : itoa n = sign_of (n <? 0) ++ utoa (Z.abs n).
Proof. done. Qed.

Lemma ParseInt_itoa n :
  ParseInt (itoa n) = if bool_decide (is_i64 n) then Some n else None.
Proof.
  rewrite itoa_sign. unfold ParseInt. pose proof (utoa_digits (Z.abs n) ltac:(lia)) as Hd.
  rewrite (sign_split (n <? 0) (utoa (Z.abs n)) (λ neg body,
    if bool_decide (body = []) || negb (forallb is_digit body) then None else
    let m := (if neg : bool then - read_digits body else read_digits body) in
    if (MinInt64 <=? m) && (m <=? MaxInt64) then Some m else None)) by (by apply digits_or_dot).
  rewrite bool_decide_eq_false_2 by (apply utoa_not_nil; lia).
  rewrite forallb_digits, read_utoa by (done || lia). cbn [orb negb]. cbv zeta.
  assert ((if n <? 0 then - Z.abs n else Z.abs n) = n) as -> by (case_if; lia).
  unfold is_i64. case_bool_decide as H.
  - rewrite (proj2 (Z.leb_le MinInt64 n)), (proj2 (Z.leb_le n MaxInt64)) by int_lia. done.
  - destruct (Z.leb_spec MinInt64 n), (Z.leb_spec n MaxInt64); simpl; try done. exfalso. int_lia.
Qed.

Lemma scan_digits l acc count fcount dot :
  Forall (λ c, is_digit c = true) l →
  scan l acc count fcount dot =
    (foldl (λ a c, a * 10 + (c - 48)) acc l,
     (if dot then fcount + length l else fcount)%nat, (count + length l)%nat, []).
Proof.
  intros Hl. revert acc count fcount. induction Hl as [|c l Hc Hl IH]; intros acc count fcount.
  - simpl. destruct dot; by rewrite ?Nat.add_0_r.
  - cbn [scan]. rewrite Hc. destruct (Z.eqb_spec c 46) as [->|]; [done|]. cbn [andb].
    rewrite IH. cbn [foldl length].
    destruct dot; rewrite ?Nat.add_succ_r, ?Nat.add_succ_l; done.
Qed.

Lemma scan_digits_dot l k acc count fcount :
  Forall (λ c, is_digit c = true) l →
  scan (l ++ 46 :: k) acc count fcount false =
    scan k (foldl (λ a c, a * 10 + (c - 48)) acc l) (count + length l) fcount true.
Proof.
  intros Hl. revert acc count. induction Hl as [|c l Hc Hl IH]; intros acc count; cbn [app scan].
  - simpl. by rewrite Nat.add_0_r.
  - rewrite Hc. destruct (Z.eqb_spec c 46) as [->|]; [done|]. cbn [andb].
    rewrite IH. cbn [foldl length]. f_equal. lia.
Qed.

Lemma read_digits_foldl a l :
  foldl (λ a c, a * 10 + (c - 48)) a l = a * pow10 (length l) + read_digits l.
Proof.
  induction l as [|c l IH] using rev_ind; [unfold read_digits, pow10; simpl; lia|].
  rewrite foldl_app, read_digits_app, length_app. simpl. rewrite IH, Nat.add_1_r, pow10_S. lia.
Qed.

(** Reading a number with a decimal point. *)
Lemma SetString_decimal (neg : bool) l k :
  Forall (λ c, is_digit c = true) l → Forall (λ c, is_digit c = true) k → l ++ k ≠ [] →
  SetString (sign_of neg ++ l ++ 46 :: k) =
    Some (Qred (Qmake (let m := read_digits l * pow10 (length k) + read_digits k in
                       if neg then - m else m) (Z.to_pos (pow10 (length k))))).
Proof.
  intros Hl Hk Hne. unfold SetString.
  rewrite (sign_split neg (l ++ 46 :: k) (λ neg body,
    let '(m, fcount, count, rest) := scan body 0 0 0 false in
    if (count =? 0)%nat || negb (bool_decide (rest = [])) then None
    else Some (Qred (Qmake (if neg : bool then - m else m) (Z.to_pos (pow10 fcount)))))).
  2: { apply Forall_app. split; [by apply digits_or_dot|]. constructor; [by right|].
       by apply digits_or_dot. }
  rewrite scan_digits_dot, scan_digits by done. cbn [Nat.add].
  rewrite read_digits_foldl. rewrite bool_decide_eq_true_2 by done.
  destruct (Nat.eqb_spec (length l + length k) 0) as [H0|]; [|done].
  exfalso. apply Hne. apply nil_length_inv. rewrite length_app. done.
Qed.

(** ** Printing a multiple of [10^-k] *)

Lemma Qred_divides n (d : positive) : Qred (n # d) == n # d.
Proof. apply Qred_correct. Qed.

(** The reduced form [a/b] of [v/10^k]: [b] divides [10^k]. *)
Lemma Qred_pow10 v k :
  let x := Qred (v # Z.to_pos (pow10 k)) in
  ∃ c, 0 < c ∧ v = Qnum x * c ∧ pow10 k = Zpos (Qden x) * c.
Proof.
  intros x. pose proof (pow10_pos k) as Hp.
  set (d := Z.to_pos (pow10 k)). assert (Zpos d = pow10 k) as Hd by (apply Z2Pos.id; done).
  pose proof (Z.ggcd_gcd v (Zpos d)) as Hg. pose proof (Z.ggcd_correct_divisors v (Zpos d)) as Hc.
  unfold x, Qred. fold d. destruct (Z.ggcd v (Zpos d)) as [g [a b]] eqn:E.
  simpl in Hg. destruct Hc as [Hv Hb].
  assert (0 < g).
  { rewrite Hg. pose proof (Z.gcd_nonneg v (Zpos d)).
    destruct (Z.eq_dec (Z.gcd v (Zpos d)) 0) as [E0|]; [|lia].
    apply Z.gcd_eq_0_r in E0. lia. }
  assert (0 < b) by nia.
  exists g. cbn [Qnum Qden snd fst]. rewrite Z2Pos.id by done. split; [done|]. split; nia.
Qed.

Lemma FloatString_pow10 v k :
  (1 ≤ k)%nat →
  FloatString (Qred (v # Z.to_pos (pow10 k))) k =
    sign_of (v <? 0) ++ utoa (Z.abs v / pow10 k) ++ 46 :: pad k (Z.abs v mod pow10 k).
Proof.
  intros Hk. pose proof (pow10_pos k) as Hp.
  destruct (Qred_pow10 v k) as (c & Hc & Hv & Hd).
  set (x := Qred (v # Z.to_pos (pow10 k))) in *. unfold FloatString, IsInt.
  assert ((Qnum x <? 0) = (v <? 0)) as Hs.
  { destruct (Z.ltb_spec (Qnum x) 0), (Z.ltb_spec v 0); try done; nia. }
  assert (Z.abs v = Z.abs (Qnum x) * c) as Ha by (rewrite Hv, Z.abs_mul; lia).
  rewrite (proj2 (Nat.eqb_neq k 0)) by lia.
  destruct (Pos.eqb_spec (Qden x) 1) as [E1|E1].
  - rewrite E1 in Hd. rewrite Z.mul_1_l in Hd. rewrite Ha, <- Hd.
    rewrite Z.div_mul, Z.mod_mul by lia. rewrite itoa_sign, Hs, <- app_assoc. f_equal. f_equal.
    unfold pad. rewrite utoa_small by lia. simpl. f_equal.
    destruct k as [|k]; [lia|]. simpl. rewrite Nat.sub_0_r. change (48 + 0) with 48.
    by rewrite <- replicate_cons_app.
  - cbv zeta. set (b := Zpos (Qden x)) in *.
    assert (0 < b) as Hb by (unfold b; lia).
    assert (Z.abs v / pow10 k = Z.abs (Qnum x) / b) as ->.
    { rewrite Ha, Hd. rewrite (Z.mul_comm b c), (Z.mul_comm _ c). by apply Z.div_mul_cancel_l; lia. }
    assert (Z.abs v mod pow10 k = (Z.abs (Qnum x) mod b) * c) as ->.
    { rewrite Ha, Hd. by rewrite Z.mul_mod_distr_r by lia. }
    assert ((Z.abs (Qnum x) mod b) * pow10 k / b = (Z.abs (Qnum x) mod b) * c) as ->.
    { rewrite Hd. replace (Z.abs (Qnum x) mod b * (b * c)) with (Z.abs (Qnum x) mod b * c * b) by lia.
      apply Z.div_mul. lia. }
    assert ((Z.abs (Qnum x) mod b) * pow10 k mod b = 0) as ->.
    { rewrite Hd. replace (Z.abs (Qnum x) mod b * (b * c)) with (Z.abs (Qnum x) mod b * c * b) by lia.
      apply Z.mod_mul. lia. }
    rewrite (proj2 (Z.leb_gt b (0 + 0))) by lia. rewrite Hs. done.
Qed.

(** ** The regular expressions of the callers *)

(** [^-?[.0-9]{1,20}$] *)
Definition match_simple_number (v : gostring) : bool :=
  let body := match v with 45 :: r => r | _ => v end in
  (1 <=? length body)%nat && (length body <=? 20)%nat &&
  forallb (λ c, (c =? 46) || is_digit c) body.

(** [^-?[0-9]+$] *)
Definition match_integer (v : gostring) : bool :=
  let body := match v with 45 :: r => r | _ => v end in
  (1 <=? length body)%nat && forallb is_digit body.

Lemma match_minus {A} (neg : bool) l (f : gostring → A) :
  Forall (λ c, is_digit c = true ∨ c = 46) l →
  f (match sign_of neg ++ l with 45 :: r => r | _ => sign_of neg ++ l end) = f l.
Proof.
  intros Hl. destruct neg; [done|]. simpl. destruct l as [|c l]; [done|].
  apply Forall_cons in Hl as [Hc _].
  assert (c ≠ 45) by (intros ->; by destruct Hc).
  destruct c as [|p|p]; [done| |done]. do 6 (destruct p as [p|p|]; try done).
Qed.
