(* ===== verification/Amount.v ===== *)
(** * amount: fixed-point amounts with seven decimals

    Models [src/amount/main.go] over the decimal library of [Decimal]. *)

From S2P Require Import Prelude Decimal.

Definition One : Z := 10000000.
Definition bigOne : Q := inject_Z One.

Inductive amount_error :=
  | ErrInvalidFormat
  | ErrCannotParse
  | ErrTooManyDigits
  | ErrOutsideBounds.

Definition validAmountSimple : gostring → bool := match_simple_number.
Definition negativePositiveNumberOnly : gostring → bool := match_integer.

Definition ParseInt64 (v : gostring) : outcome amount_error Z :=
  if negb (validAmountSimple v) then Fail ErrInvalidFormat else
  match SetString v with
  | None => Fail ErrCannotParse
  | Some r =>
      let r := RatMul r bigOne in
      if negb (IsInt r) then Fail ErrTooManyDigits else
      match ParseInt (FloatString r 0) with
      | None => Fail ErrOutsideBounds
      | Some i => Ret i
      end
  end.

Definition Parse (v : gostring) : outcome amount_error Z := ParseInt64 v.

Definition MustParse (v : gostring) : outcome amount_error Z :=
  match Parse v with Fail _ => Panic | r => r end.

Definition IntStringToAmount (v : gostring) : outcome amount_error gostring :=
  if negb (negativePositiveNumberOnly v) then Fail ErrInvalidFormat else
  let '(negative, v) := match v with 45 :: r => (true, r) | _ => (false, v) end in
  let l := length v in
  let r := if (l <=? 7)%nat then str "0." ++ replicate (7 - l) 48 ++ v
           else take (l - 7) v ++ str "." ++ drop (l - 7) v in
  Ret (if negative : bool then str "-" ++ r else r).

Definition StringFromInt64 (v : Z) : gostring := FloatString (RatQuo (inject_Z v) bigOne) 7.
Definition String (v : Z) : gostring := StringFromInt64 v.

(** ** What is printed *)

Lemma pow10_7 : pow10 7 = One.
Proof. done. Qed.

Lemma StringFromInt64_spec v :
  StringFromInt64 v = sign_of (v <? 0) ++ utoa (Z.abs v / One) ++ 46 :: pad 7 (Z.abs v mod One).
Proof.
  rewrite <- pow10_7, <- FloatString_pow10 by lia. unfold StringFromInt64, RatQuo.
  f_equal. apply Qred_complete. unfold Qeq, Qdiv, Qmult, Qinv, inject_Z, bigOne. simpl. lia.
Qed.

(** A numeral in plain notation, and its value in units of [10^-7]. *)
Lemma SetString_amount (neg : bool) n :
  0 ≤ n →
  SetString (sign_of neg ++ utoa (n / One) ++ 46 :: pad 7 (n mod One))
  = Some (Qred ((if neg then - n else n) # 10000000)).
Proof.
  intros Hn. assert (0 ≤ n mod One < One) as Hm by (apply Z.mod_pos_bound; done).
  rewrite SetString_decimal.
  - rewrite pad_length, read_pad, read_utoa by (rewrite ?pow10_7; first [lia|unfold One in *; zlia]).
    rewrite pow10_7. cbv zeta. do 2 f_equal.
    assert (n / One * One + n mod One = n) as -> by (unfold One; zlia). done.
  - apply utoa_digits. unfold One. zlia.
  - apply pad_digits. lia.
  - intros E. apply app_nil in E as [E _]. revert E. apply utoa_not_nil. unfold One. zlia.
Qed.

Lemma RatMul_One n : RatMul (Qred (n # 10000000)) bigOne = inject_Z n.
Proof.
  unfold RatMul. assert (Qred (n # 10000000) * bigOne == inject_Z n)%Q as E.
  { rewrite Qred_correct. unfold Qeq, Qmult, inject_Z, bigOne, One. simpl. lia. }
  rewrite (Qred_complete _ _ E). unfold Qred, inject_Z. simpl Qden.
  pose proof (Z.ggcd_gcd n 1) as Hg. pose proof (Z.ggcd_correct_divisors n 1) as Hd.
  destruct (Z.ggcd n 1) as [g [a b]]. simpl in Hg, Hd |- *. rewrite Z.gcd_1_r in Hg. subst g.
  destruct Hd as [H1 H2]. rewrite Z.mul_1_l in H1, H2. by subst.
Qed.

Lemma FloatString_int n : FloatString (inject_Z n) 0 = itoa n.
Proof. unfold FloatString, IsInt, inject_Z. simpl. by rewrite app_nil_r. Qed.

(** Parsing what denotes [n * 10^-7]. *)
Lemma ParseInt64_units v n :
  validAmountSimple v = true → SetString v = Some (Qred (n # 10000000)) →
  ParseInt64 v = if bool_decide (is_i64 n) then Ret n else Fail ErrOutsideBounds.
Proof.
  intros Hv Hs. unfold ParseInt64. rewrite Hv, Hs. cbn [negb]. cbv zeta.
  rewrite RatMul_One. assert (IsInt (inject_Z n) = true) as -> by done. cbn [negb].
  rewrite FloatString_int, ParseInt_itoa. by case_bool_decide.
Qed.

Lemma validAmountSimple_printed (neg : bool) n :
  0 ≤ n < pow10 19 → validAmountSimple (sign_of neg ++ utoa (n / One) ++ 46 :: pad 7 (n mod One)) = true.
Proof.
  intros Hn. assert (0 ≤ n mod One < One) as Hm by (apply Z.mod_pos_bound; done).
  assert (Forall (λ c, is_digit c = true) (utoa (n / One))) as H1 by (apply utoa_digits; unfold One; zlia).
  assert (Forall (λ c, is_digit c = true) (pad 7 (n mod One))) as H2 by (apply pad_digits; lia).
  set (l := utoa (n / One) ++ 46 :: pad 7 (n mod One)).
  assert (Forall (λ c, is_digit c = true ∨ c = 46) l) as Hl.
  { apply Forall_app. split; [by apply digits_or_dot|].
    constructor; [by right|]. by apply digits_or_dot. }
  unfold validAmountSimple, match_simple_number.
  rewrite (match_minus neg l (λ body, (1 <=? length body)%nat && (length body <=? 20)%nat &&
    forallb (λ c, (c =? 46) || is_digit c) body)) by done.
  assert (length l = length (utoa (n / One)) + 8)%nat as Hlen.
  { unfold l. rewrite length_app. cbn [length]. rewrite pad_length; [lia|done|lia]. }
  assert (length (utoa (n / One)) ≤ 12)%nat as Hu.
  { apply utoa_length_le; [unfold One; zlia|lia|].
    change (pow10 19) with 10000000000000000000 in Hn. change (pow10 12) with 1000000000000.
    unfold One. zlia. }
  rewrite !(proj2 (Nat.leb_le _ _)) by lia. cbn [andb].
  apply forallb_forall. intros c Hc. rewrite List.Forall_forall in Hl.
  destruct (Hl c Hc) as [-> | ->]; [apply orb_true_r|done].
Qed.

(** ** Properties *)

(** every 64-bit amount is printed so that [Parse] reads it back. *)
Theorem Parse_String v : is_i64 v → Parse (String v) = Ret v.
Proof.
  intros Hv. unfold Parse, String. rewrite StringFromInt64_spec.
  assert (0 ≤ Z.abs v < pow10 19) as Ha.
  { change (pow10 19) with 10000000000000000000. unfold is_i64 in Hv. lia. }
  assert (∀ b : bool, (v <? 0) = b → (if b then - Z.abs v else Z.abs v) = v) as Hs.
  { intros b <-. case_if; lia. }
  rewrite (ParseInt64_units _ v).
  - by rewrite bool_decide_eq_true_2.
  - by apply validAmountSimple_printed.
  - rewrite SetString_amount by lia. by rewrite (Hs _ eq_refl).
Qed.

Theorem Parse_String_witness : Parse (String MinInt64) = Ret MinInt64.
Proof. apply Parse_String. unfold is_i64, MinInt64. lia. Defined.

(** [Parse] is exact: it returns [i] just when the text has the shape of a
    number of at most twenty characters, denotes a rational [q] with
    [q * 10^7 = i], and [i] fits 64 bits; it never rounds and never panics. *)
Theorem Parse_exact v i :
  Parse v = Ret i ↔
  validAmountSimple v = true ∧ is_i64 i ∧
  ∃ q, SetString v = Some q ∧ (q * inject_Z One == inject_Z i)%Q.
Proof.
  unfold Parse. split.
  - unfold ParseInt64. destruct (validAmountSimple v); [|done]. cbn [negb].
    destruct (SetString v) as [q|]; [|done]. cbv zeta.
    destruct (IsInt (RatMul q bigOne)) eqn:Hi; [|done]. cbn [negb].
    apply Pos.eqb_eq in Hi.
    assert (RatMul q bigOne = inject_Z (Qnum (RatMul q bigOne))) as E.
    { destruct (RatMul q bigOne) as [a b]. simpl in *. by subst. }
    rewrite E, FloatString_int, ParseInt_itoa. case_bool_decide as Hb; [|done].
    intros [= <-]. split; [done|]. split; [done|]. exists q. split; [done|].
    rewrite <- E. unfold RatMul. by rewrite Qred_correct.
  - intros (Hv & Hi & q & Hs & Hq).
    assert (q = Qred q) as Hq'.
    { unfold SetString in Hs. repeat case_match; simplify_eq;
      symmetry; apply Qred_complete, Qred_correct. }
    rewrite (ParseInt64_units v i Hv); [by rewrite bool_decide_eq_true_2|].
    rewrite Hs. f_equal. rewrite Hq'. apply Qred_complete.
    unfold Qeq, Qmult, inject_Z, One in *. simpl in *. lia.
Qed.

(** [IntStringToAmount] agrees with the arithmetic printer on the decimal
    numeral of every integer, including those beyond 64 bits. *)
Theorem IntStringToAmount_String v : IntStringToAmount (itoa v) = Ret (StringFromInt64 v).
Proof.
  rewrite StringFromInt64_spec, itoa_sign. set (n := Z.abs v).
  assert (0 ≤ n) as Hn by (unfold n; lia). pose proof (utoa_digits n Hn) as Hd.
  pose proof (utoa_length_pos n Hn) as Hpos.
  unfold IntStringToAmount, negativePositiveNumberOnly, match_integer.
  rewrite (match_minus (v <? 0) (utoa n)
    (λ body, (1 <=? length body)%nat && forallb is_digit body)) by (by apply digits_or_dot).
  rewrite forallb_digits, (proj2 (Nat.leb_le 1 _)) by done. cbn [negb andb].
  assert (∀ r, (if v <? 0 then str "-" ++ r else r) = sign_of (v <? 0) ++ r) as Hs
    by (intros; by destruct (v <? 0)).
  assert (match sign_of (v <? 0) ++ utoa n with
          | 45 :: r => (true, r) | _ => (false, sign_of (v <? 0) ++ utoa n) end
          = ((v <? 0), utoa n)) as ->.
  { destruct (v <? 0); [done|]. simpl. destruct (utoa n) as [|c l] eqn:E; [done|].
    apply Forall_cons in Hd as [Hc _]. assert (c ≠ 45) by (by intros ->).
    destruct c as [|p|p]; [done| |done]. do 6 (destruct p as [p|p|]; try done). }
  f_equal. rewrite Hs. f_equal. destruct (Nat.leb_spec (length (utoa n)) 7) as [Hl|Hl].
  - assert (n < One) as Hsm by (rewrite <- pow10_7; apply utoa_length_le; lia).
    rewrite Z.div_small, Z.mod_small by done. done.
  - assert (One ≤ n) as Hbig.
    { destruct (Z_lt_dec n One) as [Hlt|]; [|lia]. rewrite <- pow10_7 in Hlt.
      apply utoa_length_le in Hlt; lia. }
    pose proof (utoa_split 7 n Hbig ltac:(lia)) as E. rewrite pow10_7 in E.
    assert (length (pad 7 (n mod One)) = 7%nat) as Hp.
    { apply pad_length; [apply Z.mod_pos_bound; done|lia]. }
    assert (length (utoa n) - 7 = length (utoa (n / One)))%nat as ->.
    { rewrite E, length_app, Hp. lia. }
    rewrite E at 1 2. by rewrite take_app_length, drop_app_length.
Qed.
