(* ===== verification/Price.v ===== *)
(** * price: rational prices and the rounding of exchanges

    Models [src/price/main.go] and [src/xdr/price.go]: parsing a decimal into a
    32-bit fraction by continued fractions, and the 128-bit multiply-divide
    arithmetic with which offers are exchanged.  The [bits] functions of the Go
    standard library are written out on 64-bit words. *)

From Stdlib Require Import Qabs.
From Stdlib Require Qcanon.
From S2P Require Import Prelude Decimal.

(** [xdr.Price] *)
Record Price := MkPrice { N : Z; D : Z }.

#[export] Instance Price_eq_dec : EqDecision Price.
Proof. solve_decision. Defined.

Inductive price_error :=
  | ErrDivisionByZero
  | ErrOverflow
  | ErrInvalidFormat
  | ErrCannotParse
  | ErrNoApproximation.

(** ** Comparing prices (xdr/price.go) *)

(** [uint64(p.N)] of an [int32] sign-extends. *)
Definition Equal (p q : Price) : bool :=
  u64 (u64 (N p) * u64 (D q)) =? u64 (u64 (N q) * u64 (D p)).
Definition Cheaper (p q : Price) : bool :=
  u64 (u64 (N p) * u64 (D q)) <? u64 (u64 (N q) * u64 (D p)).
Definition Invert (p : Price) : Price := MkPrice (D p) (N p).
(** [big.NewRat] panics on a zero denominator. *)
Definition NewRat (n d : Z) : option Q :=
  if d =? 0 then None
  else if d <? 0 then Some (Qred (- n # Z.to_pos (- d))) else Some (Qred (n # Z.to_pos d)).
Definition Normalize (p : Price) : outcome price_error Price :=
  match NewRat (N p) (D p) with
  | None => Panic
  | Some r => Ret (MkPrice (i32 (i64 (Qnum r))) (i32 (i64 (Zpos (Qden r)))))
  end.
Definition Price_String (p : Price) : outcome price_error gostring :=
  match NewRat (N p) (D p) with None => Panic | Some r => Ret (FloatString r 7) end.

(** ** Parsing *)

Definition validAmountSimple : gostring → bool := match_simple_number.

Definition Qgt_bool (x y : Q) : bool := negb (Qle_bool x y).
Definition maxInt32 : Q := inject_Z MaxInt32.

(** [floor]: Euclidean division of numerator by (positive) denominator. *)
Definition floor (n : Q) : Z := Qnum n / Zpos (Qden n).

(** The loop of [continuedFraction].  Of [fractions] only the last two pairs are
    read: [(h1, k1)] and [(h2, k2)]; they are integers.  The result is the last
    pair when the loop breaks; [None] is running out of fuel. *)
Fixpoint cf_loop (fuel : nat) (number : Q) (h1 k1 h2 k2 : Z) : option (Z * Z) :=
  match fuel with
  | O => None
  | S fuel' =>
      if Qgt_bool number maxInt32 then Some (h1, k1) else
      let a := floor number in
      let f := RatSub number (inject_Z a) in
      let h := a * h1 + h2 in
      let k := a * k1 + k2 in
      if (MaxInt32 <? h) || (MaxInt32 <? k) then Some (h1, k1) else
      if Qeq_bool f 0 then Some (h, k)
      else cf_loop fuel' (RatQuo 1 f) h k h1 k1
  end.

(** Twice the binary size of the denominator, since two steps of Euclid's
    algorithm at least halve it (see [cf_loop_terminates]). *)
Definition cf_fuel (number : Q) : nat :=
  S (S (Z.to_nat (Z.log2 (Zpos (Qden number) * Zpos (Qden number))))).

Definition continuedFraction (price : gostring) : outcome price_error Price :=
  if negb (validAmountSimple price) then Fail ErrInvalidFormat else
  match SetString price with
  | None => Fail ErrCannotParse
  | Some number =>
      match cf_loop (cf_fuel number) number 1 0 0 1 with
      | None => Panic (* never: [cf_loop_terminates] *)
      | Some (n, d) =>
          if (n =? 0) || (d =? 0) then Fail ErrNoApproximation
          else Ret (MkPrice (i32 (i64 n)) (i32 (i64 d)))
      end
  end.

Definition Parse (v : gostring) : outcome price_error Price := continuedFraction v.

(** ** Exchanges *)

(** [bits.Mul64], [bits.Add64] and [bits.Div64] *)
Definition Mul64 (x y : Z) : Z * Z := (x * y / 2 ^ 64, (x * y) mod 2 ^ 64).
Definition Add64 (x y carry : Z) : Z * Z := (u64 (x + y + carry), (x + y + carry) / 2 ^ 64).
Definition Div64 (hi lo y : Z) : option (Z * Z) :=
  if (y =? 0) || (y <=? hi) then None
  else Some ((hi * 2 ^ 64 + lo) / y, (hi * 2 ^ 64 + lo) mod y).

Definition MulFractionRoundDown (x n d : Z) : outcome price_error Z :=
  if d =? 0 then Fail ErrDivisionByZero else
  let '(hi, lo) := Mul64 (u64 x) (u64 n) in
  let denominator := u64 d in
  if denominator <=? hi then Fail ErrOverflow else
  match Div64 hi lo denominator with
  | None => Panic
  | Some (q, _) => if MaxInt64 <? q then Fail ErrOverflow else Ret (i64 q)
  end.

Definition mulFractionRoundUp (x n d : Z) : outcome price_error Z :=
  if d =? 0 then Fail ErrDivisionByZero else
  let '(hi, lo) := Mul64 (u64 x) (u64 n) in
  let '(lo, carry) := Add64 lo (u64 (i64 (d - 1))) 0 in
  let hi := u64 (hi + carry) in
  let denominator := u64 d in
  if denominator <=? hi then Fail ErrOverflow else
  match Div64 hi lo denominator with
  | None => Panic
  | Some (q, _) => if MaxInt64 <? q then Fail ErrOverflow else Ret (i64 q)
  end.

Definition min (x y : Z) : Z := if x <=? y then x else y.

Definition ConvertToBuyingUnits (sellingOfferAmount sellingUnitsNeeded pricen priced : Z)
  : outcome price_error (Z * Z) :=
  result ← (if pricen <=? priced then
              result ← MulFractionRoundDown sellingOfferAmount pricen priced;
              mulFractionRoundUp result priced pricen
            else Ret sellingOfferAmount);
  let result := min result sellingUnitsNeeded in
  let sellingUnitsExtracted := result in
  result ← mulFractionRoundUp result pricen priced;
  Ret (result, sellingUnitsExtracted).

(** ** Multiply-divide *)

(** The rounding divisions as arithmetic: what the 128-bit code promises. *)
Definition mul_div_down (x n d : Z) : Z := x * n / d.
Definition mul_div_up (x n d : Z) : Z := (x * n + d - 1) / d.
Definition fits (q : Z) : outcome price_error Z := if q <=? MaxInt64 then Ret q else Fail ErrOverflow.

Definition amount_ok (x : Z) : Prop := 0 <= x <= MaxInt64.

Lemma div_words_fits hi lo d t :
  0 < d < 2 ^ 63 → t = hi * 2 ^ 64 + lo → 0 <= hi → 0 <= lo < 2 ^ 64 →
  (if d <=? hi then Fail ErrOverflow else
   match Div64 hi lo d with
   | None => Panic
   | Some (q, _) => if MaxInt64 <? q then Fail ErrOverflow else Ret (i64 q)
   end) = fits (t / d).
Proof.
  intros Hd -> Hhi Hlo. unfold fits, Div64.
  destruct (Z.leb_spec d hi) as [Hle|Hlt].
  - destruct (Z.leb_spec ((hi * 2 ^ 64 + lo) / d) MaxInt64) as [H|]; [|done].
    exfalso. assert (d * 2 ^ 64 <= hi * 2 ^ 64 + lo) by nia.
    apply (Z.div_le_mono _ _ d) in H0; [|lia]. rewrite Z.mul_comm, Z.div_mul in H0 by lia.
    unfold MaxInt64 in H. lia.
  - rewrite (proj2 (Z.eqb_neq d 0)) by lia. cbn [orb].
    assert (0 <= (hi * 2 ^ 64 + lo) / d) by (apply Z.div_pos; lia).
    destruct (Z.leb_spec ((hi * 2 ^ 64 + lo) / d) MaxInt64) as [H1|H1].
    + rewrite (proj2 (Z.ltb_ge MaxInt64 _)) by lia. rewrite i64_small; [done|].
      unfold is_i64, MaxInt64 in *. lia.
    + by rewrite (proj2 (Z.ltb_lt MaxInt64 _)) by lia.
Qed.

Lemma Mul64_parts x y :
  0 <= x → 0 <= y → x * y = x * y / 2 ^ 64 * 2 ^ 64 + (x * y) mod 2 ^ 64.
Proof. intros. pose proof (Z.div_mod (x * y) (2 ^ 64) ltac:(lia)). lia. Qed.

Lemma MulFractionRoundDown_fits x n d :
  amount_ok x → amount_ok n → amount_ok d → 0 < d →
  MulFractionRoundDown x n d = fits (mul_div_down x n d).
Proof.
  unfold amount_ok, MaxInt64. intros Hx Hn Hd H0. unfold MulFractionRoundDown, mul_div_down.
  rewrite (proj2 (Z.eqb_neq d 0)) by lia. rewrite !u64_small by (unfold is_u64; lia).
  unfold Mul64. apply div_words_fits; [lia|by apply Mul64_parts; lia| |apply Z.mod_pos_bound; lia].
  apply Z.div_pos; nia.
Qed.

Lemma mulFractionRoundUp_fits x n d :
  amount_ok x → amount_ok n → amount_ok d → 0 < d →
  mulFractionRoundUp x n d = fits (mul_div_up x n d).
Proof.
  unfold amount_ok, MaxInt64. intros Hx Hn Hd H0. unfold mulFractionRoundUp, mul_div_up.
  rewrite (proj2 (Z.eqb_neq d 0)) by lia.
  rewrite (i64_small (d - 1)) by (unfold is_i64; lia).
  rewrite !u64_small by (unfold is_u64; lia). unfold Mul64, Add64.
  set (t := x * n). assert (0 <= t) by (unfold t; nia).
  assert (t < 2 ^ 126) by (unfold t; nia).
  pose proof (Z.mod_pos_bound t (2 ^ 64) ltac:(lia)) as Hm.
  pose proof (Z.div_mod t (2 ^ 64) ltac:(lia)) as Hdm.
  assert (0 <= t / 2 ^ 64 < 2 ^ 62) as Hdv
    by (split; [apply Z.div_pos; lia|apply Z.div_lt_upper_bound; lia]).
  assert (0 <= (t mod 2 ^ 64 + (d - 1) + 0) / 2 ^ 64 <= 1) as Hc by zlia.
  rewrite (u64_small (_ + _ / _)) by (unfold is_u64; lia).
  apply div_words_fits; [lia| |lia|apply u64_range].
  unfold u64, wrap_u. pose proof (Z.div_mod (t mod 2 ^ 64 + (d - 1) + 0) (2 ^ 64) ltac:(lia)). lia.
Qed.

(** ** The loop on remainders

    A number [p/d] continues as [d/(p mod d)]: the loop runs Euclid's algorithm. *)
Fixpoint cf_pair (fuel : nat) (p d h1 k1 h2 k2 : Z) : option (Z * Z) :=
  match fuel with
  | O => None
  | S fuel' =>
      if MaxInt32 * d <? p then Some (h1, k1) else
      let a := p / d in
      let h := a * h1 + h2 in
      let k := a * k1 + k2 in
      if (MaxInt32 <? h) || (MaxInt32 <? k) then Some (h1, k1) else
      if p mod d =? 0 then Some (h, k)
      else cf_pair fuel' d (p mod d) h k h1 k1
  end.

Definition frac (p d : Z) : Q := Qred (p # Z.to_pos d).

Lemma frac_eq p d : 0 < d → (frac p d == p # Z.to_pos d)%Q.
Proof. intros. apply Qred_correct. Qed.

Lemma frac_gt p d : 0 < d → Qgt_bool (frac p d) maxInt32 = (MaxInt32 * d <? p).
Proof.
  intros Hd. unfold Qgt_bool.
  destruct (Qle_bool (frac p d) maxInt32) eqn:E.
  - apply Qle_bool_iff in E. rewrite frac_eq in E by done.
    unfold Qle, maxInt32, inject_Z in E. simpl in E. rewrite Z2Pos.id in E by done.
    symmetry. apply Z.ltb_ge. lia.
  - symmetry. apply Z.ltb_lt. apply not_true_iff_false in E. rewrite Qle_bool_iff in E.
    rewrite frac_eq in E by done. unfold Qle, maxInt32, inject_Z in E. simpl in E.
    rewrite Z2Pos.id in E by done. lia.
Qed.

Lemma floor_frac p d : 0 < d → floor (frac p d) = p / d.
Proof.
  intros Hd. assert (floor (frac p d) = Qfloor (frac p d)) as -> by (by destruct (frac p d)).
  rewrite (Qfloor_comp _ _ (frac_eq p d Hd)).
  simpl. by rewrite Z2Pos.id.
Qed.

Lemma RatSub_frac p d : 0 < d → RatSub (frac p d) (inject_Z (p / d)) = frac (p mod d) d.
Proof.
  intros Hd. apply Qred_complete. rewrite frac_eq by done.
  unfold Qeq, Qminus, Qplus, Qopp, inject_Z. simpl. rewrite !Pos.mul_1_r, !Z2Pos.id by done.
  rewrite Z.mod_eq by lia. lia.
Qed.

Lemma frac_zero p d : 0 < d → Qeq_bool (frac p d) 0 = (p =? 0).
Proof.
  intros Hd. destruct (Z.eqb_spec p 0) as [->|Hp].
  - apply Qeq_bool_iff. rewrite frac_eq by done. unfold Qeq. simpl. lia.
  - apply not_true_iff_false. rewrite Qeq_bool_iff, frac_eq by done. unfold Qeq. simpl. lia.
Qed.

Lemma RatQuo_frac p d : 0 < p → 0 < d → RatQuo 1 (frac p d) = frac d p.
Proof.
  intros Hp Hd. apply Qred_complete. rewrite frac_eq by done.
  unfold Qeq, Qdiv, Qmult, Qinv. simpl. destruct p as [|p|p]; [lia| |lia].
  simpl. rewrite Z2Pos.id by done. lia.
Qed.

Lemma cf_loop_pair fuel p d h1 k1 h2 k2 :
  0 < d → cf_loop fuel (frac p d) h1 k1 h2 k2 = cf_pair fuel p d h1 k1 h2 k2.
Proof.
  revert p d h1 k1 h2 k2. induction fuel as [|fuel IH]; intros p d h1 k1 h2 k2 Hd; [done|].
  cbn [cf_loop cf_pair]. rewrite frac_gt, floor_frac, RatSub_frac by done. cbv zeta.
  rewrite frac_zero by done. pose proof (Z.mod_pos_bound p d Hd).
  destruct (MaxInt32 * d <? p); [done|]. case_if; [done|].
  destruct (Z.eqb_spec (p mod d) 0); [done|]. rewrite RatQuo_frac by lia. apply IH. lia.
Qed.

Lemma cf_pair_S fuel p d h1 k1 h2 k2 :
  cf_pair (S fuel) p d h1 k1 h2 k2 =
    if MaxInt32 * d <? p then Some (h1, k1) else
    let a := p / d in
    let h := a * h1 + h2 in
    let k := a * k1 + k2 in
    if (MaxInt32 <? h) || (MaxInt32 <? k) then Some (h1, k1) else
    if p mod d =? 0 then Some (h, k)
    else cf_pair fuel d (p mod d) h k h1 k1.
Proof. done. Qed.

(** The product of the remainders halves at every step. *)
Lemma cf_pair_terminates n p d h1 k1 h2 k2 :
  0 < d → d * (p mod d) < 2 ^ Z.of_nat n → is_Some (cf_pair (S n) p d h1 k1 h2 k2).
Proof.
  revert p d h1 k1 h2 k2. induction n as [|n IH]; intros p d h1 k1 h2 k2 Hd Hm;
    rewrite cf_pair_S; pose proof (Z.mod_pos_bound p d Hd) as Hb; cbv zeta;
    (destruct (MaxInt32 * d <? p); [eauto|]); (case_if; [eauto|]);
    (destruct (Z.eqb_spec (p mod d) 0) as [|Hne]; [eauto|]).
  - simpl in Hm. nia.
  - apply IH; [lia|].
    rewrite Nat2Z.inj_succ, Z.pow_succ_r in Hm by lia.
    pose proof (Z.mod_pos_bound d (p mod d) ltac:(lia)).
    pose proof (Z.div_mod d (p mod d) ltac:(lia)).
    assert (1 <= d / (p mod d)) by (apply Z.div_le_lower_bound; lia). nia.
Qed.

Lemma cf_loop_terminates number :
  number = Qred number → is_Some (cf_loop (cf_fuel number) number 1 0 0 1).
Proof.
  intros Hr. assert (number = frac (Qnum number) (Zpos (Qden number))) as E.
  { unfold frac. rewrite Pos2Z.id. by destruct number. }
  rewrite E at 2. rewrite cf_loop_pair by lia. apply cf_pair_terminates; [lia|].
  set (d := Zpos (Qden number)). pose proof (Z.mod_pos_bound (Qnum number) d ltac:(lia)).
  rewrite Nat2Z.inj_succ, Z2Nat.id by apply Z.log2_nonneg.
  pose proof (Z.log2_spec (d * d) ltac:(lia)). nia.
Qed.

(** ** What the convergents approximate *)

(** The result approximates [P/D] up to one unit of the largest 32-bit price. *)
Definition cf_good (P D : Z) (r : Z * Z) : Prop :=
  let '(n, m) := r in
  0 <= n <= MaxInt32 /\ 0 <= m <= MaxInt32 /\ Z.gcd n m = 1 /\
  (m <> 0 → Z.abs (P * m - D * n) * MaxInt32 <= Z.max P D).

Record cf_inv (P D p d h1 k1 h2 k2 : Z) : Prop := {
  inv_num : P = p * h1 + d * h2;
  inv_den : D = p * k1 + d * k2;
  inv_det : h2 * k1 - k2 * h1 = 1 \/ h2 * k1 - k2 * h1 = -1;
  inv_pos : 0 < p /\ 0 < d;
  inv_cur : 0 <= h1 <= MaxInt32 /\ 0 <= k1 <= MaxInt32;
  inv_old : 0 <= h2 /\ 0 <= k2;
  inv_prog : (k1 = 0 /\ h1 = 1 /\ h2 = 0 /\ k2 = 1) \/ (1 <= k1 /\ d < p)
}.

Lemma cf_inv_init P D : 0 < P → 0 < D → cf_inv P D P D 1 0 0 1.
Proof. intros. constructor; unfold MaxInt32; lia. Qed.

Lemma cf_inv_error P D p d h1 k1 h2 k2 :
  cf_inv P D p d h1 k1 h2 k2 → Z.abs (P * k1 - D * h1) = d.
Proof.
  intros [-> -> Hdet [Hp Hd] _ _ _].
  replace ((p * h1 + d * h2) * k1 - (p * k1 + d * k2) * h1) with (d * (h2 * k1 - k2 * h1)) by lia.
  destruct Hdet as [-> | ->]; lia.
Qed.

Lemma det_gcd h k x y : x * k - y * h = 1 \/ x * k - y * h = -1 → Z.gcd h k = 1.
Proof.
  intros H. apply Z.bezout_1_gcd. unfold Z.Bezout.
  destruct H as [H|H]; [exists (- y), x|exists y, (- x)]; lia.
Qed.

Section cf_step.
Context (P D p d h1 k1 h2 k2 : Z) (Hinv : cf_inv P D p d h1 k1 h2 k2).
Let a := p / d.
Let h := a * h1 + h2.
Let k := a * k1 + k2.

Lemma cf_quotient : p = d * a + p mod d /\ 0 <= p mod d < d /\ 0 <= a /\ (d < p → 1 <= a).
Proof using Hinv.
  destruct Hinv as [_ _ _ [Hp Hd] _ _ _].
  split; [apply Z.div_mod; lia|]. split; [by apply Z.mod_pos_bound|].
  split; [apply Z.div_pos; lia|]. intros. apply Z.div_le_lower_bound; lia.
Qed.

Lemma cf_step_values : P = d * h + p mod d * h1 /\ D = d * k + p mod d * k1 /\ 0 <= h /\ 1 <= k.
Proof using Hinv.
  pose proof cf_quotient as (E & Hm & Ha & Ha1).
  destruct Hinv as [Hn Hd _ [Hp0 Hd0] [Hh1 Hk1] [Hh2 Hk2] Hprog]. unfold h, k.
  split; [rewrite Hn, E at 1; lia|]. split; [rewrite Hd, E at 1; lia|].
  split; [nia|]. destruct Hprog as [(-> & _ & _ & ->) | [Hk Hdp]]; [lia|].
  specialize (Ha1 Hdp). nia.
Qed.

Lemma cf_step_det : h1 * k - k1 * h = 1 \/ h1 * k - k1 * h = -1.
Proof using Hinv.
  destruct Hinv as [_ _ Hdet _ _ _ _]. unfold h, k.
  replace (h1 * (a * k1 + k2) - k1 * (a * h1 + h2)) with (- (h2 * k1 - k2 * h1)) by lia. lia.
Qed.

Lemma cf_inv_step :
  p mod d <> 0 → h <= MaxInt32 → k <= MaxInt32 → cf_inv P D d (p mod d) h k h1 k1.
Proof using Hinv.
  intros Hm0 Hh Hk. pose proof cf_quotient as (E & Hm & Ha & Ha1).
  pose proof cf_step_values as (EP & ED & H0 & H1). pose proof cf_step_det as Hdet'.
  destruct Hinv as [Hn Hd Hdet [Hp0 Hd0] [Hh1 Hk1] [Hh2 Hk2] Hprog].
  constructor; [exact EP|exact ED|exact Hdet'|lia|lia|lia|right; lia].
Qed.

(** The previous pair is good enough whenever the loop stops on a bound. *)
Lemma cf_good_stop :
  MaxInt32 * d < p \/ MaxInt32 < h \/ MaxInt32 < k → cf_good P D (h1, k1).
Proof using Hinv.
  intros Hstop. pose proof (cf_inv_error _ _ _ _ _ _ _ _ Hinv) as Herr.
  pose proof cf_quotient as (E & Hm & Ha & Ha1).
  pose proof cf_step_values as (EP & ED & H0 & H1).
  destruct Hinv as [Hn Hd Hdet [Hp0 Hd0] [Hh1 Hk1] [Hh2 Hk2] Hprog].
  clearbody h k a.
  split; [done|]. split; [done|]. split; [by apply (det_gcd _ _ h2 k2)|].
  intros Hk0. rewrite Herr.
  assert (0 <= p mod d * h1) by (apply Z.mul_nonneg_nonneg; lia).
  assert (0 <= p mod d * k1) by (apply Z.mul_nonneg_nonneg; lia).
  assert (0 <= d * k2) by (apply Z.mul_nonneg_nonneg; lia).
  assert (p * 1 <= p * k1) by (apply Z.mul_le_mono_nonneg_l; lia).
  destruct Hstop as [Hs | [Hs | Hs]]; [lia| |].
  - assert (d * MaxInt32 <= d * h) by (apply Z.mul_le_mono_nonneg_l; lia). lia.
  - assert (d * MaxInt32 <= d * k) by (apply Z.mul_le_mono_nonneg_l; lia). lia.
Qed.

Lemma cf_good_exact : p mod d = 0 → h <= MaxInt32 → k <= MaxInt32 → cf_good P D (h, k).
Proof using Hinv.
  intros Hm0 Hh Hk. pose proof cf_step_values as (EP & ED & H0 & H1).
  pose proof cf_step_det as Hdet.
  rewrite Hm0, Z.mul_0_l, Z.add_0_r in EP, ED.
  split; [lia|]. split; [lia|]. split; [by apply (det_gcd _ _ h1 k1)|]. intros _.
  replace (P * k - D * h) with 0 by (rewrite EP, ED; lia).
  destruct Hinv as [_ _ _ [Hp0 Hd0] _ _ _]. clearbody h k a.
  assert (0 <= d * h) by (apply Z.mul_nonneg_nonneg; lia). simpl. lia.
Qed.

(** When the reduced fraction fits, no step stops on a bound: the values stay
    below the numerator and denominator divided by any common divisor. *)
Lemma cf_fits g n m :
  P = n * g → D = m * g → (g | d) → 0 < g → n <= MaxInt32 → m <= MaxInt32 →
  h <= MaxInt32 /\ k <= MaxInt32 /\ (p <= MaxInt32 * d).
Proof using Hinv.
  intros HP HD [c Hc] Hg Hn Hm. pose proof cf_quotient as (E & Hb & Ha & Ha1).
  pose proof cf_step_values as (EP & ED & H0 & H1).
  destruct Hinv as [Hnum Hden Hdet [Hp0 Hd0] [Hh1 Hk1] [Hh2 Hk2] Hprog].
  clearbody h k a.
  assert (0 < c) as Hc0 by (apply (Z.mul_pos_cancel_r _ g); lia).
  assert (0 <= p mod d * h1) by (apply Z.mul_nonneg_nonneg; lia).
  assert (0 <= p mod d * k1) by (apply Z.mul_nonneg_nonneg; lia).
  assert (c * h <= n) as Hch by (apply (Z.mul_le_mono_pos_r _ _ g); lia).
  assert (c * k <= m) as Hck by (apply (Z.mul_le_mono_pos_r _ _ g); lia).
  assert (1 * h <= c * h) by (apply Z.mul_le_mono_nonneg_r; lia).
  assert (1 * k <= c * k) by (apply Z.mul_le_mono_nonneg_r; lia).
  assert (1 * g <= c * g) by (apply Z.mul_le_mono_nonneg_r; lia).
  split; [lia|]. split; [lia|].
  destruct Hprog as [(-> & -> & -> & ->) | [Hk Hdp]].
  - assert (0 < m) by (apply (Z.mul_pos_cancel_r _ g); lia).
    assert (n * g <= MaxInt32 * g) by (apply Z.mul_le_mono_nonneg_r; lia).
    assert (1 * g <= m * g) by (apply Z.mul_le_mono_nonneg_r; lia).
    unfold MaxInt32 in *. lia.
  - assert (p * 1 <= p * k1) by (apply Z.mul_le_mono_nonneg_l; lia).
    assert (0 <= d * k2) by (apply Z.mul_nonneg_nonneg; lia).
    assert (m * g <= MaxInt32 * g) by (apply Z.mul_le_mono_nonneg_r; lia).
    unfold MaxInt32 in *. lia.
Qed.
End cf_step.

Lemma cf_pair_good fuel P D p d h1 k1 h2 k2 r :
  cf_inv P D p d h1 k1 h2 k2 → cf_pair fuel p d h1 k1 h2 k2 = Some r → cf_good P D r.
Proof.
  revert p d h1 k1 h2 k2. induction fuel as [|fuel IH]; intros p d h1 k1 h2 k2 Hinv; [done|].
  cbn [cf_pair]. cbv zeta.
  destruct (Z.ltb_spec (MaxInt32 * d) p) as [|H1].
  { intros [= <-]. eapply cf_good_stop; eauto. }
  destruct (Z.ltb_spec MaxInt32 (p / d * h1 + h2)) as [|H2]; cbn [orb].
  { intros [= <-]. eapply cf_good_stop; eauto. }
  destruct (Z.ltb_spec MaxInt32 (p / d * k1 + k2)) as [|H3].
  { intros [= <-]. eapply cf_good_stop; eauto. }
  destruct (Z.eqb_spec (p mod d) 0).
  - intros [= <-]. by apply (cf_good_exact P D p d h1 k1 h2 k2).
  - apply IH. by apply cf_inv_step.
Qed.

Lemma cf_pair_exact fuel P D p d h1 k1 h2 k2 r g n m :
  cf_inv P D p d h1 k1 h2 k2 → cf_pair fuel p d h1 k1 h2 k2 = Some r →
  P = n * g → D = m * g → (g | p) → (g | d) → 0 < g → n <= MaxInt32 → m <= MaxInt32 →
  P * r.2 = D * r.1 /\ 0 < r.2.
Proof.
  intros Hinv Hr HP HD. revert p d h1 k1 h2 k2 Hinv Hr.
  induction fuel as [|fuel IH]; intros p d h1 k1 h2 k2 Hinv Hr Hgp Hgd Hg Hn Hm; [done|].
  pose proof (cf_fits P D p d h1 k1 h2 k2 Hinv g n m HP HD Hgd Hg Hn Hm) as (F1 & F2 & F3).
  pose proof (cf_step_values P D p d h1 k1 h2 k2 Hinv) as (EP & ED & G1 & G2).
  cbn [cf_pair] in Hr. cbv zeta in Hr.
  rewrite !(proj2 (Z.ltb_ge _ _)) in Hr by done. cbn [orb] in Hr.
  destruct (Z.eqb_spec (p mod d) 0) as [E|E].
  - injection Hr as <-. cbn [fst snd]. rewrite E in EP, ED. split; [rewrite EP, ED at 1; lia|lia].
  - eapply (IH d (p mod d)); [by apply cf_inv_step|exact Hr|done| |done..].
    rewrite Z.mod_eq by (destruct Hinv; lia).
    apply Z.divide_sub_r; [done|]. by apply Z.divide_mul_l.
Qed.

(** ** Properties of parsing *)

Lemma SetString_reduced v q : SetString v = Some q → q = Qred q.
Proof.
  unfold SetString. intros Hs. repeat case_match; simplify_eq;
    symmetry; apply Qred_complete, Qred_correct.
Qed.

Lemma continuedFraction_pair v q :
  validAmountSimple v = true → SetString v = Some q →
  ∃ fuel r, cf_pair fuel (Qnum q) (Zpos (Qden q)) 1 0 0 1 = Some r /\
    continuedFraction v = if (r.1 =? 0) || (r.2 =? 0) then Fail ErrNoApproximation
                          else Ret (MkPrice (i32 (i64 r.1)) (i32 (i64 r.2))).
Proof.
  intros Hv Hs. pose proof (SetString_reduced v q Hs) as Hr.
  destruct (cf_loop_terminates q Hr) as [[n m] Hl].
  exists (cf_fuel q), (n, m). unfold continuedFraction. rewrite Hv, Hs, Hl. cbn [negb].
  split; [|done]. rewrite <- Hl, <- cf_loop_pair by lia. f_equal.
  unfold frac. rewrite Pos2Z.id. destruct q; done.
Qed.

Lemma i32_i64_small x : 0 <= x <= MaxInt32 → i32 (i64 x) = x.
Proof.
  intros H. unfold MaxInt32 in H. rewrite i64_small by (unfold is_i64; lia).
  apply i32_small. unfold is_i32. lia.
Qed.

(** for a well-formed positive number [q] the parser always answers; a
    price it returns is a reduced fraction of positive 32-bit integers within
    [max q 1 / (MaxInt32 * D)] of [q]. *)
Theorem Parse_approximates v q :
  validAmountSimple v = true → SetString v = Some q → (0 < q)%Q →
  match Parse v with
  | Ret p => 0 < N p <= MaxInt32 /\ 0 < D p <= MaxInt32 /\ Z.gcd (N p) (D p) = 1 /\
      Z.abs (Qnum q * D p - Zpos (Qden q) * N p) * MaxInt32 <= Z.max (Qnum q) (Zpos (Qden q))
  | Fail e => e = ErrNoApproximation
  | Panic => False
  end.
Proof.
  intros Hv Hs Hq. unfold Parse.
  destruct (continuedFraction_pair v q Hv Hs) as (fuel & [n m] & Hl & ->). cbn [fst snd].
  assert (0 < Qnum q) as Hn by (unfold Qlt in Hq; simpl in Hq; lia).
  pose proof (cf_pair_good _ _ _ _ _ _ _ _ _ _ (cf_inv_init _ (Zpos (Qden q)) Hn ltac:(lia)) Hl)
    as (Gn & Gm & Gg & Ge).
  destruct (Z.eqb_spec n 0); [done|]. destruct (Z.eqb_spec m 0); [done|]. cbn [orb N D].
  rewrite !i32_i64_small by done. split_and!; [lia..|done|]. by apply Ge.
Qed.

Theorem Parse_approximates_witness :
  match Parse (str "3.1415926535") with
  | Ret p => 0 < N p <= MaxInt32 /\ 0 < D p <= MaxInt32 /\ Z.gcd (N p) (D p) = 1 /\
      Z.abs (6283185307 * D p - 2000000000 * N p) * MaxInt32 <= Z.max 6283185307 2000000000
  | Fail e => e = ErrNoApproximation
  | Panic => False
  end.
Proof. apply (Parse_approximates (str "3.1415926535") (6283185307 # 2000000000)); by vm_compute. Defined.

(** a number whose reduced numerator and denominator both fit a 32-bit
    price parses to exactly that fraction. *)
Theorem Parse_representable v q :
  validAmountSimple v = true → SetString v = Some q → (0 < q)%Q →
  Qnum q <= MaxInt32 → Zpos (Qden q) <= MaxInt32 →
  Parse v = Ret (MkPrice (Qnum q) (Zpos (Qden q))).
Proof.
  intros Hv Hs Hq Hn Hd. unfold Parse.
  destruct (continuedFraction_pair v q Hv Hs) as (fuel & [n m] & Hl & ->). cbn [fst snd].
  assert (0 < Qnum q) as H0 by (unfold Qlt in Hq; simpl in Hq; lia).
  pose proof (cf_inv_init _ (Zpos (Qden q)) H0 ltac:(lia)) as Hi.
  pose proof (cf_pair_good _ _ _ _ _ _ _ _ _ _ Hi Hl) as (Gn & Gm & Gg & _).
  destruct (cf_pair_exact _ _ _ _ _ _ _ _ _ _ 1 (Qnum q) (Zpos (Qden q)) Hi Hl) as [E E0];
    [lia|lia|apply Z.divide_1_l|apply Z.divide_1_l|lia|done|done|]. cbn [fst snd] in E, E0.
  assert (q = n # Z.to_pos m) as ->.
  { rewrite (SetString_reduced v q Hs), <- (Qcanon.Qred_identity (n # Z.to_pos m)).
    - apply Qred_complete. unfold Qeq. simpl. rewrite Z2Pos.id by done. lia.
    - simpl. by rewrite Z2Pos.id. }
  cbn [Qnum Qden] in *. rewrite Z2Pos.id in * by done.
  rewrite !i32_i64_small by done.
  destruct (Z.eqb_spec n 0); [lia|]. by destruct (Z.eqb_spec m 0); [lia|].
Qed.

Theorem Parse_representable_witness :
  Parse (str "0.0000001") = Ret (MkPrice 1 10000000).
Proof.
  apply (Parse_representable (str "0.0000001") (1 # 10000000)); try by vm_compute.
Defined.

(** The convergent that is returned need not be the closest 32-bit fraction: a
    semiconvergent within the bounds may be closer. *)
Example Parse_not_best :
  Parse (str "1.00000000033") = Ret (MkPrice 1 1) /\
  SetString (str "1.00000000033") = Some (100000000033 # 100000000000) /\
  (Qabs ((100000000033 # 100000000000) - (2147483647 # 2147483646))
   < Qabs ((100000000033 # 100000000000) - 1))%Q.
Proof. by vm_compute. Qed.

(** A negative number beyond 32 bits is accepted and wraps around. *)
Example Parse_negative_wraps : Parse (str "-4294967297") = Ret (MkPrice (-1) 1).
Proof. by vm_compute. Qed.

(** ** Properties of comparison *)

Definition price_ok (p : Price) : Prop := 0 < N p <= MaxInt32 /\ 0 < D p <= MaxInt32.

Lemma Cheaper_cross p q : price_ok p → price_ok q → Cheaper p q = (N p * D q <? N q * D p).
Proof.
  unfold price_ok, MaxInt32, Cheaper. intros [Hp1 Hp2] [Hq1 Hq2].
  assert (0 <= N p * D q <= 2147483647 * 2147483647) by nia.
  assert (0 <= N q * D p <= 2147483647 * 2147483647) by nia.
  rewrite !(u64_small (N _)), !(u64_small (D _)), !u64_small by (unfold is_u64; lia). done.
Qed.

Lemma Equal_cross p q : price_ok p → price_ok q → Equal p q = (N p * D q =? N q * D p).
Proof.
  unfold price_ok, MaxInt32, Equal. intros [Hp1 Hp2] [Hq1 Hq2].
  assert (0 <= N p * D q <= 2147483647 * 2147483647) by nia.
  assert (0 <= N q * D p <= 2147483647 * 2147483647) by nia.
  rewrite !(u64_small (N _)), !(u64_small (D _)), !u64_small by (unfold is_u64; lia). done.
Qed.

Definition price_q (p : Price) : Q := N p # Z.to_pos (D p).

(** on 32-bit prices the 64-bit cross products of [Cheaper] and [Equal]
    never overflow: they decide the order and equality of the rationals. *)
Theorem Cheaper_Equal_rational p q :
  price_ok p → price_ok q →
  (Cheaper p q = true ↔ (price_q p < price_q q)%Q) /\
  (Equal p q = true ↔ (price_q p == price_q q)%Q).
Proof.
  intros Hp Hq. rewrite Cheaper_cross, Equal_cross by done. destruct Hp as [_ Hp], Hq as [_ Hq].
  unfold Qlt, Qeq, price_q. cbn [Qnum Qden]. rewrite !Z2Pos.id by lia.
  by rewrite Z.ltb_lt, Z.eqb_eq.
Qed.

Theorem Cheaper_Equal_rational_witness :
  (Cheaper (MkPrice 1 MaxInt32) (MkPrice MaxInt32 1) = true ↔
     (price_q (MkPrice 1 MaxInt32) < price_q (MkPrice MaxInt32 1))%Q) /\
  (Equal (MkPrice 1 MaxInt32) (MkPrice MaxInt32 1) = true ↔
     (price_q (MkPrice 1 MaxInt32) == price_q (MkPrice MaxInt32 1))%Q).
Proof. apply Cheaper_Equal_rational; unfold price_ok, MaxInt32; simpl; lia. Defined.

(** ** Properties of exchanges *)

(** for non-negative 64-bit operands the multiply-divide routines compute
    the rounded quotient of the full 128-bit product, report [ErrOverflow]
    exactly when it exceeds [MaxInt64], and [ErrDivisionByZero] for [d = 0]. *)
Theorem MulFraction_spec x n d :
  amount_ok x → amount_ok n → amount_ok d →
  MulFractionRoundDown x n d =
    (if d =? 0 then Fail ErrDivisionByZero else fits (mul_div_down x n d)) /\
  mulFractionRoundUp x n d =
    (if d =? 0 then Fail ErrDivisionByZero else fits (mul_div_up x n d)).
Proof.
  intros Hx Hn Hd. destruct (Z.eqb_spec d 0) as [->|Hd0]; [done|].
  unfold amount_ok in Hd.
  split; [apply MulFractionRoundDown_fits|apply mulFractionRoundUp_fits]; unfold amount_ok in *; lia.
Qed.

Theorem MulFraction_spec_witness :
  MulFractionRoundDown MaxInt64 MaxInt64 MaxInt64 =
    (if MaxInt64 =? 0 then Fail ErrDivisionByZero else fits (mul_div_down MaxInt64 MaxInt64 MaxInt64)) /\
  mulFractionRoundUp MaxInt64 MaxInt64 MaxInt64 =
    (if MaxInt64 =? 0 then Fail ErrDivisionByZero else fits (mul_div_up MaxInt64 MaxInt64 MaxInt64)).
Proof. apply MulFraction_spec; unfold amount_ok, MaxInt64; lia. Defined.

Lemma mul_div_up_bounds x n d : 0 < d → x * n <= mul_div_up x n d * d < x * n + d.
Proof. intros Hd. unfold mul_div_up. pose proof (Z.div_mod (x * n + d - 1) d ltac:(lia)).
  pose proof (Z.mod_pos_bound (x * n + d - 1) d Hd). lia. Qed.

Lemma mul_div_down_bounds x n d : 0 < d → mul_div_down x n d * d <= x * n < mul_div_down x n d * d + d.
Proof. intros Hd. unfold mul_div_down. pose proof (Z.div_mod (x * n) d ltac:(lia)).
  pose proof (Z.mod_pos_bound (x * n) d Hd). lia. Qed.

Lemma fits_inv q r : fits q = Ret r → r = q /\ q <= MaxInt64.
Proof. unfold fits. destruct (Z.leb_spec q MaxInt64); [|done]. by intros [= <-]. Qed.

(** Rounding an offer down and back up never exceeds it and pays for as much. *)
Lemma round_offer a n d :
  0 <= a → 0 < n → 0 < d →
  let f := mul_div_down a n d in let b := mul_div_up f d n in
  0 <= b <= a /\ mul_div_down b n d = f.
Proof.
  intros Ha Hn Hd f b. pose proof (mul_div_down_bounds a n d Hd) as Hf. fold f in Hf.
  pose proof (mul_div_up_bounds f d n Hn) as Hb. fold b in Hb.
  assert (0 <= f) by (apply Z.div_pos; nia).
  assert (0 <= b) by (apply Z.div_pos; nia).
  assert (b <= a) by nia. split; [done|].
  pose proof (mul_div_down_bounds b n d Hd). nia.
Qed.

Lemma ConvertToBuyingUnits_bounds amount needed n d :
  amount_ok amount → amount_ok needed → 0 < n <= MaxInt64 → 0 < d <= MaxInt64 →
  match ConvertToBuyingUnits amount needed n d with
  | Ret (buy, sold) =>
      0 <= sold <= Z.min amount needed /\
      sold * n <= buy * d < sold * n + d /\ amount_ok buy /\
      (sold < needed → mul_div_down sold n d = mul_div_down amount n d)
  | Fail e => e = ErrOverflow
  | Panic => False
  end.
Proof.
  intros Ha Hs Hn Hd. unfold ConvertToBuyingUnits. outcome_simpl.
  assert (∀ r, 0 <= r <= amount → mul_div_down r n d = mul_div_down amount n d →
    match outcome_bind (λ result, Ret (result, min r needed)) (mulFractionRoundUp (min r needed) n d) with
    | Ret (buy, sold) => 0 <= sold <= Z.min amount needed /\
        sold * n <= buy * d < sold * n + d /\ amount_ok buy /\
        (sold < needed → mul_div_down sold n d = mul_div_down amount n d)
    | Fail e => e = ErrOverflow
    | Panic => False
    end) as Hlast.
  { intros r Hr Hv. unfold amount_ok in *.
    assert (0 <= min r needed <= r /\ min r needed <= needed /\ (min r needed < needed → min r needed = r))
      as (Hm & Hm' & Hm'') by (unfold min; destruct (Z.leb_spec r needed); lia).
    rewrite mulFractionRoundUp_fits by (unfold amount_ok; lia).
    destruct (fits (mul_div_up (min r needed) n d)) as [buy|e|] eqn:E; cbn [outcome_bind].
    - apply fits_inv in E as [-> Hb].
      pose proof (mul_div_up_bounds (min r needed) n d ltac:(lia)).
      assert (0 <= mul_div_up (min r needed) n d) by (apply Z.div_pos; nia).
      split_and!; try lia. intros Hlt. by rewrite (Hm'' Hlt).
    - unfold fits in E. destruct (_ <=? MaxInt64); congruence.
    - unfold fits in E. by destruct (_ <=? MaxInt64). }
  destruct (Z.leb_spec n d) as [Hnd|Hnd]; cbn [outcome_bind].
  2:{ apply Hlast; [unfold amount_ok in Ha; lia|done]. }
  rewrite MulFractionRoundDown_fits by (unfold amount_ok in *; lia).
  destruct (round_offer amount n d ltac:(unfold amount_ok in Ha; lia) ltac:(lia) ltac:(lia)) as [Hb Hf].
  assert (0 <= mul_div_down amount n d <= amount) as Hf0.
  { unfold amount_ok in *. pose proof (mul_div_down_bounds amount n d ltac:(lia)).
    split; [apply Z.div_pos; nia|nia]. }
  unfold fits at 1. unfold amount_ok in Ha.
  rewrite (proj2 (Z.leb_le _ _)) by lia. cbn [outcome_bind].
  rewrite mulFractionRoundUp_fits by (unfold amount_ok; lia).
  unfold fits. rewrite (proj2 (Z.leb_le _ _)) by lia. cbn [outcome_bind]. by apply Hlast.
Qed.

(** an exchange takes at most what the offer holds and what is needed, pays
    the rounded-up price of what it takes, and, when it takes less than needed,
    leaves nothing of the offer's value behind; the only error is an overflow. *)
Theorem ConvertToBuyingUnits_spec amount needed n d :
  amount_ok amount → amount_ok needed → 0 < n <= MaxInt64 → 0 < d <= MaxInt64 →
  match ConvertToBuyingUnits amount needed n d with
  | Ret (buy, sold) =>
      0 <= sold <= Z.min amount needed /\
      sold * n <= buy * d < sold * n + d /\ amount_ok buy /\
      (sold < needed → mul_div_down sold n d = mul_div_down amount n d)
  | Fail e => e = ErrOverflow
  | Panic => False
  end.
Proof. apply ConvertToBuyingUnits_bounds. Qed.

Theorem ConvertToBuyingUnits_spec_witness :
  match ConvertToBuyingUnits 97 100 3 7 with
  | Ret (buy, sold) =>
      0 <= sold <= Z.min 97 100 /\
      sold * 3 <= buy * 7 < sold * 3 + 7 /\ amount_ok buy /\
      (sold < 100 → mul_div_down sold 3 7 = mul_div_down 97 3 7)
  | Fail e => e = ErrOverflow
  | Panic => False
  end.
Proof. apply ConvertToBuyingUnits_spec; unfold amount_ok, MaxInt64; lia. Defined.

Example ConvertToBuyingUnits_rounds : ConvertToBuyingUnits 97 100 3 7 = Ret (42, 96).
Proof. by vm_compute. Qed.

(** ** The order of valid prices *)

Lemma Cheaper_irrefl p : price_ok p → Cheaper p p = false.
Proof. intros Hp. rewrite Cheaper_cross by done. apply Z.ltb_irrefl. Qed.

(** [Cheaper] is a strict weak order: its negation is transitive. *)
Lemma not_Cheaper_trans p q r :
  price_ok p → price_ok q → price_ok r →
  Cheaper p q = false → Cheaper q r = false → Cheaper p r = false.
Proof.
  intros Hp Hq Hr. rewrite !Cheaper_cross, !Z.ltb_ge by done.
  destruct Hp as [Hp1 Hp2], Hq as [Hq1 Hq2], Hr as [Hr1 Hr2]. intros H1 H2.
  apply (Z.mul_le_mono_pos_r _ _ (D q)); [lia|].
  assert (N r * D q * D p <= N q * D r * D p) by (apply Z.mul_le_mono_nonneg_r; lia).
  assert (N q * D p * D r <= N p * D q * D r) by (apply Z.mul_le_mono_nonneg_r; lia). lia.
Qed.

Lemma Cheaper_asym p q : price_ok p → price_ok q → Cheaper p q = true → Cheaper q p = false.
Proof. intros Hp Hq. rewrite !Cheaper_cross, Z.ltb_lt, Z.ltb_ge by done. lia. Qed.

Lemma Equal_Cheaper p q :
  price_ok p → price_ok q → Equal p q = negb (Cheaper p q) && negb (Cheaper q p).
Proof.
  intros Hp Hq. rewrite Equal_cross, !Cheaper_cross by done.
  destruct (Z.eqb_spec (N p * D q) (N q * D p)), (Z.ltb_spec (N p * D q) (N q * D p)),
    (Z.ltb_spec (N q * D p) (N p * D q)); simpl; lia.
Qed.
