(* ===== verification/FloatText.v ===== *)
(** * The text of a quotient of two integers, as a float

    What [src/txnbuild/price.go] uses of Go's floating point: the quotient of two
    [int]s that are 32-bit numbers, rounded to a [float64], and its text under
    [strconv.FormatFloat(v, 'f', -1, 32)], the shortest decimal that rounds to
    the same [float32].  The quotients are far from the ends of the ranges of
    exponents, so that no float is subnormal or overflows. *)

From S2P Require Import Prelude Decimal.

(** The nearest integer of a positive quotient, ties to even. *)
Definition round_half_even (num den : Z) : Z :=
  let q := num / den in
  let r := 2 * (num mod den) in
  if r <? den then q else if den <? r then q + 1 else if Z.even q then q else q + 1.

(** [num / den] as [m * 2 ^ e], where [m] has [p] bits. *)
Definition round_bits (p num den : Z) : Z * Z :=
  let k := Z.log2 num - Z.log2 den in
  let k := if num * 2 ^ Z.max 0 (- k) <? den * 2 ^ Z.max 0 k then k - 1 else k in
  let e := k - (p - 1) in
  let m := round_half_even (num * 2 ^ Z.max 0 (- e)) (den * 2 ^ Z.max 0 e) in
  if m =? 2 ^ p then (2 ^ (p - 1), e + 1) else (m, e).

Definition float64_quotient (num den : Z) : Z * Z := round_bits 53 num den.
Definition float32_of (v : Z * Z) : Z * Z :=
  let '(m, e) := v in round_bits 24 (m * 2 ^ Z.max 0 e) (2 ^ Z.max 0 (- e)).

(** The digits of the shortest decimal between the halfway points to the next
    floats below and above; both points belong to a float with an even mantissa.
    The result is an integer and the number of its decimals. *)
Fixpoint shortest_loop (fuel : nat) (m e j : Z) : Z * Z :=
  let scale x := x * 2 ^ Z.max 0 (e - 2) * 10 ^ Z.max 0 j in
  let den := 2 ^ Z.max 0 (2 - e) * 10 ^ Z.max 0 (- j) in
  let v := scale (4 * m) in
  let lower := scale (if m =? 2 ^ 23 then 4 * m - 1 else 4 * m - 2) in
  let upper := scale (4 * m + 2) in
  let down := v / den in
  let okdown := (lower <? down * den) || Z.even m && (lower =? down * den) in
  let okup := ((down + 1) * den <? upper) || Z.even m && ((down + 1) * den =? upper) in
  if v mod den =? 0 then (down, j)
  else if okdown && okup then (round_half_even v den, j)
  else if okdown then (down, j)
  else if okup then (down + 1, j)
  else match fuel with O => (down, j) | S fuel => shortest_loop fuel m e (j + 1) end.

(** The quotient is below [2 ^ 32], and nine significant digits tell any two
    [float32]s apart, the first of them at most ten places after the point. *)
Definition first_place : Z := -10.
Definition places_fuel : nat := 32.

Definition format_positive (num den : Z) : gostring :=
  let '(m, e) := float32_of (float64_quotient num den) in
  let '(t, j) := shortest_loop places_fuel m e first_place in
  if j <=? 0 then utoa (t * 10 ^ (- j))
  else utoa (t / 10 ^ j) ++ 46 :: Decimal.pad (Z.to_nat j) (t mod 10 ^ j).

(** [strconv.FormatFloat(float64(n) / float64(d), 'f', -1, 32)] *)
Definition FormatQuotient (n d : Z) : gostring :=
  if d =? 0 then
    if n =? 0 then str "NaN" else if n <? 0 then str "-Inf" else str "+Inf"
  else
    let neg := xorb (n <? 0) (d <? 0) in
    sign_of neg ++ (if n =? 0 then str "0" else format_positive (Z.abs n) (Z.abs d)).

Example format_half : FormatQuotient 1 2 = str "0.5".
Proof. reflexivity. Qed.
Example format_third : FormatQuotient 1 3 = str "0.33333334".
Proof. vm_compute. reflexivity. Qed.
Example format_largest : FormatQuotient 2147483647 1 = str "2147483600".
Proof. vm_compute. reflexivity. Qed.
Example format_smallest : FormatQuotient 1 2147483647 = str "0.0000000004656613".
Proof. vm_compute. reflexivity. Qed.
Example format_signs : (FormatQuotient (-7) 2, FormatQuotient 0 (-1), FormatQuotient 1 0) = (str "-3.5", str "-0", str "+Inf").
Proof. vm_compute. reflexivity. Qed.
