(* ===== verification/Xdr.v ===== *)
(** * xdr: accounts, assets, signer and ledger keys

    Models the hand-written helpers of [src/xdr/]: [account_id.go], [asset.go],
    [signer_key.go], [ledger_key.go] and [claimable_balance_id.go].  An XDR
    union, a struct with a type field and one pointer per arm, is an inductive
    type: the values its decoder and constructors build.  Unions with an unknown
    type field, on which these functions panic or return an error, have no
    counterpart.  Fixed-size byte arrays are lists whose length the [wf]
    predicates state. *)

From S2P Require Import Prelude Crc16 Strkey.

Inductive xdr_error :=
  | ErrStrkey (e : strkey_error)
  | ErrInvalidAddress
  | ErrInvalidVersion (vb : Z)
  | ErrAssetCodeLength
  | ErrInvalidAssetType
  | ErrInvalidAsset (s : gostring).

(** ** Accounts *)

(** A public key of type Ed25519, its 32 bytes. *)
Record AccountId := MkAccountId { Ed25519 : list Z }.

#[export] Instance AccountId_eq_dec : EqDecision AccountId.
Proof. solve_decision. Defined.
#[export] Instance AccountId_countable : Countable AccountId.
Proof. by apply (inj_countable' Ed25519 MkAccountId); intros []. Defined.

Definition wf_bytes (n : nat) (l : list Z) : Prop := length l = n ∧ Forall is_u8 l.
Definition wf_account (a : AccountId) : Prop := wf_bytes 32 (Ed25519 a).

Definition AccountId_GetAddress (aid : option AccountId) : outcome xdr_error gostring :=
  match aid with
  | None => Ret []
  | Some aid => map_fail ErrStrkey (Encode VersionByteAccountID (Ed25519 aid))
  end.
Definition AccountId_Address (aid : option AccountId) : outcome xdr_error gostring :=
  must (AccountId_GetAddress aid).

Definition AccountId_Equals (aid other : AccountId) : bool :=
  bool_decide (Ed25519 aid = Ed25519 other).

Definition AccountId_SetAddress (address : gostring) : outcome xdr_error AccountId :=
  raw ← map_fail ErrStrkey (Decode VersionByteAccountID address);
  if negb (length raw =? 32)%nat then Fail ErrInvalidAddress else Ret (MkAccountId raw).
Definition AddressToAccountId (address : gostring) : outcome xdr_error AccountId :=
  AccountId_SetAddress address.
Definition MustAddress (address : gostring) : outcome xdr_error AccountId :=
  must (AccountId_SetAddress address).

(** The type byte [PublicKeyTypeEd25519] and the key. *)
Definition AccountId_MarshalBinaryCompress (aid : AccountId) : list Z := 0 :: Ed25519 aid.
(** The generated marshaller writes the union's type in four bytes. *)
Definition AccountId_MarshalBinary (aid : AccountId) : list Z := [0; 0; 0; 0] ++ Ed25519 aid.

(** ** Signer keys *)

Inductive SignerKey :=
  | SignerKeyTypeEd25519 (key : list Z)
  | SignerKeyTypePreAuthTx (key : list Z)
  | SignerKeyTypeHashX (key : list Z).

#[export] Instance SignerKey_eq_dec : EqDecision SignerKey.
Proof. solve_decision. Defined.

Definition signer_bytes (skey : SignerKey) : list Z :=
  match skey with
  | SignerKeyTypeEd25519 k | SignerKeyTypePreAuthTx k | SignerKeyTypeHashX k => k
  end.
Definition wf_signer (skey : SignerKey) : Prop := wf_bytes 32 (signer_bytes skey).

Definition SignerKey_GetAddress (skey : option SignerKey) : outcome xdr_error gostring :=
  match skey with
  | None => Ret []
  | Some (SignerKeyTypeEd25519 key) => map_fail ErrStrkey (Encode VersionByteAccountID key)
  | Some (SignerKeyTypeHashX key) => map_fail ErrStrkey (Encode VersionByteHashX key)
  | Some (SignerKeyTypePreAuthTx key) => map_fail ErrStrkey (Encode VersionByteHashTx key)
  end.
Definition SignerKey_Address (skey : option SignerKey) : outcome xdr_error gostring :=
  must (SignerKey_GetAddress skey).

Definition SignerKey_Equals (skey other : SignerKey) : bool :=
  match skey, other with
  | SignerKeyTypeEd25519 l, SignerKeyTypeEd25519 r
  | SignerKeyTypeHashX l, SignerKeyTypeHashX r
  | SignerKeyTypePreAuthTx l, SignerKeyTypePreAuthTx r => bool_decide (l = r)
  | _, _ => false
  end.

Definition SignerKey_SetAddress (address : gostring) : outcome xdr_error SignerKey :=
  vb ← map_fail ErrStrkey (Version address);
  keytype ←
    (if vb =? VersionByteAccountID then Ret SignerKeyTypeEd25519
     else if vb =? VersionByteHashX then Ret SignerKeyTypeHashX
     else if vb =? VersionByteHashTx then Ret SignerKeyTypePreAuthTx
     else Fail (ErrInvalidVersion vb));
  raw ← map_fail ErrStrkey (Decode vb address);
  if negb (length raw =? 32)%nat then Fail ErrInvalidAddress else Ret (keytype raw).
Definition MustSigner (address : gostring) : outcome xdr_error SignerKey :=
  must (SignerKey_SetAddress address).

(** ** Assets *)

Inductive Asset :=
  | AssetTypeNative
  | AssetTypeCreditAlphanum4 (AssetCode : list Z) (Issuer : AccountId)
  | AssetTypeCreditAlphanum12 (AssetCode : list Z) (Issuer : AccountId).

#[export] Instance Asset_eq_dec : EqDecision Asset.
Proof. solve_decision. Defined.

Definition wf_asset (a : Asset) : Prop :=
  match a with
  | AssetTypeNative => True
  | AssetTypeCreditAlphanum4 code issuer => wf_bytes 4 code ∧ wf_account issuer
  | AssetTypeCreditAlphanum12 code issuer => wf_bytes 12 code ∧ wf_account issuer
  end.

Definition AssetTypeToString (a : Asset) : gostring :=
  match a with
  | AssetTypeNative => str "native"
  | AssetTypeCreditAlphanum4 _ _ => str "credit_alphanum4"
  | AssetTypeCreditAlphanum12 _ _ => str "credit_alphanum12"
  end.

(** [Extract] into three strings; a native asset leaves the code and the issuer
    as they are, empty in every caller. *)
Definition Extract (a : Asset) : outcome xdr_error (gostring * gostring * gostring) :=
  match a with
  | AssetTypeNative => Ret (AssetTypeToString a, [], [])
  | AssetTypeCreditAlphanum4 code issuer | AssetTypeCreditAlphanum12 code issuer =>
      i ← must (Encode VersionByteAccountID (Ed25519 issuer));
      Ret (AssetTypeToString a, trim_right code, i)
  end.

(** The same with the type as a value of [AssetType]. *)
Definition AssetType (a : Asset) : Z :=
  match a with AssetTypeNative => 0 | AssetTypeCreditAlphanum4 _ _ => 1 | AssetTypeCreditAlphanum12 _ _ => 2 end.
Definition ExtractType (a : Asset) : outcome xdr_error (Z * gostring * gostring) :=
  '(_, c, i) ← Extract a; Ret (AssetType a, c, i).

Definition Asset_String (a : Asset) : outcome xdr_error gostring :=
  '(t, c, i) ← must (Extract a);
  match a with
  | AssetTypeNative => Ret t
  | _ => Ret (t ++ str "/" ++ c ++ str "/" ++ i)
  end.

Definition StringCanonical (a : Asset) : outcome xdr_error gostring :=
  '(t, c, i) ← must (Extract a);
  match a with
  | AssetTypeNative => Ret t
  | _ => Ret (c ++ str ":" ++ i)
  end.

Definition Asset_Equals (a other : Asset) : bool :=
  match a, other with
  | AssetTypeNative, AssetTypeNative => true
  | AssetTypeCreditAlphanum4 l li, AssetTypeCreditAlphanum4 r ri
  | AssetTypeCreditAlphanum12 l li, AssetTypeCreditAlphanum12 r ri =>
      bool_decide (l = r) && AccountId_Equals li ri
  | _, _ => false
  end.

Definition SetCredit (code : gostring) (issuer : AccountId) : outcome xdr_error Asset :=
  let n := length code in
  if (1 <=? n)%nat && (n <=? 4)%nat then Ret (AssetTypeCreditAlphanum4 (copy_pad 4 code) issuer)
  else if (5 <=? n)%nat && (n <=? 12)%nat then Ret (AssetTypeCreditAlphanum12 (copy_pad 12 code) issuer)
  else Fail ErrAssetCodeLength.

Definition NewCreditAsset (code issuer : gostring) : outcome xdr_error Asset :=
  accountID ← AccountId_SetAddress issuer;
  SetCredit code accountID.
Definition MustNewCreditAsset (code issuer : gostring) : outcome xdr_error Asset :=
  must (NewCreditAsset code issuer).

Definition BuildAsset (assetType issuer code : gostring) : outcome xdr_error Asset :=
  if bool_decide (assetType = str "native") then Ret AssetTypeNative
  else if bool_decide (assetType = str "credit_alphanum4")
          || bool_decide (assetType = str "credit_alphanum12") then
    issuerAccountID ← AccountId_SetAddress issuer;
    SetCredit code issuerAccountID
  else Fail ErrInvalidAssetType.

(** [ValidAssetCode]: [^[[:alnum:]]{1,12}$] *)
Definition is_alnum (c : Z) : bool :=
  ((48 <=? c) && (c <=? 57)) || ((65 <=? c) && (c <=? 90)) || ((97 <=? c) && (c <=? 122)).
Definition ValidAssetCode (code : gostring) : bool :=
  (1 <=? length code)%nat && (length code <=? 12)%nat && forallb is_alnum code.

(** [strings.ToLower(s) == "native"].  Lower-casing maps each code point to one
    code point, and only the two letters of either case and U+0130 (the bytes
    c4 b0), which becomes an [i], yield a letter of the word. *)
Fixpoint toLower (s : gostring) : gostring :=
  match s with
  | [] => []
  | 0xc4 :: 0xb0 :: s' => 105 :: toLower s'
  | c :: s' => (if (65 <=? c) && (c <=? 90) then c + 32 else c) :: toLower s'
  end.

Definition buildAssetString (assetString : gostring) : outcome xdr_error Asset :=
  if bool_decide (toLower assetString = str "native") then Ret AssetTypeNative else
  match split 58 assetString with
  | [code; addr] =>
      if negb (ValidAssetCode code) then Fail (ErrInvalidAsset assetString) else
      issuer ← map_fail (λ _, ErrInvalidAsset assetString) (AddressToAccountId addr);
      map_fail (λ _, ErrInvalidAsset assetString) (SetCredit code issuer)
  | _ => Fail (ErrInvalidAsset assetString)
  end.

Definition BuildAssets (s : gostring) : outcome xdr_error (list Asset) :=
  if bool_decide (s = []) then Ret [] else
  mfold (λ assets assetString,
           asset ← buildAssetString assetString; Ret (assets ++ [asset])) [] (split 44 s).

Definition Asset_MarshalBinaryCompress (a : Asset) : list Z :=
  match a with
  | AssetTypeNative => [0]
  | AssetTypeCreditAlphanum4 code issuer => [1] ++ trim_right code ++ AccountId_MarshalBinary issuer
  | AssetTypeCreditAlphanum12 code issuer => [2] ++ trim_right code ++ AccountId_MarshalBinary issuer
  end.

(** [AllowTrustOpAsset]: an asset without its issuer *)
Inductive AllowTrustOpAsset :=
  | AllowTrustCode4 (AssetCode4 : list Z)
  | AllowTrustCode12 (AssetCode12 : list Z).

#[export] Instance AllowTrustOpAsset_eq_dec : EqDecision AllowTrustOpAsset.
Proof. solve_decision. Defined.

Definition NewAllowTrustAsset (code : gostring) : outcome xdr_error AllowTrustOpAsset :=
  let n := length code in
  if (1 <=? n)%nat && (n <=? 4)%nat then Ret (AllowTrustCode4 (copy_pad 4 code))
  else if (5 <=? n)%nat && (n <=? 12)%nat then Ret (AllowTrustCode12 (copy_pad 12 code))
  else Fail ErrAssetCodeLength.
(** The method on [Asset] does not read its receiver. *)
Definition ToAllowTrustOpAsset (code : gostring) : outcome xdr_error AllowTrustOpAsset :=
  NewAllowTrustAsset code.
Definition ToAsset (a : AllowTrustOpAsset) (issuer : AccountId) : Asset :=
  match a with
  | AllowTrustCode4 code => AssetTypeCreditAlphanum4 code issuer
  | AllowTrustCode12 code => AssetTypeCreditAlphanum12 code issuer
  end.

(** ** Ledger keys *)

(** [ClaimableBalanceId] of type V0: a 32-byte hash. *)
Record ClaimableBalanceId := MkClaimableBalanceId { V0 : list Z }.
#[export] Instance ClaimableBalanceId_eq_dec : EqDecision ClaimableBalanceId.
Proof. solve_decision. Defined.

Inductive LedgerKey :=
  | LedgerEntryTypeAccount (accountId : AccountId)
  | LedgerEntryTypeTrustline (accountId : AccountId) (asset : Asset)
  | LedgerEntryTypeOffer (sellerId : AccountId) (offerId : Z)
  | LedgerEntryTypeData (accountId : AccountId) (dataName : gostring)
  | LedgerEntryTypeClaimableBalance (balanceId : ClaimableBalanceId).

#[export] Instance LedgerKey_eq_dec : EqDecision LedgerKey.
Proof. solve_decision. Defined.

(** No claimable balance case: two such keys reach the panic of the default. *)
Definition LedgerKey_Equals (key other : LedgerKey) : outcome xdr_error bool :=
  match key, other with
  | LedgerEntryTypeAccount l, LedgerEntryTypeAccount r => Ret (AccountId_Equals l r)
  | LedgerEntryTypeData l ln, LedgerEntryTypeData r rn =>
      Ret (AccountId_Equals l r && bool_decide (ln = rn))
  | LedgerEntryTypeOffer l li, LedgerEntryTypeOffer r ri => Ret (AccountId_Equals l r && (li =? ri))
  | LedgerEntryTypeTrustline l la, LedgerEntryTypeTrustline r ra =>
      Ret (AccountId_Equals l r && Asset_Equals la ra)
  | LedgerEntryTypeClaimableBalance _, LedgerEntryTypeClaimableBalance _ => Panic
  | _, _ => Ret false
  end.

(** Big-endian bytes of an [Int64]. *)
Definition be64 (x : Z) : list Z :=
  (λ i : nat, u8 (Z.shiftr (u64 x) (8 * (7 - Z.of_nat i)))) <$> seq 0 8.

Definition ClaimableBalanceId_MarshalBinaryCompress (cb : ClaimableBalanceId) : list Z := 0 :: V0 cb.

Definition LedgerKey_MarshalBinaryCompress (key : LedgerKey) : list Z :=
  match key with
  | LedgerEntryTypeAccount a => 0 :: AccountId_MarshalBinaryCompress a
  | LedgerEntryTypeTrustline a asset =>
      1 :: AccountId_MarshalBinaryCompress a ++ Asset_MarshalBinaryCompress asset
  | LedgerEntryTypeOffer s i => 2 :: AccountId_MarshalBinaryCompress s ++ be64 i
  | LedgerEntryTypeData a name => 3 :: AccountId_MarshalBinaryCompress a ++ trim_right name
  | LedgerEntryTypeClaimableBalance b => 4 :: ClaimableBalanceId_MarshalBinaryCompress b
  end.

Definition wf_key (key : LedgerKey) : Prop :=
  match key with
  | LedgerEntryTypeAccount a => wf_account a
  | LedgerEntryTypeTrustline a asset => wf_account a ∧ wf_asset asset
  | LedgerEntryTypeOffer s i => wf_account s ∧ is_i64 i
  | LedgerEntryTypeData a name => wf_account a ∧ Forall is_u8 name
  | LedgerEntryTypeClaimableBalance b => wf_bytes 32 (V0 b)
  end.

(** ** Addresses *)

Lemma valid_version_account : valid_version VersionByteAccountID.
Proof. by left. Qed.

(** The address of an account, which [Address] always returns. *)
Definition address (aid : AccountId) : gostring :=
  Base32.EncodeToString (VersionByteAccountID :: Ed25519 aid ++ Checksum (VersionByteAccountID :: Ed25519 aid)).

Lemma Encode_address aid : Encode VersionByteAccountID (Ed25519 aid) = Ret (address aid).
Proof. by apply Encode_valid, valid_version_account. Qed.

Lemma Address_total aid : AccountId_Address (Some aid) = Ret (address aid).
Proof. unfold AccountId_Address, AccountId_GetAddress. by rewrite Encode_address. Qed.

Lemma address_length aid : length (Ed25519 aid) = 32%nat → length (address aid) = 56%nat.
Proof.
  intros Hl. pose proof (Encode_length _ _ _ valid_version_account (Encode_address aid)) as H.
  rewrite Hl in H. change ((Z.of_nat 32 * 8 + 28) / 5) with 56 in H. lia.
Qed.

Lemma address_inj a b : wf_account a → wf_account b → address a = address b → a = b.
Proof.
  intros [_ Ha] [_ Hb] H. destruct a as [a], b as [b]. simpl in *. f_equal.
  eapply (Encode_inj VersionByteAccountID); [apply valid_version_account|done|done| |].
  - apply (Encode_address (MkAccountId a)).
  - rewrite H. apply (Encode_address (MkAccountId b)).
Qed.

Lemma SetAddress_address aid : wf_account aid → AccountId_SetAddress (address aid) = Ret aid.
Proof.
  intros [Hl Hu]. unfold AccountId_SetAddress.
  destruct (Encode_readable _ _ _ valid_version_account Hu (Encode_address aid)) as (_ & -> & _).
  outcome_simpl. cbn [map_fail outcome_bind]. rewrite Hl. by destruct aid.
Qed.

(** Base32 text is alphanumeric. *)
Lemma address_alnum aid : wf_account aid → Forall (λ c, is_alnum c = true) (address aid).
Proof.
  intros [_ Hu]. unfold address, Base32.EncodeToString. apply Forall_fmap.
  assert (Forall is_u8 (VersionByteAccountID :: Ed25519 aid ++ Checksum (VersionByteAccountID :: Ed25519 aid))) as Hr.
  { constructor; [by apply valid_version_u8, valid_version_account|].
    apply Forall_app. split; [done|apply Checksum_bytes]. }
  eapply Forall_impl; [by apply encode_values_u5|]. intros v Hv. simpl. revert v Hv.
  by apply values32_all.
Qed.

Lemma alnum_plain sep l :
  is_alnum sep = false → Forall (λ c, is_alnum c = true) l → Forall (λ c, c ≠ sep) l.
Proof. intros Hs Hl. eapply Forall_impl; [done|]. intros x Hx ->. simpl in Hx. congruence. Qed.

(** ** Signer keys *)

Definition signer_version (skey : SignerKey) : Z :=
  match skey with
  | SignerKeyTypeEd25519 _ => VersionByteAccountID
  | SignerKeyTypePreAuthTx _ => VersionByteHashTx
  | SignerKeyTypeHashX _ => VersionByteHashX
  end.

Lemma signer_version_valid skey : valid_version (signer_version skey).
Proof. unfold valid_version. destruct skey; simpl; tauto. Qed.

Lemma signer_address skey :
  SignerKey_Address (Some skey) = must (Encode (signer_version skey) (signer_bytes skey)).
Proof.
  unfold SignerKey_Address, SignerKey_GetAddress.
  destruct skey; cbn [signer_version signer_bytes]; by destruct (Encode _ _).
Qed.

Lemma signer_SetAddress_intro s skey :
  Version s = Ret (signer_version skey) → Decode (signer_version skey) s = Ret (signer_bytes skey) →
  length (signer_bytes skey) = 32%nat → SignerKey_SetAddress s = Ret skey.
Proof.
  intros Hv Hd Hl. unfold SignerKey_SetAddress. rewrite Hv. outcome_simpl. cbn [map_fail outcome_bind].
  destruct skey as [k|k|k]; cbn [signer_version signer_bytes] in *;
    (destruct (_ =? VersionByteAccountID) eqn:E1; [|destruct (_ =? VersionByteHashX) eqn:E2]);
    try done; cbn [outcome_bind]; rewrite ?Hd; cbn [map_fail outcome_bind]; rewrite Hl; done.
Qed.

Lemma signer_SetAddress_inv s skey :
  SignerKey_SetAddress s = Ret skey → Decode (signer_version skey) s = Ret (signer_bytes skey).
Proof.
  unfold SignerKey_SetAddress. outcome_simpl.
  destruct (Version s) as [vb| |]; [|done..]. cbn [map_fail outcome_bind].
  destruct (Z.eqb_spec vb VersionByteAccountID) as [->|];
    [|destruct (Z.eqb_spec vb VersionByteHashX) as [->|];
      [|destruct (Z.eqb_spec vb VersionByteHashTx) as [->|]; [|done]]];
    cbn [outcome_bind];
    (match goal with |- context [Decode ?v s] => destruct (Decode v s) as [raw| |] eqn:E end; [|done..]);
    cbn [map_fail outcome_bind]; destruct (length raw =? 32)%nat; try done;
    intros [= <-]; exact E.
Qed.

(** reading the printed form of a signer key gives the key back, and a
    string without newline or 0xff bytes that reads as the key is its printed
    form. *)
Theorem SignerKey_roundtrip skey :
  wf_signer skey →
  ∃ s, SignerKey_Address (Some skey) = Ret s ∧ SignerKey_SetAddress s = Ret skey ∧
       (∀ s', plain s' → SignerKey_SetAddress s' = Ret skey → s' = s).
Proof.
  intros [Hl Hu]. pose proof (signer_version_valid skey) as Hv.
  pose proof (Encode_valid _ (signer_bytes skey) Hv) as He.
  destruct (Encode_readable _ _ _ Hv Hu He) as (_ & Hd & _ & Hver).
  eexists. rewrite signer_address, He. split; [done|]. split; [by apply signer_SetAddress_intro|].
  intros s' Hp H. apply signer_SetAddress_inv, (Decode_Encode _ _ _ Hp) in H. congruence.
Qed.

Theorem SignerKey_roundtrip_witness :
  ∃ s, SignerKey_Address (Some (SignerKeyTypeHashX (replicate 32 7))) = Ret s ∧
       SignerKey_SetAddress s = Ret (SignerKeyTypeHashX (replicate 32 7)) ∧
       (∀ s', plain s' → SignerKey_SetAddress s' = Ret (SignerKeyTypeHashX (replicate 32 7)) → s' = s).
Proof.
  apply SignerKey_roundtrip. split; [done|]. apply Forall_replicate. unfold is_u8. lia.
Defined.

(** ** Printed assets *)

(** What [String] returns: it never fails ([Asset_String_total]). *)
Definition asset_string (a : Asset) : gostring :=
  match a with
  | AssetTypeNative => str "native"
  | AssetTypeCreditAlphanum4 code issuer =>
      str "credit_alphanum4/" ++ trim_right code ++ str "/" ++ address issuer
  | AssetTypeCreditAlphanum12 code issuer =>
      str "credit_alphanum12/" ++ trim_right code ++ str "/" ++ address issuer
  end.
Definition canonical_string (a : Asset) : gostring :=
  match a with
  | AssetTypeNative => str "native"
  | AssetTypeCreditAlphanum4 code issuer | AssetTypeCreditAlphanum12 code issuer =>
      trim_right code ++ str ":" ++ address issuer
  end.

Lemma Asset_String_total a : Asset_String a = Ret (asset_string a).
Proof.
  unfold Asset_String, Extract. destruct a as [|code i|code i]; outcome_simpl;
    rewrite ?Encode_address; done.
Qed.

Lemma StringCanonical_total a : StringCanonical a = Ret (canonical_string a).
Proof.
  unfold StringCanonical, Extract. destruct a as [|code i|code i]; outcome_simpl;
    rewrite ?Encode_address; done.
Qed.

Lemma credit_string_inj (p : gostring) code code' i i' :
  wf_account i → wf_account i' → length code = length code' →
  p ++ trim_right code ++ str "/" ++ address i = p ++ trim_right code' ++ str "/" ++ address i' →
  code = code' ∧ i = i'.
Proof.
  intros Hi Hi' Hl H. apply app_inv_head in H.
  apply app_inj_2 in H as [Hc Ha].
  - split; [by apply trim_right_inj|]. injection Ha as Ha. by apply address_inj.
  - rewrite !length_app, !address_length; [done|by destruct Hi'|by destruct Hi].
Qed.

Lemma asset_string_inj a b : wf_asset a → wf_asset b → asset_string a = asset_string b → a = b.
Proof.
  destruct a as [|ca ia|ca ia], b as [|cb ib|cb ib]; simpl wf_asset; intros Ha Hb H;
    try (by simpl in H).
  - destruct Ha as [[? ?] ?], Hb as [[? ?] ?].
    eapply credit_string_inj in H as [-> ->]; [done..|congruence].
  - destruct Ha as [[? ?] ?], Hb as [[? ?] ?].
    eapply credit_string_inj in H as [-> ->]; [done..|congruence].
Qed.

(** [String] never fails and names each asset by a different string, so the
    maps keyed by it hold one entry per asset; [Equals] decides equality. *)
Theorem Asset_String_injective a b :
  wf_asset a → wf_asset b →
  (Asset_String a = Asset_String b ↔ a = b) ∧ Asset_String a ≠ Panic ∧
  (Asset_Equals a b = true ↔ a = b).
Proof.
  intros Ha Hb. rewrite !Asset_String_total. split_and!; [|done|].
  - split; [|by intros ->]. intros [= H]. by apply asset_string_inj.
  - destruct a as [|ca [ia]|ca [ia]], b as [|cb [ib]|cb [ib]]; simpl; unfold AccountId_Equals;
      try done; rewrite andb_true_iff, !bool_decide_eq_true; naive_solver.
Qed.

Theorem Asset_String_injective_witness :
  let a := AssetTypeCreditAlphanum4 (str "USD" ++ [0]) (MkAccountId (replicate 32 5)) in
  let b := AssetTypeCreditAlphanum4 (str "USD" ++ [7]) (MkAccountId (replicate 32 5)) in
  (Asset_String a = Asset_String b ↔ a = b) ∧ Asset_String a ≠ Panic ∧
  (Asset_Equals a b = true ↔ a = b).
Proof.
  apply Asset_String_injective; (split; split; [done| |done|]);
    repeat (apply List.Forall_cons; [unfold is_u8; simpl; lia|]); apply List.Forall_nil.
Defined.

(** ** Reading lists of assets *)

(** An asset as the protocol allows it: a code of letters and digits, of the
    length its type is for. *)
Definition valid_code (lo hi : nat) (code : list Z) : Prop :=
  ∃ c, code = copy_pad hi c ∧ (lo ≤ length c ≤ hi)%nat ∧ Forall (λ x, is_alnum x = true) c.
Definition valid_asset (a : Asset) : Prop :=
  match a with
  | AssetTypeNative => True
  | AssetTypeCreditAlphanum4 code issuer => valid_code 1 4 code ∧ wf_account issuer
  | AssetTypeCreditAlphanum12 code issuer => valid_code 5 12 code ∧ wf_account issuer
  end.

Lemma toLower_in c s : c = 58 → c ∈ s → c ∈ toLower s.
Proof.
  intros ->. revert s. enough (∀ n s, (length s ≤ n)%nat → 58 ∈ s → 58 ∈ toLower s) as H by eauto.
  induction n as [|n IH]; intros s Hl Hin.
  { destruct s; simpl in Hl; [by apply not_elem_of_nil in Hin|lia]. }
  destruct s as [|x s]; [by apply not_elem_of_nil in Hin|].
  assert (toLower (x :: s) = 105 :: toLower (drop 1 s) ∧ x = 196 ∧ (∃ s', s = 176 :: s') ∨
    toLower (x :: s) = (if (65 <=? x) && (x <=? 90) then x + 32 else x) :: toLower s) as Hc.
  { destruct (decide (x = 196)) as [->|Hx].
    - destruct s as [|y s]; [by right|].
      destruct (decide (y = 176)) as [->|Hy]; [left; split_and!; eauto|right].
      simpl. repeat (case_match; try done).
    - right. simpl. repeat (case_match; try done). }
  destruct Hc as [(-> & -> & s' & ->) | ->].
  - apply elem_of_cons. right. simpl drop. apply elem_of_cons in Hin as [?|Hin]; [lia|].
    apply elem_of_cons in Hin as [?|Hin]; [lia|]. rewrite drop_0. apply IH; [cbn [length] in Hl; lia|done].
  - apply elem_of_cons in Hin as [<-|Hin]; [by left|]. right. apply IH; [simpl in Hl; lia|done].
Qed.

Lemma valid_code_trim hi code c :
  code = copy_pad hi c → (length c ≤ hi)%nat → Forall (λ x, is_alnum x = true) c →
  trim_right code = c.
Proof.
  intros -> Hl Hc. apply trim_right_copy; [done|].
  by apply alnum_plain.
Qed.

Lemma buildAssetString_credit c issuer :
  (1 ≤ length c ≤ 12)%nat → Forall (λ x, is_alnum x = true) c → wf_account issuer →
  buildAssetString (c ++ str ":" ++ address issuer) = SetCredit c issuer.
Proof.
  intros Hl Hc Hi. unfold buildAssetString.
  rewrite bool_decide_eq_false_2.
  2:{ intros E. assert (58 ∈ str "native") as Hin.
      { rewrite <- E. apply toLower_in; [done|]. apply elem_of_app. right. by left. }
      apply list_elem_of_In in Hin. simpl in Hin. lia. }
  change (c ++ str ":" ++ address issuer) with (c ++ 58 :: address issuer).
  rewrite split_app, split_plain.
  2:{ apply alnum_plain; [done|by apply address_alnum]. }
  2:{ by apply alnum_plain. }
  unfold ValidAssetCode, AddressToAccountId.
  rewrite (proj2 (Nat.leb_le _ _)), (proj2 (Nat.leb_le _ _)) by lia.
  rewrite (proj2 (forallb_forall _ _)) by (by apply List.Forall_forall). cbn [andb negb].
  rewrite SetAddress_address by done. outcome_simpl. cbn [map_fail outcome_bind].
  unfold SetCredit. repeat case_if; try done. repeat (case_if; [done|]).
  destruct ((length c <=? 4)%nat) eqn:E1, ((length c <=? 12)%nat) eqn:E2, ((5 <=? length c)%nat) eqn:E3,
    ((1 <=? length c)%nat) eqn:E4; try done;
    rewrite ?Nat.leb_gt, ?Nat.leb_le in *; lia.
Qed.

Lemma buildAssetString_canonical a :
  valid_asset a → buildAssetString (canonical_string a) = Ret a.
Proof.
  destruct a as [|code i|code i]; simpl valid_asset.
  - done.
  - intros [(c & Hcode & Hl & Hc) Hi]. cbn [canonical_string].
    rewrite (valid_code_trim 4 code c) by (done || lia).
    rewrite buildAssetString_credit by (done || lia). unfold SetCredit.
    rewrite (proj2 (Nat.leb_le 1 _)), (proj2 (Nat.leb_le _ 4)) by lia. by rewrite Hcode.
  - intros [(c & Hcode & Hl & Hc) Hi]. cbn [canonical_string].
    rewrite (valid_code_trim 12 code c) by (done || lia).
    rewrite buildAssetString_credit by (done || lia). unfold SetCredit.
    rewrite (proj2 (Nat.leb_le 1 _)), (proj2 (Nat.leb_gt _ 4)) by lia. cbn [andb].
    rewrite (proj2 (Nat.leb_le 5 _)), (proj2 (Nat.leb_le _ 12)) by lia. by rewrite Hcode.
Qed.

Lemma canonical_plain a : valid_asset a → Forall (λ c, c ≠ 44) (canonical_string a) ∧ canonical_string a ≠ [].
Proof.
  assert (∀ lo hi code i, valid_code lo hi code → wf_account i →
    Forall (λ c, c ≠ 44) (trim_right code ++ str ":" ++ address i) ∧
    trim_right code ++ str ":" ++ address i ≠ []) as H.
  { intros lo hi code i (c & Hcode & Hl & Hc) Hi.
    rewrite (valid_code_trim hi code c) by (done || lia). split; [|by destruct c].
    rewrite !Forall_app. split_and!.
    - by apply alnum_plain.
    - by repeat constructor.
    - apply alnum_plain; [done|by apply address_alnum]. }
  destruct a as [|code i|code i]; simpl.
  - split; [by repeat constructor|done].
  - intros [? ?]. by eapply H.
  - intros [? ?]. by eapply H.
Qed.

(** a comma-separated list of canonical asset strings reads back as the
    assets, in order. *)
Theorem BuildAssets_roundtrip assets :
  Forall valid_asset assets →
  ∃ strings, Forall2 (λ a s, StringCanonical a = Ret s) assets strings ∧
             BuildAssets (join 44 strings) = Ret assets.
Proof.
  intros Hv. exists (canonical_string <$> assets). split.
  { apply Forall2_fmap_r, Forall_Forall2_diag, Forall_true. intros. apply StringCanonical_total. }
  unfold BuildAssets. destruct assets as [|a assets]; [done|].
  rewrite bool_decide_eq_false_2.
  2:{ apply Forall_cons in Hv as [Ha _]. destruct (canonical_plain a Ha) as [_ Hn].
      destruct assets; simpl; [done|]. by destruct (canonical_string a). }
  rewrite split_join; [|done|].
  2:{ apply Forall_fmap. eapply Forall_impl; [done|]. intros x Hx. by apply canonical_plain. }
  enough (∀ l acc, Forall valid_asset l →
    mfold (λ assets assetString, asset ← buildAssetString assetString; Ret (assets ++ [asset])) acc
      (canonical_string <$> l) = Ret (acc ++ l)) as H by (by rewrite H).
  intros l acc Hl. revert acc. induction Hl as [|x l Hx Hl IH]; intros acc; simpl.
  { by rewrite app_nil_r. }
  rewrite buildAssetString_canonical by done. outcome_simpl. rewrite IH. by rewrite <- app_assoc.
Qed.

Theorem BuildAssets_roundtrip_witness :
  let assets := [AssetTypeNative; AssetTypeCreditAlphanum4 (str "USD" ++ [0]) (MkAccountId (replicate 32 5))] in
  ∃ strings, Forall2 (λ a s, StringCanonical a = Ret s) assets strings ∧
             BuildAssets (join 44 strings) = Ret assets.
Proof.
  apply BuildAssets_roundtrip. apply List.Forall_cons; [done|].
  apply List.Forall_cons; [|apply List.Forall_nil]. split.
  - exists (str "USD"). split; [done|]. split; [simpl; lia|]. by repeat constructor.
  - split; [done|]. apply Forall_replicate. unfold is_u8. lia.
Defined.

(** ** Ledger keys in memory *)

Lemma be64_inj x y : is_i64 x → is_i64 y → be64 x = be64 y → x = y.
Proof.
  intros Hx Hy H.
  assert (u64 x = u64 y) as E.
  { apply (bits_ext 64); [apply u64_range..|]. intros n Hn.
    assert (be64 x !! Z.to_nat (7 - n / 8) = be64 y !! Z.to_nat (7 - n / 8)) as Hi by by rewrite H.
    unfold be64 in Hi. rewrite !list_lookup_fmap, !lookup_seq_lt in Hi by zlia. simpl in Hi.
    injection Hi as Hi. apply (f_equal (λ v, Z.testbit v (n mod 8))) in Hi.
    unfold u8 in Hi. rewrite !wrap_u_testbit in Hi by lia.
    rewrite bool_decide_eq_true_2 in Hi by zlia. cbn [andb] in Hi.
    rewrite !Z.shiftr_spec in Hi by zlia.
    replace (n mod 8 + 8 * (7 - Z.of_nat (Z.to_nat (7 - n / 8)))) with n in Hi by zlia. done. }
  unfold is_i64, u64, wrap_u in *. zlia.
Qed.

Lemma compress_prefix a b (r s : list Z) :
  wf_account a → wf_account b →
  Ed25519 a ++ r = Ed25519 b ++ s → a = b ∧ r = s.
Proof.
  intros [Ha _] [Hb _]. destruct a as [a], b as [b]. simpl in *. intros H.
  apply app_inj_1 in H as [-> ->]; [done|congruence].
Qed.

Lemma asset_compress_inj a b :
  wf_asset a → wf_asset b →
  Asset_MarshalBinaryCompress a = Asset_MarshalBinaryCompress b → a = b.
Proof.
  assert (∀ (code code' : list Z) i i', length code = length code' → wf_account i → wf_account i' →
    trim_right code ++ AccountId_MarshalBinary i = trim_right code' ++ AccountId_MarshalBinary i' →
    code = code' ∧ i = i') as H.
  { intros code code' [i] [i'] Hl [Hi _] [Hi' _] E. simpl in *.
    apply app_inj_2 in E as [E1 E2]; [|simpl; congruence].
    injection E2 as ->. split; [by apply trim_right_inj|done]. }
  destruct a as [|ca ia|ca ia], b as [|cb ib|cb ib]; simpl wf_asset; intros Ha Hb E; try done;
    destruct Ha as [[? ?] ?], Hb as [[? ?] ?]; injection E as E;
    apply H in E as [-> ->]; (done || congruence).
Qed.

(** Data names do not end in a zero byte: the protocol allows printable text. *)
Definition printable_key (key : LedgerKey) : Prop :=
  match key with LedgerEntryTypeData _ name => Forall (λ c, c ≠ 0) name | _ => True end.

(** the compressed binary form names each ledger key by a different byte
    string, provided data names hold no zero byte; without that proviso a
    trailing zero byte of the name is lost. *)
Theorem LedgerKey_compress_injective k1 k2 :
  wf_key k1 → wf_key k2 → printable_key k1 → printable_key k2 →
  (LedgerKey_MarshalBinaryCompress k1 = LedgerKey_MarshalBinaryCompress k2 ↔ k1 = k2).
Proof.
  intros H1 H2 P1 P2. split; [|by intros ->].
  destruct k1 as [a|a x|a i|a n|b], k2 as [a'|a' x'|a' i'|a' n'|b'];
    cbn [wf_key printable_key] in *; intros E; try discriminate E; injection E as E.
  - by destruct a, a'; simpl in *; simplify_eq.
  - destruct H1 as [? ?], H2 as [? ?].
    apply (compress_prefix a a') in E as [-> E]; [|done..]. f_equal. by apply asset_compress_inj.
  - destruct H1 as [? ?], H2 as [? ?].
    apply (compress_prefix a a') in E as [-> E]; [|done..]. f_equal. by apply be64_inj.
  - destruct H1 as [? ?], H2 as [? ?].
    apply (compress_prefix a a') in E as [-> E]; [|done..].
    rewrite !trim_right_no_zero in E by done. by rewrite E.
  - by destruct b, b'; simpl in *; simplify_eq.
Qed.

Theorem LedgerKey_compress_injective_witness :
  let k1 := LedgerEntryTypeTrustline (MkAccountId (replicate 32 1))
              (AssetTypeCreditAlphanum4 (str "US" ++ [0; 0]) (MkAccountId (replicate 32 2))) in
  let k2 := LedgerEntryTypeTrustline (MkAccountId (replicate 32 1)) AssetTypeNative in
  (LedgerKey_MarshalBinaryCompress k1 = LedgerKey_MarshalBinaryCompress k2 ↔ k1 = k2).
Proof.
  assert (∀ n, is_u8 n → wf_account (MkAccountId (replicate 32 n))) as Hw.
  { intros n Hn. split; [done|]. by apply Forall_replicate. }
  apply LedgerKey_compress_injective; try done;
    (split; [by apply Hw|]); [|done].
  split; [|by apply Hw]. split; [done|].
  repeat (apply List.Forall_cons; [unfold is_u8; simpl; lia|]); apply List.Forall_nil.
Defined.

Example LedgerKey_compress_collision :
  LedgerKey_MarshalBinaryCompress (LedgerEntryTypeData (MkAccountId []) [1; 0]) =
  LedgerKey_MarshalBinaryCompress (LedgerEntryTypeData (MkAccountId []) [1]).
Proof. done. Qed.

(** [Equals] decides equality of ledger keys, except that it panics when
    both are keys of claimable balances. *)
Theorem LedgerKey_Equals_spec k1 k2 :
  LedgerKey_Equals k1 k2 =
    match k1, k2 with
    | LedgerEntryTypeClaimableBalance _, LedgerEntryTypeClaimableBalance _ => Panic
    | _, _ => Ret (bool_decide (k1 = k2))
    end.
Proof.
  assert (∀ a b, AccountId_Equals a b = bool_decide (a = b)) as Ha.
  { intros [a] [b]. unfold AccountId_Equals. simpl. apply bool_decide_ext. naive_solver. }
  assert (∀ a b, Asset_Equals a b = bool_decide (a = b)) as Hx.
  { intros [|c i|c i] [|c' i'|c' i']; simpl; try done; rewrite Ha, <- bool_decide_and;
      apply bool_decide_ext; naive_solver. }
  destruct k1, k2; simpl; rewrite ?Ha, ?Hx; try done; f_equal.
  - apply bool_decide_ext. naive_solver.
  - rewrite <- bool_decide_and. apply bool_decide_ext. naive_solver.
  - destruct (Z.eqb_spec offerId offerId0); rewrite ?andb_true_r, ?andb_false_r.
    + apply bool_decide_ext. naive_solver.
    + rewrite bool_decide_eq_false_2; naive_solver.
  - rewrite <- bool_decide_and. apply bool_decide_ext. naive_solver.
Qed.

Lemma Asset_Equals_eq a b : Asset_Equals a b = bool_decide (a = b).
Proof.
  destruct a as [|c [i]|c [i]], b as [|c' [i']|c' [i']]; simpl; unfold AccountId_Equals; simpl; try done;
    rewrite <- bool_decide_and; apply bool_decide_ext; naive_solver.
Qed.
