(* ===== verification/LedgerEntry.v ===== *)
(** * xdr: ledger entries

    The data of the ledger, from [src/xdr/Hcnet-ledger-entries.x], and the
    hand-written helpers of [src/xdr/ledger_entry.go], [account_entry.go],
    [account_thresholds.go], [account_flags.go], [trust_line_entry.go],
    [trust_line_flags.go], [signers.go] and [claimant.go].  An extension point
    with a void arm and one other arm is an option. *)

From S2P Require Import Prelude Crc16 Strkey Price Xdr.

(** ** Data *)

Record Liabilities := MkLiabilities { Liabilities_Buying : Z; Liabilities_Selling : Z }.
#[export] Instance Liabilities_eq_dec : EqDecision Liabilities.
Proof. solve_decision. Defined.

(** Weights of the master key and of the low, medium and high threshold. *)
Record Thresholds := MkThresholds { th_master : Z; th_low : Z; th_med : Z; th_high : Z }.
#[export] Instance Thresholds_eq_dec : EqDecision Thresholds.
Proof. solve_decision. Defined.

Record Signer := MkSigner { Key : SignerKey; Weight : Z }.
#[export] Instance Signer_eq_dec : EqDecision Signer.
Proof. solve_decision. Defined.

Record AccountEntryExtensionV2 := MkAccountV2 {
  V2_NumSponsored : Z; V2_NumSponsoring : Z; V2_SignerSponsoringIDs : list (option AccountId) }.
#[export] Instance AccountEntryExtensionV2_eq_dec : EqDecision AccountEntryExtensionV2.
Proof. solve_decision. Defined.

Record AccountEntryExtensionV1 := MkAccountV1 {
  V1_Liabilities : Liabilities; V1_Ext : option AccountEntryExtensionV2 }.
#[export] Instance AccountEntryExtensionV1_eq_dec : EqDecision AccountEntryExtensionV1.
Proof. solve_decision. Defined.

Record AccountEntry := MkAccount {
  Account_AccountId : AccountId; Account_Balance : Z; Account_SeqNum : Z;
  Account_NumSubEntries : Z; Account_InflationDest : option AccountId; Account_Flags : Z;
  Account_HomeDomain : gostring; Account_Thresholds : Thresholds; Signers : list Signer;
  Account_Ext : option AccountEntryExtensionV1 }.
#[export] Instance AccountEntry_eq_dec : EqDecision AccountEntry.
Proof. solve_decision. Defined.

Record TrustLineEntry := MkTrustLine {
  TrustLine_AccountId : AccountId; TrustLine_Asset : Asset; TrustLine_Balance : Z;
  TrustLine_Limit : Z; TrustLine_Flags : Z; TrustLine_Ext : option Liabilities }.
#[export] Instance TrustLineEntry_eq_dec : EqDecision TrustLineEntry.
Proof. solve_decision. Defined.

Record OfferEntry := MkOffer {
  SellerId : AccountId; OfferId : Z; Selling : Asset; Buying : Asset;
  Amount : Z; OfferPrice : Price; Flags : Z }.
#[export] Instance OfferEntry_eq_dec : EqDecision OfferEntry.
Proof. solve_decision. Defined.

Record DataEntry := MkData {
  Data_AccountId : AccountId; Data_DataName : gostring; Data_DataValue : list Z }.
#[export] Instance DataEntry_eq_dec : EqDecision DataEntry.
Proof. solve_decision. Defined.

Inductive ClaimPredicate :=
  | ClaimPredicateUnconditional
  | ClaimPredicateAnd (ps : list ClaimPredicate)
  | ClaimPredicateOr (ps : list ClaimPredicate)
  | ClaimPredicateNot (p : option ClaimPredicate)
  | ClaimPredicateBeforeAbsoluteTime (absBefore : Z)
  | ClaimPredicateBeforeRelativeTime (relBefore : Z).

(** Equality of predicates is decided through finite trees. *)
Fixpoint predicate_tree (p : ClaimPredicate) : gen_tree Z :=
  match p with
  | ClaimPredicateUnconditional => GenNode 0 []
  | ClaimPredicateAnd ps => GenNode 1 (map predicate_tree ps)
  | ClaimPredicateOr ps => GenNode 2 (map predicate_tree ps)
  | ClaimPredicateNot None => GenNode 3 []
  | ClaimPredicateNot (Some p) => GenNode 3 [predicate_tree p]
  | ClaimPredicateBeforeAbsoluteTime z => GenNode 4 [GenLeaf z]
  | ClaimPredicateBeforeRelativeTime z => GenNode 5 [GenLeaf z]
  end.
Fixpoint tree_predicate (t : gen_tree Z) : ClaimPredicate :=
  match t with
  | GenNode 1 ts => ClaimPredicateAnd (map tree_predicate ts)
  | GenNode 2 ts => ClaimPredicateOr (map tree_predicate ts)
  | GenNode 3 [] => ClaimPredicateNot None
  | GenNode 3 (t :: _) => ClaimPredicateNot (Some (tree_predicate t))
  | GenNode 4 (GenLeaf z :: _) => ClaimPredicateBeforeAbsoluteTime z
  | GenNode 5 (GenLeaf z :: _) => ClaimPredicateBeforeRelativeTime z
  | _ => ClaimPredicateUnconditional
  end.

Lemma tree_predicate_tree : ∀ p, tree_predicate (predicate_tree p) = p.
Proof.
  fix IH 1. intros [|ps|ps|[p|]|z|z]; simpl; try done; [..|by rewrite IH];
    f_equal; induction ps as [|p ps IHps]; simpl; [done| |done|]; by rewrite IH, IHps.
Qed.

#[export] Instance ClaimPredicate_eq_dec : EqDecision ClaimPredicate.
Proof.
  intros p q. destruct (decide (predicate_tree p = predicate_tree q)) as [E|E]; [left|right].
  - by rewrite <- (tree_predicate_tree p), <- (tree_predicate_tree q), E.
  - by intros ->.
Defined.

Record Claimant := MkClaimant { Destination : AccountId; Predicate : ClaimPredicate }.
#[export] Instance Claimant_eq_dec : EqDecision Claimant.
Proof. solve_decision. Defined.

Record ClaimableBalanceEntry := MkClaimableBalance {
  ClaimableBalance_BalanceId : ClaimableBalanceId; Claimants : list Claimant;
  ClaimableBalance_Asset : Asset; ClaimableBalance_Amount : Z }.
#[export] Instance ClaimableBalanceEntry_eq_dec : EqDecision ClaimableBalanceEntry.
Proof. solve_decision. Defined.

Inductive LedgerEntryData :=
  | DataAccount (account : AccountEntry)
  | DataTrustLine (tline : TrustLineEntry)
  | DataOffer (offer : OfferEntry)
  | DataData (data : DataEntry)
  | DataClaimableBalance (cBalance : ClaimableBalanceEntry).
#[export] Instance LedgerEntryData_eq_dec : EqDecision LedgerEntryData.
Proof. solve_decision. Defined.

(** [Entry_Ext] is the sponsor of an entry with a V1 extension. *)
Record LedgerEntry := MkEntry {
  LastModifiedLedgerSeq : Z; Data : LedgerEntryData; Entry_Ext : option (option AccountId) }.
#[export] Instance LedgerEntry_eq_dec : EqDecision LedgerEntry.
Proof. solve_decision. Defined.

(** *** Entries are countable, so that they have injective encodings *)

#[export] Instance Price_countable : Countable Price.
Proof. apply (inj_countable' (λ p, (N p, D p)) (λ '(n, d), MkPrice n d)). by intros []. Defined.
#[export] Instance SignerKey_countable : Countable SignerKey.
Proof.
  apply (inj_countable'
    (λ k, match k with
          | SignerKeyTypeEd25519 b => inl b | SignerKeyTypePreAuthTx b => inr (inl b)
          | SignerKeyTypeHashX b => inr (inr b)
          end)
    (λ s, match s with
          | inl b => SignerKeyTypeEd25519 b | inr (inl b) => SignerKeyTypePreAuthTx b
          | inr (inr b) => SignerKeyTypeHashX b
          end)). by intros [].
Defined.
#[export] Instance Asset_countable : Countable Asset.
Proof.
  apply (inj_countable'
    (λ a, match a with
          | AssetTypeNative => None | AssetTypeCreditAlphanum4 c i => Some (inl (c, i))
          | AssetTypeCreditAlphanum12 c i => Some (inr (c, i))
          end)
    (λ s, match s with
          | None => AssetTypeNative | Some (inl (c, i)) => AssetTypeCreditAlphanum4 c i
          | Some (inr (c, i)) => AssetTypeCreditAlphanum12 c i
          end)). by intros [].
Defined.
#[export] Instance ClaimableBalanceId_countable : Countable ClaimableBalanceId.
Proof. apply (inj_countable' V0 MkClaimableBalanceId). by intros []. Defined.
#[export] Instance ClaimPredicate_countable : Countable ClaimPredicate.
Proof. exact (inj_countable' predicate_tree tree_predicate tree_predicate_tree). Defined.
#[export] Instance Liabilities_countable : Countable Liabilities.
Proof.
  apply (inj_countable' (λ x, (Liabilities_Buying x, Liabilities_Selling x))
    (λ '(a0, a1), MkLiabilities a0 a1)).
  by intros [].
Defined.
#[export] Instance Thresholds_countable : Countable Thresholds.
Proof.
  apply (inj_countable' (λ x, (th_master x, th_low x, th_med x, th_high x))
    (λ '(a0, a1, a2, a3), MkThresholds a0 a1 a2 a3)).
  by intros [].
Defined.
#[export] Instance Signer_countable : Countable Signer.
Proof.
  apply (inj_countable' (λ x, (Key x, Weight x))
    (λ '(a0, a1), MkSigner a0 a1)).
  by intros [].
Defined.
#[export] Instance AccountEntryExtensionV2_countable : Countable AccountEntryExtensionV2.
Proof.
  apply (inj_countable' (λ x, (V2_NumSponsored x, V2_NumSponsoring x, V2_SignerSponsoringIDs x))
    (λ '(a0, a1, a2), MkAccountV2 a0 a1 a2)).
  by intros [].
Defined.
#[export] Instance AccountEntryExtensionV1_countable : Countable AccountEntryExtensionV1.
Proof.
  apply (inj_countable' (λ x, (V1_Liabilities x, V1_Ext x))
    (λ '(a0, a1), MkAccountV1 a0 a1)).
  by intros [].
Defined.
#[export] Instance AccountEntry_countable : Countable AccountEntry.
Proof.
  apply (inj_countable' (λ x, (Account_AccountId x, Account_Balance x, Account_SeqNum x, Account_NumSubEntries x, Account_InflationDest x, Account_Flags x, Account_HomeDomain x, Account_Thresholds x, Signers x, Account_Ext x))
    (λ '(a0, a1, a2, a3, a4, a5, a6, a7, a8, a9), MkAccount a0 a1 a2 a3 a4 a5 a6 a7 a8 a9)).
  by intros [].
Defined.
#[export] Instance TrustLineEntry_countable : Countable TrustLineEntry.
Proof.
  apply (inj_countable' (λ x, (TrustLine_AccountId x, TrustLine_Asset x, TrustLine_Balance x, TrustLine_Limit x, TrustLine_Flags x, TrustLine_Ext x))
    (λ '(a0, a1, a2, a3, a4, a5), MkTrustLine a0 a1 a2 a3 a4 a5)).
  by intros [].
Defined.
#[export] Instance OfferEntry_countable : Countable OfferEntry.
Proof.
  apply (inj_countable' (λ x, (SellerId x, OfferId x, Selling x, Buying x, Amount x, OfferPrice x, Flags x))
    (λ '(a0, a1, a2, a3, a4, a5, a6), MkOffer a0 a1 a2 a3 a4 a5 a6)).
  by intros [].
Defined.
#[export] Instance DataEntry_countable : Countable DataEntry.
Proof.
  apply (inj_countable' (λ x, (Data_AccountId x, Data_DataName x, Data_DataValue x))
    (λ '(a0, a1, a2), MkData a0 a1 a2)).
  by intros [].
Defined.
#[export] Instance Claimant_countable : Countable Claimant.
Proof.
  apply (inj_countable' (λ x, (Destination x, Predicate x))
    (λ '(a0, a1), MkClaimant a0 a1)).
  by intros [].
Defined.
#[export] Instance ClaimableBalanceEntry_countable : Countable ClaimableBalanceEntry.
Proof.
  apply (inj_countable' (λ x, (ClaimableBalance_BalanceId x, Claimants x, ClaimableBalance_Asset x, ClaimableBalance_Amount x))
    (λ '(a0, a1, a2, a3), MkClaimableBalance a0 a1 a2 a3)).
  by intros [].
Defined.
#[export] Instance LedgerEntryData_countable : Countable LedgerEntryData.
Proof.
  apply (inj_countable'
    (λ d, match d with
          | DataAccount a => inl (inl a) | DataTrustLine t => inl (inr t) | DataOffer o => inr (inl o)
          | DataData d => inr (inr (inl d)) | DataClaimableBalance b => inr (inr (inr b))
          end)
    (λ s, match s with
          | inl (inl a) => DataAccount a | inl (inr t) => DataTrustLine t | inr (inl o) => DataOffer o
          | inr (inr (inl d)) => DataData d | inr (inr (inr b)) => DataClaimableBalance b
          end)). by intros [].
Defined.
#[export] Instance LedgerEntry_countable : Countable LedgerEntry.
Proof.
  apply (inj_countable' (λ x, (LastModifiedLedgerSeq x, Data x, Entry_Ext x))
    (λ '(a0, a1, a2), MkEntry a0 a1 a2)).
  by intros [].
Defined.

Inductive LedgerEntryType :=
  | TypeAccount | TypeTrustline | TypeOffer | TypeData | TypeClaimableBalance.
#[export] Instance LedgerEntryType_eq_dec : EqDecision LedgerEntryType.
Proof. solve_decision. Defined.

Definition data_type (d : LedgerEntryData) : LedgerEntryType :=
  match d with
  | DataAccount _ => TypeAccount
  | DataTrustLine _ => TypeTrustline
  | DataOffer _ => TypeOffer
  | DataData _ => TypeData
  | DataClaimableBalance _ => TypeClaimableBalance
  end.

(** The type of a key. *)
Definition key_type (k : LedgerKey) : LedgerEntryType :=
  match k with
  | LedgerEntryTypeAccount _ => TypeAccount
  | LedgerEntryTypeTrustline _ _ => TypeTrustline
  | LedgerEntryTypeOffer _ _ => TypeOffer
  | LedgerEntryTypeData _ _ => TypeData
  | LedgerEntryTypeClaimableBalance _ => TypeClaimableBalance
  end.

(** ** ledger_entry.go *)

Definition LedgerEntry_LedgerKey (entry : LedgerEntry) : LedgerKey :=
  match Data entry with
  | DataAccount account => LedgerEntryTypeAccount (Account_AccountId account)
  | DataData data => LedgerEntryTypeData (Data_AccountId data) (Data_DataName data)
  | DataOffer offer => LedgerEntryTypeOffer (SellerId offer) (OfferId offer)
  | DataTrustLine tline => LedgerEntryTypeTrustline (TrustLine_AccountId tline) (TrustLine_Asset tline)
  | DataClaimableBalance cBalance => LedgerEntryTypeClaimableBalance (ClaimableBalance_BalanceId cBalance)
  end.

Definition SponsoringID (entry : LedgerEntry) : option AccountId :=
  match Entry_Ext entry with Some sponsor => sponsor | None => None end.

(** ** account_thresholds.go, account_flags.go, trust_line_flags.go *)

Definition MasterKeyWeight (t : Thresholds) : Z := th_master t.
Definition ThresholdLow (t : Thresholds) : Z := th_low t.
Definition ThresholdMedium (t : Thresholds) : Z := th_med t.
Definition ThresholdHigh (t : Thresholds) : Z := th_high t.

Definition AccountFlagsAuthRequiredFlag : Z := 1.
Definition AccountFlagsAuthRevocableFlag : Z := 2.
Definition AccountFlagsAuthImmutableFlag : Z := 4.
Definition TrustLineFlagsAuthorizedFlag : Z := 1.
Definition TrustLineFlagsAuthorizedToMaintainLiabilitiesFlag : Z := 2.

Definition IsAuthRequired (accountFlags : Z) : bool :=
  negb (Z.land accountFlags AccountFlagsAuthRequiredFlag =? 0).
Definition IsAuthRevocable (accountFlags : Z) : bool :=
  negb (Z.land accountFlags AccountFlagsAuthRevocableFlag =? 0).
Definition IsAuthImmutable (accountFlags : Z) : bool :=
  negb (Z.land accountFlags AccountFlagsAuthImmutableFlag =? 0).
Definition IsAuthorized (e : Z) : bool := negb (Z.land e TrustLineFlagsAuthorizedFlag =? 0).
Definition IsAuthorizedToMaintainLiabilitiesFlag (e : Z) : bool :=
  negb (Z.land e TrustLineFlagsAuthorizedToMaintainLiabilitiesFlag =? 0).

(** ** account_entry.go, trust_line_entry.go *)

Definition SignerSummary (account : AccountEntry) : outcome xdr_error (gmap gostring Z) :=
  ret ← (if 0 <? MasterKeyWeight (Account_Thresholds account) then
           a ← AccountId_Address (Some (Account_AccountId account));
           Ret {[ a := th_master (Account_Thresholds account) ]}
         else Ret ∅);
  mfold (λ ret signer,
    a ← SignerKey_Address (Some (Key signer));
    Ret (<[ a := i32 (Weight signer) ]> ret)) ret (Signers account).

Definition no_liabilities : Liabilities := MkLiabilities 0 0.
Definition AccountEntry_Liabilities (account : AccountEntry) : Liabilities :=
  match Account_Ext account with Some v1 => V1_Liabilities v1 | None => no_liabilities end.
Definition account_v2 (account : AccountEntry) : option AccountEntryExtensionV2 :=
  match Account_Ext account with Some v1 => V1_Ext v1 | None => None end.
Definition NumSponsored (account : AccountEntry) : Z :=
  match account_v2 account with Some v2 => V2_NumSponsored v2 | None => 0 end.
Definition NumSponsoring (account : AccountEntry) : Z :=
  match account_v2 account with Some v2 => V2_NumSponsoring v2 | None => 0 end.
Definition SignerSponsoringIDs (account : AccountEntry) : list (option AccountId) :=
  match account_v2 account with
  | Some v2 => V2_SignerSponsoringIDs v2
  | None => replicate (length (Signers account)) None
  end.

(** [ids[i]] panics when the extension lists fewer sponsors than signers. *)
Fixpoint sponsor_loop (i : nat) (ids : list (option AccountId)) (signers : list Signer)
    (signerToSponsor : gmap gostring AccountId) : outcome xdr_error (gmap gostring AccountId) :=
  match signers with
  | [] => Ret signerToSponsor
  | signerEntry :: signers' =>
      match ids !! i with
      | None => Panic
      | Some None => sponsor_loop (S i) ids signers' signerToSponsor
      | Some (Some sponsor) =>
          a ← SignerKey_Address (Some (Key signerEntry));
          sponsor_loop (S i) ids signers' (<[ a := sponsor ]> signerToSponsor)
      end
  end.
Definition SponsorPerSigner (account : AccountEntry) : outcome xdr_error (gmap gostring AccountId) :=
  sponsor_loop 0 (SignerSponsoringIDs account) (Signers account) ∅.

Definition TrustLineEntry_Liabilities (trustLine : TrustLineEntry) : Liabilities :=
  match TrustLine_Ext trustLine with Some l => l | None => no_liabilities end.

(** ** signers.go, claimant.go

    Both sort the list of keys and read the items back from a map, which holds
    every key. *)

Definition sort_keyed {A} (key : A → gostring) (l : list A) : list A :=
  let keysMap := foldl (λ m x, <[ key x := x ]> m) (∅ : gmap gostring A) l in
  omap (λ k, keysMap !! k) (sort_by str_ltb (key <$> l)).

(** The addresses of the items; [Address] panics when encoding fails. *)
Definition addresses {A} (f : A → outcome xdr_error gostring) (l : list A)
  : outcome xdr_error (list (gostring * A)) :=
  mfold (λ acc x, a ← f x; Ret (acc ++ [(a, x)])) [] l.

Definition SortSignersByKey (signers : list Signer) : outcome xdr_error (list Signer) :=
  keyed ← addresses (λ s, SignerKey_Address (Some (Key s))) signers;
  Ret (sort_keyed fst keyed).*2.
Definition SortClaimantsByDestination (claimants : list Claimant) : outcome xdr_error (list Claimant) :=
  keyed ← addresses (λ c, AccountId_Address (Some (Destination c))) claimants;
  Ret (sort_keyed fst keyed).*2.

(** ** Sorting through a map *)

Section sort_keyed.
Context {A : Type} (key : A → gostring).

Lemma sort_keyed_lookup l x :
  NoDup (key <$> l) → x ∈ l →
  foldl (λ m x, <[ key x := x ]> m) (∅ : gmap gostring A) l !! key x = Some x.
Proof. apply foldl_insert_lookup. Qed.

Lemma omap_lookup_self (f : gostring → option A) l :
  Forall (λ x, f (key x) = Some x) l → omap f (key <$> l) = l.
Proof. induction 1 as [|x l Hx _ IH]; simpl; [done|]. rewrite Hx. f_equal. apply IH. Qed.

Lemma sort_keyed_perm l : NoDup (key <$> l) → sort_keyed key l ≡ₚ l.
Proof.
  intros Hn. unfold sort_keyed. rewrite sort_by_perm, omap_lookup_self; [done|].
  apply Forall_forall. intros x Hx. by apply sort_keyed_lookup.
Qed.

Lemma omap_keys (f : gostring → option A) (ks : list gostring) :
  (∀ k, k ∈ ks → ∃ x, f k = Some x ∧ key x = k) → key <$> omap f ks = ks.
Proof.
  induction ks as [|k ks IH]; intros Hf; simpl; [done|].
  destruct (Hf k ltac:(by left)) as (x & -> & Hx). rewrite fmap_cons, Hx. f_equal. apply IH.
  intros k' Hk'. apply Hf. by right.
Qed.

Lemma sort_keyed_keys l : NoDup (key <$> l) → key <$> sort_keyed key l = sort_by str_ltb (key <$> l).
Proof.
  intros Hn. apply omap_keys. intros k Hk. rewrite sort_by_perm in Hk.
  apply list_elem_of_fmap in Hk as (x & -> & Hx). exists x. by rewrite sort_keyed_lookup.
Qed.

(** The result depends on the items only, not on their order. *)
Lemma sort_keyed_canonical l k : NoDup (key <$> l) → l ≡ₚ k → sort_keyed key l = sort_keyed key k.
Proof.
  intros Hn Hp. assert (NoDup (key <$> k)) as Hk by by rewrite <- Hp.
  unfold sort_keyed. rewrite (sort_str_perm (key <$> l) (key <$> k)) by by rewrite Hp.
  apply list_omap_ext, Forall_Forall2_diag, Forall_forall. intros y Hy. rewrite sort_by_perm in Hy.
  apply list_elem_of_fmap in Hy as (x & -> & Hx).
  by rewrite !sort_keyed_lookup by (done || by rewrite Hp).
Qed.

Lemma sort_keyed_sorted l : NoDup (key <$> l) → StronglySorted str_le (key <$> sort_keyed key l).
Proof. intros Hn. rewrite sort_keyed_keys by done. apply sort_str_sorted. Qed.
End sort_keyed.

(** ** Addresses never fail *)

Definition signer_string (skey : SignerKey) : gostring :=
  Base32.EncodeToString (signer_version skey :: signer_bytes skey ++
    Checksum (signer_version skey :: signer_bytes skey)).

Lemma SignerKey_Address_total skey : SignerKey_Address (Some skey) = Ret (signer_string skey).
Proof. rewrite signer_address, Encode_valid by apply signer_version_valid. done. Qed.

Lemma signer_string_read k : wf_signer k → SignerKey_SetAddress (signer_string k) = Ret k.
Proof.
  intros [Hl Hu]. pose proof (signer_version_valid k) as Hv.
  destruct (Encode_readable _ _ _ Hv Hu (Encode_valid _ (signer_bytes k) Hv)) as (_ & Hd & _ & Hver).
  by apply signer_SetAddress_intro.
Qed.

Lemma signer_string_inj k1 k2 :
  wf_signer k1 → wf_signer k2 → signer_string k1 = signer_string k2 → k1 = k2.
Proof. intros H1%signer_string_read H2%signer_string_read E. rewrite E, H2 in H1. congruence. Qed.

Lemma addresses_total {A} (f : A → outcome xdr_error gostring) (g : A → gostring) l :
  (∀ x, f x = Ret (g x)) → addresses f l = Ret ((λ x, (g x, x)) <$> l).
Proof.
  intros Hf. unfold addresses.
  assert (∀ acc, mfold (λ acc x, a ← f x; Ret (acc ++ [(a, x)])) acc l =
    Ret (acc ++ ((λ x, (g x, x)) <$> l)) :> outcome xdr_error _) as H; [|apply (H [])].
  induction l as [|x l IH]; intros acc; simpl; [by rewrite app_nil_r|].
  rewrite Hf. outcome_simpl. rewrite IH. by rewrite <- app_assoc.
Qed.

Definition signers_sorted : list Signer → list Signer :=
  λ l, (sort_keyed fst ((λ s, (signer_string (Key s), s)) <$> l)).*2.

Lemma SortSignersByKey_total l : SortSignersByKey l = Ret (signers_sorted l).
Proof.
  unfold SortSignersByKey. rewrite (addresses_total _ (λ s, signer_string (Key s))); [done|].
  intros s. apply SignerKey_Address_total.
Qed.

Definition claimants_sorted : list Claimant → list Claimant :=
  λ l, (sort_keyed fst ((λ c, (address (Destination c), c)) <$> l)).*2.

Lemma SortClaimantsByDestination_total l : SortClaimantsByDestination l = Ret (claimants_sorted l).
Proof.
  unfold SortClaimantsByDestination. rewrite (addresses_total _ (λ c, address (Destination c))); [done|].
  intros c. apply Address_total.
Qed.

(** What both sorts do to items with distinct keys. *)
Section sorted.
Context {A : Type} (g : A → gostring).
Definition sorted_by (l : list A) : list A := (sort_keyed fst ((λ x, (g x, x)) <$> l)).*2.

Lemma fst_keyed l : ((λ x, (g x, x)) <$> l).*1 = g <$> l.
Proof. rewrite <- list_fmap_compose. done. Qed.
Lemma snd_keyed l : ((λ x, (g x, x)) <$> l).*2 = l.
Proof. rewrite <- list_fmap_compose. apply list_fmap_id. Qed.

Lemma sorted_by_perm l : NoDup (g <$> l) → sorted_by l ≡ₚ l.
Proof.
  intros Hn. unfold sorted_by. rewrite sort_keyed_perm by by rewrite fst_keyed. by rewrite snd_keyed.
Qed.

Lemma sorted_by_canonical l k : NoDup (g <$> l) → l ≡ₚ k → sorted_by l = sorted_by k.
Proof.
  intros Hn Hp. unfold sorted_by. f_equal. apply sort_keyed_canonical; [by rewrite fst_keyed|by rewrite Hp].
Qed.

Lemma sorted_by_sorted l : NoDup (g <$> l) → StronglySorted str_le (g <$> sorted_by l).
Proof.
  intros Hn. unfold sorted_by.
  assert (∀ ps : list (gostring * A), Forall (λ p, p.1 = g p.2) ps → g <$> ps.*2 = ps.*1) as Hg.
  { induction 1 as [|p ps Hp _ IH]; [done|]. rewrite !fmap_cons, IH, Hp. done. }
  rewrite Hg; [apply sort_keyed_sorted; by rewrite fst_keyed|].
  rewrite sort_keyed_perm by by rewrite fst_keyed. apply Forall_fmap, Forall_true. done.
Qed.

Lemma sorted_by_idemp l : NoDup (g <$> l) → sorted_by (sorted_by l) = sorted_by l.
Proof.
  intros Hn. apply sorted_by_canonical; [by rewrite sorted_by_perm|by apply sorted_by_perm].
Qed.
End sorted.

(** signers with distinct keys are sorted by the text of their keys, which
    never fails; the result is a permutation, the same for every order of the
    same signers, and sorting it again changes nothing. *)
Theorem SortSignersByKey_canonical l :
  NoDup (Key <$> l) → Forall wf_signer (Key <$> l) →
  ∃ l', SortSignersByKey l = Ret l' ∧ l' ≡ₚ l ∧ SortSignersByKey l' = Ret l' ∧
    StronglySorted str_le ((λ s, signer_string (Key s)) <$> l') ∧
    ∀ k, k ≡ₚ l → SortSignersByKey k = Ret l'.
Proof.
  intros Hn Hw. assert (NoDup ((λ s, signer_string (Key s)) <$> l)) as Hs.
  { rewrite (list_fmap_compose Key signer_string). apply NoDup_fmap_2_strong; [|done].
    rewrite Forall_forall in Hw. intros k1 k2 H1 H2. apply signer_string_inj; by apply Hw. }
  exists (signers_sorted l). setoid_rewrite SortSignersByKey_total.
  split_and!; [done|by apply sorted_by_perm| |by apply sorted_by_sorted|].
  - f_equal. by apply sorted_by_idemp.
  - intros k Hk. f_equal. apply sorted_by_canonical; [|done]. by rewrite Hk.
Qed.

Theorem SortSignersByKey_canonical_witness :
  let s1 := MkSigner (SignerKeyTypeHashX (replicate 32 7)) 1 in
  let s2 := MkSigner (SignerKeyTypeEd25519 (replicate 32 9)) 2 in
  ∃ l', SortSignersByKey [s1; s2] = Ret l' ∧ l' ≡ₚ [s1; s2] ∧ SortSignersByKey l' = Ret l' ∧
    StronglySorted str_le ((λ s, signer_string (Key s)) <$> l') ∧
    ∀ k, k ≡ₚ [s1; s2] → SortSignersByKey k = Ret l'.
Proof.
  apply SortSignersByKey_canonical.
  - by apply (bool_decide_unpack _).
  - repeat (apply Forall_cons; split); [..|by apply Forall_nil];
      (split; [done|apply Forall_replicate; unfold is_u8; lia]).
Defined.
