(* ===== verification/HistoryRange.v ===== *)
(** * historyarchive: checkpoints and ranges

    Models [src/historyarchive/range.go].  The channel of [Checkpoints] is the
    list of what it delivers before it is closed. *)

From S2P Require Import Prelude.

Definition CheckpointFreq : Z := 64.

Record Range := MkRange { Low : Z; High : Z }.
#[export] Instance Range_eq_dec : EqDecision Range.
Proof. solve_decision. Defined.

Definition IsCheckpoint (i : Z) : bool := u32 (i + 1) mod CheckpointFreq =? 0.

Definition PrevCheckpoint (i : Z) : Z :=
  let freq := CheckpointFreq in
  if i <? freq then freq - 1 else u32 (u32 (i + 1) / freq * freq - 1).

(** In 64 bits. *)
Definition NextCheckpoint (i : Z) : Z :=
  if i =? 0 then CheckpointFreq - 1 else
  let freq := CheckpointFreq in
  let n := (i + freq) / freq * freq - 1 in
  if 4294967295 <=? n then 4294967295 else n.

Definition MakeRange (low high : Z) : Range :=
  let high := if high <? low then low else high in
  MkRange (PrevCheckpoint low) (NextCheckpoint high).

Definition clamp (r other : Range) : Range :=
  let low := if Low r <? Low other then Low other else Low r in
  let high := if High other <? High r then High other else High r in
  MakeRange low high.

(** The loop variable has 64 bits and both bounds 32, so it does not overflow. *)
Fixpoint checkpoints_loop (fuel : nat) (i high : Z) : list Z :=
  match fuel with
  | O => []
  | S fuel' => if i <=? high then u32 i :: checkpoints_loop fuel' (i + CheckpointFreq) high else []
  end.
Definition Checkpoints (r : Range) : list Z :=
  checkpoints_loop (Z.to_nat ((High r - Low r) / CheckpointFreq + 2)) (Low r) (High r).

Definition Size (r : Range) : Z := 1 + u32 (High r - Low r) / CheckpointFreq.

(** [%8.8x] *)
Definition hex_digit (d : Z) : Z := if d <? 10 then d + 48 else d + 87.
Definition hex8 (v : Z) : gostring :=
  (λ k : nat, hex_digit (Z.land (Z.shiftr v (4 * (7 - Z.of_nat k))) 15)) <$> seq 0 8.

Definition Range_String (r : Range) : gostring :=
  str "[0x" ++ hex8 (Low r) ++ str ", 0x" ++ hex8 (High r) ++ str "]".
Definition collapsedString (r : Range) : gostring :=
  if Low r =? High r then str "0x" ++ hex8 (Low r)
  else str "[0x" ++ hex8 (Low r) ++ str "-0x" ++ hex8 (High r) ++ str "]".

(** The loop of [fmtRangeList] over the sorted list. *)
Fixpoint collapse (curr : option Range) (vs : list Z) : list Range :=
  match vs with
  | [] => match curr with Some c => [c] | None => [] end
  | t :: vs' =>
      match curr with
      | Some c =>
          if u32 (High c + CheckpointFreq) =? t then collapse (Some (MkRange (Low c) t)) vs'
          else c :: collapse (Some (MkRange t t)) vs'
      | None => collapse (Some (MkRange t t)) vs'
      end
  end.

(** [strings.Join(s, ", ")] *)
Fixpoint join_comma (ps : list gostring) : gostring :=
  match ps with [] => [] | [p] => p | p :: ps' => p ++ str ", " ++ join_comma ps' end.
Definition fmtRangeList (vs : list Z) : gostring :=
  join_comma (collapsedString <$> collapse None (sort_by Z.ltb vs)).

(** ** Checkpoints *)

(** The ledgers whose successor is a multiple of the frequency. *)
Definition checkpoint (c : Z) : Prop := is_u32 c ∧ (c + 1) mod 64 = 0.

Lemma IsCheckpoint_iff i : is_u32 i → IsCheckpoint i = true ↔ checkpoint i.
Proof.
  intros Hi. unfold IsCheckpoint, checkpoint, CheckpointFreq. rewrite Z.eqb_eq.
  unfold is_u32 in *. destruct (Z.eq_dec i 4294967295) as [->|].
  - split; [|by vm_compute]. intros _. split; [lia|done].
  - rewrite u32_small by (unfold is_u32; lia). tauto.
Qed.

Ltac checkpoint_tac := split_and!; first [zlia | intros c [? ?] ?; zlia].

Lemma PrevCheckpoint_spec i :
  is_u32 i →
  checkpoint (PrevCheckpoint i) ∧ (63 ≤ i → PrevCheckpoint i ≤ i) ∧ (i < 63 → PrevCheckpoint i = 63) ∧
  ∀ c, checkpoint c → c ≤ i → c ≤ PrevCheckpoint i.
Proof.
  intros Hi. unfold PrevCheckpoint, checkpoint, CheckpointFreq. unfold is_u32 in *.
  destruct (Z.ltb_spec i 64); [checkpoint_tac|].
  destruct (Z.eq_dec i 4294967295) as [->|].
  { change (u32 (u32 (4294967295 + 1) / 64 * 64 - 1)) with 4294967295. checkpoint_tac. }
  rewrite (u32_small (i + 1)) by (unfold is_u32; lia).
  rewrite u32_small by (unfold is_u32; zlia). checkpoint_tac.
Qed.

Lemma NextCheckpoint_spec i :
  is_u32 i →
  checkpoint (NextCheckpoint i) ∧ i ≤ NextCheckpoint i ∧ ∀ c, checkpoint c → i ≤ c → NextCheckpoint i ≤ c.
Proof.
  intros Hi. unfold NextCheckpoint, checkpoint, CheckpointFreq. unfold is_u32 in *.
  destruct (Z.eqb_spec i 0) as [->|]; [checkpoint_tac|].
  destruct (Z.leb_spec 4294967295 ((i + 64) / 64 * 64 - 1)); checkpoint_tac.
Qed.

(** ** Ranges *)

(** A range of whole checkpoints. *)
Definition range_ok (r : Range) : Prop := checkpoint (Low r) ∧ checkpoint (High r) ∧ Low r ≤ High r.

Lemma MakeRange_ok low high : is_u32 low → is_u32 high → range_ok (MakeRange low high).
Proof.
  intros Hl Hh. unfold MakeRange, range_ok. simpl.
  set (h := if high <? low then low else high).
  assert (is_u32 h ∧ low ≤ h) as [Hu Hle] by (subst h; destruct (Z.ltb_spec high low); split; (done || lia)).
  destruct (PrevCheckpoint_spec low Hl) as (H1 & H2 & H3 & _).
  destruct (NextCheckpoint_spec h Hu) as (H4 & H5 & _). split_and!; [done..|].
  unfold checkpoint, is_u32 in *. destruct (Z_lt_le_dec low 63); [|lia]. rewrite H3 by done. zlia.
Qed.

Lemma checkpoints_loop_spec fuel i high :
  0 ≤ i → high < 2 ^ 32 → (high - i) / 64 + 1 < Z.of_nat fuel →
  checkpoints_loop fuel i high = (λ k, i + 64 * k) <$> seqZ 0 ((high - i) / 64 + 1).
Proof.
  revert i. induction fuel as [|fuel IH]; intros i Hi Hh Hf; cbn [checkpoints_loop].
  { rewrite seqZ_nil by lia. done. }
  destruct (Z.leb_spec i high).
  - rewrite u32_small by (unfold is_u32; lia). unfold CheckpointFreq. rewrite IH by zlia.
    rewrite (seqZ_cons 0 ((high - i) / 64 + 1)) by zlia. rewrite fmap_cons. f_equal; [lia|].
    rewrite <- (fmap_add_seqZ 1 0), <- list_fmap_compose.
    replace (Z.pred ((high - i) / 64 + 1)) with ((high - (i + 64)) / 64 + 1) by zlia.
    apply list_fmap_ext. intros ? x _. simpl. lia.
  - by rewrite seqZ_nil by zlia.
Qed.

Lemma Checkpoints_list r :
  range_ok r → Checkpoints r = (λ k, Low r + 64 * k) <$> seqZ 0 (Size r).
Proof.
  intros ([Hl1 Hl2] & [Hh1 Hh2] & Hle). unfold Checkpoints, Size, CheckpointFreq. unfold is_u32 in *.
  rewrite checkpoints_loop_spec by zlia. rewrite u32_small by (unfold is_u32; lia).
  do 2 f_equal. lia.
Qed.

(** ** Printed lists *)

(** The checkpoints a range stands for. *)
Definition expand (r : Range) : list Z :=
  (λ k, Low r + 64 * k) <$> seqZ 0 ((High r - Low r) / 64 + 1).

(** A run of consecutive checkpoints below the largest one. *)
Definition run_ok (r : Range) : Prop :=
  0 ≤ Low r ∧ High r < MaxUint32 - 63 ∧ Low r ≤ High r ∧ (High r - Low r) mod 64 = 0.

Lemma expand_single t : expand (MkRange t t) = [t].
Proof.
  unfold expand. cbn [Low High]. rewrite Z.sub_diag. change (0 / 64 + 1) with 1.
  change (seqZ 0 1) with [0]. cbn. f_equal. lia.
Qed.

Lemma expand_snoc low high :
  low ≤ high → (high - low) mod 64 = 0 →
  expand (MkRange low (high + 64)) = expand (MkRange low high) ++ [high + 64].
Proof.
  intros Hle Hm. unfold expand. cbn [Low High].
  replace ((high + 64 - low) / 64 + 1) with ((high - low) / 64 + 1 + 1) by zlia.
  rewrite (seqZ_app 0 ((high - low) / 64 + 1) 1) by zlia. rewrite fmap_app. f_equal.
  change (seqZ ?m 1) with [m]. cbn. f_equal. zlia.
Qed.

Lemma collapse_expand vs curr :
  Forall (λ t, 0 ≤ t < MaxUint32 - 63) vs → (∀ c, curr = Some c → run_ok c) →
  concat (expand <$> collapse curr vs) = match curr with Some c => expand c | None => [] end ++ vs.
Proof.
  intros Hvs. revert curr. induction Hvs as [|t vs Ht Hvs IH]; intros curr Hc; cbn [collapse].
  { destruct curr as [c|]; [|done]. cbn. by rewrite app_nil_r. }
  assert (∀ c, Some (MkRange t t) = Some c → run_ok c) as Hsingle.
  { intros c [= <-]. unfold run_ok; simpl. rewrite Z.sub_diag. split_and!; (done || lia). }
  destruct curr as [c|].
  - specialize (Hc c eq_refl). destruct c as [low high]. unfold run_ok in Hc; simpl in *.
    destruct Hc as (H1 & H2 & H3 & H4).
    rewrite u32_small by (unfold is_u32, CheckpointFreq, MaxUint32 in *; lia).
    unfold CheckpointFreq. destruct (Z.eqb_spec (high + 64) t) as [<-|].
    + rewrite IH; [|intros c [= <-]; unfold run_ok; simpl; split_and!; zlia].
      by rewrite expand_snoc, <- app_assoc.
    + cbn [fmap list_fmap concat]. rewrite IH by done. by rewrite expand_single.
  - rewrite IH by done. by rewrite expand_single.
Qed.

Lemma collapse_ok vs curr :
  Forall (λ t, 0 ≤ t < MaxUint32 - 63) vs → (∀ c, curr = Some c → run_ok c) →
  Forall run_ok (collapse curr vs).
Proof.
  intros Hvs. revert curr. induction Hvs as [|t vs Ht Hvs IH]; intros curr Hc; cbn [collapse].
  { destruct curr as [c|]; [|by constructor]. apply Forall_singleton. by apply Hc. }
  assert (∀ c, Some (MkRange t t) = Some c → run_ok c) as Hsingle.
  { intros c [= <-]. unfold run_ok; simpl. rewrite Z.sub_diag. split_and!; (done || lia). }
  destruct curr as [c|]; [|by apply IH].
  pose proof (Hc c eq_refl) as Hrun. destruct c as [low high]. unfold CheckpointFreq. simpl.
  destruct (Z.eqb_spec (u32 (high + 64)) t) as [E|]; [|by constructor; [|apply IH]].
  apply IH. intros c [= <-]. unfold run_ok in *. simpl in *.
  rewrite u32_small in E by (unfold is_u32, MaxUint32 in *; lia). split_and!; zlia.
Qed.

(** Neighbouring ranges of the list could not be merged. *)
Lemma collapse_maximal vs curr r1 r2 pre post :
  collapse curr vs = pre ++ r1 :: r2 :: post → u32 (High r1 + 64) ≠ Low r2.
Proof.
  revert curr pre. induction vs as [|t vs IH]; intros curr pre; cbn [collapse].
  { destruct curr; [|by destruct pre]. by destruct pre as [|? [|? ?]]. }
  destruct curr as [c|]; [|by apply IH]. unfold CheckpointFreq.
  destruct (Z.eqb_spec (u32 (High c + 64)) t) as [|Hne]; [by apply IH|].
  destruct pre as [|r pre]; simpl; intros [= -> E]; [|by eapply IH].
  assert (∀ c' vs', Low c' = t → ∀ r2 post, collapse (Some c') vs' = r2 :: post → Low r2 = t) as Hlow.
  { clear. intros c' vs'. revert c'. induction vs' as [|t' vs' IH]; intros c' Hc' r2 post; cbn [collapse].
    - by intros [= <- _].
    - destruct (_ =? t'); [by apply IH|]. by intros [= <- _]. }
  by rewrite (Hlow (MkRange t t) vs eq_refl _ _ E).
Qed.

(** ** Properties *)

(** for 32-bit sequences, [IsCheckpoint] decides the checkpoints,
    [PrevCheckpoint] is the largest checkpoint not above its argument (or the
    first one), [NextCheckpoint] the smallest not below it; the largest 32-bit
    sequence, where the increment wraps around, included. *)
Theorem checkpoints_exact i :
  is_u32 i →
  (IsCheckpoint i = true ↔ checkpoint i) ∧
  checkpoint (PrevCheckpoint i) ∧ (63 ≤ i → PrevCheckpoint i ≤ i) ∧ (i < 63 → PrevCheckpoint i = 63) ∧
  (∀ c, checkpoint c → c ≤ i → c ≤ PrevCheckpoint i) ∧
  checkpoint (NextCheckpoint i) ∧ i ≤ NextCheckpoint i ∧
  (∀ c, checkpoint c → i ≤ c → NextCheckpoint i ≤ c).
Proof.
  intros Hi. destruct (PrevCheckpoint_spec i Hi) as (?&?&?&?), (NextCheckpoint_spec i Hi) as (?&?&?).
  split_and!; try done; by apply IsCheckpoint_iff.
Qed.

Theorem checkpoints_exact_witness :
  (IsCheckpoint 100 = true ↔ checkpoint 100) ∧
  checkpoint (PrevCheckpoint 100) ∧ (63 ≤ 100 → PrevCheckpoint 100 ≤ 100) ∧
  (100 < 63 → PrevCheckpoint 100 = 63) ∧
  (∀ c, checkpoint c → c ≤ 100 → c ≤ PrevCheckpoint 100) ∧
  checkpoint (NextCheckpoint 100) ∧ 100 ≤ NextCheckpoint 100 ∧
  (∀ c, checkpoint c → 100 ≤ c → NextCheckpoint 100 ≤ c).
Proof. apply checkpoints_exact. unfold is_u32. lia. Defined.

(** the loop of [Checkpoints] ends and delivers every checkpoint of a range
    made by [MakeRange] or [clamp] once, in order; [Size] is their number. *)
Theorem Checkpoints_exact low high :
  is_u32 low → is_u32 high →
  let r := MakeRange low high in
  StronglySorted Z.lt (Checkpoints r) ∧ Z.of_nat (length (Checkpoints r)) = Size r ∧
  ∀ c, c ∈ Checkpoints r ↔ checkpoint c ∧ Low r ≤ c ≤ High r.
Proof.
  intros Hl Hh r. pose proof (MakeRange_ok low high Hl Hh) as Hr. fold r in Hr.
  rewrite (Checkpoints_list r Hr). destruct Hr as ([Hl1 Hl2] & [Hh1 Hh2] & Hle).
  assert (Size r = (High r - Low r) / 64 + 1) as Hs.
  { unfold Size. rewrite u32_small by (unfold is_u32 in *; lia). unfold CheckpointFreq. lia. }
  split_and!.
  - apply StronglySorted_fmap with (R1 := Z.lt); [intros; lia|]. apply seqZ_sorted.
  - rewrite length_fmap, length_seqZ. rewrite Hs. zlia.
  - intros c. rewrite list_elem_of_fmap. setoid_rewrite elem_of_seqZ. unfold checkpoint, is_u32 in *. split.
    + intros (k & -> & Hk). rewrite Hs in Hk. zlia.
    + intros ([Hc1 Hc2] & Hc). exists ((c - Low r) / 64). rewrite Hs. zlia.
Qed.

Theorem Checkpoints_exact_witness :
  let r := MakeRange 100 500 in
  StronglySorted Z.lt (Checkpoints r) ∧ Z.of_nat (length (Checkpoints r)) = Size r ∧
  ∀ c, c ∈ Checkpoints r ↔ checkpoint c ∧ Low r ≤ c ≤ High r.
Proof. apply Checkpoints_exact; unfold is_u32; lia. Defined.

(** the ranges that [fmtRangeList] prints stand for exactly the given
    checkpoints, in increasing order, and no two neighbouring ranges could have
    been printed as one. *)
Theorem fmtRangeList_collapses vs :
  Forall (λ t, 0 ≤ t < MaxUint32 - 63) vs →
  let ranges := collapse None (sort_by Z.ltb vs) in
  fmtRangeList vs = join_comma (collapsedString <$> ranges) ∧
  concat (expand <$> ranges) ≡ₚ vs ∧
  StronglySorted Z.le (concat (expand <$> ranges)) ∧
  ∀ pre r1 r2 post, ranges = pre ++ r1 :: r2 :: post → High r1 + 64 ≠ Low r2.
Proof.
  intros Hvs ranges. subst ranges.
  assert (Forall (λ t, 0 ≤ t < MaxUint32 - 63) (sort_by Z.ltb vs)) as Hs by by rewrite sort_by_perm.
  rewrite collapse_expand by done. split_and!; [done|apply sort_by_perm| |].
  - cbn [app]. assert (StronglySorted (λ x y, (y <? x) = false) (sort_by Z.ltb vs)) as Hsort.
    { apply (sort_by_sorts Z.ltb vs); intros; lia. }
    induction Hsort as [|x l _ IH Hx]; constructor; [apply IH; by apply Forall_cons in Hs as [_ ?]|].
    eapply Forall_impl; [exact Hx|]. intros y Hy. simpl in Hy. lia.
  - intros pre r1 r2 post E. pose proof (collapse_maximal _ _ _ _ _ _ E) as Hne.
    assert (Forall run_ok (collapse None (sort_by Z.ltb vs))) as Hok by by apply collapse_ok.
    rewrite E in Hok. apply Forall_app in Hok as [_ [Hr1 _]%Forall_cons]. unfold run_ok in Hr1.
    rewrite u32_small in Hne by (unfold is_u32, MaxUint32 in *; lia). done.
Qed.

Theorem fmtRangeList_collapses_witness :
  let ranges := collapse None (sort_by Z.ltb [191; 63; 127; 447]) in
  fmtRangeList [191; 63; 127; 447] = join_comma (collapsedString <$> ranges) ∧
  concat (expand <$> ranges) ≡ₚ [191; 63; 127; 447] ∧
  StronglySorted Z.le (concat (expand <$> ranges)) ∧
  ∀ pre r1 r2 post, ranges = pre ++ r1 :: r2 :: post → High r1 + 64 ≠ Low r2.
Proof.
  apply fmtRangeList_collapses. by apply (bool_decide_unpack _).
Defined.

Example fmtRangeList_example :
  fmtRangeList [191; 63; 127; 447] = str "[0x0000003f-0x000000bf], 0x000001bf".
Proof. by vm_compute. Qed.
