(* ===== verification/ChangeCache.v ===== *)
(** * ingest/io: changes of ledger entries and the cache that squashes them

    Models [src/ingest/io/change.go] and [ledger_entry_change_cache.go].  The
    generated marshaller, and the base64 text of its output, are parameters.
    Pointers to entries are options; the entries are never modified through
    them. *)

From S2P Require Import Prelude Strkey Xdr LedgerEntry.

(** The arms of [xdr.LedgerEntryChange] *)
Inductive LedgerEntryChange :=
  | LedgerEntryCreated (created : LedgerEntry)
  | LedgerEntryUpdated (updated : LedgerEntry)
  | LedgerEntryRemoved (removed : LedgerKey)
  | LedgerEntryState (state : LedgerEntry).

Record Change := MkChange {
  Change_Type : LedgerEntryType; Pre : option LedgerEntry; Post : option LedgerEntry }.

Inductive LedgerEntryChangeType := ChangeCreated | ChangeUpdated | ChangeRemoved.

Inductive change_error :=
  | ErrMarshal
  | ErrUnknownState
  | ErrXdr (e : xdr_error)
  | ErrCreateExisting (ledgerKeyString : gostring)
  | ErrUpdateRemoved (ledgerKeyString : gostring)
  | ErrRemoveRemoved (ledgerKeyString : gostring).

(** ** change.go *)

(** [ledgerEntryChanges[i-1].MustState()]: panics on the first element and on
    another arm. *)
Definition must_state (i : nat) (ledgerEntryChanges : list LedgerEntryChange)
  : outcome change_error LedgerEntry :=
  match i with
  | O => Panic
  | S j => match ledgerEntryChanges !! j with
           | Some (LedgerEntryState state) => Ret state
           | _ => Panic
           end
  end.

Fixpoint changes_loop (ledgerEntryChanges : list LedgerEntryChange) (i : nat)
    (rest : list LedgerEntryChange) (changes : list Change) : outcome change_error (list Change) :=
  match rest with
  | [] => Ret changes
  | entryChange :: rest' =>
      changes ←
        match entryChange with
        | LedgerEntryCreated created =>
            Ret (changes ++ [MkChange (data_type (Data created)) None (Some created)])
        | LedgerEntryUpdated updated =>
            state ← must_state i ledgerEntryChanges;
            Ret (changes ++ [MkChange (data_type (Data state)) (Some state) (Some updated)])
        | LedgerEntryRemoved _ =>
            state ← must_state i ledgerEntryChanges;
            Ret (changes ++ [MkChange (data_type (Data state)) (Some state) None])
        | LedgerEntryState _ => Ret changes
        end;
      changes_loop ledgerEntryChanges (S i) rest' changes
  end.
Definition GetChangesFromLedgerEntryChanges (ledgerEntryChanges : list LedgerEntryChange)
  : outcome change_error (list Change) := changes_loop ledgerEntryChanges 0 ledgerEntryChanges [].

Definition LedgerEntryChangeType_of (c : Change) : outcome change_error LedgerEntryChangeType :=
  match Pre c, Post c with
  | None, Some _ => Ret ChangeCreated
  | Some _, None => Ret ChangeRemoved
  | Some _, Some _ => Ret ChangeUpdated
  | None, None => Panic
  end.

Definition account_of (e : LedgerEntry) : outcome change_error AccountEntry :=
  match Data e with DataAccount a => Ret a | _ => Panic end.

(** The account with no signers and with the first extension. *)
Definition without_signers (a : AccountEntry) : AccountEntry :=
  MkAccount (Account_AccountId a) (Account_Balance a) (Account_SeqNum a) (Account_NumSubEntries a)
    (Account_InflationDest a) (Account_Flags a) (Account_HomeDomain a) (Account_Thresholds a) []
    (match Account_Ext a with
     | None => Some (MkAccountV1 no_liabilities None)
     | Some v1 => Some v1
     end).

Section marshal.
Context (AccountEntry_MarshalBinary : AccountEntry → option (list Z)).

Definition AccountChangedExceptSigners (c : Change) : outcome change_error bool :=
  if negb (bool_decide (Change_Type c = TypeAccount)) then Panic else
  match Pre c, Post c with
  | None, _ => Ret true
  | _, None => Ret true
  | Some pre, Some post =>
      if negb (LastModifiedLedgerSeq pre =? LastModifiedLedgerSeq post) then Ret true else
      preAccountEntry ← account_of pre;
      postAccountEntry ← account_of post;
      match AccountEntry_MarshalBinary (without_signers preAccountEntry) with
      | None => Fail ErrMarshal
      | Some preBinary =>
          match AccountEntry_MarshalBinary (without_signers postAccountEntry) with
          | None => Fail ErrMarshal
          | Some postBinary => Ret (negb (bool_decide (preBinary = postBinary)))
          end
      end
  end.
End marshal.

(** Whether the sponsors at one position differ. *)
Definition sponsor_changed (preSponsor postSponsor : option AccountId) : outcome change_error bool :=
  match preSponsor, postSponsor with
  | None, Some _ => Ret true
  | Some _, None => Ret true
  | Some pre, Some post =>
      preSponsorAddress ← map_fail ErrXdr (AccountId_Address (Some pre));
      postSponsorAddress ← map_fail ErrXdr (AccountId_Address (Some post));
      Ret (negb (bool_decide (preSponsorAddress = postSponsorAddress)))
  | None, None => Ret false
  end.
Fixpoint sponsors_changed (pre post : list (option AccountId)) : outcome change_error bool :=
  match pre, post with
  | preSponsor :: pre', postSponsor :: post' =>
      changed ← sponsor_changed preSponsor postSponsor;
      if changed : bool then Ret true else sponsors_changed pre' post'
  | _, _ => Ret false
  end.

(** [for postSigner, postWeight := range postSigners]: whether some iteration
    returns does not depend on their order. *)
Definition weights_changed (preSigners postSigners : gmap gostring Z) : bool :=
  existsb (λ '(postSigner, postWeight),
    match preSigners !! postSigner with
    | None => true
    | Some preWeight => negb (preWeight =? postWeight)
    end) (map_to_list postSigners).

Definition AccountSignersChanged (c : Change) : outcome change_error bool :=
  if negb (bool_decide (Change_Type c = TypeAccount)) then Panic else
  match Pre c, Post c with
  | None, _ => Ret true
  | _, None => Ret true
  | Some pre, Some post =>
      preAccountEntry ← account_of pre;
      postAccountEntry ← account_of post;
      preSigners ← map_fail ErrXdr (SignerSummary preAccountEntry);
      postSigners ← map_fail ErrXdr (SignerSummary postAccountEntry);
      if negb (size preSigners =? size postSigners)%nat then Ret true else
      if weights_changed preSigners postSigners then Ret true else
      let preSignerSponsors := SignerSponsoringIDs preAccountEntry in
      let postSignerSponsors := SignerSponsoringIDs postAccountEntry in
      if negb (length preSignerSponsors =? length postSignerSponsors)%nat then Ret true else
      sponsors_changed preSignerSponsors postSignerSponsors
  end.

(** ** ledger_entry_change_cache.go *)

Abbreviation LedgerEntryChangeCache := (gmap gostring Change).
Definition NewLedgerEntryChangeCache : LedgerEntryChangeCache := ∅.

Section cache.
(** [LedgerKey.MarshalBinaryBase64]; [None] is an error. *)
Context (MarshalBinaryBase64 : LedgerKey → option gostring).

Definition key_string (e : LedgerEntry) : outcome change_error gostring :=
  match MarshalBinaryBase64 (LedgerEntry_LedgerKey e) with
  | None => Fail ErrMarshal
  | Some s => Ret s
  end.

Definition addCreatedChange (cache : LedgerEntryChangeCache) (change : Change) (post : LedgerEntry)
  : outcome change_error LedgerEntryChangeCache :=
  ledgerKeyString ← key_string post;
  match cache !! ledgerKeyString with
  | None => Ret (<[ledgerKeyString := change]> cache)
  | Some existingChange =>
      type ← LedgerEntryChangeType_of existingChange;
      match type with
      | ChangeCreated => Fail (ErrCreateExisting ledgerKeyString)
      | ChangeUpdated => Fail (ErrCreateExisting ledgerKeyString)
      | ChangeRemoved =>
          Ret (<[ledgerKeyString :=
            MkChange (key_type (LedgerEntry_LedgerKey post)) (Pre existingChange) (Post change)]> cache)
      end
  end.

Definition addUpdatedChange (cache : LedgerEntryChangeCache) (change : Change) (post : LedgerEntry)
  : outcome change_error LedgerEntryChangeCache :=
  ledgerKeyString ← key_string post;
  match cache !! ledgerKeyString with
  | None => Ret (<[ledgerKeyString := change]> cache)
  | Some existingChange =>
      type ← LedgerEntryChangeType_of existingChange;
      match type with
      | ChangeCreated | ChangeUpdated =>
          Ret (<[ledgerKeyString :=
            MkChange (key_type (LedgerEntry_LedgerKey post)) (Pre existingChange) (Post change)]> cache)
      | ChangeRemoved => Fail (ErrUpdateRemoved ledgerKeyString)
      end
  end.

Definition addRemovedChange (cache : LedgerEntryChangeCache) (change : Change) (pre : LedgerEntry)
  : outcome change_error LedgerEntryChangeCache :=
  ledgerKeyString ← key_string pre;
  match cache !! ledgerKeyString with
  | None => Ret (<[ledgerKeyString := change]> cache)
  | Some existingChange =>
      type ← LedgerEntryChangeType_of existingChange;
      match type with
      | ChangeCreated => Ret (delete ledgerKeyString cache)
      | ChangeUpdated =>
          Ret (<[ledgerKeyString :=
            MkChange (key_type (LedgerEntry_LedgerKey pre)) (Pre existingChange) None]> cache)
      | ChangeRemoved => Fail (ErrRemoveRemoved ledgerKeyString)
      end
  end.

Definition AddChange (cache : LedgerEntryChangeCache) (change : Change)
  : outcome change_error LedgerEntryChangeCache :=
  match Pre change, Post change with
  | None, Some post => addCreatedChange cache change post
  | Some _, Some post => addUpdatedChange cache change post
  | Some pre, None => addRemovedChange cache change pre
  | None, None => Fail ErrUnknownState
  end.

(** [iterate] is the order in which the map is ranged over. *)
Definition GetChanges (iterate : gmap gostring Change → list (gostring * Change))
    (cache : LedgerEntryChangeCache) : list Change := (iterate cache).*2.
Definition Size (cache : LedgerEntryChangeCache) : nat := size cache.

(** Adding the changes of a ledger in order. *)
Definition AddChanges (changes : list Change) : outcome change_error LedgerEntryChangeCache :=
  mfold AddChange NewLedgerEntryChangeCache changes.

(** ** What the changes of a ledger do to a database

    The rows of the entries, by the text of their keys.  Creating an entry
    needs it to be absent, updating and removing it need it to be there. *)
Definition change_key (c : Change) : option gostring :=
  match Post c, Pre c with
  | Some post, _ => MarshalBinaryBase64 (LedgerEntry_LedgerKey post)
  | None, Some pre => MarshalBinaryBase64 (LedgerEntry_LedgerKey pre)
  | None, None => None
  end.

(** An update does not change the key of its entry. *)
Definition change_ok (c : Change) : Prop :=
  match Pre c, Post c with
  | Some pre, Some post => LedgerEntry_LedgerKey pre = LedgerEntry_LedgerKey post
  | _, _ => True
  end.

Abbreviation rows := (gmap gostring LedgerEntry).

Definition apply_change (s : rows) (c : Change) : option rows :=
  k ← change_key c;
  if decide (is_Some (Pre c) ↔ is_Some (s !! k))
  then Some (match Post c with Some e => <[k := e]> s | None => delete k s end)
  else None.

Fixpoint apply_changes (s : rows) (cs : list Change) : option rows :=
  match cs with
  | [] => Some s
  | c :: cs' => s' ← apply_change s c; apply_changes s' cs'
  end.

(** The cache holds, for every entry whose row may differ, the row before
    and after. *)
Definition squashed (s0 s : rows) (k : gostring) (c : Change) : Prop :=
  (is_Some (Pre c) ↔ is_Some (s0 !! k)) ∧ Post c = s !! k ∧ (Pre c = None → Post c ≠ None) ∧
  ∀ e, Pre c = Some e ∨ Post c = Some e → MarshalBinaryBase64 (LedgerEntry_LedgerKey e) = Some k.
Definition caches (s0 s : rows) (cache : LedgerEntryChangeCache) : Prop :=
  ∀ k, match cache !! k with
       | None => s !! k = s0 !! k
       | Some c => squashed s0 s k c
       end.

Lemma apply_change_inv s c s' :
  apply_change s c = Some s' →
  ∃ k, change_key c = Some k ∧ (is_Some (Pre c) ↔ is_Some (s !! k)) ∧
    s' !! k = Post c ∧ ∀ k', k' ≠ k → s' !! k' = s !! k'.
Proof.
  unfold apply_change. destruct (change_key c) as [k|]; [|done]. simpl.
  case_decide as H; [|done]. intros [= <-]. exists k. split_and!; [done..| |].
  - destruct (Post c); [by rewrite lookup_insert_eq|by rewrite lookup_delete_eq].
  - intros k' Hk. destruct (Post c); [by rewrite lookup_insert_ne|by rewrite lookup_delete_ne].
Qed.

(** The new cached change, if any, and the caches relation after one change. *)
Lemma caches_insert s0 s s' cache k c :
  caches s0 s cache → (∀ k', k' ≠ k → s' !! k' = s !! k') → squashed s0 s' k c →
  caches s0 s' (<[k := c]> cache).
Proof.
  intros Hc Hs Hk k'. destruct (decide (k' = k)) as [->|Hne]; [by rewrite lookup_insert_eq|].
  rewrite lookup_insert_ne by done. specialize (Hc k'). unfold squashed in *.
  destruct (cache !! k'); by rewrite Hs.
Qed.

Lemma caches_delete s0 s s' cache k :
  caches s0 s cache → (∀ k', k' ≠ k → s' !! k' = s !! k') → s' !! k = s0 !! k →
  caches s0 s' (delete k cache).
Proof.
  intros Hc Hs Hk k'. destruct (decide (k' = k)) as [->|Hne]; [by rewrite lookup_delete_eq|].
  rewrite lookup_delete_ne by done. specialize (Hc k'). unfold squashed in *.
  destruct (cache !! k'); by rewrite Hs.
Qed.

Lemma key_string_Ret e k : MarshalBinaryBase64 (LedgerEntry_LedgerKey e) = Some k → key_string e = Ret k.
Proof. unfold key_string. by intros ->. Qed.

Lemma AddChange_caches s0 s s' cache c :
  caches s0 s cache → change_ok c → apply_change s c = Some s' →
  ∃ cache', AddChange cache c = Ret cache' ∧ caches s0 s' cache'.
Proof.
  intros Hc Hok (k & Hk & Hpre & Hpost & Hs)%apply_change_inv.
  pose proof (Hc k) as Hck. destruct c as [ty [pre|] [post|]];
    unfold change_key, change_ok, AddChange, addCreatedChange, addUpdatedChange, addRemovedChange in *;
    simpl in *; [..|done];
    rewrite (key_string_Ret _ k) by done; outcome_simpl; cbn [outcome_bind];
    (destruct (cache !! k) as [[ty' [pre'|] [post'|]]|] eqn:E;
      [destruct Hck as (H1 & H2 & H3 & H4); unfold change_key, change_ok in *; simpl in *..|]);
    cbn [LedgerEntryChangeType_of Pre Post outcome_bind];
    try (exfalso; rewrite <- ?H2, <- ?Hck in *; destruct Hpre as [Hp1 Hp2];
         first [by destruct Hp1 | by destruct Hp2 | by destruct H3]);
    eexists; (split; [done|]);
    first [apply (caches_delete s0 s); [done|done|] | apply (caches_insert s0 s); [done|done|]].
  all: try (unfold squashed; simpl; rewrite ?Hpost, <- ?Hck; split_and!; [done|done|done|];
    intros e [He|He]; simplify_eq; first [congruence|naive_solver]).
  rewrite Hpost. destruct (s0 !! k); [|done]. destruct H1 as [_ H1]. by destruct H1.
Qed.

Lemma AddChanges_caches s0 s s' cache cs :
  caches s0 s cache → Forall change_ok cs → apply_changes s cs = Some s' →
  ∃ cache', mfold AddChange cache cs = Ret cache' ∧ caches s0 s' cache'.
Proof.
  revert s cache. induction cs as [|c cs IH]; intros s cache Hc Hok Hs; simpl in *.
  { injection Hs as <-. by exists cache. }
  apply Forall_cons in Hok as [Hok1 Hok]. destruct (apply_change s c) as [s1|] eqn:E; [|done].
  destruct (AddChange_caches _ _ _ _ _ Hc Hok1 E) as (cache1 & -> & Hc1). simpl. by eapply IH.
Qed.

(** Applying changes of distinct entries, in any order. *)
Lemma apply_distinct l s :
  NoDup l.*1 →
  (∀ k c, (k, c) ∈ l → change_key c = Some k ∧ (is_Some (Pre c) ↔ is_Some (s !! k))) →
  ∃ s', apply_changes s l.*2 = Some s' ∧
    (∀ k c, (k, c) ∈ l → s' !! k = Post c) ∧ (∀ k, k ∉ l.*1 → s' !! k = s !! k).
Proof.
  revert s. induction l as [|[k c] l IH]; intros s Hn Hl; simpl.
  { exists s. split; [done|]. split; [by intros ?? ?%not_elem_of_nil|done]. }
  simpl in Hn. apply NoDup_cons in Hn as [Hk Hn].
  destruct (Hl k c ltac:(by left)) as [Hck Hpre]. unfold apply_change at 1. rewrite Hck. simpl.
  rewrite decide_True by done. simpl.
  set (s1 := match Post c with Some e => <[k := e]> s | None => delete k s end).
  assert (s1 !! k = Post c ∧ ∀ k', k' ≠ k → s1 !! k' = s !! k') as [Hs1 Hs1'].
  { subst s1. destruct (Post c); split; [by rewrite lookup_insert_eq| |by rewrite lookup_delete_eq|];
      intros; [by rewrite lookup_insert_ne|by rewrite lookup_delete_ne]. }
  destruct (IH s1) as (s' & Hs' & Hin & Hout); [done| |].
  { intros k' c' Hin. rewrite Hs1'; [apply Hl; by right|]. intros ->.
    apply Hk. by apply (list_elem_of_fmap_2 fst) in Hin. }
  exists s'. split; [done|]. split.
  - intros k' c' [[= -> ->]|Hin']%elem_of_cons; [|by apply Hin]. by rewrite Hout.
  - intros k' [Hne Hk']%not_elem_of_cons. by rewrite Hout, Hs1'.
Qed.

Lemma squash_spec iterate s0 s cs :
  (∀ m, iterate m ≡ₚ map_to_list m) → Forall change_ok cs → apply_changes s0 cs = Some s →
  ∃ cache, AddChanges cs = Ret cache ∧ apply_changes s0 (GetChanges iterate cache) = Some s ∧
    ∀ k c, cache !! k = Some c → Post c = s !! k ∧ (is_Some (Pre c) ↔ is_Some (s0 !! k)).
Proof.
  intros Hit Hok Hs.
  destruct (AddChanges_caches s0 s0 s ∅ cs) as (cache & Hc & Hcaches); [|done|done|].
  { intros k. by rewrite lookup_empty. }
  exists cache. split; [done|].
  assert (∀ k c, (k, c) ∈ iterate cache ↔ cache !! k = Some c) as Hin.
  { intros k c. rewrite Hit. apply elem_of_map_to_list. }
  split.
  - destruct (apply_distinct (iterate cache) s0) as (s' & Hs' & Hpost & Hout).
    + rewrite Hit. apply NoDup_fst_map_to_list.
    + intros k c Hkc%Hin. specialize (Hcaches k). rewrite Hkc in Hcaches.
      destruct Hcaches as (H1 & H2 & H3 & H4). split; [|done].
      unfold change_key. destruct (Post c) as [e|] eqn:E; [by apply H4; right|].
      destruct (Pre c) as [e|]; [by apply H4; left|]. by destruct H3.
    + unfold GetChanges. rewrite Hs'. f_equal. apply map_eq. intros k. specialize (Hcaches k).
      destruct (cache !! k) as [c|] eqn:E.
      * destruct Hcaches as (_ & <- & _). by apply Hpost, Hin.
      * rewrite Hout; [done|]. rewrite list_elem_of_fmap. intros ([k' c] & -> & Hkc%Hin). simpl in E. congruence.
  - intros k c Hkc. specialize (Hcaches k). rewrite Hkc in Hcaches. by destruct Hcaches as (? & ? & _).
Qed.
End cache.

(** ** The meta of a ledger *)

(** How hcnet-core writes a change: an update or a removal after the state. *)
Definition meta_of (c : Change) : list LedgerEntryChange :=
  match Pre c, Post c with
  | None, Some post => [LedgerEntryCreated post]
  | Some pre, Some post => [LedgerEntryState pre; LedgerEntryUpdated post]
  | Some pre, None => [LedgerEntryState pre; LedgerEntryRemoved (LedgerEntry_LedgerKey pre)]
  | None, None => []
  end.
Definition typed (c : Change) : Prop :=
  match Pre c, Post c with
  | Some e, _ | None, Some e => Change_Type c = data_type (Data e)
  | None, None => False
  end.

Lemma changes_loop_meta before cs acc :
  Forall typed cs →
  changes_loop (before ++ concat (meta_of <$> cs)) (length before) (concat (meta_of <$> cs)) acc = Ret (acc ++ cs).
Proof.
  intros Hcs. revert before acc. induction Hcs as [|c cs Hc Hcs IH]; intros before acc; simpl.
  { by rewrite app_nil_r. }
  specialize (IH (before ++ meta_of c) (acc ++ [c])). rewrite <- !app_assoc in IH. simpl in IH.
  rewrite length_app in IH.
  destruct c as [ty [pre|] [post|]]; unfold meta_of, typed in *; simpl in *; try done; subst ty;
    rewrite ?list_lookup_middle by done; outcome_simpl;
    rewrite <- IH; f_equal; lia.
Qed.

(** ** Signers *)

Lemma weights_changed_false pre post :
  size pre = size post → weights_changed pre post = false ↔ pre = post.
Proof.
  intros Hs. split.
  - intros Hw. symmetry. apply map_subseteq_size_eq; [|lia]. apply map_subseteq_spec. intros k w Hk.
    unfold weights_changed in Hw. apply not_true_iff_false in Hw. rewrite existsb_exists in Hw.
    destruct (pre !! k) as [w'|] eqn:E.
    + destruct (Z.eqb_spec w' w) as [->|Hne]; [done|]. destruct Hw. exists (k, w).
      split; [by apply list_elem_of_In, elem_of_map_to_list|]. rewrite E. lia.
    + destruct Hw. exists (k, w). split; [by apply list_elem_of_In, elem_of_map_to_list|]. by rewrite E.
  - intros ->. apply not_true_iff_false. unfold weights_changed. rewrite existsb_exists.
    intros ([k w] & Hk%list_elem_of_In%elem_of_map_to_list & H). rewrite Hk, Z.eqb_refl in H. done.
Qed.

Lemma sponsors_changed_false pre post :
  length pre = length post → Forall (λ o, ∀ a, o = Some a → wf_account a) (pre ++ post) →
  ∃ b, sponsors_changed pre post = Ret b ∧ (b = false ↔ pre = post).
Proof.
  revert post. induction pre as [|o pre IH]; intros [|o' post] Hl Hw; simpl in *; try done.
  { by exists false. }
  apply Forall_cons in Hw as [Ho Hw]. apply Forall_app in Hw as [Hw1 Hw2].
  apply Forall_cons in Hw2 as [Ho' Hw2].
  destruct (IH post) as (b & -> & Hb); [lia|by apply Forall_app|].
  destruct o as [a|], o' as [a'|]; simpl; rewrite ?Address_total; outcome_simpl; cbn [map_fail outcome_bind].
  - case_bool_decide as E; simpl.
    + apply address_inj in E as ->; [|by apply Ho|by apply Ho']. exists b. split; [done|].
      rewrite Hb. naive_solver.
    + exists true. split; [done|]. split; [done|]. intros [= -> ->]. done.
  - exists true. by split.
  - exists true. by split.
  - exists b. split; [done|]. rewrite Hb. naive_solver.
Qed.

(** The weights that [SignerSummary] collects. *)
Definition signer_weights (account : AccountEntry) : gmap gostring Z :=
  foldl (λ ret signer, <[ signer_string (Key signer) := i32 (Weight signer) ]> ret)
    (if 0 <? MasterKeyWeight (Account_Thresholds account)
     then {[ address (Account_AccountId account) := th_master (Account_Thresholds account) ]} else ∅)
    (Signers account).

Lemma SignerSummary_total account : SignerSummary account = Ret (signer_weights account).
Proof.
  unfold SignerSummary, signer_weights. rewrite Address_total.
  destruct (0 <? _); outcome_simpl;
    (match goal with |- mfold _ ?m _ = Ret (foldl _ ?m _) => generalize m end);
    (induction (Signers account) as [|s l IH]; intros m; simpl; [done|]);
    rewrite SignerKey_Address_total; outcome_simpl; apply IH.
Qed.

Lemma signers_changed_spec ty pre post a b :
  ty = TypeAccount → Data pre = DataAccount a → Data post = DataAccount b →
  Forall (λ o, ∀ x, o = Some x → wf_account x) (SignerSponsoringIDs a ++ SignerSponsoringIDs b) →
  ∃ changed, AccountSignersChanged (MkChange ty (Some pre) (Some post)) = Ret changed ∧
    (changed = false ↔ signer_weights a = signer_weights b ∧ SignerSponsoringIDs a = SignerSponsoringIDs b).
Proof.
  intros -> Ha Hb Hw. unfold AccountSignersChanged. simpl. unfold account_of. rewrite Ha, Hb.
  outcome_simpl. rewrite !SignerSummary_total. cbn [map_fail outcome_bind].
  destruct (Nat.eqb_spec (size (signer_weights a)) (size (signer_weights b))) as [Hs|Hs]; simpl.
  2:{ exists true. split; [done|]. split; [done|]. intros [E _]. by rewrite E in Hs. }
  destruct (weights_changed _ _) eqn:E.
  { exists true. split; [done|]. split; [done|]. intros [Hab _].
    apply (weights_changed_false _ _ Hs) in Hab. congruence. }
  apply weights_changed_false in E; [|done].
  destruct (Nat.eqb_spec (length (SignerSponsoringIDs a)) (length (SignerSponsoringIDs b))) as [Hl|Hl]; simpl.
  - destruct (sponsors_changed_false _ _ Hl Hw) as (c & -> & Hc). exists c. split; [done|]. rewrite Hc. tauto.
  - exists true. split; [done|]. split; [done|]. intros [_ E']. by rewrite E' in Hl.
Qed.

(** ** Properties *)

(** C30: when the changes of a ledger can be applied to the database one after
    the other, the cache accepts them all, and applying the changes it returns,
    in whatever order, leaves the database in the same state; each returned
    change creates, updates or removes according to the row before the ledger,
    and carries the row after it. *)
Theorem AddChange_squashes MarshalBinaryBase64 iterate s0 s cs :
  (∀ m, iterate m ≡ₚ map_to_list m) → Forall change_ok cs →
  apply_changes MarshalBinaryBase64 s0 cs = Some s →
  ∃ cache, AddChanges MarshalBinaryBase64 cs = Ret cache ∧
    apply_changes MarshalBinaryBase64 s0 (GetChanges iterate cache) = Some s ∧
    ∀ k c, cache !! k = Some c → Post c = s !! k ∧ (is_Some (Pre c) ↔ is_Some (s0 !! k)).
Proof. apply squash_spec. Qed.

Definition key_example (k : LedgerKey) : option gostring := Some (LedgerKey_MarshalBinaryCompress k).
Definition entry_example (v : Z) : LedgerEntry :=
  MkEntry 7 (DataData (MkData (MkAccountId (replicate 32 1)) (str "name") [v])) None.
Definition rows_example : gmap gostring LedgerEntry :=
  {[ LedgerKey_MarshalBinaryCompress (LedgerEntry_LedgerKey (entry_example 2)) := entry_example 2 ]}.
Definition changes_example : list Change :=
  [MkChange TypeData None (Some (entry_example 1));
   MkChange TypeData (Some (entry_example 1)) (Some (entry_example 2))].

Theorem AddChange_squashes_witness :
  ∃ cache, AddChanges key_example changes_example = Ret cache ∧
    apply_changes key_example ∅ (GetChanges map_to_list cache) =
      Some rows_example ∧
    ∀ k c, cache !! k = Some c →
      Post c = rows_example !! k ∧
      (is_Some (Pre c) ↔ is_Some ((∅ : gmap gostring LedgerEntry) !! k)).
Proof.
  apply AddChange_squashes.
  - done.
  - by repeat (apply Forall_cons; split).
  - vm_compute. reflexivity.
Defined.

(** The cache forgets an entry that is created and removed, so it accepts a
    second removal of it, which no database does. *)
Example created_removed_forgotten :
  let cs := [MkChange TypeData None (Some (entry_example 1));
             MkChange TypeData (Some (entry_example 1)) None;
             MkChange TypeData (Some (entry_example 1)) None] in
  (∃ cache, AddChanges key_example cs = Ret cache) ∧
  apply_changes key_example ∅ cs = None.
Proof. split; [by eexists|by vm_compute]. Qed.

(** the changes that hcnet-core writes in the meta of a ledger, an update
    or a removal after the state of its entry, are read back. *)
Theorem GetChanges_meta cs :
  Forall typed cs → GetChangesFromLedgerEntryChanges (concat (meta_of <$> cs)) = Ret cs.
Proof. apply (changes_loop_meta [] cs []). Qed.

Theorem GetChanges_meta_witness :
  GetChangesFromLedgerEntryChanges (concat (meta_of <$> changes_example)) = Ret changes_example.
Proof. apply GetChanges_meta. by repeat (apply Forall_cons; split). Defined.

(** for an update of an account, [AccountSignersChanged] says whether the
    weights of the signers (the master key's included when it has one) or the
    list of their sponsors differ; it never fails on well-formed accounts. *)
Theorem AccountSignersChanged_spec ty pre post a b :
  ty = TypeAccount → Data pre = DataAccount a → Data post = DataAccount b →
  Forall (λ o, ∀ x, o = Some x → wf_account x) (SignerSponsoringIDs a ++ SignerSponsoringIDs b) →
  ∃ changed, AccountSignersChanged (MkChange ty (Some pre) (Some post)) = Ret changed ∧
    (changed = false ↔ signer_weights a = signer_weights b ∧ SignerSponsoringIDs a = SignerSponsoringIDs b).
Proof. apply signers_changed_spec. Qed.

Definition account_example (weight : Z) : AccountEntry :=
  MkAccount (MkAccountId (replicate 32 1)) 100 7 1 None 0 [] (MkThresholds 1 0 0 0)
    [MkSigner (SignerKeyTypeHashX (replicate 32 5)) weight] None.

Theorem AccountSignersChanged_spec_witness :
  ∃ changed, AccountSignersChanged (MkChange TypeAccount
      (Some (MkEntry 1 (DataAccount (account_example 1)) None))
      (Some (MkEntry 1 (DataAccount (account_example 2)) None))) = Ret changed ∧
    (changed = false ↔ signer_weights (account_example 1) = signer_weights (account_example 2) ∧
      SignerSponsoringIDs (account_example 1) = SignerSponsoringIDs (account_example 2)).
Proof. apply AccountSignersChanged_spec; [done..|]. by repeat (apply Forall_cons; split). Defined.

(** A new signer moves the ledger of the last change, so the account counts as
    changed although nothing but its signers did. *)
Example signer_change_is_account_change :
  AccountChangedExceptSigners (λ _, Some []) (MkChange TypeAccount
    (Some (MkEntry 1 (DataAccount (account_example 1)) None))
    (Some (MkEntry 2 (DataAccount (account_example 2)) None))) = Ret true.
Proof. done. Qed.

(** A new sponsor of an account alone is not a change within a ledger. *)
Example sponsor_change_missed marshal bytes :
  marshal (without_signers (account_example 1)) = Some bytes →
  AccountChangedExceptSigners marshal (MkChange TypeAccount
    (Some (MkEntry 2 (DataAccount (account_example 1)) None))
    (Some (MkEntry 2 (DataAccount (account_example 1)) (Some (Some (MkAccountId (replicate 32 9))))))) = Ret false.
Proof.
  intros Hm. unfold AccountChangedExceptSigners. cbn [Change_Type Pre Post LastModifiedLedgerSeq account_of Data].
  outcome_simpl. by rewrite Z.eqb_refl, Hm, !bool_decide_true by done.
Qed.
