(* ===== verification/Transaction.v ===== *)
(** * xdr and network: transactions, their results and their meta

    The data of [src/xdr/Hcnet-transaction.x] and of the part of
    [src/xdr/Hcnet-ledger.x] that describes a closed ledger, with the
    hand-written helpers of [src/xdr/transaction_envelope.go],
    [transaction_result.go], [transaction_meta.go], [path_payment_result.go],
    [ToAccountId] of [muxed_account.go], [ledger_entry_change.go] and [ledger_close_meta.go], and
    the hashes of [src/network/main.go].  The arms of a union are the
    constructors of an inductive type; reading another arm with a [Must...]
    accessor panics.  Of the result of an operation that failed only the code is
    kept. *)

From S2P Require Import Prelude Strkey Price Xdr LedgerEntry ChangeCache.

(** ** Operations *)

Inductive MuxedAccount :=
  | KeyTypeEd25519 (ed25519 : list Z)
  | KeyTypeMuxedEd25519 (id : Z) (ed25519 : list Z).

Definition ToAccountId (m : MuxedAccount) : AccountId :=
  match m with
  | KeyTypeEd25519 ed => MkAccountId ed
  | KeyTypeMuxedEd25519 _ ed => MkAccountId ed
  end.

Record PathPaymentStrictReceive := MkPathPaymentStrictReceive {
  Receive_SendAsset : Asset; Receive_SendMax : Z; Receive_Destination : MuxedAccount;
  Receive_DestAsset : Asset; Receive_DestAmount : Z; Receive_Path : list Asset }.
Record PathPaymentStrictSend := MkPathPaymentStrictSend {
  Send_SendAsset : Asset; Send_SendAmount : Z; Send_Destination : MuxedAccount;
  Send_DestAsset : Asset; Send_DestMin : Z; Send_Path : list Asset }.
(** The selling and the buying offer and the passive one, whose [OfferID] is not
    there (0). *)
Record ManageOffer := MkManageOffer {
  Manage_Selling : Asset; Manage_Buying : Asset; Manage_Amount : Z; Manage_Price : Price; Manage_OfferId : Z }.
Record SetOptions := MkSetOptions {
  Set_InflationDest : option AccountId; Set_ClearFlags : option Z; Set_SetFlags : option Z;
  Set_MasterWeight : option Z; Set_LowThreshold : option Z; Set_MedThreshold : option Z;
  Set_HighThreshold : option Z; Set_HomeDomain : option gostring; Set_Signer : option Signer }.

Inductive RevokeSponsorship :=
  | RevokeLedgerEntry (ledgerKey : LedgerKey)
  | RevokeSigner (accountID : AccountId) (signerKey : SignerKey).

Inductive OperationBody :=
  | CreateAccountOp (destination : AccountId) (startingBalance : Z)
  | PaymentOp (destination : MuxedAccount) (asset : Asset) (amount : Z)
  | PathPaymentStrictReceiveOp (op : PathPaymentStrictReceive)
  | ManageSellOfferOp (op : ManageOffer)
  | CreatePassiveSellOfferOp (op : ManageOffer)
  | SetOptionsOp (op : SetOptions)
  | ChangeTrustOp (line : Asset) (limit : Z)
  | AllowTrustOp (trustor : AccountId) (asset : AllowTrustOpAsset) (authorize : Z)
  | AccountMergeOp (destination : MuxedAccount)
  | InflationOp
  | ManageDataOp (dataName : gostring) (dataValue : option (list Z))
  | BumpSequenceOp (bumpTo : Z)
  | ManageBuyOfferOp (op : ManageOffer)
  | PathPaymentStrictSendOp (op : PathPaymentStrictSend)
  | CreateClaimableBalanceOp (asset : Asset) (amount : Z) (claimants : list Claimant)
  | ClaimClaimableBalanceOp (balanceID : ClaimableBalanceId)
  | BeginSponsoringFutureReservesOp (sponsoredID : AccountId)
  | EndSponsoringFutureReservesOp
  | RevokeSponsorshipOp (op : RevokeSponsorship).

(** The number of an [OperationType]. *)
Definition OperationType (body : OperationBody) : Z :=
  match body with
  | CreateAccountOp _ _ => 0
  | PaymentOp _ _ _ => 1
  | PathPaymentStrictReceiveOp _ => 2
  | ManageSellOfferOp _ => 3
  | CreatePassiveSellOfferOp _ => 4
  | SetOptionsOp _ => 5
  | ChangeTrustOp _ _ => 6
  | AllowTrustOp _ _ _ => 7
  | AccountMergeOp _ => 8
  | InflationOp => 9
  | ManageDataOp _ _ => 10
  | BumpSequenceOp _ => 11
  | ManageBuyOfferOp _ => 12
  | PathPaymentStrictSendOp _ => 13
  | CreateClaimableBalanceOp _ _ _ => 14
  | ClaimClaimableBalanceOp _ => 15
  | BeginSponsoringFutureReservesOp _ => 16
  | EndSponsoringFutureReservesOp => 17
  | RevokeSponsorshipOp _ => 18
  end.

Record Operation := MkOperation { Op_SourceAccount : option MuxedAccount; Body : OperationBody }.

(** ** Envelopes *)

Inductive Memo :=
  | MemoNone | MemoText (text : gostring) | MemoId (id : Z) | MemoHash (hash : list Z) | MemoReturn (retHash : list Z).
Record TimeBounds := MkTimeBounds { MinTime : Z; MaxTime : Z }.

Record Transaction := MkTransaction {
  Tx_SourceAccount : MuxedAccount; Tx_Fee : Z; Tx_SeqNum : Z; Tx_TimeBounds : option TimeBounds;
  Tx_Memo : Memo; Tx_Operations : list Operation }.
Record TransactionV0 := MkTransactionV0 {
  V0_SourceAccountEd25519 : list Z; V0_Fee : Z; V0_SeqNum : Z; V0_TimeBounds : option TimeBounds;
  V0_Memo : Memo; V0_Operations : list Operation }.
Record DecoratedSignature := MkSignature { Hint : list Z; Signature : list Z }.
Record FeeBumpTransaction := MkFeeBump {
  FeeSource : MuxedAccount; FeeBump_Fee : Z; InnerTx : Transaction; InnerTx_Signatures : list DecoratedSignature }.

Inductive TransactionEnvelope :=
  | EnvelopeTypeTxV0 (tx : TransactionV0) (signatures : list DecoratedSignature)
  | EnvelopeTypeTx (tx : Transaction) (signatures : list DecoratedSignature)
  | EnvelopeTypeTxFeeBump (tx : FeeBumpTransaction) (signatures : list DecoratedSignature).

(** Equality of envelopes is decidable. *)
#[export] Instance MuxedAccount_eq_dec : EqDecision MuxedAccount.
Proof. solve_decision. Defined.
#[export] Instance Receive_eq_dec : EqDecision PathPaymentStrictReceive.
Proof. solve_decision. Defined.
#[export] Instance Send_eq_dec : EqDecision PathPaymentStrictSend.
Proof. solve_decision. Defined.
#[export] Instance ManageOffer_eq_dec : EqDecision ManageOffer.
Proof. solve_decision. Defined.
#[export] Instance SetOptions_eq_dec : EqDecision SetOptions.
Proof. solve_decision. Defined.
#[export] Instance Revoke_eq_dec : EqDecision RevokeSponsorship.
Proof. solve_decision. Defined.
#[export] Instance OperationBody_eq_dec : EqDecision OperationBody.
Proof. solve_decision. Defined.
#[export] Instance Operation_eq_dec : EqDecision Operation.
Proof. solve_decision. Defined.
#[export] Instance Memo_eq_dec : EqDecision Memo.
Proof. solve_decision. Defined.
#[export] Instance TimeBounds_eq_dec : EqDecision TimeBounds.
Proof. solve_decision. Defined.
#[export] Instance Transaction_eq_dec : EqDecision Transaction.
Proof. solve_decision. Defined.
#[export] Instance TransactionV0_eq_dec : EqDecision TransactionV0.
Proof. solve_decision. Defined.
#[export] Instance DecoratedSignature_eq_dec : EqDecision DecoratedSignature.
Proof. solve_decision. Defined.
#[export] Instance FeeBump_eq_dec : EqDecision FeeBumpTransaction.
Proof. solve_decision. Defined.
#[export] Instance TransactionEnvelope_eq_dec : EqDecision TransactionEnvelope.
Proof. solve_decision. Defined.

(** *** transaction_envelope.go

    The fields of a fee bump transaction are those of the inner one. *)
Definition IsFeeBump (e : TransactionEnvelope) : bool :=
  match e with EnvelopeTypeTxFeeBump _ _ => true | _ => false end.
Definition MustFeeBump (e : TransactionEnvelope) : outcome xdr_error (FeeBumpTransaction * list DecoratedSignature) :=
  match e with EnvelopeTypeTxFeeBump tx s => Ret (tx, s) | _ => Panic end.
Definition FeeBumpAccount (e : TransactionEnvelope) : outcome xdr_error MuxedAccount :=
  '(tx, _) ← MustFeeBump e; Ret (FeeSource tx).
Definition FeeBumpFee (e : TransactionEnvelope) : outcome xdr_error Z :=
  '(tx, _) ← MustFeeBump e; Ret (FeeBump_Fee tx).
Definition FeeBumpSignatures (e : TransactionEnvelope) : outcome xdr_error (list DecoratedSignature) :=
  '(_, s) ← MustFeeBump e; Ret s.
Definition Envelope_SourceAccount (e : TransactionEnvelope) : MuxedAccount :=
  match e with
  | EnvelopeTypeTxFeeBump tx _ => Tx_SourceAccount (InnerTx tx)
  | EnvelopeTypeTx tx _ => Tx_SourceAccount tx
  | EnvelopeTypeTxV0 tx _ => KeyTypeEd25519 (V0_SourceAccountEd25519 tx)
  end.
Definition Envelope_Fee (e : TransactionEnvelope) : Z :=
  match e with
  | EnvelopeTypeTxFeeBump tx _ => Tx_Fee (InnerTx tx)
  | EnvelopeTypeTx tx _ => Tx_Fee tx
  | EnvelopeTypeTxV0 tx _ => V0_Fee tx
  end.
Definition Envelope_Signatures (e : TransactionEnvelope) : list DecoratedSignature :=
  match e with
  | EnvelopeTypeTxFeeBump tx _ => InnerTx_Signatures tx
  | EnvelopeTypeTx _ s => s
  | EnvelopeTypeTxV0 _ s => s
  end.
Definition Envelope_SeqNum (e : TransactionEnvelope) : Z :=
  match e with
  | EnvelopeTypeTxFeeBump tx _ => Tx_SeqNum (InnerTx tx)
  | EnvelopeTypeTx tx _ => Tx_SeqNum tx
  | EnvelopeTypeTxV0 tx _ => V0_SeqNum tx
  end.
Definition Envelope_TimeBounds (e : TransactionEnvelope) : option TimeBounds :=
  match e with
  | EnvelopeTypeTxFeeBump tx _ => Tx_TimeBounds (InnerTx tx)
  | EnvelopeTypeTx tx _ => Tx_TimeBounds tx
  | EnvelopeTypeTxV0 tx _ => V0_TimeBounds tx
  end.
Definition Operations (e : TransactionEnvelope) : list Operation :=
  match e with
  | EnvelopeTypeTxFeeBump tx _ => Tx_Operations (InnerTx tx)
  | EnvelopeTypeTx tx _ => Tx_Operations tx
  | EnvelopeTypeTxV0 tx _ => V0_Operations tx
  end.
Definition Envelope_Memo (e : TransactionEnvelope) : Memo :=
  match e with
  | EnvelopeTypeTxFeeBump tx _ => Tx_Memo (InnerTx tx)
  | EnvelopeTypeTx tx _ => Tx_Memo tx
  | EnvelopeTypeTxV0 tx _ => V0_Memo tx
  end.

(** ** Results *)

Record ClaimOfferAtom := MkClaimOfferAtom {
  Atom_SellerId : AccountId; Atom_OfferId : Z; AssetSold : Asset; AmountSold : Z;
  AssetBought : Asset; AmountBought : Z }.
Record SimplePaymentResult := MkSimplePaymentResult {
  Simple_Destination : AccountId; Simple_Asset : Asset; Simple_Amount : Z }.
Record PathPaymentSuccess := MkPathPaymentSuccess { Offers : list ClaimOfferAtom; Last : SimplePaymentResult }.
(** [None] for an offer that was deleted. *)
Record ManageOfferSuccessResult := MkManageOfferSuccess {
  OffersClaimed : list ClaimOfferAtom; Result_Offer : option OfferEntry }.
Record InflationPayout := MkInflationPayout { Payout_Destination : AccountId; Payout_Amount : Z }.

(** A result union: the value of the success arm, or the code of a failure. *)
Inductive op_result (S : Type) :=
  | Success (success : S)
  | Failure (code : Z).
Arguments Success {S}.
Arguments Failure {S}.

Inductive OperationResultTr :=
  | CreateAccountResult (r : op_result unit)
  | PaymentResult (r : op_result unit)
  | PathPaymentStrictReceiveResult (r : op_result PathPaymentSuccess)
  | ManageSellOfferResult (r : op_result ManageOfferSuccessResult)
  | CreatePassiveSellOfferResult (r : op_result ManageOfferSuccessResult)
  | SetOptionsResult (r : op_result unit)
  | ChangeTrustResult (r : op_result unit)
  | AllowTrustResult (r : op_result unit)
  | AccountMergeResult (r : op_result Z)
  | InflationResult (r : op_result (list InflationPayout))
  | ManageDataResult (r : op_result unit)
  | BumpSeqResult (r : op_result unit)
  | ManageBuyOfferResult (r : op_result ManageOfferSuccessResult)
  | PathPaymentStrictSendResult (r : op_result PathPaymentSuccess)
  | CreateClaimableBalanceResult (r : op_result ClaimableBalanceId)
  | ClaimClaimableBalanceResult (r : op_result unit)
  | BeginSponsoringFutureReservesResult (r : op_result unit)
  | EndSponsoringFutureReservesResult (r : op_result unit)
  | RevokeSponsorshipResult (r : op_result unit).

Inductive OperationResult :=
  | OpInner (tr : OperationResultTr)
  | OpError (code : Z).

(** The codes of a transaction result whose arm is void. *)
Inductive TransactionErrorCode :=
  | TxTooEarly | TxTooLate | TxMissingOperation | TxBadSeq | TxBadAuth | TxInsufficientBalance | TxNoAccount
  | TxInsufficientFee | TxBadAuthExtra | TxInternalError | TxNotSupported | TxBadSponsorship.

Inductive InnerTransactionResult :=
  | InnerSuccess (results : list OperationResult)
  | InnerFailed (results : list OperationResult)
  | InnerError (code : TransactionErrorCode).
Inductive TransactionResultResult :=
  | TxFeeBumpInnerSuccess (transactionHash : list Z) (inner : InnerTransactionResult)
  | TxFeeBumpInnerFailed (transactionHash : list Z) (inner : InnerTransactionResult)
  | TxSuccess (results : list OperationResult)
  | TxFailed (results : list OperationResult)
  | TxError (code : TransactionErrorCode).
Record TransactionResultPair := MkResultPair {
  TransactionHash : list Z; FeeCharged : Z; Result : TransactionResultResult }.

(** *** transaction_result.go *)
Definition Successful (r : TransactionResultPair) : bool :=
  match Result r with TxSuccess _ | TxFeeBumpInnerSuccess _ _ => true | _ => false end.
Definition inner_results (r : InnerTransactionResult) : option (list OperationResult) :=
  match r with InnerSuccess rs | InnerFailed rs => Some rs | InnerError _ => None end.
Definition OperationResults (r : TransactionResultPair) : option (list OperationResult) :=
  match Result r with
  | TxFeeBumpInnerSuccess _ inner | TxFeeBumpInnerFailed _ inner => inner_results inner
  | TxSuccess rs | TxFailed rs => Some rs
  | TxError _ => None
  end.
Definition InnerHash (r : TransactionResultPair) : outcome xdr_error (list Z) :=
  match Result r with
  | TxFeeBumpInnerSuccess h _ | TxFeeBumpInnerFailed h _ => Ret h
  | _ => Panic
  end.

(** *** path_payment_result.go

    What is spent is the sum over the first offers, as long as they are paid in
    the source asset; the sum wraps around as Go's does. *)
Fixpoint spent (sa : gostring) (offers : list ClaimOfferAtom) (ret : Z) : outcome xdr_error Z :=
  match offers with
  | [] => Ret ret
  | o :: offers =>
      s ← Asset_String (AssetBought o);
      if bool_decide (s = sa) then spent sa offers (i64 (ret + AmountBought o)) else Ret ret
  end.
Definition SendAmount (pr : op_result PathPaymentSuccess) : outcome xdr_error Z :=
  match pr with
  | Failure _ => Ret 0
  | Success s =>
      match Offers s with
      | [] => Ret (Simple_Amount (Last s))
      | o :: _ => sa ← Asset_String (AssetBought o); spent sa (Offers s) 0
      end
  end.
Definition DestAmount (pr : op_result PathPaymentSuccess) : Z :=
  match pr with Failure _ => 0 | Success s => Simple_Amount (Last s) end.

(** ** Meta *)

(** [OperationMeta] *)
Abbreviation LedgerEntryChanges := (list LedgerEntryChange).
Inductive TransactionMeta :=
  | MetaV0 (operations : list LedgerEntryChanges)
  | MetaV1 (txChanges : LedgerEntryChanges) (operations : list LedgerEntryChanges)
  | MetaV2 (txChangesBefore : LedgerEntryChanges) (operations : list LedgerEntryChanges)
      (txChangesAfter : LedgerEntryChanges).

(** transaction_meta.go: panics on a V2 meta. *)
Definition OperationsMeta (transactionMeta : TransactionMeta) : outcome xdr_error (list LedgerEntryChanges) :=
  match transactionMeta with
  | MetaV0 operations => Ret operations
  | MetaV1 _ operations => Ret operations
  | MetaV2 _ _ _ => Panic
  end.

(** ledger_entry_change.go *)
Definition EntryChange_LedgerKey (change : LedgerEntryChange) : LedgerKey :=
  match change with
  | LedgerEntryCreated e | LedgerEntryUpdated e | LedgerEntryState e => LedgerEntry_LedgerKey e
  | LedgerEntryRemoved k => k
  end.
Definition EntryType (change : LedgerEntryChange) : LedgerEntryType := key_type (EntryChange_LedgerKey change).
Definition GetLedgerEntry (change : LedgerEntryChange) : option LedgerEntry :=
  match change with
  | LedgerEntryCreated e | LedgerEntryState e | LedgerEntryUpdated e => Some e
  | LedgerEntryRemoved _ => None
  end.

(** ** Closed ledgers *)

(** The fields of [LedgerHeader] that are read, [ScpValue.CloseTime] among
    them. *)
Record LedgerHeader := MkHeader {
  LedgerVersion : Z; PreviousLedgerHash : list Z; CloseTime : Z; Header_BucketListHash : list Z; LedgerSeq : Z;
  TotalCoins : Z; FeePool : Z; BaseFee : Z; BaseReserve : Z; MaxTxSetSize : Z }.
Record LedgerHeaderHistoryEntry := MkHistoryEntry { Header_Hash : list Z; Header : LedgerHeader }.
Record TransactionResultMeta := MkResultMeta {
  Meta_Result : TransactionResultPair; FeeProcessing : LedgerEntryChanges; TxApplyProcessing : TransactionMeta }.
Record LedgerCloseMeta := MkCloseMeta {
  LedgerHeaderEntry : LedgerHeaderHistoryEntry; TxSet : list TransactionEnvelope;
  TxProcessing : list TransactionResultMeta; UpgradesProcessing : list LedgerEntryChanges }.

(** ledger_close_meta.go *)
Definition LedgerSequence (l : LedgerCloseMeta) : Z := LedgerSeq (Header (LedgerHeaderEntry l)).

(** ** network/main.go

    What the network of an instance is: the marshaller of the generated code,
    SHA-256 and the account of [keypair.Master] are parameters. *)
Inductive TaggedTransaction :=
  | TaggedTx (tx : Transaction)
  | TaggedFeeBump (tx : FeeBumpTransaction).
Inductive network_error := ErrEmptyPassphrase | ErrMarshalTx.

Class Network := {
  sha256 : list Z → list Z;
  MarshalPayload : list Z → TaggedTransaction → option (list Z);
  NetworkPassphrase : gostring;
  MasterKey : AccountId }.

Section network.
Context `{NW : Network}.

(** [strings.TrimSpace] of a passphrase in ASCII *)
Definition is_space (c : Z) : bool := (9 <=? c) && (c <=? 13) || (c =? 32).
Definition ID (passphrase : gostring) : list Z := sha256 passphrase.
Definition hashTx (tx : TaggedTransaction) (passphrase : gostring) : outcome network_error (list Z) :=
  if forallb is_space passphrase then Fail ErrEmptyPassphrase else
  match MarshalPayload (ID passphrase) tx with
  | None => Fail ErrMarshalTx
  | Some txBytes => Ret (sha256 txBytes)
  end.
Definition HashTransaction (tx : Transaction) (passphrase : gostring) : outcome network_error (list Z) :=
  hashTx (TaggedTx tx) passphrase.
Definition HashFeeBumpTransaction (tx : FeeBumpTransaction) (passphrase : gostring) : outcome network_error (list Z) :=
  hashTx (TaggedFeeBump tx) passphrase.
Definition HashTransactionV0 (tx : TransactionV0) (passphrase : gostring) : outcome network_error (list Z) :=
  HashTransaction (MkTransaction (KeyTypeEd25519 (V0_SourceAccountEd25519 tx)) (V0_Fee tx) (V0_SeqNum tx)
    (V0_TimeBounds tx) (V0_Memo tx) (V0_Operations tx)) passphrase.
Definition HashTransactionInEnvelope (envelope : TransactionEnvelope) (passphrase : gostring)
  : outcome network_error (list Z) :=
  match envelope with
  | EnvelopeTypeTx tx _ => HashTransaction tx passphrase
  | EnvelopeTypeTxV0 tx _ => HashTransactionV0 tx passphrase
  | EnvelopeTypeTxFeeBump tx _ => HashFeeBumpTransaction tx passphrase
  end.
End network.
