(* ===== verification/Keypair.v ===== *)
(** * keypair: keys that sign and verify

    Models [src/keypair/main.go], [full.go] and [from_address.go]: the two kinds
    of key pairs, how they are parsed, and what they sign and verify.  The
    signature scheme is that of [golang.org/x/crypto/ed25519], a parameter; what
    the theorems need of it are the laws [Ed25519Laws].  A key pair is the text
    that it was made from, and each of its methods decodes that text again.  Random
    keys, the key of a network's passphrase and [MarshalText] are left out. *)

From S2P Require Import Prelude Encoding Strkey Transaction.

(** The public key of a seed of 32 bytes, the signature of a message under a
    seed, and the check of a signature under a public key. *)
Class Ed25519 := {
  ed_public : list Z → list Z;
  ed_sign : list Z → list Z → list Z;
  ed_verify : list Z → list Z → list Z → bool }.

(** Keys have 32 bytes, signatures 64, and a signature is verified under the
    public key of the seed that made it. *)
Class Ed25519Laws `{ED : Ed25519} := {
  ed_public_bytes seed : length (ed_public seed) = 32%nat ∧ Forall is_u8 (ed_public seed);
  ed_sign_length seed m : length (ed_sign seed m) = 64%nat;
  ed_sign_bytes seed m : Forall is_u8 (ed_sign seed m);
  ed_sign_verifies seed m : ed_verify (ed_public seed) m (ed_sign seed m) = true }.

Inductive keypair_error :=
  | ErrStrkey (e : strkey_error)
  | ErrInvalidSignature
  | ErrCannotSign.

Inductive KP :=
  | FromAddress (address : gostring)
  | Full (seed : gostring).

(** ** Parsing *)

Definition ParseAddress (address : gostring) : outcome keypair_error KP :=
  _ ← map_fail ErrStrkey (Decode VersionByteAccountID address); Ret (FromAddress address).
Definition ParseFull (seed : gostring) : outcome keypair_error KP :=
  _ ← map_fail ErrStrkey (Decode VersionByteSeed seed); Ret (Full seed).
Definition Parse (addressOrSeed : gostring) : outcome keypair_error KP :=
  match ParseAddress addressOrSeed with
  | Ret addr => Ret addr
  | Fail (ErrStrkey ErrInvalidVersionByte) => ParseFull addressOrSeed
  | Fail e => Fail e
  | Panic => Panic
  end.
Definition MustParse (addressOrSeed : gostring) : outcome keypair_error KP := must (Parse addressOrSeed).
Definition MustParseAddress (address : gostring) : outcome keypair_error KP := must (ParseAddress address).
Definition MustParseFull (seed : gostring) : outcome keypair_error KP := must (ParseFull seed).
Definition FromRawSeed (rawSeed : list Z) : outcome keypair_error KP :=
  seed ← map_fail ErrStrkey (Encode VersionByteSeed rawSeed); Ret (Full seed).

(** ** The methods *)

Section keypair.
Context `{ED : Ed25519}.

(** [ed25519.GenerateKey] reads 32 bytes of the seed. *)
Definition rawSeed (seed : gostring) : outcome keypair_error (list Z) :=
  raw ← must (MustDecode VersionByteSeed seed);
  if (length raw <? 32)%nat then Panic else Ret (take 32 raw).
Definition publicKey (kp : KP) : outcome keypair_error (list Z) :=
  match kp with
  | FromAddress address => must (MustDecode VersionByteAccountID address)
  | Full seed => raw ← rawSeed seed; Ret (ed_public raw)
  end.
Definition Address (kp : KP) : outcome keypair_error gostring :=
  match kp with
  | FromAddress address => Ret address
  | Full _ => pub ← publicKey kp; must (MustEncode VersionByteAccountID pub)
  end.
Definition FromAddress_of (kp : KP) : outcome keypair_error KP :=
  match kp with
  | FromAddress _ => Ret kp
  | Full _ => address ← Address kp; Ret (FromAddress address)
  end.
(** The last four bytes of a key of 32; a slice from 28 of a shorter one is out
    of bounds. *)
Definition key_hint (pub : list Z) : list Z := copy_pad 4 (drop 28 pub).
Definition Hint (kp : KP) : outcome keypair_error (list Z) :=
  pub ← publicKey kp;
  if (length pub <? 28)%nat then Panic else Ret (key_hint pub).
(** [ed25519.Verify] panics on a key that has not 32 bytes. *)
Definition Verify (kp : KP) (input sig : list Z) : outcome keypair_error unit :=
  if negb (length sig =? 64)%nat then Fail ErrInvalidSignature else
  pub ← publicKey kp;
  if negb (length pub =? 32)%nat then Panic
  else if ed_verify pub input sig then Ret tt else Fail ErrInvalidSignature.
Definition Sign (kp : KP) (input : list Z) : outcome keypair_error (list Z) :=
  match kp with
  | FromAddress _ => Fail ErrCannotSign
  | Full seed => raw ← rawSeed seed; Ret (ed_sign raw input)
  end.
Definition SignBase64 (kp : KP) (input : list Z) : outcome keypair_error gostring :=
  sig ← Sign kp input; Ret (Base64.EncodeToString sig).
Definition SignDecorated (kp : KP) (input : list Z) : outcome keypair_error DecoratedSignature :=
  sig ← Sign kp input; hint ← Hint kp; Ret (MkSignature hint sig).

(** *** Keys of the right size *)

(** A key pair of a seed or of a public key of 32 bytes. *)
Definition wf_kp (kp : KP) : Prop :=
  match kp with
  | FromAddress address => ∃ pub, Decode VersionByteAccountID address = Ret pub ∧ length pub = 32%nat
  | Full seed => ∃ raw, Decode VersionByteSeed seed = Ret raw ∧ length raw = 32%nat
  end.

Lemma rawSeed_wf seed raw : Decode VersionByteSeed seed = Ret raw → length raw = 32%nat → rawSeed seed = Ret raw.
Proof.
  intros Hd Hl. unfold rawSeed, MustDecode. rewrite Hd. outcome_simpl. cbn [must outcome_bind]. rewrite Hl.
  cbn [Nat.ltb Nat.leb]. by rewrite take_ge by lia.
Qed.

Lemma publicKey_address address pub :
  Decode VersionByteAccountID address = Ret pub → publicKey (FromAddress address) = Ret pub.
Proof. intros Hd. cbn [publicKey]. unfold MustDecode. by rewrite Hd. Qed.

Lemma publicKey_wf `{!Ed25519Laws} kp : wf_kp kp → ∃ pub, publicKey kp = Ret pub ∧ length pub = 32%nat.
Proof.
  destruct kp as [address|seed]; intros (x & Hd & Hl).
  - exists x. by rewrite (publicKey_address _ _ Hd).
  - exists (ed_public x). cbn [publicKey]. rewrite (rawSeed_wf _ _ Hd Hl). split; [done|apply ed_public_bytes].
Qed.

Lemma Hint_wf kp pub : publicKey kp = Ret pub → length pub = 32%nat → Hint kp = Ret (key_hint pub).
Proof. intros Hp Hl. unfold Hint. rewrite Hp. outcome_simpl. by rewrite Hl. Qed.

Lemma Verify_wf kp pub input sig :
  publicKey kp = Ret pub → length pub = 32%nat →
  Verify kp input sig = Ret tt ↔ length sig = 64%nat ∧ ed_verify pub input sig = true.
Proof.
  intros Hp Hl. unfold Verify. rewrite Hp. outcome_simpl. rewrite Hl. cbn [Nat.eqb negb].
  destruct (Nat.eqb_spec (length sig) 64) as [E|E]; cbn [negb]; [|split; [done|intros [? _]; done]].
  destruct (ed_verify pub input sig); split; try done. by intros [_ ?].
Qed.

(** A key pair from a seed has the address of its public key, under which what it
    signs is verified. *)
Lemma Full_signs `{!Ed25519Laws} seed raw input :
  Decode VersionByteSeed seed = Ret raw → length raw = 32%nat →
  ∃ address sig, Address (Full seed) = Ret address ∧ ParseAddress address = Ret (FromAddress address) ∧
    publicKey (FromAddress address) = Ret (ed_public raw) ∧
    SignDecorated (Full seed) input = Ret (MkSignature (key_hint (ed_public raw)) sig) ∧
    Verify (FromAddress address) input sig = Ret tt.
Proof.
  intros Hd Hl. destruct (ed_public_bytes raw) as [Hpl Hpb].
  assert (publicKey (Full seed) = Ret (ed_public raw)) as Hp by (cbn [publicKey]; by rewrite (rawSeed_wf _ _ Hd Hl)).
  assert (valid_version VersionByteAccountID) as Hv by (by left).
  pose proof (Encode_valid VersionByteAccountID (ed_public raw) Hv) as He.
  pose proof (Encode_readable VersionByteAccountID (ed_public raw) _ Hv Hpb He) as (_ & Hr & _).
  set (address := Base32.EncodeToString _) in *. exists address, (ed_sign raw input).
  assert (publicKey (FromAddress address) = Ret (ed_public raw)) as Hpa by (by apply publicKey_address).
  split_and!.
  - unfold Address. rewrite Hp. outcome_simpl. unfold MustEncode. by rewrite He.
  - unfold ParseAddress. by rewrite Hr.
  - done.
  - unfold SignDecorated, Sign. rewrite (rawSeed_wf _ _ Hd Hl). outcome_simpl. rewrite (Hint_wf _ _ Hp Hpl). done.
  - apply (Verify_wf _ _ _ _ Hpa Hpl). split; [apply ed_sign_length|apply ed_sign_verifies].
Qed.
End keypair.
