(* ===== verification/TxnTypes.v ===== *)
(** * txnbuild: accounts, assets, prices, memos and time bounds

    Models the values of [src/txnbuild] from which operations and transactions
    are made: [simple_account.go], [asset.go], [price.go], [memo.go],
    [timebounds.go] and the validation of [helpers.go].  An interface that may be
    [nil] is an option; calling a method of [nil] panics. *)

From S2P Require Import Prelude Strkey Amount Price FloatText Xdr LedgerEntry Transaction.

Inductive txn_error :=
  | ErrKeyUndefined
  | ErrInvalidKey (key : gostring)
  | ErrAssetUndefined
  | ErrAssetNative
  | ErrAssetCode
  | ErrAssetCount
  | ErrNegative
  | ErrEmptyPrice
  | ErrXdr (e : xdr_error)
  | ErrAmount (e : amount_error)
  | ErrPrice (e : price_error)
  | ErrField (field : gostring) (e : txn_error)
  | ErrNil (field : gostring)
  | ErrBalanceID
  | ErrHomeDomain
  | ErrSponsorshipType (n : Z)
  | ErrTooLong (field : gostring)
  | ErrManySources
  | ErrMemoLength
  | ErrTimeboundsNotBuilt
  | ErrMinTime
  | ErrMaxTime
  | ErrTimeboundsOrder.

(** A method call on an interface value. *)
Definition call {A B} (x : option A) (f : A → outcome txn_error B) : outcome txn_error B :=
  match x with Some x => f x | None => Panic end.

(** ** Accounts *)

Record SimpleAccount := MkSimpleAccount { AccountID : gostring; Sequence : Z }.
Definition NewSimpleAccount (accountID : gostring) (sequence : Z) : SimpleAccount := MkSimpleAccount accountID sequence.

(** The interface [Account]; the receiver changes when the number is
    incremented. *)
Class Account (A : Type) := {
  GetAccountID : A → gostring;
  GetSequenceNumber : A → outcome txn_error Z;
  IncrementSequenceNumber : A → outcome txn_error Z * A }.
#[export] Instance SimpleAccount_Account : Account SimpleAccount := {|
  GetAccountID sa := AccountID sa;
  GetSequenceNumber sa := Ret (Sequence sa);
  IncrementSequenceNumber sa := let n := i64 (Sequence sa + 1) in (Ret n, MkSimpleAccount (AccountID sa) n) |}.

(** *** muxed_account.go *)
Definition Muxed_SetAddress (address : gostring) : outcome xdr_error MuxedAccount :=
  if (length address =? 56)%nat then
    raw ← map_fail Xdr.ErrStrkey (Decode VersionByteAccountID address);
    if negb (length raw =? 32)%nat then Fail ErrInvalidAddress else Ret (KeyTypeEd25519 raw)
  else Fail ErrInvalidAddress.
Definition MustMuxedAddress (address : gostring) : outcome xdr_error MuxedAccount := must (Muxed_SetAddress address).
(** [ToMuxedAccount] of an account id *)
Definition ToMuxedAccount (a : AccountId) : MuxedAccount := KeyTypeEd25519 (Ed25519 a).

(** *** operation.go

    [SetOpSourceAccount] drops the error of [SetAddress]: the account is then one
    without a key, which is written here as a key of no bytes. *)
Definition muxed_without_key : MuxedAccount := KeyTypeEd25519 [].
Definition SetOpSourceAccount (sourceAccount : option SimpleAccount) : outcome txn_error (option MuxedAccount) :=
  match sourceAccount with
  | None => Ret None
  | Some a =>
      match Muxed_SetAddress (GetAccountID a) with
      | Ret m => Ret (Some m)
      | Fail _ => Ret (Some muxed_without_key)
      | Panic => Panic
      end
  end.
Definition accountFromXDR (account : option MuxedAccount) : option SimpleAccount :=
  (λ m, MkSimpleAccount (address (ToAccountId m)) 0) <$> account.

(** ** Assets *)

Inductive TxnAsset :=
  | NativeAsset
  | CreditAsset (Code Issuer : gostring).

Definition Asset_IsNative (a : TxnAsset) : bool := match a with NativeAsset => true | CreditAsset _ _ => false end.
(** The type matters to no caller, only the error. *)
Definition Asset_GetType (a : TxnAsset) : outcome txn_error unit :=
  match a with
  | NativeAsset => Ret tt
  | CreditAsset code _ => if (1 <=? length code)%nat && (length code <=? 12)%nat then Ret tt else Fail ErrAssetCode
  end.
Definition Asset_GetCode (a : TxnAsset) : gostring := match a with NativeAsset => [] | CreditAsset code _ => code end.
Definition Asset_GetIssuer (a : TxnAsset) : gostring := match a with NativeAsset => [] | CreditAsset _ issuer => issuer end.
Definition Asset_ToXDR (a : TxnAsset) : outcome txn_error Asset :=
  match a with
  | NativeAsset => Ret AssetTypeNative
  | CreditAsset code issuer =>
      id ← map_fail ErrXdr (AccountId_SetAddress issuer);
      map_fail ErrXdr (SetCredit code id)
  end.

(** [bytes.Trim(code, "\x00")], on both sides *)
Fixpoint trim_left (l : list Z) : list Z :=
  match l with 0 :: l => trim_left l | _ => l end.
Definition trim_zeros (l : list Z) : list Z := trim_right (trim_left l).
Definition assetFromXDR (xAsset : Asset) : TxnAsset :=
  match xAsset with
  | AssetTypeNative => NativeAsset
  | AssetTypeCreditAlphanum4 code issuer | AssetTypeCreditAlphanum12 code issuer =>
      CreditAsset (trim_zeros code) (address issuer)
  end.
Definition ParseAssetString (canonical : gostring) : outcome txn_error TxnAsset :=
  assets ← map_fail ErrXdr (BuildAssets canonical);
  match assets with [a] => Ret (assetFromXDR a) | _ => Fail ErrAssetCount end.

(** ** Prices

    The pair of the price and the text that it was parsed from, or that was made
    from it. *)
Record price := MkTxnPrice { price_n : Z; price_d : Z; price_s : gostring }.
Definition no_price : price := MkTxnPrice 0 0 [].

(** The text is kept with the price that it came from when it still denotes what
    the text to be parsed denotes. *)
Definition price_parse (p : price) (s : gostring) : outcome txn_error price :=
  if bool_decide (s = []) then Fail ErrEmptyPrice else
  xdrPrice ← map_fail ErrPrice (Price.Parse s);
  match (if bool_decide (price_s p = []) then Fail Price.ErrInvalidFormat else Price.Parse (price_s p)) with
  | Ret inverse =>
      if bool_decide (xdrPrice = inverse) then Ret p else Ret (MkTxnPrice (N xdrPrice) (D xdrPrice) s)
  | Fail _ => Ret (MkTxnPrice (N xdrPrice) (D xdrPrice) s)
  | Panic => Panic
  end.
Definition price_fromXDR (p : price) (xdrPrice : Price) : price :=
  let n := N xdrPrice in
  let d := D xdrPrice in
  if (n =? price_n p) && (d =? price_d p) then p else MkTxnPrice n d (FormatQuotient n d).
Definition price_toXDR (p : price) : Price := MkPrice (i32 (price_n p)) (i32 (price_d p)).

(** ** Memos *)

Inductive TxnMemo :=
  | TxnMemoText (text : gostring)
  | TxnMemoID (id : Z)
  | TxnMemoHash (hash : list Z)
  | TxnMemoReturn (hash : list Z).
Definition MemoTextMaxLength : nat := 28.
Definition Memo_ToXDR (m : TxnMemo) : outcome txn_error Memo :=
  match m with
  | TxnMemoText text => if (MemoTextMaxLength <? length text)%nat then Fail ErrMemoLength else Ret (MemoText text)
  | TxnMemoID id => Ret (MemoId id)
  | TxnMemoHash hash => Ret (MemoHash hash)
  | TxnMemoReturn hash => Ret (MemoReturn hash)
  end.
(** [nil] when there is none. *)
Definition memoFromXDR (memo : Memo) : option TxnMemo :=
  match memo with
  | MemoNone => None
  | MemoText text => Some (TxnMemoText text)
  | MemoId id => Some (TxnMemoID id)
  | MemoHash hash => Some (TxnMemoHash hash)
  | MemoReturn hash => Some (TxnMemoReturn hash)
  end.

(** ** Time bounds *)

Definition TimeoutInfinite : Z := 0.
Record Timebounds := MkTimebounds { tb_MinTime : Z; tb_MaxTime : Z; tb_wasBuilt : bool }.
Definition NewTimebounds (minTime maxTime : Z) : Timebounds := MkTimebounds minTime maxTime true.
Definition NewTimeout (now timeout : Z) : Timebounds := MkTimebounds 0 (i64 (now + timeout)) true.
Definition NewInfiniteTimeout : Timebounds := MkTimebounds 0 TimeoutInfinite true.
Definition Timebounds_Validate (tb : Timebounds) : outcome txn_error unit :=
  if negb (tb_wasBuilt tb) then Fail ErrTimeboundsNotBuilt
  else if tb_MinTime tb <? 0 then Fail ErrMinTime
  else if tb_MaxTime tb <? 0 then Fail ErrMaxTime
  else if negb (tb_MaxTime tb =? TimeoutInfinite) && (tb_MaxTime tb <? tb_MinTime tb) then Fail ErrTimeboundsOrder
  else Ret tt.

(** ** Validation (helpers.go) *)

Definition validateHcnetPublicKey (publicKey : gostring) : outcome txn_error unit :=
  if bool_decide (publicKey = []) then Fail ErrKeyUndefined else
  valid ← must (IsValidEd25519PublicKey (Some publicKey));
  if valid : bool then Ret tt else Fail (ErrInvalidKey publicKey).
Definition validateHcnetSignerKey (signerKey : gostring) : outcome txn_error unit :=
  if bool_decide (signerKey = []) then Fail ErrKeyUndefined else
  match SignerKey_SetAddress signerKey with Ret _ => Ret tt | Fail _ => Fail (ErrInvalidKey signerKey) | Panic => Panic end.
Definition validateHcnetAsset (asset : option TxnAsset) : outcome txn_error unit :=
  match asset with
  | None => Fail ErrAssetUndefined
  | Some a =>
      if Asset_IsNative a then Ret tt else
      _ ← Asset_GetType a; validateHcnetPublicKey (Asset_GetIssuer a)
  end.
(** Of an [int64] and of a text *)
Definition validate_int (n : Z) : outcome txn_error unit := if n <? 0 then Fail ErrNegative else Ret tt.
Definition validateAmount (s : gostring) : outcome txn_error unit :=
  v ← map_fail ErrAmount (ParseInt64 s); validate_int v.
Definition validateAllowTrustAsset (asset : option TxnAsset) : outcome txn_error unit :=
  match asset with
  | None => Fail ErrAssetUndefined
  | Some a => if Asset_IsNative a then Fail ErrAssetNative else Asset_GetType a
  end.
Definition validateChangeTrustAsset (asset : option TxnAsset) : outcome txn_error unit :=
  _ ← validateAllowTrustAsset asset; call asset (λ a, validateHcnetPublicKey (Asset_GetIssuer a)).

(** [NewValidationError] around an error *)
Definition in_field {A} (field : string) (m : outcome txn_error A) : outcome txn_error A := map_fail (ErrField (str field)) m.

Definition validatePassiveOffer (buying selling : option TxnAsset) (offerAmount price : gostring) : outcome txn_error unit :=
  _ ← in_field "Buying" (validateHcnetAsset buying);
  _ ← in_field "Selling" (validateHcnetAsset selling);
  _ ← in_field "Amount" (validateAmount offerAmount);
  in_field "Price" (validateAmount price).
Definition validateOffer (buying selling : option TxnAsset) (offerAmount price : gostring) (offerID : Z) : outcome txn_error unit :=
  _ ← validatePassiveOffer buying selling offerAmount price;
  in_field "OfferID" (validate_int offerID).
