(* ===== verification/TxnOperations.v ===== *)
(** * txnbuild: the operations

    Models the operations of [src/txnbuild], one file each: how an operation is
    built from the caller's values ([BuildXDR]), read from the operation of a
    transaction ([FromXDR], on a new value, as [operationFromXDR] calls it) and
    validated ([Validate]).  Building changes three kinds of operations, which
    keep a price, a limit or the options that were set; [built] is the operation
    afterwards.  [FromXDR] on a value that was used before, which keeps its old flags,
    signers and destinations, is not modelled. *)

From S2P Require Import Prelude Encoding Strkey Amount Price FloatText Xdr LedgerEntry Transaction TxnTypes.

(** ** The data *)

(** The two path payments, which differ in the amount that is exact. *)
Record TxnPathPayment := MkPathPayment {
  pp_SendAsset : option TxnAsset; pp_SendAmount : gostring; pp_Destination : gostring;
  pp_DestAsset : option TxnAsset; pp_DestAmount : gostring; pp_Path : list (option TxnAsset) }.
(** The three kinds of offers; a passive one has no [OfferID]. *)
Record TxnOffer := MkTxnOffer {
  mo_Selling : option TxnAsset; mo_Buying : option TxnAsset; mo_Amount : gostring; mo_Price : gostring;
  mo_price : price; mo_OfferID : Z }.
Record TxnSigner := MkTxnSigner { Signer_Address : gostring; Signer_Weight : Z }.
Record TxnSetOptions := MkTxnSetOptions {
  so_InflationDestination : option gostring; so_SetFlags : list Z; so_ClearFlags : list Z;
  so_MasterWeight : option Z; so_LowThreshold : option Z; so_MediumThreshold : option Z; so_HighThreshold : option Z;
  so_HomeDomain : option gostring; so_Signer : option TxnSigner; so_xdrOp : SetOptions }.
Definition no_options : SetOptions := MkSetOptions None None None None None None None None None.

(** The arm that [SponsorshipType] selects; the other fields are ignored. *)
Inductive TxnRevoke :=
  | RevokeSponsorshipTypeAccount (Account : option gostring)
  | RevokeSponsorshipTypeTrustLine (TrustLine : option (gostring * option TxnAsset))
  | RevokeSponsorshipTypeOffer (Offer : option (gostring * Z))
  | RevokeSponsorshipTypeData (Data : option (gostring * gostring))
  | RevokeSponsorshipTypeClaimableBalance (ClaimableBalance : option gostring)
  | RevokeSponsorshipTypeSigner (Signer : option (gostring * gostring))
  | RevokeSponsorshipTypeOther (type : Z).

Inductive TxnBody :=
  | TxnCreateAccount (Destination Amount : gostring)
  | TxnPayment (Destination Amount : gostring) (Asset : option TxnAsset)
  | TxnPathPaymentStrictReceive (op : TxnPathPayment)
  | TxnManageSellOffer (op : TxnOffer)
  | TxnCreatePassiveSellOffer (op : TxnOffer)
  | TxnSetOptionsOp (op : TxnSetOptions)
  | TxnChangeTrust (Line : option TxnAsset) (Limit : gostring)
  | TxnAllowTrust (Trustor : gostring) (Type_ : option TxnAsset) (Authorize AuthorizeToMaintainLiabilities : bool)
  | TxnAccountMerge (Destination : gostring)
  | TxnInflation
  | TxnManageData (Name : gostring) (Value : option (list Z))
  | TxnBumpSequence (BumpTo : Z)
  | TxnManageBuyOffer (op : TxnOffer)
  | TxnPathPaymentStrictSend (op : TxnPathPayment)
  | TxnCreateClaimableBalance (Amount : gostring) (Asset : option TxnAsset) (Destinations : list (gostring * ClaimPredicate))
  | TxnClaimClaimableBalance (BalanceID : gostring)
  | TxnBeginSponsoringFutureReserves (SponsoredID : gostring)
  | TxnEndSponsoringFutureReserves
  | TxnRevokeSponsorship (op : TxnRevoke).
Record TxnOperation := MkTxnOperation { op_SourceAccount : option SimpleAccount; op_Body : TxnBody }.

(** ** Makers *)

Definition UnconditionalPredicate : ClaimPredicate := ClaimPredicateUnconditional.
Definition NewClaimant (destination : gostring) (predicate : option ClaimPredicate) : gostring * ClaimPredicate :=
  (destination, default UnconditionalPredicate predicate).
Definition AndPredicate (left right : ClaimPredicate) : ClaimPredicate := ClaimPredicateAnd [left; right].
Definition OrPredicate (left right : ClaimPredicate) : ClaimPredicate := ClaimPredicateOr [left; right].
Definition NotPredicate (pred : ClaimPredicate) : ClaimPredicate := ClaimPredicateNot (Some pred).
Definition BeforeAbsoluteTimePredicate (epochSeconds : Z) : ClaimPredicate := ClaimPredicateBeforeAbsoluteTime epochSeconds.
Definition BeforeRelativeTimePredicate (secondsBefore : Z) : ClaimPredicate := ClaimPredicateBeforeRelativeTime secondsBefore.

(** The trailing [sourceAccount ...Account] of the makers of offers *)
Definition offer_source (sourceAccount : list SimpleAccount) : outcome txn_error (option SimpleAccount) :=
  match sourceAccount with [] => Ret None | [a] => Ret (Some a) | _ => Fail ErrManySources end.
Definition UpdateOfferOp (selling buying : option TxnAsset) (amount price : gostring) (offerID : Z)
    (sourceAccount : list SimpleAccount) : outcome txn_error TxnOperation :=
  source ← offer_source sourceAccount;
  Ret (MkTxnOperation source (TxnManageSellOffer (MkTxnOffer selling buying amount price no_price offerID))).
Definition CreateOfferOp (selling buying : option TxnAsset) (amount price : gostring)
    (sourceAccount : list SimpleAccount) : outcome txn_error TxnOperation :=
  source ← offer_source sourceAccount;
  Ret (MkTxnOperation source (TxnManageSellOffer (MkTxnOffer selling buying amount price no_price 0))).
Definition fake_asset : TxnAsset := CreditAsset (str "FAKE") (str "GBAQPADEYSKYMYXTMASBUIS5JI3LMOAWSTM2CHGDBJ3QDDPNCSO3DVAA").
Definition DeleteOfferOp (offerID : Z) (sourceAccount : list SimpleAccount) : outcome txn_error TxnOperation :=
  source ← offer_source sourceAccount;
  Ret (MkTxnOperation source (TxnManageSellOffer
    (MkTxnOffer (Some NativeAsset) (Some fake_asset) (str "0") (str "1") no_price offerID))).
Definition MaxTrustlineLimit : gostring := StringFromInt64 MaxInt64.
Definition RemoveTrustlineOp (issuedAsset : option TxnAsset) : TxnOperation :=
  MkTxnOperation None (TxnChangeTrust issuedAsset (str "0")).

(** ** Identifiers of claimable balances

    [xdr.SafeUnmarshalHex] of one: the type, four zero bytes, and the hash.  The
    decoder of hexadecimal reads up to 1024 characters at once, and these are
    what the check for characters left over counts as read. *)
Definition hex_buffer : nat := 1024.
Definition UnmarshalHex_BalanceId (data : gostring) : outcome txn_error ClaimableBalanceId :=
  match Hex.DecodeString (take 72 data) with
  | Some (0 :: 0 :: 0 :: 0 :: hash) =>
      if (length hash =? 32)%nat && (length data <=? hex_buffer)%nat then Ret (MkClaimableBalanceId hash) else Fail ErrBalanceID
  | _ => Fail ErrBalanceID
  end.
Definition MarshalHex_BalanceId (id : ClaimableBalanceId) : gostring := Hex.EncodeToString ([0; 0; 0; 0] ++ V0 id).

(** ** SetOptions

    The handlers write into the options that the operation keeps; an option that
    was set once stays set. *)

Definition with_InflationDest (x : SetOptions) v := MkSetOptions v (Set_ClearFlags x) (Set_SetFlags x)
  (Set_MasterWeight x) (Set_LowThreshold x) (Set_MedThreshold x) (Set_HighThreshold x) (Set_HomeDomain x) (Set_Signer x).
Definition with_HomeDomain (x : SetOptions) v := MkSetOptions (Set_InflationDest x) (Set_ClearFlags x) (Set_SetFlags x)
  (Set_MasterWeight x) (Set_LowThreshold x) (Set_MedThreshold x) (Set_HighThreshold x) v (Set_Signer x).
Definition with_Signer (x : SetOptions) v := MkSetOptions (Set_InflationDest x) (Set_ClearFlags x) (Set_SetFlags x)
  (Set_MasterWeight x) (Set_LowThreshold x) (Set_MedThreshold x) (Set_HighThreshold x) (Set_HomeDomain x) v.

(** A new value where the field is set, the kept one otherwise. *)
Definition set_or {A} (kept new : option A) : option A := match new with Some _ => new | None => kept end.
Definition handleInflation (so : TxnSetOptions) (x : SetOptions) : outcome txn_error SetOptions :=
  match so_InflationDestination so with
  | None => Ret x
  | Some s => id ← map_fail ErrXdr (AccountId_SetAddress s); Ret (with_InflationDest x (Some id))
  end.
Definition flag_bits (flags : list Z) : option Z :=
  match flags with [] => None | _ => Some (foldl Z.lor 0 flags) end.
(** [handleClearFlags], [handleSetFlags] and the handlers of the weight and the
    thresholds *)
Definition handleNumbers (so : TxnSetOptions) (x : SetOptions) : SetOptions :=
  MkSetOptions (Set_InflationDest x)
    (set_or (Set_ClearFlags x) (flag_bits (so_ClearFlags so))) (set_or (Set_SetFlags x) (flag_bits (so_SetFlags so)))
    (set_or (Set_MasterWeight x) (so_MasterWeight so)) (set_or (Set_LowThreshold x) (so_LowThreshold so))
    (set_or (Set_MedThreshold x) (so_MediumThreshold so)) (set_or (Set_HighThreshold x) (so_HighThreshold so))
    (Set_HomeDomain x) (Set_Signer x).
Definition handleHomeDomain (so : TxnSetOptions) (x : SetOptions) : outcome txn_error SetOptions :=
  match so_HomeDomain so with
  | None => Ret x
  | Some d => if (32 <? length d)%nat then Fail ErrHomeDomain else Ret (with_HomeDomain x (Some d))
  end.
Definition handleSigner (so : TxnSetOptions) (x : SetOptions) : outcome txn_error SetOptions :=
  match so_Signer so with
  | None => Ret x
  | Some s =>
      key ← map_fail ErrXdr (SignerKey_SetAddress (Signer_Address s));
      Ret (with_Signer x (Some (MkSigner key (Signer_Weight s))))
  end.
(** The operation with other options kept. *)
Definition keep_options (so : TxnSetOptions) (x : SetOptions) : TxnSetOptions :=
  MkTxnSetOptions (so_InflationDestination so) (so_SetFlags so) (so_ClearFlags so) (so_MasterWeight so)
    (so_LowThreshold so) (so_MediumThreshold so) (so_HighThreshold so) (so_HomeDomain so) (so_Signer so) x.
(** What is kept afterwards, and the options or the error. *)
Definition SetOptions_build (so : TxnSetOptions) : SetOptions * outcome txn_error SetOptions :=
  let x := so_xdrOp so in
  match handleInflation so x with
  | Ret x =>
      let x := handleNumbers so x in
      match handleHomeDomain so x with
      | Ret x => match handleSigner so x with Ret x => (x, Ret x) | Fail e => (x, Fail e) | Panic => (x, Panic) end
      | Fail e => (x, Fail e)
      | Panic => (x, Panic)
      end
  | Fail e => (x, Fail e)
  | Panic => (x, Panic)
  end.

(** The flags of a mask, in order; a flag that is none of the three is lost. *)
Definition AuthRequired : Z := 1.
Definition AuthRevocable : Z := 2.
Definition AuthImmutable : Z := 4.
Definition flags_of (flags : option Z) : list Z :=
  match flags with
  | None => []
  | Some flags => filter (λ f, Z.land f flags ≠ 0) [AuthRequired; AuthRevocable; AuthImmutable]
  end.
(** [Threshold(uint32(w))] keeps eight bits. *)
Definition threshold_of (w : option Z) : option Z := u8 <$> w.
Definition SetOptions_FromXDR (x : SetOptions) : outcome txn_error TxnSetOptions :=
  signer ← (match Set_Signer x with
            | None => Ret None
            | Some s =>
                a ← map_fail ErrXdr (SignerKey_Address (Some (Key s)));
                Ret (Some (MkTxnSigner a (u8 (Weight s))))
            end);
  Ret (MkTxnSetOptions (address <$> Set_InflationDest x) (flags_of (Set_SetFlags x)) (flags_of (Set_ClearFlags x))
    (threshold_of (Set_MasterWeight x)) (threshold_of (Set_LowThreshold x)) (threshold_of (Set_MedThreshold x))
    (threshold_of (Set_HighThreshold x)) (Set_HomeDomain x) signer no_options).

(** ** Building *)

Definition require_asset (asset : option TxnAsset) : outcome txn_error TxnAsset :=
  match asset with Some a => Ret a | None => Fail ErrAssetUndefined end.
Definition parse_amount (s : gostring) : outcome txn_error Z := map_fail ErrAmount (Amount.Parse s).
Definition set_account (s : gostring) : outcome txn_error AccountId := map_fail ErrXdr (AccountId_SetAddress s).
Definition set_muxed (s : gostring) : outcome txn_error MuxedAccount := map_fail ErrXdr (Muxed_SetAddress s).

(** The assets and amounts of a path payment, in the order in which both kinds
    build them. *)
Definition PathPayment_build (first second : gostring) (pp : TxnPathPayment)
  : outcome txn_error (Asset * Z * MuxedAccount * Asset * Z * list Asset) :=
  a ← require_asset (pp_SendAsset pp); send ← Asset_ToXDR a;
  x ← parse_amount first;
  dest ← set_muxed (pp_Destination pp);
  b ← require_asset (pp_DestAsset pp); destAsset ← Asset_ToXDR b;
  y ← parse_amount second;
  path ← mmap (λ asset, call asset Asset_ToXDR) (pp_Path pp);
  Ret (send, x, dest, destAsset, y, path).

Definition Offer_build (mo : TxnOffer) (offerID : Z) : outcome txn_error ManageOffer :=
  selling ← call (mo_Selling mo) Asset_ToXDR;
  buying ← call (mo_Buying mo) Asset_ToXDR;
  amount ← parse_amount (mo_Amount mo);
  p ← price_parse (mo_price mo) (mo_Price mo);
  Ret (MkManageOffer selling buying amount (price_toXDR p) offerID).

Definition effective_limit (limit : gostring) : gostring := if bool_decide (limit = []) then MaxTrustlineLimit else limit.
Definition ChangeTrust_BuildXDR (line : option TxnAsset) (limit : gostring) : outcome txn_error OperationBody :=
  native ← call line (λ a, Ret (Asset_IsNative a));
  if native : bool then Fail ErrAssetNative else
  xdrLine ← call line Asset_ToXDR;
  xdrLimit ← parse_amount (effective_limit limit);
  Ret (ChangeTrustOp xdrLine xdrLimit).
Definition AllowTrust_BuildXDR (trustor : gostring) (type : option TxnAsset) (authorize maintain : bool) : outcome txn_error OperationBody :=
  id ← set_account trustor;
  native ← call type (λ a, Ret (Asset_IsNative a));
  if native : bool then Fail ErrAssetNative else
  asset ← call type (λ a, map_fail ErrXdr (ToAllowTrustOpAsset (Asset_GetCode a)));
  Ret (AllowTrustOp id asset
    (if authorize then TrustLineFlagsAuthorizedFlag else if maintain then TrustLineFlagsAuthorizedToMaintainLiabilitiesFlag else 0)).

Definition required {A} (field : string) (x : option A) : outcome txn_error A :=
  match x with Some a => Ret a | None => Fail (ErrNil (str field)) end.
Definition Revoke_build (r : TxnRevoke) : outcome txn_error RevokeSponsorship :=
  match r with
  | RevokeSponsorshipTypeAccount a =>
      a ← required "Account" a; id ← set_account a; Ret (RevokeLedgerEntry (LedgerEntryTypeAccount id))
  | RevokeSponsorshipTypeTrustLine t =>
      '(a, asset) ← required "TrustLine" t; id ← set_account a; x ← call asset Asset_ToXDR;
      Ret (RevokeLedgerEntry (LedgerEntryTypeTrustline id x))
  | RevokeSponsorshipTypeOffer o =>
      '(a, offerID) ← required "Offer" o; id ← set_account a; Ret (RevokeLedgerEntry (LedgerEntryTypeOffer id offerID))
  | RevokeSponsorshipTypeData d =>
      '(a, name) ← required "Data" d; id ← set_account a; Ret (RevokeLedgerEntry (LedgerEntryTypeData id name))
  | RevokeSponsorshipTypeClaimableBalance b =>
      b ← required "ClaimableBalance" b; id ← UnmarshalHex_BalanceId b;
      Ret (RevokeLedgerEntry (LedgerEntryTypeClaimableBalance id))
  | RevokeSponsorshipTypeSigner s =>
      '(a, k) ← required "Signer" s; id ← set_account a; key ← map_fail ErrXdr (SignerKey_SetAddress k);
      Ret (RevokeSigner id key)
  | RevokeSponsorshipTypeOther type => Fail (ErrSponsorshipType type)
  end.

Definition CreateAccount_BuildXDR (destination amount : gostring) : outcome txn_error OperationBody :=
  id ← set_account destination; v ← parse_amount amount; Ret (CreateAccountOp id v).
Definition Payment_BuildXDR (destination amount : gostring) (asset : option TxnAsset) : outcome txn_error OperationBody :=
  dest ← set_muxed destination; v ← parse_amount amount; a ← require_asset asset; x ← Asset_ToXDR a;
  Ret (PaymentOp dest x v).
Definition PathPaymentStrictReceive_BuildXDR (pp : TxnPathPayment) : outcome txn_error OperationBody :=
  '(send, sendMax, dest, destAsset, destAmount, path) ← PathPayment_build (pp_SendAmount pp) (pp_DestAmount pp) pp;
  Ret (PathPaymentStrictReceiveOp (MkPathPaymentStrictReceive send sendMax dest destAsset destAmount path)).
Definition PathPaymentStrictSend_BuildXDR (pp : TxnPathPayment) : outcome txn_error OperationBody :=
  '(send, destMin, dest, destAsset, sendAmount, path) ← PathPayment_build (pp_DestAmount pp) (pp_SendAmount pp) pp;
  Ret (PathPaymentStrictSendOp (MkPathPaymentStrictSend send sendAmount dest destAsset destMin path)).
Definition ManageSellOffer_BuildXDR (mo : TxnOffer) : outcome txn_error OperationBody :=
  op ← Offer_build mo (mo_OfferID mo); Ret (ManageSellOfferOp op).
Definition ManageBuyOffer_BuildXDR (mo : TxnOffer) : outcome txn_error OperationBody :=
  op ← Offer_build mo (mo_OfferID mo); Ret (ManageBuyOfferOp op).
Definition CreatePassiveSellOffer_BuildXDR (mo : TxnOffer) : outcome txn_error OperationBody :=
  op ← Offer_build mo 0; Ret (CreatePassiveSellOfferOp op).
Definition SetOptions_BuildXDR (so : TxnSetOptions) : outcome txn_error OperationBody :=
  op ← (SetOptions_build so).2; Ret (SetOptionsOp op).
Definition AccountMerge_BuildXDR (destination : gostring) : outcome txn_error OperationBody :=
  dest ← set_muxed destination; Ret (AccountMergeOp dest).
Definition Inflation_BuildXDR : outcome txn_error OperationBody := Ret InflationOp.
Definition ManageData_BuildXDR (name : gostring) (value : option (list Z)) : outcome txn_error OperationBody :=
  Ret (ManageDataOp name value).
Definition BumpSequence_BuildXDR (bumpTo : Z) : outcome txn_error OperationBody := Ret (BumpSequenceOp bumpTo).
Definition CreateClaimableBalance_BuildXDR (amount : gostring) (asset : option TxnAsset) (destinations : list (gostring * ClaimPredicate))
  : outcome txn_error OperationBody :=
  x ← call asset Asset_ToXDR; v ← parse_amount amount;
  claimants ← mmap (λ d : gostring * ClaimPredicate, id ← set_account d.1; Ret (MkClaimant id d.2)) destinations;
  Ret (CreateClaimableBalanceOp x v claimants).
Definition ClaimClaimableBalance_BuildXDR (balanceID : gostring) : outcome txn_error OperationBody :=
  id ← UnmarshalHex_BalanceId balanceID; Ret (ClaimClaimableBalanceOp id).
Definition BeginSponsoringFutureReserves_BuildXDR (sponsoredID : gostring) : outcome txn_error OperationBody :=
  id ← set_account sponsoredID; Ret (BeginSponsoringFutureReservesOp id).
Definition EndSponsoringFutureReserves_BuildXDR : outcome txn_error OperationBody := Ret EndSponsoringFutureReservesOp.
Definition RevokeSponsorship_BuildXDR (r : TxnRevoke) : outcome txn_error OperationBody :=
  op ← Revoke_build r; Ret (RevokeSponsorshipOp op).

(** The method of the interface. *)
Definition Body_BuildXDR (body : TxnBody) : outcome txn_error OperationBody :=
  match body with
  | TxnCreateAccount destination amount => CreateAccount_BuildXDR destination amount
  | TxnPayment destination amount asset => Payment_BuildXDR destination amount asset
  | TxnPathPaymentStrictReceive pp => PathPaymentStrictReceive_BuildXDR pp
  | TxnPathPaymentStrictSend pp => PathPaymentStrictSend_BuildXDR pp
  | TxnManageSellOffer mo => ManageSellOffer_BuildXDR mo
  | TxnManageBuyOffer mo => ManageBuyOffer_BuildXDR mo
  | TxnCreatePassiveSellOffer mo => CreatePassiveSellOffer_BuildXDR mo
  | TxnSetOptionsOp so => SetOptions_BuildXDR so
  | TxnChangeTrust line limit => ChangeTrust_BuildXDR line limit
  | TxnAllowTrust trustor type authorize maintain => AllowTrust_BuildXDR trustor type authorize maintain
  | TxnAccountMerge destination => AccountMerge_BuildXDR destination
  | TxnInflation => Inflation_BuildXDR
  | TxnManageData name value => ManageData_BuildXDR name value
  | TxnBumpSequence bumpTo => BumpSequence_BuildXDR bumpTo
  | TxnCreateClaimableBalance amount asset destinations => CreateClaimableBalance_BuildXDR amount asset destinations
  | TxnClaimClaimableBalance balanceID => ClaimClaimableBalance_BuildXDR balanceID
  | TxnBeginSponsoringFutureReserves id => BeginSponsoringFutureReserves_BuildXDR id
  | TxnEndSponsoringFutureReserves => EndSponsoringFutureReserves_BuildXDR
  | TxnRevokeSponsorship r => RevokeSponsorship_BuildXDR r
  end.
Definition BuildXDR (op : TxnOperation) : outcome txn_error Operation :=
  body ← Body_BuildXDR (op_Body op);
  source ← SetOpSourceAccount (op_SourceAccount op);
  Ret (MkOperation source body).

(** The receiver after [BuildXDR]: the price, when the assets and the amount were
    good, the limit, when the line was, and the options. *)
Definition built_offer (mo : TxnOffer) : TxnOffer :=
  match (selling ← call (mo_Selling mo) Asset_ToXDR; buying ← call (mo_Buying mo) Asset_ToXDR;
         _ ← parse_amount (mo_Amount mo); price_parse (mo_price mo) (mo_Price mo)) with
  | Ret p => MkTxnOffer (mo_Selling mo) (mo_Buying mo) (mo_Amount mo) (mo_Price mo) p (mo_OfferID mo)
  | _ => mo
  end.
Definition built_limit (line : option TxnAsset) (limit : gostring) : gostring :=
  match line with
  | Some (CreditAsset _ _ as a) => match Asset_ToXDR a with Ret _ => effective_limit limit | _ => limit end
  | _ => limit
  end.
Definition built (op : TxnOperation) : TxnOperation :=
  MkTxnOperation (op_SourceAccount op)
    (match op_Body op with
     | TxnManageSellOffer mo => TxnManageSellOffer (built_offer mo)
     | TxnManageBuyOffer mo => TxnManageBuyOffer (built_offer mo)
     | TxnCreatePassiveSellOffer mo => TxnCreatePassiveSellOffer (built_offer mo)
     | TxnSetOptionsOp so => TxnSetOptionsOp (keep_options so (SetOptions_build so).1)
     | TxnChangeTrust line limit => TxnChangeTrust line (built_limit line limit)
     | body => body
     end).

(** ** Reading *)

Definition muxed_address (m : MuxedAccount) : gostring := address (ToAccountId m).
Definition Offer_FromXDR (x : ManageOffer) : TxnOffer :=
  let asset a := Some (assetFromXDR a) in
  let p := Manage_Price x in
  let '(s, cached) :=
    if bool_decide (p = MkPrice 0 0) then ([], no_price) else let p := price_fromXDR no_price p in (price_s p, p) in
  MkTxnOffer (asset (Manage_Selling x)) (asset (Manage_Buying x)) (Amount.String (Manage_Amount x)) s cached (Manage_OfferId x).
Definition AllowTrust_asset (a : AllowTrustOpAsset) : TxnAsset :=
  match a with AllowTrustCode4 code | AllowTrustCode12 code => CreditAsset (trim_zeros code) [] end.
Definition RevokeSponsorship_FromXDR (x : RevokeSponsorship) : outcome txn_error TxnRevoke :=
  match x with
  | RevokeLedgerEntry (LedgerEntryTypeAccount id) => Ret (RevokeSponsorshipTypeAccount (Some (address id)))
  | RevokeLedgerEntry (LedgerEntryTypeTrustline id asset) =>
      Ret (RevokeSponsorshipTypeTrustLine (Some (address id, Some (assetFromXDR asset))))
  | RevokeLedgerEntry (LedgerEntryTypeOffer id offerID) => Ret (RevokeSponsorshipTypeOffer (Some (address id, offerID)))
  | RevokeLedgerEntry (LedgerEntryTypeData id name) => Ret (RevokeSponsorshipTypeData (Some (address id, name)))
  | RevokeLedgerEntry (LedgerEntryTypeClaimableBalance id) =>
      Ret (RevokeSponsorshipTypeClaimableBalance (Some (MarshalHex_BalanceId id)))
  | RevokeSigner id key =>
      k ← map_fail ErrXdr (SignerKey_Address (Some key));
      Ret (RevokeSponsorshipTypeSigner (Some (address id, k)))
  end.

Definition asset_read (a : Asset) : option TxnAsset := Some (assetFromXDR a).
Definition CreateAccount_FromXDR (destination : AccountId) (startingBalance : Z) : TxnBody :=
  TxnCreateAccount (address destination) (Amount.String startingBalance).
Definition Payment_FromXDR (destination : MuxedAccount) (asset : Asset) (amount : Z) : TxnBody :=
  TxnPayment (muxed_address destination) (Amount.String amount) (asset_read asset).
Definition PathPaymentStrictReceive_FromXDR (op : PathPaymentStrictReceive) : TxnBody :=
  TxnPathPaymentStrictReceive (MkPathPayment (asset_read (Receive_SendAsset op)) (Amount.String (Receive_SendMax op))
    (muxed_address (Receive_Destination op)) (asset_read (Receive_DestAsset op)) (Amount.String (Receive_DestAmount op))
    (asset_read <$> Receive_Path op)).
Definition PathPaymentStrictSend_FromXDR (op : PathPaymentStrictSend) : TxnBody :=
  TxnPathPaymentStrictSend (MkPathPayment (asset_read (Send_SendAsset op)) (Amount.String (Send_SendAmount op))
    (muxed_address (Send_Destination op)) (asset_read (Send_DestAsset op)) (Amount.String (Send_DestMin op))
    (asset_read <$> Send_Path op)).
Definition ManageSellOffer_FromXDR (op : ManageOffer) : TxnBody := TxnManageSellOffer (Offer_FromXDR op).
Definition ManageBuyOffer_FromXDR (op : ManageOffer) : TxnBody := TxnManageBuyOffer (Offer_FromXDR op).
Definition CreatePassiveSellOffer_FromXDR (op : ManageOffer) : TxnBody := TxnCreatePassiveSellOffer (Offer_FromXDR op).
Definition ChangeTrust_FromXDR (line : Asset) (limit : Z) : TxnBody := TxnChangeTrust (asset_read line) (Amount.String limit).
Definition AllowTrust_FromXDR (trustor : AccountId) (asset : AllowTrustOpAsset) (authorize : Z) : TxnBody :=
  TxnAllowTrust (address trustor) (Some (AllowTrust_asset asset)) (IsAuthorized authorize)
    (IsAuthorizedToMaintainLiabilitiesFlag authorize).
Definition AccountMerge_FromXDR (destination : MuxedAccount) : TxnBody := TxnAccountMerge (muxed_address destination).
Definition ManageData_FromXDR (dataName : gostring) (dataValue : option (list Z)) : TxnBody := TxnManageData dataName dataValue.
Definition BumpSequence_FromXDR (bumpTo : Z) : TxnBody := TxnBumpSequence bumpTo.
Definition CreateClaimableBalance_FromXDR (asset : Asset) (amount : Z) (claimants : list Claimant) : TxnBody :=
  TxnCreateClaimableBalance (Amount.String amount) (asset_read asset) ((λ c, (address (Destination c), Predicate c)) <$> claimants).
Definition ClaimClaimableBalance_FromXDR (balanceID : ClaimableBalanceId) : TxnBody := TxnClaimClaimableBalance (MarshalHex_BalanceId balanceID).
Definition BeginSponsoringFutureReserves_FromXDR (sponsoredID : AccountId) : TxnBody :=
  TxnBeginSponsoringFutureReserves (address sponsoredID).

Definition Body_FromXDR (x : OperationBody) : outcome txn_error TxnBody :=
  match x with
  | CreateAccountOp id v => Ret (CreateAccount_FromXDR id v)
  | PaymentOp dest a v => Ret (Payment_FromXDR dest a v)
  | PathPaymentStrictReceiveOp op => Ret (PathPaymentStrictReceive_FromXDR op)
  | PathPaymentStrictSendOp op => Ret (PathPaymentStrictSend_FromXDR op)
  | ManageSellOfferOp op => Ret (ManageSellOffer_FromXDR op)
  | ManageBuyOfferOp op => Ret (ManageBuyOffer_FromXDR op)
  | CreatePassiveSellOfferOp op => Ret (CreatePassiveSellOffer_FromXDR op)
  | SetOptionsOp op => so ← SetOptions_FromXDR op; Ret (TxnSetOptionsOp so)
  | ChangeTrustOp line limit => Ret (ChangeTrust_FromXDR line limit)
  | AllowTrustOp trustor a authorize => Ret (AllowTrust_FromXDR trustor a authorize)
  | AccountMergeOp dest => Ret (AccountMerge_FromXDR dest)
  | InflationOp => Ret TxnInflation
  | ManageDataOp name value => Ret (ManageData_FromXDR name value)
  | BumpSequenceOp bumpTo => Ret (BumpSequence_FromXDR bumpTo)
  | CreateClaimableBalanceOp a v claimants => Ret (CreateClaimableBalance_FromXDR a v claimants)
  | ClaimClaimableBalanceOp id => Ret (ClaimClaimableBalance_FromXDR id)
  | BeginSponsoringFutureReservesOp id => Ret (BeginSponsoringFutureReserves_FromXDR id)
  | EndSponsoringFutureReservesOp => Ret TxnEndSponsoringFutureReserves
  | RevokeSponsorshipOp op => r ← RevokeSponsorship_FromXDR op; Ret (TxnRevokeSponsorship r)
  end.
Definition operationFromXDR (xdrOp : Operation) : outcome txn_error TxnOperation :=
  body ← Body_FromXDR (Body xdrOp);
  Ret (MkTxnOperation (accountFromXDR (Op_SourceAccount xdrOp)) body).

(** ** Validation *)

Definition validate_account (s : gostring) : outcome txn_error unit :=
  _ ← map_fail ErrXdr (AddressToAccountId s); Ret tt.
(** The amounts are checked in the order in which both kinds name them. *)
Definition PathPayment_Validate (first second : string) (pp : TxnPathPayment) : outcome txn_error unit :=
  _ ← in_field "Destination" (validate_account (pp_Destination pp));
  _ ← in_field "SendAsset" (validateHcnetAsset (pp_SendAsset pp));
  _ ← in_field "DestAsset" (validateHcnetAsset (pp_DestAsset pp));
  _ ← in_field first (validateAmount (pp_SendAmount pp));
  in_field second (validateAmount (pp_DestAmount pp)).
Definition RevokeSponsorship_Validate (r : TxnRevoke) : outcome txn_error unit :=
  match r with
  | RevokeSponsorshipTypeAccount a => a ← required "Account" a; validateHcnetPublicKey a
  | RevokeSponsorshipTypeTrustLine t =>
      '(a, asset) ← required "Trustline" t; _ ← validateHcnetPublicKey a; validateHcnetAsset asset
  | RevokeSponsorshipTypeOffer o =>
      '(a, _) ← required "Offer" o; _ ← validateHcnetPublicKey a; validateHcnetPublicKey a
  | RevokeSponsorshipTypeData d => '(a, _) ← required "Data" d; validateHcnetPublicKey a
  | RevokeSponsorshipTypeClaimableBalance b => b ← required "ClaimableBalance" b; _ ← UnmarshalHex_BalanceId b; Ret tt
  | RevokeSponsorshipTypeSigner s =>
      '(a, k) ← required "Signer" s; _ ← validateHcnetPublicKey a; validateHcnetSignerKey k
  | RevokeSponsorshipTypeOther type => Fail (ErrSponsorshipType type)
  end.
Definition CreateAccount_Validate (destination amount : gostring) : outcome txn_error unit :=
  _ ← in_field "Destination" (validateHcnetPublicKey destination); in_field "Amount" (validateAmount amount).
Definition Payment_Validate (destination amount : gostring) (asset : option TxnAsset) : outcome txn_error unit :=
  _ ← in_field "Destination" (validate_account destination);
  _ ← in_field "Asset" (validateHcnetAsset asset);
  in_field "Amount" (validateAmount amount).
Definition PathPaymentStrictReceive_Validate (pp : TxnPathPayment) : outcome txn_error unit :=
  PathPayment_Validate "SendMax" "DestAmount" pp.
Definition PathPaymentStrictSend_Validate (pp : TxnPathPayment) : outcome txn_error unit :=
  PathPayment_Validate "SendAmount" "DestMin" pp.
Definition ManageSellOffer_Validate (mo : TxnOffer) : outcome txn_error unit :=
  validateOffer (mo_Buying mo) (mo_Selling mo) (mo_Amount mo) (mo_Price mo) (mo_OfferID mo).
Definition ManageBuyOffer_Validate (mo : TxnOffer) : outcome txn_error unit :=
  validateOffer (mo_Buying mo) (mo_Selling mo) (mo_Amount mo) (mo_Price mo) (mo_OfferID mo).
Definition CreatePassiveSellOffer_Validate (mo : TxnOffer) : outcome txn_error unit :=
  validatePassiveOffer (mo_Buying mo) (mo_Selling mo) (mo_Amount mo) (mo_Price mo).
Definition ChangeTrust_Validate (line : option TxnAsset) (limit : gostring) : outcome txn_error unit :=
  _ ← (if bool_decide (limit = []) then Ret tt else in_field "Limit" (validateAmount limit));
  in_field "Line" (validateChangeTrustAsset line).
Definition AllowTrust_Validate (trustor : gostring) (type : option TxnAsset) : outcome txn_error unit :=
  _ ← in_field "Trustor" (validateHcnetPublicKey trustor); in_field "Type" (validateAllowTrustAsset type).
Definition AccountMerge_Validate (destination : gostring) : outcome txn_error unit :=
  in_field "Destination" (validate_account destination).
Definition ManageData_Validate (name : gostring) (value : option (list Z)) : outcome txn_error unit :=
  if (64 <? length name)%nat then Fail (ErrTooLong (str "Name"))
  else if (64 <? length (default [] value))%nat then Fail (ErrTooLong (str "Value")) else Ret tt.
Definition BumpSequence_Validate (bumpTo : Z) : outcome txn_error unit := in_field "BumpTo" (validate_int bumpTo).
Definition CreateClaimableBalance_Validate (amount : gostring) (asset : option TxnAsset) (destinations : list (gostring * ClaimPredicate))
  : outcome txn_error unit :=
  _ ← mmap (λ d : gostring * ClaimPredicate, in_field "Destinations" (validateHcnetPublicKey d.1)) destinations;
  _ ← in_field "Amount" (validateAmount amount);
  in_field "Asset" (validateHcnetAsset asset).
Definition ClaimClaimableBalance_Validate (balanceID : gostring) : outcome txn_error unit :=
  in_field "BalanceID" (_ ← UnmarshalHex_BalanceId balanceID; Ret tt).
Definition BeginSponsoringFutureReserves_Validate (sponsoredID : gostring) : outcome txn_error unit :=
  in_field "SponsoredID" (validateHcnetPublicKey sponsoredID).

Definition Body_Validate (body : TxnBody) : outcome txn_error unit :=
  match body with
  | TxnCreateAccount destination amount => CreateAccount_Validate destination amount
  | TxnPayment destination amount asset => Payment_Validate destination amount asset
  | TxnPathPaymentStrictReceive pp => PathPaymentStrictReceive_Validate pp
  | TxnPathPaymentStrictSend pp => PathPaymentStrictSend_Validate pp
  | TxnManageSellOffer mo => ManageSellOffer_Validate mo
  | TxnManageBuyOffer mo => ManageBuyOffer_Validate mo
  | TxnCreatePassiveSellOffer mo => CreatePassiveSellOffer_Validate mo
  | TxnSetOptionsOp _ => Ret tt
  | TxnChangeTrust line limit => ChangeTrust_Validate line limit
  | TxnAllowTrust trustor type _ _ => AllowTrust_Validate trustor type
  | TxnAccountMerge destination => AccountMerge_Validate destination
  | TxnInflation => Ret tt
  | TxnManageData name value => ManageData_Validate name value
  | TxnBumpSequence bumpTo => BumpSequence_Validate bumpTo
  | TxnCreateClaimableBalance amount asset destinations => CreateClaimableBalance_Validate amount asset destinations
  | TxnClaimClaimableBalance balanceID => ClaimClaimableBalance_Validate balanceID
  | TxnBeginSponsoringFutureReserves id => BeginSponsoringFutureReserves_Validate id
  | TxnEndSponsoringFutureReserves => Ret tt
  | TxnRevokeSponsorship r => RevokeSponsorship_Validate r
  end.
Definition Validate (op : TxnOperation) : outcome txn_error unit := Body_Validate (op_Body op).
