(* ===== verification/TxnRoundtrip.v ===== *)
(** * txnbuild: operations that are read are built again

    An operation of a transaction that the protocol allows and that the values of
    [TxnOperations] can hold is read into a value that passes validation and from
    which the same operation is built; and an operation can be built any number of
    times. *)

From S2P Require Import Prelude Encoding Strkey Amount Price FloatText Xdr LedgerEntry Transaction TxnTypes TxnOperations.

(** ** The operations that can be held

    Accounts are not multiplexed, assets have codes of letters and digits, flags
    are the three known ones, thresholds have eight bits. *)

Definition plain_account (m : MuxedAccount) : Prop :=
  match m with KeyTypeEd25519 ed => wf_bytes 32 ed | KeyTypeMuxedEd25519 _ _ => False end.
Definition plain_allow_trust (a : AllowTrustOpAsset) : Prop :=
  match a with AllowTrustCode4 code => valid_code 1 4 code | AllowTrustCode12 code => valid_code 5 12 code end.
(** The text of the price is a price, as the builder parses it. *)
Definition plain_price (p : Price) : Prop :=
  is_i32 (N p) ∧ is_i32 (D p) ∧ p ≠ MkPrice 0 0 ∧ ∃ q, Price.Parse (FormatQuotient (N p) (D p)) = Ret q.
Definition plain_offer (mo : ManageOffer) : Prop :=
  valid_asset (Manage_Selling mo) ∧ valid_asset (Manage_Buying mo) ∧ is_i64 (Manage_Amount mo) ∧ plain_price (Manage_Price mo).
Definition opt_all {A} (P : A → Prop) (x : option A) : Prop := match x with Some a => P a | None => True end.
Definition plain_options (x : SetOptions) : Prop :=
  opt_all wf_account (Set_InflationDest x) ∧ opt_all (λ f, 1 ≤ f ≤ 7) (Set_ClearFlags x) ∧ opt_all (λ f, 1 ≤ f ≤ 7) (Set_SetFlags x) ∧
  opt_all is_u8 (Set_MasterWeight x) ∧ opt_all is_u8 (Set_LowThreshold x) ∧ opt_all is_u8 (Set_MedThreshold x) ∧
  opt_all is_u8 (Set_HighThreshold x) ∧ opt_all (λ d, length d ≤ 32)%nat (Set_HomeDomain x) ∧
  opt_all (λ s, wf_signer (Key s) ∧ is_u8 (Weight s)) (Set_Signer x).
Definition plain_key (k : LedgerKey) : Prop :=
  match k with
  | LedgerEntryTypeAccount id | LedgerEntryTypeOffer id _ | LedgerEntryTypeData id _ => wf_account id
  | LedgerEntryTypeTrustline id a => wf_account id ∧ valid_asset a
  | LedgerEntryTypeClaimableBalance b => wf_bytes 32 (V0 b)
  end.
Definition plain_body (x : OperationBody) : Prop :=
  match x with
  | CreateAccountOp id v => wf_account id ∧ is_i64 v
  | PaymentOp dest a v => plain_account dest ∧ valid_asset a ∧ is_i64 v
  | PathPaymentStrictReceiveOp p =>
      valid_asset (Receive_SendAsset p) ∧ is_i64 (Receive_SendMax p) ∧ plain_account (Receive_Destination p) ∧
      valid_asset (Receive_DestAsset p) ∧ is_i64 (Receive_DestAmount p) ∧ Forall valid_asset (Receive_Path p)
  | PathPaymentStrictSendOp p =>
      valid_asset (Send_SendAsset p) ∧ is_i64 (Send_SendAmount p) ∧ plain_account (Send_Destination p) ∧
      valid_asset (Send_DestAsset p) ∧ is_i64 (Send_DestMin p) ∧ Forall valid_asset (Send_Path p)
  | ManageSellOfferOp mo | ManageBuyOfferOp mo => plain_offer mo
  | CreatePassiveSellOfferOp mo => plain_offer mo ∧ Manage_OfferId mo = 0
  | SetOptionsOp so => plain_options so
  | ChangeTrustOp line limit => valid_asset line ∧ line ≠ AssetTypeNative ∧ is_i64 limit
  | AllowTrustOp id a authorize => wf_account id ∧ plain_allow_trust a ∧ 0 ≤ authorize ≤ 2
  | AccountMergeOp dest => plain_account dest
  | InflationOp | EndSponsoringFutureReservesOp | ManageDataOp _ _ | BumpSequenceOp _ => True
  | CreateClaimableBalanceOp a v claimants =>
      valid_asset a ∧ is_i64 v ∧ Forall (λ c, wf_account (Destination c)) claimants
  | ClaimClaimableBalanceOp b => wf_bytes 32 (V0 b)
  | BeginSponsoringFutureReservesOp id => wf_account id
  | RevokeSponsorshipOp (RevokeLedgerEntry k) => plain_key k
  | RevokeSponsorshipOp (RevokeSigner id key) => wf_account id ∧ wf_signer key
  end.
Definition plain_operation (x : Operation) : Prop := opt_all plain_account (Op_SourceAccount x) ∧ plain_body (Body x).

(** ** Values *)

Lemma account_roundtrip id : wf_account id → set_account (address id) = Ret id.
Proof. intros H. unfold set_account. by rewrite SetAddress_address. Qed.

Lemma Muxed_SetAddress_address id : wf_account id → Muxed_SetAddress (address id) = Ret (KeyTypeEd25519 (Ed25519 id)).
Proof.
  intros H. pose proof (SetAddress_address id H) as E. unfold Muxed_SetAddress, AccountId_SetAddress in *.
  rewrite address_length by apply H. cbn [Nat.eqb]. destruct (map_fail Xdr.ErrStrkey _) as [raw| |]; [|done..]. outcome_simpl.
  destruct (length raw =? 32)%nat; [|done]. by injection E as <-.
Qed.

Lemma muxed_roundtrip m : plain_account m → set_muxed (muxed_address m) = Ret m.
Proof.
  destruct m as [ed|]; [|done]. intros H. unfold set_muxed, muxed_address. cbn [ToAccountId].
  by rewrite Muxed_SetAddress_address.
Qed.

Lemma SetOpSourceAccount_roundtrip source :
  opt_all plain_account source → SetOpSourceAccount (accountFromXDR source) = Ret source.
Proof.
  destruct source as [[ed|]|]; [|done|done]. intros H. unfold SetOpSourceAccount, accountFromXDR. cbn [fmap option_fmap option_map].
  unfold GetAccountID, SimpleAccount_Account. cbn [AccountID ToAccountId].
  by rewrite (Muxed_SetAddress_address (MkAccountId ed)).
Qed.

Lemma amount_roundtrip v : is_i64 v → parse_amount (Amount.String v) = Ret v.
Proof. intros H. unfold parse_amount. by rewrite Parse_String. Qed.

Lemma alnum_nonzero c : Forall (λ x, is_alnum x = true) c → Forall (λ x, x ≠ 0) c.
Proof. by apply alnum_plain. Qed.

Lemma trim_zeros_code lo hi code : (1 ≤ lo)%nat → valid_code lo hi code →
  ∃ c, trim_zeros code = c ∧ code = copy_pad hi c ∧ (lo ≤ length c ≤ hi)%nat.
Proof.
  intros Hlo (c & -> & Hl & Hc). exists c. split; [|done]. pose proof (alnum_nonzero _ Hc) as Hz.
  unfold trim_zeros. rewrite <- (trim_right_copy hi c) at 2 by (done || lia). f_equal.
  destruct c as [|x c]; [simpl in Hl; lia|]. unfold copy_pad. destruct hi as [|hi]; [lia|]. cbn [take app trim_left].
  apply Forall_cons in Hz as [Hx _]. by destruct x.
Qed.

Lemma code_length4 (c : list Z) : (1 ≤ length c ≤ 4)%nat → (1 <=? length c)%nat && (length c <=? 4)%nat = true.
Proof. intros [? ?]. apply andb_true_intro. split; by apply Nat.leb_le. Qed.
Lemma code_length12 (c : list Z) : (5 ≤ length c ≤ 12)%nat →
  (1 <=? length c)%nat && (length c <=? 4)%nat = false ∧ (5 <=? length c)%nat && (length c <=? 12)%nat = true.
Proof.
  intros [? ?]. split; [apply andb_false_intro2, Nat.leb_gt; lia|]. apply andb_true_intro. split; by apply Nat.leb_le.
Qed.

Lemma asset_roundtrip a : valid_asset a → Asset_ToXDR (assetFromXDR a) = Ret a.
Proof.
  destruct a as [|code issuer|code issuer]; [done|intros [Hc Hi]..]; cbn [assetFromXDR Asset_ToXDR];
    rewrite SetAddress_address by done; outcome_simpl; cbn [map_fail outcome_bind]; unfold SetCredit.
  - destruct (trim_zeros_code 1 4 code) as (c & -> & -> & Hl); [lia|done|]. by rewrite code_length4.
  - destruct (trim_zeros_code 5 12 code) as (c & -> & -> & Hl); [lia|done|]. by destruct (code_length12 c Hl) as [-> ->].
Qed.

Lemma call_asset_roundtrip a : valid_asset a → call (Some (assetFromXDR a)) Asset_ToXDR = Ret a.
Proof. apply asset_roundtrip. Qed.

Lemma allow_trust_roundtrip a : plain_allow_trust a →
  ToAllowTrustOpAsset (Asset_GetCode (AllowTrust_asset a)) = Ret a.
Proof.
  unfold ToAllowTrustOpAsset, NewAllowTrustAsset. destruct a as [code|code]; intros Hc; cbn [AllowTrust_asset Asset_GetCode].
  - destruct (trim_zeros_code 1 4 code) as (c & -> & -> & Hl); [lia|done|]. by rewrite code_length4.
  - destruct (trim_zeros_code 5 12 code) as (c & -> & -> & Hl); [lia|done|]. by destruct (code_length12 c Hl) as [-> ->].
Qed.

Lemma signer_roundtrip key : wf_signer key →
  ∃ s, SignerKey_Address (Some key) = Ret s ∧ SignerKey_SetAddress s = Ret key.
Proof. intros H. destruct (SignerKey_roundtrip key H) as (s & ? & ? & _). eauto. Qed.

Lemma hex_length src : length (Hex.EncodeToString src) = (2 * length src)%nat.
Proof. induction src as [|b src IH]; [done|]. cbn [Hex.EncodeToString length]. rewrite IH. lia. Qed.

Lemma balance_roundtrip b : wf_bytes 32 (V0 b) → UnmarshalHex_BalanceId (MarshalHex_BalanceId b) = Ret b.
Proof.
  intros [Hl Hb]. unfold UnmarshalHex_BalanceId, MarshalHex_BalanceId.
  assert (length (Hex.EncodeToString ([0; 0; 0; 0] ++ V0 b)) = 72%nat) as Hlen.
  { rewrite hex_length, length_app, Hl. done. }
  rewrite take_ge by lia. rewrite Hex.hex_Decode_Encode.
  - rewrite Hlen. cbn [app]. rewrite Hl. cbn. by destruct b.
  - apply Forall_app. split; [|done]. repeat constructor; done.
Qed.

(** ** Prices *)

Lemma Parse_nonempty s q : Price.Parse s = Ret q → s ≠ [].
Proof. by intros H ->. Qed.

Lemma price_not_zero p : p ≠ MkPrice 0 0 → (N p =? 0) && (D p =? 0) = false.
Proof.
  destruct p as [n d]. cbn [N D]. intros H. apply andb_false_iff. destruct (Z.eqb_spec n 0) as [->|]; [|by left].
  right. apply Z.eqb_neq. by intros ->.
Qed.

(** The text of the pair that is kept denotes what the text to be parsed denotes,
    so that the pair is used, not the approximation. *)
Lemma price_roundtrip p : plain_price p →
  let kept := price_fromXDR no_price p in
  price_parse kept (price_s kept) = Ret kept ∧ price_toXDR kept = p ∧ p ≠ MkPrice 0 0.
Proof.
  destruct p as [n d]. intros (Hn & Hd & Hz & q & Hq). cbv zeta. unfold price_fromXDR. cbn [price_n price_d no_price].
  rewrite (price_not_zero _ Hz). cbn [N D] in *.
  cbn [price_s]. split; [|split; [|done]].
  - unfold price_parse. cbn [price_s]. rewrite !bool_decide_eq_false_2 by (by eapply Parse_nonempty). rewrite Hq.
    outcome_simpl. cbn [map_fail outcome_bind]. by rewrite bool_decide_eq_true_2.
  - unfold price_toXDR. cbn [price_n price_d]. by rewrite !i32_small.
Qed.

Lemma offer_roundtrip mo : plain_offer mo →
  Offer_build (Offer_FromXDR mo) (Manage_OfferId mo) = Ret mo ∧ mo_OfferID (Offer_FromXDR mo) = Manage_OfferId mo.
Proof.
  intros (Hs & Hb & Ha & Hp). destruct (price_roundtrip _ Hp) as (Hparse & Hto & Hz).
  unfold Offer_FromXDR. cbv zeta in *. rewrite bool_decide_eq_false_2 by done. unfold Offer_build.
  cbn [mo_Selling mo_Buying mo_Amount mo_Price mo_price mo_OfferID]. split; [|done].
  rewrite !call_asset_roundtrip by done. outcome_simpl. rewrite amount_roundtrip by done. outcome_simpl. rewrite Hparse.
  outcome_simpl. rewrite Hto. by destruct mo.
Qed.

(** ** Options *)

Lemma flags_roundtrip f : opt_all (λ f, 1 ≤ f ≤ 7) f → set_or None (flag_bits (flags_of f)) = f.
Proof.
  destruct f as [f|]; [|done]. intros Hf. cbn [opt_all] in Hf.
  assert (f ∈ [1; 2; 3; 4; 5; 6; 7]) as H by (rewrite !elem_of_cons; lia).
  clear Hf. revert f H. apply Forall_forall. repeat constructor.
Qed.

Lemma threshold_roundtrip w : opt_all is_u8 w → set_or None (threshold_of w) = w.
Proof. destruct w as [w|]; [|done]. intros H. cbn [threshold_of fmap option_fmap option_map set_or]. by rewrite u8_small. Qed.

Lemma options_roundtrip x : plain_options x →
  ∃ so, SetOptions_FromXDR x = Ret so ∧ SetOptions_build so = (x, Ret x).
Proof.
  intros (Hi & Hc & Hf & Hm & Hl & Hd & Hh & Hh' & Hs). unfold SetOptions_FromXDR.
  assert (∃ signer, (match Set_Signer x with
      | None => Ret None
      | Some s => a ← map_fail ErrXdr (SignerKey_Address (Some (Key s))); Ret (Some (MkTxnSigner a (u8 (Weight s))))
      end) = Ret signer ∧ match signer with
      | None => Set_Signer x = None
      | Some s => ∃ k, SignerKey_SetAddress (Signer_Address s) = Ret k ∧ Set_Signer x = Some (MkSigner k (Signer_Weight s))
      end) as (signer & -> & Hsig).
  { destruct (Set_Signer x) as [[k w]|]; [|by exists None]. destruct Hs as [Hk Hw]. cbn [Key Weight] in *.
    destruct (signer_roundtrip k Hk) as (s & -> & Hset). eexists. split; [done|]. cbn [Signer_Address Signer_Weight]. rewrite u8_small by done. eauto. }
  outcome_simpl. eexists. split; [done|]. unfold SetOptions_build. cbn [so_xdrOp].
  unfold handleInflation. cbn [so_InflationDestination].
  assert ((match address <$> Set_InflationDest x with
    | Some s => id ← map_fail ErrXdr (AccountId_SetAddress s); Ret (with_InflationDest no_options (Some id))
    | None => Ret no_options end) = Ret (E := txn_error) (with_InflationDest no_options (Set_InflationDest x))) as ->.
  { destruct (Set_InflationDest x) as [id|]; [|done]. cbn [fmap option_fmap option_map]. by rewrite SetAddress_address. }
  unfold handleHomeDomain, handleNumbers. cbn [so_HomeDomain so_ClearFlags so_SetFlags so_MasterWeight so_LowThreshold so_MediumThreshold so_HighThreshold].
  cbn [with_InflationDest no_options Set_InflationDest Set_ClearFlags Set_SetFlags Set_MasterWeight Set_LowThreshold Set_MedThreshold Set_HighThreshold Set_HomeDomain Set_Signer].
  rewrite !flags_roundtrip, !threshold_roundtrip by done.
  set (y := MkSetOptions _ _ _ _ _ _ _ None None).
  assert ((match Set_HomeDomain x with
    | Some d => if (32 <? length d)%nat then Fail ErrHomeDomain else Ret (with_HomeDomain y (Some d))
    | None => Ret y end) = Ret (with_HomeDomain y (Set_HomeDomain x))) as ->.
  { destruct (Set_HomeDomain x) as [d|]; [|done]. cbn [opt_all] in Hh'. by rewrite (proj2 (Nat.ltb_ge _ _)). }
  unfold handleSigner. cbn [so_Signer]. destruct signer as [s|].
  - destruct Hsig as (k & Hk & E). rewrite Hk. outcome_simpl. cbn [map_fail outcome_bind]. rewrite <- E. by destruct x.
  - cbn [with_HomeDomain y]. destruct x; simpl in *; by subst.
Qed.

(** ** Lists *)

Lemma mmap_roundtrip {A B} (read : A → B) (build : B → outcome txn_error A) (P : A → Prop) l :
  (∀ a, P a → build (read a) = Ret a) → Forall P l → mmap build (read <$> l) = Ret l.
Proof.
  intros H Hl. apply mmap_Ret. induction Hl as [|a l Ha _ IH]; [constructor|]. rewrite fmap_cons. constructor; [by apply H|done].
Qed.

Lemma path_roundtrip l : Forall valid_asset l → mmap (λ asset, call asset Asset_ToXDR) ((λ a, Some (assetFromXDR a)) <$> l) = Ret l.
Proof. apply mmap_roundtrip, call_asset_roundtrip. Qed.

Lemma claimants_roundtrip l : Forall (λ c, wf_account (Destination c)) l →
  mmap (λ d : gostring * ClaimPredicate, id ← set_account d.1; Ret (MkClaimant id d.2))
    ((λ c, (address (Destination c), Predicate c)) <$> l) = Ret l.
Proof.
  apply (mmap_roundtrip (λ c, (address (Destination c), Predicate c))). intros [id p] H. cbn [Destination Predicate fst snd] in *.
  by rewrite account_roundtrip.
Qed.

(** ** Bodies *)

(** The operation's own methods behind those of the interface. *)
Ltac build_op := cbv beta iota delta [Body_BuildXDR CreateAccount_BuildXDR Payment_BuildXDR PathPaymentStrictReceive_BuildXDR PathPaymentStrictSend_BuildXDR ManageSellOffer_BuildXDR ManageBuyOffer_BuildXDR CreatePassiveSellOffer_BuildXDR SetOptions_BuildXDR AccountMerge_BuildXDR Inflation_BuildXDR ManageData_BuildXDR BumpSequence_BuildXDR CreateClaimableBalance_BuildXDR ClaimClaimableBalance_BuildXDR BeginSponsoringFutureReserves_BuildXDR EndSponsoringFutureReserves_BuildXDR RevokeSponsorship_BuildXDR].
Ltac read_op := cbv beta iota delta [Body_FromXDR asset_read CreateAccount_FromXDR Payment_FromXDR PathPaymentStrictReceive_FromXDR PathPaymentStrictSend_FromXDR ManageSellOffer_FromXDR ManageBuyOffer_FromXDR CreatePassiveSellOffer_FromXDR ChangeTrust_FromXDR AllowTrust_FromXDR AccountMerge_FromXDR ManageData_FromXDR BumpSequence_FromXDR CreateClaimableBalance_FromXDR ClaimClaimableBalance_FromXDR BeginSponsoringFutureReserves_FromXDR].
Ltac validate_op := cbv beta iota delta [Body_Validate CreateAccount_Validate Payment_Validate PathPaymentStrictReceive_Validate PathPaymentStrictSend_Validate ManageSellOffer_Validate ManageBuyOffer_Validate CreatePassiveSellOffer_Validate ChangeTrust_Validate AllowTrust_Validate AccountMerge_Validate ManageData_Validate BumpSequence_Validate CreateClaimableBalance_Validate ClaimClaimableBalance_Validate BeginSponsoringFutureReserves_Validate].

(** Rewriting with the round trips of the values, one bind at a time. *)
Ltac roundtrip :=
  repeat (first [rewrite account_roundtrip by tauto | rewrite muxed_roundtrip by tauto | rewrite amount_roundtrip by tauto
    | rewrite asset_roundtrip by tauto | rewrite call_asset_roundtrip by tauto | rewrite path_roundtrip by tauto
    | rewrite claimants_roundtrip by tauto | rewrite balance_roundtrip by tauto]; outcome_simpl).

Lemma path_payment_roundtrip first second send x dest destAsset y path pp :
  pp_SendAsset pp = Some (assetFromXDR send) → first = Amount.String x → pp_Destination pp = muxed_address dest →
  pp_DestAsset pp = Some (assetFromXDR destAsset) → second = Amount.String y → pp_Path pp = (λ a, Some (assetFromXDR a)) <$> path →
  valid_asset send ∧ is_i64 x ∧ plain_account dest ∧ valid_asset destAsset ∧ is_i64 y ∧ Forall valid_asset path →
  PathPayment_build first second pp = Ret (send, x, dest, destAsset, y, path).
Proof.
  intros E1 -> E2 E3 -> E4 H. unfold PathPayment_build. rewrite E1, E2, E3, E4. cbn [require_asset]. outcome_simpl. by roundtrip.
Qed.

Lemma revoke_roundtrip r : plain_body (RevokeSponsorshipOp r) →
  ∃ t, RevokeSponsorship_FromXDR r = Ret t ∧ Revoke_build t = Ret r.
Proof.
  destruct r as [[id|id a|id n|id name|b]|id key]; cbn [plain_body plain_key]; intros H; cbn [RevokeSponsorship_FromXDR].
  1-5: eexists; split; [done|]; cbn [Revoke_build required]; outcome_simpl; by roundtrip.
  destruct H as [Hid Hk]. destruct (signer_roundtrip key Hk) as (s & -> & Hs). outcome_simpl. cbn [map_fail outcome_bind].
  eexists. split; [done|]. cbn [Revoke_build required]. outcome_simpl. rewrite account_roundtrip by done. outcome_simpl. by rewrite Hs.
Qed.

Lemma allow_trust_flags authorize : 0 ≤ authorize ≤ 2 →
  (if IsAuthorized authorize then TrustLineFlagsAuthorizedFlag
   else if IsAuthorizedToMaintainLiabilitiesFlag authorize then TrustLineFlagsAuthorizedToMaintainLiabilitiesFlag else 0) = authorize.
Proof. intros H. assert (authorize = 0 ∨ authorize = 1 ∨ authorize = 2) as [-> | [-> | ->]] by lia; done. Qed.

Lemma body_roundtrip x : plain_body x → ∃ body, Body_FromXDR x = Ret body ∧ Body_BuildXDR body = Ret x.
Proof.
  destruct x as [id v|dest a v|p|mo|mo|so|line limit|id a auth|dest| |name value|n|mo|p|a v cl|b|id| |r];
    cbn [plain_body]; intros H; read_op.
  all: try (eexists; split; [done|]; build_op; cbn [require_asset]; by roundtrip).
  - eexists; split; [done|]. build_op. destruct p. by erewrite path_payment_roundtrip.
  - eexists; split; [done|]. build_op. destruct (offer_roundtrip mo H) as [Hb E]. by rewrite E, Hb.
  - eexists; split; [done|]. build_op. destruct H as [H E]. destruct (offer_roundtrip mo H) as [Hb _]. by rewrite E in Hb; rewrite Hb.
  - destruct (options_roundtrip so H) as (t & -> & Hb). outcome_simpl. eexists; split; [done|]. build_op. by rewrite Hb.
  - eexists; split; [done|]. build_op. unfold ChangeTrust_BuildXDR. destruct H as (Hl & Hn & Hv).
    assert (Asset_IsNative (assetFromXDR line) = false) as E by (by destruct line). cbn [call]. outcome_simpl. rewrite E.
    rewrite asset_roundtrip by done. outcome_simpl. unfold effective_limit. rewrite bool_decide_eq_false_2; [by roundtrip|].
    intros E0. pose proof (Parse_String limit Hv) as Hp. by rewrite E0 in Hp.
  - eexists; split; [done|]. build_op. unfold AllowTrust_BuildXDR. rewrite account_roundtrip by tauto. outcome_simpl.
    assert (Asset_IsNative (AllowTrust_asset a) = false) as E by (by destruct a). cbn [call]. outcome_simpl. rewrite E.
    rewrite allow_trust_roundtrip by tauto. outcome_simpl. cbn [map_fail outcome_bind]. by rewrite allow_trust_flags by tauto.
  - eexists; split; [done|]. build_op. destruct (offer_roundtrip mo H) as [Hb E]. by rewrite E, Hb.
  - eexists; split; [done|]. build_op. destruct p. erewrite path_payment_roundtrip; [done..|].
    destruct H as (H1 & H2 & H3 & H4 & H5 & H6). exact (conj H1 (conj H5 (conj H3 (conj H4 (conj H2 H6))))).
  - destruct (revoke_roundtrip r H) as (t & -> & Hb). outcome_simpl. eexists; split; [done|]. build_op. by rewrite Hb.
Qed.

Lemma operation_roundtrip x : plain_operation x → ∃ op, operationFromXDR x = Ret op ∧ BuildXDR op = Ret x.
Proof.
  intros [Hs Hb]. destruct (body_roundtrip _ Hb) as (body & Hr & Hbuild). unfold operationFromXDR. rewrite Hr. outcome_simpl.
  eexists. split; [done|]. unfold BuildXDR. cbn [op_Body op_SourceAccount]. rewrite Hbuild. outcome_simpl.
  rewrite SetOpSourceAccount_roundtrip by done. by destruct x.
Qed.

(** ** Building again *)

Lemma price_parse_kept p s p' : price_parse p s = Ret p' → price_parse p' s = Ret p'.
Proof.
  unfold price_parse. destruct (bool_decide (s = [])) eqn:Es; [done|]. destruct (Price.Parse s) as [x| |] eqn:Hx; [|done..].
  outcome_simpl. cbn [map_fail outcome_bind].
  destruct (if bool_decide (price_s p = []) then _ else _) as [y| |] eqn:Hy; [|intros [= <-]; cbn [price_s]; rewrite Es, Hx; by rewrite bool_decide_eq_true_2|done].
  destruct (bool_decide (x = y)) eqn:Exy; intros [= <-].
  - by rewrite Hy, Exy.
  - cbn [price_s]. rewrite Es, Hx. by rewrite bool_decide_eq_true_2.
Qed.

Lemma set_or_idemp {A} (kept new : option A) : set_or (set_or kept new) new = set_or kept new.
Proof. by destruct new. Qed.

(** A handler that wrote its field leaves options alone that hold this field; one
    that fails, fails on all options. *)
Lemma handleInflation_again so x : 
  match handleInflation so x with
  | Ret x1 => x1 = with_InflationDest x (Set_InflationDest x1) ∧
      ∀ y, Set_InflationDest y = Set_InflationDest x1 → handleInflation so y = Ret y
  | r => ∀ y, handleInflation so y = r
  end.
Proof.
  unfold handleInflation. destruct (so_InflationDestination so) as [a|]; [|split; [by destruct x|done]].
  destruct (map_fail ErrXdr (AccountId_SetAddress a)) as [id| |]; outcome_simpl; [|done..]. cbn [with_InflationDest Set_InflationDest].
  split; [done|]. intros y <-. by destruct y.
Qed.

Lemma handleHomeDomain_again so x :
  match handleHomeDomain so x with
  | Ret x1 => x1 = with_HomeDomain x (Set_HomeDomain x1) ∧ ∀ y, Set_HomeDomain y = Set_HomeDomain x1 → handleHomeDomain so y = Ret y
  | r => ∀ y, handleHomeDomain so y = r
  end.
Proof.
  unfold handleHomeDomain. destruct (so_HomeDomain so) as [d|]; [|split; [by destruct x|done]].
  destruct (32 <? length d)%nat; [done|]. cbn [with_HomeDomain Set_HomeDomain]. split; [done|]. intros y <-. by destruct y.
Qed.

Lemma handleSigner_again so x :
  match handleSigner so x with
  | Ret x1 => x1 = with_Signer x (Set_Signer x1) ∧ ∀ y, Set_Signer y = Set_Signer x1 → handleSigner so y = Ret y
  | r => ∀ y, handleSigner so y = r
  end.
Proof.
  unfold handleSigner. destruct (so_Signer so) as [s|]; [|split; [by destruct x|done]].
  destruct (map_fail ErrXdr (SignerKey_SetAddress (Signer_Address s))) as [id| |]; outcome_simpl; [|done..]. cbn [with_Signer Set_Signer].
  split; [done|]. intros y <-. by destruct y.
Qed.

Lemma handleNumbers_again so x : handleNumbers so (handleNumbers so x) = handleNumbers so x.
Proof. unfold handleNumbers. cbn. by rewrite !set_or_idemp. Qed.

Lemma keep_options_build so y : SetOptions_build (keep_options so y) =
  match handleInflation so y with
  | Ret x => match handleHomeDomain so (handleNumbers so x) with
             | Ret x => match handleSigner so x with Ret x => (x, Ret x) | Fail e => (x, Fail e) | Panic => (x, Panic) end
             | Fail e => (handleNumbers so x, Fail e)
             | Panic => (handleNumbers so x, Panic)
             end
  | Fail e => (y, Fail e)
  | Panic => (y, Panic)
  end.
Proof. by destruct so. Qed.

Lemma SetOptions_build_again so : (SetOptions_build (keep_options so (SetOptions_build so).1)).2 = (SetOptions_build so).2.
Proof.
  rewrite keep_options_build. unfold SetOptions_build. cbv zeta. pose proof (handleInflation_again so (so_xdrOp so)) as Hi.
  destruct (handleInflation so (so_xdrOp so)) as [x1|e|]; cbn [fst snd]; [|by rewrite Hi..]. destruct Hi as [_ Hi].
  pose proof (handleHomeDomain_again so (handleNumbers so x1)) as Hd.
  destruct (handleHomeDomain so (handleNumbers so x1)) as [x2|e|]; cbn [fst snd];
    [|by rewrite (Hi (handleNumbers so x1)), handleNumbers_again, Hd..].
  destruct Hd as [E2 Hd].
  assert (handleInflation so x2 = Ret x2) as Hi2 by (apply Hi; rewrite E2; reflexivity).
  assert (handleNumbers so x2 = x2) as Hn2.
  { rewrite E2. change (handleNumbers so (with_HomeDomain ?x ?v)) with (with_HomeDomain (handleNumbers so x) v). by rewrite handleNumbers_again. }
  pose proof (handleSigner_again so x2) as Hs. destruct (handleSigner so x2) as [x3|e|] eqn:E3; cbn [fst snd];
    [|by rewrite Hi2, Hn2, (Hd x2), Hs..].
  destruct Hs as [Ex3 Hs].
  assert (handleInflation so x3 = Ret x3) as -> by (apply Hi; rewrite Ex3, E2; reflexivity).
  assert (handleNumbers so x3 = x3) as ->.
  { rewrite Ex3. change (handleNumbers so (with_Signer ?x ?v)) with (with_Signer (handleNumbers so x) v). by rewrite Hn2. }
  rewrite (Hd x3) by (by rewrite Ex3). by rewrite (Hs x3).
Qed.

Lemma built_offer_again mo i : Offer_build (built_offer mo) i = Offer_build mo i.
Proof.
  unfold built_offer, Offer_build. outcome_simpl.
  destruct (call (mo_Selling mo) Asset_ToXDR) as [a| |] eqn:Ea; outcome_simpl; [|by rewrite Ea..].
  destruct (call (mo_Buying mo) Asset_ToXDR) as [b| |] eqn:Eb; outcome_simpl; [|by rewrite Ea; outcome_simpl; rewrite Eb..].
  destruct (parse_amount (mo_Amount mo)) as [v| |] eqn:Ev; outcome_simpl; [|by rewrite Ea; outcome_simpl; rewrite Eb; outcome_simpl; rewrite Ev..].
  destruct (price_parse (mo_price mo) (mo_Price mo)) as [p| |] eqn:Ep; outcome_simpl;
    cbn [mo_Selling mo_Buying mo_Amount mo_Price mo_price]; rewrite Ea; outcome_simpl; rewrite Eb; outcome_simpl; rewrite Ev; outcome_simpl.
  - by rewrite (price_parse_kept _ _ _ Ep).
  - by rewrite Ep.
  - by rewrite Ep.
Qed.

Lemma built_offer_id mo : mo_OfferID (built_offer mo) = mo_OfferID mo.
Proof. unfold built_offer. by case_match. Qed.

Lemma built_limit_again line limit : ChangeTrust_BuildXDR line (built_limit line limit) = ChangeTrust_BuildXDR line limit.
Proof.
  unfold ChangeTrust_BuildXDR, built_limit. destruct line as [[|code issuer]|]; [done| |done]. cbn [call]. outcome_simpl. cbn [Asset_IsNative].
  destruct (Asset_ToXDR (CreditAsset code issuer)); [|done..]. outcome_simpl. unfold effective_limit.
  destruct (bool_decide (limit = [])) eqn:E; [|by rewrite E].
  destruct (bool_decide (MaxTrustlineLimit = [])); reflexivity.
Qed.

Lemma built_again op : BuildXDR (built op) = BuildXDR op.
Proof.
  destruct op as [source body]. unfold BuildXDR, built. cbn [op_Body op_SourceAccount]. f_equal.
  destruct body; try done; build_op.
  - by rewrite built_offer_again, built_offer_id.
  - by rewrite built_offer_again.
  - f_equal. apply SetOptions_build_again.
  - apply built_limit_again.
  - by rewrite built_offer_again, built_offer_id.
Qed.

(** ** Validation *)

(** What the protocol asks of an operation beyond its form, as far as it is
    checked: the text of a price, too, must be an amount of seven decimals. *)
Definition valid_price (p : Price) : Prop := validateAmount (FormatQuotient (N p) (D p)) = Ret tt.
Definition valid_offer (mo : ManageOffer) : Prop := 0 ≤ Manage_Amount mo ∧ 0 ≤ Manage_OfferId mo ∧ valid_price (Manage_Price mo).
Definition valid_body (x : OperationBody) : Prop :=
  match x with
  | CreateAccountOp _ v | PaymentOp _ _ v | ChangeTrustOp _ v | CreateClaimableBalanceOp _ v _ | BumpSequenceOp v => 0 ≤ v
  | PathPaymentStrictReceiveOp p => 0 ≤ Receive_SendMax p ∧ 0 ≤ Receive_DestAmount p
  | PathPaymentStrictSendOp p => 0 ≤ Send_SendAmount p ∧ 0 ≤ Send_DestMin p
  | ManageSellOfferOp mo | ManageBuyOfferOp mo | CreatePassiveSellOfferOp mo => valid_offer mo
  | ManageDataOp name value => (length name ≤ 64 ∧ length (default [] value) ≤ 64)%nat
  | _ => True
  end.

Lemma valid_account_address id : wf_account id → validate_account (address id) = Ret tt.
Proof. intros H. unfold validate_account, AddressToAccountId. by rewrite SetAddress_address. Qed.

Lemma address_nonempty id : wf_account id → address id ≠ [].
Proof. intros [Hl _] E. pose proof (address_length id Hl) as H. by rewrite E in H. Qed.

Lemma valid_public_key id : wf_account id → validateHcnetPublicKey (address id) = Ret tt.
Proof.
  intros H. unfold validateHcnetPublicKey. rewrite bool_decide_eq_false_2 by (by apply address_nonempty).
  unfold IsValidEd25519PublicKey. pose proof (SetAddress_address id H) as E. unfold AccountId_SetAddress in E.
  by destruct (Decode VersionByteAccountID (address id)).
Qed.

Lemma valid_signer_key key s : SignerKey_SetAddress s = Ret key → validateHcnetSignerKey s = Ret tt.
Proof. intros H. unfold validateHcnetSignerKey. rewrite H. rewrite bool_decide_eq_false_2; [done|]. by intros ->. Qed.

Lemma valid_amount v : is_i64 v → 0 ≤ v → validateAmount (Amount.String v) = Ret tt.
Proof.
  intros H Hv. unfold validateAmount. change (ParseInt64 ?s) with (Amount.Parse s). rewrite Parse_String by done. outcome_simpl.
  cbn [map_fail outcome_bind]. unfold validate_int. by rewrite (proj2 (Z.ltb_ge v 0)).
Qed.

Lemma valid_credit_code c issuer : (1 ≤ length c ≤ 12)%nat → Asset_GetType (CreditAsset c issuer) = Ret tt.
Proof. intros [H1 H2]. cbn [Asset_GetType]. by rewrite (proj2 (Nat.leb_le _ _) H1), (proj2 (Nat.leb_le _ _) H2). Qed.

Lemma valid_asset_type a : valid_asset a → Asset_GetType (assetFromXDR a) = Ret tt.
Proof.
  destruct a as [|code issuer|code issuer]; [done|intros [Hc Hi]..]; cbn [assetFromXDR].
  - destruct (trim_zeros_code 1 4 code) as (c & -> & _ & Hl); [lia|done|]. apply valid_credit_code. lia.
  - destruct (trim_zeros_code 5 12 code) as (c & -> & _ & Hl); [lia|done|]. apply valid_credit_code. lia.
Qed.

Lemma valid_hcnet_asset a : valid_asset a → validateHcnetAsset (Some (assetFromXDR a)) = Ret tt.
Proof.
  intros H. unfold validateHcnetAsset. rewrite valid_asset_type by done. outcome_simpl.
  destruct a as [|code issuer|code issuer]; [done|destruct H..]; cbn [assetFromXDR Asset_IsNative Asset_GetIssuer]; by apply valid_public_key.
Qed.

Lemma valid_trust_asset a : valid_asset a → a ≠ AssetTypeNative → validateChangeTrustAsset (Some (assetFromXDR a)) = Ret tt.
Proof.
  intros H Hn. unfold validateChangeTrustAsset, validateAllowTrustAsset. rewrite valid_asset_type by done.
  destruct a as [|code issuer|code issuer]; [done|destruct H..]; cbn [assetFromXDR Asset_IsNative]; outcome_simpl; cbn [call Asset_GetIssuer];
    by apply valid_public_key.
Qed.

Lemma valid_allow_asset a : plain_allow_trust a → validateAllowTrustAsset (Some (AllowTrust_asset a)) = Ret tt.
Proof.
  unfold validateAllowTrustAsset. destruct a as [code|code]; intros Hc; cbn [AllowTrust_asset Asset_IsNative].
  - destruct (trim_zeros_code 1 4 code) as (c & -> & _ & Hl); [lia|done|]. apply valid_credit_code. lia.
  - destruct (trim_zeros_code 5 12 code) as (c & -> & _ & Hl); [lia|done|]. apply valid_credit_code. lia.
Qed.

Lemma valid_id v : 0 ≤ v → validate_int v = Ret tt.
Proof. intros H. unfold validate_int. by rewrite (proj2 (Z.ltb_ge v 0)). Qed.

Lemma in_field_ok field : in_field field (Ret tt) = Ret tt.
Proof. done. Qed.

Lemma valid_offer_fields mo : plain_offer mo → valid_offer mo →
  let o := Offer_FromXDR mo in
  validatePassiveOffer (mo_Buying o) (mo_Selling o) (mo_Amount o) (mo_Price o) = Ret tt ∧
  validateOffer (mo_Buying o) (mo_Selling o) (mo_Amount o) (mo_Price o) (mo_OfferID o) = Ret tt.
Proof.
  intros Hp (Ha & Hi & Hv). cbv zeta. destruct (offer_roundtrip mo Hp) as [_ ->]. destruct Hp as (Hs & Hb & Hm & Hpr).
  assert (validatePassiveOffer (mo_Buying (Offer_FromXDR mo)) (mo_Selling (Offer_FromXDR mo)) (mo_Amount (Offer_FromXDR mo))
    (mo_Price (Offer_FromXDR mo)) = Ret tt) as E.
  { destruct (price_roundtrip _ Hpr) as (_ & _ & Hz). unfold Offer_FromXDR. rewrite bool_decide_eq_false_2 by done.
    cbv zeta iota beta. cbn [mo_Buying mo_Selling mo_Amount mo_Price]. unfold validatePassiveOffer.
    rewrite !valid_hcnet_asset by done. outcome_simpl. rewrite !in_field_ok. outcome_simpl. rewrite valid_amount by done.
    rewrite in_field_ok. outcome_simpl. unfold price_fromXDR. cbn [price_n price_d no_price].
    destruct Hpr as (_ & _ & Hne & _).
    rewrite price_not_zero by done.
    cbn [price_s]. by rewrite Hv. }
  split; [done|]. unfold validateOffer. rewrite E. outcome_simpl. by rewrite valid_id.
Qed.

(** Rewriting with the validity of the values, one bind at a time. *)
Ltac validates :=
  repeat (first [rewrite valid_public_key by tauto | rewrite valid_account_address by tauto | rewrite valid_amount by tauto
    | rewrite valid_hcnet_asset by tauto | rewrite valid_id by tauto | rewrite balance_roundtrip by tauto | rewrite in_field_ok]; outcome_simpl).

Lemma plain_muxed_account m : plain_account m → wf_account (ToAccountId m).
Proof. by destruct m. Qed.

Lemma valid_path_payment f1 f2 send x dest destAsset y path :
  valid_asset send → is_i64 x → 0 ≤ x → plain_account dest → valid_asset destAsset → is_i64 y → 0 ≤ y →
  PathPayment_Validate f1 f2 (MkPathPayment (Some (assetFromXDR send)) (Amount.String x) (muxed_address dest)
    (Some (assetFromXDR destAsset)) (Amount.String y) path) = Ret tt.
Proof.
  intros. unfold PathPayment_Validate, muxed_address. cbn [pp_SendAsset pp_SendAmount pp_Destination pp_DestAsset pp_DestAmount].
  rewrite valid_account_address by (by apply plain_muxed_account). by validates.
Qed.

Lemma valid_revoke r : plain_body (RevokeSponsorshipOp r) → ∀ t, RevokeSponsorship_FromXDR r = Ret t → RevokeSponsorship_Validate t = Ret tt.
Proof.
  destruct r as [[id|id a|id n|id name|b]|id key]; cbn [plain_body plain_key]; intros H t; cbn [RevokeSponsorship_FromXDR].
  1-5: intros [= <-]; cbn [RevokeSponsorship_Validate required]; outcome_simpl; by validates.
  destruct H as [Hid Hk]. destruct (signer_roundtrip key Hk) as (s & -> & Hs). outcome_simpl. cbn [map_fail outcome_bind].
  intros [= <-]. cbn [RevokeSponsorship_Validate required]. outcome_simpl. validates. by apply (valid_signer_key key).
Qed.

Lemma body_validates x body : plain_body x → valid_body x → Body_FromXDR x = Ret body → Body_Validate body = Ret tt.
Proof.
  destruct x as [id v|dest a v|p|mo|mo|so|line limit|id a auth|dest| |name value|n|mo|p|a v cl|b|id| |r];
    cbn [plain_body valid_body]; intros H Hv; read_op.
  all: try (intros [= <-]; validate_op; unfold muxed_address; by validates).
  - intros [= <-]. validate_op. unfold muxed_address. rewrite valid_account_address by (apply plain_muxed_account; tauto). by validates.
  - intros [= <-]. by apply valid_path_payment; try apply H; try apply Hv.
  - intros [= <-]. by apply valid_offer_fields.
  - intros [= <-]. destruct H as [H _]. by apply valid_offer_fields.
  - destruct (SetOptions_FromXDR so); [|done..]. outcome_simpl. by intros [= <-].
  - intros [= <-]. validate_op. rewrite valid_amount by tauto. rewrite in_field_ok. rewrite valid_trust_asset by tauto.
    by destruct (bool_decide _).
  - intros [= <-]. validate_op. validates. by rewrite valid_allow_asset by tauto.
  - intros [= <-]. validate_op. unfold muxed_address. by rewrite valid_account_address by (by apply plain_muxed_account).
  - intros [= <-]. validate_op. destruct Hv as [H1 H2]. by rewrite (proj2 (Nat.ltb_ge _ _) H1), (proj2 (Nat.ltb_ge _ _) H2).
  - intros [= <-]. by apply valid_offer_fields.
  - intros [= <-]. by apply valid_path_payment; try apply H; try apply Hv.
  - intros [= <-]. validate_op. destruct H as (Ha & Hi & Hc).
    rewrite (proj2 (mmap_Ret _ _ (replicate (length cl) tt))); [outcome_simpl; by validates|].
    induction Hc as [|c cl Hw _ IH]; [constructor|]. rewrite fmap_cons. constructor; [|done]. cbn [fst]. by rewrite valid_public_key.
  - destruct (RevokeSponsorship_FromXDR r) as [t| |] eqn:E; [|done..]. outcome_simpl. intros [= <-]. by apply (valid_revoke r).
Qed.

(** ** Properties *)

(** C26: an operation of a transaction that the library can hold (plain accounts,
    codes of letters and digits, known flags, eight-bit weights, prices whose
    text is a price) is read without an error, the value that was read passes
    validation when its numbers are valid, and building it gives the operation
    back, the first time and again after it was built. *)
Theorem operations_rebuild x :
  plain_operation x →
  ∃ op, operationFromXDR x = Ret op ∧ BuildXDR op = Ret x ∧ BuildXDR (built op) = Ret x ∧
    (valid_body (Body x) → Validate op = Ret tt).
Proof.
  intros H. destruct (operation_roundtrip x H) as (op & Hr & Hb). exists op. rewrite built_again. split_and!; [done..|].
  intros Hv. unfold operationFromXDR in Hr. destruct (Body_FromXDR (Body x)) as [body| |] eqn:E; [|done..].
  injection Hr as <-. unfold Validate. cbn [op_Body]. by apply (body_validates (Body x)); [apply H|..].
Qed.

Definition sample_offer : Operation :=
  MkOperation (Some (KeyTypeEd25519 (replicate 32 1)))
    (ManageSellOfferOp (MkManageOffer AssetTypeNative
      (AssetTypeCreditAlphanum4 [85; 83; 68; 0] (MkAccountId (replicate 32 2))) 5000000000 (MkPrice 1 8) 17)).

Lemma replicate_bytes n b : is_u8 b → wf_bytes n (replicate n b).
Proof. intros H. split; [apply length_replicate|by apply Forall_replicate]. Qed.

Theorem operations_rebuild_witness :
  ∃ op, operationFromXDR sample_offer = Ret op ∧ BuildXDR op = Ret sample_offer ∧ BuildXDR (built op) = Ret sample_offer ∧
    (valid_body (Body sample_offer) → Validate op = Ret tt).
Proof.
  apply operations_rebuild. split; [by apply replicate_bytes|]. split_and!; [done| |done|].
  - split; [|by apply replicate_bytes]. exists [85; 83; 68]. split_and!; [done|simpl; lia..|repeat constructor].
  - split_and!; [done..|]. exists (MkPrice 1 8). vm_compute. reflexivity.
Defined.

(** The text of 1/3 has eight decimals, and an offer at this price does not pass
    validation, although it can be built. *)
Example third_not_valid :
  validateAmount (FormatQuotient 1 3) = Fail (ErrAmount Amount.ErrTooManyDigits) ∧
  plain_price (MkPrice 1 3).
Proof. split; [vm_compute; reflexivity|]. split_and!; [done..|]. exists (MkPrice 16666667 50000000). vm_compute. reflexivity. Qed.
