(* ===== verification/TxnTransaction.v ===== *)
(** * txnbuild: transactions and fee bumps

    Models [src/txnbuild/transaction.go] up to the challenges of SEP 10: making a
    transaction from its parameters, reading one from an envelope, signing,
    hashing, and paying the fee of another transaction.  The codec of envelopes is
    a parameter, as are the hashes ([Network]) and the signatures ([Ed25519]).
    Left out are the accessors that copy a field, and that the envelope which
    [ToXDR] returns shares its version-1 arm with the transaction. *)

From S2P Require Import Prelude Encoding Strkey Price Xdr LedgerEntry Transaction Keypair TxnTypes TxnOperations TxnRoundtrip.

Inductive transaction_error :=
  | ErrNoSource
  | ErrSequence (e : txn_error)
  | ErrAccountID (e : xdr_error)
  | ErrBaseFee
  | ErrNoOperations
  | ErrFeeOverflow
  | ErrTimebounds (e : txn_error)
  | ErrMemo (e : txn_error)
  | ErrValidation (e : txn_error)
  | ErrBuild (e : txn_error)
  | ErrMarshal
  | ErrUnmarshal
  | ErrInnerMissing
  | ErrInnerNotParsed
  | ErrCannotBump
  | ErrFeeBelowInner
  | ErrFeeAccount (e : xdr_error)
  | ErrHash (e : network_error)
  | ErrKey (e : keypair_error)
  | ErrNotSecret
  | ErrNoSignature
  | ErrBase64
  | ErrPreimage
  | ErrOperationIndex
  | ErrNotCreateBalance
  | ErrOperation (e : txn_error).

Definition MinBaseFee : Z := 100.
Definition MaxUint32 : Z := 2 ^ 32 - 1.

(** The codec: an envelope in binary and, to be read, in base64, and an
    operation's identifier. *)
Class EnvelopeCodec := {
  MarshalEnvelope : TransactionEnvelope → option (list Z);
  UnmarshalEnvelope : list Z → option TransactionEnvelope;
  UnmarshalEnvelopeBase64 : gostring → option TransactionEnvelope;
  MarshalOperationId : MuxedAccount → Z → Z → option (list Z) }.

(** What is written is bytes, and is read again, in either form. *)
Class EnvelopeCodecLaws `{EC : EnvelopeCodec} := {
  marshal_bytes e b : MarshalEnvelope e = Some b → Forall is_u8 b;
  unmarshal_marshal e b : MarshalEnvelope e = Some b → UnmarshalEnvelope b = Some e;
  unmarshal_base64 e b : MarshalEnvelope e = Some b → UnmarshalEnvelopeBase64 (Base64.EncodeToString b) = Some e }.

(** ** The data *)

Record TxnTransaction := MkTxnTransaction {
  tx_envelope : TransactionEnvelope; tx_baseFee : Z; tx_maxFee : Z; tx_sourceAccount : SimpleAccount;
  tx_operations : list TxnOperation; tx_memo : option TxnMemo; tx_timebounds : Timebounds;
  tx_signatures : list DecoratedSignature }.

(** The arms of an envelope with other signatures.  The transaction keeps its
    signatures apart, and each use of the envelope sets them first. *)
Definition with_signatures (e : TransactionEnvelope) (signatures : list DecoratedSignature) : TransactionEnvelope :=
  match e with
  | EnvelopeTypeTx tx _ => EnvelopeTypeTx tx signatures
  | EnvelopeTypeTxV0 tx _ => EnvelopeTypeTxV0 tx signatures
  | EnvelopeTypeTxFeeBump tx _ => EnvelopeTypeTxFeeBump tx signatures
  end.

(** The envelope of a fee bump is [None] when its inner transaction is [nil],
    which no codec can write. *)
Record TxnFeeBump := MkTxnFeeBump {
  fb_envelope : option TransactionEnvelope; fb_baseFee : Z; fb_maxFee : Z; fb_feeAccount : gostring;
  fb_inner : TxnTransaction; fb_signatures : list DecoratedSignature }.

Inductive GenericTransaction :=
  | GenericSimple (simple : TxnTransaction)
  | GenericFeeBump (feeBump : TxnFeeBump).
Definition Generic_Transaction (t : GenericTransaction) : option TxnTransaction :=
  match t with GenericSimple tx => Some tx | GenericFeeBump _ => None end.
Definition Generic_FeeBump (t : GenericTransaction) : option TxnFeeBump :=
  match t with GenericSimple _ => None | GenericFeeBump tx => Some tx end.

(** ** Making a transaction *)

Record TransactionParams (A : Type) := MkParams {
  SourceAccount : option A; IncrementSequenceNum : bool; Params_Operations : list TxnOperation;
  Params_BaseFee : Z; Params_Memo : option TxnMemo; Params_Timebounds : Timebounds }.
Arguments MkParams {A}.
Arguments SourceAccount {A}.
Arguments IncrementSequenceNum {A}.
Arguments Params_Operations {A}.
Arguments Params_BaseFee {A}.
Arguments Params_Memo {A}.
Arguments Params_Timebounds {A}.

Definition build_operation (op : TxnOperation) : outcome transaction_error Operation :=
  _ ← map_fail ErrValidation (Validate op); map_fail ErrBuild (BuildXDR op).
Definition build_memo (memo : option TxnMemo) : outcome transaction_error Memo :=
  match memo with None => Ret MemoNone | Some m => map_fail ErrMemo (Memo_ToXDR m) end.
(** The total of the fees, which has to fit in 32 bits. *)
Definition total_fee (baseFee : Z) (count : nat) (limit : Z) : outcome transaction_error Z :=
  let '(hi, lo) := Mul64 (u64 baseFee) (u64 (Z.of_nat count)) in
  if (0 <? hi) || (limit <? lo) then Fail ErrFeeOverflow else Ret (i64 lo).

(** [NewTransaction] once the number of the account is known. *)
Definition new_transaction (account : SimpleAccount) (operations : list TxnOperation) (baseFee : Z)
    (memo : option TxnMemo) (timebounds : Timebounds) : outcome transaction_error TxnTransaction :=
  accountID ← map_fail ErrAccountID (AddressToAccountId (AccountID account));
  if baseFee <? MinBaseFee then Fail ErrBaseFee
  else if (length operations =? 0)%nat then Fail ErrNoOperations
  else
    maxFee ← total_fee baseFee (length operations) MaxUint32;
    _ ← map_fail ErrTimebounds (Timebounds_Validate timebounds);
    xdrMemo ← build_memo memo;
    xdrOperations ← mmap build_operation operations;
    let tx := MkTransaction (ToMuxedAccount accountID) (u32 maxFee) (Sequence account)
      (Some (MkTimeBounds (u64 (tb_MinTime timebounds)) (u64 (tb_MaxTime timebounds)))) xdrMemo xdrOperations in
    Ret (MkTxnTransaction (EnvelopeTypeTx tx []) baseFee maxFee account (built <$> operations) memo timebounds []).

(** The account of the parameters changes also when the transaction cannot be
    made; it is returned with the result. *)
Definition NewTransaction {A} `{Account A} (params : TransactionParams A)
  : outcome transaction_error TxnTransaction * option A :=
  match SourceAccount params with
  | None => (Fail ErrNoSource, None)
  | Some account =>
      let '(sequence, account) :=
        if IncrementSequenceNum params then IncrementSequenceNumber account else (GetSequenceNumber account, account) in
      (sequence ← map_fail ErrSequence sequence;
       new_transaction (MkSimpleAccount (GetAccountID account) sequence) (Params_Operations params) (Params_BaseFee params)
         (Params_Memo params) (Params_Timebounds params),
       Some account)
  end.

(** ** Reading an envelope *)

(** A transaction that is not a fee bump. *)
Definition simple_from_XDR (e : TransactionEnvelope) : outcome transaction_error TxnTransaction :=
  let totalFee := Envelope_Fee e in
  let count := Z.of_nat (length (Operations e)) in
  operations ← mmap (λ op, map_fail ErrOperation (operationFromXDR op)) (Operations e);
  Ret (MkTxnTransaction e (if 0 <? count then Z.quot totalFee count else totalFee) totalFee
    (MkSimpleAccount (muxed_address (Envelope_SourceAccount e)) (Envelope_SeqNum e)) operations
    (memoFromXDR (Envelope_Memo e))
    (match Envelope_TimeBounds e with
     | Some tb => NewTimebounds (i64 (MinTime tb)) (i64 (MaxTime tb))
     | None => MkTimebounds 0 0 false
     end)
    (Envelope_Signatures e)).
Definition transactionFromParsedXDR (e : TransactionEnvelope) : outcome transaction_error GenericTransaction :=
  match e with
  | EnvelopeTypeTxFeeBump tx signatures =>
      inner ← map_fail (λ _, ErrInnerNotParsed) (simple_from_XDR (EnvelopeTypeTx (InnerTx tx) (InnerTx_Signatures tx)));
      Ret (GenericFeeBump (MkTxnFeeBump (Some e)
        (Z.quot (FeeBump_Fee tx) (Z.of_nat (length (tx_operations inner) + 1))) (FeeBump_Fee tx)
        (muxed_address (FeeSource tx)) inner signatures))
  | _ => tx ← simple_from_XDR e; Ret (GenericSimple tx)
  end.

Section transactions.
Context `{EC : EnvelopeCodec} `{NW : Network} `{ED : Ed25519}.

Definition TransactionFromXDR (txeB64 : gostring) : outcome transaction_error GenericTransaction :=
  match UnmarshalEnvelopeBase64 txeB64 with
  | None => Fail ErrUnmarshal
  | Some e => transactionFromParsedXDR e
  end.

(** ** Writing *)

Definition marshallBinary (e : TransactionEnvelope) (signatures : list DecoratedSignature) : outcome transaction_error (list Z) :=
  match MarshalEnvelope (with_signatures e signatures) with Some b => Ret b | None => Fail ErrMarshal end.
Definition marshallBase64 (e : TransactionEnvelope) (signatures : list DecoratedSignature) : outcome transaction_error gostring :=
  b ← marshallBinary e signatures; Ret (Base64.EncodeToString b).
Definition cloneEnvelope (e : TransactionEnvelope) (signatures : list DecoratedSignature) : outcome transaction_error TransactionEnvelope :=
  b ← marshallBinary e signatures;
  match UnmarshalEnvelope b with Some clone => Ret clone | None => Fail ErrUnmarshal end.
Definition TxEnvelope (t : TxnTransaction) : outcome transaction_error TransactionEnvelope :=
  cloneEnvelope (tx_envelope t) (tx_signatures t).
Definition MarshalBinary (t : TxnTransaction) : outcome transaction_error (list Z) := marshallBinary (tx_envelope t) (tx_signatures t).
Definition Txn_Base64 (t : TxnTransaction) : outcome transaction_error gostring := marshallBase64 (tx_envelope t) (tx_signatures t).
Definition ToXDR (t : TxnTransaction) : outcome transaction_error TransactionEnvelope :=
  match tx_envelope t with
  | EnvelopeTypeTxFeeBump _ _ => Panic
  | e => Ret (with_signatures e (tx_signatures t))
  end.

(** ** Hashes and signatures *)

Definition hash_envelope (e : TransactionEnvelope) (network : gostring) : outcome transaction_error (list Z) :=
  map_fail ErrHash (HashTransactionInEnvelope e network).
Definition Hash (t : TxnTransaction) (network : gostring) : outcome transaction_error (list Z) := hash_envelope (tx_envelope t) network.
Definition hashHex (e : TransactionEnvelope) (network : gostring) : outcome transaction_error gostring :=
  h ← hash_envelope e network; Ret (Hex.EncodeToString h).

Definition concatSignatures (e : TransactionEnvelope) (network : gostring) (signatures : list DecoratedSignature) (kps : list KP)
  : outcome transaction_error (list DecoratedSignature) :=
  h ← hash_envelope e network;
  added ← mmap (λ kp, map_fail ErrKey (SignDecorated kp h)) kps;
  Ret (signatures ++ added).
Definition concatSignatureBase64 (e : TransactionEnvelope) (signatures : list DecoratedSignature) (network publicKey signature : gostring)
  : outcome transaction_error (list DecoratedSignature) :=
  if bool_decide (signature = []) then Fail ErrNoSignature else
  kp ← map_fail ErrKey (ParseAddress publicKey);
  match Base64.DecodeString signature with
  | None => Fail ErrBase64
  | Some sigBytes =>
      h ← hash_envelope e network;
      _ ← map_fail ErrKey (Verify kp h sigBytes);
      hint ← map_fail ErrKey (Keypair.Hint kp);
      Ret (signatures ++ [MkSignature hint sigBytes])
  end.
Definition stringsToKP (keys : list gostring) : outcome transaction_error (list KP) :=
  mmap (λ k, kp ← map_fail ErrKey (Parse k); match kp with Full _ => Ret kp | FromAddress _ => Fail ErrNotSecret end) keys.
(** [xdr.Signature] has at most 64 bytes. *)
Definition concatHashX (signatures : list DecoratedSignature) (preimage : list Z) : outcome transaction_error (list DecoratedSignature) :=
  if (64 <? length preimage)%nat then Fail ErrPreimage else
  Ret (signatures ++ [MkSignature (copy_pad 4 (drop 28 (sha256 preimage))) preimage]).

Definition set_signatures (t : TxnTransaction) (signatures : list DecoratedSignature) : TxnTransaction :=
  MkTxnTransaction (tx_envelope t) (tx_baseFee t) (tx_maxFee t) (tx_sourceAccount t) (tx_operations t) (tx_memo t)
    (tx_timebounds t) signatures.
Definition Txn_Sign (t : TxnTransaction) (network : gostring) (kps : list KP) : outcome transaction_error TxnTransaction :=
  s ← concatSignatures (tx_envelope t) network (tx_signatures t) kps; Ret (set_signatures t s).
Definition SignWithKeyString (t : TxnTransaction) (network : gostring) (keys : list gostring) : outcome transaction_error TxnTransaction :=
  kps ← stringsToKP keys; Txn_Sign t network kps.
Definition SignHashX (t : TxnTransaction) (preimage : list Z) : outcome transaction_error TxnTransaction :=
  s ← concatHashX (tx_signatures t) preimage; Ret (set_signatures t s).
Definition AddSignatureBase64 (t : TxnTransaction) (network publicKey signature : gostring) : outcome transaction_error TxnTransaction :=
  s ← concatSignatureBase64 (tx_envelope t) (tx_signatures t) network publicKey signature; Ret (set_signatures t s).

(** The identifier of the balance that the operation of an index creates. *)
Definition ClaimableBalanceID (t : TxnTransaction) (operationIndex : Z) : outcome transaction_error gostring :=
  if (operationIndex <? 0) || (Z.of_nat (length (tx_operations t)) <=? operationIndex) then Fail ErrOperationIndex else
  match tx_operations t !! Z.to_nat operationIndex with
  | Some (MkTxnOperation source (TxnCreateClaimableBalance _ _ _)) =>
      let account := default (tx_sourceAccount t) source in
      m ← map_fail ErrAccountID (MustMuxedAddress (AccountID account));
      match MarshalOperationId m (Sequence account) (u32 operationIndex) with
      | None => Fail ErrMarshal
      | Some b => Ret (MarshalHex_BalanceId (MkClaimableBalanceId (sha256 b)))
      end
  | _ => Fail ErrNotCreateBalance
  end.

(** ** Fee bumps *)

Definition convertToV1 (t : TxnTransaction) : outcome transaction_error TxnTransaction :=
  tx ← (NewTransaction (MkParams (Some (tx_sourceAccount t)) false (tx_operations t) (tx_baseFee t) (tx_memo t) (tx_timebounds t))).1;
  Ret (set_signatures tx (tx_signatures t)).

(** The parts of the fee bump, once the fee account is known; the inner envelope
    is the one that was cloned, before it was converted. *)
Definition fee_bump_envelope (feeSource : MuxedAccount) (fee : Z) (innerEnv : TransactionEnvelope) : option TransactionEnvelope :=
  match innerEnv with
  | EnvelopeTypeTx tx signatures => Some (EnvelopeTypeTxFeeBump (MkFeeBump feeSource fee tx signatures) [])
  | _ => None
  end.
Definition NewFeeBumpTransaction (inner : option TxnTransaction) (feeAccount : gostring) (baseFee : Z)
  : outcome transaction_error TxnFeeBump :=
  match inner with
  | None => Fail ErrInnerMissing
  | Some inner =>
      innerEnv ← TxEnvelope inner;
      inner ← (match innerEnv with
               | EnvelopeTypeTxV0 _ _ => convertToV1 inner
               | EnvelopeTypeTx _ _ => Ret inner
               | EnvelopeTypeTxFeeBump _ _ => Fail ErrCannotBump
               end);
      maxFee ← total_fee baseFee (length (tx_operations inner) + 1) MaxInt64;
      if baseFee <? tx_baseFee inner then Fail ErrFeeBelowInner
      else if baseFee <? MinBaseFee then Fail ErrBaseFee
      else
        accountID ← map_fail ErrFeeAccount (AddressToAccountId feeAccount);
        Ret (MkTxnFeeBump (fee_bump_envelope (ToMuxedAccount accountID) maxFee innerEnv) baseFee maxFee feeAccount inner [])
  end.

(** Hashing and writing fail when there is no inner transaction. *)
Definition fee_bump_with {A} (t : TxnFeeBump) (f : TransactionEnvelope → outcome transaction_error A) : outcome transaction_error A :=
  match fb_envelope t with Some e => f e | None => Fail ErrMarshal end.
Definition FeeBump_Hash (t : TxnFeeBump) (network : gostring) : outcome transaction_error (list Z) :=
  fee_bump_with t (λ e, hash_envelope e network).
Definition FeeBump_Sign (t : TxnFeeBump) (network : gostring) (kps : list KP) : outcome transaction_error TxnFeeBump :=
  s ← fee_bump_with t (λ e, concatSignatures e network (fb_signatures t) kps);
  Ret (MkTxnFeeBump (fb_envelope t) (fb_baseFee t) (fb_maxFee t) (fb_feeAccount t) (fb_inner t) s).
Definition FeeBump_TxEnvelope (t : TxnFeeBump) : outcome transaction_error TransactionEnvelope :=
  fee_bump_with t (λ e, cloneEnvelope e (fb_signatures t)).
Definition FeeBump_Base64 (t : TxnFeeBump) : outcome transaction_error gostring :=
  fee_bump_with t (λ e, marshallBase64 e (fb_signatures t)).
End transactions.

(** ** Fees *)

Lemma total_fee_spec baseFee count limit :
  is_i64 baseFee → 0 ≤ baseFee → Z.of_nat count ≤ MaxInt64 → limit ≤ MaxInt64 →
  total_fee baseFee count limit = if limit <? baseFee * Z.of_nat count then Fail ErrFeeOverflow else Ret (baseFee * Z.of_nat count).
Proof.
  intros Hb H0 Hc Hl. unfold is_i64, MaxInt64 in *. unfold total_fee, Mul64. rewrite !u64_small by (unfold is_u64; lia).
  set (p := baseFee * Z.of_nat count). assert (0 ≤ p) as Hp by (subst p; lia). clearbody p.
  destruct (Z.ltb_spec limit p) as [Hlt|Hge].
  - destruct (Z.ltb_spec 0 (p / 2 ^ 64)) as [|Hq]; [done|]. assert (p / 2 ^ 64 = 0) as E by (pose proof (Z.div_pos p (2 ^ 64)); lia).
    assert (p < 2 ^ 64) by (apply Z.div_small_iff in E; lia). rewrite Z.mod_small by lia. by rewrite (proj2 (Z.ltb_lt _ _)).
  - rewrite Z.div_small, Z.mod_small by lia. cbn [orb Z.ltb Z.compare]. rewrite (proj2 (Z.ltb_ge limit p)) by lia. by rewrite i64_small by (unfold is_i64; lia).
Qed.

(** ** Making a transaction *)

Definition valid_timebounds (tb : Timebounds) : Prop :=
  tb_wasBuilt tb = true ∧ 0 ≤ tb_MinTime tb ∧ 0 ≤ tb_MaxTime tb ∧ (tb_MaxTime tb = TimeoutInfinite ∨ tb_MinTime tb ≤ tb_MaxTime tb).

Lemma Timebounds_Validate_spec tb : Timebounds_Validate tb = Ret tt ↔ valid_timebounds tb.
Proof.
  unfold Timebounds_Validate, valid_timebounds, TimeoutInfinite. destruct (tb_wasBuilt tb); cbn [negb]; [|split; [done|by intros [? _]]].
  destruct (Z.ltb_spec (tb_MinTime tb) 0); [split; [done|lia]|]. destruct (Z.ltb_spec (tb_MaxTime tb) 0); [split; [done|lia]|].
  destruct (Z.eqb_spec (tb_MaxTime tb) 0); cbn [negb andb]; [split; [|done]; lia|].
  destruct (Z.ltb_spec (tb_MaxTime tb) (tb_MinTime tb)); (split; [|done || lia]); [done|]. intros _. split_and!; [done|lia..].
Qed.

Lemma build_operation_Ret op x : build_operation op = Ret x ↔ Validate op = Ret tt ∧ BuildXDR op = Ret x.
Proof.
  unfold build_operation. destruct (Validate op) as [[]| |]; outcome_simpl; cbn [map_fail outcome_bind];
    [|split; [done|by intros [? _]]..]. rewrite map_fail_Ret. naive_solver.
Qed.

(** What [new_transaction] makes of valid parts. *)
Definition made (account : SimpleAccount) (id : AccountId) (operations : list TxnOperation) (xs : list Operation) (baseFee : Z)
    (memo : option TxnMemo) (xdrMemo : Memo) (timebounds : Timebounds) : TxnTransaction :=
  let fee := baseFee * Z.of_nat (length operations) in
  MkTxnTransaction
    (EnvelopeTypeTx (MkTransaction (ToMuxedAccount id) fee (Sequence account)
      (Some (MkTimeBounds (tb_MinTime timebounds) (tb_MaxTime timebounds))) xdrMemo xs) [])
    baseFee fee account (built <$> operations) memo timebounds [].

Lemma new_transaction_spec account operations baseFee memo timebounds t :
  is_i64 baseFee → Z.of_nat (length operations) ≤ MaxInt64 → is_i64 (tb_MinTime timebounds) → is_i64 (tb_MaxTime timebounds) →
  new_transaction account operations baseFee memo timebounds = Ret t ↔
  ∃ id xs xdrMemo, AccountId_SetAddress (AccountID account) = Ret id ∧
    MinBaseFee ≤ baseFee ∧ operations ≠ [] ∧ baseFee * Z.of_nat (length operations) ≤ MaxUint32 ∧
    valid_timebounds timebounds ∧ build_memo memo = Ret xdrMemo ∧
    Forall2 (λ op x, Validate op = Ret tt ∧ BuildXDR op = Ret x) operations xs ∧
    t = made account id operations xs baseFee memo xdrMemo timebounds.
Proof.
  intros Hb Hc Hmin Hmax. unfold new_transaction, AddressToAccountId. outcome_simpl.
  destruct (AccountId_SetAddress (AccountID account)) as [id| |]; cbn [map_fail outcome_bind]; [|naive_solver..].
  destruct (Z.ltb_spec baseFee MinBaseFee) as [|Hf]; [split; [done|naive_solver lia]|].
  destruct (Nat.eqb_spec (length operations) 0) as [Hz%nil_length_inv|Hn]; [naive_solver|].
  rewrite total_fee_spec by (unfold MinBaseFee, MaxUint32, MaxInt64 in *; lia || done).
  destruct (Z.ltb_spec MaxUint32 (baseFee * Z.of_nat (length operations))) as [|Hfee]; cbn [outcome_bind]; [split; [done|naive_solver lia]|].
  destruct (Timebounds_Validate timebounds) as [[]| |] eqn:Htb; cbn [map_fail outcome_bind];
    [apply Timebounds_Validate_spec in Htb | split; [done|]; intros (?&?&?&?&?&?&?&?%Timebounds_Validate_spec&_); congruence ..].
  destruct (build_memo memo) as [xm| |]; cbn [outcome_bind]; [|naive_solver..].
  assert (∀ xs, Forall2 (λ op x, Validate op = Ret tt ∧ BuildXDR op = Ret x) operations xs ↔ mmap build_operation operations = Ret xs) as Hops.
  { intros xs. rewrite mmap_Ret. split; intros H; (eapply Forall2_impl; [exact H|]); intros op x; apply build_operation_Ret. }
  setoid_rewrite Hops. destruct (mmap build_operation operations) as [xs| |]; cbn [outcome_bind]; [|naive_solver..].
  assert (0 ≤ baseFee * Z.of_nat (length operations)) by (unfold MinBaseFee in *; lia).
  unfold made. rewrite u32_small, !u64_small by (unfold is_u32, is_u64, is_i64, MaxUint32 in *; destruct Htb as (_ & ? & ? & _); lia).
  assert (operations ≠ []) by (by destruct operations). split; [intros [= <-]; eauto 12|]. naive_solver.
Qed.

(** ** The version before protocol 13 *)

Definition memo_fits (memo : Memo) : Prop := match memo with MemoText s => (length s ≤ MemoTextMaxLength)%nat | _ => True end.
Definition bounds_valid (tb : TimeBounds) : Prop :=
  is_i64 (MinTime tb) ∧ is_i64 (MaxTime tb) ∧ 0 ≤ MinTime tb ∧ 0 ≤ MaxTime tb ∧ (MaxTime tb = 0 ∨ MinTime tb ≤ MaxTime tb).
(** The transaction of a V0 envelope as its hash sees it. *)
Definition v1_of (v : TransactionV0) : Transaction :=
  MkTransaction (KeyTypeEd25519 (V0_SourceAccountEd25519 v)) (V0_Fee v) (V0_SeqNum v) (V0_TimeBounds v) (V0_Memo v) (V0_Operations v).

Lemma memo_roundtrip memo : memo_fits memo → build_memo (memoFromXDR memo) = Ret memo.
Proof.
  destruct memo; cbn [memo_fits memoFromXDR build_memo Memo_ToXDR]; try done. intros H. by rewrite (proj2 (Nat.ltb_ge _ _) H).
Qed.

Lemma operations_read xs : Forall (λ x, plain_operation x ∧ valid_body (Body x)) xs →
  ∃ ops, mmap (λ op, map_fail ErrOperation (operationFromXDR op)) xs = Ret ops ∧
    Forall2 (λ op x, Validate op = Ret tt ∧ BuildXDR op = Ret x) ops xs.
Proof.
  induction 1 as [|x xs [Hp Hv] _ (ops & IH & Hall)]; [by exists []|].
  destruct (operation_roundtrip x Hp) as (op & Hr & Hb). exists (op :: ops). rewrite mmap_cons, Hr. cbn [map_fail outcome_bind]. rewrite IH.
  split; [done|]. constructor; [|done]. split; [|done].
  unfold operationFromXDR in Hr. destruct (Body_FromXDR (Body x)) as [body| |] eqn:E; [|done..]. injection Hr as <-.
  apply (body_validates (Body x)); [apply Hp|done..].
Qed.

Section proofs.
Context `{EC : EnvelopeCodec} `{!EnvelopeCodecLaws} `{NW : Network} `{ED : Ed25519}.

Lemma convertToV1_valid v signatures tb :
  wf_bytes 32 (V0_SourceAccountEd25519 v) → is_u32 (V0_Fee v) →
  let n := Z.of_nat (length (V0_Operations v)) in
  0 < n → (n | V0_Fee v) → MinBaseFee * n ≤ V0_Fee v →
  V0_TimeBounds v = Some tb → bounds_valid tb → memo_fits (V0_Memo v) →
  Forall (λ x, plain_operation x ∧ valid_body (Body x)) (V0_Operations v) →
  ∃ t t', simple_from_XDR (EnvelopeTypeTxV0 v signatures) = Ret t ∧ convertToV1 t = Ret t' ∧
    tx_envelope t = EnvelopeTypeTxV0 v signatures ∧ tx_envelope t' = EnvelopeTypeTx (v1_of v) [] ∧ tx_signatures t' = signatures.
Proof.
  intros Hs Hfee n Hn [k Hk] Hmin Htb (Hmn & Hmx & H0 & H1 & Hord) Hmemo Hops.
  destruct (operations_read _ Hops) as (ops & Hread & Hbuild). pose proof (Forall2_length _ _ _ Hbuild) as Hlen.
  unfold is_u32 in Hfee. assert (Z.quot (V0_Fee v) n = k) as Hq by (rewrite Hk, Z.quot_mul; lia).
  unfold simple_from_XDR. cbn [Operations Envelope_Fee Envelope_SourceAccount Envelope_SeqNum Envelope_Memo Envelope_TimeBounds Envelope_Signatures].
  rewrite Hread. outcome_simpl. fold n. rewrite (proj2 (Z.ltb_lt 0 n)) by done. rewrite Hq, Htb, !i64_small by done.
  eexists; eexists; split; [done|]. unfold convertToV1, NewTransaction.
  cbn [SourceAccount IncrementSequenceNum Params_Operations Params_BaseFee Params_Memo Params_Timebounds tx_sourceAccount tx_operations
    tx_baseFee tx_memo tx_timebounds GetSequenceNumber SimpleAccount_Account map_fail outcome_bind GetAccountID Sequence AccountID fst snd].
  outcome_simpl. unfold MinBaseFee in *.
  match goal with |- context [new_transaction ?a ?o ?b ?m ?tbs] => assert (new_transaction a o b m tbs =
    Ret (made a (MkAccountId (V0_SourceAccountEd25519 v)) o (V0_Operations v) b m (V0_Memo v) tbs)) as -> end.
  { apply new_transaction_spec; [unfold is_i64; nia|unfold MaxInt64; nia|done|done|].
    do 3 eexists. split; [apply SetAddress_address; exact Hs|]. split_and!; [unfold MinBaseFee; nia| |unfold MaxUint32; rewrite Hlen; fold n; lia| |by apply memo_roundtrip|done|done].
    - intros ->. simpl in Hlen. lia.
    - by split_and!. }
  cbn [outcome_bind]. split; [done|]. split; [done|]. split; [|done].
  unfold set_signatures, made, v1_of. cbn [tx_envelope NewTimebounds tb_MinTime tb_MaxTime Sequence]. rewrite Hlen. fold n. rewrite <- Hk, Htb.
  by destruct tb.
Qed.

Lemma hash_ignores_signatures e s network : hash_envelope (with_signatures e s) network = hash_envelope e network.
Proof. by destruct e. Qed.

Lemma TxEnvelope_inv t e : TxEnvelope t = Ret e → e = with_signatures (tx_envelope t) (tx_signatures t).
Proof.
  unfold TxEnvelope, cloneEnvelope, marshallBinary. destruct (MarshalEnvelope _) as [b|] eqn:E; [|done]. outcome_simpl.
  rewrite (unmarshal_marshal _ _ E). congruence.
Qed.

(** ** Properties *)

(** C28: a transaction is made exactly from an account identifier that reads as a
    key, at least one operation, all of them valid and buildable, a base fee of at
    least 100 whose multiple by the number of operations fits in 32 bits, time
    bounds that were built and are in order, and a memo that fits; its envelope
    then holds these parts, with the number that the account had after it was
    advanced when that was asked for, and the total fee is the exact product. *)
Theorem NewTransaction_spec {A} `{Account A} (params : TransactionParams A) account sequence account' t :
  is_i64 (Params_BaseFee params) → Z.of_nat (length (Params_Operations params)) ≤ MaxInt64 →
  is_i64 (tb_MinTime (Params_Timebounds params)) → is_i64 (tb_MaxTime (Params_Timebounds params)) →
  SourceAccount params = Some account →
  (if IncrementSequenceNum params then IncrementSequenceNumber account else (GetSequenceNumber account, account)) = (Ret sequence, account') →
  NewTransaction params = (Ret t, Some account') ↔
  ∃ id xs xdrMemo, AccountId_SetAddress (GetAccountID account') = Ret id ∧
    MinBaseFee ≤ Params_BaseFee params ∧ Params_Operations params ≠ [] ∧
    Params_BaseFee params * Z.of_nat (length (Params_Operations params)) ≤ MaxUint32 ∧
    valid_timebounds (Params_Timebounds params) ∧ build_memo (Params_Memo params) = Ret xdrMemo ∧
    Forall2 (λ op x, Validate op = Ret tt ∧ BuildXDR op = Ret x) (Params_Operations params) xs ∧
    t = made (MkSimpleAccount (GetAccountID account') sequence) id (Params_Operations params) xs (Params_BaseFee params)
          (Params_Memo params) xdrMemo (Params_Timebounds params).
Proof.
  intros Hb Hc Hmin Hmax Ha Hseq. unfold NewTransaction. rewrite Ha, Hseq. outcome_simpl. cbn [map_fail outcome_bind].
  pose proof (new_transaction_spec (MkSimpleAccount (GetAccountID account') sequence) _ _ (Params_Memo params) _ t Hb Hc Hmin Hmax) as Hs.
  cbn [AccountID] in Hs. rewrite <- Hs. split; [by intros [= ->]|by intros ->].
Qed.

(** C29: a fee bump promises the base fee for each operation of the inner
    transaction and for itself, exactly and within 64 bits; the base fee is
    neither below 100 nor below that of the inner transaction.  It wraps the inner
    transaction with its signatures when that is of the current version; an inner
    transaction of the version before is converted, but the envelope is left
    without an inner transaction and can neither be hashed, signed nor written. *)
Theorem NewFeeBumpTransaction_spec inner feeAccount baseFee network kps t :
  is_i64 baseFee → Z.of_nat (length (tx_operations (fb_inner t)) + 1) ≤ MaxInt64 →
  NewFeeBumpTransaction (Some inner) feeAccount baseFee = Ret t →
  ∃ id, AccountId_SetAddress feeAccount = Ret id ∧ MinBaseFee ≤ baseFee ∧ tx_baseFee (fb_inner t) ≤ baseFee ∧
    fb_maxFee t = baseFee * (Z.of_nat (length (tx_operations (fb_inner t))) + 1) ∧ fb_maxFee t ≤ MaxInt64 ∧
    match tx_envelope inner with
    | EnvelopeTypeTx tx _ =>
        fb_inner t = inner ∧
        fb_envelope t = Some (EnvelopeTypeTxFeeBump (MkFeeBump (ToMuxedAccount id) (fb_maxFee t) tx (tx_signatures inner)) [])
    | EnvelopeTypeTxV0 _ _ =>
        convertToV1 inner = Ret (fb_inner t) ∧ FeeBump_Hash t network = Fail ErrMarshal ∧
        FeeBump_Sign t network kps = Fail ErrMarshal ∧ FeeBump_Base64 t = Fail ErrMarshal
    | EnvelopeTypeTxFeeBump _ _ => False
    end.
Proof.
  intros Hb Hc. unfold NewFeeBumpTransaction. destruct (TxEnvelope inner) as [e| |] eqn:He; [|done..]. apply TxEnvelope_inv in He as ->.
  outcome_simpl. destruct (match with_signatures _ _ with EnvelopeTypeTxV0 _ _ => _ | _ => _ end) as [inner'| |] eqn:Hi; [|done..].
  cbn [outcome_bind]. destruct (total_fee baseFee _ MaxInt64) as [fee| |] eqn:Hfee; [|done..]. cbn [outcome_bind].
  destruct (Z.ltb_spec baseFee (tx_baseFee inner')); [done|]. destruct (Z.ltb_spec baseFee MinBaseFee) as [|Hmin]; [done|].
  unfold AddressToAccountId. destruct (AccountId_SetAddress feeAccount) as [id| |]; [|done..]. cbn [map_fail outcome_bind].
  intros [= <-]. cbn [fb_inner fb_maxFee fb_envelope fb_signatures] in *. exists id. split; [done|]. split; [done|]. split; [done|].
  rewrite total_fee_spec in Hfee by (unfold MinBaseFee in *; lia || done).
  destruct (Z.ltb_spec MaxInt64 (baseFee * Z.of_nat (length (tx_operations inner') + 1))); [done|].
  injection Hfee as <-. split; [lia|]. split; [lia|].
  by destruct (tx_envelope inner) as [v s|tx s|f s]; cbn [with_signatures fee_bump_envelope] in *; simplify_eq.
Qed.

(** a transaction of the version before, with a fee that its operations share
    evenly, time bounds, and operations that the library can hold, converts to the
    current version with the same hash, so that its signatures remain good. *)
Theorem convertToV1_keeps_hash v signatures tb network :
  wf_bytes 32 (V0_SourceAccountEd25519 v) → is_u32 (V0_Fee v) →
  let n := Z.of_nat (length (V0_Operations v)) in
  0 < n → (n | V0_Fee v) → MinBaseFee * n ≤ V0_Fee v →
  V0_TimeBounds v = Some tb → bounds_valid tb → memo_fits (V0_Memo v) →
  Forall (λ x, plain_operation x ∧ valid_body (Body x)) (V0_Operations v) →
  ∃ t t', transactionFromParsedXDR (EnvelopeTypeTxV0 v signatures) = Ret (GenericSimple t) ∧ convertToV1 t = Ret t' ∧
    Hash t' network = Hash t network ∧ tx_signatures t' = signatures ∧
    ToXDR t' = Ret (EnvelopeTypeTx (v1_of v) signatures).
Proof.
  intros Hs Hf n Hn Hd Hm Htb Hb Hmemo Hops.
  destruct (convertToV1_valid v signatures tb Hs Hf Hn Hd Hm Htb Hb Hmemo Hops) as (t & t' & Hr & Hc & He & He' & Hsig).
  exists t, t'. unfold transactionFromParsedXDR. rewrite Hr. split_and!; [done..| |done|].
  - unfold Hash. by rewrite He, He'.
  - unfold ToXDR. by rewrite He', Hsig.
Qed.
End proofs.

(** *** Examples

    A codec that knows a list of envelopes by their positions. *)
Module Example_txn.
Definition toy_codec (samples : list TransactionEnvelope) : EnvelopeCodec := {|
  MarshalEnvelope e := (λ p, [Z.of_nat p.1]) <$> list_find (e =.) samples;
  UnmarshalEnvelope b := match b with [i] => samples !! Z.to_nat i | _ => None end;
  UnmarshalEnvelopeBase64 s := match Base64.DecodeString s with Some [i] => samples !! Z.to_nat i | _ => None end;
  MarshalOperationId m sequence index := Some [u8 sequence; u8 index] |}.

Lemma toy_codec_laws samples : (length samples ≤ 256)%nat → @EnvelopeCodecLaws (toy_codec samples).
Proof.
  intros Hl. assert (∀ e b, MarshalEnvelope (EnvelopeCodec := toy_codec samples) e = Some b →
    ∃ i : nat, b = [Z.of_nat i] ∧ samples !! i = Some e ∧ (i < 256)%nat) as H.
  { intros e b. cbn. destruct (list_find (e =.) samples) as [[i x]|] eqn:E; [|done]. intros [= <-].
    apply list_find_Some in E as (E & <- & _). exists i. split_and!; [done..|]. apply lookup_lt_Some in E. lia. }
  split; intros e b Hb; destruct (H e b Hb) as (i & -> & Hi & Hlt).
  - constructor; [unfold is_u8; lia|constructor].
  - cbn. by rewrite Nat2Z.id.
  - cbn [UnmarshalEnvelopeBase64 toy_codec]. rewrite Base64.base64_Decode_Encode by (constructor; [unfold is_u8; lia|constructor]).
    by rewrite Nat2Z.id.
Qed.

#[export] Instance network : Network := {|
  sha256 x := copy_pad 32 x; MarshalPayload id tx := Some (id ++ [1]); NetworkPassphrase := str "Test";
  MasterKey := MkAccountId (replicate 32 0) |}.

Definition toy_signature (pub m : list Z) : list Z := copy_pad 64 (u8 <$> (pub ++ m)).
#[export] Instance toy_ed : Ed25519 := {|
  ed_public seed := copy_pad 32 (u8 <$> seed);
  ed_sign seed m := toy_signature (copy_pad 32 (u8 <$> seed)) m;
  ed_verify pub m sig := bool_decide (sig = toy_signature pub m) |}.

Lemma copy_pad_length n (l : list Z) : length (copy_pad n l) = n.
Proof. unfold copy_pad. rewrite length_app, length_take, length_replicate. lia. Qed.
Lemma copy_pad_u8 n (l : list Z) : Forall is_u8 (copy_pad n (u8 <$> l)).
Proof.
  unfold copy_pad. apply Forall_app. split; [|by apply Forall_replicate]. apply Forall_take, Forall_fmap, Forall_true.
  intros x. apply (wrap_u_range 8). lia.
Qed.
#[export] Instance toy_ed_laws : Ed25519Laws.
Proof.
  split; intros; cbn [ed_public ed_sign ed_verify toy_ed]; unfold toy_signature.
  - split; [apply copy_pad_length|apply copy_pad_u8].
  - apply copy_pad_length.
  - apply copy_pad_u8.
  - by apply bool_decide_eq_true.
Qed.

Definition alice : AccountId := MkAccountId (replicate 32 1).
Definition bob : AccountId := MkAccountId (replicate 32 2).
Lemma wf_alice : wf_account alice.
Proof. by apply replicate_bytes. Qed.
Lemma wf_bob : wf_account bob.
Proof. by apply replicate_bytes. Qed.
Definition inflation : TxnOperation := MkTxnOperation None TxnInflation.
Definition params : TransactionParams SimpleAccount :=
  MkParams (Some (NewSimpleAccount (address alice) 9)) true [inflation; inflation] 150 (Some (TxnMemoText (str "hi"))) NewInfiniteTimeout.
Definition two_inflations : Transaction :=
  MkTransaction (ToMuxedAccount alice) 300 10 (Some (MkTimeBounds 0 0)) (MemoText (str "hi")) (replicate 2 (MkOperation None InflationOp)).
Definition inner : TxnTransaction :=
  MkTxnTransaction (EnvelopeTypeTx two_inflations []) 150 300 (MkSimpleAccount (address alice) 10) [inflation; inflation]
    (Some (TxnMemoText (str "hi"))) NewInfiniteTimeout [].
Definition v0 : TransactionV0 :=
  MkTransactionV0 (replicate 32 1) 300 10 (Some (MkTimeBounds 0 0)) (MemoText (str "hi")) (replicate 2 (MkOperation None InflationOp)).
End Example_txn.

Theorem NewTransaction_spec_witness :
  NewTransaction Example_txn.params = (Ret Example_txn.inner, Some (MkSimpleAccount (address Example_txn.alice) 10)).
Proof.
  apply (NewTransaction_spec Example_txn.params (NewSimpleAccount (address Example_txn.alice) 9) 10); [done..|].
  exists Example_txn.alice, (replicate 2 (MkOperation None InflationOp)), (MemoText (str "hi")).
  split; [apply SetAddress_address, Example_txn.wf_alice|].
  split; [done|]. split; [done|]. split; [done|]. split; [split_and!; [done..|by left]|]. split; [done|].
  split; [repeat constructor|done].
Defined.

Theorem NewFeeBumpTransaction_spec_witness :
  let EC := Example_txn.toy_codec [EnvelopeTypeTx Example_txn.two_inflations []] in
  ∃ t id, NewFeeBumpTransaction (EC := EC) (Some Example_txn.inner) (address Example_txn.bob) 200 = Ret t ∧
    AccountId_SetAddress (address Example_txn.bob) = Ret id ∧ fb_maxFee t = 600 ∧
    fb_envelope t = Some (EnvelopeTypeTxFeeBump (MkFeeBump (ToMuxedAccount id) 600 Example_txn.two_inflations []) []).
Proof.
  intros EC. pose proof (Example_txn.toy_codec_laws [EnvelopeTypeTx Example_txn.two_inflations []] ltac:(simpl; lia)) as HL.
  assert (∃ t, NewFeeBumpTransaction (EC := EC) (Some Example_txn.inner) (address Example_txn.bob) 200 = Ret t ∧
    fb_inner t = Example_txn.inner) as (t & Ht & Hi) by (eexists; split; [vm_compute; reflexivity|reflexivity]).
  pose proof (NewFeeBumpTransaction_spec (NW := Example_txn.network) (ED := Example_txn.toy_ed) Example_txn.inner
    (address Example_txn.bob) 200 [] [] t) as H. rewrite Hi in H.
  specialize (H ltac:(unfold is_i64; lia)).
  specialize (H ltac:(vm_compute; discriminate) Ht).
  destruct H as (id & Hid & _ & _ & Hfee & _ & Henv).
  exists t, id. rewrite Hfee in Henv. split; [exact Ht|]. split; [exact Hid|]. split; [exact Hfee|]. apply Henv.
Defined.

Theorem convertToV1_keeps_hash_witness :
  ∃ t t', transactionFromParsedXDR (EnvelopeTypeTxV0 Example_txn.v0 []) = Ret (GenericSimple t) ∧ convertToV1 t = Ret t' ∧
    Hash (NW := Example_txn.network) t' (str "Test") = Hash (NW := Example_txn.network) t (str "Test") ∧ tx_signatures t' = [] ∧ ToXDR t' = Ret (EnvelopeTypeTx (v1_of Example_txn.v0) []).
Proof.
  apply (convertToV1_keeps_hash Example_txn.v0 [] (MkTimeBounds 0 0) (str "Test")); [by apply replicate_bytes|done..| | | | | |].
  - by exists 150.
  - done.
  - done.
  - split_and!; [done..|by left].
  - cbn. unfold MemoTextMaxLength. lia.
  - repeat constructor.
Defined.
