(* ===== verification/Challenge.v ===== *)
(** * txnbuild: the challenges of web authentication (SEP 10)

    Models the second half of [src/txnbuild/transaction.go]: a server makes a
    transaction that it signs, the client signs it too, and the server checks the
    signatures against the signers of the client's account.  The time of the
    system clock, in nanoseconds, and the random bytes are arguments, the order of
    Go's [range] over a map is a parameter.  What a function returns beside an error
    (the transaction, the signers found) is dropped. *)

From S2P Require Import Prelude Encoding Strkey Xdr LedgerEntry Transaction Keypair TxnTypes TxnOperations TxnRoundtrip TxnTransaction.

Inductive challenge_error :=
  | ErrTransaction (e : transaction_error)
  | ErrTimebound
  | ErrServerKey (e : keypair_error)
  | ErrNonce
  | ErrClientAccount (e : xdr_error)
  | ErrFeeBump
  | ErrMuxedSource
  | ErrServerSource
  | ErrSequenceNumber
  | ErrInfinite
  | ErrOutsideTimebounds
  | ErrNoOperation
  | ErrOperationType
  | ErrNoOperationSource
  | ErrMuxedOperation
  | ErrNonceLength
  | ErrNonceEncoding
  | ErrSubsequent
  | ErrNotSigned
  | ErrSignerNotAddress (e : keypair_error)
  | ErrNoVerifiable
  | ErrUnrecognized
  | ErrThreshold (weight threshold : Z).

Definition second : Z := 10 ^ 9.

Section challenge.
Context `{EC : EnvelopeCodec} `{NW : Network} `{ED : Ed25519}.

(** ** Making a challenge

    The signer of the server is asserted to be a key that can sign. *)
Definition BuildChallengeTx (now : Z) (random : option (list Z)) (serverSignerSecret clientAccountID homeDomain network : gostring)
    (timebound : Z) : outcome challenge_error TxnTransaction :=
  if timebound <? second then Fail ErrTimebound else
  serverKP ← map_fail ErrServerKey (Parse serverSignerSecret);
  match random with
  | None => Fail ErrNonce
  | Some nonce =>
      let nonceB64 := Base64.EncodeToString nonce in
      if negb (length nonceB64 =? 64)%nat then Fail ErrNonceLength else
      _ ← map_fail ErrClientAccount (AddressToAccountId clientAccountID);
      serverID ← map_fail ErrServerKey (Address serverKP);
      tx ← map_fail ErrTransaction (NewTransaction (MkParams (Some (MkSimpleAccount serverID 0)) false
        [MkTxnOperation (Some (MkSimpleAccount clientAccountID 0)) (TxnManageData (homeDomain ++ str " auth") (Some nonceB64))]
        MinBaseFee None (NewTimebounds (now / second) ((now + timebound) / second)))).1;
      match serverKP with
      | FromAddress _ => Panic
      | Full _ => map_fail ErrTransaction (Txn_Sign tx network [serverKP])
      end
  end.

(** ** Who signed a transaction *)

(** The first signature that is not used yet and is of this key. *)
Fixpoint find_signature (kp : KP) (txHash : list Z) (used : gset nat) (i : nat) (signatures : list DecoratedSignature)
  : outcome challenge_error (option nat) :=
  match signatures with
  | [] => Ret None
  | decSig :: signatures =>
      let next := find_signature kp txHash used (S i) signatures in
      if decide (i ∈ used) then next else
      hint ← map_fail ErrServerKey (Keypair.Hint kp);
      if negb (bool_decide (Transaction.Hint decSig = hint)) then next else
      match Verify kp txHash (Signature decSig) with
      | Ret _ => Ret (Some i)
      | Fail _ => next
      | Panic => Panic
      end
  end.
Definition verify_step (txHash : list Z) (signatures : list DecoratedSignature) (st : gset nat * gset gostring) (signer : gostring)
  : outcome challenge_error (gset nat * gset gostring) :=
  kp ← map_fail ErrSignerNotAddress (ParseAddress signer);
  found ← find_signature kp txHash st.1 0 signatures;
  Ret (match found with Some i => ({[i]} ∪ st.1, {[signer]} ∪ st.2) | None => st end).
(** The signers that were found, in the order in which they were asked for, each
    once. *)
Definition found_list (found : gset gostring) (signers : list gostring) : list gostring :=
  (foldl (λ (st : list gostring * gset gostring) signer,
     if decide (signer ∈ st.2) then (st.1 ++ [signer], st.2 ∖ {[signer]}) else st) ([], found) signers).1.
Definition verifyTxSignatures (tx : TxnTransaction) (network : gostring) (signers : list gostring)
  : outcome challenge_error (list gostring) :=
  txHash ← map_fail ErrTransaction (Hash tx network);
  st ← mfold (verify_step txHash (tx_signatures tx)) (∅, ∅) signers;
  Ret (found_list st.2 signers).
(** An error gives no signers, and is reported as a missing signature. *)
Definition verifyTxSignature (tx : TxnTransaction) (network signer : gostring) : outcome challenge_error unit :=
  match verifyTxSignatures tx network [signer] with
  | Ret [] | Fail _ => Fail ErrNotSigned
  | Ret _ => Ret tt
  | Panic => Panic
  end.

(** ** Reading a challenge *)

Definition is_muxed (m : MuxedAccount) : bool := match m with KeyTypeMuxedEd25519 _ _ => true | KeyTypeEd25519 _ => false end.
(** The operation as one on data, and its source. *)
Definition manage_data (op : TxnOperation) : outcome challenge_error (option (list Z) * gostring) :=
  match op_Body op with
  | TxnManageData _ value =>
      match op_SourceAccount op with
      | Some account => Ret (value, AccountID account)
      | None => Fail ErrNoOperationSource
      end
  | _ => Fail ErrOperationType
  end.
Definition check_nonce (value : list Z) : outcome challenge_error unit :=
  if negb (length value =? 64)%nat then Fail ErrNonceLength else
  match Base64.DecodeString value with
  | None => Fail ErrNonceEncoding
  | Some nonce => if negb (length nonce =? 48)%nat then Fail ErrNonceLength else Ret tt
  end.
(** The checks of the transaction itself. *)
Definition check_transaction (currentTime : Z) (tx : TxnTransaction) (serverAccountID : gostring) : outcome challenge_error unit :=
  if is_muxed (Envelope_SourceAccount (tx_envelope tx)) then Fail ErrMuxedSource
  else if negb (bool_decide (AccountID (tx_sourceAccount tx) = serverAccountID)) then Fail ErrServerSource
  else if negb (Sequence (tx_sourceAccount tx) =? 0) then Fail ErrSequenceNumber
  else if tb_MaxTime (tx_timebounds tx) =? TimeoutInfinite then Fail ErrInfinite
  else if (currentTime <? tb_MinTime (tx_timebounds tx)) || (tb_MaxTime (tx_timebounds tx) <? currentTime)
  then Fail ErrOutsideTimebounds
  else Ret tt.
(** The source of the raw operation is there, as the one that was read is. *)
Definition raw_source_muxed (e : TransactionEnvelope) : outcome challenge_error bool :=
  match Operations e with
  | [] => Ret false
  | op :: _ => match Op_SourceAccount op with Some m => Ret (is_muxed m) | None => Panic end
  end.
Definition check_subsequent (serverAccountID : gostring) (op : TxnOperation) : outcome challenge_error unit :=
  '(_, source) ← manage_data op;
  if bool_decide (source = serverAccountID) then Ret tt else Fail ErrSubsequent.
Definition check_operations (tx : TxnTransaction) (serverAccountID : gostring) : outcome challenge_error gostring :=
  match tx_operations tx with
  | [] => Fail ErrNoOperation
  | op :: ops =>
      '(value, clientAccountID) ← manage_data op;
      muxed ← raw_source_muxed (tx_envelope tx);
      if muxed : bool then Fail ErrMuxedOperation else
      _ ← check_nonce (default [] value);
      _ ← mmap (check_subsequent serverAccountID) ops;
      Ret clientAccountID
  end.
Definition ReadChallengeTx (now : Z) (challengeTx serverAccountID network : gostring) : outcome challenge_error (TxnTransaction * gostring) :=
  parsed ← map_fail ErrTransaction (TransactionFromXDR challengeTx);
  match Generic_Transaction parsed with
  | None => Fail ErrFeeBump
  | Some tx =>
      _ ← check_transaction (now / second) tx serverAccountID;
      clientAccountID ← check_operations tx serverAccountID;
      _ ← verifyTxSignature tx network serverAccountID;
      Ret (tx, clientAccountID)
  end.

(** ** Checking the signatures *)

(** Each signer once that is a key of an account and not the server. *)
Definition client_step (serverID : gostring) (clientSigners : list gostring) (signer : gostring)
  : outcome challenge_error (list gostring) :=
  if bool_decide (signer = serverID) then Ret clientSigners
  else if decide (signer ∈ clientSigners) then Ret clientSigners
  else match Version signer with
       | Ret v => Ret (if v =? VersionByteAccountID then clientSigners ++ [signer] else clientSigners)
       | Fail _ => Ret clientSigners
       | Panic => Panic
       end.
Definition VerifyChallengeTxSigners (now : Z) (challengeTx serverAccountID network : gostring) (signers : list gostring)
  : outcome challenge_error (list gostring) :=
  '(tx, _) ← ReadChallengeTx now challengeTx serverAccountID network;
  serverKP ← map_fail ErrServerKey (ParseAddress serverAccountID);
  serverID ← map_fail ErrServerKey (Address serverKP);
  clientSigners ← mfold (client_step serverID) [] signers;
  if (length clientSigners =? 0)%nat then Fail ErrNoVerifiable else
  allSignersFound ← verifyTxSignatures tx network (serverID :: clientSigners);
  (* [make] with a capacity of one less *)
  if (length allSignersFound =? 0)%nat then Panic else
  let signersFound := filter (λ signer, signer ≠ serverID) allSignersFound in
  if negb (bool_decide (serverID ∈ allSignersFound)) then Fail ErrNotSigned
  else if (length signersFound =? 0)%nat then Fail ErrNotSigned
  else if negb (length allSignersFound =? length (tx_signatures tx))%nat then Fail ErrUnrecognized
  else Ret signersFound.

(** The order of the signers, which [range] over the map gives. *)
Context (range : gmap gostring Z → list gostring).

Definition total_weight (signerSummary : gmap gostring Z) (signers : list gostring) : Z :=
  foldl (λ weight s, i32 (weight + default 0 (signerSummary !! s))) 0 signers.
Definition VerifyChallengeTxThreshold (now : Z) (challengeTx serverAccountID network : gostring) (threshold : Z)
    (signerSummary : gmap gostring Z) : outcome challenge_error (list gostring) :=
  signersFound ← VerifyChallengeTxSigners now challengeTx serverAccountID network (range signerSummary);
  let weight := total_weight signerSummary signersFound in
  if weight <? threshold then Fail (ErrThreshold weight threshold) else Ret signersFound.
End challenge.

(** ** Signatures of a key *)

Section signatures.
Context `{EC : EnvelopeCodec} `{NW : Network} `{ED : Ed25519}.

(** A signature is one of a hash by the key of an address. *)
Definition signed_by (txHash : list Z) (signer : gostring) (sig : DecoratedSignature) : Prop :=
  ∃ pub, Decode VersionByteAccountID signer = Ret pub ∧ length pub = 32%nat ∧ Transaction.Hint sig = key_hint pub ∧
    length (Signature sig) = 64%nat ∧ ed_verify pub txHash (Signature sig) = true.
Definition signed_at (txHash : list Z) (signatures : list DecoratedSignature) (signer : gostring) (i : nat) : Prop :=
  ∃ sig, signatures !! i = Some sig ∧ signed_by txHash signer sig.

Lemma find_signature_sound signer h used signatures i r :
  find_signature (FromAddress signer) h used i signatures = Ret (Some r) →
  ∃ k, r = (i + k)%nat ∧ r ∉ used ∧ signed_at h signatures signer k.
Proof.
  revert i. induction signatures as [|sig signatures IH]; intros i; cbn [find_signature]; [done|].
  assert (find_signature (FromAddress signer) h used (S i) signatures = Ret (Some r) →
    ∃ k, r = (i + k)%nat ∧ r ∉ used ∧ signed_at h (sig :: signatures) signer k) as Hnext.
  { intros (k & -> & Hk & sig' & Hl & Hs)%IH. exists (S k). split; [lia|]. split; [|by exists sig']. by replace (i + S k)%nat with (S i + k)%nat by lia. }
  destruct (decide (i ∈ used)) as [|Hu]; [done|]. unfold Keypair.Hint at 1. cbn [publicKey]. unfold MustDecode, Verify. cbn [publicKey]. unfold MustDecode.
  destruct (Decode VersionByteAccountID signer) as [pub| |] eqn:Hd; cbn [must outcome_bind map_fail]; outcome_simpl; [|done..].
  destruct (length pub <? 28)%nat; [done|]. cbn [map_fail outcome_bind].
  destruct (bool_decide (Transaction.Hint sig = key_hint pub)) eqn:Hh; cbn [negb]; [|done]. apply bool_decide_eq_true in Hh.
  destruct (Nat.eqb_spec (length (Signature sig)) 64) as [H64|]; cbn [negb]; [|done].
  destruct (Nat.eqb_spec (length pub) 32) as [H32|]; cbn [negb]; [|done].
  destruct (ed_verify pub h (Signature sig)) eqn:Hv; [|done]. intros [= <-]. exists 0%nat. split; [lia|]. split; [done|].
  exists sig. split; [done|]. by exists pub.
Qed.

(** For a key of the right size nothing fails, and when nothing is found there is
    nothing to find. *)
Lemma find_signature_complete signer pub h used signatures i :
  Decode VersionByteAccountID signer = Ret pub → length pub = 32%nat →
  ∃ r, find_signature (FromAddress signer) h used i signatures = Ret r ∧
    (r = None → ∀ k, (i + k)%nat ∉ used → ¬ signed_at h signatures signer k).
Proof.
  intros Hd H32. assert (publicKey (FromAddress signer) = Ret pub) as Hp by (by apply publicKey_address).
  revert i. induction signatures as [|sig signatures IH]; intros i; cbn [find_signature].
  { exists None. split; [done|]. intros _ k _ (sig & Hs & _). done. }
  destruct (IH (S i)) as (r & Hr & Hnone). rewrite (Hint_wf _ pub) by done. outcome_simpl. cbn [map_fail outcome_bind].
  assert ((i ∈ used ∨ ¬ signed_by h signer sig) → r = None → ∀ k, (i + k)%nat ∉ used → ¬ signed_at h (sig :: signatures) signer k) as Hnext.
  { intros Hi Hn [|k] Hk; [|replace (i + S k)%nat with (S i + k)%nat in Hk by lia; intros (sig' & Hl & Hs); by apply (Hnone Hn k Hk); exists sig'].
    rewrite Nat.add_0_r in Hk. intros (sig' & [= <-] & Hs). naive_solver. }
  assert (¬ signed_by h signer sig ∨ signed_by h signer sig ∧ Transaction.Hint sig = key_hint pub ∧ Verify (FromAddress signer) h (Signature sig) = Ret tt) as Hsig.
  { destruct (decide (Transaction.Hint sig = key_hint pub)) as [Hh|Hh]; [|left; intros (p & Hp' & _ & Hh' & _); congruence].
    destruct (decide (length (Signature sig) = 64%nat)) as [H64|H64]; [|left; intros (p & Hp' & _ & _ & H64' & _); congruence].
    destruct (ed_verify pub h (Signature sig)) eqn:Hv; [|left; intros (p & Hp' & _ & _ & _ & Hv'); congruence].
    right. split; [by exists pub|]. split; [done|]. by apply (Verify_wf _ pub). }
  rewrite Hr. destruct (decide (i ∈ used)) as [Hu|Hu]; [exists r; split; [done|apply Hnext; by left]|].
  destruct (bool_decide (Transaction.Hint sig = key_hint pub)) eqn:Hh; cbn [negb];
    [|apply bool_decide_eq_false in Hh; exists r; split; [done|apply Hnext; right; destruct Hsig as [?|(_ & ? & _)]; done]].
  destruct Hsig as [Hn|(Hs & _ & Hv)].
  - assert (Verify (FromAddress signer) h (Signature sig) ≠ Ret tt ∧ Verify (FromAddress signer) h (Signature sig) ≠ Panic) as [Hv Hnp].
    { split.
      - intros [H64 Hv]%(Verify_wf _ pub); [|done..]. apply Hn. exists pub. apply bool_decide_eq_true in Hh. done.
      - unfold Verify. rewrite Hp. outcome_simpl. rewrite H32. cbn [Nat.eqb negb]. by destruct (negb (_ =? 64)%nat), (ed_verify pub h (Signature sig)). }
    destruct (Verify (FromAddress signer) h (Signature sig)) as [[]|e|]; [done| |done]. exists r. split; [done|apply Hnext; by right].
  - rewrite Hv. by exists (Some i).
Qed.

(** ** The assignment of signatures to signers *)

(** After some signers, all different: those that were found have each a signature
    of their own. *)
Definition assigned (h : list Z) (signatures : list DecoratedSignature) (signers : list gostring) (st : gset nat * gset gostring) : Prop :=
  st.2 ⊆ list_to_set signers ∧
  ∃ ix : list nat, NoDup ix ∧ st.1 = list_to_set ix ∧
    Forall2 (signed_at h signatures) (filter (λ s, s ∈ st.2) signers) ix.

Lemma assigned_skip h signatures signers signer st :
  signer ∉ signers → assigned h signatures signers st → assigned h signatures (signers ++ [signer]) st.
Proof.
  intros Hn (Hf & ix & Hix & Hu & Hall). split; [set_solver|]. exists ix. split; [done|]. split; [done|].
  rewrite filter_app, (filter_cons_False _ signer []), filter_nil, app_nil_r; [done|].
  intros Hin. apply Hn. apply Hf in Hin. by apply elem_of_list_to_set in Hin.
Qed.

Lemma assigned_found h signatures signers signer st i :
  signer ∉ signers → i ∉ st.1 → signed_at h signatures signer i → assigned h signatures signers st →
  assigned h signatures (signers ++ [signer]) ({[i]} ∪ st.1, {[signer]} ∪ st.2).
Proof.
  intros Hn Hi Hs (Hf & ix & Hix & Hu & Hall). cbn [fst snd]. split; [set_solver|]. exists (ix ++ [i]).
  split; [apply NoDup_app; split_and!; [done| |apply NoDup_singleton]; intros x Hx ->%list_elem_of_singleton; apply Hi; rewrite Hu; by apply elem_of_list_to_set|].
  split; [rewrite list_to_set_app_L, <- Hu; set_solver|].
  rewrite filter_app, filter_cons_True, filter_nil by set_solver. apply Forall2_app; [|by repeat constructor].
  rewrite (list_filter_iff_in _ (λ s, s ∈ st.2)); [done|]. intros x Hx. cbn [snd]. rewrite elem_of_union, elem_of_singleton.
  split; [|by right]. intros [->|?]; [done|done].
Qed.

Lemma verify_step_assigned h signatures signers signer st st' :
  signer ∉ signers → verify_step h signatures st signer = Ret st' → assigned h signatures signers st →
  assigned h signatures (signers ++ [signer]) st'.
Proof.
  intros Hn. unfold verify_step, ParseAddress. outcome_simpl.
  destruct (Decode VersionByteAccountID signer) as [pub| |]; [|done..]. cbn [map_fail outcome_bind].
  destruct (find_signature (FromAddress signer) h st.1 0 signatures) as [[i|]| |] eqn:Hfind; [| |done..]; intros [= <-] Ha.
  - apply find_signature_sound in Hfind as (k & -> & Hi & Hs). by apply assigned_found.
  - by apply assigned_skip.
Qed.

Lemma verify_steps_assigned h signatures signers st :
  NoDup signers → mfold (verify_step h signatures) (∅, ∅) signers = Ret st → assigned h signatures signers st.
Proof.
  intros Hn. revert st. induction signers as [|signer signers IH] using rev_ind; intros st.
  { intros [= <-]. split; [done|]. exists []. split_and!; [constructor|done|constructor]. }
  rewrite mfold_app. apply NoDup_app in Hn as (Hn & Hx & _).
  destruct (mfold _ _ signers) as [st1| |]; [|done..]. cbn [outcome_bind mfold].
  destruct (verify_step h signatures st1 signer) as [st2| |] eqn:Hstep; [|done..]. intros [= <-].
  apply (verify_step_assigned _ _ _ _ st1); [intros Hin; by apply (Hx signer Hin), list_elem_of_singleton|done|by apply IH].
Qed.

Lemma found_list_filter found signers : NoDup signers → found_list found signers = filter (λ s, s ∈ found) signers.
Proof.
  unfold found_list. intros Hn. enough (∀ acc found', (∀ s, s ∈ signers → s ∈ found' ↔ s ∈ found) →
    (foldl (λ (st : list gostring * gset gostring) signer,
       if decide (signer ∈ st.2) then (st.1 ++ [signer], st.2 ∖ {[signer]}) else st) (acc, found') signers).1 =
    acc ++ filter (λ s, s ∈ found) signers) as H by (by apply (H [])).
  induction Hn as [|s signers Hs Hn IH]; intros acc found' Hf; [by rewrite filter_nil, app_nil_r|].
  cbn [foldl fst snd]. rewrite filter_cons.
  destruct (decide (s ∈ found')) as [Hin|Hin]; pose proof (Hf s ltac:(by left)) as Hiff.
  - rewrite decide_True by tauto. rewrite IH; [by rewrite <- app_assoc|]. intros x Hx.
    rewrite elem_of_difference, not_elem_of_singleton, (Hf x) by (by right). split; [by intros [? _]|]. intros ?. split; [done|]. by intros ->.
  - rewrite decide_False by tauto. apply IH. intros x Hx. apply Hf. by right.
Qed.

(** The elements at different indexes of a list are among its elements. *)
Lemma omap_lookup_seq {A} (l : list A) : omap (λ i, l !! i) (seq 0 (length l)) = l.
Proof.
  induction l as [|x l IH]; [done|]. cbn [length]. change (seq 0 (S (length l))) with (0%nat :: seq 1 (length l)).
  cbn [omap list_omap lookup list_lookup]. f_equal. rewrite <- fmap_S_seq. rewrite omap_fmap. exact IH.
Qed.

Lemma lookups_Permutation {A} (l : list A) ix xs :
  NoDup ix → Forall2 (λ i x, l !! i = Some x) ix xs → ∃ rest, l ≡ₚ xs ++ rest.
Proof.
  intros Hn Hl. assert (ix ⊆+ seq 0 (length l)) as (rest & Hp)%submseteq_Permutation.
  { apply NoDup_submseteq; [done|]. intros i [j Hj]%list_elem_of_lookup_1. destruct (Forall2_lookup_l _ _ _ _ _ Hl Hj) as (x & _ & Hx).
    apply lookup_lt_Some in Hx. apply elem_of_seq. lia. }
  exists (omap (λ i, l !! i) rest).
  assert (xs = omap (λ i, l !! i) ix) as ->.
  { clear Hn Hp. induction Hl as [|i x ix xs Hi _ IH]; [done|]. cbn. by rewrite Hi, IH. }
  rewrite <- omap_app, <- Hp. by rewrite omap_lookup_seq.
Qed.

(** The signatures in the order of the signers that were found, and the rest. *)
Lemma assigned_signatures h signatures (signers : list gostring) ix :
  NoDup ix → Forall2 (signed_at h signatures) signers ix →
  ∃ sigs rest, signatures ≡ₚ sigs ++ rest ∧ Forall2 (signed_by h) signers sigs.
Proof.
  intros Hn Hall.
  assert (∃ sigs, Forall2 (λ i sig, signatures !! i = Some sig) ix sigs ∧ Forall2 (signed_by h) signers sigs) as (sigs & Hl & Hs).
  { clear Hn. induction Hall as [|s i signers ix (sig & Hl & Hs) _ (sigs & IH1 & IH2)]; [by exists []|]. exists (sig :: sigs). by split; constructor. }
  destruct (lookups_Permutation _ _ _ Hn Hl) as [rest Hp]. eauto.
Qed.

(** ** The signers of the client *)

Definition client_key (server s : gostring) : Prop := s ≠ server ∧ Version s = Ret VersionByteAccountID.

Lemma members_same (P : gostring → Prop) pre x s : (P x → x ∈ pre) → s ∈ pre ∧ P s ↔ s ∈ pre ++ [x] ∧ P s.
Proof.
  intros Hx. rewrite elem_of_app, list_elem_of_singleton. split; [by intros [? ?]; split; [left|]|].
  intros [[?| ->] HP]; [done|]. split; [by apply Hx|done].
Qed.
Lemma members_added (P : gostring → Prop) pre x s : P x → (s ∈ pre ∧ P s) ∨ s = x ↔ s ∈ pre ++ [x] ∧ P s.
Proof.
  intros Hx. rewrite elem_of_app, list_elem_of_singleton. split; [intros [[? ?]| ->]; tauto|]. intros [[?| ->] HP]; tauto.
Qed.

Lemma client_step_spec server signers cs :
  mfold (client_step server) [] signers = Ret cs → NoDup cs ∧ ∀ s, s ∈ cs ↔ s ∈ signers ∧ client_key server s.
Proof.
  intros Hf. apply (mfold_ret_ind _ (λ pre cs, NoDup cs ∧ ∀ s, s ∈ cs ↔ s ∈ pre ∧ client_key server s)
    _ _ _ Hf); [split; [constructor|intros s; rewrite elem_of_nil; tauto]|].
  intros pre x cs1 cs2 [Hn Hcs] _. unfold client_step.
  assert ((client_key server x → x ∈ pre) → Ret (E := challenge_error) cs1 = Ret cs2 →
    NoDup cs2 ∧ ∀ s, s ∈ cs2 ↔ s ∈ pre ++ [x] ∧ client_key server s) as Hsame.
  { intros Hx [= <-]. split; [done|]. intros s. rewrite Hcs. by apply members_same. }
  destruct (bool_decide (x = server)) eqn:Ex.
  { apply bool_decide_eq_true in Ex. apply Hsame. by intros [? _]. }
  apply bool_decide_eq_false in Ex. destruct (decide (x ∈ cs1)) as [Hx|Hx].
  { apply Hsame. intros _. by apply Hcs in Hx as [? _]. }
  destruct (Version x) as [v|e|] eqn:Hv; [|apply Hsame; intros [_ ?]; congruence|done].
  destruct (Z.eqb_spec v VersionByteAccountID) as [->|Hne]; [|apply Hsame; intros [_ ?]; congruence].
  intros [= <-]. split; [apply NoDup_app; split_and!; [done|by intros y Hy ->%list_elem_of_singleton|apply NoDup_singleton]|].
  intros s. rewrite elem_of_app, Hcs, list_elem_of_singleton. by apply members_added.
Qed.

Lemma verifyTxSignatures_sound tx network signers found :
  NoDup signers → verifyTxSignatures tx network signers = Ret found →
  ∃ h, Hash tx network = Ret h ∧ (∃ st, mfold (verify_step h (tx_signatures tx)) (∅, ∅) signers = Ret st ∧ found = filter (λ s, s ∈ st.2) signers) ∧
    ∃ sigs rest, tx_signatures tx ≡ₚ sigs ++ rest ∧ Forall2 (signed_by h) found sigs.
Proof.
  intros Hn. unfold verifyTxSignatures. destruct (Hash tx network) as [h| |]; [|done..]. outcome_simpl. cbn [map_fail outcome_bind].
  destruct (mfold (verify_step h (tx_signatures tx)) (∅, ∅) signers) as [st| |] eqn:Hst; [|done..]. cbn [outcome_bind].
  intros [= <-]. rewrite found_list_filter by done. exists h. split; [done|]. split; [eauto|].
  destruct (verify_steps_assigned _ _ _ _ Hn Hst) as (_ & ix & Hix & _ & Hall). by apply (assigned_signatures h _ _ ix).
Qed.

Lemma verifyTxSignature_sound tx network signer :
  verifyTxSignature tx network signer = Ret tt →
  ∃ h sig, Hash tx network = Ret h ∧ sig ∈ tx_signatures tx ∧ signed_by h signer sig.
Proof.
  unfold verifyTxSignature. destruct (verifyTxSignatures tx network [signer]) as [[|s found]| |] eqn:Hv; [done| |done..]. intros _.
  apply verifyTxSignatures_sound in Hv as (h & Hh & (st & _ & Hf) & sigs & rest & Hp & Hall); [|apply NoDup_singleton].
  assert (s = signer) as ->. { assert (s ∈ s :: found) as Hs by (by left). rewrite Hf in Hs. by apply list_elem_of_filter in Hs as [_ ->%list_elem_of_singleton]. }
  inversion Hall as [|? sig ? ? Hs]; subst. exists h, sig. split; [done|]. split; [|done]. rewrite Hp. by left.
Qed.

(** ** The form of a challenge *)

Definition data_operation (op : Operation) (source : MuxedAccount) (value : option (list Z)) : Prop :=
  Op_SourceAccount op = Some source ∧ ∃ name, Body op = ManageDataOp name value.

Lemma manage_data_read op t value source :
  operationFromXDR op = Ret t → manage_data t = Ret (value, source) →
  ∃ m, data_operation op m value ∧ source = muxed_address m.
Proof.
  unfold operationFromXDR. destruct op as [src body]. cbn [Body Op_SourceAccount].
  destruct (Body_FromXDR body) as [b| |] eqn:Hb; [|done..]. outcome_simpl. intros [= <-]. unfold manage_data. cbn [op_Body op_SourceAccount].
  destruct b; try done. destruct src as [m|]; [|done]. cbn [accountFromXDR fmap option_fmap option_map AccountID]. intros [= <- <-].
  exists m. split; [|done]. split; [done|]. destruct body; cbv beta iota delta [Body_FromXDR] in Hb; try (injection Hb as <- <-; by eexists); try discriminate Hb.
  - by destruct (SetOptions_FromXDR op).
  - by destruct (RevokeSponsorship_FromXDR op).
Qed.

Lemma simple_from_XDR_inv e tx : simple_from_XDR e = Ret tx →
  tx_envelope tx = e ∧ tx_signatures tx = Envelope_Signatures e ∧ tx_sourceAccount tx = MkSimpleAccount (muxed_address (Envelope_SourceAccount e)) (Envelope_SeqNum e) ∧
  tx_timebounds tx = (match Envelope_TimeBounds e with
     | Some tb => NewTimebounds (i64 (MinTime tb)) (i64 (MaxTime tb)) | None => MkTimebounds 0 0 false end) ∧
  Forall2 (λ x op, operationFromXDR x = Ret op) (Operations e) (tx_operations tx).
Proof.
  unfold simple_from_XDR. destruct (mmap _ (Operations e)) as [ops| |] eqn:Hops; [|done..]. outcome_simpl. intros [= <-].
  split; [done|]. split; [done|]. split; [done|]. split; [done|]. apply mmap_Ret in Hops. eapply Forall2_impl; [exact Hops|].
  intros x op. apply map_fail_Ret.
Qed.

Lemma Generic_simple_inv text parsed tx :
  TransactionFromXDR text = Ret parsed → Generic_Transaction parsed = Some tx →
  ∃ e, UnmarshalEnvelopeBase64 text = Some e ∧ IsFeeBump e = false ∧ simple_from_XDR e = Ret tx.
Proof.
  unfold TransactionFromXDR. destruct (UnmarshalEnvelopeBase64 text) as [e|]; [|done]. intros Hp Hg. exists e. split; [done|].
  destruct e as [v sg|t sg|f sg]; cbn [transactionFromParsedXDR] in Hp.
  3: { outcome_simpl. destruct (map_fail _ _) as [i| |]; [|done..]. cbn [outcome_bind] in Hp. injection Hp as <-. done. }
  all: outcome_simpl; destruct (simple_from_XDR _) as [t'| |]; [|done..]; injection Hp as <-; injection Hg as <-; done.
Qed.

(** The first operation gives a nonce to the client, the others are the server's
    own; none is multiplexed where it matters. *)
Definition challenge_operations (server client : gostring) (ops : list Operation) : Prop :=
  ∃ op rest ed value nonce, ops = op :: rest ∧ data_operation op (KeyTypeEd25519 ed) (Some value) ∧ client = address (MkAccountId ed) ∧
    length value = 64%nat ∧ Base64.DecodeString value = Some nonce ∧ length nonce = 48%nat ∧
    Forall (λ op, ∃ m v, data_operation op m v ∧ muxed_address m = server) rest.

Lemma check_subsequent_sound server op t : operationFromXDR op = Ret t → check_subsequent server t = Ret tt →
  ∃ m v, data_operation op m v ∧ muxed_address m = server.
Proof.
  intros Hr. unfold check_subsequent. destruct (manage_data t) as [[v src]| |] eqn:Hm; [|done..]. outcome_simpl.
  destruct (manage_data_read _ _ _ _ Hr Hm) as (m & Hd & ->). destruct (bool_decide _) eqn:E; [|done]. apply bool_decide_eq_true in E. eauto.
Qed.

Lemma check_operations_sound tx server client :
  Forall2 (λ x op, operationFromXDR x = Ret op) (Operations (tx_envelope tx)) (tx_operations tx) →
  check_operations tx server = Ret client → challenge_operations server client (Operations (tx_envelope tx)).
Proof.
  unfold check_operations, raw_source_muxed. intros Hall. destruct Hall as [|x op xs ops Hx Hall]; [done|].
  destruct (manage_data op) as [[value src]| |] eqn:Hm; [|done..]. outcome_simpl.
  destruct (manage_data_read _ _ _ _ Hx Hm) as (m & [Hsrc Hd] & ->). rewrite Hsrc. cbn [outcome_bind].
  destruct m as [ed|]; cbn [is_muxed]; [|done]. unfold check_nonce.
  destruct (Nat.eqb_spec (length (default [] value)) 64) as [H64|]; [|done]. cbn [negb].
  destruct (Base64.DecodeString (default [] value)) as [nonce|] eqn:Hb; [|done].
  destruct (Nat.eqb_spec (length nonce) 48) as [H48|]; [|done]. cbn [negb outcome_bind].
  destruct (mmap (check_subsequent server) ops) as [us| |] eqn:Hsub; [|done..]. cbn [outcome_bind]. intros [= <-].
  destruct value as [value|]; [|done]. cbn [default] in *.
  exists x, xs, ed, value, nonce. split; [done|]. split; [by split|]. split; [done|]. split; [done|]. split; [done|]. split; [done|].
  apply mmap_Ret in Hsub. clear Hx Hm Hsrc Hd. revert us Hsub. induction Hall as [|y t ys ts Hy _ IH]; intros us Hsub; [constructor|].
  inversion Hsub as [|? [] ? ? Ht Hts]; subst. constructor; [by apply (check_subsequent_sound server y t)|by apply (IH l')].
Qed.

Definition current (tb : TimeBounds) (seconds : Z) : Prop :=
  i64 (MaxTime tb) ≠ 0 ∧ i64 (MinTime tb) ≤ seconds ≤ i64 (MaxTime tb).

(** C27: a text that is read as a challenge is the envelope of a plain transaction
    of the server's account with number 0, within its time bounds, whose first
    operation attaches 48 random bytes to the client's account, a plain one, and
    whose other operations are the server's; and the server signed its hash. *)
Theorem ReadChallengeTx_sound now text server network tx client :
  ReadChallengeTx now text server network = Ret (tx, client) →
  ∃ e ed tb h sig, UnmarshalEnvelopeBase64 text = Some e ∧ IsFeeBump e = false ∧ tx_envelope tx = e ∧
    Envelope_SourceAccount e = KeyTypeEd25519 ed ∧ server = address (MkAccountId ed) ∧ Envelope_SeqNum e = 0 ∧
    Envelope_TimeBounds e = Some tb ∧ current tb (now / second) ∧ challenge_operations server client (Operations e) ∧
    Hash tx network = Ret h ∧ sig ∈ Envelope_Signatures e ∧ signed_by h server sig.
Proof.
  unfold ReadChallengeTx. destruct (TransactionFromXDR text) as [parsed| |] eqn:Hp; [|done..]. outcome_simpl. cbn [map_fail outcome_bind].
  destruct (Generic_Transaction parsed) as [t|] eqn:Hg; [|done]. destruct (Generic_simple_inv _ _ _ Hp Hg) as (e & He & Hf & Hs).
  destruct (simple_from_XDR_inv _ _ Hs) as (Henv & Hsig & Hsrc & Htb & Hops). unfold check_transaction. rewrite Hsrc, Htb, Henv. cbn [AccountID Sequence].
  destruct (Envelope_SourceAccount e) as [ed|] eqn:Hm; cbn [is_muxed]; [|done].
  destruct (bool_decide _) eqn:Hserver; cbn [negb]; [|done]. apply bool_decide_eq_true in Hserver.
  destruct (Z.eqb_spec (Envelope_SeqNum e) 0) as [H0|]; cbn [negb]; [|done].
  destruct (Envelope_TimeBounds e) as [tb|] eqn:Htbe; [|done]. cbn [NewTimebounds tb_MaxTime tb_MinTime].
  destruct (Z.eqb_spec (i64 (MaxTime tb)) TimeoutInfinite) as [|Hinf]; [done|].
  destruct (Z.ltb_spec (now / second) (i64 (MinTime tb))); [done|]. destruct (Z.ltb_spec (i64 (MaxTime tb)) (now / second)); [done|]. cbn [orb outcome_bind].
  destruct (check_operations t server) as [c| |] eqn:Hc; [|done..]. cbn [outcome_bind].
  destruct (verifyTxSignature t network server) as [[]| |] eqn:Hv; [|done..]. cbn [outcome_bind]. intros [= <- <-].
  rewrite <- Henv in Hops. apply (check_operations_sound _ _ _ Hops) in Hc. rewrite Henv in Hc.
  destruct (verifyTxSignature_sound _ _ _ Hv) as (h & sig & Hh & Hin & Hsigned). rewrite Hsig in Hin.
  exists e, ed, tb, h, sig. by split_and!.
Qed.

Lemma signers_accounted now text server network signers found :
  VerifyChallengeTxSigners now text server network signers = Ret found →
  ∃ tx client h sigs, ReadChallengeTx now text server network = Ret (tx, client) ∧ Hash tx network = Ret h ∧
    found ≠ [] ∧ NoDup found ∧ (∀ s, s ∈ found → s ∈ signers ∧ client_key server s) ∧
    tx_signatures tx ≡ₚ sigs ∧ Forall2 (signed_by h) (server :: found) sigs.
Proof.
  unfold VerifyChallengeTxSigners. destruct (ReadChallengeTx now text server network) as [[tx client]| |]; [|done..]. outcome_simpl.
  unfold ParseAddress. destruct (Decode VersionByteAccountID server) as [pub| |]; [|done..]. outcome_simpl. cbn [map_fail outcome_bind Address].
  destruct (mfold (client_step server) [] signers) as [cs| |] eqn:Hcs; [|done..]. cbn [outcome_bind]. apply client_step_spec in Hcs as [Hn Hcs].
  destruct (length cs =? 0)%nat; [done|].
  assert (NoDup (server :: cs)) as Hall. { constructor; [|done]. intros Hin. by apply Hcs in Hin as (_ & ? & _). }
  destruct (verifyTxSignatures tx network (server :: cs)) as [all| |] eqn:Hv; [|done..]. cbn [outcome_bind].
  apply verifyTxSignatures_sound in Hv as (h & Hh & (st & _ & Hf) & sigs & rest & Hp & Hsigned); [|done].
  destruct (length all =? 0)%nat; [done|]. destruct (bool_decide (server ∈ all)) eqn:Hs; cbn [negb]; [|done]. apply bool_decide_eq_true in Hs.
  destruct (Nat.eqb_spec (length (filter (λ s, s ≠ server) all)) 0) as [|Hne]; [done|].
  destruct (Nat.eqb_spec (length all) (length (tx_signatures tx))) as [Hlen|]; cbn [negb]; [|done]. intros [= <-].
  assert (all = server :: filter (λ s, s ≠ server) all) as Hsplit.
  { rewrite Hf, filter_cons in Hs |- *. destruct (decide (server ∈ st.2)) as [|Hns].
    - f_equal. rewrite filter_cons_False by tauto. symmetry. apply filter_all. apply Forall_forall. intros s Hin.
      apply list_elem_of_filter in Hin as [_ Hin]. by apply Hcs in Hin as (_ & ? & _).
    - exfalso. apply list_elem_of_filter in Hs as [? _]. done. }
  exists tx, client, h, sigs. split; [done|]. split; [done|].
  split; [intros E; by rewrite E in Hne|]. split; [rewrite Hf; by apply NoDup_filter, NoDup_filter|].
  split.
  { intros s [Hns Hin]%list_elem_of_filter. rewrite Hf in Hin. apply list_elem_of_filter in Hin as [_ [->|Hin]%elem_of_cons]; [done|]. by apply Hcs. }
  rewrite <- Hsplit. split; [|done].
  assert (rest = []) as ->; [|by rewrite app_nil_r in Hp]. apply length_zero_iff_nil. apply Permutation_length in Hp. rewrite length_app in Hp.
  apply Forall2_length in Hsigned. lia.
Qed.

(** C21: when the signatures of a challenge are accepted, they are exactly one
    signature of the server and one of each signer in the result, a list without
    repetitions of signers that were asked for, other than the server; it is not
    empty. *)
Theorem VerifyChallengeTxSigners_sound now text server network signers found :
  VerifyChallengeTxSigners now text server network signers = Ret found →
  ∃ tx client h sigs, ReadChallengeTx now text server network = Ret (tx, client) ∧ Hash tx network = Ret h ∧
    found ≠ [] ∧ NoDup found ∧ (∀ s, s ∈ found → s ∈ signers ∧ client_key server s) ∧
    tx_signatures tx ≡ₚ sigs ∧ Forall2 (signed_by h) (server :: found) sigs.
Proof. apply signers_accounted. Qed.

(** ** Weights *)

Definition weights_sum (ws : list Z) : Z := foldr Z.add 0 ws.
Definition all_weights (signerSummary : gmap gostring Z) : list Z := (map_to_list signerSummary).*2.
Definition weight_of (signerSummary : gmap gostring Z) (s : gostring) : Z := default 0 (signerSummary !! s).

Lemma weights_sum_app l l' : weights_sum (l ++ l') = weights_sum l + weights_sum l'.
Proof. induction l as [|w l IH]; [done|]. cbn [app weights_sum foldr] in *. unfold weights_sum in *. lia. Qed.
Lemma weights_sum_nonneg l : Forall (λ w, 0 ≤ w) l → 0 ≤ weights_sum l.
Proof. induction 1; unfold weights_sum in *; cbn [foldr]; lia. Qed.
#[export] Instance weights_sum_perm : Proper ((≡ₚ) ==> (=)) weights_sum.
Proof. induction 1; unfold weights_sum in *; cbn [foldr]; lia. Qed.

Lemma total_weight_fold m l acc : Forall (λ s, 0 ≤ weight_of m s) l → 0 ≤ acc → acc + weights_sum (weight_of m <$> l) < 2 ^ 31 →
  foldl (λ weight s, i32 (weight + default 0 (m !! s))) acc l = acc + weights_sum (weight_of m <$> l).
Proof.
  intros Hl. revert acc. induction Hl as [|s l Hs Hl IH]; intros acc Ha Hsum; [unfold weights_sum; cbn; lia|]. rewrite fmap_cons in *.
  change (weights_sum (weight_of m s :: (weight_of m <$> l))) with (weight_of m s + weights_sum (weight_of m <$> l)) in *.
  assert (0 ≤ weights_sum (weight_of m <$> l)) by (by apply weights_sum_nonneg, Forall_fmap). cbn [foldl].
  fold (weight_of m s). rewrite i32_small by (unfold is_i32; lia). rewrite IH by lia. lia.
Qed.

Lemma keys_weights m : weight_of m <$> (map_to_list m).*1 = all_weights m.
Proof.
  unfold all_weights. rewrite <- list_fmap_compose. apply list_fmap_ext. intros i [s w] Hi%list_elem_of_lookup_2%elem_of_map_to_list.
  cbn. unfold weight_of. by rewrite Hi.
Qed.

Lemma found_weights m (found : list gostring) :
  (∀ s w, m !! s = Some w → 0 ≤ w) → NoDup found → (∀ s, s ∈ found → s ∈ (map_to_list m).*1) →
  Forall (λ s, 0 ≤ weight_of m s) found ∧ Forall2 (λ s w, m !! s = Some w) found (weight_of m <$> found) ∧
  weights_sum (weight_of m <$> found) ≤ weights_sum (all_weights m).
Proof.
  intros Hpos Hn Hsub.
  assert (∀ s, s ∈ found → ∃ w, m !! s = Some w) as Hin.
  { intros s ([s' w] & -> & Hw%elem_of_map_to_list)%Hsub%list_elem_of_fmap. by exists w. }
  split; [|split].
  - apply Forall_forall. intros s Hs. destruct (Hin s Hs) as [w Hw]. unfold weight_of. rewrite Hw. by apply (Hpos s).
  - clear Hn Hsub. induction found as [|s found IH]; [constructor|]. rewrite fmap_cons. constructor.
    + destruct (Hin s ltac:(by left)) as [w Hw]. unfold weight_of. by rewrite Hw.
    + apply IH. intros x Hx. apply Hin. by right.
  - destruct (submseteq_Permutation found (map_to_list m).*1) as [rest Hp]; [by apply NoDup_submseteq|].
    rewrite <- keys_weights, Hp, fmap_app, weights_sum_app.
    assert (0 ≤ weights_sum (weight_of m <$> rest)); [|lia]. apply weights_sum_nonneg, Forall_fmap, Forall_true.
    intros s. unfold compose, weight_of. destruct (m !! s) eqn:E; [by apply (Hpos s)|done].
Qed.

(** with weights that are not negative and whose sum fits in 32 bits, the
    threshold is compared with the exact sum of the weights of the signers that
    were found, each counted once, and each one of the account's signers. *)
Theorem VerifyChallengeTxThreshold_spec (range : gmap gostring Z → list gostring) (now : Z) (text server network : gostring) (threshold : Z)
    (signerSummary : gmap gostring Z) (found : list gostring) :
  (∀ m, range m ≡ₚ (map_to_list m).*1) →
  (∀ s w, signerSummary !! s = Some w → 0 ≤ w) → weights_sum (all_weights signerSummary) < 2 ^ 31 →
  VerifyChallengeTxSigners now text server network (range signerSummary) = Ret found →
  ∃ ws, Forall2 (λ s w, signerSummary !! s = Some w) found ws ∧
    VerifyChallengeTxThreshold range now text server network threshold signerSummary =
      (if weights_sum ws <? threshold then Fail (ErrThreshold (weights_sum ws) threshold) else Ret found).
Proof.
  intros Hrange Hpos Hfit Hv. destruct (signers_accounted _ _ _ _ _ _ Hv) as (_ & _ & _ & _ & _ & _ & _ & Hn & Hsub & _).
  destruct (found_weights signerSummary found Hpos Hn) as (Hnn & Hall & Hle).
  { intros s Hs. apply Hsub in Hs as [Hs _]. by rewrite Hrange in Hs. }
  exists (weight_of signerSummary <$> found). split; [done|]. unfold VerifyChallengeTxThreshold. rewrite Hv. outcome_simpl.
  unfold total_weight. rewrite total_weight_fold by (done || lia). by rewrite Z.add_0_l.
Qed.
End signatures.

(** ** A challenge that is made and signed is accepted *)

Section complete.
Context `{EC : EnvelopeCodec} {ECL : EnvelopeCodecLaws} `{NW : Network} `{ED : Ed25519} {EDL : Ed25519Laws}.

(** What a signature scheme promises beyond the laws: a signature is verified
    under no other key. *)
Definition exclusive : Prop :=
  ∀ seed pub m, wf_bytes 32 pub → ed_verify pub m (ed_sign seed m) = true → pub = ed_public seed.

Definition account_text (s : gostring) : Prop := ∃ id, wf_account id ∧ s = address id.

Lemma account_text_Decode s : account_text s →
  ∃ pub, Decode VersionByteAccountID s = Ret pub ∧ length pub = 32%nat ∧ s = address (MkAccountId pub) ∧ Forall is_u8 pub.
Proof.
  intros (id & Hid & ->). pose proof (SetAddress_address id Hid) as H. unfold AccountId_SetAddress in H.
  destruct (Decode VersionByteAccountID (address id)) as [raw| |]; [|done..]. outcome_simpl. cbn [map_fail outcome_bind] in H.
  destruct (Nat.eqb_spec (length raw) 32); [|done]. injection H as <-. exists raw. by split_and!; [..|apply Hid].
Qed.

Lemma account_text_Version s : account_text s → Version s = Ret VersionByteAccountID.
Proof.
  intros (id & [_ Hu] & ->). by destruct (Encode_readable _ _ _ valid_version_account Hu (Encode_address id)) as (_ & _ & _ & ?).
Qed.

(** What a key signs, and the text of its address. *)
Definition signature_of (raw h : list Z) : DecoratedSignature := MkSignature (key_hint (ed_public raw)) (ed_sign raw h).
Definition address_of (raw : list Z) : gostring := address (MkAccountId (ed_public raw)).

Lemma wf_public raw : wf_account (MkAccountId (ed_public raw)).
Proof. split; apply ed_public_bytes. Qed.
Lemma address_of_text raw : account_text (address_of raw).
Proof. exists (MkAccountId (ed_public raw)). split; [apply wf_public|done]. Qed.

Lemma SignDecorated_inv seed h sig : SignDecorated (Full seed) h = Ret sig →
  ∃ raw, rawSeed seed = Ret raw ∧ sig = signature_of raw h.
Proof.
  unfold SignDecorated, Sign, Keypair.Hint. cbn [publicKey]. destruct (rawSeed seed) as [raw| |]; [|done..]. outcome_simpl.
  destruct (length (ed_public raw) <? 28)%nat; [done|]. intros [= <-]. by exists raw.
Qed.

Lemma Address_rawSeed seed raw a : rawSeed seed = Ret raw → Address (Full seed) = Ret a → a = address_of raw.
Proof.
  intros Hr. unfold Address. cbn [publicKey]. rewrite Hr. outcome_simpl. unfold MustEncode.
  pose proof (Encode_address (MkAccountId (ed_public raw))) as He. cbn [Xdr.Ed25519] in He. rewrite He. cbn [must]. by intros [= <-].
Qed.

Lemma signature_of_signed raw h : signed_by h (address_of raw) (signature_of raw h).
Proof.
  destruct (account_text_Decode _ (address_of_text raw)) as (pub & Hd & Hl & Ha & _). exists pub.
  assert (pub = ed_public raw) as ->.
  { pose proof (SetAddress_address _ (wf_public raw)) as H. unfold AccountId_SetAddress in H. fold (address_of raw) in H. rewrite Hd in H.
    outcome_simpl. cbn [map_fail outcome_bind] in H. rewrite Hl in H. cbn [Nat.eqb negb] in H. by injection H. }
  split_and!; [done|done|done|apply ed_sign_length|apply ed_sign_verifies].
Qed.

Lemma signed_by_only raw h s : exclusive → account_text s → signed_by h s (signature_of raw h) → s = address_of raw.
Proof.
  intros He Hs (pub & Hd & _ & _ & _ & Hv). destruct (account_text_Decode s Hs) as (pub' & Hd' & Hl & -> & Hu).
  rewrite Hd' in Hd. injection Hd as ->. apply He in Hv as ->; [done|by split].
Qed.

(** When no signature is of two of the signers, each signer that signed is
    found. *)
Lemma verify_steps_complete h signatures signers :
  NoDup signers → (∀ s, s ∈ signers → account_text s) →
  (∀ s s' i, s ∈ signers → s' ∈ signers → signed_at h signatures s i → signed_at h signatures s' i → s = s') →
  ∃ st, mfold (verify_step h signatures) (∅, ∅) signers = Ret st ∧
    (∀ i, i ∈ st.1 → ∃ s, s ∈ signers ∧ signed_at h signatures s i) ∧
    ∀ s, s ∈ st.2 ↔ s ∈ signers ∧ ∃ i, signed_at h signatures s i.
Proof.
  intros Hn. induction signers as [|signer signers IH] using rev_ind; intros Htext Hex.
  { exists (∅, ∅). split; [done|]. cbn [fst snd]. split; [set_solver|]. intros s. rewrite elem_of_nil. set_solver. }
  apply NoDup_app in Hn as (Hn & Hx & _).
  destruct IH as (st & Hst & Hused & Hfound); [done| | |].
  { intros s Hs. apply Htext, elem_of_app. by left. }
  { intros s s' i Hs Hs'. apply Hex; apply elem_of_app; by left. }
  assert (signer ∈ signers ++ [signer]) as Hin by (apply elem_of_app; right; by left).
  rewrite mfold_app, Hst. cbn [outcome_bind mfold]. unfold verify_step, ParseAddress.
  destruct (account_text_Decode _ (Htext signer Hin)) as (pub & Hd & Hl & _). rewrite Hd. outcome_simpl. cbn [map_fail outcome_bind].
  destruct (find_signature_complete signer pub h st.1 signatures 0 Hd Hl) as (r & Hr & Hnone). rewrite Hr. cbn [outcome_bind].
  destruct r as [i|]; eexists; (split; [reflexivity|]); cbn [fst snd].
  - apply find_signature_sound in Hr as (k & -> & _ & Hs). cbn [Nat.add]. split.
    + intros i [->%elem_of_singleton|Hi]%elem_of_union; [by exists signer|]. destruct (Hused i Hi) as (s & Hsin & ?). exists s. split; [apply elem_of_app; by left|done].
    + intros s. rewrite elem_of_union, elem_of_singleton, Hfound, elem_of_app, list_elem_of_singleton. naive_solver.
  - split.
    + intros i Hi. destruct (Hused i Hi) as (s & Hsin & ?). exists s. split; [apply elem_of_app; by left|done].
    + intros s. rewrite Hfound, elem_of_app, list_elem_of_singleton. split; [intros [? ?]; split; [by left|done]|].
      intros [[?| ->] [i Hi]]; [eauto|]. exfalso. apply (Hnone eq_refl i); [|done]. cbn [Nat.add]. intros (s & Hsin & Hsi)%Hused.
      assert (s = signer) as -> by (apply (Hex s signer i); [apply elem_of_app; by left|done..]). apply (Hx signer Hsin). by left.
Qed.

(** The transaction of a challenge. *)
Definition challenge_data (homeDomain : gostring) (nonce : list Z) : TxnBody :=
  TxnManageData (homeDomain ++ str " auth") (Some (Base64.EncodeToString nonce)).
Definition challenge_tx (raw : list Z) (client : AccountId) (homeDomain : gostring) (nonce : list Z) (minTime maxTime : Z) : Transaction :=
  MkTransaction (KeyTypeEd25519 (ed_public raw)) MinBaseFee 0 (Some (MkTimeBounds minTime maxTime)) MemoNone
    [MkOperation (Some (KeyTypeEd25519 (Xdr.Ed25519 client)))
       (ManageDataOp (homeDomain ++ str " auth") (Some (Base64.EncodeToString nonce)))].

Lemma Parse_Full s kp : Parse s = Ret kp → kp = FromAddress s ∨ kp = Full s.
Proof.
  unfold Parse, ParseAddress, ParseFull. destruct (Decode VersionByteAccountID s) as [x|e|]; outcome_simpl; cbn [map_fail outcome_bind].
  - intros [= <-]. by left.
  - destruct (Decode VersionByteSeed s) as [y|e'|]; cbn [map_fail outcome_bind]; destruct e; try done; intros [= <-]; by right.
  - done.
Qed.

Lemma Full_Address seed a : Address (Full seed) = Ret a → ∃ raw, rawSeed seed = Ret raw ∧ a = address_of raw.
Proof.
  intros Ha. destruct (rawSeed seed) as [raw| |] eqn:Hr; [|by unfold Address in Ha; cbn [publicKey] in Ha; rewrite Hr in Ha..].
  exists raw. split; [done|]. by apply (Address_rawSeed seed).
Qed.

Lemma concatSignatures_inv e network sigs kps r :
  concatSignatures e network sigs (Full <$> kps) = Ret r →
  ∃ h raws, hash_envelope e network = Ret h ∧ Forall2 (λ seed raw, rawSeed seed = Ret raw) kps raws ∧
    r = sigs ++ ((λ raw, signature_of raw h) <$> raws).
Proof.
  unfold concatSignatures. destruct (hash_envelope e network) as [h| |]; [|done..]. outcome_simpl.
  destruct (mmap _ (Full <$> kps)) as [added| |] eqn:Hm; [|done..]. cbn [outcome_bind]. intros [= <-]. apply mmap_Ret in Hm.
  assert (∃ raws, Forall2 (λ seed raw, rawSeed seed = Ret raw) kps raws ∧ added = (λ raw, signature_of raw h) <$> raws) as (raws & Hr & ->).
  { revert added Hm. induction kps as [|seed kps IH]; intros added Hm; inversion Hm as [|? sig ? added' Hs Hm']; subst; [by exists []|].
    apply map_fail_Ret, SignDecorated_inv in Hs as (raw & Hraw & ->). destruct (IH _ Hm') as (raws & Hr & ->).
    exists (raw :: raws). split; [by constructor|done]. }
  by exists h, raws.
Qed.

Lemma Txn_Sign_inv t network kps t' :
  Txn_Sign t network (Full <$> kps) = Ret t' →
  ∃ h raws, hash_envelope (tx_envelope t) network = Ret h ∧ Forall2 (λ seed raw, rawSeed seed = Ret raw) kps raws ∧
    t' = set_signatures t (tx_signatures t ++ ((λ raw, signature_of raw h) <$> raws)).
Proof.
  unfold Txn_Sign. destruct (concatSignatures _ _ _ _) as [r| |] eqn:Hs; [|done..]. outcome_simpl. intros [= <-].
  apply concatSignatures_inv in Hs as (h & raws & ? & ? & ->). eauto.
Qed.

Lemma BuildChallengeTx_made now nonce seed client homeDomain network timebound tx :
  wf_account client → 0 ≤ now → (now + timebound) / second ≤ MaxInt64 →
  BuildChallengeTx now (Some nonce) seed (address client) homeDomain network timebound = Ret tx →
  ∃ raw h, rawSeed seed = Ret raw ∧ hash_envelope (EnvelopeTypeTx (challenge_tx raw client homeDomain nonce (now / second) ((now + timebound) / second)) []) network = Ret h ∧
    tx_envelope tx = EnvelopeTypeTx (challenge_tx raw client homeDomain nonce (now / second) ((now + timebound) / second)) [] ∧
    tx_signatures tx = [signature_of raw h] ∧ second ≤ timebound ∧ length (Base64.EncodeToString nonce) = 64%nat.
Proof.
  intros Hc Hnow Hmax. unfold BuildChallengeTx. destruct (Z.ltb_spec timebound second) as [|Htb]; [done|].
  destruct (Parse seed) as [kp| |] eqn:Hparse; [|done..]. outcome_simpl. cbn [map_fail outcome_bind].
  destruct (Nat.eqb_spec (length (Base64.EncodeToString nonce)) 64) as [H64|]; [|done]. cbn [negb].
  unfold AddressToAccountId. rewrite SetAddress_address by done. cbn [map_fail outcome_bind].
  destruct (Address kp) as [server| |] eqn:Haddr; [|done..]. cbn [map_fail outcome_bind]. unfold NewTransaction.
  cbn [SourceAccount IncrementSequenceNum Params_Operations Params_BaseFee Params_Memo Params_Timebounds fst snd].
  unfold GetSequenceNumber, GetAccountID, SimpleAccount_Account. cbn [Sequence AccountID map_fail outcome_bind]. outcome_simpl.
  assert (is_i64 (now / second) ∧ is_i64 ((now + timebound) / second)) as [Hi1 Hi2].
  { unfold second, is_i64, MaxInt64 in *.
    assert (now / 10 ^ 9 ≤ (now + timebound) / 10 ^ 9) by (apply Z.div_le_mono; lia).
    assert (0 ≤ now / 10 ^ 9) by (apply Z.div_pos; lia). lia. }
  destruct (new_transaction _ _ _ _ _) as [t| |] eqn:Ht; [|done..]. cbn [map_fail outcome_bind].
  apply new_transaction_spec in Ht as (id & xs & xm & Hid & _ & _ & _ & _ & Hxm & Hops & ->);
    [|unfold is_i64, MinBaseFee; lia|cbn; unfold MaxInt64; lia|done|done]. cbn [AccountID] in Hid.
  destruct (Parse_Full _ _ Hparse) as [->| ->]; [done|]. destruct (Full_Address _ _ Haddr) as (raw & Hraw & ->).
  unfold address_of in Hid. rewrite SetAddress_address in Hid by apply wf_public. injection Hid as <-.
  inversion Hops as [|op x ops xs' [_ Hx] Hnil]; subst. inversion Hnil; subst. cbn [build_memo] in Hxm. injection Hxm as <-.
  assert (x = MkOperation (Some (KeyTypeEd25519 (Xdr.Ed25519 client))) (ManageDataOp (homeDomain ++ str " auth") (Some (Base64.EncodeToString nonce)))) as ->.
  { unfold BuildXDR in Hx. cbn [op_Body Body_BuildXDR op_SourceAccount] in Hx. outcome_simpl. unfold SetOpSourceAccount, GetAccountID, SimpleAccount_Account in Hx.
    cbn [AccountID] in Hx. rewrite Muxed_SetAddress_address in Hx by done. by injection Hx as <-. }
  intros (h & raws & Hh & Hr & ->)%map_fail_Ret%(Txn_Sign_inv _ _ [seed]).
  inversion Hr as [|? raw' ? ? Hraw' Hr']; subst. inversion Hr'; subst. rewrite Hraw in Hraw'. injection Hraw' as <-.
  exists raw, h. unfold set_signatures, made, challenge_tx. cbn [tx_envelope tx_signatures Sequence NewTimebounds tb_MinTime tb_MaxTime].
  split; [done|]. split; [exact Hh|]. by split_and!.
Qed.

(** What is read of the envelope of a challenge with some signatures. *)
Definition challenge_read (raw : list Z) (client : AccountId) (homeDomain : gostring) (nonce : list Z) (minTime maxTime : Z)
    (sigs : list DecoratedSignature) : TxnTransaction :=
  MkTxnTransaction (EnvelopeTypeTx (challenge_tx raw client homeDomain nonce minTime maxTime) sigs) MinBaseFee MinBaseFee
    (MkSimpleAccount (address_of raw) 0) [MkTxnOperation (Some (MkSimpleAccount (address client) 0)) (challenge_data homeDomain nonce)]
    None (NewTimebounds minTime maxTime) sigs.

Lemma challenge_parsed raw client homeDomain nonce minTime maxTime sigs :
  is_i64 minTime → is_i64 maxTime →
  simple_from_XDR (EnvelopeTypeTx (challenge_tx raw client homeDomain nonce minTime maxTime) sigs) =
  Ret (challenge_read raw client homeDomain nonce minTime maxTime sigs).
Proof.
  intros Hmin Hmax. unfold simple_from_XDR, challenge_tx. cbn [Operations Tx_Operations Envelope_Fee Tx_Fee Envelope_SourceAccount
    Tx_SourceAccount Envelope_SeqNum Tx_SeqNum Envelope_Memo Tx_Memo Envelope_TimeBounds Tx_TimeBounds Envelope_Signatures MinTime MaxTime].
  rewrite !i64_small by done. unfold challenge_read, challenge_tx, address_of, muxed_address. cbn [ToAccountId]. by destruct client.
Qed.

(** The signatures of different keys. *)
Lemma signed_at_raws h raws s i : exclusive → account_text s →
  signed_at h ((λ raw, signature_of raw h) <$> raws) s i → ∃ raw, raws !! i = Some raw ∧ s = address_of raw.
Proof.
  intros He Hs (sig & Hl & Hsig). apply list_lookup_fmap_Some in Hl as (raw & -> & Hl). exists raw. split; [done|]. by apply signed_by_only in Hsig.
Qed.

Lemma signed_at_raws_iff h raws s : exclusive → account_text s →
  (∃ i, signed_at h ((λ raw, signature_of raw h) <$> raws) s i) ↔ s ∈ address_of <$> raws.
Proof.
  intros He Hs. split.
  - intros [i (raw & Hl & ->)%signed_at_raws]; [|done..]. by apply list_elem_of_fmap_2, (list_elem_of_lookup_2 _ i).
  - intros (raw & -> & [i Hi]%list_elem_of_lookup_1)%list_elem_of_fmap. exists i, (signature_of raw h).
    split; [by rewrite list_lookup_fmap, Hi|apply signature_of_signed].
Qed.

Lemma verifyTxSignatures_complete tx network h raws signers :
  exclusive → Hash tx network = Ret h → tx_signatures tx = (λ raw, signature_of raw h) <$> raws →
  NoDup signers → (∀ s, s ∈ signers → account_text s) →
  verifyTxSignatures tx network signers = Ret (filter (λ s, s ∈ address_of <$> raws) signers).
Proof.
  intros He Hh Hsigs Hn Htext. unfold verifyTxSignatures. rewrite Hh, Hsigs. outcome_simpl. cbn [map_fail outcome_bind].
  destruct (verify_steps_complete h ((λ raw, signature_of raw h) <$> raws) signers Hn Htext) as (st & -> & _ & Hfound).
  { intros s s' i Hs Hs' (raw & Hl & ->)%signed_at_raws (raw' & Hl' & ->)%signed_at_raws; [|by auto..]. congruence. }
  cbn [outcome_bind]. rewrite found_list_filter by done. f_equal. apply list_filter_iff_in. intros s Hs.
  rewrite Hfound, signed_at_raws_iff by auto. tauto.
Qed.

Lemma client_step_total server signers acc :
  (∀ s, s ∈ signers → account_text s) → ∃ cs, mfold (client_step server) acc signers = Ret cs.
Proof.
  revert acc. induction signers as [|x signers IH]; intros acc Ht; [by exists acc|]. cbn [mfold]. unfold client_step at 2.
  assert (∀ acc, ∃ cs, mfold (client_step server) acc signers = Ret cs) as IH' by (intros acc'; apply IH; intros s Hs; apply Ht; by right).
  destruct (bool_decide (x = server)); [apply IH'|]. destruct (decide (x ∈ acc)); [apply IH'|].
  rewrite account_text_Version by (apply Ht; by left). apply IH'.
Qed.

Lemma check_transaction_made raw client homeDomain nonce minTime maxTime sigs seconds :
  minTime ≤ seconds ≤ maxTime → maxTime ≠ 0 →
  check_transaction seconds (challenge_read raw client homeDomain nonce minTime maxTime sigs) (address_of raw) = Ret tt.
Proof.
  intros Hnow H0. unfold check_transaction, challenge_read. cbn [tx_envelope Envelope_SourceAccount challenge_tx Tx_SourceAccount is_muxed
    tx_sourceAccount AccountID Sequence tx_timebounds NewTimebounds tb_MinTime tb_MaxTime].
  rewrite bool_decide_eq_true_2 by done. cbn [negb Z.eqb]. unfold TimeoutInfinite. rewrite (proj2 (Z.eqb_neq maxTime 0)) by done.
  rewrite (proj2 (Z.ltb_ge _ _)) by lia. by rewrite (proj2 (Z.ltb_ge maxTime _)) by lia.
Qed.

Lemma check_operations_made raw client homeDomain nonce minTime maxTime sigs :
  Forall is_u8 nonce → length nonce = 48%nat →
  check_operations (challenge_read raw client homeDomain nonce minTime maxTime sigs) (address_of raw) = Ret (address client).
Proof.
  intros Hn H48. unfold check_operations, challenge_read, manage_data, challenge_data, raw_source_muxed.
  cbn [tx_operations op_Body op_SourceAccount outcome_bind AccountID tx_envelope Operations challenge_tx Tx_Operations Op_SourceAccount is_muxed].
  outcome_simpl. unfold check_nonce. cbn [default]. change (id ?x) with x. rewrite Base64.base64_Encode_length, Base64.base64_Decode_Encode by done.
  by rewrite H48.
Qed.

Lemma verifyTxSignature_made tx network h raw raws :
  exclusive → Hash tx network = Ret h → tx_signatures tx = (λ raw, signature_of raw h) <$> raw :: raws →
  verifyTxSignature tx network (address_of raw) = Ret tt.
Proof.
  intros He Hh Hs. unfold verifyTxSignature. rewrite (verifyTxSignatures_complete _ _ h (raw :: raws)); [|done..|apply NoDup_singleton|].
  - rewrite filter_cons_True; [done|]. rewrite fmap_cons. by left.
  - intros s ->%list_elem_of_singleton. apply address_of_text.
Qed.

Lemma ReadChallengeTx_made now text network raw raws client homeDomain nonce minTime maxTime h :
  exclusive → Forall is_u8 nonce → length nonce = 48%nat → 0 ≤ minTime → minTime ≤ now / second ≤ maxTime → maxTime ≤ MaxInt64 →
  maxTime ≠ 0 →
  let sigs := (λ raw, signature_of raw h) <$> raw :: raws in
  let e := EnvelopeTypeTx (challenge_tx raw client homeDomain nonce minTime maxTime) sigs in
  UnmarshalEnvelopeBase64 text = Some e → hash_envelope e network = Ret h →
  ReadChallengeTx now text (address_of raw) network =
    Ret (challenge_read raw client homeDomain nonce minTime maxTime sigs, address client).
Proof.
  intros He Hnonce H48 Hmin Hnow Hmax H0 sigs e Hu Hh. unfold ReadChallengeTx, TransactionFromXDR. rewrite Hu.
  unfold e. cbn [transactionFromParsedXDR]. rewrite challenge_parsed by (unfold is_i64, MaxInt64 in *; lia).
  outcome_simpl. cbn [map_fail outcome_bind Generic_Transaction].
  rewrite check_transaction_made, check_operations_made by done. cbn [outcome_bind]. by rewrite (verifyTxSignature_made _ _ h raw raws).
Qed.

Lemma VerifyChallengeTxSigners_made now text network tx c h raw raws signers :
  exclusive → ReadChallengeTx now text (address_of raw) network = Ret (tx, c) → Hash tx network = Ret h →
  tx_signatures tx = (λ raw, signature_of raw h) <$> raw :: raws →
  let addrs := address_of <$> raws in
  NoDup (address_of raw :: addrs) → addrs ≠ [] → (∀ s, s ∈ addrs → s ∈ signers) → (∀ s, s ∈ signers → account_text s) →
  ∃ found, VerifyChallengeTxSigners now text (address_of raw) network signers = Ret found ∧ found ≡ₚ addrs.
Proof.
  intros He Hread Hh Hsigs addrs Hnd Hne Hsub Htext. apply NoDup_cons in Hnd as [Hserver Hnd].
  unfold VerifyChallengeTxSigners. rewrite Hread. outcome_simpl. unfold ParseAddress.
  destruct (account_text_Decode _ (address_of_text raw)) as (pub & -> & _). outcome_simpl. cbn [map_fail outcome_bind Address].
  destruct (client_step_total (address_of raw) signers [] Htext) as [cs Hcs]. rewrite Hcs. cbn [outcome_bind].
  apply client_step_spec in Hcs as [Hn Hcs].
  assert (∀ s, s ∈ addrs → s ∈ cs) as Hin.
  { intros s Hs. apply Hcs. split; [by apply Hsub|]. split; [by intros ->|]. by apply account_text_Version, Htext, Hsub. }
  destruct (Nat.eqb_spec (length cs) 0) as [H0%nil_length_inv|_].
  { exfalso. destruct addrs as [|a l]; [done|]. specialize (Hin a ltac:(by left)). rewrite H0 in Hin. by apply not_elem_of_nil in Hin. }
  assert (NoDup (address_of raw :: cs)) as Hall. { constructor; [|done]. intros Hi. by apply Hcs in Hi as (_ & ? & _). }
  rewrite (verifyTxSignatures_complete _ _ h (raw :: raws)); [|done..|].
  2: { intros s [->|Hs]%elem_of_cons; [apply address_of_text|]. apply Hcs in Hs as [Hs _]. by apply Htext. }
  rewrite fmap_cons. fold addrs. rewrite filter_cons_True by (by left). cbn [outcome_bind length Nat.eqb].
  set (found := filter (λ s, s ∈ address_of raw :: addrs) cs).
  assert (filter (λ s, s ≠ address_of raw) (address_of raw :: found) = found) as ->.
  { rewrite filter_cons_False by tauto. apply filter_all, Forall_forall. intros s [_ Hs]%list_elem_of_filter. by apply Hcs in Hs as (_ & ? & _). }
  assert (found ≡ₚ addrs) as Hp.
  { apply NoDup_Permutation; [by apply NoDup_filter|done|]. intros s. unfold found. rewrite list_elem_of_filter, elem_of_cons. split.
    - intros [[->|Hs] Hi]; [by apply Hcs in Hi as (_ & ? & _)|done].
    - intros Hs. auto. }
  rewrite bool_decide_eq_true_2 by (by left). cbn [negb]. pose proof (Permutation_length Hp) as Hlen.
  destruct (Nat.eqb_spec (length found) 0) as [H0|_]; [exfalso; apply Hne, nil_length_inv; lia|].
  rewrite Hsigs, length_fmap. cbn [length]. rewrite Hlen. unfold addrs at 1. rewrite length_fmap, Nat.eqb_refl. cbn [negb]. by exists found.
Qed.

(** C22: a challenge that a server makes for a client's account, and that keys
    other than the server's sign, is read again as long as its time bounds last,
    and its signatures are accepted: the result is the keys that signed, whatever
    the order of the signers that are asked for and however many of them did not
    sign.  (Of the signature scheme it is used that a signature is verified under
    no other key.) *)
Theorem challenge_accepted now now' nonce seed client homeDomain network timebound tx seeds addrs tx' text server signers :
  exclusive → wf_account client → Forall is_u8 nonce → length nonce = 48%nat → 0 ≤ now → (now + timebound) / second ≤ MaxInt64 →
  BuildChallengeTx now (Some nonce) seed (address client) homeDomain network timebound = Ret tx →
  Address (Full seed) = Ret server → mmap Address (Full <$> seeds) = Ret addrs →
  Txn_Sign tx network (Full <$> seeds) = Ret tx' → Txn_Base64 tx' = Ret text →
  NoDup (server :: addrs) → addrs ≠ [] → (∀ s, s ∈ addrs → s ∈ signers) → (∀ s, s ∈ signers → account_text s) →
  now / second ≤ now' / second ≤ (now + timebound) / second →
  (∃ read, ReadChallengeTx now' text server network = Ret (read, address client) ∧ tx_signatures read = tx_signatures tx') ∧
  ∃ found, VerifyChallengeTxSigners now' text server network signers = Ret found ∧ found ≡ₚ addrs.
Proof.
  intros He Hc Hnonce H48 Hnow Hmax Hbuild Hserver Haddrs Hsign Htext Hnd Hne Hsub Hsigners Hin.
  destruct (BuildChallengeTx_made _ _ _ _ _ _ _ _ Hc Hnow Hmax Hbuild) as (raw & h & Hraw & Hh & Henv & Hsigs & Htb & _).
  apply (Address_rawSeed _ _ _ Hraw) in Hserver as ->.
  apply Txn_Sign_inv in Hsign as (h' & raws & Hh' & Hraws & ->). rewrite Henv, Hh in Hh'. injection Hh' as <-.
  assert (addrs = address_of <$> raws) as ->.
  { apply mmap_Ret in Haddrs. clear - Haddrs Hraws EDL. revert addrs Haddrs. induction Hraws as [|s raw seeds raws Hs _ IH]; intros addrs Ha;
      inversion Ha as [|? a ? as_ H1 H2]; subst; [done|]. rewrite fmap_cons. f_equal; [by apply (Address_rawSeed s)|by apply IH]. }
  set (minTime := now / second) in *. set (maxTime := (now + timebound) / second) in *.
  assert (minTime < maxTime) as Hlt. { subst minTime maxTime. unfold second in *. assert ((now + 10 ^ 9) / 10 ^ 9 ≤ (now + timebound) / 10 ^ 9) by (apply Z.div_le_mono; lia).
    replace (now + 10 ^ 9) with (now + 1 * 10 ^ 9) in * by lia. rewrite Z.div_add in * by lia. lia. }
  assert (0 ≤ minTime) as H0 by (apply Z.div_pos; [done|unfold second; lia]).
  set (sigs := (λ raw, signature_of raw h) <$> raw :: raws).
  set (e := EnvelopeTypeTx (challenge_tx raw client homeDomain nonce minTime maxTime) sigs).
  assert (UnmarshalEnvelopeBase64 text = Some e) as Hu.
  { unfold Txn_Base64, marshallBase64, marshallBinary, set_signatures in Htext. cbn [tx_envelope tx_signatures] in Htext.
    rewrite Henv, Hsigs in Htext. cbn [with_signatures app] in Htext. destruct (MarshalEnvelope _) as [b|] eqn:Hb; [|done].
    injection Htext as <-. by apply (unmarshal_base64 e b). }
  assert (hash_envelope e network = Ret h) as Hhe by exact Hh.
  pose proof (ReadChallengeTx_made now' text network raw raws client homeDomain nonce minTime maxTime h He Hnonce H48 H0 Hin ltac:(done) ltac:(lia) Hu Hhe) as Hread.
  split; [eexists; split; [exact Hread|]; unfold set_signatures; cbn [tx_signatures challenge_read]; by rewrite Hsigs|].
  by apply (VerifyChallengeTxSigners_made _ _ _ _ _ h raw raws signers He Hread).
Qed.
End complete.

(** *** An example *)
Module Example_challenge.
Import Example_txn.
Definition seed_text (raw : list Z) : gostring := match Encode VersionByteSeed raw with Ret s => s | _ => [] end.
Definition server_raw : list Z := replicate 32 9.
Definition client_raw : list Z := replicate 32 8.
Definition nonce : list Z := replicate 48 7.
Definition now : Z := 1600000000 * second.
Definition timebound : Z := 300 * second.
Definition client : AccountId := MkAccountId client_raw.
Definition server_address : gostring := address (MkAccountId server_raw).
Definition client_address : gostring := address client.
Definition unsigned : TransactionEnvelope :=
  EnvelopeTypeTx (challenge_tx server_raw client (str "example.com") nonce 1600000000 1600000300) [].
Definition hash : list Z := match hash_envelope unsigned (str "Test") with Ret h => h | _ => [] end.
Definition signed : TransactionEnvelope := with_signatures unsigned [signature_of server_raw hash; signature_of client_raw hash].
#[export] Instance codec : EnvelopeCodec := toy_codec [signed].
#[export] Instance codec_laws : EnvelopeCodecLaws.
Proof. apply toy_codec_laws. simpl. lia. Qed.

Lemma toy_exclusive : exclusive.
Proof.
  intros seed pub m [Hl Hu]. cbn [ed_verify ed_sign ed_public toy_ed]. intros H%bool_decide_eq_true.
  assert (∀ p : list Z, length p = 32%nat → Forall is_u8 p → take 32 (toy_signature p m) = p) as Ht.
  { intros p Hp Hup. unfold toy_signature, copy_pad. rewrite take_app_le by (rewrite length_take, length_fmap, length_app; lia).
    rewrite take_take, fmap_app, take_app_le by (rewrite length_fmap; lia). rewrite take_ge by (rewrite length_fmap; lia).
    clear Hp. induction Hup as [|x p Hx _ IH]; [done|]. rewrite fmap_cons, IH, u8_small; done. }
  rewrite <- (Ht pub Hl Hu), <- H. apply Ht; [apply copy_pad_length|apply copy_pad_u8].
Qed.

Definition made : TxnTransaction :=
  match BuildChallengeTx now (Some nonce) (seed_text server_raw) client_address (str "example.com") (str "Test") timebound with
  | Ret t => t | _ => inner end.
Definition both_signed : TxnTransaction := match Txn_Sign made (str "Test") [Full (seed_text client_raw)] with Ret t => t | _ => inner end.
Definition text : gostring := Base64.EncodeToString [0].
Definition read : TxnTransaction := challenge_read server_raw client (str "example.com") nonce 1600000000 1600000300
  [signature_of server_raw hash; signature_of client_raw hash].
Definition later : Z := now + 10 * second.

Lemma text_read : ReadChallengeTx later text server_address (str "Test") = Ret (read, client_address).
Proof. vm_compute. reflexivity. Qed.
Lemma client_found : VerifyChallengeTxSigners later text server_address (str "Test") [address bob; client_address] = Ret [client_address].
Proof. vm_compute. reflexivity. Qed.
End Example_challenge.

Import Example_txn Example_challenge.

Theorem ReadChallengeTx_sound_witness :
  ∃ e ed tb h sig, UnmarshalEnvelopeBase64 text = Some e ∧ Envelope_SourceAccount e = KeyTypeEd25519 ed ∧
    server_address = address (MkAccountId ed) ∧ Envelope_TimeBounds e = Some tb ∧
    current tb (later / second) ∧
    challenge_operations server_address client_address (Operations e) ∧
    Hash read (str "Test") = Ret h ∧ sig ∈ Envelope_Signatures e ∧
    signed_by h server_address sig.
Proof.
  destruct (ReadChallengeTx_sound _ _ _ _ _ _ text_read) as (e & ed & tb & h & sig & H).
  exists e, ed, tb, h, sig. destruct H as (H1 & _ & _ & H2 & H3 & _ & H4 & H5 & H6 & H7 & H8 & H9). by split_and!.
Defined.

Theorem VerifyChallengeTxSigners_sound_witness :
  ∃ h sigs, Hash read (str "Test") = Ret h ∧
    tx_signatures read ≡ₚ sigs ∧
    Forall2 (signed_by h) [server_address; client_address] sigs.
Proof.
  destruct (VerifyChallengeTxSigners_sound _ _ _ _ _ _ client_found) as (tx & c & h & sigs & H1 & H2 & _ & _ & _ & H3 & H4).
  rewrite text_read in H1. injection H1 as <- _. by exists h, sigs.
Defined.

Theorem VerifyChallengeTxThreshold_spec_witness :
  let summary : gmap gostring Z := {[ client_address := 5; address bob := 3 ]} in
  let range (m : gmap gostring Z) : list gostring := (map_to_list m).*1 in
  ∃ found, VerifyChallengeTxThreshold range later text server_address (str "Test") 5 summary = Ret found ∧
    VerifyChallengeTxThreshold range later text server_address (str "Test") 6 summary =
      Fail (ErrThreshold 5 6).
Proof.
  intros summary range.
  assert (VerifyChallengeTxSigners later text server_address (str "Test") (range summary) =
    Ret [client_address]) as Hv by (vm_compute; reflexivity).
  assert (∀ (s : gostring) (w : Z), summary !! s = Some w → 0 ≤ w) as Hpos.
  { intros s w [[_ <-]|[_ [_ <-]%lookup_singleton_Some]]%lookup_insert_Some; lia. }
  assert (weights_sum (all_weights summary) < 2 ^ 31) as Hsum by (vm_compute; reflexivity).
  assert (summary !! client_address = Some 5) as H5 by apply lookup_insert_eq.
  exists [client_address]. split.
  - destruct (VerifyChallengeTxThreshold_spec range _ _ _ _ 5 summary _ ltac:(by intros m) Hpos Hsum Hv) as (ws & Hws & ->).
    inversion Hws as [|? w ? ? Hw Hnil]; subst. inversion Hnil; subst. rewrite H5 in Hw. injection Hw as <-. reflexivity.
  - destruct (VerifyChallengeTxThreshold_spec range _ _ _ _ 6 summary _ ltac:(by intros m) Hpos Hsum Hv) as (ws & Hws & ->).
    inversion Hws as [|? w ? ? Hw Hnil]; subst. inversion Hnil; subst. rewrite H5 in Hw. injection Hw as <-. reflexivity.
Defined.

Theorem challenge_accepted_witness :
  (∃ read, ReadChallengeTx later text server_address (str "Test") =
     Ret (read, client_address) ∧ tx_signatures read = tx_signatures both_signed) ∧
  ∃ found, VerifyChallengeTxSigners later text server_address (str "Test")
    [address bob; client_address] = Ret found ∧ found ≡ₚ [client_address].
Proof.
  assert (account_text (address bob)) as Hbob by (exists bob; split; [apply wf_bob|reflexivity]).
  assert (wf_account client) as Hclient by (by apply replicate_bytes).
  apply (challenge_accepted now later nonce (seed_text server_raw)
    client (str "example.com") (str "Test") timebound made
    [seed_text client_raw] [client_address] both_signed).
  - apply toy_exclusive.
  - exact Hclient.
  - by apply Forall_replicate.
  - reflexivity.
  - vm_compute. discriminate.
  - vm_compute. discriminate.
  - vm_compute. reflexivity.
  - vm_compute. reflexivity.
  - vm_compute. reflexivity.
  - vm_compute. reflexivity.
  - vm_compute. reflexivity.
  - apply (bool_decide_unpack _). vm_compute. exact I.
  - discriminate.
  - intros s ->%list_elem_of_singleton. right. by left.
  - intros s [->| ->%list_elem_of_singleton]%elem_of_cons; [exact Hbob|]. by exists client.
  - split; vm_compute; discriminate.
Defined.
