(* ===== verification/LedgerReaders.v ===== *)
(** * ingest/io: reading the transactions and the changes of a ledger

    Models [ledger_transaction.go], [ledger_transaction_reader.go],
    [ledger_change_reader.go] and [stats_ledger_transaction_processor.go] of
    [src/ingest/io].  A reader is a record of its fields; [Read] returns the
    reader afterwards and [None] for [io.EOF]. *)

From S2P Require Import Prelude Xdr LedgerEntry ChangeCache Transaction.

(** The errors of the readers of changes. *)
Inductive reader_error :=
  | ErrHashTransaction (i : nat) (e : network_error)
  | ErrUnknownTxHash (hash : list Z)
  | ErrMetaV2Required
  | ErrMetaV0NotSupported
  | ErrEntryChanges (e : change_error)
  | ErrReadBuckets.

(** ** ledger_transaction.go *)

Record LedgerTransaction := MkLedgerTransaction {
  Index : Z; Envelope : TransactionEnvelope; Tx_Result : TransactionResultPair;
  FeeChanges : LedgerEntryChanges; Meta : TransactionMeta }.

(** The code of the outer result. *)
Definition txInternalError (t : LedgerTransaction) : bool :=
  match Result (Tx_Result t) with TxError TxInternalError => true | _ => false end.

Definition entry_changes (l : LedgerEntryChanges) : outcome reader_error (list Change) :=
  map_fail ErrEntryChanges (GetChangesFromLedgerEntryChanges l).
Definition GetFeeChanges (t : LedgerTransaction) : outcome reader_error (list Change) := entry_changes (FeeChanges t).

Definition operations_loop (changes : list Change) (operations : list LedgerEntryChanges)
  : outcome reader_error (list Change) :=
  mfold (λ changes operationMeta, opChanges ← entry_changes operationMeta; Ret (changes ++ opChanges)) changes operations.

(** Of a transaction that failed with an internal error the operations are
    ignored.  An error comes with the changes so far, which no caller reads. *)
Definition LedgerTransaction_GetChanges (t : LedgerTransaction) : outcome reader_error (list Change) :=
  match Meta t with
  | MetaV0 _ => Fail ErrMetaV0NotSupported
  | MetaV1 txChanges operations =>
      changes ← entry_changes txChanges;
      if txInternalError t then Ret changes else operations_loop changes operations
  | MetaV2 txChangesBefore operations txChangesAfter =>
      changes ← entry_changes txChangesBefore;
      if txInternalError t then Ret changes else
      changes ← operations_loop changes operations;
      after ← entry_changes txChangesAfter;
      Ret (changes ++ after)
  end.

Definition operationChanges (ops : list LedgerEntryChanges) (index : nat) : outcome reader_error (list Change) :=
  match ops !! index with Some operationMeta => entry_changes operationMeta | None => Ret [] end.
Definition GetOperationChanges (t : LedgerTransaction) (operationIndex : nat) : outcome reader_error (list Change) :=
  match Meta t with
  | MetaV0 _ => Fail ErrMetaV0NotSupported
  | MetaV1 _ operations | MetaV2 _ operations _ =>
      if txInternalError t then Ret [] else operationChanges operations operationIndex
  end.

(** ** ledger_transaction_reader.go *)

Record LedgerTransactionReader := MkTransactionReader {
  ledgerCloseMeta : LedgerCloseMeta; transactions : list LedgerTransaction; readIdx : nat }.

Section readers.
Context `{NW : Network}.

Definition hash_txs (txs : list TransactionEnvelope) : outcome reader_error (gmap (list Z) TransactionEnvelope) :=
  mfold (λ byHash '(i, tx),
    hash ← map_fail (ErrHashTransaction i) (HashTransactionInEnvelope tx NetworkPassphrase);
    Ret (<[ hash := tx ]> byHash)) ∅ (imap pair txs).
Definition is_meta_v2 (m : TransactionMeta) : bool := match m with MetaV2 _ _ _ => true | _ => false end.
Definition store_transaction (lcm : LedgerCloseMeta) (byHash : gmap (list Z) TransactionEnvelope) (i : nat)
    (tx : TransactionResultMeta) : outcome reader_error LedgerTransaction :=
  match byHash !! TransactionHash (Meta_Result tx) with
  | None => Fail (ErrUnknownTxHash (TransactionHash (Meta_Result tx)))
  | Some envelope =>
      if (LedgerVersion (Header (LedgerHeaderEntry lcm)) <? 10) && negb (is_meta_v2 (TxApplyProcessing tx)) &&
         bool_decide (0 < length (FeeProcessing tx))%nat
      then Fail ErrMetaV2Required
      else Ret (MkLedgerTransaction (u32 (Z.of_nat i + 1)) envelope (Meta_Result tx) (FeeProcessing tx) (TxApplyProcessing tx))
  end.
Definition storeTransactions (lcm : LedgerCloseMeta) : outcome reader_error (list LedgerTransaction) :=
  byHash ← hash_txs (TxSet lcm);
  mfold (λ txs '(i, tx), t ← store_transaction lcm byHash i tx; Ret (txs ++ [t])) [] (imap pair (TxProcessing lcm)).

(** Of the ledger that the backend returned. *)
Definition NewLedgerTransactionReader (lcm : LedgerCloseMeta) : outcome reader_error LedgerTransactionReader :=
  txs ← storeTransactions lcm;
  Ret (MkTransactionReader lcm txs 0).
End readers.

Definition GetSequence (reader : LedgerTransactionReader) : Z := LedgerSequence (ledgerCloseMeta reader).
Definition GetHeader (reader : LedgerTransactionReader) : LedgerHeaderHistoryEntry :=
  LedgerHeaderEntry (ledgerCloseMeta reader).
Definition tx_Read (reader : LedgerTransactionReader) : LedgerTransactionReader * option LedgerTransaction :=
  match transactions reader !! readIdx reader with
  | Some tx => (MkTransactionReader (ledgerCloseMeta reader) (transactions reader) (S (readIdx reader)), Some tx)
  | None => (reader, None)
  end.
Definition Rewind (reader : LedgerTransactionReader) : LedgerTransactionReader :=
  MkTransactionReader (ledgerCloseMeta reader) (transactions reader) 0.

(** ** ledger_change_reader.go *)

Inductive ledgerChangeReaderState := feeChangesState | metaChangesState | upgradeChangesState.
Record LedgerChangeReader := MkChangeReader {
  cr_transactions : LedgerTransactionReader; cr_state : ledgerChangeReaderState;
  pending : list Change; pendingIndex : nat; upgradeIndex : nat }.

Definition NewLedgerChangeReader `{NW : Network} (lcm : LedgerCloseMeta) : outcome reader_error LedgerChangeReader :=
  transactionReader ← NewLedgerTransactionReader lcm;
  Ret (MkChangeReader transactionReader feeChangesState [] 0 0).

(** What was read of a transaction or an upgrade joins what is pending; the
    reader has moved on, also after an error. *)
Definition add_pending (r : LedgerChangeReader) (changes : outcome reader_error (list Change))
  : LedgerChangeReader * outcome reader_error bool :=
  match changes with
  | Ret changes => (MkChangeReader (cr_transactions r) (cr_state r) (pending r ++ changes) (pendingIndex r) (upgradeIndex r), Ret true)
  | Fail e => (r, Fail e)
  | Panic => (r, Panic)
  end.

(** What a call of [Read] does that finds no change pending: it stores the
    changes of the next transaction or upgrade, or goes to the next state.
    [false] is the end of the stream. *)
Definition change_refill (r : LedgerChangeReader) : LedgerChangeReader * outcome reader_error bool :=
  match cr_state r with
  | upgradeChangesState =>
      match UpgradesProcessing (ledgerCloseMeta (cr_transactions r)) !! upgradeIndex r with
      | None => (r, Ret false)
      | Some upgrade =>
          add_pending (MkChangeReader (cr_transactions r) (cr_state r) (pending r) (pendingIndex r) (S (upgradeIndex r)))
            (entry_changes upgrade)
      end
  | state =>
      match tx_Read (cr_transactions r) with
      | (txs, None) =>
          let txs := match state with feeChangesState => Rewind txs | _ => txs end in
          let state := match state with feeChangesState => metaChangesState | _ => upgradeChangesState end in
          (MkChangeReader txs state (pending r) (pendingIndex r) (upgradeIndex r), Ret true)
      | (txs, Some tx) =>
          add_pending (MkChangeReader txs state (pending r) (pendingIndex r) (upgradeIndex r))
            match state with feeChangesState => GetFeeChanges tx | _ => LedgerTransaction_GetChanges tx end
      end
  end.

(** A call refills at most once for each transaction in two states and for each
    upgrade, and changes state twice. *)
Fixpoint change_read_loop (fuel : nat) (r : LedgerChangeReader) : LedgerChangeReader * outcome reader_error (option Change) :=
  match pending r !! pendingIndex r with
  | Some next =>
      (if bool_decide (S (pendingIndex r) = length (pending r))
       then MkChangeReader (cr_transactions r) (cr_state r) [] 0 (upgradeIndex r)
       else MkChangeReader (cr_transactions r) (cr_state r) (pending r) (S (pendingIndex r)) (upgradeIndex r),
       Ret (Some next))
  | None =>
      match fuel with
      | O => (r, Panic)
      | S fuel =>
          match change_refill r with
          | (r', Ret true) => change_read_loop fuel r'
          | (r', Ret false) => (r', Ret None)
          | (r', Fail e) => (r', Fail e)
          | (r', Panic) => (r', Panic)
          end
      end
  end.
Definition read_fuel (r : LedgerChangeReader) : nat :=
  (2 * length (transactions (cr_transactions r)) + length (UpgradesProcessing (ledgerCloseMeta (cr_transactions r))) + 3)%nat.
Definition change_Read (r : LedgerChangeReader) : LedgerChangeReader * outcome reader_error (option Change) :=
  change_read_loop (read_fuel r) r.

(** What the calls of [Read] return until the end, whatever errors they return
    in between. *)
Fixpoint read_changes (fuel : nat) (r : LedgerChangeReader) : list (outcome reader_error Change) :=
  match fuel with
  | O => []
  | S fuel =>
      match change_Read r with
      | (r', Ret (Some c)) => Ret c :: read_changes fuel r'
      | (_, Ret None) => []
      | (r', Fail e) => Fail e :: read_changes fuel r'
      | (_, Panic) => [Panic]
      end
  end.

(** What can be read of a ledger.  It has at most a change for each entry change
    in the meta, and an error for each transaction.  A loop over a reader
    ([StreamChanges]) ends at the first error. *)
Definition meta_size (m : TransactionMeta) : nat :=
  match m with
  | MetaV0 _ => 0
  | MetaV1 before operations => length before + length (concat operations)
  | MetaV2 before operations after => length before + length (concat operations) + length after
  end.
Definition changes_size (lcm : LedgerCloseMeta) : nat :=
  sum_list_with (λ tx, length (FeeProcessing tx)) (TxProcessing lcm) +
  sum_list_with (λ tx, meta_size (TxApplyProcessing tx)) (TxProcessing lcm) + length (concat (UpgradesProcessing lcm)).
Definition reads_size (lcm : LedgerCloseMeta) : nat :=
  (changes_size lcm + 2 * length (TxProcessing lcm) + length (UpgradesProcessing lcm))%nat.
Definition ledger_changes `{NW : Network} (lcm : LedgerCloseMeta) : outcome reader_error (list (outcome reader_error Change)) :=
  r ← NewLedgerChangeReader lcm;
  Ret (read_changes (S (reads_size lcm)) r).

(** ** stats_ledger_transaction_processor.go

    The counters of operations are those of the operation types, in order. *)
Record TransactionStats := MkTransactionStats {
  Stats_Transactions : Z; Stats_TransactionsSuccessful : Z; Stats_TransactionsFailed : Z;
  Stats_Operations : Z; Stats_OperationsInSuccessful : Z; Stats_OperationsInFailed : Z; Stats_OfType : gmap Z Z }.
Definition NewTransactionStats : TransactionStats := MkTransactionStats 0 0 0 0 0 0 ∅.
Definition count_operation (counts : gmap Z Z) (op : Operation) : gmap Z Z :=
  let t := OperationType (Body op) in <[ t := i64 (default 0 (counts !! t) + 1) ]> counts.
Definition TransactionStats_ProcessTransaction (s : TransactionStats) (transaction : LedgerTransaction) : TransactionStats :=
  let operations := Operations (Envelope transaction) in
  let ops := Z.of_nat (length operations) in
  let ok := Successful (Tx_Result transaction) in
  MkTransactionStats (i64 (Stats_Transactions s + 1))
    (if ok then i64 (Stats_TransactionsSuccessful s + 1) else Stats_TransactionsSuccessful s)
    (if ok then Stats_TransactionsFailed s else i64 (Stats_TransactionsFailed s + 1))
    (i64 (Stats_Operations s + ops))
    (if ok then i64 (Stats_OperationsInSuccessful s + ops) else Stats_OperationsInSuccessful s)
    (if ok then Stats_OperationsInFailed s else i64 (Stats_OperationsInFailed s + ops))
    (foldl count_operation (Stats_OfType s) operations).

(** ** The stream of changes *)

(** The changes of batches of changes, up to the first that fails. *)
Fixpoint deliver {E} (batches : list (outcome E (list Change))) : list (outcome E Change) :=
  match batches with
  | [] => []
  | Ret cs :: batches => (Ret <$> cs) ++ deliver batches
  | Fail e :: batches => Fail e :: deliver batches
  | Panic :: _ => [Panic]
  end.

Section stream.
Abbreviation txs r := (transactions (cr_transactions r)).
Abbreviation upgrades r := (UpgradesProcessing (ledgerCloseMeta (cr_transactions r))).

(** The batches that a reader has not read yet. *)
Definition unread (r : LedgerChangeReader) : list (outcome reader_error (list Change)) :=
  let rest := drop (readIdx (cr_transactions r)) (txs r) in
  let metas := LedgerTransaction_GetChanges <$> txs r in
  let last := entry_changes <$> drop (upgradeIndex r) (upgrades r) in
  match cr_state r with
  | feeChangesState => (GetFeeChanges <$> rest) ++ metas ++ last
  | metaChangesState => (LedgerTransaction_GetChanges <$> rest) ++ last
  | upgradeChangesState => last
  end.
Definition stream (r : LedgerChangeReader) : list (outcome reader_error Change) :=
  (Ret <$> drop (pendingIndex r) (pending r)) ++ deliver (unread r).

Definition pending_ok (r : LedgerChangeReader) : Prop :=
  pendingIndex r = 0%nat ∨ (pendingIndex r < length (pending r))%nat.

(** The refills that are left. *)
Definition refills (r : LedgerChangeReader) : nat :=
  let rest := (length (txs r) - readIdx (cr_transactions r))%nat in
  let last := (length (upgrades r) - upgradeIndex r)%nat in
  match cr_state r with
  | feeChangesState => (rest + 1 + length (txs r) + 1 + last)%nat
  | metaChangesState => (rest + 1 + last)%nat
  | upgradeChangesState => last
  end.

Lemma refills_bound r : (refills r < read_fuel r)%nat.
Proof. unfold refills, read_fuel. destruct (cr_state r); lia. Qed.

Lemma drop_lookup {A} (l : list A) i x : l !! i = Some x → drop i l = x :: drop (S i) l.
Proof. intros H. by rewrite (drop_S l x). Qed.

(** A refill reads a batch or goes to the next state. *)
Lemma refill_spec r :
  let (r', o) := change_refill r in
  match o with
  | Ret false => unread r = []
  | Ret true => pendingIndex r' = pendingIndex r ∧ (refills r' < refills r)%nat ∧
      ∃ cs, pending r' = pending r ++ cs ∧ deliver (unread r) = (Ret <$> cs) ++ deliver (unread r')
  | Fail e => pendingIndex r' = pendingIndex r ∧ pending r' = pending r ∧ deliver (unread r) = Fail e :: deliver (unread r')
  | Panic => deliver (unread r) = [Panic]
  end.
Proof.
  unfold change_refill, tx_Read, unread, refills, Rewind.
  destruct r as [[lcm ts i] st p pi ui]; cbn [cr_state cr_transactions transactions readIdx ledgerCloseMeta upgradeIndex
    pending pendingIndex].
  destruct st.
  1-2: destruct (ts !! i) as [tx|] eqn:E; [pose proof (lookup_lt_Some _ _ _ E); rewrite (drop_lookup _ _ _ E)|
    pose proof (lookup_ge_None_1 _ _ E); rewrite (drop_ge ts i) by lia]; cbn [fmap list_fmap app deliver].
  1: destruct (GetFeeChanges tx) as [cs|e|].
  5: destruct (LedgerTransaction_GetChanges tx) as [cs|e|].
  9: destruct (UpgradesProcessing lcm !! ui) as [u|] eqn:E; [pose proof (lookup_lt_Some _ _ _ E); rewrite (drop_lookup _ _ _ E)|
    pose proof (lookup_ge_None_1 _ _ E); by rewrite (drop_ge _ ui) by lia]; cbn [fmap list_fmap app deliver];
    destruct (entry_changes u) as [cs|e|].
  all: cbn [add_pending cr_state cr_transactions transactions readIdx ledgerCloseMeta upgradeIndex pending pendingIndex];
    try done; try (by split_and!); (split_and!; [done|lia|]).
  1,3,5: by exists cs.
  all: exists []; by rewrite ?app_nil_r, ?drop_0.
Qed.

Lemma read_loop_spec fuel r :
  (refills r < fuel)%nat → pending_ok r →
  match stream r with
  | [] => ∃ r', change_read_loop fuel r = (r', Ret None)
  | Ret c :: rest => ∃ r', change_read_loop fuel r = (r', Ret (Some c)) ∧ pending_ok r' ∧ stream r' = rest
  | Fail e :: rest => ∃ r', change_read_loop fuel r = (r', Fail e) ∧ pending_ok r' ∧ stream r' = rest
  | Panic :: rest => (change_read_loop fuel r).2 = Panic ∧ rest = []
  end.
Proof.
  revert r. induction fuel as [|fuel IH]; intros r Hf Hp; [lia|]. unfold stream. cbn [change_read_loop].
  destruct (pending r !! pendingIndex r) as [c|] eqn:E.
  - pose proof (lookup_lt_Some _ _ _ E). rewrite (drop_lookup _ _ _ E). cbn [fmap list_fmap app].
    eexists. split; [done|]. case_bool_decide; unfold pending_ok, stream; cbn [pending pendingIndex].
    + rewrite (drop_ge (pending r)) by lia. split; [by left|done].
    + split; [right; lia|done].
  - apply lookup_ge_None in E. destruct Hp as [Hp|Hp]; [|lia]. rewrite (drop_ge (pending r)) by lia. cbn [fmap list_fmap app].
    assert (pending r = []) as Hnil by (apply nil_length_inv; lia).
    pose proof (refill_spec r) as Hr. destruct (change_refill r) as [r' [[]|e|]].
    + destruct Hr as (Hi & Hm & cs & Hcs & Hd). rewrite Hd. rewrite Hnil in Hcs. simpl in Hcs.
      specialize (IH r' ltac:(lia) ltac:(left; congruence)). unfold stream in IH.
      rewrite Hi, Hp, Hcs, drop_0 in IH. exact IH.
    + rewrite Hr. by eexists.
    + destruct Hr as (Hi & Hpe & ->). exists r'. split_and!; [done|left; congruence|].
      by rewrite Hi, Hp, Hpe, Hnil.
    + by rewrite Hr.
Qed.

Lemma read_changes_stream fuel r : pending_ok r → (length (stream r) < fuel)%nat → read_changes fuel r = stream r.
Proof.
  revert r. induction fuel as [|fuel IH]; intros r Hp Hf; [lia|]. cbn [read_changes].
  pose proof (read_loop_spec (read_fuel r) r (refills_bound r) Hp) as Hs. unfold change_Read.
  destruct (stream r) as [|[c|e|] rest] eqn:E.
  - destruct Hs as [r' ->]. done.
  - destruct Hs as (r' & -> & Hp' & Hr'). f_equal. rewrite <- Hr'. apply IH; [done|]. rewrite Hr'. simpl in Hf. lia.
  - destruct Hs as (r' & -> & Hp' & Hr'). f_equal. rewrite <- Hr'. apply IH; [done|]. rewrite Hr'. simpl in Hf. lia.
  - destruct Hs as [Hs ->]. by destruct (change_read_loop (read_fuel r) r) as [r' o]; simpl in Hs; subst.
Qed.
End stream.

(** *** The reader of a ledger *)
Section ledger.
Context `{NW : Network}.

(** The transactions pair each result with an envelope of its hash. *)
Definition paired (lcm : LedgerCloseMeta) (i : nat) (m : TransactionResultMeta) (tx : LedgerTransaction) : Prop :=
  Index tx = u32 (Z.of_nat i + 1) ∧ Tx_Result tx = Meta_Result m ∧ FeeChanges tx = FeeProcessing m ∧
  Meta tx = TxApplyProcessing m ∧ Envelope tx ∈ TxSet lcm ∧
  HashTransactionInEnvelope (Envelope tx) NetworkPassphrase = Ret (TransactionHash (Meta_Result m)).

Lemma hash_txs_spec txs byHash :
  hash_txs txs = Ret byHash →
  ∀ h e, byHash !! h = Some e → e ∈ txs ∧ HashTransactionInEnvelope e NetworkPassphrase = Ret h.
Proof.
  intros H. apply (mfold_ret_ind _ (λ _ m, ∀ h e, m !! h = Some e →
    e ∈ txs ∧ HashTransactionInEnvelope e NetworkPassphrase = Ret h) _ _ _ H); [done|].
  intros pre [i tx] m1 m2 IH Hx Hm h e. apply elem_of_lookup_imap in Hx as (j & y & [= -> ->] & Hy%list_elem_of_lookup_2).
  destruct (HashTransactionInEnvelope y NetworkPassphrase) as [h0|?|] eqn:Eh; simpl in Hm; [|done..]. injection Hm as <-.
  rewrite lookup_insert_Some. intros [[<- <-]|[_ ?]]; [done|by apply IH].
Qed.

Lemma storeTransactions_spec lcm txs :
  storeTransactions lcm = Ret txs → Forall2 (λ '(i, m), paired lcm i m) (imap pair (TxProcessing lcm)) txs.
Proof.
  unfold storeTransactions. destruct (hash_txs _) as [byHash|?|] eqn:E; simpl; [|done..]. outcome_simpl. intros H.
  apply (mfold_ret_ind _ (λ pre ts, Forall2 (λ '(i, m), paired lcm i m) pre ts) _ _ _ H); [constructor|].
  intros pre [i m] ts1 ts2 IH _ Hs. unfold store_transaction in Hs.
  destruct (byHash !! _) as [e|] eqn:Eb; simpl in Hs; [|done]. destruct (hash_txs_spec _ _ E _ _ Eb) as [He Hh].
  destruct (_ && _); simpl in Hs; [done|]. injection Hs as <-. apply Forall2_app; [done|]. by repeat constructor.
Qed.

Lemma entry_changes_length l cs : entry_changes l = Ret cs → (length cs ≤ length l)%nat.
Proof.
  unfold entry_changes, GetChangesFromLedgerEntryChanges. intros H.
  assert (∀ rest i acc out, changes_loop l i rest acc = Ret out → (length out ≤ length acc + length rest)%nat) as Hl.
  { induction rest as [|c rest IH]; intros i acc out; cbn [changes_loop length]; [intros [= <-]; lia|].
    destruct c; outcome_simpl; try (destruct (must_state _ _); outcome_simpl; [|done..]);
      intros Ho%IH; rewrite ?length_app in Ho; simpl in Ho; lia. }
  destruct (changes_loop l 0 l []) as [out|e|] eqn:E; simpl in H; [|done..]. injection H as <-. by apply Hl in E.
Qed.

(** Entry changes that cannot be read are a panic. *)
Lemma entry_changes_no_error l e : entry_changes l ≠ Fail e.
Proof.
  unfold entry_changes, GetChangesFromLedgerEntryChanges.
  assert (∀ rest i acc e, changes_loop l i rest acc ≠ Fail e) as Hl.
  { induction rest as [|c rest IH]; intros i acc e'; cbn [changes_loop]; [done|]. outcome_simpl.
    destruct c; cbn [outcome_bind]; try apply IH; destruct (must_state i l) as [st|e0|] eqn:E; cbn [outcome_bind];
      try apply IH; try done; unfold must_state in E; repeat case_match; done. }
  specialize (Hl l 0%nat []). destruct (changes_loop l 0 l []) as [|e'|]; [done|by destruct (Hl e')|done].
Qed.

Lemma operations_loop_no_error ops acc e : operations_loop acc ops ≠ Fail e.
Proof.
  unfold operations_loop. revert acc. induction ops as [|o ops IH]; intros acc; simpl; [done|].
  pose proof (entry_changes_no_error o) as Ho. destruct (entry_changes o) as [oc|e'|]; outcome_simpl; [apply IH|by destruct (Ho e')|done].
Qed.

Lemma GetChanges_error tx e :
  LedgerTransaction_GetChanges tx = Fail e ↔ e = ErrMetaV0NotSupported ∧ ∃ operations, Meta tx = MetaV0 operations.
Proof.
  unfold LedgerTransaction_GetChanges. destruct (Meta tx) as [ops|before ops|before ops after].
  { split; [intros [= <-]; by eauto|by intros [-> _]]. }
  all: split; [|by intros [_ [? ?]]]; pose proof (entry_changes_no_error before) as Hb;
    destruct (entry_changes before) as [c1|e1|]; outcome_simpl; [|by destruct (Hb e1)|done]; destruct (txInternalError tx); [done|].
  - by intros ?%operations_loop_no_error.
  - pose proof (operations_loop_no_error ops c1) as Ho. destruct (operations_loop c1 ops) as [c2|e2|]; outcome_simpl; [|by destruct (Ho e2)|done].
    pose proof (entry_changes_no_error after) as Ha. destruct (entry_changes after) as [c3|e3|]; [done|by destruct (Ha e3)|done].
Qed.

Lemma operations_loop_length ops acc cs :
  operations_loop acc ops = Ret cs → (length cs ≤ length acc + length (concat ops))%nat.
Proof.
  unfold operations_loop. revert acc. induction ops as [|o ops IH]; intros acc; simpl; [intros [= <-]; lia|].
  destruct (entry_changes o) as [oc|e|] eqn:E; outcome_simpl; [|done..]. intros H%IH.
  apply entry_changes_length in E. rewrite !length_app in *. lia.
Qed.

Lemma GetChanges_length tx cs : LedgerTransaction_GetChanges tx = Ret cs → (length cs ≤ meta_size (Meta tx))%nat.
Proof.
  unfold LedgerTransaction_GetChanges, meta_size. destruct (Meta tx) as [ops|before ops|before ops after]; [done|..].
  all: destruct (entry_changes before) as [c1|e|] eqn:E1; outcome_simpl; [|done..]; apply entry_changes_length in E1.
  all: destruct (txInternalError tx); [intros [= <-]; lia|].
  - intros H%operations_loop_length. lia.
  - destruct (operations_loop c1 ops) as [c2|e|] eqn:E2; outcome_simpl; [|done..]. apply operations_loop_length in E2.
    destruct (entry_changes after) as [c3|e|] eqn:E3; outcome_simpl; [|done..]. apply entry_changes_length in E3.
    intros [= <-]. rewrite length_app. lia.
Qed.

Lemma sum_list_fmap {A} (f : A → nat) l : sum_list (f <$> l) = sum_list_with f l.
Proof. induction l as [|x l IH]; [done|]. cbn. f_equal. exact IH. Qed.
Lemma sum_length_concat {A} (l : list (list A)) : sum_list_with length l = length (concat l).
Proof. induction l as [|x l IH]; simpl; [done|]. by rewrite IH, length_app. Qed.

Definition batch_size_le {E} (b : outcome E (list Change)) (n : nat) : Prop :=
  match b with Ret cs => (length cs ≤ n)%nat | _ => True end.
Lemma deliver_length {E} (bs : list (outcome E (list Change))) ns :
  Forall2 batch_size_le bs ns → (length (deliver bs) ≤ sum_list ns + length bs)%nat.
Proof.
  induction 1 as [|b n bs ns Hb _ IH]; simpl; [lia|]. destruct b as [cs|e|]; simpl in *; [|lia..].
  rewrite length_app, length_fmap. lia.
Qed.

(** The batches of a ledger: the fees of all its transactions, then what the
    transactions change, then the upgrades. *)
Definition batches (lcm : LedgerCloseMeta) (txs : list LedgerTransaction) : list (outcome reader_error (list Change)) :=
  (GetFeeChanges <$> txs) ++ (LedgerTransaction_GetChanges <$> txs) ++ (entry_changes <$> UpgradesProcessing lcm).

Lemma batches_length lcm txs :
  storeTransactions lcm = Ret txs → (length (deliver (batches lcm txs)) ≤ reads_size lcm)%nat.
Proof.
  intros Hp%storeTransactions_spec. pose proof (Forall2_length _ _ _ Hp) as Hlen. rewrite length_imap in Hlen.
  unfold batches, reads_size, changes_size.
  assert (Forall2 (λ m tx, FeeChanges tx = FeeProcessing m ∧ Meta tx = TxApplyProcessing m) (TxProcessing lcm) txs) as Htx.
  { replace (TxProcessing lcm) with ((imap pair (TxProcessing lcm)).*2).
    2:{ rewrite fmap_imap. clear. induction (TxProcessing lcm) as [|m ms IH]; [done|]. simpl. f_equal. exact IH. }
    apply Forall2_fmap_l. eapply Forall2_impl; [exact Hp|]. intros [i m] tx (_ & _ & ? & ? & _). done. }
  etrans; [apply (deliver_length _ (((λ m, length (FeeProcessing m)) <$> TxProcessing lcm) ++
    ((λ m, meta_size (TxApplyProcessing m)) <$> TxProcessing lcm) ++ (length <$> UpgradesProcessing lcm)))|].
  - repeat apply Forall2_app; apply Forall2_fmap.
    + apply Forall2_flip. eapply Forall2_impl; [exact Htx|]. intros m tx [Hf _]. unfold batch_size_le, GetFeeChanges.
      destruct (entry_changes _) eqn:E; [|done..]. apply entry_changes_length in E. by rewrite <- Hf.
    + apply Forall2_flip. eapply Forall2_impl; [exact Htx|]. intros m tx [_ Hm]. unfold batch_size_le.
      destruct (LedgerTransaction_GetChanges tx) eqn:E; [|done..]. apply GetChanges_length in E. by rewrite <- Hm.
    + apply Forall2_same_length_lookup_2; [done|]. intros i u u' Hu Hu'. assert (u = u') as <- by congruence.
      unfold batch_size_le. destruct (entry_changes u) eqn:E; [|done..]. by apply entry_changes_length in E.
  - rewrite !sum_list_with_app, !sum_list_fmap, sum_length_concat, !length_app, !length_fmap. lia.
Qed.

Lemma NewLedgerChangeReader_spec lcm txs :
  storeTransactions lcm = Ret txs →
  NewLedgerChangeReader lcm = Ret (MkChangeReader (MkTransactionReader lcm txs 0) feeChangesState [] 0 0).
Proof. intros H. unfold NewLedgerChangeReader, NewLedgerTransactionReader. by rewrite H. Qed.

Lemma ledger_changes_spec lcm txs : storeTransactions lcm = Ret txs → ledger_changes lcm = Ret (deliver (batches lcm txs)).
Proof.
  intros H. unfold ledger_changes. rewrite (NewLedgerChangeReader_spec _ _ H). outcome_simpl. f_equal.
  rewrite read_changes_stream; [by unfold stream, unread, batches; cbn; rewrite !drop_0|by left|].
  unfold stream, unread. cbn. rewrite !drop_0. apply le_n_S, batches_length, H.
Qed.
End ledger.

(** ** Properties *)

(** C37: the reader of the changes of a ledger pairs each result with the envelope
    that hashes to it, and its calls of [Read] return the fee changes of all
    transactions, then the changes of all transactions (without those of the
    operations of one that failed with an internal error), then the upgrades,
    each in order.  A transaction whose meta is of version 0 gives one error, the
    only one there is, and the calls after it go on with the next transaction;
    entry changes that do not fit together are a panic, the last thing that
    happens.  The calls end. *)
Theorem LedgerChangeReader_reads `{NW : Network} lcm r fuel :
  NewLedgerChangeReader lcm = Ret r → (reads_size lcm < fuel)%nat →
  ∃ txs, Forall2 (λ '(i, m), paired lcm i m) (imap pair (TxProcessing lcm)) txs ∧
    read_changes fuel r = deliver ((GetFeeChanges <$> txs) ++ (LedgerTransaction_GetChanges <$> txs) ++
      (entry_changes <$> UpgradesProcessing lcm)) ∧
    Forall (λ b, ∀ e, b ≠ Fail e) ((GetFeeChanges <$> txs) ++ (entry_changes <$> UpgradesProcessing lcm)) ∧
    Forall (λ tx, ∀ e, LedgerTransaction_GetChanges tx = Fail e ↔
      e = ErrMetaV0NotSupported ∧ ∃ operations, Meta tx = MetaV0 operations) txs.
Proof.
  intros Hr Hf. unfold NewLedgerChangeReader, NewLedgerTransactionReader in Hr.
  destruct (storeTransactions lcm) as [txs|e|] eqn:E; [|done..]. injection Hr as <-.
  exists txs. split_and!; [by apply storeTransactions_spec| | |].
  - rewrite read_changes_stream; unfold stream, unread; cbn; rewrite ?drop_0; [done|by left|].
    pose proof (batches_length _ _ E). unfold batches in *. lia.
  - apply Forall_app; split; apply Forall_fmap, Forall_forall; intros tx _ e; apply entry_changes_no_error.
  - apply Forall_forall. intros tx _ e. apply GetChanges_error.
Qed.

(** A transaction whose hash is the fee it pays, in a ledger with an upgrade. *)
Module Example_ledger.
Definition alice : AccountId := MkAccountId (replicate 32 1).
#[local] Instance network : Network := {|
  sha256 x := x; NetworkPassphrase := [65]; MasterKey := alice;
  MarshalPayload _ tx := match tx with TaggedTx tx => Some [Tx_Fee tx] | TaggedFeeBump _ => None end |}.
Definition account (balance : Z) : LedgerEntry :=
  MkEntry 5 (DataAccount (MkAccount alice balance 7 0 None 0 [] (MkThresholds 1 0 0 0) [] None)) None.
Definition envelope (fee : Z) : TransactionEnvelope :=
  EnvelopeTypeTx (MkTransaction (KeyTypeEd25519 (Ed25519 alice)) fee 7 None MemoNone [MkOperation None InflationOp]) [].
Definition result (fee : Z) (r : TransactionResultResult) (before after : Z) : TransactionResultMeta :=
  MkResultMeta (MkResultPair [fee] fee r) [LedgerEntryState (account before); LedgerEntryUpdated (account (before - fee))]
    (MetaV2 [] [[LedgerEntryState (account (before - fee)); LedgerEntryUpdated (account after)]] []).
Definition lcm : LedgerCloseMeta :=
  MkCloseMeta (MkHistoryEntry [] (MkHeader 15 [] 0 [] 6 0 0 0 0 0)) [envelope 20; envelope 10]
    [result 10 (TxSuccess []) 100 80; result 20 (TxError TxInternalError) 80 50]
    [[LedgerEntryState (account 60); LedgerEntryUpdated (account 61)]].
Definition update (before after : Z) : Change := MkChange TypeAccount (Some (account before)) (Some (account after)).

(** The fees come first, and the operations of the transaction that failed with
    an internal error are left out. *)
Example reads : ledger_changes lcm = Ret (Ret <$> [update 100 90; update 80 60; update 90 80; update 60 61]).
Proof. vm_compute. reflexivity. Qed.

(** A transaction with meta of version 0 gives an error, and the next call goes
    on with the transaction after it. *)
Definition lcm_v0 : LedgerCloseMeta :=
  MkCloseMeta (LedgerHeaderEntry lcm) (TxSet lcm)
    [MkResultMeta (MkResultPair [20] 20 (TxSuccess [])) [] (MetaV0 []); result 10 (TxSuccess []) 100 80] [].
Example reads_on : ledger_changes lcm_v0 =
  Ret [Ret (update 100 90); Fail ErrMetaV0NotSupported; Ret (update 90 80)].
Proof. vm_compute. reflexivity. Qed.
End Example_ledger.

Theorem LedgerChangeReader_reads_witness :
  ∃ txs, Forall2 (λ '(i, m), paired (NW := Example_ledger.network) Example_ledger.lcm i m)
      (imap pair (TxProcessing Example_ledger.lcm)) txs ∧
    read_changes 20 (MkChangeReader (MkTransactionReader Example_ledger.lcm
        [MkLedgerTransaction 1 (Example_ledger.envelope 10) (Meta_Result (Example_ledger.result 10 (TxSuccess []) 100 80))
           (FeeProcessing (Example_ledger.result 10 (TxSuccess []) 100 80))
           (TxApplyProcessing (Example_ledger.result 10 (TxSuccess []) 100 80));
         MkLedgerTransaction 2 (Example_ledger.envelope 20) (Meta_Result (Example_ledger.result 20 (TxError TxInternalError) 80 50))
           (FeeProcessing (Example_ledger.result 20 (TxError TxInternalError) 80 50))
           (TxApplyProcessing (Example_ledger.result 20 (TxError TxInternalError) 80 50))] 0) feeChangesState [] 0 0) =
      deliver ((GetFeeChanges <$> txs) ++ (LedgerTransaction_GetChanges <$> txs) ++
        (entry_changes <$> UpgradesProcessing Example_ledger.lcm)) ∧
    Forall (λ b, ∀ e, b ≠ Fail e)
      ((GetFeeChanges <$> txs) ++ (entry_changes <$> UpgradesProcessing Example_ledger.lcm)) ∧
    Forall (λ tx, ∀ e, LedgerTransaction_GetChanges tx = Fail e ↔
      e = ErrMetaV0NotSupported ∧ ∃ operations, Meta tx = MetaV0 operations) txs.
Proof.
  apply (LedgerChangeReader_reads (NW := Example_ledger.network)).
  - vm_compute. reflexivity.
  - vm_compute. lia.
Defined.
