(* ===== verification/HistoryArchive.v ===== *)
(** * historyarchive: the state of an archive and its XDR streams

    Models [src/historyarchive/hash.go], [history_archive_state.go],
    [xdrstream.go], the reading of archive states in [archive.go], and the
    functions of [src/ingest/adapters/history_archive_adapter.go] that read
    states.  The files of the archive are a parameter: decoded JSON documents,
    and decompressed streams of bytes that may break off.  Closing a reader
    twice, which the code does, has no effect. *)

From S2P Require Import Prelude Encoding Xdr LedgerEntry Transaction.

Inductive archive_error :=
  | ErrHex
  | ErrHashSize (n : nat)
  | ErrFile
  | ErrPassphrase (expected actual : gostring)
  | ErrCheckpointExists
  | ErrNoCheckpoint (sequence : Z)
  | ErrStream
  | ErrWrongSize
  | ErrUnmarshal
  | ErrStreamHash
  | ErrCancelled
  | ErrBucketMissing
  | ErrMetaNotFirst
  | ErrInitEntryVersion.

(** ** hash.go *)

Abbreviation Hash := (list Z).
Definition hash_size : nat := 32.
Definition DecodeHash (s : gostring) : outcome archive_error Hash :=
  match Hex.DecodeString s with
  | None => Fail ErrHex
  | Some hs => if bool_decide (length hs = hash_size) then Ret hs else Fail (ErrHashSize (length hs))
  end.
Definition Hash_String (h : Hash) : gostring := Hex.EncodeToString h.
Definition IsZero (h : Hash) : bool := forallb (λ n, n =? 0) h.

(** ** history_archive_state.go *)

Record BucketLevel := MkLevel { Curr : gostring; Snap : gostring; Next_Output : gostring }.
(** The fields that are read; there are [NumLevels] levels. *)
Record HistoryArchiveState := MkHAS {
  CurrentLedger : Z; HAS_NetworkPassphrase : gostring; CurrentBuckets : list BucketLevel }.
Definition NumLevels : nat := 11.

(** Whether one of the hashes of a level is there and is not zero. *)
Definition level_used (b : BucketLevel) : outcome archive_error bool :=
  mfold (λ used bs,
    if bool_decide (bs = []) then Ret used else
    h ← DecodeHash bs;
    Ret (used || negb (IsZero h))) false [Curr b; Snap b; Next_Output b].
Definition LevelSummary (h : HistoryArchiveState) : outcome archive_error (gostring * Z) :=
  mfold (λ '(summ, nz) b,
    used ← level_used b;
    Ret (summ ++ (if used : bool then str "#" else str "_"), if used : bool then nz + 1 else nz)) ([], 0) (CurrentBuckets h).

Definition add_bucket (ignore_empty : bool) (r : list Hash) (bs : gostring) : outcome archive_error (list Hash) :=
  if ignore_empty && bool_decide (bs = []) then Ret r else
  h ← DecodeHash bs;
  Ret (if IsZero h then r else r ++ [h]).
Definition Buckets (h : HistoryArchiveState) : outcome archive_error (list Hash) :=
  mfold (λ r b, mfold (add_bucket true) r [Curr b; Snap b; Next_Output b]) [] (CurrentBuckets h).

Section hashes.
Context `{NW : Network}.

Definition BucketListHash_of (h : HistoryArchiveState) : outcome archive_error Hash :=
  total ← mfold (λ total b,
    match Hex.DecodeString (Curr b), Hex.DecodeString (Snap b) with
    | Some curr, Some snap => Ret (total ++ sha256 (curr ++ snap))
    | _, _ => Fail ErrHex
    end) [] (CurrentBuckets h);
  Ret (sha256 total).
End hashes.

(** ** archive.go and the adapter *)

(** The files of an archive: the document at the root and those of the
    checkpoints; [None] is an error. *)
Class ArchiveFiles := {
  root_file : option HistoryArchiveState;
  checkpoint_file : Z → option HistoryArchiveState;
  checkpoint_exists : Z → option bool }.

Section archive.
Context `{NW : Network} `{AF : ArchiveFiles}.

Definition GetPathHAS (file : option HistoryArchiveState) : outcome archive_error HistoryArchiveState :=
  match file with
  | None => Fail ErrFile
  | Some has =>
      if bool_decide (HAS_NetworkPassphrase has ≠ []) && bool_decide (NetworkPassphrase ≠ []) &&
         bool_decide (HAS_NetworkPassphrase has ≠ NetworkPassphrase)
      then Fail (ErrPassphrase NetworkPassphrase (HAS_NetworkPassphrase has))
      else Ret has
  end.
Definition GetRootHAS : outcome archive_error HistoryArchiveState := GetPathHAS root_file.
Definition GetCheckpointHAS (chk : Z) : outcome archive_error HistoryArchiveState := GetPathHAS (checkpoint_file chk).

Definition Adapter_GetLatestLedgerSequence : outcome archive_error Z := has ← GetRootHAS; Ret (CurrentLedger has).
Definition require_checkpoint (sequence : Z) : outcome archive_error unit :=
  match checkpoint_exists sequence with
  | None => Fail ErrCheckpointExists
  | Some false => Fail (ErrNoCheckpoint sequence)
  | Some true => Ret tt
  end.
Definition Adapter_BucketListHash (sequence : Z) : outcome archive_error Hash :=
  _ ← require_checkpoint sequence;
  has ← GetCheckpointHAS sequence;
  BucketListHash_of has.
End archive.

(** ** xdrstream.go

    A stream has the bytes that the underlying reader yields, and whether that
    reader ends with an error rather than with [io.EOF]; the hash is taken of
    all its bytes, since [Close] reads what is left. *)
Record XdrStream := MkStream {
  contents : list Z; broken : bool; bytesRead : nat; expectedHash : option Hash }.
Definition NewXdrStream (contents : list Z) (broken : bool) : XdrStream := MkStream contents broken 0 None.
Definition SetExpectedHash (x : XdrStream) (hash : Hash) : XdrStream :=
  MkStream (contents x) (broken x) (bytesRead x) (Some hash).
Definition advance (x : XdrStream) (n : nat) : XdrStream :=
  MkStream (contents x) (broken x) (bytesRead x + n) (expectedHash x).
Definition unread_bytes (x : XdrStream) : list Z := drop (bytesRead x) (contents x).

Definition be32 (bs : list Z) : Z := foldl (λ v b, Z.lor (Z.shiftl v 8) b) 0 bs.

Section stream.
Context `{NW : Network} {A : Type} (Unmarshal : list Z → option (A * nat)).

(** [None] is [io.EOF].  A record is a length, whose top bit is ignored, and its
    bytes; a length of zero ends the stream. *)
Definition ReadOne (x : XdrStream) : XdrStream * outcome archive_error (option A) :=
  let rest := unread_bytes x in
  if bool_decide (length rest = 0)%nat then (x, if broken x then Fail ErrStream else Ret None) else
  if bool_decide (length rest < 4)%nat then (advance x (length rest), Fail ErrStream) else
  let nbytes := Z.to_nat (Z.land (be32 (take 4 rest)) 0x7fffffff) in
  let x := advance x 4 in
  if bool_decide (nbytes = 0)%nat then (x, Ret None) else
  let body := take nbytes (drop 4 rest) in
  let x := advance x (length body) in
  if bool_decide (length body < nbytes)%nat then (x, Fail (if broken x then ErrStream else ErrWrongSize)) else
  match Unmarshal body with
  | None => (x, Fail ErrUnmarshal)
  | Some (v, readi) => (x, if bool_decide (readi = nbytes) then Ret (Some v) else Fail ErrWrongSize)
  end.

Definition Discard (x : XdrStream) (n : nat) : XdrStream * outcome archive_error unit :=
  let rest := unread_bytes x in
  if bool_decide (length rest < n)%nat then (advance x (length rest), Fail ErrStream) else (advance x n, Ret tt).

Definition Close (x : XdrStream) : outcome archive_error unit :=
  match expectedHash x with
  | None => Ret tt
  | Some h =>
      if broken x then Fail ErrStream else
      if bool_decide (h = sha256 (contents x)) then Ret tt else Fail ErrStreamHash
  end.
End stream.
