(* ===== verification/LedgerBackend.v ===== *)
(** * ingest/ledgerbackend: ranges, and the backends over archives and databases

    Models [ledger_backend.go] (but for the JSON of ranges),
    [history_archive_backend.go] and [database_backend.go] of
    [src/ingest/ledgerbackend], and [Archive.GetLedgerHeader] of
    [src/historyarchive/archive.go], which the captive core backend reads.

    The category files of an archive are a parameter: of each checkpoint file
    the entries that are read from it, and how the reading ends.  The tables of
    the database of hcnet-core are a record; which of its queries fail is an
    argument. *)

From S2P Require Import Prelude Xdr LedgerEntry HistoryRange ChangeCache Transaction LedgerReaders HistoryArchive.

(** ** ledger_backend.go *)

Record LedgerRange := MkLedgerRange { from : Z; to : Z; bounded : bool }.
Definition Contains (r other : LedgerRange) : bool :=
  if bounded r && negb (bounded other) then false
  else if bounded r && bounded other then (from r <=? from other) && (to other <=? to r)
  else from r <=? from other.
Definition SingleLedgerRange (ledger : Z) : LedgerRange := MkLedgerRange ledger ledger true.
Definition BoundedRange (from to : Z) : LedgerRange := MkLedgerRange from to true.
Definition UnboundedRange (from : Z) : LedgerRange := MkLedgerRange from 0 false.
Definition ledgersPerCheckpoint : Z := 64.

(** ** Streams of category files

    A stream yields its entries and then ends: with [io.EOF], or with an error
    that leaves an object half read. *)

Record Stream (A : Type) := MkEntries { entries : list A; half_read : option A }.
Arguments MkEntries {A} _ _.
Arguments entries {A} _.
Arguments half_read {A} _.

Record TransactionHistoryEntry := MkTxHistoryEntry { The_LedgerSeq : Z; The_TxSet : list TransactionEnvelope }.
Record TransactionHistoryResultEntry := MkTxResultEntry { Thre_LedgerSeq : Z; Results : list TransactionResultPair }.

(** Of the file of a checkpoint, [None] when it cannot be opened; of its
    existence, [None] when that cannot be found out. *)
Class CategoryFiles := {
  ledger_file : Z → option (Stream LedgerHeaderHistoryEntry);
  transactions_file : Z → option (Stream TransactionHistoryEntry);
  results_file : Z → option (Stream TransactionHistoryResultEntry);
  ledger_exists : Z → option bool;
  transactions_exists : Z → option bool;
  results_exists : Z → option bool }.

Inductive backend_error :=
  | ErrOpenStream
  | ErrReadStream
  | ErrHeaderNotFound
  | ErrCategoryExists
  | ErrArchiveBroken
  | ErrLedgerNotFound
  | ErrRootHAS (e : archive_error).

(** ** historyarchive/archive.go *)

Section archive_files.
Context `{CF : CategoryFiles}.

Definition GetLedgerHeader (ledger : Z) : outcome backend_error LedgerHeaderHistoryEntry :=
  let checkpoint := if IsCheckpoint ledger then ledger else NextCheckpoint ledger in
  match ledger_file checkpoint with
  | None => Fail ErrOpenStream
  | Some xdrStream =>
      match list_find (λ h, LedgerSeq (Header h) = ledger) (entries xdrStream), half_read xdrStream with
      | Some (_, ledgerHeader), _ => Ret ledgerHeader
      | None, Some _ => Fail ErrReadStream
      | None, None => Fail ErrHeaderNotFound
      end
  end.

(** ** history_archive_backend.go

    The entries of the cache are values here; in the code they are pointers,
    which a ledger that was returned shares with the cache until the ledger is
    loaded again. *)

Record HistoryArchiveBackend := MkArchiveBackend { rangeFrom : Z; rangeTo : Z; cache : gmap Z LedgerCloseMeta }.
Definition NewHistoryArchiveBackend : HistoryArchiveBackend := MkArchiveBackend 0 0 ∅.

(** What a variable holds that nothing was read into. *)
Definition zero_hash : list Z := replicate 32 0.
Definition zero_header : LedgerHeaderHistoryEntry :=
  MkHistoryEntry zero_hash (MkHeader 0 zero_hash 0 zero_hash 0 0 0 0 0 0).
Definition zero_meta : TransactionMeta := MetaV0 [].
(** The objects that the loop handles, the last one with the end of the
    stream, and whether that is an error. *)
Definition objects {A} (zero : A) (s : Stream A) : list A :=
  entries s ++ [default zero (half_read s)].

Definition store_header (c : gmap Z LedgerCloseMeta) (object : LedgerHeaderHistoryEntry)
  : outcome backend_error (gmap Z LedgerCloseMeta) :=
  Ret (<[ LedgerSeq (Header object) := MkCloseMeta object [] [] [] ]> c).
Definition store_txset (c : gmap Z LedgerCloseMeta) (object : TransactionHistoryEntry)
  : outcome backend_error (gmap Z LedgerCloseMeta) :=
  match c !! The_LedgerSeq object with
  | None => Panic
  | Some l => Ret (<[ The_LedgerSeq object :=
      MkCloseMeta (LedgerHeaderEntry l) (The_TxSet object) (TxProcessing l) (UpgradesProcessing l) ]> c)
  end.
Definition store_results (c : gmap Z LedgerCloseMeta) (object : TransactionHistoryResultEntry)
  : outcome backend_error (gmap Z LedgerCloseMeta) :=
  match c !! Thre_LedgerSeq object with
  | None => Panic
  | Some l => Ret (<[ Thre_LedgerSeq object :=
      MkCloseMeta (LedgerHeaderEntry l) (TxSet l) ((λ r, MkResultMeta r [] zero_meta) <$> Results object)
        (UpgradesProcessing l) ]> c)
  end.

(** The cache afterwards, and how the reading ended. *)
Definition fetchCategory {A} (zero : A) (store : gmap Z LedgerCloseMeta → A → outcome backend_error (gmap Z LedgerCloseMeta))
    (xdrStream : option (Stream A)) (c : gmap Z LedgerCloseMeta)
  : gmap Z LedgerCloseMeta * outcome backend_error unit :=
  match xdrStream with
  | None => (c, Fail ErrOpenStream)
  | Some xdrStream =>
      match mfold store c (objects zero xdrStream) with
      | Ret c => (c, match half_read xdrStream with None => Ret tt | Some _ => Fail ErrReadStream end)
      | Fail e => (c, Fail e)
      | Panic => (c, Panic)
      end
  end.
Definition fetch_ledgers (checkpointSequence : Z) :=
  fetchCategory zero_header store_header (ledger_file checkpointSequence).
Definition fetch_transactions (checkpointSequence : Z) :=
  fetchCategory (MkTxHistoryEntry 0 []) store_txset (transactions_file checkpointSequence).
Definition fetch_results (checkpointSequence : Z) :=
  fetchCategory (MkTxResultEntry 0 []) store_results (results_file checkpointSequence).
Definition fetch_all (checkpointSequence : Z) (c : gmap Z LedgerCloseMeta)
  : gmap Z LedgerCloseMeta * outcome backend_error unit :=
  match fetch_ledgers checkpointSequence c with
  | (c, Ret _) =>
      match fetch_transactions checkpointSequence c with
      | (c, Ret _) => fetch_results checkpointSequence c
      | failed => failed
      end
  | failed => failed
  end.

Definition categories_exist (checkpointSequence : Z) : outcome backend_error bool :=
  match ledger_exists checkpointSequence, transactions_exists checkpointSequence, results_exists checkpointSequence with
  | Some ledgerExists, Some transactionsExists, Some resultsExists =>
      if negb ledgerExists && negb transactionsExists && negb resultsExists then Ret false
      else if negb (ledgerExists && transactionsExists && resultsExists) then Fail ErrArchiveBroken
      else Ret true
  | _, _, _ => Fail ErrCategoryExists
  end.
Definition range_from (checkpointSequence : Z) : Z :=
  if ledgersPerCheckpoint <=? checkpointSequence then u32 (u32 (checkpointSequence - ledgersPerCheckpoint) + 1) else 1.
Definition loadTransactionsFromCheckpoint (hab : HistoryArchiveBackend) (checkpointSequence : Z)
  : HistoryArchiveBackend * outcome backend_error bool :=
  match categories_exist checkpointSequence with
  | Ret true =>
      match fetch_all checkpointSequence (cache hab) with
      | (c, Ret _) => (MkArchiveBackend (range_from checkpointSequence) checkpointSequence c, Ret true)
      | (c, Fail e) => (MkArchiveBackend 0 0 c, Fail e)
      | (c, Panic) => (MkArchiveBackend 0 0 c, Panic)
      end
  | r => (MkArchiveBackend 0 0 (cache hab), r)
  end.

Definition checkpoint_of (sequence : Z) : Z :=
  u32 (u32 (sequence / ledgersPerCheckpoint * ledgersPerCheckpoint + ledgersPerCheckpoint) - 1).
Definition from_cache (hab : HistoryArchiveBackend) (sequence : Z) : outcome backend_error (option LedgerCloseMeta) :=
  match cache hab !! sequence with Some meta => Ret (Some meta) | None => Fail ErrLedgerNotFound end.
(** The ledger, [None] when it is not in the archive. *)
Definition Archive_GetLedger (hab : HistoryArchiveBackend) (sequence : Z)
  : HistoryArchiveBackend * outcome backend_error (option LedgerCloseMeta) :=
  if (rangeFrom hab <=? sequence) && (sequence <=? rangeTo hab) then (hab, from_cache hab sequence) else
  match loadTransactionsFromCheckpoint hab (checkpoint_of sequence) with
  | (hab, Ret true) => (hab, from_cache hab sequence)
  | (hab, Ret false) => (hab, Ret None)
  | (hab, Fail e) => (hab, Fail e)
  | (hab, Panic) => (hab, Panic)
  end.
Definition Archive_Close (hab : HistoryArchiveBackend) : HistoryArchiveBackend := NewHistoryArchiveBackend.
End archive_files.

Definition Archive_GetLatestLedgerSequence `{NW : Network} `{AF : ArchiveFiles} : outcome backend_error Z :=
  map_fail ErrRootHAS (has ← GetRootHAS; Ret (CurrentLedger has)).

(** ** database_backend.go *)

(** The rows of the database of hcnet-core that are read. *)
Record HeaderRow := MkHeaderRow { hr_LedgerSeq : Z; hr_Hash : list Z; hr_Header : LedgerHeader }.
Record txHistory := MkTxHistory {
  TXLedgerSeq : Z; TXIndex : Z; TXBody : TransactionEnvelope; TXResult : TransactionResultPair; TXMeta : TransactionMeta }.
Record txFeeHistory := MkTxFeeHistory { FeeLedgerSeq : Z; FeeTXIndex : Z; TXChanges : LedgerEntryChanges }.
Record upgradeHistory := MkUpgradeHistory { UpgradeLedgerSeq : Z; UpgradeIndex : Z; UpgradeChanges : LedgerEntryChanges }.
Record CoreDB := MkCoreDB {
  ledgerheaders : list HeaderRow; txhistory : list txHistory; txfeehistory : list txFeeHistory;
  upgradehistory : list upgradeHistory }.

(** [where ledgerseq = ? order by txindex asc] *)
Definition select_ledger {A} (seq index : A → Z) (sequence : Z) (rows : list A) : list A :=
  sort_by (λ a b, index a <? index b) (filter (λ r, seq r = sequence) rows).
Definition txHistoryQuery (db : CoreDB) (sequence : Z) := select_ledger TXLedgerSeq TXIndex sequence (txhistory db).
Definition txFeeHistoryQuery (db : CoreDB) (sequence : Z) := select_ledger FeeLedgerSeq FeeTXIndex sequence (txfeehistory db).
Definition upgradeHistoryQuery (db : CoreDB) (sequence : Z) :=
  select_ledger UpgradeLedgerSeq UpgradeIndex sequence (upgradehistory db).
Definition ledgerHeaderQuery (db : CoreDB) (sequence : Z) : option HeaderRow :=
  head (filter (λ r, hr_LedgerSeq r = sequence) (ledgerheaders db)).
Definition latestLedgerSeqQuery (db : CoreDB) : option Z :=
  head (sort_by (λ a b, b <? a) (hr_LedgerSeq <$> ledgerheaders db)).

Inductive query := LedgerHeaderQuery | TxHistoryQuery | TxFeeHistoryQuery | UpgradeHistoryQuery | LatestLedgerSeqQuery.
Inductive database_error :=
  | ErrQuery (q : query)
  | ErrMisordered (q : query)
  | ErrHash (e : network_error)
  | ErrNoLedgers
  | ErrGettingLedger (e : database_error)
  | ErrFromMissing
  | ErrToMissing.

Section database.
Context `{NW : Network} (fails : query → bool).

(** The order of 32-byte hashes is the one of byte strings. *)
Definition hash_by (byHash : gmap (list Z) TransactionEnvelope) (tx : TransactionEnvelope)
  : outcome database_error (list Z * gmap (list Z) TransactionEnvelope) :=
  hash ← map_fail ErrHash (HashTransactionInEnvelope tx NetworkPassphrase);
  Ret (hash, <[ hash := tx ]> byHash).
Definition sortByHash (transactions : list TransactionEnvelope) : outcome database_error (list TransactionEnvelope) :=
  '(hashes, txByHash) ← mfold (λ '(hashes, byHash) tx,
    '(hash, byHash) ← hash_by byHash tx; Ret (hashes ++ [hash], byHash)) ([], ∅) transactions;
  Ret (omap (λ hash, txByHash !! hash) (sort_by str_ltb hashes)).

Definition select {A} (q : query) (rows : A) : outcome database_error A :=
  if fails q then Fail (ErrQuery q) else Ret rows.
(** The first index of a ledger is 1. *)
Definition misordered (i : nat) (index : Z) : bool := negb (Z.of_nat i =? index - 1).
Definition read_transactions (rows : list txHistory)
  : outcome database_error (list TransactionEnvelope * list TransactionResultMeta) :=
  mfold (λ '(txs, processing) '(i, tx),
    if misordered i (TXIndex tx) then Fail (ErrMisordered TxHistoryQuery)
    else Ret (txs ++ [TXBody tx], processing ++ [MkResultMeta (TXResult tx) [] (TXMeta tx)])) ([], []) (imap pair rows).
Definition read_fees (rows : list txFeeHistory) (processing : list TransactionResultMeta)
  : outcome database_error (list TransactionResultMeta) :=
  mfold (λ processing '(i, tx),
    if misordered i (FeeTXIndex tx) then Fail (ErrMisordered TxFeeHistoryQuery) else
    match processing !! i with
    | None => Panic
    | Some m => Ret (<[ i := MkResultMeta (Meta_Result m) (TXChanges tx) (TxApplyProcessing m) ]> processing)
    end) processing (imap pair rows).
(** The ledger, [None] when it is not in the database. *)
Definition Database_GetLedger (db : CoreDB) (sequence : Z) : outcome database_error (option LedgerCloseMeta) :=
  lRow ← select LedgerHeaderQuery (ledgerHeaderQuery db sequence);
  match lRow with
  | None => Ret None
  | Some lRow =>
      txhRows ← select TxHistoryQuery (txHistoryQuery db sequence);
      '(txs, processing) ← read_transactions txhRows;
      txs ← sortByHash txs;
      txfhRows ← select TxFeeHistoryQuery (txFeeHistoryQuery db sequence);
      processing ← read_fees txfhRows processing;
      upgradeHistoryRows ← select UpgradeHistoryQuery (upgradeHistoryQuery db sequence);
      Ret (Some (MkCloseMeta (MkHistoryEntry (hr_Hash lRow) (hr_Header lRow)) txs processing
        (UpgradeChanges <$> upgradeHistoryRows)))
  end.
Definition Database_GetLatestLedgerSequence (db : CoreDB) : outcome database_error Z :=
  latest ← select LatestLedgerSeqQuery (latestLedgerSeqQuery db);
  match latest with Some seq => Ret seq | None => Fail ErrNoLedgers end.
Definition Database_PrepareRange (db : CoreDB) (ledgerRange : LedgerRange) : outcome database_error unit :=
  fromLedger ← map_fail ErrGettingLedger (Database_GetLedger db (from ledgerRange));
  match fromLedger with
  | None => Fail ErrFromMissing
  | Some _ =>
      if bounded ledgerRange then
        toLedger ← map_fail ErrGettingLedger (Database_GetLedger db (to ledgerRange));
        match toLedger with None => Fail ErrToMissing | Some _ => Ret tt end
      else Ret tt
  end.
End database.

(** ** The cache of the archive backend *)

(** The last object with a key. *)
Definition last_with {A} (key : A → Z) (k : Z) (l : list A) : option A := last (filter (λ o, key o = k) l).

Lemma last_with_snoc {A} (key : A → Z) k l o :
  last_with key k (l ++ [o]) = if decide (key o = k) then Some o else last_with key k l.
Proof.
  unfold last_with. rewrite filter_app, filter_cons, filter_nil.
  destruct (decide (key o = k)); by rewrite ?last_snoc, ?app_nil_r.
Qed.

Lemma last_with_Some {A} (key : A → Z) k l o : last_with key k l = Some o → o ∈ l ∧ key o = k.
Proof. intros [Hk Ho]%last_Some_elem_of%list_elem_of_filter. done. Qed.

Lemma last_with_is_Some {A} (key : A → Z) l o : o ∈ l → is_Some (last_with key (key o) l).
Proof.
  intros Ho. unfold last_with. apply last_is_Some. intros E.
  assert (o ∈ filter (λ o', key o' = key o) l) as H by by apply list_elem_of_filter. by rewrite E in H; apply not_elem_of_nil in H.
Qed.

(** What a reading of the headers leaves in the cache, and one of the objects
    that complete the ledgers there. *)
Lemma store_headers_spec (m : gmap Z LedgerCloseMeta) l :
  ∃ m', mfold store_header m l = Ret m' ∧
  ∀ k, m' !! k = match last_with (LedgerSeq ∘ Header) k l with
                 | Some o => Some (MkCloseMeta o [] [] []) | None => m !! k end.
Proof.
  induction l as [|o l IH] using rev_ind; [by exists m|]. destruct IH as (m' & E & Hm').
  rewrite mfold_app, E. eexists. split; [done|]. intros k. rewrite last_with_snoc, lookup_insert. simpl.
  by destruct (decide _).
Qed.

Lemma store_objects_spec {A} (key : A → Z) (f : LedgerCloseMeta → A → LedgerCloseMeta)
    (store : gmap Z LedgerCloseMeta → A → outcome backend_error (gmap Z LedgerCloseMeta)) (m : gmap Z LedgerCloseMeta) l :
  (∀ c o, store c o = match c !! key o with None => Panic | Some x => Ret (<[ key o := f x o ]> c) end) →
  (∀ x o o', f (f x o) o' = f x o') →
  Forall (λ o, is_Some (m !! key o)) l →
  ∃ m', mfold store m l = Ret m' ∧
  ∀ k, m' !! k = match last_with key k l with Some o => (λ x, f x o) <$> m !! k | None => m !! k end.
Proof.
  intros Hs Hf Hl. induction l as [|o l IH] using rev_ind; [by exists m|].
  apply Forall_app in Hl as [Hl [[x Hx] _]%Forall_cons]. destruct (IH Hl) as (m' & E & Hm').
  rewrite mfold_app, E. cbn. rewrite Hs.
  assert (∃ y, m' !! key o = Some y ∧ f y o = f x o) as (y & Hy & Hyx).
  { rewrite Hm', Hx. destruct (last_with key (key o) l); simpl; eauto. }
  rewrite Hy. eexists. split; [done|]. intros k. rewrite last_with_snoc, lookup_insert.
  destruct (decide (key o = k)) as [<-|]; [|apply Hm']. by rewrite Hx, Hyx.
Qed.

Section archive_backend.
Context `{CF : CategoryFiles}.

(** A ledger, from the entries of the files of its checkpoint. *)
Definition close_meta (h : LedgerHeaderHistoryEntry) (txs : list TransactionHistoryEntry)
    (results : list TransactionHistoryResultEntry) : LedgerCloseMeta :=
  let sequence := LedgerSeq (Header h) in
  MkCloseMeta h (default [] (The_TxSet <$> last_with The_LedgerSeq sequence txs))
    (default [] ((λ r, (λ p, MkResultMeta p [] zero_meta) <$> Results r) <$> last_with Thre_LedgerSeq sequence results)) [].
Definition assemble (sequence : Z) (hs : list LedgerHeaderHistoryEntry) (txs : list TransactionHistoryEntry)
    (rs : list TransactionHistoryResultEntry) : outcome backend_error (option LedgerCloseMeta) :=
  match last_with (LedgerSeq ∘ Header) sequence hs with
  | Some h => Ret (Some (close_meta h txs rs))
  | None => Fail ErrLedgerNotFound
  end.
(** What the archive has for a ledger, without a cache. *)
Definition readable {A} (s : option (Stream A)) : outcome backend_error (list A) :=
  match s with
  | None => Fail ErrOpenStream
  | Some s => match half_read s with Some _ => Fail ErrReadStream | None => Ret (entries s) end
  end.
Definition read_ledger (sequence : Z) : outcome backend_error (option LedgerCloseMeta) :=
  let c := checkpoint_of sequence in
  found ← categories_exist c;
  if negb found then Ret None : outcome backend_error (option LedgerCloseMeta) else
  hs ← readable (ledger_file c);
  txs ← readable (transactions_file c);
  rs ← readable (results_file c);
  assemble sequence hs txs rs.

(** A file of headers that can be read to its end has one for each ledger of the
    checkpoint, and the other two files have nothing of ledgers of another
    checkpoint. *)
Definition in_checkpoint (c i : Z) : Prop := range_from c ≤ i ≤ c.
Record archive_ok : Prop := {
  ok_headers c hs : ledger_file c = Some hs → half_read hs = None → ∀ i, in_checkpoint c i → i ∈ LedgerSeq ∘ Header <$> entries hs;
  ok_txs c txs : transactions_file c = Some txs →
    Forall (λ t, in_checkpoint c (The_LedgerSeq t)) (entries txs ++ option_list (half_read txs));
  ok_results c rs : results_file c = Some rs →
    Forall (λ t, in_checkpoint c (Thre_LedgerSeq t)) (entries rs ++ option_list (half_read rs)) }.

Lemma checkpoint_of_eq s : is_u32 s → checkpoint_of s = s / 64 * 64 + 63.
Proof.
  intros Hs. unfold checkpoint_of, ledgersPerCheckpoint. unfold is_u32 in *.
  assert (s / 64 * 64 + 64 = 2 ^ 32 ∨ s / 64 * 64 + 64 < 2 ^ 32) as [E|E] by zlia.
  - rewrite E. change (u32 (u32 (2 ^ 32) - 1)) with (2 ^ 32 - 1). lia.
  - rewrite (u32_small (_ + 64)) by (unfold is_u32; zlia). rewrite u32_small by (unfold is_u32; zlia). lia.
Qed.

Lemma range_from_eq k : 0 ≤ k → is_u32 (k * 64 + 63) → range_from (k * 64 + 63) = Z.max 1 (k * 64).
Proof.
  intros Hk Hs. unfold range_from, ledgersPerCheckpoint. unfold is_u32 in Hs. destruct (Z.leb_spec 64 (k * 64 + 63)).
  - rewrite (u32_small (_ - 64)) by (unfold is_u32; lia). rewrite u32_small by (unfold is_u32; lia). lia.
  - assert (k = 0) as -> by lia. done.
Qed.

Lemma in_checkpoint_iff s i :
  is_u32 s → is_u32 i → 1 ≤ i → in_checkpoint (checkpoint_of s) i ↔ checkpoint_of i = checkpoint_of s.
Proof.
  intros Hs Hi H1. unfold in_checkpoint. rewrite !checkpoint_of_eq by done. unfold is_u32 in *.
  rewrite range_from_eq by (unfold is_u32; zlia). zlia.
Qed.

Lemma readable_case {A} (s : option (Stream A)) :
  (∃ st, s = Some st ∧ half_read st = None ∧ readable s = Ret (entries st)) ∨
  (∃ e, readable s = Fail e ∧ (e = ErrOpenStream ∧ s = None ∨ e = ErrReadStream ∧ ∃ st o, s = Some st ∧ half_read st = Some o)).
Proof. destruct s as [[es [o|]]|]; simpl; [right|left|right]; naive_solver. Qed.

(** A pass over a file that brings an object with [P] into the cache for each
    of its objects; the first error of the file is its outcome. *)
Lemma fetchCategory_case {A} zero store (file : option (Stream A)) m :
  (∀ st, file = Some st → ∃ m', mfold store m (objects zero st) = Ret m') →
  ∃ m', fetchCategory zero store file m = (m', _ ← readable file; Ret tt) ∧
    ∀ st, file = Some st → mfold store m (objects zero st) = Ret m'.
Proof.
  intros H. unfold fetchCategory. destruct file as [st|]; [|by exists m].
  destruct (H st eq_refl) as (m' & E). exists m'. rewrite E. split; [|by intros ? [= <-]]. simpl. by destruct (half_read st).
Qed.

Lemma fetch_ledgers_spec c m :
  ∃ m', fetch_ledgers c m = (m', _ ← readable (ledger_file c); Ret tt) ∧
  ∀ hs, readable (ledger_file c) = Ret hs →
    is_Some (m' !! 0) ∧ ∀ k, k ≠ 0 → m' !! k = match last_with (LedgerSeq ∘ Header) k hs with
                                              | Some h => Some (MkCloseMeta h [] [] []) | None => m !! k end.
Proof.
  destruct (fetchCategory_case zero_header store_header (ledger_file c) m) as (m' & E & Hm').
  { intros st _. destruct (store_headers_spec m (objects zero_header st)) as (m' & -> & _). eauto. }
  exists m'. split; [done|]. intros hs Hr.
  destruct (readable_case (ledger_file c)) as [(st & Hst & Hh & Hr')|(e & Hr' & _)]; [|congruence].
  rewrite Hr' in Hr. injection Hr as <-. specialize (Hm' st Hst).
  destruct (store_headers_spec m (objects zero_header st)) as (m2 & E2 & Hm2). rewrite Hm' in E2. injection E2 as <-.
  unfold objects in Hm2. rewrite Hh in Hm2. simpl in Hm2. split.
  - by rewrite Hm2, last_with_snoc.
  - intros k Hk. rewrite Hm2, last_with_snoc. simpl. by destruct (decide (0 = k)).
Qed.

(** The passes that complete the ledgers. *)
Lemma fetch_objects_spec {A} (key : A → Z) f zero store (file : option (Stream A)) (m : gmap Z LedgerCloseMeta) c :
  (∀ m o, store m o = match m !! key o with None => Panic | Some x => Ret (<[ key o := f x o ]> m) end) →
  (∀ x o o', f (f x o) o' = f x o') → key zero = 0 →
  is_Some (m !! 0) → (∀ i, in_checkpoint c i → is_Some (m !! i)) →
  (∀ st, file = Some st → Forall (λ t, in_checkpoint c (key t)) (entries st ++ option_list (half_read st))) →
  ∃ m', fetchCategory zero store file m = (m', _ ← readable file; Ret tt) ∧
  ∀ os, readable file = Ret os →
    is_Some (m' !! 0) ∧ ∀ k, k ≠ 0 → m' !! k = match last_with key k os with
                                              | Some o => (λ x, f x o) <$> m !! k | None => m !! k end.
Proof.
  intros Hs Hf Hz H0 Hin Hfile.
  assert (∀ st, file = Some st → Forall (λ o, is_Some (m !! key o)) (objects zero st)) as Hobj.
  { intros st Hst. specialize (Hfile st Hst). apply Forall_app in Hfile as [H1 H2]. apply Forall_app. split.
    - eapply Forall_impl; [exact H1|]. auto.
    - destruct (half_read st) as [o|]; simpl in *; apply Forall_singleton.
      + apply Forall_cons in H2 as [H2 _]. auto.
      + by rewrite Hz. }
  destruct (fetchCategory_case zero store file m) as (m' & E & Hm').
  { intros st Hst. destruct (store_objects_spec key f store m (objects zero st) Hs Hf (Hobj st Hst)) as (m' & -> & _). eauto. }
  exists m'. split; [done|]. intros os Hr.
  destruct (readable_case file) as [(st & Hst & Hh & Hr')|(e & Hr' & _)]; [|congruence].
  rewrite Hr' in Hr. injection Hr as <-. specialize (Hm' st Hst).
  destruct (store_objects_spec key f store m _ Hs Hf (Hobj st Hst)) as (m2 & E2 & Hm2). rewrite Hm' in E2. injection E2 as <-.
  unfold objects in Hm2. rewrite Hh in Hm2. simpl in Hm2. split.
  - rewrite Hm2, last_with_snoc, Hz, decide_True by done. by destruct H0 as [x ->].
  - intros k Hk. rewrite Hm2, last_with_snoc, Hz. by rewrite decide_False by done.
Qed.

Lemma fetch_all_spec s m :
  archive_ok → is_u32 s →
  let c := checkpoint_of s in
  ∃ m' r, fetch_all c m = (m', r) ∧
  (hs ← readable (ledger_file c); _ ← readable (transactions_file c); _ ← readable (results_file c); Ret tt) = r ∧
  ∀ hs txs rs, readable (ledger_file c) = Ret hs → readable (transactions_file c) = Ret txs → readable (results_file c) = Ret rs →
  ∀ i, in_checkpoint c i → ∃ h, last_with (LedgerSeq ∘ Header) i hs = Some h ∧ m' !! i = Some (close_meta h txs rs).
Proof.
  intros Ok Hs c. unfold fetch_all.
  assert (∀ i, in_checkpoint c i → 1 ≤ i) as Hpos.
  { unfold in_checkpoint, c. intros i. rewrite checkpoint_of_eq by done. unfold is_u32 in *. rewrite range_from_eq by (unfold is_u32; zlia). zlia. }
  destruct (fetch_ledgers_spec c m) as (m1 & -> & Hm1).
  destruct (readable_case (ledger_file c)) as [(hs & Hhs & Hhalf & Eh)|(e & Eh & _)]; rewrite Eh; [|by exists m1, (Fail e)].
  destruct (Hm1 _ Eh) as [H10 Hm1']. clear Hm1. outcome_simpl.
  assert (∀ i, in_checkpoint c i → ∃ h, last_with (LedgerSeq ∘ Header) i (entries hs) = Some h) as Hh.
  { intros i Hi. pose proof (ok_headers Ok c hs Hhs Hhalf i Hi) as (h & -> & Hin)%list_elem_of_fmap.
    apply (last_with_is_Some (LedgerSeq ∘ Header)) in Hin. by destruct Hin; eauto. }
  assert (∀ i, in_checkpoint c i → is_Some (m1 !! i)) as Hin1.
  { intros i Hi. rewrite Hm1' by (specialize (Hpos i Hi); lia). destruct (Hh i Hi) as (h & ->). eauto. }
  destruct (fetch_objects_spec The_LedgerSeq
    (λ l o, MkCloseMeta (LedgerHeaderEntry l) (The_TxSet o) (TxProcessing l) (UpgradesProcessing l))
    (MkTxHistoryEntry 0 []) store_txset (transactions_file c) m1 c) as (m2 & E2 & Hm2); [done..|by apply Ok|].
  unfold fetch_transactions. rewrite E2. clear E2.
  destruct (readable_case (transactions_file c)) as [(txs & _ & _ & Et)|(e & Et & _)]; rewrite Et; [|by exists m2, (Fail e)].
  destruct (Hm2 _ Et) as [H20 Hm2']. clear Hm2. outcome_simpl.
  assert (∀ i, in_checkpoint c i → is_Some (m2 !! i)) as Hin2.
  { intros i Hi. rewrite Hm2' by (specialize (Hpos i Hi); lia). destruct (Hin1 i Hi) as (x & ->). by destruct (last_with _ _ _). }
  destruct (fetch_objects_spec Thre_LedgerSeq
    (λ l o, MkCloseMeta (LedgerHeaderEntry l) (TxSet l) ((λ r, MkResultMeta r [] zero_meta) <$> Results o) (UpgradesProcessing l))
    (MkTxResultEntry 0 []) store_results (results_file c) m2 c) as (m3 & E3 & Hm3); [done..|by apply Ok|].
  unfold fetch_results. rewrite E3. clear E3.
  destruct (readable_case (results_file c)) as [(rs & _ & _ & Er)|(e & Er & _)]; rewrite Er; [|by exists m3, (Fail e)].
  destruct (Hm3 _ Er) as [_ Hm3']. exists m3, (Ret tt). split_and!; [done..|].
  intros ? ? ? [= <-] [= <-] [= <-] i Hi. specialize (Hpos i Hi). destruct (Hh i Hi) as (h & Ehi). exists h. split; [done|].
  rewrite Hm3', Hm2', Hm1', Ehi by lia. apply last_with_Some in Ehi as [_ <-]. unfold close_meta. simpl.
  by destruct (last_with The_LedgerSeq _ _), (last_with Thre_LedgerSeq _ _).
Qed.

Lemma in_checkpoint_u32 s i : is_u32 s → in_checkpoint (checkpoint_of s) i → is_u32 i ∧ 1 ≤ i.
Proof.
  intros Hs. unfold in_checkpoint. rewrite checkpoint_of_eq by done. unfold is_u32 in *.
  rewrite range_from_eq by (unfold is_u32; zlia). zlia.
Qed.

Lemma checkpoint_of_self s : is_u32 s → 1 ≤ s → in_checkpoint (checkpoint_of s) s.
Proof. intros. by apply in_checkpoint_iff. Qed.

(** The cache holds the checkpoint of its range, whatever else it holds. *)
Definition coherent (hab : HistoryArchiveBackend) : Prop :=
  rangeFrom hab = 0 ∧ rangeTo hab = 0 ∨
  ∃ s, is_u32 s ∧ rangeFrom hab = range_from (checkpoint_of s) ∧ rangeTo hab = checkpoint_of s ∧
    ∀ i, in_checkpoint (checkpoint_of s) i → ∃ m, cache hab !! i = Some m ∧ read_ledger i = Ret (Some m).

Lemma read_ledger_sequence s m : read_ledger s = Ret (Some m) → LedgerSequence m = s.
Proof.
  unfold read_ledger, assemble. destruct (categories_exist _) as [[]|?|]; simpl; [|done..].
  destruct (readable (ledger_file _)) as [hs|?|], (readable (transactions_file _)) as [txs|?|], (readable (results_file _)) as [rs|?|]; simpl; try done.
  destruct (last_with _ _ _) as [h|] eqn:E; [|done]. intros [= <-]. by apply last_with_Some in E as [_ ?].
Qed.

Lemma load_spec hab s :
  archive_ok → is_u32 s →
  coherent (loadTransactionsFromCheckpoint hab (checkpoint_of s)).1 ∧
  (1 ≤ s → match loadTransactionsFromCheckpoint hab (checkpoint_of s) with
   | (hab', Ret true) => from_cache hab' s
   | (_, Ret false) => Ret None
   | (_, Fail e) => Fail e
   | (_, Panic) => Panic
   end = read_ledger s).
Proof.
  intros Ok Hs. unfold loadTransactionsFromCheckpoint, read_ledger, assemble.
  destruct (categories_exist (checkpoint_of s)) as [[]|e|] eqn:Ec; simpl; [|by split; [left|]..].
  destruct (fetch_all_spec s (cache hab) Ok Hs) as (m & r & -> & Er & Hm).
  destruct (readable (ledger_file _)) as [hs|?|] eqn:Elh; simpl in *; [|by subst; split; [left|]..].
  destruct (readable (transactions_file _)) as [txs|?|] eqn:Et; simpl in *; [|by subst; split; [left|]..].
  destruct (readable (results_file _)) as [rs|?|] eqn:Err; simpl in *; [|by subst; split; [left|]..].
  subst r. specialize (Hm hs txs rs eq_refl eq_refl eq_refl). split.
  - right. exists s. split_and!; [done..|]. intros i Hi. destruct (Hm i Hi) as (h & Eh & Ei). eexists. split; [done|].
    pose proof (in_checkpoint_u32 s i Hs Hi) as [Hu H1].
    pose proof (proj1 (in_checkpoint_iff s i Hs Hu H1) Hi) as E. unfold read_ledger, assemble.
    by rewrite E, Ec, Elh, Et, Err; simpl; rewrite Eh.
  - intros H1. pose proof (checkpoint_of_self s Hs H1) as Hi. destruct (Hm s Hi) as (h & Eh & Ei).
    unfold from_cache. simpl. by rewrite Eh, Ei.
Qed.

Lemma Archive_GetLedger_coherent hab s :
  archive_ok → is_u32 s → coherent hab → coherent (Archive_GetLedger hab s).1.
Proof.
  intros Ok Hs Hc. unfold Archive_GetLedger. case_if; [done|].
  pose proof (load_spec hab s Ok Hs) as [H _]. by destruct (loadTransactionsFromCheckpoint hab _) as [? [[]|?|]].
Qed.

(** A backend in use: a [Close] or a [GetLedger]. *)
Definition use (hab : HistoryArchiveBackend) (op : option Z) : HistoryArchiveBackend :=
  match op with None => Archive_Close hab | Some sequence => (Archive_GetLedger hab sequence).1 end.

Lemma use_coherent ops hab :
  archive_ok → Forall (λ op, ∀ s, op = Some s → is_u32 s) ops → coherent hab → coherent (foldl use hab ops).
Proof.
  intros Ok Ho. revert hab. induction Ho as [|[s|] ops Hs _ IH]; intros hab Hc; simpl; [done|..]; apply IH.
  - apply Archive_GetLedger_coherent; auto.
  - by left.
Qed.

End archive_backend.

(** ** Reading the database back *)

Section database_backend.
Context `{NW : Network}.

(** The rows of a ledger with consecutive indices from 1 on. *)
Definition numbered {A} (index : A → Z) (rows : list A) : Prop := index <$> rows = seqZ 1 (Z.of_nat (length rows)).
Definition meta_of (tx : txHistory) : TransactionResultMeta := MkResultMeta (TXResult tx) [] (TXMeta tx).
Definition with_fee (m : TransactionResultMeta) (fee : LedgerEntryChanges) : TransactionResultMeta :=
  MkResultMeta (Meta_Result m) fee (TxApplyProcessing m).

Lemma numbered_lookup {A} (index : A → Z) rows i r : numbered index rows → rows !! i = Some r → index r = Z.of_nat i + 1.
Proof.
  intros Hn Hr. assert ((index <$> rows) !! i = Some (index r)) as H by by rewrite list_lookup_fmap, Hr.
  rewrite Hn in H. apply lookup_seqZ in H as [-> _]. lia.
Qed.

Lemma numbered_snoc {A} (index : A → Z) rows r : numbered index (rows ++ [r]) → numbered index rows ∧ index r = Z.of_nat (length rows) + 1.
Proof.
  intros Hn. split; [|eapply numbered_lookup; [exact Hn|]; by rewrite lookup_app_r, Nat.sub_diag].
  unfold numbered in *. rewrite fmap_app, length_app in Hn. simpl in Hn. rewrite Nat.add_comm in Hn.
  change (1 + length rows)%nat with (S (length rows)) in Hn. rewrite seqZ_S in Hn. by apply app_inj_tail in Hn as [? _].
Qed.

Lemma imap_snoc {A B} (f : nat → A → B) l x : imap f (l ++ [x]) = imap f l ++ [f (length l) x].
Proof. rewrite imap_app. simpl. by rewrite Nat.add_0_r. Qed.

Lemma read_transactions_spec rows :
  numbered TXIndex rows → read_transactions rows = Ret (TXBody <$> rows, meta_of <$> rows).
Proof.
  unfold read_transactions. induction rows as [|r rows IH] using rev_ind; [done|].
  intros [Hn Hi]%numbered_snoc. rewrite imap_snoc, mfold_app, (IH Hn). cbn. unfold misordered.
  rewrite Hi, Z.add_simpl_r, Z.eqb_refl. simpl. by rewrite !fmap_app.
Qed.

Lemma read_fees_spec fees (processing : list TransactionResultMeta) :
  numbered FeeTXIndex fees → (length fees ≤ length processing)%nat →
  read_fees fees processing =
    Ret (zip_with with_fee (take (length fees) processing) (TXChanges <$> fees) ++ drop (length fees) processing).
Proof.
  unfold read_fees. induction fees as [|r fees IH] using rev_ind; [done|]. rewrite length_app. simpl.
  intros [Hn Hi]%numbered_snoc Hl. rewrite imap_snoc, mfold_app, IH by (done || lia). cbn. unfold misordered.
  rewrite Hi, Z.add_simpl_r, Z.eqb_refl. simpl.
  destruct (lookup_lt_is_Some_2 processing (length fees)) as [m Hm]; [lia|].
  assert (length (zip_with with_fee (take (length fees) processing) (TXChanges <$> fees)) = length fees) as Hz.
  { rewrite length_zip_with, length_take, length_fmap. lia. }
  rewrite lookup_app_r, Hz, Nat.sub_diag, lookup_drop, Nat.add_0_r, Hm by lia. f_equal.
  rewrite insert_app_r_alt, Hz, Nat.sub_diag by lia. rewrite (drop_S _ m _ Hm), Nat.add_1_r. simpl.
  rewrite (take_S_r _ _ _ Hm), fmap_app, zip_with_app by (rewrite length_take, length_fmap; lia). simpl.
  by rewrite <- app_assoc.
Qed.

Definition hashes_to (tx : TransactionEnvelope) (h : list Z) : Prop := HashTransactionInEnvelope tx NetworkPassphrase = Ret h.

Lemma omap_lookup_all {K A} `{Countable K} (m : gmap K A) ks xs : Forall2 (λ k x, m !! k = Some x) ks xs → omap (λ k, m !! k) ks = xs.
Proof. induction 1 as [|k x ks xs Hk _ IH]; [done|]. cbn. by rewrite Hk, <- IH. Qed.

Lemma hash_loop_spec txs hs :
  Forall2 hashes_to txs hs → NoDup hs →
  ∃ m, mfold (λ '(hashes, byHash) tx, '(hash, byHash) ← hash_by byHash tx; Ret (hashes ++ [hash], byHash))
    ([], ∅) txs = Ret (hs, m) ∧ Forall2 (λ h tx, m !! h = Some tx) hs txs.
Proof.
  revert hs. induction txs as [|tx txs IH] using rev_ind; intros hs H Hn; [apply Forall2_nil_inv_l in H as ->; by exists ∅|].
  apply Forall2_app_inv_l in H as (hs1 & hs2 & H & (h & hs3 & Hh & ->%Forall2_nil_inv_l & ->)%Forall2_cons_inv_l & ->).
  rename hs1 into hs. apply NoDup_app in Hn as (Hn & Hd & _). destruct (IH hs H Hn) as (m & E & Hm). exists (<[ h := tx ]> m).
  rewrite mfold_app, E. unfold hash_by. cbn. rewrite Hh. split; [done|]. apply Forall2_app.
  - apply Forall2_same_length_lookup_2; [by eapply Forall2_length|]. intros i h' tx' H1 H2.
    rewrite lookup_insert_ne; [exact (Forall2_lookup_lr _ _ _ _ _ _ Hm H1 H2)|].
    intros <-. apply (Hd h); [by eapply list_elem_of_lookup_2|by left].
  - repeat constructor. by rewrite lookup_insert_eq.
Qed.

(** Sorting by hash permutes the transactions and orders their hashes. *)
Lemma sortByHash_spec txs hs :
  Forall2 hashes_to txs hs → NoDup hs →
  ∃ txs', sortByHash txs = Ret txs' ∧ txs' ≡ₚ txs ∧ Forall2 hashes_to txs' (sort_by str_ltb hs).
Proof.
  intros H Hn. unfold sortByHash. destruct (hash_loop_spec txs hs H Hn) as (m & -> & Hm). cbn. eexists. split; [done|]. split.
  - rewrite sort_by_perm. by rewrite (omap_lookup_all m hs txs Hm).
  - assert (Forall (λ h, ∃ tx, m !! h = Some tx ∧ hashes_to tx h) (sort_by str_ltb hs)) as Hf.
    { apply Forall_forall. intros h Hh. rewrite sort_by_perm in Hh. apply list_elem_of_lookup_1 in Hh as (i & Hi).
      destruct (Forall2_lookup_l _ _ _ _ _ Hm Hi) as (tx & Ht & Htm). exists tx. split; [done|]. by eapply Forall2_lookup_lr. }
    induction Hf as [|h l (tx & Htx & Hh) _ IH]; [constructor|]. cbn. rewrite Htx. by constructor.
Qed.

Lemma hash_txs_total txs :
  Forall (λ tx, ∃ h, hashes_to tx h) txs →
  ∃ m, hash_txs txs = Ret m ∧ ∀ tx h, tx ∈ txs → hashes_to tx h → is_Some (m !! h).
Proof.
  unfold hash_txs. induction txs as [|tx txs IH] using rev_ind; [intros; exists ∅; split; [done|by intros ? ? ?%not_elem_of_nil]|].
  intros [Hf [(h & Hh) _]%Forall_cons]%Forall_app. destruct (IH Hf) as (m & E & Hm).
  rewrite imap_snoc, mfold_app, E. cbn. rewrite Hh. eexists. split; [done|].
  intros tx' h' [Hin|[->|[]%not_elem_of_nil]%elem_of_cons]%elem_of_app Hh'; apply lookup_insert_is_Some'.
  - right. eauto.
  - left. unfold hashes_to in *. congruence.
Qed.

Lemma storeTransactions_total lcm (envelopes : list TransactionEnvelope) :
  10 ≤ LedgerVersion (Header (LedgerHeaderEntry lcm)) →
  Forall (λ tx, ∃ h, hashes_to tx h) (TxSet lcm) → NoDup (TransactionHash ∘ Meta_Result <$> TxProcessing lcm) →
  TxSet lcm ≡ₚ envelopes → Forall2 hashes_to envelopes (TransactionHash ∘ Meta_Result <$> TxProcessing lcm) →
  storeTransactions lcm = Ret (imap (λ i '(e, m),
    MkLedgerTransaction (u32 (Z.of_nat i + 1)) e (Meta_Result m) (FeeProcessing m) (TxApplyProcessing m))
    (zip envelopes (TxProcessing lcm))).
Proof.
  intros Hv Hh Hn Hp He. unfold storeTransactions. destruct (hash_txs_total _ Hh) as (m & E & Hm). rewrite E. cbn.
  pose proof (hash_txs_spec _ _ E) as Hspec.
  assert (∀ i e r, envelopes !! i = Some e → TxProcessing lcm !! i = Some r → m !! TransactionHash (Meta_Result r) = Some e) as Hl.
  { intros i e r Hi Hr. assert ((TransactionHash ∘ Meta_Result <$> TxProcessing lcm) !! i = Some (TransactionHash (Meta_Result r))) as Hir
      by by rewrite list_lookup_fmap, Hr.
    pose proof (Forall2_lookup_lr _ _ _ _ _ _ He Hi Hir) as Heh.
    destruct (Hm e _ ltac:(rewrite Hp; by eapply list_elem_of_lookup_2) Heh) as [e' He']. rewrite He'. f_equal.
    destruct (Hspec _ _ He') as [Hin Hh']. rewrite Hp in Hin. apply list_elem_of_lookup_1 in Hin as [j Hj].
    destruct (Forall2_lookup_l _ _ _ _ _ He Hj) as (h' & Hjh & Hjh').
    assert (h' = TransactionHash (Meta_Result r)) as -> by (unfold hashes_to in *; congruence).
    assert (j = i) as -> by (eapply NoDup_lookup; eauto). congruence. }
  assert (length envelopes = length (TxProcessing lcm)) as Hlen by by rewrite (Forall2_length _ _ _ He), length_fmap.
  clear Hm Hspec Hn He Hh Hp E. revert envelopes Hl Hlen.
  induction (TxProcessing lcm) as [|r rs IH] using rev_ind; intros es; [by destruct es|].
  destruct es as [|e es _] using rev_ind; rewrite !length_app; simpl; [lia|]. intros Hl Hlen.
  assert (length es = length rs) as Hlen' by lia. rewrite imap_snoc, mfold_app, (IH es).
  - cbn. unfold store_transaction.
    rewrite (Hl (length rs) e r) by (rewrite lookup_app_r, ?Hlen', ?Nat.sub_diag by lia; done).
    rewrite (proj2 (Z.ltb_ge _ 10)) by lia. cbn. rewrite zip_with_app by done. cbn. rewrite imap_snoc. do 2 f_equal.
    rewrite length_zip_with, Hlen', Nat.min_id. done.
  - intros i e' r' H1 H2. apply (Hl i); by apply lookup_app_l_Some.
  - done.
Qed.

(** C39: a ledger of the database of hcnet-core is read back as it was written.
    When the rows of the ledger are numbered from 1 on and each transaction has
    the hash of its result, [GetLedger] returns a ledger whose transaction set is
    the transactions ordered by hash, and the reader of transactions pairs each
    envelope again with the result, the fee changes and the metadata of its own
    row, in the order in which they were applied. *)
Theorem Database_ledger_reads_back fails db s header :
  let rows := txHistoryQuery db s in
  let fees := txFeeHistoryQuery db s in
  let hashes := TransactionHash ∘ TXResult <$> rows in
  (∀ q, fails q = false) → ledgerHeaderQuery db s = Some header → 10 ≤ LedgerVersion (hr_Header header) →
  numbered TXIndex rows → numbered FeeTXIndex fees → length fees = length rows → is_u32 (Z.of_nat (length rows)) →
  Forall2 hashes_to (TXBody <$> rows) hashes → NoDup hashes →
  ∃ lcm, Database_GetLedger fails db s = Ret (Some lcm) ∧
    TxSet lcm ≡ₚ TXBody <$> rows ∧ Forall2 hashes_to (TxSet lcm) (sort_by str_ltb hashes) ∧
    storeTransactions lcm = Ret (zip_with (λ tx fee,
      MkLedgerTransaction (TXIndex tx) (TXBody tx) (TXResult tx) (TXChanges fee) (TXMeta tx)) rows fees).
Proof.
  intros rows fees hashes Hf Hh Hv Hr Hfee Hlen Hu He Hn. unfold Database_GetLedger, select. rewrite !Hf, Hh. cbn.
  fold rows fees. rewrite (read_transactions_spec rows Hr). cbn.
  destruct (sortByHash_spec _ _ He Hn) as (txs & -> & Hp & Hs). cbn.
  rewrite (read_fees_spec fees) by (done || rewrite length_fmap; lia). cbn.
  rewrite take_ge, drop_ge, app_nil_r by (rewrite length_fmap; lia).
  eexists. split_and!; [done|done|done|].
  set (processing := zip_with with_fee (meta_of <$> rows) (TXChanges <$> fees)).
  assert (TransactionHash ∘ Meta_Result <$> processing = hashes) as Hph.
  { apply list_eq. intros i. unfold hashes, processing. rewrite !list_lookup_fmap, lookup_zip_with, !list_lookup_fmap.
    destruct (rows !! i) as [r|] eqn:Er; simpl; [|by destruct (fees !! i)].
    destruct (lookup_lt_is_Some_2 fees i) as [fee ->]; [rewrite Hlen; by eapply lookup_lt_Some|done]. }
  rewrite (storeTransactions_total _ (TXBody <$> rows)); simpl; fold processing; rewrite ?Hph; try done.
  - f_equal. apply list_eq. intros i. rewrite list_lookup_imap, !lookup_zip_with. unfold processing. rewrite lookup_zip_with, !list_lookup_fmap.
    destruct (rows !! i) as [r|] eqn:Er, (fees !! i) as [fee|]; simpl; try done. do 2 f_equal.
    apply lookup_lt_Some in Er as Hi. rewrite u32_small by (unfold is_u32 in *; lia). by rewrite (numbered_lookup TXIndex rows i r Hr Er).
  - apply Forall_forall. intros tx Htx. apply list_elem_of_lookup_1 in Htx as [i Hi].
    destruct (Forall2_lookup_l _ _ _ _ _ Hs Hi) as (h & _ & ?). eauto.
Qed.
End database_backend.

(** ** Examples *)

(** An archive of one checkpoint, whose files are of ledger 5 but for the
    headers, and a database with two transactions of ledger 6. *)
Module Example_backend.
Import Example_ledger.
#[local] Existing Instance Example_ledger.network.
Definition header (seq : Z) : LedgerHeader := MkHeader 15 [] 0 [] seq 0 0 0 0 0.
Definition only {A} (c : Z) (x : A) (i : Z) : option A := if i =? c then Some x else None.
#[local] Instance files : CategoryFiles := {|
  ledger_file := only 63 (MkEntries (MkHistoryEntry [] ∘ header <$> seqZ 1 63) None);
  transactions_file := only 63 (MkEntries [MkTxHistoryEntry 5 [envelope 10]] None);
  results_file := only 63 (MkEntries [MkTxResultEntry 5 [MkResultPair [10] 10 (TxSuccess [])]] None);
  ledger_exists c := Some (c =? 63); transactions_exists c := Some (c =? 63); results_exists c := Some (c =? 63) |}.

Definition tx_row (index fee : Z) (r : TransactionResultResult) (before after : Z) : txHistory :=
  MkTxHistory 6 index (envelope fee) (Meta_Result (result fee r before after)) (TxApplyProcessing (result fee r before after)).
Definition fee_row (index fee before : Z) : txFeeHistory :=
  MkTxFeeHistory 6 index (FeeProcessing (result fee (TxSuccess []) before 0)).
Definition db : CoreDB :=
  MkCoreDB [MkHeaderRow 6 [] (header 6)] [tx_row 2 10 (TxSuccess []) 80 70; tx_row 1 20 (TxSuccess []) 100 90]
    [fee_row 1 20 100; fee_row 2 10 80] [].
Definition working (q : query) : bool := false.

(** Ledger 0 is answered from the cache after a reading that failed: it is the
    object that the end of the stream left there. *)
Example ledger_zero :
  (Archive_GetLedger (foldl use NewHistoryArchiveBackend [Some 5; Some 64]) 0).2 = Ret (Some (MkCloseMeta zero_header [] [] [])).
Proof. vm_compute. reflexivity. Qed.

(** Archives that [archive_ok] excludes: the transactions of a ledger that has no
    header are a panic, and a ledger that has none is answered with the header
    that the file of another checkpoint has for it, if that was read before. *)
Definition foreign : CategoryFiles := {|
  ledger_file := only 63 (MkEntries (MkHistoryEntry [] ∘ header <$> [5]) None);
  transactions_file := only 63 (MkEntries [MkTxHistoryEntry 70 []] None);
  results_file := only 63 (MkEntries [] None);
  ledger_exists c := Some true; transactions_exists c := Some true; results_exists c := Some true |}.
Definition stray : CategoryFiles := {|
  ledger_file c := Some (MkEntries (if c =? 63 then MkHistoryEntry [] ∘ header <$> [5; 70] else []) None);
  transactions_file c := Some (MkEntries [] None); results_file c := Some (MkEntries [] None);
  ledger_exists c := Some true; transactions_exists c := Some true; results_exists c := Some true |}.
Example foreign_transactions : (Archive_GetLedger (CF := foreign) NewHistoryArchiveBackend 5).2 = Panic.
Proof. vm_compute. reflexivity. Qed.
Example stray_header :
  (Archive_GetLedger (CF := stray) NewHistoryArchiveBackend 70).2 = Fail ErrLedgerNotFound ∧
  (Archive_GetLedger (CF := stray) (foldl (use (CF := stray)) NewHistoryArchiveBackend [Some 5]) 70).2 =
    Ret (Some (MkCloseMeta (MkHistoryEntry [] (header 70)) [] [] [])).
Proof. vm_compute. split; reflexivity. Qed.

(** One row too many of fee changes is a panic. *)
Example fee_rows_panic :
  Database_GetLedger working (MkCoreDB (ledgerheaders db) (txhistory db) (fee_row 3 1 1 :: txfeehistory db) []) 6 = Panic.
Proof. vm_compute. reflexivity. Qed.

Lemma files_ok : archive_ok.
Proof.
  split; intros c st; simpl; unfold only; destruct (Z.eqb_spec c 63) as [->|]; try done; intros [= <-].
  - intros _ i Hi. unfold in_checkpoint in Hi. change (range_from 63) with 1 in Hi. change (i ∈ seqZ 1 63). apply elem_of_seqZ. lia.
  - by repeat constructor.
  - by repeat constructor.
Qed.
End Example_backend.


Theorem Database_ledger_reads_back_witness :
  ∃ lcm, Database_GetLedger (NW := Example_ledger.network) Example_backend.working Example_backend.db 6 = Ret (Some lcm) ∧
    TxSet lcm = [Example_ledger.envelope 10; Example_ledger.envelope 20] ∧
    ∃ txs, storeTransactions (NW := Example_ledger.network) lcm = Ret txs ∧
      Envelope <$> txs = [Example_ledger.envelope 20; Example_ledger.envelope 10].
Proof.
  destruct (Database_ledger_reads_back (NW := Example_ledger.network) Example_backend.working Example_backend.db 6
    (MkHeaderRow 6 [] (Example_backend.header 6))) as (lcm & E & _ & _ & Hs).
  - done.
  - done.
  - done.
  - done.
  - done.
  - done.
  - done.
  - repeat constructor.
  - change (NoDup [[20]; [10]]). apply NoDup_cons. split; [set_solver|apply NoDup_singleton].
  - exists lcm. split_and!; [done| |eexists; by split; [exact Hs|]].
    assert (Database_GetLedger (NW := Example_ledger.network) Example_backend.working Example_backend.db 6 = Ret (Some lcm)) as E2 by done.
    vm_compute in E2. by injection E2 as <-.
Defined.
