(* ===== verification/CaptiveCore.v ===== *)
(** * ingest/ledgerbackend: the captive core backend

    Models [src/ingest/ledgerbackend/captive_core_backend.go].

    The backend reads ahead: a goroutine, [sendLedgerMeta], reads ledgers from
    the pipe of hcnet-core and sends them on a buffered channel, from which the
    caller of the backend receives them.  The two share the channel, the shutdown
    channel, the wait group and the record of how the process ended.  A call of
    the backend is a function of the state, in which a list of groups says how
    many steps the goroutine takes before each access of the caller to what they
    share, and how it chooses when both cases of a [select] are ready.  A theorem
    about all lists is one about all interleavings.  A call that waits for
    something that does not happen within its list has not returned.

    The calls are made one after the other; a [Close] from another goroutine
    while [PrepareRange] waits is not modelled, nor are the ticker that logs, the
    constructor, and the runner of the subprocess, whose results are a
    parameter.  The marshaller of ledgers is in the frames of the pipe. *)

From S2P Require Import Prelude Encoding HistoryRange Transaction LedgerReaders HistoryArchive LedgerBackend.

Inductive captive_error :=
  | ErrCloseRunner (e : gostring)
  | ErrClosingSession (e : captive_error)
  | ErrGettingRootHAS (e : archive_error)
  | ErrBeyondArchive (from latest : Z)
  | ErrTooFar (latest : Z)
  | ErrNoConfigPath
  | ErrCreateRunner (e : gostring)
  | ErrRunCore (e : gostring)
  | ErrLedgerOne
  | ErrHeaderFromHAS (from : Z) (e : backend_error)
  | ErrRunParams (e : captive_error)
  | ErrFastForward (from : Z) (e : captive_error)
  | ErrMissingPipe
  | ErrEOF
  | ErrFrame
  | ErrProcessExit (e : option gostring)
  | ErrOpening (e : captive_error)
  | ErrSessionClosed
  | ErrBehind (sequence expected : Z)
  | ErrUnexpected (expected actual : Z)
  | ErrClosing (e : captive_error)
  | ErrNotOpen.

(** ** The subprocess *)

(** What reading from the pipe gives: a ledger, or an error together with what
    is on the exit channel then: nothing, or how the process ended. *)
Inductive frame :=
  | Frame (m : LedgerCloseMeta)
  | PipeError (eof : bool) (exit : option (option gostring)).
(** The runner of a subprocess: starting it fails or yields what will be read
    from the pipe.  [output] is what is left of that. *)
Record Runner := MkRunner {
  catchup : Z → Z → gostring + list frame; runFrom : Z → gostring → gostring + list frame;
  metaPipe : bool; close : option gostring; output : list frame }.
Definition with_output (r : Runner) (fs : list frame) : Runner :=
  MkRunner (catchup r) (runFrom r) (metaPipe r) (close r) fs.

(** ** The state *)

Definition readAheadBufferSize : nat := 2.
Definition roundDownToFirstReplayAfterCheckpointStart (ledger : Z) : Z :=
  let v := ledger / ledgersPerCheckpoint * ledgersPerCheckpoint in
  if v =? 0 then 2 else v.

Abbreviation metaResult := (LedgerCloseMeta + captive_error)%type.
(** Where [sendLedgerMeta] is: at the top of its loop, at the reading of the
    pipe, or at the sending of a result. *)
Inductive sender_pc := Top | Reading | Sending (r : metaResult).

(** An interface that holds a nil pointer is [Some None] as a runner.  The
    shutdown channel is nil, open or closed; the goroutine is there with the
    number up to which it reads, or the wait group is at zero. *)
Record Captive := MkCaptive {
  configPath : gostring;
  runner : option (option Runner);
  shutdown : option bool;
  metaC : list metaResult; metaC_closed : bool;
  sender : option (Z * sender_pc);
  cachedMeta : option LedgerCloseMeta; blocking : bool; nextLedger : Z; lastLedger : option Z;
  processExit : bool; processErr : option gostring;
  schedule : list (list bool) }.
Definition NewCaptive (configPath : gostring) : Captive :=
  MkCaptive configPath None None [] false None None false 0 None false None [].

Definition set_runner r c := MkCaptive (configPath c) r (shutdown c) (metaC c) (metaC_closed c) (sender c) (cachedMeta c)
  (blocking c) (nextLedger c) (lastLedger c) (processExit c) (processErr c) (schedule c).
Definition set_shutdown s c := MkCaptive (configPath c) (runner c) s (metaC c) (metaC_closed c) (sender c) (cachedMeta c)
  (blocking c) (nextLedger c) (lastLedger c) (processExit c) (processErr c) (schedule c).
Definition set_metaC q closed c := MkCaptive (configPath c) (runner c) (shutdown c) q closed (sender c) (cachedMeta c)
  (blocking c) (nextLedger c) (lastLedger c) (processExit c) (processErr c) (schedule c).
Definition set_sender g c := MkCaptive (configPath c) (runner c) (shutdown c) (metaC c) (metaC_closed c) g (cachedMeta c)
  (blocking c) (nextLedger c) (lastLedger c) (processExit c) (processErr c) (schedule c).
Definition set_cachedMeta m c := MkCaptive (configPath c) (runner c) (shutdown c) (metaC c) (metaC_closed c) (sender c) m
  (blocking c) (nextLedger c) (lastLedger c) (processExit c) (processErr c) (schedule c).
Definition set_blocking b c := MkCaptive (configPath c) (runner c) (shutdown c) (metaC c) (metaC_closed c) (sender c) (cachedMeta c)
  b (nextLedger c) (lastLedger c) (processExit c) (processErr c) (schedule c).
Definition set_range next last c := MkCaptive (configPath c) (runner c) (shutdown c) (metaC c) (metaC_closed c) (sender c)
  (cachedMeta c) (blocking c) next last (processExit c) (processErr c) (schedule c).
Definition set_exit b e c := MkCaptive (configPath c) (runner c) (shutdown c) (metaC c) (metaC_closed c) (sender c)
  (cachedMeta c) (blocking c) (nextLedger c) (lastLedger c) b e (schedule c).
Definition set_schedule s c := MkCaptive (configPath c) (runner c) (shutdown c) (metaC c) (metaC_closed c) (sender c)
  (cachedMeta c) (blocking c) (nextLedger c) (lastLedger c) (processExit c) (processErr c) s.

(** ** sendLedgerMeta *)

Definition shutting_down (c : Captive) : bool := bool_decide (shutdown c = Some true).
Definition process_error (e : captive_error) (exit : option (option gostring)) : captive_error :=
  match exit with Some processErr => ErrProcessExit processErr | None => e end.
Definition pipe_error (eof : bool) : captive_error := if eof then ErrEOF else ErrFrame.
(** Whether the goroutine returns once the result is sent. *)
Definition last_result (untilSequence : Z) (r : metaResult) : bool :=
  match r with inr _ => true | inl meta => negb (untilSequence =? 0) && (untilSequence <=? LedgerSequence meta) end.

(** A reading from the pipe; of a missing one the exit channel has nothing.
    [None] is a read that waits. *)
Definition readLedgerMetaFromPipe (r : Runner) : option (list frame * (LedgerCloseMeta + captive_error * option (option gostring))) :=
  if negb (metaPipe r) then Some (output r, inr (ErrMissingPipe, None)) else
  match output r with
  | [] => None
  | Frame meta :: rest => Some (rest, inl meta)
  | PipeError eof exit :: rest => Some (rest, inr (pipe_error eof, exit))
  end.

(** A step of the goroutine, if it can take one; the choice says which case of
    a [select] is taken when the shutdown channel is closed and another case is
    ready.  [None] is a panic. *)
Definition sender_step (choice : bool) (c : Captive) : option Captive :=
  match sender c with
  | None => Some c
  | Some (_, Top) as g =>
      if shutting_down c && choice then Some (set_sender None c)
      else Some (set_sender ((λ '(u, _), (u, Reading)) <$> g) c)
  | Some (untilSequence, Reading) =>
      match runner c with
      | Some (Some r) =>
          match readLedgerMetaFromPipe r with
          | None => Some c
          | Some (rest, inl meta) =>
              Some (set_sender (Some (untilSequence, Sending (inl meta))) (set_runner (Some (Some (with_output r rest))) c))
          | Some (rest, inr (e, exit)) =>
              let c := set_sender (Some (untilSequence, Sending (inr (process_error e exit))))
                (set_runner (Some (Some (with_output r rest))) c) in
              Some (match exit with Some processErr => set_exit true processErr c | None => c end)
          end
      | _ => None
      end
  | Some (untilSequence, Sending r) =>
      let room := (length (metaC c) <? readAheadBufferSize)%nat in
      if shutting_down c && (choice || negb room) then Some (set_sender None c)
      else if metaC_closed c then None
      else if room then
        Some (set_sender (if last_result untilSequence r then None else Some (untilSequence, Top))
          (set_metaC (metaC c ++ [r]) false c))
      else Some c
  end.
Fixpoint run_sender (choices : list bool) (c : Captive) : option Captive :=
  match choices with
  | [] => Some c
  | choice :: choices => match sender_step choice c with Some c => run_sender choices c | None => None end
  end.

(** ** Calls

    A call gives the state afterwards and its outcome, or [None] when it has
    not returned. *)

Definition Call (A : Type) : Type := Captive → Captive * option (outcome captive_error A).
#[export] Instance Call_ret : MRet Call := λ A a c, (c, Some (Ret a)).
#[export] Instance Call_bind : MBind Call := λ A B f m c,
  match m c with
  | (c, Some (Ret a)) => f a c
  | (c, Some (Fail e)) => (c, Some (Fail e))
  | (c, Some Panic) => (c, Some Panic)
  | (c, None) => (c, None)
  end.
Definition get : Call Captive := λ c, (c, Some (Ret c)).
Definition put (f : Captive → Captive) : Call unit := λ c, (f c, Some (Ret tt)).
Definition lift {A} (o : outcome captive_error A) : Call A := λ c, (c, Some o).
Definition fail {A} (e : captive_error) : Call A := lift (Fail e).
Definition wrap {A} (f : captive_error → captive_error) (m : Call A) : Call A := λ c,
  match m c with (c, Some (Fail e)) => (c, Some (Fail (f e))) | r => r end.
(** The error as a value *)
Definition try {A} (m : Call A) : Call (captive_error + A) := λ c,
  match m c with
  | (c, Some (Ret a)) => (c, Some (Ret (inr a)))
  | (c, Some (Fail e)) => (c, Some (Ret (inl e)))
  | (c, Some Panic) => (c, Some Panic)
  | (c, None) => (c, None)
  end.

(** Waits until something shared is there: the goroutine runs for a group of
    steps before each attempt. *)
Fixpoint await_in {A} (groups : list (list bool)) (ready : Captive → option (Captive * A)) (c : Captive)
  : Captive * option (outcome captive_error A) :=
  match groups with
  | [] => (set_schedule [] c, None)
  | g :: groups =>
      match run_sender g c with
      | None => (set_schedule groups c, Some Panic)
      | Some c =>
          match ready c with
          | Some (c, a) => (set_schedule groups c, Some (Ret a))
          | None => await_in groups ready c
          end
      end
  end.
Definition await {A} (ready : Captive → option (Captive * A)) : Call A := λ c, await_in (schedule c) ready c.
Definition observe {A} (f : Captive → A) : Call A := await (λ c, Some (c, f c)).
(** A receive from the channel; a closed one yields the zero value, [None]. *)
Definition receive : Call (option metaResult) :=
  await (λ c, match metaC c with
    | r :: rest => Some (set_metaC rest (metaC_closed c) c, Some r)
    | [] => if metaC_closed c then Some (c, None) else None
    end).
Definition wait_Wait : Call unit := await (λ c, match sender c with None => Some (c, tt) | Some _ => None end).

(** ** Close *)

Definition close_session : Call unit :=
  c ← get;
  match shutdown c with
  | None => mret tt
  | Some true => lift Panic
  | Some false =>
      _ ← put (set_shutdown (Some true));
      _ ← wait_Wait;
      put (λ c, set_shutdown None (set_metaC (metaC c) true c))
  end.
Definition close_runner : Call unit :=
  c ← get;
  match runner c with
  | None => mret tt
  | Some None => lift Panic
  | Some (Some r) =>
      _ ← put (set_runner None);
      match close r with Some e => fail (ErrCloseRunner e) | None => mret tt end
  end.
Definition Close : Call unit :=
  _ ← put (set_range 0 None);
  _ ← close_session;
  close_runner.

(** ** GetLedger *)

Definition isClosed (c : Captive) : bool := nextLedger c =? 0.

(** The error path closes the backend and drops the error of that. *)
Definition close_with {A} (e : captive_error) : Call A := _ ← try Close; fail e.
Definition found (meta : LedgerCloseMeta) (seq : Z) : Call (option LedgerCloseMeta) :=
  _ ← put (set_cachedMeta (Some meta));
  c ← get;
  _ ← (if bool_decide (lastLedger c = Some seq) then wrap ErrClosing Close else mret tt);
  mret (Some meta).
(** The loop receives a result in each round but the last, so that it has no
    more rounds than there are groups. *)
Fixpoint GetLedger_loop (fuel : nat) (sequence : Z) : Call (option LedgerCloseMeta) :=
  match fuel with
  | O => λ c, (c, None)
  | S fuel =>
      c ← get;
      empty ← (if blocking c then mret false else observe (λ c, bool_decide (metaC c = [])));
      if empty : bool then mret None else
      r ← receive;
      match r with
      | None => lift Panic
      | Some (inr e) => close_with e
      | Some (inl meta) =>
          c ← get;
          let seq := LedgerSequence meta in
          if negb (seq =? nextLedger c) then close_with (ErrUnexpected (nextLedger c) seq) else
          _ ← put (λ c, set_range (u32 (nextLedger c + 1)) (lastLedger c) c);
          if seq =? sequence then found meta seq else GetLedger_loop fuel sequence
      end
  end.
Definition cached (sequence : Z) (c : Captive) : option LedgerCloseMeta :=
  match cachedMeta c with
  | Some meta => if sequence =? LedgerSequence meta then Some meta else None
  | None => None
  end.
Definition GetLedger (sequence : Z) : Call (option LedgerCloseMeta) :=
  c ← get;
  match cached sequence c with
  | Some meta => mret (Some meta)
  | None =>
      if isClosed c then fail ErrSessionClosed
      else if sequence <? nextLedger c then fail (ErrBehind sequence (nextLedger c))
      else GetLedger_loop (S (length (schedule c))) sequence
  end.

Definition GetLatestLedgerSequence : Call Z :=
  c ← get;
  if isClosed c then fail ErrNotOpen else
  match lastLedger c with
  | None => n ← observe (λ c, Z.of_nat (length (metaC c))); mret (u32 (u32 (nextLedger c - 1) + n))
  | Some last => mret last
  end.

Definition IsPrepared (ledgerRange : LedgerRange) (c : Captive) : bool :=
  if nextLedger c =? 0 then false else
  match lastLedger c with
  | None => nextLedger c <=? from ledgerRange
  | Some last =>
      if bounded ledgerRange then (nextLedger c <=? from ledgerRange) && (nextLedger c <=? last) else false
  end.

(** ** PrepareRange *)

(** What the history archive has at the time of a call, and the factory of
    runners, which fails or makes one. *)
Record World := MkWorld {
  archive_files : ArchiveFiles; category_files : CategoryFiles;
  runnerFactory : gostring → gostring + Runner }.

Section prepare.
Context `{NW : Network} (w : World).

Definition getLatestCheckpointSequence : outcome captive_error Z :=
  map_fail ErrGettingRootHAS (has ← GetRootHAS (AF := archive_files w); Ret (CurrentLedger has)).
(** The factory of the constructor returns its nil pointer with the error, so
    that the interface is not nil afterwards. *)
Definition create_runner (path : gostring) : Call unit :=
  match runnerFactory w path with
  | inl e => _ ← put (set_runner (Some None)); fail (ErrCreateRunner e)
  | inr r => put (set_runner (Some (Some r)))
  end.
Definition start_runner (start : Runner → gostring + list frame) : Call unit :=
  c ← get;
  match runner c with
  | Some (Some r) =>
      match start r with
      | inl e => fail (ErrRunCore e)
      | inr fs => put (set_runner (Some (Some (with_output r fs))))
      end
  | _ => lift Panic
  end.
Definition start_session (next : Z) (last : option Z) (block : bool) (untilSequence : Z) (c : Captive) : Captive :=
  set_sender (Some (untilSequence, Top)) (set_shutdown (Some false) (set_metaC [] false
    (set_exit false None (set_blocking block (set_range next last c))))).

Definition openOfflineReplaySubprocess (from to : Z) : Call unit :=
  _ ← wrap ErrClosingSession Close;
  latestCheckpointSequence ← lift getLatestCheckpointSequence;
  if latestCheckpointSequence <? from then fail (ErrBeyondArchive from latestCheckpointSequence) else
  let to := if latestCheckpointSequence <? to then latestCheckpointSequence else to in
  c ← get;
  _ ← match runner c with Some _ => mret tt | None => create_runner [] end;
  _ ← start_runner (λ r, catchup r from to);
  put (start_session (roundDownToFirstReplayAfterCheckpointStart from) (Some to) true to).

(** The ledger to start at and its hash, and the first one that is streamed. *)
Definition runFromParams (from : Z) : outcome captive_error (Z * gostring * Z) :=
  if from =? 1 then Fail ErrLedgerOne else
  let '(from, nextLedger) :=
    if from <=? 63 then (3, 2) else
    let from := if IsCheckpoint from then from else PrevCheckpoint from in
    let nextLedger := u32 (from - 63) in
    (from, if nextLedger <? 2 then 2 else nextLedger) in
  ledgerHeader ← map_fail (ErrHeaderFromHAS from) (GetLedgerHeader (CF := category_files w) from);
  Ret (u32 (from - 1), Hex.EncodeToString (PreviousLedgerHash (Header ledgerHeader)), nextLedger).

Definition fast_forward (from : Z) : Call unit :=
  c ← get;
  if nextLedger c <? from then
    _ ← put (set_blocking true);
    r ← try (GetLedger from);
    _ ← put (set_blocking false);
    match r with inl e => fail (ErrFastForward from e) | inr _ => mret tt end
  else mret tt.

Definition openOnlineReplaySubprocess (from : Z) : Call unit :=
  c ← get;
  if bool_decide (lastLedger c = None) && negb (nextLedger c =? 0) && (nextLedger c <=? from) then mret tt else
  _ ← wrap ErrClosingSession Close;
  latestCheckpointSequence ← lift getLatestCheckpointSequence;
  if u32 (latestCheckpointSequence + 2 * 64) <? from then fail (ErrTooFar latestCheckpointSequence) else
  c ← get;
  _ ← match runner c with
      | Some _ => mret tt
      | None => if bool_decide (configPath c = []) then fail ErrNoConfigPath else create_runner (configPath c)
      end;
  '(start, ledgerHash, next) ← wrap ErrRunParams (lift (runFromParams from));
  _ ← start_runner (λ r, runFrom r start ledgerHash);
  _ ← put (start_session next None false 0);
  fast_forward from.

(** The wait for the first result; [true] when the backend is shut down. *)
Definition first_result : Call bool :=
  await (λ c, if shutting_down c then Some (c, true) else
    if (0 <? length (metaC c))%nat then Some (c, false) else None).
Definition PrepareRange (ledgerRange : LedgerRange) : Call unit :=
  c ← get;
  if IsPrepared ledgerRange c then mret tt else
  _ ← wrap ErrOpening
    (if bounded ledgerRange then openOfflineReplaySubprocess (from ledgerRange) (to ledgerRange)
     else openOnlineReplaySubprocess (from ledgerRange));
  c ← get;
  match runner c with
  | Some (Some r) =>
      if negb (metaPipe r) then fail ErrMissingPipe else
      stop ← first_result;
      if stop : bool then mret tt else
      exited ← observe (λ c, if processExit c then Some (processErr c) else None);
      match exited with Some e => fail (ErrProcessExit e) | None => mret tt end
  | _ => lift Panic
  end.
End prepare.

(** ** Steps of the goroutine *)

(** Of the runner, what does not change as it is read. *)
Definition handle (c : Captive) : option (bool * option gostring) :=
  match runner c with Some (Some r) => Some (metaPipe r, close r) | _ => None end.
(** What the caller has is untouched by the goroutine. *)
Definition same_caller (c c' : Captive) : Prop :=
  handle c' = handle c ∧ configPath c' = configPath c ∧ shutdown c' = shutdown c ∧ metaC_closed c' = metaC_closed c ∧
  cachedMeta c' = cachedMeta c ∧ blocking c' = blocking c ∧ nextLedger c' = nextLedger c ∧ lastLedger c' = lastLedger c.
#[export] Instance same_caller_preorder : PreOrder same_caller.
Proof. unfold same_caller. split; [intros c; by split_and!|intros a b c]. intros; destruct_and!; split_and!; congruence. Qed.

(** The backend between two calls. *)
Record idle (c : Captive) : Prop := {
  idle_runner : runner c ≠ Some None;
  idle_sender : sender c ≠ None → shutdown c ≠ None;
  idle_shutdown : shutdown c ≠ None → metaC_closed c = false ∧ ∃ r, runner c = Some (Some r);
  idle_open : nextLedger c ≠ 0 → shutdown c ≠ None;
  idle_room : (length (metaC c) ≤ readAheadBufferSize)%nat }.

(** A property of states that the goroutine keeps, and that does not depend on
    what is left of the groups. *)
Class Stable (I : Captive → Prop) : Prop := {
  stable_step b c : I c → ∃ c', sender_step b c = Some c' ∧ I c';
  stable_schedule s c : I c → I (set_schedule s c) }.

(** The steps of the goroutine as a relation. *)
Inductive stepped (c : Captive) : Captive → Prop :=
  | stepped_stays : stepped c c
  | stepped_stops g : sender c = Some g → shutdown c = Some true → stepped c (set_sender None c)
  | stepped_reads u : sender c = Some (u, Top) → stepped c (set_sender (Some (u, Reading)) c)
  | stepped_frame u r meta rest :
      sender c = Some (u, Reading) → runner c = Some (Some r) → metaPipe r = true → output r = Frame meta :: rest →
      stepped c (set_sender (Some (u, Sending (inl meta))) (set_runner (Some (Some (with_output r rest))) c))
  | stepped_error u r rest e exit b err :
      sender c = Some (u, Reading) → runner c = Some (Some r) →
      (metaPipe r = false ∧ e = ErrMissingPipe ∧ exit = None ∨
       ∃ eof, metaPipe r = true ∧ output r = PipeError eof exit :: rest ∧ e = pipe_error eof) →
      stepped c (set_exit b err (set_sender (Some (u, Sending (inr (process_error e exit))))
        (set_runner (Some (Some (with_output r rest))) c)))
  | stepped_sends u r :
      sender c = Some (u, Sending r) → metaC_closed c = false → (length (metaC c) < readAheadBufferSize)%nat →
      stepped c (set_sender (if last_result u r then None else Some (u, Top)) (set_metaC (metaC c ++ [r]) false c)).

Lemma sender_step_stepped b c : idle c → ∃ c', sender_step b c = Some c' ∧ stepped c c'.
Proof.
  intros [H1 H2 H3 H4 H5]. unfold sender_step. destruct (sender c) as [[u pc]|] eqn:Es; [|exists c; split; [done|apply stepped_stays]].
  destruct (H3 (H2 ltac:(done))) as (Hc & r & Hr).
  assert (∀ x, shutting_down c && x = true → shutdown c = Some true) as Hsd.
  { intros x [H%bool_decide_eq_true _]%andb_prop. done. }
  destruct pc as [| |q].
  - destruct (_ && _) eqn:Eb; eexists; (split; [done|]); [eapply stepped_stops; eauto|by apply stepped_reads].
  - rewrite Hr. unfold readLedgerMetaFromPipe. destruct (metaPipe r) eqn:Ep; cbn [negb].
    + destruct (output r) as [|[m|eof exit] rest] eqn:Eo; eexists; (split; [done|]); [apply stepped_stays|by eapply stepped_frame|].
      destruct exit as [err|]; [eapply stepped_error; [done..|right; eauto]|].
      apply (stepped_error c u r rest (pipe_error eof) None (processExit c) (processErr c)); [done..|right; eauto].
    + eexists; (split; [done|]).
      apply (stepped_error c u r (output r) ErrMissingPipe None (processExit c) (processErr c)); [done..|by left].
  - destruct (shutting_down c && _) eqn:Eb; [eexists; split; [done|]; eapply stepped_stops; eauto|].
    rewrite Hc. destruct (Nat.ltb_spec (length (metaC c)) readAheadBufferSize); eexists; (split; [done|]);
      [by apply stepped_sends|apply stepped_stays].
Qed.

Lemma stepped_idle c c' : stepped c c' → idle c → idle c' ∧ same_caller c c'.
Proof.
  intros Hs [H1 H2 H3 H4 H5]. unfold same_caller.
  destruct Hs as [|g Eg Esd|u Eg|u r meta rest Eg Er Ep Eo|u r rest e exit b err Eg Er Eo|u r Eg Ec Eroom];
    [by split; [constructor|split_and!]|..]; rewrite ?Eg in H2;
    (split; [|unfold handle; simpl; split_and!; by simplify_option_eq]); constructor; simpl; auto; try done.
  1-3: intros Hsd; destruct (H3 Hsd) as (? & ?); eauto.
  rewrite length_app. simpl. lia.
Qed.

(** ** What a call leaves when it returns *)

Definition post {A} (m : Call A) (c : Captive) (Q : Captive → outcome captive_error A → Prop) : Prop :=
  match m c with (c, Some o) => Q c o | (_, None) => True end.

Lemma post_bind {A B} (m : Call A) (f : A → Call B) c Q :
  post m c (λ c o, match o with Ret a => post (f a) c Q | Fail e => Q c (Fail e) | Panic => Q c Panic end) →
  post (m ≫= f) c Q.
Proof. unfold post, mbind, Call_bind. by destruct (m c) as [c' [[a|e|]|]]. Qed.
Lemma post_wrap {A} f (m : Call A) c Q :
  post m c (λ c o, Q c (map_fail f o)) → post (wrap f m) c Q.
Proof. unfold post, wrap. by destruct (m c) as [c' [[a|e|]|]]. Qed.
Lemma post_try {A} (m : Call A) c Q :
  post m c (λ c o, match o with Ret a => Q c (Ret (inr a)) | Fail e => Q c (Ret (inl e)) | Panic => Q c Panic end) →
  post (try m) c Q.
Proof. unfold post, try. by destruct (m c) as [c' [[a|e|]|]]. Qed.
Lemma post_mono {A} (m : Call A) c (P Q : Captive → outcome captive_error A → Prop) :
  post m c P → (∀ c o, P c o → Q c o) → post m c Q.
Proof. unfold post. destruct (m c) as [c' [o|]]; auto. Qed.

Lemma post_elim {A} (m : Call A) c Q : post m c Q → ∀ c' o, m c = (c', Some o) → Q c' o.
Proof. unfold post. intros H c' o E. by rewrite E in H. Qed.

Lemma run_sender_stable I `{!Stable I} g c : I c → ∃ c', run_sender g c = Some c' ∧ I c'.
Proof.
  revert c. induction g as [|b g IH]; intros c H; simpl; [eauto|].
  destruct (stable_step b c H) as (c' & -> & H'). by apply IH.
Qed.

Lemma post_await {A} I `{!Stable I} (ready : Captive → option (Captive * A)) c Q :
  I c → (∀ c1 c2 a s, I c1 → ready c1 = Some (c2, a) → Q (set_schedule s c2) (Ret a)) → post (await ready) c Q.
Proof.
  unfold post, await. generalize (schedule c). intros gs HI HQ. revert c HI.
  induction gs as [|g gs IH]; intros c HI; simpl; [done|].
  destruct (run_sender_stable I g c HI) as (c1 & -> & H1). destruct (ready c1) as [[c2 a]|] eqn:Er; [eauto|by apply IH].
Qed.

(** The states that the goroutine can reach from one between two calls. *)
Definition from_state (c0 c : Captive) : Prop := idle c ∧ same_caller c0 c.
#[export] Instance from_state_stable c0 : Stable (from_state c0).
Proof.
  split.
  - intros b c [Hi Hs]. destruct (sender_step_stepped b c Hi) as (c' & E & Hst).
    destruct (stepped_idle c c' Hst Hi) as [Hi' Hs']. exists c'. split; [done|split; [done|by trans c]].
  - intros s c [[] Hs]. by split; [constructor|].
Qed.

(** A backend after [Close]. *)
Record closed (c0 c : Captive) : Prop := {
  closed_next : nextLedger c = 0;
  closed_last : lastLedger c = None;
  closed_shutdown : shutdown c = None;
  closed_runner : runner c = None;
  closed_sender : sender c = None;
  closed_room : (length (metaC c) ≤ readAheadBufferSize)%nat;
  closed_rest : cachedMeta c = cachedMeta c0 ∧ configPath c = configPath c0 ∧ blocking c = blocking c0 }.
Definition close_outcome (c : Captive) : outcome captive_error unit :=
  match handle c with Some (_, Some e) => Fail (ErrCloseRunner e) | _ => Ret tt end.

Lemma closed_idle c0 c : closed c0 c → idle c.
Proof. intros [H1 H2 H3 H4 H5 H6 _]. constructor; rewrite ?H1, ?H3, ?H4, ?H5; done. Qed.

Lemma post_close_session c :
  idle c → shutdown c ≠ Some true → nextLedger c = 0 → lastLedger c = None →
  post close_session c (λ c' o, o = Ret tt ∧ idle c' ∧ shutdown c' = None ∧ handle c' = handle c ∧ nextLedger c' = 0 ∧ lastLedger c' = None ∧
    sender c' = None ∧ cachedMeta c' = cachedMeta c ∧ configPath c' = configPath c ∧ blocking c' = blocking c).
Proof.
  intros Hi Hsd Hn Hl. unfold close_session. apply post_bind. cbn.
  destruct (shutdown c) as [[]|] eqn:Es; [done| |].
  - apply post_bind. cbn. apply post_bind. apply (post_await (from_state (set_shutdown (Some true) c))).
    + split; [|done]. destruct Hi as [H1 H2 H3 H4 H5]. constructor; simpl; auto. intros _. apply H3. by rewrite Es.
    + intros c1 c2 a s [[J1 J2 J3 J4 J5] (Sh & Sc & Ss & Sm & Sca & Sb & Sn & Sl)]. destruct (sender c1) eqn:Eg; [done|].
      intros [= <- <-]. cbn. unfold handle in *. simpl in *. split_and!; try congruence. constructor; simpl; auto; try done. congruence.
  - cbn. split_and!; try done. destruct Hi as [H1 H2 H3 H4 H5]. destruct (sender c) eqn:Eg; [|done].
    exfalso. rewrite Es in H2. by apply H2.
Qed.

Lemma post_Close c :
  idle c → shutdown c ≠ Some true → post Close c (λ c' o, closed c c' ∧ o = close_outcome c).
Proof.
  intros Hi Hsd. unfold Close. apply post_bind. cbn. apply post_bind.
  eapply post_mono; [apply post_close_session; [|done..]; by destruct Hi; constructor|].
  intros c1 o (-> & Hi1 & Hs1 & Hh & Hn & Hl & Hg & Hm & Hp & Hb). unfold close_runner. apply post_bind. cbn.
  unfold close_outcome. change (handle (set_range 0 None c)) with (handle c) in Hh. rewrite <- Hh. unfold handle.
  destruct Hi1 as [J1 J2 J3 J4 J5].
  destruct (runner c1) as [[r|]|] eqn:Er; [|done|].
  - apply post_bind. cbn. by destruct (close r).
  - by cbn.
Qed.

(** ** The stream behind the read-ahead

    What the caller will receive, in order: what is in the channel, what the
    goroutine is about to send, and what it will read from the pipe. *)

Fixpoint results (untilSequence : Z) (fs : list frame) : list metaResult :=
  match fs with
  | [] => []
  | Frame m :: fs => inl m :: if last_result untilSequence (inl m) then [] else results untilSequence fs
  | PipeError eof exit :: _ => [inr (process_error (pipe_error eof) exit)]
  end.
Definition unread_results (untilSequence : Z) (r : option (option Runner)) : list metaResult :=
  match r with
  | Some (Some r) => if metaPipe r then results untilSequence (output r) else [inr ErrMissingPipe]
  | _ => []
  end.
Definition unsent (c : Captive) : list metaResult :=
  match sender c with
  | None => []
  | Some (u, Sending r) => r :: if last_result u r then [] else unread_results u (runner c)
  | Some (u, _) => unread_results u (runner c)
  end.
Definition coming (c : Captive) : list metaResult := metaC c ++ unsent c.

Lemma stepped_coming c c' : stepped c c' → shutdown c ≠ Some true → coming c' = coming c.
Proof.
  unfold coming, unsent. destruct 1 as [|g Eg Esd|u Eg|u r meta rest Eg Er Ep Eo|u r rest e exit b err Eg Er Eo|u r Eg Ec Eroom];
    intros Hsd; simpl; rewrite ?Eg; try done.
  - by rewrite Er; simpl; rewrite Ep, Eo.
  - rewrite Er. simpl. destruct Eo as [(-> & -> & ->)|(eof & -> & -> & ->)]; done.
  - rewrite <- app_assoc. by destruct (last_result u r).
Qed.

Definition streams (c0 : Captive) (L : list metaResult) (c : Captive) : Prop := from_state c0 c ∧ coming c = L.
Lemma streams_stable c0 L : shutdown c0 ≠ Some true → Stable (streams c0 L).
Proof.
  intros Hsd. split.
  - intros b c [[Hi Hs] Hc]. destruct (sender_step_stepped b c Hi) as (c' & E & Hst).
    destruct (stepped_idle c c' Hst Hi) as [Hi' Hs']. exists c'. split; [done|]. split; [split; [done|by trans c]|].
    rewrite (stepped_coming c c' Hst); [done|]. destruct Hs as (_ & _ & -> & _). done.
  - intros s c [HI Hc]. split; [|done]. by apply (stable_schedule (I := from_state c0)).
Qed.

(** The search for a ledger in the stream. *)
Fixpoint pull (next sequence : Z) (l : list metaResult) : option (outcome captive_error LedgerCloseMeta * Z * list metaResult) :=
  match l with
  | [] => None
  | inr e :: l => Some (Fail e, next, l)
  | inl m :: l =>
      if negb (LedgerSequence m =? next) then Some (Fail (ErrUnexpected next (LedgerSequence m)), next, l)
      else if LedgerSequence m =? sequence then Some (Ret m, u32 (next + 1), l)
      else pull (u32 (next + 1)) sequence l
  end.
(** Ledgers before the one that is searched for are passed over. *)
Inductive passes (sequence : Z) : Z → list metaResult → Z → list metaResult → Prop :=
  | passes_none next l : passes sequence next l next l
  | passes_one next m l next' l' :
      LedgerSequence m = next → next ≠ sequence → passes sequence (u32 (next + 1)) l next' l' →
      passes sequence next (inl m :: l) next' l'.

(** An open session, of which [next] is expected and [l] is coming. *)
Record open_at (c0 c : Captive) (next : Z) (l : list metaResult) (meta : option LedgerCloseMeta) : Prop := {
  open_idle : idle c;
  open_shutdown : shutdown c = Some false;
  open_next : nextLedger c = next;
  open_coming : coming c = l;
  open_meta : cachedMeta c = meta;
  open_rest : lastLedger c = lastLedger c0 ∧ blocking c = blocking c0 ∧ configPath c = configPath c0 ∧ handle c = handle c0 }.

Inductive got (sequence : Z) (c c' : Captive) : outcome captive_error (option LedgerCloseMeta) → Prop :=
  | got_ledger m next l :
      pull (nextLedger c) sequence (coming c) = Some (Ret m, next, l) → lastLedger c ≠ Some sequence →
      open_at c c' next l (Some m) → got sequence c c' (Ret (Some m))
  | got_last m next l :
      pull (nextLedger c) sequence (coming c) = Some (Ret m, next, l) → lastLedger c = Some sequence →
      closed (set_cachedMeta (Some m) c) c' →
      got sequence c c' (_ ← map_fail ErrClosing (close_outcome c); Ret (Some m))
  | got_later next l :
      blocking c = false → passes sequence (nextLedger c) (coming c) next l → open_at c c' next l (cachedMeta c) →
      got sequence c c' (Ret None)
  | got_error e next l :
      pull (nextLedger c) sequence (coming c) = Some (Fail e, next, l) → closed c c' → got sequence c c' (Fail e).

Lemma got_pass sequence c c1 m l c' o :
  open_at c c1 (u32 (nextLedger c + 1)) l (cachedMeta c) → coming c = inl m :: l →
  LedgerSequence m = nextLedger c → LedgerSequence m ≠ sequence → got sequence c1 c' o → got sequence c c' o.
Proof.
  intros [Oi Osd On Oc Om (Ol & Ob & Op & Oh)] Ec Em Ens.
  assert (pull (nextLedger c) sequence (coming c) = pull (nextLedger c1) sequence (coming c1)) as Epull.
  { rewrite Ec, On, Oc. simpl. rewrite Em, Z.eqb_refl. simpl. by rewrite (proj2 (Z.eqb_neq _ _)) by congruence. }
  assert (close_outcome c = close_outcome c1) as Eco by (unfold close_outcome; by rewrite Oh).
  intros G. destruct G as [m' next l' Hp Hl []|m' next l' Hp Hl []|next l' Hb Hp []|e next l' Hp []].
  - eapply got_ledger; [by rewrite Epull|by rewrite <- Ol|]. destruct open_rest0 as (? & ? & ? & ?). constructor; try congruence. split_and!; congruence.
  - rewrite <- Eco. eapply got_last; [by rewrite Epull|by rewrite <- Ol|]. destruct closed_rest0 as (? & ? & ?). simpl in *.
    constructor; try done. simpl. split_and!; congruence.
  - eapply got_later; [by rewrite <- Ob|rewrite Ec; eapply passes_one; [done|congruence|]; by rewrite <- On, <- Oc|].
    destruct open_rest0 as (? & ? & ? & ?). constructor; try congruence. split_and!; congruence.
  - eapply got_error; [by rewrite Epull|]. destruct closed_rest0 as (? & ? & ?). constructor; try done. split_and!; congruence.
Qed.

(** Receiving takes the first result of the stream. *)
Lemma post_receive c (Q : Captive → outcome captive_error (option metaResult) → Prop) :
  idle c → shutdown c = Some false →
  (∀ c' r l, coming c = r :: l → open_at c c' (nextLedger c) l (cachedMeta c) → Q c' (Ret (Some r))) →
  post receive c Q.
Proof.
  intros Hi Hsd HQ. unfold receive.
  pose proof (streams_stable c (coming c) ltac:(rewrite Hsd; done)) as Hst.
  eapply (post_await (streams c (coming c))); [by split; [split|]|].
  intros c1 c2 a s [[Hi1 (Sh & Sc & Ss & Sm & Sca & Sb & Sn & Sl)] Hc]. destruct (metaC c1) as [|r q] eqn:Eq.
  - destruct Hi1 as [_ _ J3 _ _]. rewrite Ss, Hsd in J3. destruct J3 as (-> & _); done.
  - intros [= <- <-]. apply (HQ _ r (q ++ unsent c1)).
    + rewrite <- Hc. unfold coming. by rewrite Eq.
    + destruct Hi1 as [J1 J2 J3 J4 J5]. rewrite Eq in J5. simpl in J5. constructor; simpl; try congruence; try done.
      constructor; simpl; auto. lia.
Qed.

Lemma post_observe {A} (f : Captive → A) c (Q : Captive → outcome captive_error A → Prop) :
  idle c → shutdown c = Some false →
  (∀ c', open_at c c' (nextLedger c) (coming c) (cachedMeta c) → Q c' (Ret (f c'))) →
  (∀ c s, f (set_schedule s c) = f c) → post (observe f) c Q.
Proof.
  intros Hi Hsd HQ Hf. unfold observe. pose proof (streams_stable c (coming c) ltac:(rewrite Hsd; done)) as Hst.
  eapply (post_await (streams c (coming c))); [by split; [split|]|].
  intros c1 c2 a s [[[J1 J2 J3 J4 J5] (Sh & Sc & Ss & Sm & Sca & Sb & Sn & Sl)] Hc] [= <- <-]. rewrite <- (Hf c1 s). apply HQ.
  by constructor; simpl; try congruence.
Qed.

Lemma post_first_result c (Q : Captive → outcome captive_error bool → Prop) :
  idle c → shutdown c = Some false →
  (∀ c', open_at c c' (nextLedger c) (coming c) (cachedMeta c) → metaC c' ≠ [] → Q c' (Ret false)) → post first_result c Q.
Proof.
  intros Hi Hsd HQ. unfold first_result. pose proof (streams_stable c (coming c) ltac:(rewrite Hsd; done)) as Hst.
  eapply (post_await (streams c (coming c))); [by split; [split|]|].
  intros c1 c2 a s [[[J1 J2 J3 J4 J5] (Sh & Sc & Ss & Sm & Sca & Sb & Sn & Sl)] Hc]. unfold shutting_down.
  rewrite Ss, Hsd, bool_decide_false by done. destruct (Nat.ltb_spec 0 (length (metaC c1))) as [Hl|]; [|done].
  intros [= <- <-]. apply HQ; [by constructor; simpl; try congruence|]. simpl. by destruct (metaC c1); [simpl in Hl; lia|].
Qed.

Lemma post_close_with {A} e c (Q : Captive → outcome captive_error A → Prop) :
  idle c → shutdown c ≠ Some true → (∀ c', closed c c' → Q c' (Fail e)) → post (close_with e) c Q.
Proof.
  intros Hi Hsd HQ. unfold close_with. apply post_bind, post_try. eapply post_mono; [by apply post_Close|].
  intros c' o [Hc ->]. unfold close_outcome. destruct (handle c) as [[? [?|]]|]; cbn; auto.
Qed.

Lemma open_at_trans c0 c1 c2 n1 l1 m1 n2 l2 m2 :
  open_at c0 c1 n1 l1 m1 → open_at c1 c2 n2 l2 m2 → open_at c0 c2 n2 l2 m2.
Proof. intros [_ _ _ _ _ (? & ? & ? & ?)] [? ? ? ? ? (? & ? & ? & ?)]. constructor; try done. split_and!; congruence. Qed.

Lemma open_closed c c1 next l c' : open_at c c1 next l (cachedMeta c) → closed c1 c' → closed c c'.
Proof.
  intros [_ _ _ _ Om (_ & Ob & Op & _)] [? ? ? ? ? ? (? & ? & ?)]. constructor; try done. split_and!; congruence.
Qed.

Lemma post_found c c3 meta sequence next l :
  pull (nextLedger c) sequence (coming c) = Some (Ret meta, next, l) → open_at c c3 next l (cachedMeta c) →
  post (found meta sequence) c3 (got sequence c).
Proof.
  intros Hp O. unfold found. apply post_bind. cbn. apply post_bind. cbn. apply post_bind.
  assert (open_at c (set_cachedMeta (Some meta) c3) next l (Some meta)) as O4.
  { destruct O as [[] ? ? ? ? ?]. by constructor; [constructor|..]. }
  pose proof O as [_ _ _ _ _ (Ol & Ob & Op & Oh)].
  change (lastLedger (set_cachedMeta (Some meta) c3)) with (lastLedger c3). rewrite Ol. destruct (bool_decide_reflect (lastLedger c = Some sequence)) as [El|Nl].
  - apply post_wrap. eapply post_mono; [apply post_Close; [apply O4|by rewrite (open_shutdown _ _ _ _ _ O4)]|].
    intros c' o [Hc ->].
    assert (closed (set_cachedMeta (Some meta) c) c') as Hc'.
    { destruct Hc as [? ? ? ? ? ? (? & ? & ?)]. simpl in *. constructor; try done. split_and!; simpl; congruence. }
    pose proof (got_last sequence c c' meta next l Hp El Hc') as G.
    change (close_outcome (set_cachedMeta (Some meta) c3)) with (close_outcome c3).
    assert (close_outcome c3 = close_outcome c) as -> by (unfold close_outcome; by rewrite Oh).
    unfold close_outcome in *. destruct (handle c) as [[? [?|]]|]; exact G.
  - cbn. by eapply got_ledger.
Qed.

Lemma post_loop fuel sequence c :
  idle c → shutdown c = Some false → post (GetLedger_loop fuel sequence) c (got sequence c).
Proof.
  revert c. induction fuel as [|fuel IH]; intros c Hi Hsd; [done|]. cbn [GetLedger_loop].
  apply post_bind. cbn. apply post_bind.
  assert (∀ c1, open_at c c1 (nextLedger c) (coming c) (cachedMeta c) → post (r ← receive; match r with
      | None => lift Panic
      | Some (inr e) => close_with e
      | Some (inl meta) =>
          c ← get;
          let seq := LedgerSequence meta in
          if negb (seq =? nextLedger c) then close_with (ErrUnexpected (nextLedger c) seq) else
          _ ← put (λ c, set_range (u32 (nextLedger c + 1)) (lastLedger c) c);
          if seq =? sequence then found meta seq else GetLedger_loop fuel sequence
      end) c1 (got sequence c)) as Hrec.
  { intros c1 O1. apply post_bind. apply post_receive; [apply O1|apply O1|]. intros c2 r l El O2.
    pose proof O1 as [_ _ N1 C1 M1 _]. rewrite C1 in El. rewrite N1, M1 in O2. pose proof (open_at_trans _ _ _ _ _ _ _ _ _ O1 O2) as O.
    pose proof O as [J0 Jsd Jn Jc Jm (Jl & Jb & Jp & Jh)].
    destruct r as [meta|e].
    - apply post_bind. cbn. rewrite Jn. destruct (Z.eqb_spec (LedgerSequence meta) (nextLedger c)) as [Eseq|Nseq]; cbn [negb].
      + apply post_bind. cbn.
        assert (open_at c (set_range (u32 (nextLedger c2 + 1)) (lastLedger c2) c2) (u32 (nextLedger c + 1)) l (cachedMeta c)) as O3.
        { constructor; simpl; try done; [|by rewrite Jn]. destruct J0. constructor; simpl; auto. by rewrite Jsd. }
        revert O3. generalize (set_range (u32 (nextLedger c2 + 1)) (lastLedger c2) c2). intros c3 O3.
        destruct (Z.eqb_spec (LedgerSequence meta) sequence) as [Es|Ns].
        * rewrite Es. eapply post_found; [|done]. rewrite El. simpl. by rewrite <- Eseq, Z.eqb_refl, Es, Z.eqb_refl.
        * eapply post_mono; [apply IH; apply O3|]. intros c' o. by eapply got_pass.
      + apply post_close_with; [done|by rewrite Jsd|]. intros c' Hc'. eapply got_error.
        * rewrite El. simpl. by rewrite (proj2 (Z.eqb_neq _ _)).
        * by eapply open_closed.
    - apply post_close_with; [done|by rewrite Jsd|]. intros c' Hc'. eapply got_error; [by rewrite El|by eapply open_closed]. }
  destruct (blocking c) eqn:Eb.
  - cbn. apply Hrec. by constructor.
  - apply post_observe; [done..| |done]. intros c1 O1. destruct (bool_decide _) eqn:Ee; [|by apply Hrec].
    cbn. eapply got_later; [done|apply passes_none|done].
Qed.

Lemma post_GetLedger sequence c (Q : Captive → outcome captive_error (option LedgerCloseMeta) → Prop) :
  (∀ m, cached sequence c = Some m → Q c (Ret (Some m))) →
  (cached sequence c = None → nextLedger c = 0 → Q c (Fail ErrSessionClosed)) →
  (cached sequence c = None → nextLedger c ≠ 0 → sequence < nextLedger c → Q c (Fail (ErrBehind sequence (nextLedger c)))) →
  (cached sequence c = None → nextLedger c ≠ 0 → nextLedger c ≤ sequence →
   post (GetLedger_loop (S (length (schedule c))) sequence) c Q) →
  post (GetLedger sequence) c Q.
Proof.
  intros H1 H2 H3 H4. unfold GetLedger. apply post_bind. cbn. destruct (cached sequence c) as [m|] eqn:Ec; [by apply H1|].
  unfold isClosed. destruct (Z.eqb_spec (nextLedger c) 0); [by apply H2|].
  destruct (Z.ltb_spec sequence (nextLedger c)); [by apply H3|by apply H4].
Qed.

(** ** No call panics *)

Definition good (c : Captive) : Prop := idle c ∧ shutdown c ≠ Some true.
(** After a factory that failed. *)
Definition broken (c : Captive) : Prop := runner c = Some None ∧ shutdown c = None ∧ sender c = None.

Lemma good_open c : good c → nextLedger c ≠ 0 → shutdown c = Some false.
Proof. intros [[_ _ _ H _] Hs] Hn. specialize (H Hn). destruct (shutdown c) as [[]|]; done. Qed.
Lemma closed_good c0 c : closed c0 c → good c.
Proof. intros H. split; [by eapply closed_idle|]. by destruct H as [_ _ -> _ _ _ _]. Qed.
Lemma open_good c0 c next l m : open_at c0 c next l m → good c.
Proof. intros [H Hs _ _ _ _]. split; [done|by rewrite Hs]. Qed.
Lemma close_outcome_panic c : close_outcome c ≠ Panic.
Proof. unfold close_outcome. by destruct (handle c) as [[? []]|]. Qed.

Lemma got_good sequence c c' o : got sequence c c' o → good c' ∧ o ≠ Panic.
Proof.
  destruct 1 as [m next l _ _ O|m next l _ _ Hc|next l _ _ O|e next l _ Hc];
    (split; [first [by eapply open_good|by eapply closed_good]|]); try done.
  pose proof (close_outcome_panic c). by destruct (close_outcome c).
Qed.

Lemma GetLedger_good sequence c : good c → post (GetLedger sequence) c (λ c' o, good c' ∧ o ≠ Panic).
Proof.
  intros Hg. apply post_GetLedger; try by split.
  intros _ Hn _. eapply post_mono; [apply post_loop; [apply Hg|by apply good_open]|]. intros c' o. by apply got_good.
Qed.

Lemma Close_good c : good c → post Close c (λ c' o, good c' ∧ o ≠ Panic).
Proof.
  intros [Hi Hs]. eapply post_mono; [by apply post_Close|]. intros c' o [Hc ->].
  split; [by eapply closed_good|apply close_outcome_panic].
Qed.

Lemma GetLatest_good c : good c → post GetLatestLedgerSequence c (λ c' o, good c' ∧ o ≠ Panic).
Proof.
  intros Hg. unfold GetLatestLedgerSequence. apply post_bind. cbn. unfold isClosed.
  destruct (Z.eqb_spec (nextLedger c) 0) as [|Hn]; [by split|]. destruct (lastLedger c); [by split|].
  apply post_bind. apply post_observe; [apply Hg|by apply good_open| |done]. intros c' O. cbn. split; [by eapply open_good|done].
Qed.

Section prepare_good.
Context `{NW : Network} (w : World).

(** What opening a session leaves: when it succeeds, an open one. *)
Definition opened (c : Captive) (o : outcome captive_error unit) : Prop :=
  o ≠ Panic ∧ (good c ∧ (∀ e, o ≠ Fail (ErrCreateRunner e)) ∨ broken c ∧ ∃ e, o = Fail (ErrCreateRunner e)) ∧
  (o = Ret tt → good c ∧ shutdown c = Some false).

Lemma post_start (start : Runner → gostring + list frame) r (k : Call unit) c Q :
  runner c = Some (Some r) → (∀ e, start r = inl e → Q c (Fail (ErrRunCore e))) →
  (∀ fs, start r = inr fs → post k (set_runner (Some (Some (with_output r fs))) c) Q) →
  post (_ ← start_runner start; k) c Q.
Proof.
  intros Hr Hfail Hk. apply post_bind. unfold start_runner. apply post_bind. cbn. rewrite Hr.
  destruct (start r) as [e|fs] eqn:Es; [by apply Hfail|]. cbn. by apply Hk.
Qed.

Lemma start_session_good next last block until r c :
  good (start_session next last block until (set_runner (Some (Some r)) c)).
Proof. split; [|done]. constructor; simpl; try done; [by split; [|eauto]|lia]. Qed.

Lemma closed_runner_good c0 c r : closed c0 c → good (set_runner (Some (Some r)) c).
Proof. intros [? ? ? ? ? ? _]. split; [|simpl; congruence]. constructor; simpl; congruence || done. Qed.

Lemma root_HAS_case :
  (∃ latest, getLatestCheckpointSequence w = Ret latest) ∨ ∃ e, getLatestCheckpointSequence w = Fail (ErrGettingRootHAS e).
Proof.
  unfold getLatestCheckpointSequence, GetRootHAS, GetPathHAS. destruct root_file; [|right; by eexists].
  destruct (_ && _); [right|left]; by eexists.
Qed.

Ltac open_tac :=
  unfold opened in *; split_and!;
  first [done | by auto | by left; split; auto | by right; split; eauto | by left; split; [first [assumption | auto]|by intros] | by intros; split; auto].

Lemma create_runner_case path c (k : Call unit) (Q : Captive → outcome captive_error unit → Prop) :
  runner c = None → shutdown c = None → sender c = None →
  (∀ e c', broken c' → Q c' (Fail (ErrCreateRunner e))) →
  (∀ r, runnerFactory w path = inr r → post k (set_runner (Some (Some r)) c) Q) →
  post (_ ← create_runner w path; k) c Q.
Proof.
  intros Hr Hs Hg Hb Hk. apply post_bind. unfold create_runner. destruct (runnerFactory w path) as [e|r] eqn:E.
  - apply post_bind. cbn. by apply Hb.
  - cbn. by apply Hk.
Qed.

Lemma openOffline_good from to c : good c → post (openOfflineReplaySubprocess w from to) c opened.
Proof.
  intros [Hi Hs]. unfold openOfflineReplaySubprocess. apply post_bind, post_wrap. eapply post_mono; [by apply post_Close|].
  intros c1 o [Hc ->]. pose proof (closed_good _ _ Hc) as Hg. pose proof (close_outcome_panic c).
  destruct (close_outcome c); cbn; [|by open_tac|done].
  apply post_bind. cbn. destruct root_HAS_case as [[latest ->]|[e ->]]; [|by open_tac].
  case_if; [by open_tac|]. apply post_bind. cbn. rewrite (closed_runner _ _ Hc).
  apply create_runner_case; [apply Hc..|by intros; open_tac|]. intros r Hf.
  pose proof (closed_runner_good _ _ r Hc). eapply post_start; [done|by intros; open_tac|].
  intros fs Hfs. cbn. pose proof (start_session_good). by split_and!; auto.
Qed.

Lemma runFromParams_no_panic from : runFromParams w from ≠ Panic.
Proof.
  unfold runFromParams, GetLedgerHeader. case_if; [done|]. destruct (if from <=? 63 then _ else _) as [f n].
  destruct (ledger_file _) as [st|]; [|done]. by destruct (list_find _ _) as [[? ?]|], (half_read st).
Qed.

Lemma set_blocking_good b c : good c → good (set_blocking b c).
Proof. by intros [[] ?]. Qed.

Lemma fast_forward_good from c : good c → shutdown c = Some false → lastLedger c = None → post (fast_forward from) c opened.
Proof.
  intros Hg Hs Hl. unfold fast_forward. apply post_bind. cbn. case_if; [|by split_and!; auto].
  apply post_bind. cbn. apply post_bind, post_try. pose proof (set_blocking_good true c Hg) as Hg'.
  apply post_GetLedger; try (intros; apply post_bind; cbn; split_and!; auto using set_blocking_good; done).
  intros _ Hn _. eapply post_mono; [apply post_loop; [apply Hg'|done]|]. intros c' o G.
  pose proof (got_good _ _ _ _ G) as [Hg2 Hp2]. pose proof (set_blocking_good false c' Hg2).
  destruct G as [m next l _ _ O|m next l _ El _|next l Eb _ _|e next l _ _].
  - apply post_bind. cbn. split_and!; auto. intros _. split; [done|]. by destruct O.
  - simpl in El. congruence.
  - done.
  - apply post_bind. cbn. by split_and!; auto.
Qed.

Lemma openOnline_good from c : good c → post (openOnlineReplaySubprocess w from) c opened.
Proof.
  intros Hg0. pose proof Hg0 as [Hi Hs]. unfold openOnlineReplaySubprocess. apply post_bind. cbn.
  destruct (_ && _ && _) eqn:Eopen.
  { cbn. apply andb_prop in Eopen as [[_ Hn%negb_true_iff%Z.eqb_neq]%andb_prop _]. split_and!; auto. intros _. split; [done|by apply good_open]. }
  clear Eopen. apply post_bind, post_wrap. eapply post_mono; [by apply post_Close|].
  intros c1 o [Hc ->]. pose proof (closed_good _ _ Hc) as Hg. pose proof (close_outcome_panic c).
  destruct (close_outcome c); cbn; [|by open_tac|done].
  apply post_bind. cbn. destruct root_HAS_case as [[latest ->]|[e ->]]; [|by open_tac].
  case_if; [by open_tac|]. apply post_bind. cbn. rewrite (closed_runner _ _ Hc).
  destruct (bool_decide (configPath c1 = [])); [by apply post_bind; open_tac|].
  apply create_runner_case; [apply Hc..|by intros; open_tac|]. intros r Hf.
  pose proof (closed_runner_good _ _ r Hc). apply post_bind, post_wrap. cbn. pose proof (runFromParams_no_panic from).
  destruct (runFromParams w from) as [[[start hash] next]|e|]; cbn; [|by open_tac|done].
  eapply post_start; [done|by intros; open_tac|].
  intros fs Hfs. apply post_bind. cbn.
  apply fast_forward_good; [apply start_session_good|done..].
Qed.

Lemma PrepareRange_good r c : good c → post (PrepareRange w r) c (λ c' o, o ≠ Panic ∧
    (good c' ∧ (∀ e, o ≠ Fail (ErrOpening (ErrCreateRunner e))) ∨ broken c' ∧ ∃ e, o = Fail (ErrOpening (ErrCreateRunner e)))).
Proof.
  intros Hg. unfold PrepareRange. apply post_bind. cbn. destruct (IsPrepared r c); [by split; auto|].
  apply post_bind, post_wrap.
  eapply (post_mono _ _ opened); [case_if; [by apply openOffline_good|by apply openOnline_good]|].
  intros c1 o (Hp & Hgb & Ho). destruct o as [[]|e|]; cbn.
  2:{ split; [done|]. destruct Hgb as [[? He]|[? [e' [= ->]]]]; [left|right; eauto]. split; [done|]. intros e0 [= ->]. by destruct (He e0). }
  2:{ done. }
  destruct (Ho eq_refl) as [Hg1 Hs1]. apply post_bind. cbn.
  pose proof Hg1 as [[_ _ H3 _ _] _]. destruct H3 as (_ & rn & ->); [by rewrite Hs1|].
  case_if; [by open_tac|]. apply post_bind, post_first_result; [apply Hg1|done|]. intros c2 O2 _. cbn. apply post_bind.
  apply post_observe; [apply O2..|intros c4 O4; pose proof (open_good _ _ _ _ _ O4)|done].
  destruct (processExit c4); cbn; by open_tac.
Qed.
End prepare_good.

(** The calls of the interface, and the states that they lead to while no
    factory fails; the groups of a call are those that the scheduler chooses. *)
Inductive api :=
  | ApiPrepareRange (w : World) (ledgerRange : LedgerRange)
  | ApiGetLedger (sequence : Z)
  | ApiGetLatestLedgerSequence
  | ApiClose.
Definition perform `{NW : Network} (a : api) : Call unit :=
  match a with
  | ApiPrepareRange w r => PrepareRange w r
  | ApiGetLedger sequence => _ ← GetLedger sequence; mret tt
  | ApiGetLatestLedgerSequence => _ ← GetLatestLedgerSequence; mret tt
  | ApiClose => Close
  end.
Inductive reached `{NW : Network} (path : gostring) : Captive → Prop :=
  | reached_new : reached path (NewCaptive path)
  | reached_goroutine c b c' : reached path c → sender_step b c = Some c' → reached path c'
  | reached_call c a groups c' o :
      reached path c → perform a (set_schedule groups c) = (c', Some o) → o ≠ Panic →
      (∀ e, o ≠ Fail (ErrOpening (ErrCreateRunner e))) → reached path c'.

Section never_panics.
Context `{NW : Network}.

Lemma set_schedule_good s c : good c → good (set_schedule s c).
Proof. by intros [[] ?]. Qed.

Lemma perform_good a c :
  good c → post (perform a) c (λ c' o, o ≠ Panic ∧
    (good c' ∨ broken c' ∧ ∃ e, o = Fail (ErrOpening (ErrCreateRunner e)))).
Proof.
  intros Hg. destruct a as [w r|sequence| |]; simpl.
  - eapply post_mono; [by apply PrepareRange_good|]. intros c' o [Hp [[? _]|?]]; auto.
  - apply post_bind. eapply post_mono; [by apply GetLedger_good|]. intros c' o [? ?]. destruct o; cbn; auto.
  - apply post_bind. eapply post_mono; [by apply GetLatest_good|]. intros c' o [? ?]. destruct o; cbn; auto.
  - eapply post_mono; [by apply Close_good|]. intros c' o [? ?]; auto.
Qed.

Lemma reached_good path c : reached path c → good c.
Proof.
  induction 1 as [|c b c' _ [Hi Hs] E|c a groups c' o _ Hg E Hp Hc].
  - split; [constructor|]; simpl; auto; done || lia.
  - destruct (sender_step_stepped b c Hi) as (c2 & E2 & Hst). destruct (stepped_idle c c2 Hst Hi) as [Hi' (_ & _ & Hs' & _)].
    simplify_eq. split; [done|]. by rewrite Hs'.
  - pose proof (post_elim _ _ _ (perform_good a _ (set_schedule_good groups c Hg)) _ _ E) as [_ [?|[_ [e ->]]]]; [done|].
    by destruct (Hc e).
Qed.

(** C18: the backend does not crash.  However the goroutine and the calls are
    interleaved, whatever the subprocess writes and however it ends, no step of
    the goroutine and no call of a backend panics: no channel is closed twice or
    sent on once closed, and no missing runner or ledger is used.  The exception
    is a factory that fails: it leaves a nil pointer in an interface, and the
    [Close] that comes next dereferences it. *)
Theorem Captive_never_panics path c :
  reached path c →
  (∀ b, sender_step b c ≠ None) ∧
  (∀ a groups c', perform a (set_schedule groups c) ≠ (c', Some Panic)) ∧
  (∀ w r groups c' e, PrepareRange w r (set_schedule groups c) = (c', Some (Fail (ErrOpening (ErrCreateRunner e)))) →
     ∀ groups', (Close (set_schedule groups' c')).2 = Some Panic).
Proof.
  intros Hg%reached_good. split_and!.
  - intros b E. destruct Hg as [Hi _]. destruct (sender_step_stepped b c Hi) as (c2 & E2 & _). congruence.
  - intros a groups c' E. by destruct (post_elim _ _ _ (perform_good a _ (set_schedule_good groups c Hg)) _ _ E).
  - intros w r groups c' e E groups'.
    destruct (post_elim _ _ _ (PrepareRange_good w r _ (set_schedule_good groups c Hg)) _ _ E) as [_ [[_ H]|[(Hr & Hs & _) _]]]; [by destruct (H e)|].
    unfold Close, close_session, close_runner, mbind, Call_bind, put, get. cbn. rewrite Hs. cbn. by rewrite Hr.
Qed.
End never_panics.

(** ** Examples *)

Module Example_core.
#[local] Existing Instance Example_ledger.network.
Definition ledger (i : Z) : LedgerCloseMeta := MkCloseMeta (MkHistoryEntry [] (Example_backend.header i)) [] [] [].
Definition frames (a b : Z) : list frame := (Frame ∘ ledger) <$> seqZ a (b + 1 - a).
(** An archive up to ledger 127, and a subprocess that replays what it is asked
    for, or streams the ledgers from 2 to 73. *)
Definition core : Runner :=
  MkRunner (λ from to, inr (frames (roundDownToFirstReplayAfterCheckpointStart from) to)) (λ _ _, inr (frames 2 73)) true None [].
Definition world : World := MkWorld
  {| root_file := Some (MkHAS 127 [] []); checkpoint_file := λ _, None; checkpoint_exists := λ _, None |}
  Example_backend.files (λ _, inr core).
Definition broken_world : World := MkWorld (archive_files world) (category_files world) (λ _, inl (str "no space left")).
Definition new : Captive := NewCaptive (str "core.cfg").
Definition groups (n : nat) : list (list bool) := replicate n (replicate 3 true).
(** After a call that is given [n] groups. *)
Definition after (a : api) (n : nat) (c : Captive) : Captive := (perform a (set_schedule (groups n) c)).1.
Definition offline : Captive := after (ApiPrepareRange world (BoundedRange 70 72)) 9 new.
Definition online : Captive := after (ApiPrepareRange world (UnboundedRange 70)) 99 new.

Example offline_next : nextLedger offline = 64 ∧ lastLedger offline = Some 72.
Proof. vm_compute. by split. Qed.
Example online_next : nextLedger online = 71 ∧ cachedMeta online = Some (ledger 70).
Proof. vm_compute. by split. Qed.

Lemma new_closed : closed new new.
Proof. constructor; simpl; unfold readAheadBufferSize; done || lia. Qed.

(** A call that returns leads to a state that is reached. *)
Lemma after_eq a n c :
  (perform a (set_schedule (groups n) c)).2 = Some (Ret tt) → perform a (set_schedule (groups n) c) = (after a n c, Some (Ret tt)).
Proof. intros E. rewrite <- E. apply surjective_pairing. Qed.
Lemma after_reached a n c :
  reached (str "core.cfg") c → (perform a (set_schedule (groups n) c)).2 = Some (Ret tt) → reached (str "core.cfg") (after a n c).
Proof. intros Hc E. by refine (reached_call _ c a (groups n) _ (Ret tt) Hc (after_eq a n c E) _ _). Qed.
Lemma perform_prepare w r : perform (ApiPrepareRange w r) = PrepareRange w r.
Proof. reflexivity. Qed.
Lemma offline_eq :
  PrepareRange world (BoundedRange 70 72) (set_schedule (groups 9) new) = (offline, Some (Ret tt)).
Proof. rewrite <- perform_prepare. unfold offline. apply after_eq. vm_compute. reflexivity. Qed.
Lemma online_eq :
  PrepareRange world (UnboundedRange 70) (set_schedule (groups 99) new) = (online, Some (Ret tt)).
Proof. rewrite <- perform_prepare. unfold online. apply after_eq. vm_compute. reflexivity. Qed.
Lemma offline_reached : reached (str "core.cfg") offline.
Proof. apply after_reached; [apply reached_new|]. vm_compute. reflexivity. Qed.
Lemma online_reached : reached (str "core.cfg") online.
Proof. apply after_reached; [apply reached_new|]. vm_compute. reflexivity. Qed.
End Example_core.

Theorem Captive_never_panics_witness :
  (∀ groups c', perform (NW := Example_ledger.network) ApiClose (set_schedule groups Example_core.online) ≠ (c', Some Panic)) ∧
  (Close (set_schedule [] (Example_core.after (ApiPrepareRange Example_core.broken_world (BoundedRange 70 72)) 9 Example_core.new))).2
    = Some Panic.
Proof.
  destruct (Captive_never_panics (NW := Example_ledger.network) _ _ Example_core.online_reached) as (_ & H & _).
  destruct (Captive_never_panics (NW := Example_ledger.network) _ _ (reached_new (str "core.cfg"))) as (_ & _ & HP).
  split; [intros groups c'; apply H|].
  apply (HP Example_core.broken_world (BoundedRange 70 72) (Example_core.groups 9) _ (str "no space left")).
  vm_compute. reflexivity.
Defined.

