(* ===== verification/CaptiveStream.v ===== *)
(** * ingest/ledgerbackend: the sessions of the captive core backend

    What the calls of CaptiveCore.v do with the stream of ledgers: [GetLedger] is
    a search of the stream, whatever the read-ahead does; a bounded range is
    replayed to its end under a fair schedule, and beyond its end a call waits
    forever; when [Close] returns; and what the preparation of an unbounded range
    leaves. *)

From S2P Require Import Prelude HistoryRange Transaction LedgerReaders HistoryArchive LedgerBackend CaptiveCore.

(** ** GetLedger over the stream *)

Lemma pull_sequence next sequence l m next' l' :
  pull next sequence l = Some (Ret m, next', l') → LedgerSequence m = sequence.
Proof.
  revert next. induction l as [|[m'|e] l IH]; intros next; simpl; [done| |done]. case_if; [done|].
  destruct (Z.eqb_spec (LedgerSequence m') sequence); [by intros [= -> _ _]|apply IH].
Qed.

(** C17: [GetLedger] reads the stream, whatever the read-ahead does.  For every
    schedule, a call that returns gives what a search of the sequence of results
    behind the channel, the goroutine and the pipe gives: a ledger is the one that
    was asked for, and the ones before it, passed over, are consecutive from the
    one that is expected; an error of the stream, or a ledger out of order, closes
    the session; and the ledger that ends a bounded range closes it as well.  A
    session that does not block answers that the ledger is not there only after
    ledgers before it.  A ledger that is at hand, a closed session and a ledger
    that has passed are answered without touching the stream. *)
Theorem GetLedger_refines `{NW : Network} path c0 groups sequence c' o :
  let c := set_schedule groups c0 in
  reached path c0 → GetLedger sequence c = (c', Some o) →
  (∀ m, o = Ret (Some m) → LedgerSequence m = sequence) ∧
  match cached sequence c with
  | Some m => o = Ret (Some m) ∧ c' = c
  | None =>
      if nextLedger c =? 0 then o = Fail ErrSessionClosed ∧ c' = c
      else if sequence <? nextLedger c then o = Fail (ErrBehind sequence (nextLedger c)) ∧ c' = c
      else got sequence c c' o
  end.
Proof.
  intros c Hr%reached_good. pose proof (set_schedule_good groups c0 Hr) as Hg. fold c in Hg.
  revert c' o. apply post_elim, post_GetLedger.
  - intros m Hm. rewrite Hm. split_and!; [|done..]. unfold cached in Hm. destruct (cachedMeta c) as [m'|]; [|done].
    destruct (Z.eqb_spec sequence (LedgerSequence m')); [|done]. by intros ? [= <-]; simplify_eq.
  - intros -> ->. done.
  - intros -> Hn Hl. by rewrite (proj2 (Z.eqb_neq _ _) Hn), (proj2 (Z.ltb_lt _ _) Hl).
  - intros -> Hn Hl. rewrite (proj2 (Z.eqb_neq _ _) Hn), (proj2 (Z.ltb_ge _ _) Hl).
    eapply post_mono; [apply post_loop; [apply Hg|by apply good_open]|]. intros c1 o1 G. split; [|done].
    intros m ->. inversion G as [m' next l Hp|m' next l Hp| |]; subst; [by eapply pull_sequence|].
    destruct (close_outcome c); simplify_eq/=. by eapply pull_sequence.
Qed.

(** ** A fair schedule *)

(** There are [n] groups more, and in each the goroutine has the steps that it
    needs for a result. *)
Definition fair (n : nat) (c : Captive) : Prop :=
  (n ≤ length (schedule c))%nat ∧ Forall (λ g, (3 ≤ length g)%nat) (schedule c).

(** The steps until a result is in the channel *)
Definition distance (c : Captive) : nat :=
  match metaC c, sender c with
  | _ :: _, _ | [], None => 0
  | [], Some (_, Sending _) => 1
  | [], Some (_, Reading) => 2
  | [], Some (_, Top) => 3
  end.

Lemma step_distance b c c' :
  idle c → shutdown c = Some false → coming c ≠ [] → sender_step b c = Some c' → (distance c' ≤ pred (distance c))%nat.
Proof.
  intros [_ _ H3 _ _] Hs Hc. destruct (H3 ltac:(by rewrite Hs)) as (Hcl & r & Hr).
  unfold sender_step, shutting_down, distance, coming, unsent in *. rewrite Hs, bool_decide_false by done. cbn [andb].
  destruct (metaC c) as [|x q] eqn:Eq; destruct (sender c) as [[u [| |rs]]|] eqn:Eg; try (intros [= <-]; simpl; rewrite ?Eq, ?Eg; done || lia).
  - rewrite Hr in *. unfold readLedgerMetaFromPipe, unread_results in *. cbn in Hc.
    destruct (metaPipe r); cbn [negb]; [destruct (output r) as [|[m|eof exit] fs]; [done|..]|];
      intros [= <-]; try destruct exit; simpl; rewrite ?Eq; lia.
  - rewrite Hcl. simpl. intros [= <-]. simpl. lia.
  - rewrite Hr. destruct (readLedgerMetaFromPipe r) as [[fs [m|[e exit]]]|]; intros [= <-]; try destruct exit; simpl; rewrite ?Eq; lia.
  - rewrite Hcl. case_if; intros [= <-]; simpl; rewrite ?Eq; simpl; lia.
Qed.

Lemma run_distance L c0 g c c' :
  streams c0 L c → shutdown c0 = Some false → L ≠ [] → run_sender g c = Some c' →
  (distance c' ≤ distance c - length g)%nat ∧ streams c0 L c'.
Proof.
  intros Hst Hs HL. pose proof (streams_stable c0 L ltac:(by rewrite Hs)) as S.
  revert c Hst. induction g as [|b g IH]; intros c Hst; simpl; [intros [= <-]; split; [lia|done]|].
  destruct (stable_step b c Hst) as (c1 & E & H1). rewrite E. intros Hr. destruct (IH _ H1 Hr) as [Hd ?]. split; [|done].
  destruct Hst as [[Hi (_ & _ & Hs' & _)] Hc]. pose proof (step_distance b c c1 Hi ltac:(by rewrite Hs') ltac:(by rewrite Hc) E). lia.
Qed.

(** A group of a fair schedule brings a result into the channel. *)
Lemma run_fair g c c' :
  idle c → shutdown c = Some false → coming c ≠ [] → (3 ≤ length g)%nat → run_sender g c = Some c' → metaC c' ≠ [].
Proof.
  intros Hi Hs Hc Hg Hr. destruct (run_distance (coming c) c g c c') as [Hd [[[_ _ _ _ _] _] Hst]]; [by split; [split|]|done..|].
  intros E. unfold distance in Hd. rewrite E in Hd. destruct (sender c') as [[u pc]|] eqn:Es.
  - assert (distance c ≤ 3)%nat by (unfold distance; destruct (metaC c), (sender c) as [[? [| |]]|]; lia).
    destruct pc; unfold distance in *; lia.
  - unfold coming, unsent in Hst. rewrite E, Es in Hst. by apply Hc.
Qed.

(** ** A session over a bounded range *)

Section bounded.
Context (ledger : Z → LedgerCloseMeta) (ledger_sequence : ∀ i, LedgerSequence (ledger i) = i).

(** The ledgers from [a] to [b]. *)
Definition ledgers (a b : Z) : list metaResult := (inl ∘ ledger) <$> seqZ a (b + 1 - a).
(** The goroutine returns once it has sent what is unsent. *)
Definition ends (c : Captive) : Prop :=
  ∀ u pc, sender c = Some (u, pc) → ∃ r, last (unsent c) = Some r ∧ last_result u r = true.

(** Ledger [next] is expected, and those from [start] to [last] are coming. *)
Record clean (next start last : Z) (meta : option LedgerCloseMeta) (c : Captive) : Prop := {
  clean_idle : idle c;
  clean_shutdown : shutdown c = Some false;
  clean_next : nextLedger c = next;
  clean_last : lastLedger c = Some last;
  clean_blocking : blocking c = true;
  clean_coming : coming c = ledgers start last;
  clean_ends : ends c;
  clean_exit : processExit c = false;
  clean_handle : handle c = Some (true, None);
  clean_meta : cachedMeta c = meta }.

Lemma stepped_ends c c' : stepped c c' → shutdown c ≠ Some true → ends c → ends c'.
Proof.
  unfold ends, unsent. destruct 1 as [|g Eg Esd|u Eg|u r meta rest Eg Er Ep Eo|u r rest e exit b err Eg Er Eo|u r Eg Ec Eroom];
    intros Hsd H; try done; simpl in *; rewrite ?Eg in H; intros u0 pc0; simpl; specialize (H _ _ eq_refl).
  - intros [= <- <-]. done.
  - intros [= <- <-]. rewrite Er in H. simpl in H. rewrite Ep, Eo in H. by rewrite Ep.
  - intros [= <- <-]. by eexists.
  - destruct (last_result u r) eqn:El; [done|]. intros [= <- <-]. simpl in *. destruct H as (r' & Hr' & Hl).
    destruct (unread_results u (runner c)); [simpl in Hr'; congruence|]. by exists r'.
Qed.

Lemma stepped_exit c c' :
  stepped c c' → Forall (λ r, is_Some (maybe inl r)) (coming c) → processExit c = false → processExit c' = false.
Proof.
  destruct 1 as [|g Eg Esd|u Eg|u r meta rest Eg Er Ep Eo|u r rest e exit b err Eg Er Eo|u r Eg Ec Eroom]; intros Hc Hp; try done.
  exfalso. unfold coming, unsent in Hc. rewrite Eg, Er in Hc. simpl in Hc. apply Forall_app in Hc as [_ Hc].
  destruct Eo as [(E & _ & _)|(eof & E & E2 & _)]; rewrite E, ?E2 in Hc; apply Forall_cons in Hc as [[x Hx] _]; done.
Qed.

Lemma ledgers_inl a b : Forall (λ r, is_Some (maybe inl r)) (ledgers a b).
Proof. apply Forall_fmap, Forall_true. intros x. by eexists. Qed.

#[local] Instance clean_stable next start last meta : Stable (clean next start last meta).
Proof.
  split.
  - intros b c [Hi Hs Hn Hl Hb Hc He Hx Hh Hm]. destruct (sender_step_stepped b c Hi) as (c' & E & Hst). exists c'. split; [done|].
    destruct (stepped_idle c c' Hst Hi) as [Hi' (Sh & Sc & Ss & Sm & Sca & Sb & Sn & Sl)].
    constructor; try congruence.
    + rewrite (stepped_coming c c' Hst); [done|by rewrite Hs].
    + eapply stepped_ends; [done| |done]. by rewrite Hs.
    + eapply stepped_exit; [done| |done]. rewrite Hc. apply ledgers_inl.
  - intros s c [[] ? ? ? ? ? ? ? ? ?]. by constructor.
Qed.

Lemma ledgers_cons a b : a ≤ b → ledgers a b = inl (ledger a) :: ledgers (a + 1) b.
Proof. intros H. unfold ledgers. rewrite seqZ_cons by lia. simpl. do 2 f_equal. f_equal; lia. Qed.
Lemma ledgers_nil b : ledgers (b + 1) b = [].
Proof. unfold ledgers. by rewrite Z.sub_diag. Qed.

(** Waiting for the channel takes one group. *)
Lemma await_clean {A} next start last meta n (ready : Captive → option (Captive * A)) c :
  clean next start last meta c → start ≤ last → fair (S n) c →
  (∀ c, metaC c ≠ [] → clean next start last meta c → is_Some (ready c)) →
  ∃ c1 c2 a s, clean next start last meta c1 ∧ metaC c1 ≠ [] ∧ ready c1 = Some (c2, a) ∧
    await ready c = (set_schedule s c2, Some (Ret a)) ∧ (n ≤ length s)%nat ∧ Forall (λ g, (3 ≤ length g)%nat) s.
Proof.
  intros Hc Hl [Hn Hf] Hr. unfold await. destruct (schedule c) as [|g s]; [simpl in Hn; lia|]. simpl in *.
  apply Forall_cons in Hf as [Hg Hf].
  destruct (run_sender_stable (clean next start last meta) g c Hc) as (c1 & E & H1). rewrite E.
  assert (metaC c1 ≠ []) as Hm.
  { eapply run_fair; [apply Hc|apply Hc| |done|done]. by rewrite (clean_coming _ _ _ _ _ Hc), ledgers_cons by done. }
  destruct (Hr c1 Hm H1) as [[c2 a] E2]. rewrite E2. exists c1, c2, a, s. split_and!; done || lia.
Qed.

Lemma receive_clean next start last meta n c :
  clean next start last meta c → start ≤ last → fair (S n) c →
  ∃ c', receive c = (c', Some (Ret (Some (inl (ledger start))))) ∧ clean next (start + 1) last meta c' ∧ fair n c'.
Proof.
  intros Hc Hl Hf. destruct (await_clean next start last meta n (λ c, match metaC c with
    | r :: rest => Some (set_metaC rest (metaC_closed c) c, Some r)
    | [] => if metaC_closed c then Some (c, None) else None end) c Hc Hl Hf) as (c1 & c2 & a & s & H1 & Hm & E & E2 & Hs).
  { intros c1 Hm _. by destruct (metaC c1). }
  unfold receive. rewrite E2. destruct (metaC c1) as [|r rest] eqn:Em; [done|]. injection E as <- <-.
  destruct H1 as [[J1 J2 J3 J4 J5] Hsd Hn' Hl' Hb Hco He Hx Hh Hme]. unfold coming in Hco. rewrite Em, (ledgers_cons start last Hl) in Hco.
  injection Hco as -> Hco. eexists. split; [done|]. split; [|done].
  constructor; try done. constructor; simpl; auto. rewrite Em in J5. simpl in J5. lia.
Qed.

Lemma run_sender_none g c : sender c = None → run_sender g c = Some c.
Proof. intros Hs. induction g as [|b g IH]; simpl; [done|]. unfold sender_step. by rewrite Hs. Qed.

Lemma clean_sent next last meta c : clean next (last + 1) last meta c → sender c = None.
Proof.
  intros [_ _ _ _ _ Hc He _ _ _]. unfold coming in Hc. rewrite ledgers_nil in Hc. apply app_eq_nil in Hc as [_ Hu].
  unfold ends in He. destruct (sender c) as [[u pc]|]; [|done]. destruct (He u pc eq_refl) as (r & Hr & _). by rewrite Hu in Hr.
Qed.

Lemma Close_clean next last meta n c :
  clean next (last + 1) last meta c → fair (S n) c →
  ∃ c', Close c = (c', Some (Ret tt)) ∧ closed c c' ∧ fair n c'.
Proof.
  intros Hc [Hn Hf]. pose proof (clean_sent _ _ _ _ Hc) as Hg.
  pose proof (post_elim _ _ _ (post_Close c (clean_idle _ _ _ _ _ Hc) ltac:(by rewrite (clean_shutdown _ _ _ _ _ Hc)))) as HC.
  assert (close_outcome c = Ret tt) as Eo by (unfold close_outcome; by rewrite (clean_handle _ _ _ _ _ Hc)). rewrite Eo in HC.
  assert (∃ c' o, Close c = (c', Some o) ∧ fair n c') as (c' & o & E & Hfair).
  { unfold Close, close_session, wait_Wait, await, mbind, Call_bind, put, get. cbn. rewrite (clean_shutdown _ _ _ _ _ Hc). cbn.
    destruct (schedule c) as [|g s]; [simpl in Hn; lia|]. cbn. rewrite run_sender_none by done. cbn. rewrite Hg. cbn.
    pose proof (clean_handle _ _ _ _ _ Hc) as Hh. unfold handle in Hh. unfold close_runner, mbind, Call_bind, get, put. cbn.
    destruct (runner c) as [[r|]|]; [|done..]. injection Hh as Hp Hcl. rewrite Hcl. cbn. apply Forall_cons in Hf as [_ Hf].
    eexists _, _. split; [done|]. simpl in Hn. split; simpl; [lia|done]. }
  destruct (HC c' o E) as [Hcl ->]. by exists c'.
Qed.

(** The session is closed, and the last ledger is at hand. *)
Definition finished (m : LedgerCloseMeta) (c : Captive) : Prop := (∃ c0, closed c0 c) ∧ cachedMeta c = Some m.

Lemma found_clean next last meta m seq n c :
  clean next (seq + 1) last meta c → seq ≤ last → fair (S n) c →
  ∃ c', found m seq c = (c', Some (Ret (Some m))) ∧
    (seq < last → clean next (seq + 1) last (Some m) c' ∧ fair (S n) c') ∧
    (seq = last → finished m c' ∧ fair n c').
Proof.
  intros Hc Hl Hf. unfold found, mbind, Call_bind, put, get. cbn.
  assert (clean next (seq + 1) last (Some m) (set_cachedMeta (Some m) c)) as Hc'.
  { destruct Hc as [[] ? ? ? ? ? ? ? ? ?]. by constructor. }
  rewrite (clean_last _ _ _ _ _ Hc). destruct (decide (seq = last)) as [->|Hne].
  - rewrite bool_decide_true by done. destruct (Close_clean _ _ _ n _ Hc' Hf) as (c' & E & Hcl & Hf').
    unfold wrap. rewrite E. cbn. exists c'. split_and!; [done|lia|]. intros _. split; [|done]. split; [by eexists|].
    by destruct (closed_rest _ _ Hcl) as (-> & _).
  - rewrite bool_decide_false by congruence. cbn. eexists. split_and!; [done| |lia]. intros _. by split.
Qed.

(** The search for a ledger takes a group for each ledger on the way, and one
    more to close the session after the last. *)
Lemma loop_clean k fuel next last meta n c :
  clean next next last meta c → next + Z.of_nat k ≤ last → 0 ≤ next → last + 1 < 2 ^ 32 → (k < fuel)%nat → fair (S k + S n) c →
  let sequence := next + Z.of_nat k in
  ∃ c', GetLedger_loop fuel sequence c = (c', Some (Ret (Some (ledger sequence)))) ∧
    (sequence < last → clean (sequence + 1) (sequence + 1) last (Some (ledger sequence)) c' ∧ fair (S n) c') ∧
    (sequence = last → finished (ledger sequence) c' ∧ fair n c').
Proof.
  revert fuel next c. induction k as [|k IH]; intros fuel next c Hc Hl H0 Hu Hfuel Hf sequence; (destruct fuel as [|fuel]; [lia|]); cbn [GetLedger_loop].
  all: destruct (receive_clean next next last meta _ c Hc ltac:(lia) Hf) as (c1 & E1 & H1 & Hf1).
  all: unfold mbind, Call_bind, get, put, mret, Call_ret in *; rewrite (clean_blocking _ _ _ _ _ Hc), E1.
  all: rewrite ledger_sequence, (clean_next _ _ _ _ _ H1), Z.eqb_refl; cbn [negb].
  all: rewrite (clean_next _ _ _ _ _ H1).
  all: assert (clean (next + 1) (next + 1) last meta (set_range (u32 (next + 1)) (lastLedger c1) c1)) as H2.
  1,3: (rewrite u32_small by (unfold is_u32; lia); destruct H1 as [[] ? ? ? ? ? ? ? ? ?]; constructor; try done; constructor; simpl; auto; by intros; congruence).
  - unfold sequence. rewrite Z.add_0_r, Z.eqb_refl.
    apply (found_clean (next + 1) last meta (ledger next) next n _ H2); [lia|done].
  - unfold sequence. rewrite (proj2 (Z.eqb_neq next _)) by lia.
    destruct (IH fuel (next + 1) _ H2) as (c' & E & Hlt & Heq); [lia..|done|].
    replace (next + 1 + Z.of_nat k) with (next + Z.of_nat (S k)) in * by lia. by exists c'.
Qed.

Lemma GetLedger_clean k next last meta n c :
  let sequence := next + Z.of_nat k in
  clean next next last meta c → cached sequence c = None → sequence ≤ last → 0 < next → last + 1 < 2 ^ 32 → fair (S k + S n) c →
  ∃ c', GetLedger sequence c = (c', Some (Ret (Some (ledger sequence)))) ∧
    (sequence < last → clean (sequence + 1) (sequence + 1) last (Some (ledger sequence)) c' ∧ fair (S n) c') ∧
    (sequence = last → finished (ledger sequence) c' ∧ fair n c').
Proof.
  intros sequence Hc Hca Hl H0 Hu Hf. unfold GetLedger, mbind, Call_bind, get. rewrite Hca. unfold isClosed.
  rewrite (clean_next _ _ _ _ _ Hc), (proj2 (Z.eqb_neq _ _)), (proj2 (Z.ltb_ge _ _)) by lia.
  eapply loop_clean; [done|lia..| |done]. destruct Hf as [Hf _]. lia.
Qed.

(** A caller that takes one ledger after the other. *)
Fixpoint GetLedgers (sequences : list Z) : Call (list (option LedgerCloseMeta)) :=
  match sequences with
  | [] => mret []
  | s :: sequences => m ← GetLedger s; ms ← GetLedgers sequences; mret (m :: ms)
  end.

Lemma GetLedgers_clean k last next meta c :
  clean next next last meta c → cached next c = None → next + Z.of_nat k = last → 0 < next → last + 1 < 2 ^ 32 →
  fair (k + 2) c →
  ∃ c', GetLedgers (seqZ next (last + 1 - next)) c = (c', Some (Ret (Some ∘ ledger <$> seqZ next (last + 1 - next)))) ∧
    finished (ledger last) c'.
Proof.
  revert next meta c. induction k as [|k IH]; intros next meta c Hc Hca Hl H0 Hu Hf.
  - destruct (GetLedger_clean 0 next last meta 0 c) as (c' & E & _ & Hfin); rewrite ?Z.add_0_r in *; try done || lia.
    subst next. replace (last + 1 - last) with (Z.of_nat 1) by lia. cbn [seqZ]. exists c'.
    change (seqZ last (Z.of_nat 1)) with [Z.of_nat 0 + last]. rewrite Z.add_0_l. cbn [GetLedgers].
    unfold mbind, Call_bind. rewrite E. cbn. split; [done|by apply Hfin].
  - destruct (GetLedger_clean 0 next last meta (k + 1) c) as (c1 & E & Hlt & _); rewrite ?Z.add_0_r in *; try done || lia.
    { eapply (eq_ind _ (λ n, fair n c)); [exact Hf|lia]. }
    destruct Hlt as [Hc1 Hf1]; [lia|].
    destruct (IH (next + 1) (Some (ledger next)) c1 Hc1) as (c' & E' & Hfin); [|lia..| |].
    + unfold cached. rewrite (clean_meta _ _ _ _ _ Hc1), ledger_sequence. by rewrite (proj2 (Z.eqb_neq _ _)) by lia.
    + eapply (eq_ind _ (λ n, fair n c1)); [exact Hf1|lia].
    + exists c'. split; [|done]. rewrite seqZ_cons by lia. replace (Z.pred (last + 1 - next)) with (last + 1 - (next + 1)) by lia.
      rewrite <- Z.add_1_r. cbn [GetLedgers]. unfold mbind, Call_bind. rewrite E, E'. done.
Qed.

Lemma results_ledgers n a u more :
  0 < u → a + Z.of_nat n = u →
  results u (((Frame ∘ ledger) <$> seqZ a (Z.of_nat (S n))) ++ more) = (inl ∘ ledger) <$> seqZ a (Z.of_nat (S n)).
Proof.
  intros Hu. revert a. induction n as [|n IH]; intros a Ha.
  - rewrite (seqZ_cons a) by lia. simpl. rewrite ledger_sequence, (proj2 (Z.eqb_neq u 0)), (proj2 (Z.leb_le u a)) by lia. done.
  - rewrite (seqZ_cons a) by lia. replace (Z.pred (Z.of_nat (S (S n)))) with (Z.of_nat (S n)) by lia.
    rewrite !fmap_cons. cbn [app results compose last_result]. rewrite ledger_sequence, (proj2 (Z.leb_gt u a)), andb_false_r by lia.
    f_equal. apply IH. lia.
Qed.

Lemma start_clean first last r fs c :
  metaPipe r = true → close r = None → output r = ((Frame ∘ ledger) <$> seqZ first (last + 1 - first)) ++ fs →
  0 < first → first ≤ last → runner c = Some (Some r) →
  clean first first last (cachedMeta c) (start_session first (Some last) true last c).
Proof.
  intros Hp Hcl Ho H0 Hl Hr.
  assert (unread_results last (runner c) = ledgers first last) as Hun.
  { rewrite Hr. simpl. rewrite Hp, Ho. unfold ledgers. replace (last + 1 - first) with (Z.of_nat (S (Z.to_nat (last - first)))) by lia.
    apply results_ledgers; lia. }
  constructor; simpl; try done.
  - constructor; simpl; try done; [congruence|by split; [|exists r]|lia].
  - unfold ends, unsent. simpl. intros u pc [= <- <-]. rewrite Hun. unfold ledgers.
    replace (last + 1 - first) with (Z.of_nat (S (Z.to_nat (last - first)))) by lia. rewrite seqZ_S, fmap_app, last_app. cbn.
    eexists. split; [done|]. simpl. rewrite ledger_sequence. rewrite (proj2 (Z.eqb_neq _ _)), (proj2 (Z.leb_le _ _)) by lia. done.
  - unfold handle. simpl. by rewrite Hr, Hp, Hcl.
Qed.

Lemma first_result_clean first last meta n c :
  clean first first last meta c → first ≤ last → fair (S n) c →
  ∃ c', first_result c = (c', Some (Ret false)) ∧ clean first first last meta c' ∧ fair n c'.
Proof.
  intros Hc Hl Hf. unfold first_result.
  destruct (await_clean first first last meta n (λ c, if shutting_down c then Some (c, true) else
    if (0 <? length (metaC c))%nat then Some (c, false) else None) c Hc Hl Hf) as (c1 & c2 & a & s & H1 & Hm & E & E2 & Hs).
  { intros c1 Hm H1. unfold shutting_down. rewrite (clean_shutdown _ _ _ _ _ H1), bool_decide_false by done. by destruct (metaC c1). }
  rewrite E2. unfold shutting_down in E. rewrite (clean_shutdown _ _ _ _ _ H1), bool_decide_false in E by done.
  destruct (metaC c1); [done|]. injection E as <- <-. eexists. split; [done|]. split; [|done].
  by apply (stable_schedule (I := clean first first last meta)).
Qed.

Lemma observe_clean {A} (f : Captive → A) first last meta n c :
  clean first first last meta c → first ≤ last → fair (S n) c →
  ∃ c' c1, observe f c = (c', Some (Ret (f c1))) ∧ clean first first last meta c1 ∧ clean first first last meta c' ∧ fair n c'.
Proof.
  intros Hc Hl Hf. unfold observe.
  destruct (await_clean first first last meta n (λ c, Some (c, f c)) c Hc Hl Hf) as (c1 & c2 & a & s & H1 & Hm & E & E2 & Hs); [by eexists|].
  injection E as <- <-. eexists _, c1. rewrite E2. split_and!; [done|done| |done].
  by apply (stable_schedule (I := clean first first last meta)).
Qed.

(** A client that prepares a range and takes its ledgers *)
Definition replay `{NW : Network} (w : World) (from to : Z) : Call (list (option LedgerCloseMeta)) :=
  _ ← PrepareRange w (BoundedRange from to); GetLedgers (seqZ from (to + 1 - from)).

Lemma roundDown_bounds from :
  2 ≤ from → 2 ≤ roundDownToFirstReplayAfterCheckpointStart from ≤ from.
Proof.
  intros H. unfold roundDownToFirstReplayAfterCheckpointStart, ledgersPerCheckpoint. destruct (Z.eqb_spec (from / 64 * 64) 0); zlia.
Qed.

(** The end of a range that the archive does not reach is cut. *)
Definition cut (latest to : Z) : Z := if latest <? to then latest else to.

Lemma openOffline_runs `{NW : Network} w c0 c from to latest r fs :
  closed c0 c → getLatestCheckpointSequence w = Ret latest → from ≤ latest →
  runnerFactory w [] = inr r → catchup r from (cut latest to) = inr fs →
  ∃ c', openOfflineReplaySubprocess w from to c =
    (start_session (roundDownToFirstReplayAfterCheckpointStart from) (Some (cut latest to)) true (cut latest to) c', Some (Ret tt)) ∧
    runner c' = Some (Some (with_output r fs)) ∧ schedule c' = schedule c ∧ cachedMeta c' = cachedMeta c.
Proof.
  intros [Hn Hl Hs Hr Hg Hm _] Hla Hf Hfa Hcu. unfold cut in *.
  unfold openOfflineReplaySubprocess, wrap, Close, close_session, close_runner, create_runner, start_runner, mbind, Call_bind, put, get, lift.
  cbn. rewrite Hs. cbn. rewrite Hr. cbn. rewrite Hla, (proj2 (Z.ltb_ge latest from)) by lia. cbn.
  rewrite Hr, Hfa. cbn. rewrite Hcu. cbn. eexists. split; [done|]. by split_and!.
Qed.

Lemma GetLedgers_from k0 k next last meta c :
  let sequence := next + Z.of_nat k0 in
  clean next next last meta c → cached sequence c = None → sequence + Z.of_nat k = last → 0 < next → last + 1 < 2 ^ 32 →
  fair (k0 + k + 2) c →
  ∃ c', GetLedgers (seqZ sequence (last + 1 - sequence)) c = (c', Some (Ret (Some ∘ ledger <$> seqZ sequence (last + 1 - sequence)))) ∧
    finished (ledger last) c'.
Proof.
  intros sequence Hc Hca Hl H0 Hu Hf. destruct k as [|k].
  - destruct (GetLedger_clean k0 next last meta 0 c) as (c' & E & _ & Hfin); [done|done|lia..| |].
    { by replace (S k0 + 1)%nat with (k0 + 0 + 2)%nat by lia. }
    fold sequence in E, Hfin. rewrite Z.add_0_r in Hl. rewrite Hl in *. exists c'. rewrite seqZ_cons by lia.
    replace (Z.pred (last + 1 - last)) with 0 by lia. cbn [GetLedgers seqZ]. unfold mbind, Call_bind. rewrite E. cbn.
    split; [done|by apply Hfin].
  - destruct (GetLedger_clean k0 next last meta (k + 1) c) as (c1 & E & Hlt & _); [done|done|lia..| |].
    { by replace (S k0 + S (k + 1))%nat with (k0 + S k + 2)%nat by lia. }
    fold sequence in E, Hlt. destruct Hlt as [Hc1 Hf1]; [lia|].
    destruct (GetLedgers_clean k last (sequence + 1) (Some (ledger sequence)) c1 Hc1) as (c' & E' & Hfin); [|lia..| |].
    + unfold cached. rewrite (clean_meta _ _ _ _ _ Hc1), ledger_sequence. by rewrite (proj2 (Z.eqb_neq _ _)) by lia.
    + by replace (k + 2)%nat with (S (k + 1))%nat by lia.
    + exists c'. split; [|done]. rewrite (seqZ_cons sequence) by lia.
      replace (Z.pred (last + 1 - sequence)) with (last + 1 - (sequence + 1)) by lia.
      rewrite <- Z.add_1_r. cbn [GetLedgers]. unfold mbind, Call_bind. rewrite E, E'. done.
Qed.

(** The first ledger may be the one in the cache, if others follow. *)
Lemma GetLedgers_prepared from next last meta c :
  clean next next last meta c → 0 < next ≤ from → from ≤ last → last + 1 < 2 ^ 32 →
  (∀ m, cached from c = Some m → m = ledger from ∧ from < last) → fair (Z.to_nat (last - next) + 2) c →
  ∃ c', GetLedgers (seqZ from (last + 1 - from)) c = (c', Some (Ret (Some ∘ ledger <$> seqZ from (last + 1 - from)))) ∧
    finished (ledger last) c'.
Proof.
  intros Hc Hn Hf Hu Hca Hfair.
  assert (∀ i, next ≤ i ≤ last → cached i c = None → ∃ c', GetLedgers (seqZ i (last + 1 - i)) c =
    (c', Some (Ret (Some ∘ ledger <$> seqZ i (last + 1 - i)))) ∧ finished (ledger last) c') as H.
  { intros i Hi Hno. assert (i = next + Z.of_nat (Z.to_nat (i - next))) as Ei by lia.
    pose proof (GetLedgers_from (Z.to_nat (i - next)) (Z.to_nat (last - i)) next last meta c) as H. cbv zeta in H.
    rewrite <- Ei in H. apply H; [done..|lia|lia|lia|].
    by replace (Z.to_nat (i - next) + Z.to_nat (last - i) + 2)%nat with (Z.to_nat (last - next) + 2)%nat by lia. }
  destruct (cached from c) as [m|] eqn:Em; [|apply H; [lia|done]]. destruct (Hca m eq_refl) as [-> Hlt].
  destruct (H (from + 1)) as (c' & E & Hfin); [lia| |].
  - unfold cached in *. destruct (cachedMeta c) as [m|]; [|done]. destruct (Z.eqb_spec from (LedgerSequence m)); [|done].
    by rewrite (proj2 (Z.eqb_neq _ _)) by lia.
  - exists c'. split; [|done]. rewrite (seqZ_cons from) by lia.
    replace (Z.pred (last + 1 - from)) with (last + 1 - (from + 1)) by lia. rewrite <- Z.add_1_r.
    cbn [GetLedgers]. unfold mbind, Call_bind. unfold GetLedger at 1, mbind, Call_bind, get. rewrite Em. cbn. by rewrite E.
Qed.

(** C16: a bounded range is replayed to its end.  On a closed backend, from ledger
    2 on, when the runner can be created, the archive reaches the end of the
    range, the subprocess writes the ledgers from the start of the checkpoint on
    and closing its runner gives no error, a client that prepares the range and
    then asks for one ledger after the other gets exactly the ledgers of the
    range, under every schedule in which the goroutine has the steps that it
    needs; no call waits forever, and with the last ledger the session is closed
    and the runner is released.  The backend may have a ledger of an earlier
    session in its cache, but for one case: a range of one ledger that is in the
    cache; if the first of several ledgers is in the cache it must be the ledger
    that the subprocess would write. *)
Theorem BoundedRange_replayed `{NW : Network} w c0 c from to latest r more :
  let first := roundDownToFirstReplayAfterCheckpointStart from in
  closed c0 c → (∀ m, cached from c = Some m → m = ledger from ∧ from < to) → 2 ≤ from → from ≤ to → to + 1 < 2 ^ 32 →
  getLatestCheckpointSequence w = Ret latest → to ≤ latest →
  runnerFactory w [] = inr r → metaPipe r = true → close r = None →
  catchup r from to = inr (((Frame ∘ ledger) <$> seqZ first (to + 1 - first)) ++ more) →
  fair (Z.to_nat (to - first) + 4) c →
  ∃ c', replay w from to c = (c', Some (Ret (Some ∘ ledger <$> seqZ from (to + 1 - from)))) ∧ finished (ledger to) c'.
Proof.
  intros first Hcl Hca Hf Hft Ht Hla Htl Hfa Hp Hclose Hcu Hfair.
  pose proof (roundDown_bounds from Hf) as Hfirst. fold first in Hfirst.
  assert (cut latest to = to) as Hcut by (unfold cut; by rewrite (proj2 (Z.ltb_ge latest to))).
  destruct (openOffline_runs w c0 c from to latest r _ Hcl Hla ltac:(lia) Hfa ltac:(rewrite Hcut; exact Hcu)) as (c1 & E & Hr1 & Hs1 & Hm1).
  fold first in E. rewrite Hcut in E.
  pose proof (start_clean first to (with_output r _) more c1 Hp Hclose eq_refl ltac:(lia) ltac:(lia) Hr1) as Hc2.
  revert Hc2 E. assert (fair (Z.to_nat (to - first) + 4) (start_session first (Some to) true to c1)) as Hf2 by (unfold fair; simpl; by rewrite Hs1).
  revert Hf2. generalize (start_session first (Some to) true to c1). intros c2 Hf2 Hc2 E. rewrite Hm1 in Hc2.
  replace (Z.to_nat (to - first) + 4)%nat with (S (S (Z.to_nat (to - first) + 2))) in Hf2 by lia.
  destruct (first_result_clean first to _ _ c2 Hc2 ltac:(lia) Hf2) as (c3 & E3 & Hc3 & Hf3).
  destruct (observe_clean (λ c, if processExit c then Some (processErr c) else None) first to _ _ c3 Hc3 ltac:(lia) Hf3)
    as (c5 & c4 & E5 & Hc4 & Hc5 & Hf5). rewrite (clean_exit _ _ _ _ _ Hc4) in E5.
  assert (PrepareRange w (BoundedRange from to) c = (c5, Some (Ret tt))) as EP.
  { unfold PrepareRange, mbind, Call_bind, get. cbn [bounded LedgerBackend.from LedgerBackend.to BoundedRange].
    unfold IsPrepared. rewrite (closed_next _ _ Hcl). cbn [Z.eqb]. unfold wrap. rewrite E.
    pose proof (clean_handle _ _ _ _ _ Hc2) as Hh. unfold handle in Hh. destruct (runner c2) as [[rn|]|]; [|done..].
    injection Hh as Hpn _. rewrite Hpn. cbn [negb]. rewrite E3. rewrite E5. done. }
  unfold replay, mbind, Call_bind. rewrite EP. apply (GetLedgers_prepared from first to (cachedMeta c)); [|lia..| |].
  - done.
  - intros m Hm. apply Hca. unfold cached in *. by rewrite (clean_meta _ _ _ _ _ Hc5) in Hm.
  - done.
Qed.

Lemma pull_past next last sequence :
  0 ≤ next ≤ last + 1 → last < sequence → last + 1 < 2 ^ 32 → pull next sequence (ledgers next last) = None.
Proof.
  intros Hn Hs Hu. remember (Z.to_nat (last + 1 - next)) as n eqn:En. revert next Hn En. induction n as [|n IH]; intros next Hn En.
  - assert (next = last + 1) as -> by lia. by rewrite ledgers_nil.
  - rewrite ledgers_cons by lia. cbn [pull]. rewrite ledger_sequence, Z.eqb_refl, (proj2 (Z.eqb_neq next sequence)) by lia. cbn [negb].
    rewrite u32_small by (unfold is_u32; lia). apply IH; lia.
Qed.

Lemma PrepareRange_clean `{NW : Network} w c0 c from to latest r more :
  let first := roundDownToFirstReplayAfterCheckpointStart from in
  let last := cut latest to in
  closed c0 c → 2 ≤ from → from ≤ last → getLatestCheckpointSequence w = Ret latest →
  runnerFactory w [] = inr r → metaPipe r = true → close r = None →
  catchup r from last = inr (((Frame ∘ ledger) <$> seqZ first (last + 1 - first)) ++ more) →
  post (PrepareRange w (BoundedRange from to)) c (λ c' o, o = Ret tt ∧ clean first first last (cachedMeta c) c').
Proof.
  intros first last Hcl Hf Hft Hla Hfa Hp Hclose Hcu. pose proof (roundDown_bounds from Hf) as Hfirst. fold first in Hfirst.
  assert (from ≤ latest) as Hfl by (unfold last, cut in Hft; destruct (Z.ltb_spec latest to); lia).
  destruct (openOffline_runs w c0 c from to latest r _ Hcl Hla Hfl Hfa Hcu) as (c1 & E & Hr1 & _ & Hm1). fold first last in E.
  pose proof (start_clean first last (with_output r _) more c1 Hp Hclose eq_refl ltac:(lia) ltac:(lia) Hr1) as Hc2.
  rewrite Hm1 in Hc2. revert Hc2 E. generalize (start_session first (Some last) true last c1). intros c2 Hc2 E.
  unfold PrepareRange. apply post_bind. cbn [get post bounded LedgerBackend.from LedgerBackend.to BoundedRange].
  unfold IsPrepared. rewrite (closed_next _ _ Hcl). cbn [Z.eqb]. apply post_bind, post_wrap. unfold post at 1. rewrite E. cbn.
  apply post_bind. cbn. pose proof (clean_handle _ _ _ _ _ Hc2) as Hh. unfold handle in Hh. destruct (runner c2) as [[rn|]|]; [|done..].
  injection Hh as Hpn _. rewrite Hpn. cbn [negb]. apply post_bind. unfold first_result.
  apply (post_await (clean first first last (cachedMeta c))); [done|]. intros c3 c4 b s H3. unfold shutting_down.
  rewrite (clean_shutdown _ _ _ _ _ H3), bool_decide_false by done. destruct (0 <? length (metaC c3))%nat; [|done].
  intros [= <- <-]. apply post_bind. apply (post_await (clean first first last (cachedMeta c))); [by apply stable_schedule|].
  intros c4 c5 ex s2 H4 [= <- <-]. rewrite (clean_exit _ _ _ _ _ H4). cbn. split; [done|by apply stable_schedule].
Qed.

(** C19: beyond the end of a bounded range a call waits forever.  After the range
    from [from] to [to] was prepared on a closed backend, and the subprocess writes
    the ledgers that it was started for, a [GetLedger] of a ledger after the last
    one of the session, and not the one left in the cache by an earlier session,
    never returns, whatever the schedule: the goroutine has returned, and
    nobody sends.  The last ledger is the one of the archive when that is before
    [to], and [IsPrepared] says that the longer range is prepared. *)
Theorem past_range_waits `{NW : Network} w c0 c from to latest r more c' o :
  let first := roundDownToFirstReplayAfterCheckpointStart from in
  let last := cut latest to in
  closed c0 c → 2 ≤ from → from ≤ last → last + 1 < 2 ^ 32 → getLatestCheckpointSequence w = Ret latest →
  runnerFactory w [] = inr r → metaPipe r = true → close r = None →
  catchup r from last = inr (((Frame ∘ ledger) <$> seqZ first (last + 1 - first)) ++ more) →
  PrepareRange w (BoundedRange from to) c = (c', Some o) →
  o = Ret tt ∧ lastLedger c' = Some last ∧
  ∀ sequence, last < sequence → cached sequence c = None →
    IsPrepared (BoundedRange from sequence) c' = true ∧ ∀ groups, (GetLedger sequence (set_schedule groups c')).2 = None.
Proof.
  intros first last Hcl Hf Hft Hu Hla Hfa Hp Hclose Hcu E. pose proof (roundDown_bounds from Hf) as Hfirst. fold first in Hfirst.
  destruct (post_elim _ _ _ (PrepareRange_clean w c0 c from to latest r more Hcl Hf Hft Hla Hfa Hp Hclose Hcu) _ _ E) as [-> Hc].
  fold first last in Hc. split; [done|]. split; [apply Hc|]. intros sequence Hs Hca. split.
  - unfold IsPrepared. rewrite (clean_next _ _ _ _ _ Hc), (clean_last _ _ _ _ _ Hc), (proj2 (Z.eqb_neq first 0)) by lia. cbn.
    by rewrite (proj2 (Z.leb_le first from)), (proj2 (Z.leb_le first last)) by lia.
  - intros groups. pose proof (stable_schedule groups c' Hc) as Hc'. revert Hc'. generalize (set_schedule groups c'). intros c2 Hc2.
    destruct (GetLedger sequence c2) as [c3 [o3|]] eqn:E3; [|done]. exfalso. revert c3 o3 E3. apply (post_elim _ _ (λ _ _, False)).
    assert (cached sequence c2 = None) as Hca2 by (unfold cached in *; by rewrite (clean_meta _ _ _ _ _ Hc2)).
    apply post_GetLedger; rewrite ?Hca2, ?(clean_next _ _ _ _ _ Hc2); [done|lia|lia|]. intros _ _ _.
    eapply post_mono; [apply post_loop; apply Hc2|]. intros c3 o3 G.
    assert (pull (nextLedger c2) sequence (coming c2) = None) as Hpull.
    { rewrite (clean_next _ _ _ _ _ Hc2), (clean_coming _ _ _ _ _ Hc2). apply pull_past; lia. }
    pose proof (clean_blocking _ _ _ _ _ Hc2). destruct G; congruence.
Qed.
End bounded.

(** ** Closing *)

(** The goroutine waits for the subprocess to write. *)
Definition silent (c : Captive) : Prop :=
  ∃ u r, sender c = Some (u, Reading) ∧ runner c = Some (Some r) ∧ metaPipe r = true ∧ output r = [].

Lemma silent_step b c : silent c → sender_step b c = Some c.
Proof. intros (u & r & Hs & Hr & Hp & Ho). unfold sender_step, readLedgerMetaFromPipe. by rewrite Hs, Hr, Hp, Ho. Qed.

#[local] Instance silent_stable : Stable silent.
Proof. split; [intros b c H; exists c; by rewrite silent_step|done]. Qed.

(** With the shutdown channel closed, a goroutine that does not wait for the
    subprocess returns within two steps. *)
Definition steps_left (c : Captive) : nat := match sender c with None => 0 | Some (_, Reading) => 2 | Some _ => 1 end.

Lemma shutdown_step c :
  idle c → shutdown c = Some true → ¬ silent c →
  ∃ c', sender_step true c = Some c' ∧ idle c' ∧ shutdown c' = Some true ∧ ¬ silent c' ∧ (steps_left c' ≤ pred (steps_left c))%nat.
Proof.
  intros Hi Hs Hns. destruct (sender_step_stepped true c Hi) as (c' & E & Hst). destruct (stepped_idle c c' Hst Hi) as [Hi' (_ & _ & Hs' & _)].
  exists c'. split_and!; [done|done|congruence|..]; revert E; unfold sender_step, shutting_down; rewrite Hs, bool_decide_true by done; cbn [andb orb].
  all: destruct (sender c) as [[u [| |r]]|] eqn:Eg; try (intros [= <-]; try (intros (? & ? & Hx & _); simpl in Hx; congruence); unfold steps_left; simpl; rewrite ?Eg; lia).
  all: destruct Hi as [_ _ H3 _ _], (H3 ltac:(by rewrite Hs)) as (_ & r & Hr); rewrite Hr.
  all: destruct (readLedgerMetaFromPipe r) as [[fs [m|[e [ex|]]]]|] eqn:Ep; intros [= <-];
    try (intros (? & ? & Hx & _); simpl in Hx; congruence); try (unfold steps_left; simpl; rewrite Eg; lia); try done.
  exfalso. apply Hns. exists u, r. unfold readLedgerMetaFromPipe in Ep. destruct (metaPipe r); [|done].
  by destruct (output r) as [|[|] ?].
Qed.

Lemma run_shutdown g c :
  idle c → shutdown c = Some true → ¬ silent c → (2 ≤ length g)%nat → Forall (λ b, b = true) g →
  ∃ c', run_sender g c = Some c' ∧ sender c' = None.
Proof.
  intros Hi Hs Hns Hg Ht.
  assert (steps_left c ≤ length g)%nat as Hl by (unfold steps_left; destruct (sender c) as [[? [| |]]|]; lia). clear Hg.
  revert c Hi Hs Hns Hl. induction Ht as [|b g -> _ IH]; intros c Hi Hs Hns Hl; simpl in *.
  - exists c. split; [done|]. unfold steps_left in Hl. by destruct (sender c) as [[? [| |]]|]; [lia..|].
  - destruct (shutdown_step c Hi Hs Hns) as (c1 & -> & Hi1 & Hs1 & Hn1 & Hl1). apply IH; auto. lia.
Qed.

(** C40: what [Close] does.  When it returns, the goroutine has returned, the
    runner was closed and released, and the error is that of the runner.  It
    returns as soon as the goroutine sees the shutdown channel; but a goroutine
    that reads from the pipe of a subprocess that is silent does not see it, and
    the runner, which would end the subprocess, is only closed afterwards: such a
    [Close] never returns. *)
Theorem Close_spec `{NW : Network} path c groups :
  reached path c →
  (∀ c' o, Close (set_schedule groups c) = (c', Some o) → closed c c' ∧ o = close_outcome c) ∧
  (silent c → (Close (set_schedule groups c)).2 = None) ∧
  (¬ silent c → (∃ g gs, groups = g :: gs ∧ (2 ≤ length g)%nat ∧ Forall (λ b, b = true) g) →
   ∃ c' o, Close (set_schedule groups c) = (c', Some o)).
Proof.
  intros Hg%reached_good. pose proof (set_schedule_good groups c Hg) as [Hi Hs]. split_and!.
  - apply post_elim. eapply post_mono; [by apply post_Close|]. intros c' o [[? ? ? ? ? ? ?] ->]. by split.
  - intros Hsi. pose proof (stable_schedule (I := silent) groups c Hsi) as Hsi'. unfold Close, mbind, Call_bind, put, get.
    assert (shutdown c = Some false) as Hsd.
    { destruct Hsi as (u & r & Hse & _). destruct Hg as [[_ H2 _ _ _] H]. specialize (H2 ltac:(by rewrite Hse)). by destruct (shutdown c) as [[]|]. }
    unfold close_session, mbind, Call_bind, get, put. cbn. rewrite Hsd. cbn. unfold wait_Wait, await. cbn.
    assert (∀ c0, silent c0 → (await_in groups (λ c1, match sender c1 with None => Some (c1, tt) | Some _ => None end) c0).2 = None) as Hw.
    { clear. induction groups as [|g gs IH]; intros c0 Hc0; [done|]. simpl.
      destruct (run_sender_stable silent g c0 Hc0) as (c1 & -> & H1). destruct H1 as (u & r & Hse & H1). rewrite Hse. apply IH. by exists u, r. }
    match goal with |- context [await_in groups ?f ?c2] => specialize (Hw c2 Hsi); destruct (await_in groups f c2) as [c3 o3] end.
    simpl in Hw. by rewrite Hw.
  - intros Hns (g & gs & -> & Hlen & Ht). unfold Close, close_session, close_runner, mbind, Call_bind, put, get. cbn.
    destruct Hg as [Hi0 Hs0]. destruct (shutdown c) as [[]|] eqn:Esd; [done| |].
    + unfold wait_Wait, await. cbn.
      match goal with |- context [run_sender g ?c2] => destruct (run_shutdown g c2) as (c3 & E3 & Hn3) end; try done.
      { destruct Hi0 as [? ? Hsh ? ?]. constructor; simpl; auto. rewrite Esd in *. intros _. by apply Hsh. }
      rewrite E3. cbn. rewrite Hn3. cbn. destruct (runner c3) as [[r|]|]; [destruct (close r)|..]; by do 2 eexists.
    + unfold mret, Call_ret. cbn. destruct (runner c) as [[r|]|] eqn:Er; simpl; rewrite ?Er; [destruct (close r)|..]; by do 2 eexists.
Qed.

(** ** Unbounded ranges *)

(** The session starts less than two checkpoints before the ledger, and not
    before ledger 2. *)
Lemma runFromParams_spec w from start hash next :
  is_u32 from → 3 ≤ from → runFromParams w from = Ret (start, hash, next) → 2 ≤ next < from ∧ from - next < 128.
Proof.
  intros Hu Hf. unfold runFromParams. destruct (Z.eqb_spec from 1); [lia|]. destruct (Z.leb_spec from 63) as [H63|H63].
  - destruct (map_fail _ _); simpl; [|done..]. intros [= _ _ <-]. lia.
  - set (f := if IsCheckpoint from then from else PrevCheckpoint from).
    assert (63 ≤ f ≤ from ∧ from - f < 64) as Hfc.
    { unfold f. pose proof (PrevCheckpoint_spec from Hu) as ([[Hp0 Hp1] Hpm] & Hle & _ & Hmax).
      destruct (IsCheckpoint from) eqn:E; [lia|]. specialize (Hle ltac:(lia)).
      assert (checkpoint ((from + 1) / 64 * 64 - 1)) as Hc by (unfold checkpoint, is_u32 in *; split; zlia).
      specialize (Hmax _ Hc ltac:(zlia)). zlia. }
    destruct (map_fail _ _); simpl; [|done..]. intros [= _ _ <-]. unfold is_u32 in *.
    rewrite u32_small by (unfold is_u32; lia). destruct (Z.ltb_spec (f - 63) 2); lia.
Qed.

Lemma pull_next next sequence l m next' l' : pull next sequence l = Some (Ret m, next', l') → next' = u32 (sequence + 1).
Proof.
  revert next. induction l as [|[m'|e] l IH]; intros next; simpl; [done| |done].
  destruct (Z.eqb_spec (LedgerSequence m') next) as [<-|]; simpl; [|done].
  destruct (Z.eqb_spec (LedgerSequence m') sequence) as [->|]; [by intros [= _ <- _]|apply IH].
Qed.

(** An online session whose ledger [from] is at hand. *)
Definition at_hand (from : Z) (c : Captive) : Prop :=
  idle c ∧ shutdown c = Some false ∧ nextLedger c = u32 (from + 1) ∧ lastLedger c = None ∧ blocking c = false ∧
  ∃ m, cachedMeta c = Some m ∧ LedgerSequence m = from.

Lemma open_at_hand from c c' next l meta : at_hand from c → open_at c c' next l meta → next = nextLedger c → meta = cachedMeta c → at_hand from c'.
Proof.
  intros (_ & _ & Hn & Hl & Hb & m & Hm & Hs) [Oi Os On _ Om (Ol & Ob & _)] -> ->. unfold at_hand. split_and!; try congruence.
  exists m. by rewrite Om.
Qed.

Lemma fast_forward_spec from c :
  idle c → shutdown c = Some false → lastLedger c = None → nextLedger c < from → nextLedger c ≠ 0 → cached from c = None →
  post (fast_forward from) c (λ c' o, o = Ret tt → at_hand from c').
Proof.
  intros Hi Hs Hl Hn H0 Hca. unfold fast_forward. apply post_bind. cbn. rewrite (proj2 (Z.ltb_lt _ _)) by done.
  apply post_bind. cbn. apply post_bind, post_try.
  assert (idle (set_blocking true c)) as Hi' by by destruct Hi.
  apply post_GetLedger; change (cached from (set_blocking true c)) with (cached from c); [by rewrite Hca|done|intros; simpl in *; lia|].
  intros _ _ _. eapply post_mono; [by apply post_loop|]. intros c' o G.
  destruct G as [m next l Hp _ O|m next l _ El _|next l Eb _ _|e next l _ _].
  - apply post_bind. cbn. intros _. pose proof (pull_sequence _ _ _ _ _ _ Hp) as Hseq. apply pull_next in Hp as ->.
    destruct O as [Oi Os On _ Om (Ol & _)]. simpl in Ol. unfold at_hand. simpl. split_and!; try congruence; [by destruct Oi|]. by exists m.
  - simpl in El. congruence.
  - done.
  - by apply post_bind.
Qed.

Lemma openOnline_spec `{NW : Network} w from c :
  good c → is_u32 from → 3 ≤ from → cached from c = None → IsPrepared (UnboundedRange from) c = false →
  post (openOnlineReplaySubprocess w from) c (λ c' o, o = Ret tt →
    at_hand from c' ∧ ∃ p, runFromParams w from = Ret p).
Proof.
  intros [Hi Hs] Hu Hf Hca Hprep. unfold openOnlineReplaySubprocess. apply post_bind. cbn [get post].
  assert (bool_decide (lastLedger c = None) && negb (nextLedger c =? 0) && (nextLedger c <=? from) = false) as ->.
  { unfold IsPrepared in Hprep. simpl in Hprep. destruct (nextLedger c =? 0), (lastLedger c); try done; by rewrite ?andb_false_r. }
  apply post_bind, post_wrap. eapply post_mono; [by apply post_Close|]. intros c1 o [Hc ->].
  destruct (close_outcome c); cbn; [|done..]. apply post_bind. cbn.
  destruct (getLatestCheckpointSequence w) as [latest|e|]; [|done..]. case_if; [done|]. apply post_bind. cbn.
  pose proof Hc as [Hn1 Hl1 Hs1 Hr1 Hg1 Hm1 (Hca1 & _)]. rewrite Hr1. destruct (bool_decide (configPath c1 = [])); [by apply post_bind|].
  apply create_runner_case; [done..|]. intros r Hfa. apply post_bind, post_wrap. cbn.
  destruct (runFromParams w from) as [[[start hash] next]|e|] eqn:Ep; cbn; [|done..].
  pose proof (runFromParams_spec w from start hash next Hu Hf Ep) as [Hb _].
  eapply post_start; [done|done|]. intros fs Hfs. apply post_bind. cbn.
  eapply post_mono; [apply fast_forward_spec; simpl; try done|].
  - apply (start_session_good next None false 0 (with_output r fs) (set_runner (Some (Some r)) c1)).
  - lia.
  - lia.
  - unfold cached in *. simpl. by rewrite Hca1.
  - intros c' o H Ho. split; [auto|eauto].
Qed.

(** what a successful preparation of an unbounded range leaves.  The
    subprocess is started less than two checkpoints before the ledger, the ledger
    itself is at hand, and the next one of the stream is the one after it.  But
    then [IsPrepared] denies that the range is prepared, since it does not look
    at the ledger that is at hand: preparing the same range again closes the
    session and starts the subprocess anew. *)
Theorem UnboundedRange_prepared `{NW : Network} path w from groups c c' :
  reached path c → is_u32 from → 3 ≤ from → from + 1 < 2 ^ 32 → cached from c = None →
  IsPrepared (UnboundedRange from) c = false →
  PrepareRange w (UnboundedRange from) (set_schedule groups c) = (c', Some (Ret tt)) →
  (∃ start hash next, runFromParams w from = Ret (start, hash, next) ∧ 2 ≤ next < from ∧ from - next < 128) ∧
  nextLedger c' = from + 1 ∧ lastLedger c' = None ∧ blocking c' = false ∧
  (∀ groups', GetLedger from (set_schedule groups' c') = (set_schedule groups' c', Some (Ret (cachedMeta c'))) ∧ is_Some (cachedMeta c')) ∧
  IsPrepared (UnboundedRange from) c' = false.
Proof.
  intros Hg%reached_good Hu Hf Hu1 Hca Hprep E.
  assert (post (PrepareRange w (UnboundedRange from)) (set_schedule groups c)
    (λ c' o, o = Ret tt → at_hand from c' ∧ ∃ p, runFromParams w from = Ret p)) as HP.
  { unfold PrepareRange. apply post_bind. cbn [get post].
    change (IsPrepared (UnboundedRange from) (set_schedule groups c)) with (IsPrepared (UnboundedRange from) c). rewrite Hprep.
    apply post_bind, post_wrap. eapply post_mono; [apply (openOnline_spec w from); [by apply set_schedule_good|done..]|].
    intros c1 o H. destruct o as [[]|e|]; cbn; [|done..]. destruct (H eq_refl) as [Ha Hp]. apply post_bind. cbn.
    destruct (runner c1) as [[r|]|]; [|done..]. case_if; [done|]. pose proof Ha as (Hi1 & Hs1 & _).
    apply post_bind, post_first_result; [done..|]. intros c2 O2 _. cbn. apply post_bind.
    pose proof (open_at_hand from _ _ _ _ _ Ha O2 eq_refl eq_refl) as Ha2.
    apply post_observe; [apply O2..|intros c3 O3|done]. pose proof (open_at_hand from _ _ _ _ _ Ha2 O3 eq_refl eq_refl) as Ha3.
    by destruct (processExit c3). }
  destruct (post_elim _ _ _ HP _ _ E eq_refl) as ((Hi & Hs & Hn & Hl & Hb & m & Hm & Hseq) & [[start hash] next] & Hp).
  rewrite u32_small in Hn by (unfold is_u32 in *; lia). split_and!; try done.
  - exists start, hash, next. split; [done|]. by apply (runFromParams_spec w from start hash).
  - intros groups'. unfold GetLedger, mbind, Call_bind, get, cached. simpl. rewrite Hm, Hseq, Z.eqb_refl. split; [done|by eexists].
  - unfold IsPrepared. rewrite Hl, Hn. simpl. rewrite (proj2 (Z.leb_gt _ _)) by lia. by destruct (_ =? 0).
Qed.

(** ** Examples *)

Theorem GetLedger_refines_witness :
  let c := set_schedule (Example_core.groups 9) Example_core.offline in
  (GetLedger 71 c).2 = Some (Ret (Some (Example_core.ledger 71))) ∧ got 71 c (GetLedger 71 c).1 (Ret (Some (Example_core.ledger 71))).
Proof.
  intros c. assert ((GetLedger 71 c).2 = Some (Ret (Some (Example_core.ledger 71)))) as E by (vm_compute; reflexivity). split; [exact E|].
  destruct (GetLedger_refines (NW := Example_ledger.network) _ _ (Example_core.groups 9) 71 (GetLedger 71 c).1
    (Ret (Some (Example_core.ledger 71))) Example_core.offline_reached) as [_ H].
  - fold c. rewrite <- E. apply surjective_pairing.
  - exact H.
Defined.

Theorem BoundedRange_replayed_witness :
  ∃ c', replay (NW := Example_ledger.network) Example_core.world 70 72
      (set_schedule (Example_core.groups 12) Example_core.new) =
    (c', Some (Ret (Some <$> [Example_core.ledger 70; Example_core.ledger 71; Example_core.ledger 72]))) ∧
    finished (Example_core.ledger 72) c'.
Proof.
  apply (BoundedRange_replayed (NW := Example_ledger.network) Example_core.ledger (λ _, eq_refl) Example_core.world
    Example_core.new (set_schedule (Example_core.groups 12) Example_core.new) 70 72 127 Example_core.core []);
    try (vm_compute; reflexivity); try (vm_compute; discriminate).
  - constructor; simpl; unfold readAheadBufferSize; done || lia.
  - split; [vm_compute; lia|]. simpl. repeat constructor.
Defined.

(** A range is replayed a second time; but a range of one ledger is answered from
    the cache the second time, and the session that was opened for it stays open. *)
Example replayed_again :
  let run from to c := replay (NW := Example_ledger.network) Example_core.world from to (set_schedule (Example_core.groups 12) c) in
  let again from to := run from to (run from to Example_core.new).1 in
  (again 70 72).2 = Some (Ret (Some <$> [Example_core.ledger 70; Example_core.ledger 71; Example_core.ledger 72])) ∧
  isClosed (again 70 72).1 = true ∧
  (again 70 70).2 = Some (Ret [Some (Example_core.ledger 70)]) ∧ isClosed (again 70 70).1 = false.
Proof. vm_compute. repeat split; reflexivity. Qed.

Theorem past_range_waits_witness :
  lastLedger Example_core.offline = Some 72 ∧
  (∀ groups, (GetLedger 73 (set_schedule groups Example_core.offline)).2 = None) ∧
  IsPrepared (BoundedRange 70 73) Example_core.offline = true.
Proof.
  destruct (past_range_waits (NW := Example_ledger.network) Example_core.ledger (λ _, eq_refl) Example_core.world
    Example_core.new (set_schedule (Example_core.groups 9) Example_core.new) 70 72 127 Example_core.core [] Example_core.offline (Ret tt))
    as (_ & Hl & H).
  - constructor; simpl; unfold readAheadBufferSize; done || lia.
  - done.
  - done.
  - done.
  - reflexivity.
  - reflexivity.
  - reflexivity.
  - reflexivity.
  - vm_compute. reflexivity.
  - exact Example_core.offline_eq.
  - destruct (H 73) as [Hp Hg]; [done..|]. exact (conj Hl (conj Hg Hp)).
Defined.

(** After the subprocess wrote ledger 73, nothing more comes. *)
Theorem Close_spec_witness :
  let c := Example_core.after (ApiGetLedger 74) 9 Example_core.online in
  (∀ c' o, Close (set_schedule [[true; true]] Example_core.offline) = (c', Some o) → closed Example_core.offline c' ∧ o = Ret tt) ∧
  (∀ groups, (Close (set_schedule groups c)).2 = None).
Proof.
  intros c. split.
  - destruct (Close_spec (NW := Example_ledger.network) _ _ [[true; true]] Example_core.offline_reached) as (H & _ & _).
    intros c' o E. destruct (H c' o E) as [Hc ->]. split; [exact Hc|]. vm_compute. reflexivity.
  - intros groups. assert (reached (NW := Example_ledger.network) (str "core.cfg") c) as Hc.
    { apply Example_core.after_reached; [apply Example_core.online_reached|]. vm_compute. reflexivity. }
    destruct (Close_spec (NW := Example_ledger.network) _ _ groups Hc) as (_ & H & _). apply H.
    exists 0, (with_output Example_core.core []). split_and!; vm_compute; reflexivity.
Defined.

Theorem UnboundedRange_prepared_witness :
  nextLedger Example_core.online = 71 ∧ IsPrepared (UnboundedRange 70) Example_core.online = false.
Proof.
  destruct (UnboundedRange_prepared (NW := Example_ledger.network) (str "core.cfg") Example_core.world 70 (Example_core.groups 99)
    Example_core.new Example_core.online) as (_ & Hn & _ & _ & _ & Hp).
  - apply reached_new.
  - done.
  - done.
  - done.
  - reflexivity.
  - reflexivity.
  - exact Example_core.online_eq.
  - exact (conj Hn Hp).
Defined.
