(* ===== verification/StateReader.v ===== *)
(** * ingest/io: the reader of the state of a checkpoint

    Models [src/ingest/io/single_ledger_state_reader.go] with its
    [memoryTempSet].  The reader goes through the buckets of an archive state
    from the newest to the oldest and sends each entry that it has not seen; a
    bucket is read in batches from a stream that is opened again when it fails.

    The goroutine and its channel are a function and the list of what it sends:
    the consumer reads until the first error or the end.  Each call that leaves
    the process takes a tick of a clock, by which the parameters know what it
    returns. *)

From S2P Require Import Prelude Encoding Xdr LedgerEntry ChangeCache Transaction LedgerReaders HistoryArchive.

Inductive BucketEntry :=
  | LIVEENTRY (liveEntry : LedgerEntry)
  | INITENTRY (liveEntry : LedgerEntry)
  | DEADENTRY (deadEntry : LedgerKey)
  | METAENTRY (ledgerVersion : Z).

(** The unmarshaller of the generated code, which says how many bytes it read;
    the streams of the buckets, [None] when one cannot be opened; whether a
    bucket exists, [None] for an error; whether the context is done. *)
Class BucketFiles := {
  UnmarshalBucketEntry : list Z → option (BucketEntry * nat);
  open_bucket : nat → Hash → option (list Z * bool);
  bucket_exists : nat → Hash → option bool;
  ctx_done : nat → bool }.

Definition maxStreamRetries : nat := 3.
Definition preloadedEntries : nat := Z.to_nat 20000.

(** The text by which a key is remembered. *)
Definition key_id (key : LedgerKey) : gostring := Base64.EncodeToString (LedgerKey_MarshalBinaryCompress key).

(** What is sent on the channel. *)
Abbreviation readResult := (outcome archive_error LedgerEntry).

Section reader.
Context `{NW : Network} `{BF : BucketFiles}.

(** ** Reading a bucket *)

(** The clock, the stream, and an entry or [None] for the end. *)
Definition newXDRStream (hash : Hash) (t : nat) : nat * option XdrStream :=
  (S t, '(bytes, broken) ← open_bucket t hash; Some (SetExpectedHash (NewXdrStream bytes broken) hash)).

(** [retries] is the number of attempts that are left; [err] the error of opening
    the stream again, after which it is not read. *)
Fixpoint read_attempts (retries : nat) (hash : Hash) (currentPosition : nat) (t : nat) (stream : XdrStream)
    (err : option archive_error) : nat * XdrStream * outcome archive_error (option BucketEntry) :=
  if ctx_done t then (S t, stream, Fail ErrCancelled) else
  let t := S t in
  let '(stream, r) := match err with
    | Some e => (stream, Fail e)
    | None => ReadOne UnmarshalBucketEntry stream
    end in
  match r with
  | Ret entry => (t, stream, Ret entry)
  | Panic => (t, stream, Panic)
  | Fail e =>
      match retries with
      | O => (t, stream, Fail e)
      | S retries =>
          match newXDRStream hash t with
          | (t, None) => read_attempts retries hash currentPosition t stream (Some ErrFile)
          | (t, Some retryStream) =>
              let '(stream, r) := Discard retryStream currentPosition in
              read_attempts retries hash currentPosition t stream (match r with Fail e => Some e | _ => None end)
          end
      end
  end.
Definition readBucketEntry (stream : XdrStream) (hash : Hash) (t : nat)
  : nat * XdrStream * outcome archive_error (option BucketEntry) :=
  read_attempts maxStreamRetries hash (bytesRead stream) t stream None.

(** A batch of at most [n] entries, and whether it is the last; the keys that are
    preloaded go to a cache that the set in memory does not have. *)
Fixpoint load_batch (n : nat) (hash : Hash) (t : nat) (rdr : XdrStream)
  : nat * XdrStream * outcome archive_error (list BucketEntry * bool) :=
  match n with
  | O => (t, rdr, Ret ([], false))
  | S n =>
      match readBucketEntry rdr hash t with
      | (t, rdr, Ret None) => (t, rdr, Ret ([], true))
      | (t, rdr, Ret (Some entry)) =>
          match load_batch n hash t rdr with
          | (t, rdr, Ret (batch, lastBatch)) => (t, rdr, Ret (entry :: batch, lastBatch))
          | (t, rdr, r) => (t, rdr, r)
          end
      | (t, rdr, Fail e) => (t, rdr, Fail e)
      | (t, rdr, Panic) => (t, rdr, Panic)
      end
  end.

(** ** Processing the entries *)

(** The set of keys, the version of the bucket (0 without a meta entry), the
    number of entries before this one; and what is sent. *)
Record Progress := MkProgress { tempStore : gset gostring; bucketProtocolVersion : Z; entries_done : nat }.

(** The entry that is sent, and whether [msr.done] is looked at afterwards. *)
Definition process_entry (oldestBucket : bool) (p : Progress) (entry : BucketEntry)
  : outcome archive_error (Progress * option LedgerEntry * bool) :=
  let n := entries_done p in
  let next store := MkProgress store (bucketProtocolVersion p) (S n) in
  match entry with
  | METAENTRY version =>
      if bool_decide (n ≠ 0)%nat then Fail ErrMetaNotFirst
      else Ret (MkProgress (tempStore p) version (S n), None, false)
  | DEADENTRY key => Ret (next ({[ key_id key ]} ∪ tempStore p), None, true)
  | LIVEENTRY liveEntry =>
      let h := key_id (LedgerEntry_LedgerKey liveEntry) in
      if bool_decide (h ∈ tempStore p) then Ret (next (tempStore p), None, true)
      else if oldestBucket then Ret (next (tempStore p), Some liveEntry, false)
      else Ret (next ({[ h ]} ∪ tempStore p), Some liveEntry, true)
  | INITENTRY liveEntry =>
      if bucketProtocolVersion p <? 11 then Fail ErrInitEntryVersion else
      let h := key_id (LedgerEntry_LedgerKey liveEntry) in
      if bool_decide (h ∈ tempStore p) then Ret (next (tempStore p), None, true)
      else Ret (next (tempStore p), Some liveEntry, true)
  end.

(** The entries of a batch, and whether to go on. *)
Fixpoint process_batch (oldestBucket closed : bool) (p : Progress) (batch : list BucketEntry) (sent : list readResult)
  : Progress * list readResult * bool :=
  match batch with
  | [] => (p, sent, true)
  | entry :: batch =>
      match process_entry oldestBucket p entry with
      | Ret (p, out, selects) =>
          let sent := sent ++ match out with Some e => [Ret e] | None => [] end in
          if selects && closed then (p, sent, false) else process_batch oldestBucket closed p batch sent
      | Fail e => (p, sent ++ [Fail e], false)
      | Panic => (p, sent ++ [Panic], false)
      end
  end.

(** The loop of [streamBucketContents] over batches, with a bound on their number
    that counts as a panic. *)
Fixpoint stream_batches (fuel k : nat) (hash : Hash) (oldestBucket closed : bool) (t : nat) (rdr : XdrStream) (p : Progress)
    (sent : list readResult) : nat * XdrStream * Progress * list readResult * bool :=
  match fuel with
  | O => (t, rdr, p, sent ++ [Panic], false)
  | S fuel =>
      match load_batch k hash t rdr with
      | (t, rdr, Ret (batch, lastBatch)) =>
          match process_batch oldestBucket closed p batch sent with
          | (p, sent, true) =>
              if lastBatch then (t, rdr, p, sent, true) else stream_batches fuel k hash oldestBucket closed t rdr p sent
          | (p, sent, false) => (t, rdr, p, sent, false)
          end
      | (t, rdr, Fail e) => (t, rdr, p, sent ++ [Fail e], false)
      | (t, rdr, Panic) => (t, rdr, p, sent ++ [Panic], false)
      end
  end.

(** The clock, the set, what was sent, whether the reader is closed, and whether
    to go on with the next bucket.  An error of closing the stream closes the
    reader, but the result is that of the loop. *)
Definition streamBucketContents (fuel : nat) (hash : Hash) (oldestBucket closed : bool) (t : nat) (store : gset gostring)
    (sent : list readResult) : nat * gset gostring * list readResult * bool * bool :=
  match newXDRStream hash t with
  | (t, None) => (t, store, sent ++ [Fail ErrFile], closed, false)
  | (t, Some rdr) =>
      let '(t, rdr, p, sent, shouldContinue) :=
        stream_batches fuel preloadedEntries hash oldestBucket closed t rdr (MkProgress store 0 0) sent in
      match Close rdr with
      | Ret _ => (t, tempStore p, sent, closed, shouldContinue)
      | Fail e => (t, tempStore p, sent ++ [Fail e], true, shouldContinue)
      | Panic => (t, tempStore p, sent, closed, shouldContinue)
      end
  end.

Fixpoint exists_attempts (retries : nat) (hash : Hash) (t : nat) : nat * option bool :=
  match bucket_exists t hash with
  | Some b => (S t, Some b)
  | None => match retries with O => (S t, None) | S retries => exists_attempts retries hash (S t) end
  end.
Definition bucketExists (hash : Hash) (t : nat) : nat * option bool := exists_attempts maxStreamRetries hash t.

Fixpoint stream_loop (fuel : nat) (buckets : list Hash) (closed : bool) (t : nat) (store : gset gostring)
    (sent : list readResult) : list readResult :=
  match buckets with
  | [] => sent
  | hash :: buckets' =>
      match bucketExists hash t with
      | (t, None) => sent ++ [Fail ErrFile]
      | (t, Some false) => sent ++ [Fail ErrBucketMissing]
      | (t, Some true) =>
          let oldestBucket := bool_decide (buckets' = []) in
          let '(t, store, sent, closed, shouldContinue) :=
            streamBucketContents fuel hash oldestBucket closed t store sent in
          if shouldContinue : bool then stream_loop fuel buckets' closed t store sent else sent
      end
  end.

(** The hashes of the buckets, from the newest to the oldest. *)
Definition state_buckets (has : HistoryArchiveState) : outcome archive_error (list Hash) :=
  mfold (λ r b, mfold (add_bucket false) r [Curr b; Snap b]) [] (CurrentBuckets has).
Definition streamBuckets (fuel : nat) (has : HistoryArchiveState) (t : nat) : list readResult :=
  match state_buckets has with
  | Ret buckets => stream_loop fuel buckets false t ∅ []
  | Fail e => [Fail e]
  | Panic => [Panic]
  end.

(** What the calls of [Read] return. *)
Definition state_Read (r : readResult) : outcome reader_error Change :=
  match r with
  | Ret e => Ret (MkChange (EntryType (LedgerEntryState e)) None (Some e))
  | Fail _ => Fail ErrReadBuckets
  | Panic => Panic
  end.
End reader.

(** ** What a bucket list means *)

(** The key of an entry, and the ledger entry that it carries. *)
Definition bucket_key (b : BucketEntry) : option gostring :=
  match b with
  | LIVEENTRY e | INITENTRY e => Some (key_id (LedgerEntry_LedgerKey e))
  | DEADENTRY k => Some (key_id k)
  | METAENTRY _ => None
  end.
Definition live_of (b : BucketEntry) : option LedgerEntry :=
  match b with LIVEENTRY e | INITENTRY e => Some e | _ => None end.
Definition entry_id (e : LedgerEntry) : gostring := key_id (LedgerEntry_LedgerKey e).

(** A bucket changes the entries of the older buckets; the entries of a list of
    buckets, the newest first. *)
Definition apply_entry (s : gmap gostring LedgerEntry) (b : BucketEntry) : gmap gostring LedgerEntry :=
  match b with
  | LIVEENTRY e | INITENTRY e => <[ entry_id e := e ]> s
  | DEADENTRY k => delete (key_id k) s
  | METAENTRY _ => s
  end.
Definition apply_bucket (s : gmap gostring LedgerEntry) (es : list BucketEntry) : gmap gostring LedgerEntry :=
  foldl apply_entry s es.
Definition bucket_state (ess : list (list BucketEntry)) : gmap gostring LedgerEntry :=
  foldr (λ es s, apply_bucket s es) ∅ ess.

(** The rules of a bucket list: a key is in a bucket at most once, and what
    [INITENTRY] creates is not there in the older buckets. *)
Inductive bucket_list_ok : list (list BucketEntry) → Prop :=
  | bucket_list_nil : bucket_list_ok []
  | bucket_list_cons es ess :
      NoDup (omap bucket_key es) → (∀ e, INITENTRY e ∈ es → bucket_state ess !! entry_id e = None) →
      bucket_list_ok ess → bucket_list_ok (es :: ess).

(** *** What is sent, and what is remembered *)
Definition remember (oldest : bool) (store : gset gostring) (b : BucketEntry) : gset gostring :=
  match b with
  | LIVEENTRY e => if oldest then store else {[ entry_id e ]} ∪ store
  | DEADENTRY k => {[ key_id k ]} ∪ store
  | INITENTRY _ | METAENTRY _ => store
  end.
Fixpoint emitted (oldest : bool) (store : gset gostring) (es : list BucketEntry) : list LedgerEntry :=
  match es with
  | [] => []
  | b :: es =>
      match live_of b with
      | Some e => if bool_decide (entry_id e ∈ store) then [] else [e]
      | None => []
      end ++ emitted oldest (remember oldest store b) es
  end.
Definition seen (oldest : bool) (store : gset gostring) (es : list BucketEntry) : gset gostring :=
  foldl (remember oldest) store es.
Fixpoint emitted_all (store : gset gostring) (ess : list (list BucketEntry)) : list LedgerEntry :=
  match ess with
  | [] => []
  | es :: ess =>
      let oldest := bool_decide (ess = []) in emitted oldest store es ++ emitted_all (seen oldest store es) ess
  end.

(** The entries of a bucket whose keys are distinct do not hide each other. *)
Lemma emitted_filter oldest store es :
  NoDup (omap bucket_key es) → emitted oldest store es = filter (λ e, entry_id e ∉ store) (omap live_of es).
Proof.
  revert store. induction es as [|b es IH]; intros store Hn; [done|]. cbn [emitted omap list_omap] in *.
  assert (∀ k, bucket_key b = Some k → ∀ e, e ∈ omap live_of es → entry_id e ≠ k) as Hfresh.
  { intros k Hk e (b' & Hb' & He)%list_elem_of_omap Heq. rewrite Hk in Hn. apply NoDup_cons in Hn as [Hn _]. apply Hn.
    apply list_elem_of_omap. exists b'. split; [done|]. subst k. by destruct b'; simplify_eq/=. }
  assert (emitted oldest (remember oldest store b) es = filter (λ e, entry_id e ∉ store) (omap live_of es)) as ->.
  { rewrite IH by (destruct (bucket_key b); [by apply NoDup_cons in Hn as [_ Hn]|done]).
    apply list_filter_iff_in. intros e He. destruct b as [e'|e'|k|v]; cbn [remember bucket_key] in *; try done.
    - specialize (Hfresh _ eq_refl e He). destruct oldest; [done|]. unfold entry_id in *. set_solver.
    - specialize (Hfresh _ eq_refl e He). set_solver. }
  destruct b; cbn [live_of app omap list_omap]; rewrite ?filter_cons; try done; repeat case_bool_decide; repeat case_decide; done.
Qed.

Lemma elem_of_seen oldest store (es : list BucketEntry) k :
  k ∈ seen oldest store es ↔ k ∈ store ∨ (∃ d, DEADENTRY d ∈ es ∧ key_id d = k) ∨
    (oldest = false ∧ ∃ e, LIVEENTRY e ∈ es ∧ entry_id e = k).
Proof.
  revert store. induction es as [|b es IH]; intros store; cbn [seen foldl].
  { split; [by left|]. by intros [?|[(? & ?%elem_of_nil & _)|(_ & ? & ?%elem_of_nil & _)]]. }
  fold (seen oldest (remember oldest store b) es). rewrite IH. setoid_rewrite elem_of_cons.
  destruct b as [e|e|d|v]; cbn [remember]; [destruct oldest|..]; rewrite ?elem_of_union, ?elem_of_singleton; naive_solver.
Qed.

(** Reading back what a bucket did to the entries. *)
Lemma apply_bucket_other s (es : list BucketEntry) k : k ∉ omap bucket_key es → apply_bucket s es !! k = s !! k.
Proof.
  unfold apply_bucket. revert s. induction es as [|b es IH]; intros s Hk; cbn [foldl omap list_omap] in *; [done|].
  destruct b as [e|e|d|v]; cbn [bucket_key apply_entry] in *; [..|by apply IH];
    apply not_elem_of_cons in Hk as [Hne Hk]; rewrite (IH _ Hk); [by rewrite lookup_insert_ne..|by rewrite lookup_delete_ne].
Qed.
Lemma apply_bucket_live s (es : list BucketEntry) e :
  NoDup (omap bucket_key es) → e ∈ omap live_of es → apply_bucket s es !! entry_id e = Some e.
Proof.
  unfold apply_bucket. revert s. induction es as [|b es IH]; intros s Hn He; cbn [foldl omap list_omap] in *; [by apply elem_of_nil in He|].
  destruct b as [e'|e'|d|v]; cbn [bucket_key apply_entry live_of] in *; [..|by apply IH]; apply NoDup_cons in Hn as [Hnot Hn].
  3: by apply IH.
  all: apply elem_of_cons in He as [->|He]; [|by apply IH];
    change (foldl apply_entry ?s0 es) with (apply_bucket s0 es); rewrite apply_bucket_other by done; apply lookup_insert_eq.
Qed.
Lemma apply_bucket_dead s (es : list BucketEntry) d :
  NoDup (omap bucket_key es) → DEADENTRY d ∈ es → apply_bucket s es !! key_id d = None.
Proof.
  unfold apply_bucket. revert s. induction es as [|b es IH]; intros s Hn He; [by apply elem_of_nil in He|].
  apply elem_of_cons in He as [<-|He]; cbn [foldl omap list_omap bucket_key apply_entry] in *.
  - apply NoDup_cons in Hn as [Hnot _].
    change (foldl apply_entry ?s0 es) with (apply_bucket s0 es). rewrite apply_bucket_other by done. apply lookup_delete_eq.
  - apply IH; [|done]. destruct (bucket_key b); [by apply NoDup_cons in Hn as [_ Hn]|done].
Qed.

(** The three cases of a key. *)
Lemma bucket_key_cases (es : list BucketEntry) k :
  k ∈ omap bucket_key es ↔ (∃ e, e ∈ omap live_of es ∧ entry_id e = k) ∨ (∃ d, DEADENTRY d ∈ es ∧ key_id d = k).
Proof.
  rewrite list_elem_of_omap. setoid_rewrite list_elem_of_omap. split.
  - intros ([e|e|d|v] & Hb & Hk); simplify_eq/=; [left; exists e; split; [by eexists|done]..|right; by eexists].
  - intros [(e & (b & Hb & He) & <-)|(d & Hd & <-)]; [exists b; split; [done|]; by destruct b; simplify_eq/=|by exists (DEADENTRY d)].
Qed.

Lemma live_keys_sublist (es : list BucketEntry) : sublist (entry_id <$> omap live_of es) (omap bucket_key es).
Proof.
  induction es as [|b es IH]; [constructor|].
  destruct b as [e|e|d|v]; cbn [omap list_omap bucket_key live_of fmap list_fmap]; [by apply sublist_skip..|by apply sublist_cons|done].
Qed.

Lemma bucket_state_id ess k e : bucket_state ess !! k = Some e → entry_id e = k.
Proof.
  revert k e. induction ess as [|es ess IH]; intros k e; cbn [bucket_state foldr]; [by rewrite lookup_empty|].
  fold (bucket_state ess). generalize (bucket_state ess) as s, IH. clear IH ess. unfold apply_bucket.
  induction es as [|b es IHes]; intros s Hs; cbn [foldl]; [apply Hs|]. apply IHes. intros k' e'.
  destruct b as [x|x|d|v]; cbn [apply_entry]; [rewrite lookup_insert_Some..|rewrite lookup_delete_Some|]; naive_solver.
Qed.

(** The entries that are sent are those of the bucket list, each once. *)
Lemma emitted_all_spec ess store :
  bucket_list_ok ess →
  NoDup (entry_id <$> emitted_all store ess) ∧
  ∀ e, e ∈ emitted_all store ess ↔ bucket_state ess !! entry_id e = Some e ∧ entry_id e ∉ store.
Proof.
  intros Hok. revert store. induction Hok as [|es ess Hn Hinit Hok IH]; intros store; cbn [emitted_all].
  { split; [constructor|]. intros e. cbn [bucket_state foldr]. rewrite lookup_empty. split; [by intros ?%elem_of_nil|by intros [? _]]. }
  set (oldest := bool_decide (ess = [])). destruct (IH (seen oldest store es)) as [IHn IHe].
  cbn [bucket_state foldr]. fold (bucket_state ess).
  rewrite emitted_filter by done.
  (* what the older buckets send is not in this one *)
  assert (∀ e, e ∈ emitted_all (seen oldest store es) ess → entry_id e ∉ store ∧ entry_id e ∉ omap bucket_key es) as Hold.
  { intros e [Hs Hseen]%IHe. rewrite elem_of_seen in Hseen. split; [tauto|]. intros [(e' & (b & Hb & He')%list_elem_of_omap & Hid)|Hd]%bucket_key_cases; [|tauto].
    destruct b as [x|x|d|v]; simplify_eq/=.
    - destruct oldest eqn:Eo; [|apply Hseen; right; right; split; [done|by exists e']].
      apply bool_decide_eq_true in Eo as ->. change (bucket_state []) with (∅ : gmap gostring LedgerEntry) in Hs. by rewrite lookup_empty in Hs.
    - rewrite <- Hid, Hinit in Hs by done. done. }
  split.
  - rewrite fmap_app. apply NoDup_app. split_and!; [|intros k (e & -> & [_ He]%list_elem_of_filter)%list_elem_of_fmap|done].
    + eapply sublist_NoDup; [exact Hn|].
      etrans; [apply fmap_sublist, sublist_filter|apply live_keys_sublist].
    + intros (e' & Heq & He')%list_elem_of_fmap. apply Hold in He' as [_ Hno]. apply Hno, bucket_key_cases. left. by exists e.
  - intros e. rewrite elem_of_app, list_elem_of_filter, IHe. split.
    + intros [[Hst He]|He]; [split; [by apply apply_bucket_live|done]|].
      apply IHe in He as He'. destruct (Hold _ He') as [Hst Hno]. split; [|done]. rewrite apply_bucket_other by done. apply He.
    + intros [Hs Hst]. destruct (decide (entry_id e ∈ omap bucket_key es)) as [[(e' & He' & Hid)|(d & Hd & Hid)]%bucket_key_cases|Hno].
      * left. split; [done|]. rewrite <- Hid, apply_bucket_live in Hs by done. by injection Hs as <-.
      * by rewrite <- Hid, apply_bucket_dead in Hs.
      * right. rewrite apply_bucket_other in Hs by done. split; [done|]. rewrite elem_of_seen.
        intros [?|[Hd|(_ & e' & He' & Hid)]]; [done|..]; apply Hno, bucket_key_cases; [by right|left].
        exists e'. split; [|done]. apply list_elem_of_omap. by exists (LIVEENTRY e').
Qed.

(** *** What the entries of a batch send *)
Lemma emitted_all_permutation ess : bucket_list_ok ess → emitted_all ∅ ess ≡ₚ (map_to_list (bucket_state ess)).*2.
Proof.
  intros Hok. destruct (emitted_all_spec ess ∅ Hok) as [Hn He].
  assert (((λ e, (entry_id e, e)) <$> emitted_all ∅ ess) ≡ₚ map_to_list (bucket_state ess)) as <-.
  { apply NoDup_Permutation; [|apply NoDup_map_to_list|].
    - apply (NoDup_fmap_1 fst). by rewrite <- list_fmap_compose.
    - intros [k e]. rewrite elem_of_map_to_list, list_elem_of_fmap. split.
      + by intros (e' & [= -> ->] & [? _]%He).
      + intros Hs. exists e. pose proof (bucket_state_id _ _ _ Hs) as <-. split; [done|]. apply He. split; [done|]. apply not_elem_of_empty. }
  rewrite <- list_fmap_compose. by rewrite list_fmap_id.
Qed.

Definition is_retb (r : readResult) : bool := match r with Ret _ => true | _ => false end.
Abbreviation is_ret := (λ r : readResult, is_retb r = true).
Lemma not_clean (sent : list readResult) r : is_retb r = false → ¬ Forall is_ret (sent ++ [r]).
Proof. intros Hr [_ [Hx _]%Forall_cons]%Forall_app. by destruct r. Qed.

Lemma process_entry_spec oldest p b p' out sel :
  process_entry oldest p b = Ret (p', out, sel) →
  tempStore p' = remember oldest (tempStore p) b ∧
  option_list out = match live_of b with
    | Some e => if bool_decide (entry_id e ∈ tempStore p) then [] else [e]
    | None => []
    end.
Proof.
  unfold process_entry, entry_id. destruct b as [e|e|d|v]; cbn [live_of remember].
  - case_bool_decide as Hin; [|destruct oldest]; intros [= <- <- <-]; cbn [tempStore]; (split; [|done]); try done.
    destruct oldest; [done|]. unfold entry_id. set_solver.
  - case_match; [done|]. case_bool_decide; by intros [= <- <- <-].
  - by intros [= <- <- <-].
  - case_bool_decide; [done|]. by intros [= <- <- <-].
Qed.

Lemma process_batch_spec oldest closed p (es : list BucketEntry) sent p' sent' b :
  process_batch oldest closed p es sent = (p', sent', b) →
  sent `prefix_of` sent' ∧
  (closed = false → b = false → ¬ Forall is_ret sent') ∧
  (b = true → sent' = sent ++ (Ret <$> emitted oldest (tempStore p) es) ∧ tempStore p' = seen oldest (tempStore p) es).
Proof.
  revert p sent. induction es as [|b0 es IH]; intros p sent; cbn [process_batch].
  { intros [= <- <- <-]. split_and!; [done|done|]. intros _. cbn [emitted fmap list_fmap]. by rewrite app_nil_r. }
  destruct (process_entry oldest p b0) as [[[p1 out] sel]|e|] eqn:E.
  - apply process_entry_spec in E as [Es Eo]. destruct (sel && closed) eqn:Ec.
    { intros [= <- <- <-]. split_and!; [by eexists| |done]. intros ->. by rewrite andb_false_r in Ec. }
    intros [H1 [H2 H3]]%IH. split_and!; [etrans; [|exact H1]; by eexists|done|].
    intros Hb. destruct (H3 Hb) as [-> ->]. cbn [emitted seen foldl]. rewrite <- Es, <- Eo, fmap_app, <- app_assoc.
    by destruct out.
  - intros [= <- <- <-]. split_and!; [by eexists| |done]. intros _ _. by apply not_clean.
  - intros [= <- <- <-]. split_and!; [by eexists| |done]. intros _ _. by apply not_clean.
Qed.

Lemma emitted_app oldest store (es es' : list BucketEntry) :
  emitted oldest store (es ++ es') = emitted oldest store es ++ emitted oldest (seen oldest store es) es'.
Proof.
  revert store. induction es as [|b es IH]; intros store; [done|]. cbn [emitted app seen foldl]. rewrite IH. by rewrite <- app_assoc.
Qed.
Lemma seen_app oldest store (es es' : list BucketEntry) : seen oldest store (es ++ es') = seen oldest (seen oldest store es) es'.
Proof. apply foldl_app. Qed.

(** What a bucket may hold: a meta entry only in the first place, and [INITENTRY]
    only from version 11 on. *)
Fixpoint entries_ok (first : bool) (version : Z) (es : list BucketEntry) : bool :=
  match es with
  | [] => true
  | METAENTRY v :: es => first && entries_ok false v es
  | INITENTRY _ :: es => (11 <=? version) && entries_ok false version es
  | LIVEENTRY _ :: es | DEADENTRY _ :: es => entries_ok false version es
  end.
Definition progress_ok (p : Progress) (es : list BucketEntry) : bool :=
  entries_ok (bool_decide (entries_done p = 0)%nat) (bucketProtocolVersion p) es.

Lemma process_batch_healthy oldest p (es rest : list BucketEntry) sent :
  progress_ok p (es ++ rest) = true → ∃ p' sent',
    process_batch oldest false p es sent = (p', sent', true) ∧ progress_ok p' rest = true.
Proof.
  revert p sent. induction es as [|b es IH]; intros p sent Hok; cbn [process_batch]; [by exists p, sent|].
  assert (∃ p1 out sel, process_entry oldest p b = Ret (p1, out, sel) ∧ progress_ok p1 (es ++ rest) = true) as (p1 & out & sel & -> & Hok1).
  { unfold process_entry, progress_ok in *. destruct b as [e|e|d|v]; cbn [app entries_ok] in Hok.
    - case_bool_decide; [|destruct oldest]; by repeat eexists.
    - apply andb_prop in Hok as [Hv Hok]. apply Z.leb_le in Hv. rewrite (proj2 (Z.ltb_ge _ _) Hv). case_bool_decide; by repeat eexists.
    - by repeat eexists.
    - apply andb_prop in Hok as [Hz%bool_decide_eq_true Hok]. rewrite bool_decide_false by lia. by repeat eexists. }
  rewrite andb_false_r. by apply IH.
Qed.

(** ** Reading from an archive that may fail *)
Section honest.
Context `{NW : Network} `{BF : BucketFiles}.

(** Each time that the stream of a bucket is opened it yields the same bytes,
    although it may break off. *)
Context (file : Hash → list Z).
Definition consistent_files : Prop :=
  ∀ t h bytes broken, open_bucket t h = Some (bytes, broken) →
    bytes `prefix_of` file h ∧ (broken = false → bytes = file h).
Context (Hfiles : consistent_files).

(** A stream of a bucket, and the whole stream at the same position. *)
Definition stream_of (h : Hash) (x : XdrStream) : Prop :=
  contents x `prefix_of` file h ∧ (broken x = false → contents x = file h) ∧ expectedHash x = Some h ∧
  (bytesRead x ≤ length (contents x))%nat.
Definition whole (h : Hash) (pos : nat) : XdrStream := MkStream (file h) false pos (Some h).

(** The entries of a bucket from a position on. *)
Inductive bucket_entries (h : Hash) : nat → list BucketEntry → Prop :=
  | entries_end pos x : ReadOne UnmarshalBucketEntry (whole h pos) = (x, Ret None) → bucket_entries h pos []
  | entries_next pos x e es :
      ReadOne UnmarshalBucketEntry (whole h pos) = (x, Ret (Some e)) → bucket_entries h (bytesRead x) es →
      bucket_entries h pos (e :: es).

Lemma stream_of_advance h x n : stream_of h x → (bytesRead x + n ≤ length (contents x))%nat → stream_of h (advance x n).
Proof. intros (? & ? & ? & _) Hn. by split_and!. Qed.

Lemma unread_length x : length (unread_bytes x) = (length (contents x) - bytesRead x)%nat.
Proof. apply length_drop. Qed.

Lemma ReadOne_honest h x x' r :
  stream_of h x → ReadOne UnmarshalBucketEntry x = (x', r) →
  stream_of h x' ∧ match r with
    | Ret v => ReadOne UnmarshalBucketEntry (whole h (bytesRead x)) = (whole h (bytesRead x'), Ret v)
    | Fail _ => True
    | Panic => False
    end.
Proof.
  intros Hx E. pose proof Hx as ([k Hk] & Hb & He & Hp). pose proof (unread_length x) as Hl.
  assert (unread_bytes (whole h (bytesRead x)) = unread_bytes x ++ k) as Hw.
  { unfold unread_bytes, whole. cbn [contents bytesRead]. rewrite Hk. by apply drop_app_le. }
  assert (stream_of h x' ∧ (∀ v, r = Ret v → ReadOne UnmarshalBucketEntry (whole h (bytesRead x)) = (whole h (bytesRead x'), Ret v)) ∧
    r ≠ Panic) as (H1 & H2 & H3); [|split; [done|]; destruct r; auto].
  unfold ReadOne in E |- *. rewrite Hw. case_bool_decide as H0.
  { injection E as <- <-. split; [done|]. destruct (broken x) eqn:Eb; [done|]. split; [|done]. intros v [= <-].
    rewrite Hb in Hk by done. apply (f_equal length) in Hk. rewrite length_app in Hk.
    rewrite bool_decide_true by (rewrite length_app; lia). done. }
  case_bool_decide as H4.
  { injection E as <- <-. split; [apply stream_of_advance; [done|lia]|done]. }
  rewrite length_app, (bool_decide_false (_ = 0)%nat), (bool_decide_false (_ < 4)%nat) by lia.
  rewrite take_app_le by lia. rewrite drop_app_le by lia. set (n := Z.to_nat _) in *. cbv zeta in E |- *.
  assert (length (drop 4 (unread_bytes x)) = (length (contents x) - bytesRead x - 4)%nat) as Hd by (rewrite length_drop; lia).
  case_bool_decide as Hn.
  { injection E as <- <-. split; [apply stream_of_advance; [done|lia]|]. split; [|done]. by intros v [= <-]. }
  assert (stream_of h (advance (advance x 4) (length (take n (drop 4 (unread_bytes x)))))) as Hfin.
  { apply stream_of_advance; [apply stream_of_advance; [done|lia]|]. cbn [advance bytesRead contents]. rewrite length_take. lia. }
  case_bool_decide as Hs.
  { injection E as <- <-. split; [done|]. by destruct (broken _). }
  rewrite length_take in Hs. rewrite take_app_le by lia. rewrite bool_decide_false by (rewrite length_take; lia).
  destruct (UnmarshalBucketEntry _) as [[v readi]|]; injection E as <- <-; (split; [done|]); [|done].
  case_bool_decide; (split; [|done]); [|done]. by intros v' [= <-].
Qed.

Lemma newXDRStream_honest h t t' x : newXDRStream h t = (t', Some x) → stream_of h x ∧ bytesRead x = 0%nat.
Proof.
  unfold newXDRStream. destruct (open_bucket t h) as [[bytes b]|] eqn:E; [|done]. intros [= _ <-].
  destruct (Hfiles _ _ _ _ E) as [Hp Hb]. split; [|done]. split_and!; try done. cbn. lia.
Qed.

Lemma Discard_honest h x n : stream_of h x → let '(x', _) := Discard x n in stream_of h x'.
Proof.
  intros Hx. pose proof (unread_length x). pose proof Hx as (_ & _ & _ & ?). unfold Discard.
  case_bool_decide; (apply stream_of_advance; [done|lia]).
Qed.

Lemma read_attempts_honest retries h pos t x err :
  stream_of h x → (err = None → bytesRead x = pos) →
  match read_attempts retries h pos t x err with
  | (_, x', r) => stream_of h x' ∧ match r with
      | Ret v => ReadOne UnmarshalBucketEntry (whole h pos) = (whole h (bytesRead x'), Ret v)
      | Fail _ => True
      | Panic => False
      end
  end.
Proof using Hfiles.
  revert t x err. induction retries as [|retries IH]; intros t x err Hx Hpos; cbn [read_attempts];
    (destruct (ctx_done t); [done|]); (destruct err as [e|]; [|destruct (ReadOne UnmarshalBucketEntry x) as [x1 [v|e|]] eqn:Er;
      (apply (ReadOne_honest h) in Er as [Hx1 Hr]; [|done]); rewrite ?Hpos in Hr by done]); try done.
  all: destruct (newXDRStream h (S t)) as [t1 [x2|]] eqn:E; [|by apply IH].
  all: apply newXDRStream_honest in E as [Hx2 H0]; pose proof (Discard_honest h x2 pos Hx2) as Hd; unfold Discard in *;
    case_bool_decide; (apply IH; [done|]); [done|]; intros _; cbn [advance bytesRead]; lia.
Qed.

Lemma load_batch_honest k h t x :
  stream_of h x →
  match load_batch k h t x with
  | (_, x', r) => stream_of h x' ∧ match r with
      | Ret (batch, true) => bucket_entries h (bytesRead x) batch
      | Ret (batch, false) => ∀ es, bucket_entries h (bytesRead x') es → bucket_entries h (bytesRead x) (batch ++ es)
      | Fail _ => True
      | Panic => False
      end
  end.
Proof using Hfiles.
  revert t x. induction k as [|k IH]; intros t x Hx; cbn [load_batch]; [done|].
  pose proof (read_attempts_honest maxStreamRetries h (bytesRead x) t x None Hx ltac:(done)) as Hr. unfold readBucketEntry.
  destruct (read_attempts _ _ _ _ _ _) as [[t1 x1] [[e|]|e|]]; destruct Hr as [Hx1 Hr]; [..|done|done].
  - specialize (IH t1 x1 Hx1). destruct (load_batch k h t1 x1) as [[t2 x2] [[batch []]|e'|]]; destruct IH as [Hx2 IH]; try done.
    + split; [done|]. by eapply entries_next.
    + split; [done|]. intros es Hes. eapply entries_next; [exact Hr|]. by apply IH.
  - split; [done|]. by eapply entries_end.
Qed.

(** *** A bucket, and all buckets *)
Lemma stream_batches_spec fuel k h oldest closed t x p sent t' x' p' sent' b :
  stream_batches fuel k h oldest closed t x p sent = (t', x', p', sent', b) → stream_of h x →
  stream_of h x' ∧ sent `prefix_of` sent' ∧
  (closed = false → Forall is_ret sent' → b = true ∧ ∃ es, bucket_entries h (bytesRead x) es ∧
    sent' = sent ++ (Ret <$> emitted oldest (tempStore p) es) ∧ tempStore p' = seen oldest (tempStore p) es).
Proof using Hfiles.
  revert t x p sent. induction fuel as [|fuel IH]; intros t x p sent; cbn [stream_batches].
  { intros [= <- <- <- <- <-] Hx. split_and!; [done|by eexists|]. intros _ Hc. by apply not_clean in Hc. }
  intros E Hx. pose proof (load_batch_honest k h t x Hx) as Hl.
  destruct (load_batch k h t x) as [[t1 x1] [[batch last]|e|]]; destruct Hl as [Hx1 Hl]; [| |done].
  2: { injection E as <- <- <- <- <-. split_and!; [done|by eexists|]. intros _ Hc. by apply not_clean in Hc. }
  destruct (process_batch oldest closed p batch sent) as [[p1 sent1] b1] eqn:Ep.
  apply process_batch_spec in Ep as (Hpre & Hfail & Hok). destruct b1.
  2: { injection E as <- <- <- <- <-. split_and!; [done|done|]. intros Hcl Hc. by destruct Hfail. }
  destruct (Hok eq_refl) as [Hs1 Hp1]. destruct last.
  { injection E as <- <- <- <- <-. split_and!; [done|done|]. intros _ _. split; [done|]. by exists batch. }
  apply IH in E as (H1 & H2 & H3); [|done]. split_and!; [done|by etrans|]. intros Hcl Hc.
  destruct (H3 Hcl Hc) as [Hb (es & Hes & Hs' & Hp')]. split; [done|]. exists (batch ++ es). split; [by apply Hl|].
  by rewrite Hs', Hs1, Hp', Hp1, emitted_app, seen_app, fmap_app, <- app_assoc.
Qed.

Lemma streamBucketContents_spec fuel h oldest closed t store sent t' store' sent' closed' b :
  streamBucketContents fuel h oldest closed t store sent = (t', store', sent', closed', b) →
  sent `prefix_of` sent' ∧
  (closed = false → Forall is_ret sent' → b = true ∧ closed' = false ∧ sha256 (file h) = h ∧
    ∃ es, bucket_entries h 0 es ∧ sent' = sent ++ (Ret <$> emitted oldest store es) ∧ store' = seen oldest store es).
Proof using Hfiles.
  unfold streamBucketContents. destruct (newXDRStream h t) as [t1 [x|]] eqn:E.
  2: { intros [= <- <- <- <- <-]. split; [by eexists|]. intros _ Hc. by apply not_clean in Hc. }
  apply newXDRStream_honest in E as [Hx H0].
  destruct (stream_batches _ _ _ _ _ _ _ _ _) as [[[[t2 x2] p2] sent2] b2] eqn:Es.
  apply stream_batches_spec in Es as (Hx2 & Hpre & Hok); [|done]. rewrite H0 in Hok. cbn [tempStore] in Hok.
  destruct Hx2 as (_ & Hb & He & _). unfold Close. rewrite He.
  destruct (broken x2) eqn:Ebr; [|rewrite (Hb eq_refl); case_bool_decide as Hh]; intros [= <- <- <- <- <-].
  - split; [by apply prefix_app_r|]. intros _ Hc. by apply not_clean in Hc.
  - split; [done|]. intros Hcl Hc. destruct (Hok Hcl Hc) as [-> (es & ? & ? & ?)]. split_and!; [done..|]. by exists es.
  - split; [by apply prefix_app_r|]. intros _ Hc. by apply not_clean in Hc.
Qed.

Lemma stream_loop_spec fuel (buckets : list Hash) closed t store sent :
  sent `prefix_of` stream_loop fuel buckets closed t store sent ∧
  (closed = false → Forall is_ret (stream_loop fuel buckets closed t store sent) →
    ∃ ess, Forall2 (λ h es, sha256 (file h) = h ∧ bucket_entries h 0 es) buckets ess ∧
      stream_loop fuel buckets closed t store sent = sent ++ (Ret <$> emitted_all store ess)).
Proof using Hfiles.
  revert closed t store sent. induction buckets as [|h buckets IH]; intros closed t store sent; cbn [stream_loop].
  { split; [done|]. intros _ _. exists []. split; [constructor|]. cbn. by rewrite app_nil_r. }
  destruct (bucketExists h t) as [t1 [[]|]].
  2,3: split; [by eexists|]; intros _ Hc; by apply not_clean in Hc.
  destruct (streamBucketContents _ _ _ _ _ _ _) as [[[[t2 store2] sent2] closed2] b] eqn:E.
  apply streamBucketContents_spec in E as [Hpre Hok]. destruct b.
  2: { split; [done|]. intros Hcl Hc. by destruct (Hok Hcl Hc). }
  destruct (IH closed2 t2 store2 sent2) as [Hpre2 Hok2]. split; [by etrans|]. intros Hcl Hc.
  assert (Forall is_ret sent2) as Hc2. { destruct Hpre2 as [k Hk]. rewrite Hk in Hc. by apply Forall_app in Hc as [Hc _]. }
  destruct (Hok Hcl Hc2) as (_ & Hcl2 & Hh & es & Hes & Hs & ->). destruct (Hok2 Hcl2 Hc) as (ess & Hess & ->).
  exists (es :: ess). split; [by constructor|]. cbn [emitted_all]. rewrite Hs, fmap_app, <- app_assoc.
  by rewrite (bool_decide_ext (buckets = []) (ess = [])) by (inversion Hess; naive_solver).
Qed.

Lemma bucket_entries_inj h pos (es es' : list BucketEntry) : bucket_entries h pos es → bucket_entries h pos es' → es = es'.
Proof using. intros H. revert es'. induction H as [pos x E|pos x e es E _ IH]; inversion 1; [done|congruence..|]. f_equal; [congruence|]. apply IH. congruence. Qed.

(** *** An archive without failures *)
Definition healthy : Prop :=
  ∀ t h, open_bucket t h = Some (file h, false) ∧ bucket_exists t h = Some true ∧ ctx_done t = false.
Context (Hhealthy : healthy).

Lemma readBucketEntry_healthy h pos x v t :
  (pos ≤ length (file h))%nat → ReadOne UnmarshalBucketEntry (whole h pos) = (x, Ret v) →
  readBucketEntry (whole h pos) h t = (S t, whole h (bytesRead x), Ret v) ∧ (bytesRead x ≤ length (file h))%nat.
Proof using Hhealthy.
  intros Hp E. assert (stream_of h (whole h pos)) as Hs by by split_and!.
  pose proof (ReadOne_honest h _ _ _ Hs E) as [(_ & _ & _ & Hx) Hr]. change (bytesRead (whole h pos)) with pos in Hr.
  rewrite E in Hr. injection Hr as Hr.
  split; [|rewrite Hr in Hx; exact Hx].
  unfold readBucketEntry, maxStreamRetries. cbn [read_attempts]. destruct (Hhealthy t h) as (_ & _ & ->). rewrite E. by rewrite <- Hr.
Qed.

Lemma load_batch_healthy k h pos (es : list BucketEntry) t :
  (pos ≤ length (file h))%nat → bucket_entries h pos es → ∃ t' pos',
    load_batch k h t (whole h pos) = (t', whole h pos', Ret (take k es, bool_decide (length es < k)%nat)) ∧
    (pos' ≤ length (file h))%nat ∧ ((k ≤ length es)%nat → bucket_entries h pos' (drop k es)).
Proof using Hhealthy.
  revert pos es t. induction k as [|k IH]; intros pos es t Hp He; cbn [load_batch].
  { exists t, pos. rewrite bool_decide_false by lia. done. }
  destruct He as [pos x E|pos x e es E He];
    destruct (readBucketEntry_healthy _ _ _ _ t Hp E) as [-> Hx].
  - exists (S t), (bytesRead x). split_and!; [done..|]. cbn. lia.
  - destruct (IH (bytesRead x) es (S t) Hx He) as (t' & pos' & -> & ? & Hd). exists t', pos'. split_and!; [|done|].
    + cbn [take length]. by rewrite (bool_decide_ext (S (length es) < S k)%nat (length es < k)%nat) by lia.
    + intros. apply Hd. cbn [length] in *. lia.
Qed.

Lemma stream_batches_healthy fuel k h oldest pos (es : list BucketEntry) t p sent :
  (0 < k)%nat → (length es / k < fuel)%nat →
  (pos ≤ length (file h))%nat → bucket_entries h pos es → progress_ok p es = true → ∃ t' pos' p',
    stream_batches fuel k h oldest false t (whole h pos) p sent
      = (t', whole h pos', p', sent ++ (Ret <$> emitted oldest (tempStore p) es), true) ∧
    tempStore p' = seen oldest (tempStore p) es.
Proof using Hhealthy.
  intros Hk. revert pos es t p sent. induction fuel as [|fuel IH]; intros pos es t p sent Hf Hp He Hok; [lia|]. cbn [stream_batches].
  destruct (load_batch_healthy k h pos es t Hp He) as (t1 & pos1 & -> & Hp1 & Hrest).
  rewrite <- (take_drop k es) in Hok.
  destruct (process_batch_healthy oldest p (take k es) (drop k es) sent Hok) as (p1 & sent1 & E & Hok1). rewrite E.
  apply process_batch_spec in E as (_ & _ & Hd). destruct (Hd eq_refl) as [Hs1 Hp']. case_bool_decide as Hl.
  - rewrite take_ge in * by lia. exists t1, pos1, p1. by rewrite Hs1.
  - assert (length (drop k es) / k < fuel)%nat as Hf1.
    { rewrite length_drop. replace (length es) with ((length es - k) + 1 * k)%nat in Hf by lia. rewrite Nat.div_add in Hf; lia. }
    destruct (IH pos1 (drop k es) t1 p1 sent1) as (t2 & pos2 & p2 & -> & Hp2); [done..|apply Hrest; lia|done|].
    exists t2, pos2, p2. rewrite Hs1, Hp2, Hp', <- app_assoc, <- fmap_app, <- emitted_app, <- seen_app. by rewrite take_drop.
Qed.

Lemma stream_loop_healthy fuel (buckets : list Hash) (ess : list (list BucketEntry)) t store sent :
  Forall2 (λ h es, sha256 (file h) = h ∧ bucket_entries h 0 es) buckets ess →
  Forall (λ es, (length es / preloadedEntries < fuel)%nat ∧ progress_ok (MkProgress ∅ 0 0) es = true) ess →
  stream_loop fuel buckets false t store sent = sent ++ (Ret <$> emitted_all store ess).
Proof using Hhealthy.
  intros Hb. revert t store sent. induction Hb as [|h es buckets ess [Hh He] Hb IH]; intros t store sent Hok; cbn [stream_loop].
  { cbn. by rewrite app_nil_r. }
  apply Forall_cons in Hok as [[Hf Hok] Hrest].
  unfold bucketExists, maxStreamRetries. cbn [exists_attempts]. destruct (Hhealthy t h) as (_ & -> & _).
  unfold streamBucketContents, newXDRStream. destruct (Hhealthy (S t) h) as (-> & _). cbn [option_bind mbind].
  change (SetExpectedHash (NewXdrStream (file h) false) h) with (whole h 0).
  destruct (stream_batches_healthy fuel preloadedEntries h (bool_decide (buckets = [])) 0 es (S (S t)) (MkProgress store 0 0) sent)
    as (t1 & pos1 & p1 & -> & Hp1); [unfold preloadedEntries; lia|done|lia|done|done|].
  unfold Close. cbn [expectedHash broken contents whole]. rewrite bool_decide_true by done.
  rewrite IH by done. cbn [emitted_all]. rewrite Hp1, fmap_app, <- app_assoc. cbn [tempStore].
  rewrite (bool_decide_ext (buckets = []) (ess = [])); [done|]. split; intros ->; by inversion Hb.
Qed.
End honest.

(** ** What the reader does *)

(** C38: Reading the state of a checkpoint.  The archive may break off a stream,
    fail to open it or not find a bucket at any time, but the bytes that it serves
    for a bucket are always the same.  If the reader reports no error, the hash of
    every bucket is the one that the archive state names, and if the buckets keep
    the rules of a bucket list (a key is at most once in a bucket, and what an
    [INITENTRY] creates is not there in the older buckets), what is read is the
    content of the bucket list, every entry once.  And an archive that does not
    fail, whose buckets have their metadata where the reader accepts it, is read
    without an error. *)
Theorem SingleLedgerStateReader_reads `{NW : Network} `{BF : BucketFiles} (file : Hash → list Z)
    (fuel : nat) (has : HistoryArchiveState) (t : nat) :
  consistent_files file →
  (Forall is_ret (streamBuckets fuel has t) → ∃ buckets ess, state_buckets has = Ret buckets ∧
    Forall2 (λ h es, sha256 (file h) = h ∧ bucket_entries file h 0 es) buckets ess ∧
    (bucket_list_ok ess →
      ∃ out, streamBuckets fuel has t = Ret <$> out ∧ out ≡ₚ (map_to_list (bucket_state ess)).*2)) ∧
  (∀ buckets ess, healthy file → state_buckets has = Ret buckets →
    Forall2 (λ h es, sha256 (file h) = h ∧ bucket_entries file h 0 es) buckets ess →
    Forall (λ es, (length es / preloadedEntries < fuel)%nat ∧ progress_ok (MkProgress ∅ 0 0) es = true) ess →
    Forall is_ret (streamBuckets fuel has t)).
Proof.
  intros Hfiles. unfold streamBuckets. split.
  - destruct (state_buckets has) as [buckets|e|]; [|intros [? _]%Forall_cons; done..].
    destruct (stream_loop_spec file Hfiles fuel buckets false t ∅ []) as [_ Hok]. intros Hc.
    destruct (Hok eq_refl Hc) as (ess & Hess & ->). exists buckets, ess. split_and!; [done..|].
    intros Hl. exists (emitted_all ∅ ess). split; [done|]. by apply emitted_all_permutation.
  - intros buckets ess Hh -> Hess Hok. rewrite (stream_loop_healthy file Hh fuel buckets ess) by done.
    apply Forall_fmap, Forall_true. done.
Qed.

Module Example_archive.
Definition record (body : list Z) : list Z := [0x80; 0; 0; Z.of_nat (length body)] ++ body.
Definition entry (k v : Z) : LedgerEntry := MkEntry 5 (DataData (MkData (MkAccountId []) [k] [v])) None.
(** A checksum for a hash, and bodies of three bytes. *)
#[local] Instance network : Network := {|
  sha256 bs := replicate 32 (Z.land (foldr Z.add 0 bs) 0xff); NetworkPassphrase := [65]; MasterKey := MkAccountId [];
  MarshalPayload _ _ := None |}.
Definition Unmarshal (body : list Z) : option (BucketEntry * nat) :=
  match body with
  | [0; k; v] => Some (LIVEENTRY (entry k v), 3%nat)
  | [1; k; _] => Some (DEADENTRY (LedgerEntry_LedgerKey (entry k 0)), 3%nat)
  | [2; k; v] => Some (INITENTRY (entry k v), 3%nat)
  | [3; v; _] => Some (METAENTRY v, 3%nat)
  | _ => None
  end.
Definition newer_entries : list BucketEntry :=
  [METAENTRY 13; LIVEENTRY (entry 65 2); DEADENTRY (LedgerEntry_LedgerKey (entry 66 0))].
Definition older_entries : list BucketEntry :=
  [METAENTRY 13; INITENTRY (entry 65 1); INITENTRY (entry 66 1); INITENTRY (entry 67 1)].
Definition newer_file : list Z := record [3; 13; 0] ++ record [0; 65; 2] ++ record [1; 66; 0].
Definition older_file : list Z := record [3; 13; 0] ++ record [2; 65; 1] ++ record [2; 66; 1] ++ record [2; 67; 1].
Definition newer : Hash := sha256 newer_file.
Definition older : Hash := sha256 older_file.
Definition file (h : Hash) : list Z := if bool_decide (h = newer) then newer_file else older_file.
Definition has : HistoryArchiveState :=
  MkHAS 63 [65] [MkLevel (Hash_String newer) (Hash_String (replicate 32 0)) []; MkLevel (Hash_String older) (Hash_String (replicate 32 0)) []].
#[local] Instance files : BucketFiles := {|
  UnmarshalBucketEntry := Unmarshal; open_bucket _ h := Some (file h, false); bucket_exists _ _ := Some true; ctx_done _ := false |}.

(** The first time that a bucket is opened its entry is another one, and then the
    stream breaks off. *)
Definition forged_file : list Z := record [3; 13; 0] ++ record [0; 65; 99].
#[local] Instance forging_files : BucketFiles := {|
  UnmarshalBucketEntry := Unmarshal;
  open_bucket t h := if bool_decide (t = 1)%nat then Some (forged_file, true) else Some (file h, false);
  bucket_exists _ _ := Some true; ctx_done _ := false |}.
End Example_archive.

(** An archive can have other entries read than those of the hashed file: only the
    stream that was opened last is checked. *)
Lemma forged_entries_pass :
  let sent := streamBuckets (NW := Example_archive.network) (BF := Example_archive.forging_files) 1 Example_archive.has 0 in
  Forall is_ret sent ∧ Ret (Example_archive.entry 65 99) ∈ sent.
Proof. split; [apply (bool_decide_unpack _); by vm_compute|]. vm_compute. left. Qed.

Theorem SingleLedgerStateReader_reads_witness :
  Forall is_ret (streamBuckets (NW := Example_archive.network) (BF := Example_archive.files) 1 Example_archive.has 0) ∧
  bucket_list_ok [Example_archive.newer_entries; Example_archive.older_entries] ∧
  ∃ buckets ess, state_buckets Example_archive.has = Ret buckets ∧
    Forall2 (λ h es, sha256 (Network := Example_archive.network) (Example_archive.file h) = h ∧
      bucket_entries (BF := Example_archive.files) Example_archive.file h 0 es) buckets ess ∧
    (bucket_list_ok ess → ∃ out,
      streamBuckets (NW := Example_archive.network) (BF := Example_archive.files) 1 Example_archive.has 0 = Ret <$> out ∧
      out ≡ₚ (map_to_list (bucket_state ess)).*2).
Proof.
  destruct (SingleLedgerStateReader_reads (NW := Example_archive.network) (BF := Example_archive.files) Example_archive.file
    1 Example_archive.has 0) as [Hsound Hhealthy].
  { intros t h bytes broken [= <- <-]. done. }
  assert (Forall is_ret (streamBuckets (NW := Example_archive.network) (BF := Example_archive.files) 1 Example_archive.has 0)) as Hret.
  { apply (Hhealthy [Example_archive.newer; Example_archive.older] [Example_archive.newer_entries; Example_archive.older_entries]).
    - done.
    - by vm_compute.
    - repeat constructor; try (by vm_compute); repeat (eapply entries_next; [vm_compute; reflexivity|]); eapply entries_end; vm_compute; reflexivity.
    - repeat constructor; apply (bool_decide_unpack _); by vm_compute. }
  split; [exact Hret|]. split; [|exact (Hsound Hret)].
  apply bucket_list_cons; [| |apply bucket_list_cons; [| |constructor]]; try (apply (bool_decide_unpack _); by vm_compute).
  - intros e. unfold Example_archive.newer_entries. rewrite !elem_of_cons. intros [?|[?|[?|[]%elem_of_nil]]]; done.
  - intros e _. apply lookup_empty.
Defined.
