(* ===== verification/StateVerifier.v ===== *)
(** * ingest/verify: comparing a database with a history archive

    Models [src/ingest/verify/main.go], the loop of [verifyState] in
    [src/services/aurora/internal/ingest/verify.go] that drives it, and
    [transformEntry] of the same file.  The reader is the list of what its
    [Read] still returns; the generated marshallers are a parameter, and so is
    what the loop asks the database for (the queries are in IngestVerify.v).  The
    verifier is not used after an error. *)

From S2P Require Import Prelude Strkey Xdr LedgerEntry.

Inductive verify_error :=
  | ErrRead
  | ErrMarshal
  | ErrIgnored
  | ErrUnread
  | StateErrNotFoundLocally
  | StateErrNotInArchive
  | StateErrMismatch
  | StateErrCount.

(** [ingesterrors.StateError] *)
Definition is_state_error (e : verify_error) : bool :=
  match e with
  | StateErrNotFoundLocally | StateErrNotInArchive | StateErrMismatch | StateErrCount => true
  | _ => false
  end.

(** Whether to ignore the entry, the new entry, and the entry that was passed
    as the caller sees it afterwards: what a function changes through the
    pointers of its argument, it changes in the caller's copy too. *)
Definition TransformLedgerEntryFunction : Type :=
  LedgerEntry → outcome verify_error (bool * LedgerEntry * LedgerEntry).

Record StateVerifier := MkVerifier {
  StateReader : list (verify_error + LedgerEntry);
  readEntries : Z;
  readingDone : bool;
  currentEntries : gmap gostring LedgerEntry }.

Section verifier.
Context (MarshalBase64 : LedgerKey → option gostring).
Context (MarshalBinary : LedgerEntry → option (list Z)).
Context (TransformFunction : option TransformLedgerEntryFunction).

Definition marshal {A B} (f : A → option B) (x : A) : outcome verify_error B :=
  match f x with Some b => Ret b | None => Fail ErrMarshal end.

Definition checkUnreadEntries (v : StateVerifier) : outcome verify_error unit :=
  if (0 <? size (currentEntries v))%nat then Fail StateErrNotFoundLocally else Ret tt.

(** Each round takes one entry from the reader; [n] has been counted. *)
Fixpoint keys_loop (reader : list (verify_error + LedgerEntry)) (count n : Z)
    (entries : gmap gostring LedgerEntry) (keys : list LedgerKey)
  : outcome verify_error (StateVerifier * list LedgerKey) :=
  if count <=? 0 then Ret (MkVerifier reader n false entries, keys) else
  match reader with
  | [] => Ret (MkVerifier [] n true entries, keys)
  | inl err :: _ => Fail err
  | inr entry :: reader' =>
      '(ignore, entry) ←
        match TransformFunction with
        | None => Ret (false, entry)
        | Some transform =>
            '(ignore, _, entry) ← transform entry;
            Ret (ignore, entry)
        end;
      if ignore : bool then keys_loop reader' count n entries keys else
      let ledgerKey := LedgerEntry_LedgerKey entry in
      key ← marshal MarshalBase64 ledgerKey;
      keys_loop reader' (count - 1) (n + 1) (<[key := entry]> entries) (keys ++ [ledgerKey])
  end.

Definition GetLedgerKeys (v : StateVerifier) (count : Z)
  : outcome verify_error (StateVerifier * list LedgerKey) :=
  _ ← checkUnreadEntries v;
  '(v', keys) ← keys_loop (StateReader v) count (readEntries v) ∅ [];
  Ret (MkVerifier (StateReader v') (readEntries v') (readingDone v || readingDone v') (currentEntries v'), keys).

Definition Write (v : StateVerifier) (entry : LedgerEntry) : outcome verify_error StateVerifier :=
  actualEntryMarshaled ← marshal MarshalBinary entry;
  key ← marshal MarshalBase64 (LedgerEntry_LedgerKey entry);
  match currentEntries v !! key with
  | None => Fail StateErrNotInArchive
  | Some expectedEntry =>
      let v := MkVerifier (StateReader v) (readEntries v) (readingDone v) (delete key (currentEntries v)) in
      _ ← marshal MarshalBinary expectedEntry;
      expectedEntry ←
        match TransformFunction with
        | None => Ret expectedEntry
        | Some transform =>
            '(ignore, expectedEntry, _) ← transform expectedEntry;
            if ignore : bool then Fail ErrIgnored else Ret expectedEntry
        end;
      expectedEntryMarshaled ← marshal MarshalBinary expectedEntry;
      if bool_decide (actualEntryMarshaled = expectedEntryMarshaled) then Ret v
      else Fail StateErrMismatch
  end.

Definition Verify (v : StateVerifier) (countAll : Z) : outcome verify_error unit :=
  _ ← checkUnreadEntries v;
  if negb (readingDone v) then Fail ErrUnread else
  if negb (readEntries v =? countAll) then Fail StateErrCount else Ret tt.

(** ** The loop of verifyState

    [fetch keys] are the entries of the database with the given keys, [count]
    is the number of all entries. *)
Context (fetch : list LedgerKey → list LedgerEntry) (count : Z).
Definition verifyBatchSize : Z := 50000.

(** Enough fuel is given by [verifyState_spec]; running out is a panic. *)
Fixpoint verify_loop (fuel : nat) (batchSize : Z) (v : StateVerifier) : outcome verify_error StateVerifier :=
  match fuel with
  | O => Panic
  | S fuel' =>
      '(v, keys) ← GetLedgerKeys v batchSize;
      match keys with
      | [] => Ret v
      | _ =>
          v ← mfold Write v (fetch keys);
          verify_loop fuel' batchSize v
      end
  end.
Definition verifyState (fuel : nat) (batchSize : Z) (reader : list (verify_error + LedgerEntry))
  : outcome verify_error unit :=
  v ← verify_loop fuel batchSize (MkVerifier reader 0 false ∅);
  Verify v count.

End verifier.

(** ** Correctness of the loop *)

(** What the transformation, if any, makes of an entry. *)
Definition transformed (f : option TransformLedgerEntryFunction) (e : LedgerEntry)
    (ignore : bool) (new after : LedgerEntry) : Prop :=
  match f with
  | None => ignore = false ∧ new = e ∧ after = e
  | Some transform => transform e = Ret (ignore, new, after)
  end.

Section verifies.
Context (K : LedgerKey → option gostring) (M : LedgerEntry → list Z).
Context (F : option TransformLedgerEntryFunction).
Context (ignored : LedgerEntry → bool) (new after : LedgerEntry → LedgerEntry).
Context (store : gmap gostring LedgerEntry) (fetch : list LedgerKey → list LedgerEntry).
Context (batchSize : Z).

Definition key_text (k : LedgerKey) : gostring := default [] (K k).
Definition entry_key (e : LedgerEntry) : gostring := key_text (LedgerEntry_LedgerKey e).
Definition kept (es : list LedgerEntry) : list LedgerEntry := filter (λ e, ignored e = false) es.

(** Transforming twice is transforming once, also through the caller's copy. *)
Definition steady (e : LedgerEntry) : Prop :=
  transformed F e (ignored e) (new e) (after e) ∧
  (∃ a, transformed F (after e) (ignored e) (new e) a) ∧
  LedgerEntry_LedgerKey (after e) = LedgerEntry_LedgerKey e ∧ K (LedgerEntry_LedgerKey e) = Some (entry_key e).

(** [m] holds the entries of [l] that are still to be compared. *)
Definition pending (m : gmap gostring LedgerEntry) (l : list LedgerEntry) : Prop :=
  (∀ e, e ∈ l → m !! entry_key e = Some (after e)) ∧ (∀ k, k ∉ entry_key <$> l → m !! k = None).

Lemma pending_nil : pending ∅ [].
Proof. split; [by intros ? ?%not_elem_of_nil|]. intros k _. apply lookup_empty. Qed.

Lemma pending_snoc m l e :
  pending m l → entry_key e ∉ entry_key <$> l → pending (<[entry_key e := after e]> m) (l ++ [e]).
Proof.
  intros [H1 H2] He. split.
  - intros e' [Hin| ->%list_elem_of_singleton]%elem_of_app; [|by rewrite lookup_insert_eq].
    rewrite lookup_insert_ne; [by apply H1|]. intros E. apply He. rewrite E. by apply list_elem_of_fmap_2.
  - intros k Hk. rewrite fmap_app, not_elem_of_app in Hk. destruct Hk as [Hk1 Hk2].
    rewrite lookup_insert_ne; [by apply H2|]. intros <-. apply Hk2. simpl. by apply list_elem_of_singleton.
Qed.

Lemma pending_empty m l : pending m l → (0 <? size m)%nat = false ↔ l = [].
Proof.
  intros [H1 H2]. rewrite Nat.ltb_ge. split.
  - intros Hs. destruct l as [|e l]; [done|]. specialize (H1 e ltac:(by left)).
    assert (m = ∅) as -> by (apply map_size_empty_inv; lia). by rewrite lookup_empty in H1.
  - intros ->. assert (m = ∅) as ->; [|by rewrite map_size_empty].
    apply map_eq. intros k. rewrite lookup_empty. apply H2. apply not_elem_of_nil.
Qed.

Lemma kept_cons e l : kept (e :: l) = if ignored e then kept l else e :: kept l.
Proof. unfold kept. rewrite filter_cons. by destruct (ignored e). Qed.
Lemma kept_app l k : kept (l ++ k) = kept l ++ kept k.
Proof. apply filter_app. Qed.

Lemma keys_loop_spec es : ∀ count n m keys B,
  Forall steady es → pending m B → NoDup (entry_key <$> B ++ kept es) →
  ∃ es1 es2 m' done, es = es1 ++ es2 ∧
    keys_loop K F (inr <$> es) count n m keys =
      Ret (MkVerifier (inr <$> es2) (n + Z.of_nat (length (kept es1))) done m',
           keys ++ (LedgerEntry_LedgerKey <$> kept es1)) ∧
    pending m' (B ++ kept es1) ∧ (done = true → es2 = []) ∧
    (0 < count → kept es1 = [] → done = true).
Proof.
  induction es as [|e es IH]; intros count n m keys B Hst Hp Hn.
  { exists [], [], m, (negb (count <=? 0)). cbn [fmap list_fmap keys_loop].
    change (kept []) with (@nil LedgerEntry). rewrite !app_nil_r, Z.add_0_r. simpl.
    destruct (Z.leb_spec count 0); (split_and!; [done..|lia || done]). }
  cbn [fmap list_fmap keys_loop]. destruct (Z.leb_spec count 0) as [Hc|Hc].
  { exists [], (e :: es), m, false. change (kept []) with (@nil LedgerEntry).
    rewrite !app_nil_r, Z.add_0_r. split_and!; (done || lia). }
  apply Forall_cons in Hst as [(He & _ & Hkey & HK) Hst].
  assert (∀ (f : bool * LedgerEntry → outcome verify_error (StateVerifier * list LedgerKey)),
    outcome_bind f match F with
      | None => Ret (false, e)
      | Some transform => outcome_bind (λ '(ignore, _, entry), Ret (ignore, entry)) (transform e)
      end = f (ignored e, after e)) as Hbind.
  { intros f. unfold transformed in He. destruct F as [t|]; [by rewrite He|]. by destruct He as (-> & _ & ->). }
  outcome_simpl. rewrite Hbind. rewrite kept_cons in Hn. destruct (ignored e) eqn:Ei.
  - destruct (IH count n m keys B Hst Hp Hn) as (es1 & es2 & m' & done & -> & -> & Hp' & Hd & Hk).
    exists (e :: es1), es2, m', done. rewrite kept_cons, Ei. done.
  - rewrite Hkey. unfold marshal. rewrite HK. cbn [outcome_bind].
    replace (B ++ e :: kept es) with ((B ++ [e]) ++ kept es) in Hn by by rewrite <- app_assoc.
    assert (entry_key e ∉ entry_key <$> B) as Hfresh.
    { rewrite !fmap_app in Hn. apply NoDup_app in Hn as (Hn & _ & _). apply NoDup_app in Hn as (_ & Hn & _).
      intros Hin. apply (Hn _ Hin). by left. }
    destruct (IH (count - 1) (n + 1) _ (keys ++ [LedgerEntry_LedgerKey e]) (B ++ [e]) Hst
      (pending_snoc _ _ _ Hp Hfresh) Hn) as (es1 & es2 & m' & done & -> & -> & Hp' & Hd & Hk).
    exists (e :: es1), es2, m', done. rewrite kept_cons, Ei. simpl. rewrite <- !app_assoc in *.
    split_and!; [done| |done|done|done]. do 3 f_equal. lia.
Qed.

Lemma pending_delete m l e :
  pending m l → pending (delete (entry_key e) m) (filter (λ e', entry_key e' ≠ entry_key e) l).
Proof.
  intros [H1 H2]. split.
  - intros e' [Hne Hin]%list_elem_of_filter. rewrite lookup_delete_ne by done. by apply H1.
  - intros k Hk. destruct (decide (k = entry_key e)) as [->|Hne]; [by rewrite lookup_delete_eq|].
    rewrite lookup_delete_ne by done. apply H2. intros (e' & -> & Hin)%list_elem_of_fmap.
    apply Hk. apply list_elem_of_fmap_2, list_elem_of_filter. done.
Qed.

Lemma named_key w k : K (LedgerEntry_LedgerKey w) = Some k → entry_key w = k.
Proof using Type. intros Hw. unfold entry_key, key_text. by rewrite Hw. Qed.

(** Writing an entry of the database that is found in the batch. *)
Lemma Write_one v B w e :
  pending (currentEntries v) B → steady e → e ∈ kept B → K (LedgerEntry_LedgerKey w) = Some (entry_key e) →
  Write K (λ e, Some (M e)) F v w =
    if bool_decide (M w = M (new e))
    then Ret (MkVerifier (StateReader v) (readEntries v) (readingDone v) (delete (entry_key e) (currentEntries v)))
    else Fail StateErrMismatch.
Proof.
  intros Hp (_ & (a & Ha) & _) [Hig He]%list_elem_of_filter Hke.
  unfold Write, marshal. outcome_simpl. rewrite Hke.
  cbn [outcome_bind]. rewrite (proj1 Hp e He). rewrite Hig in Ha. unfold transformed in Ha.
  destruct F as [t|]; [rewrite Ha|destruct Ha as (_ & -> & _)]; cbn [outcome_bind marshal].
  - done.
  - done.
Qed.

(** Writing entries of the database, each found in the batch [B]. *)
Lemma Write_all ws : ∀ v B,
  pending (currentEntries v) B → Forall steady B → NoDup (entry_key <$> ws) →
  (∀ w, w ∈ ws → ∃ e, e ∈ kept B ∧ K (LedgerEntry_LedgerKey w) = Some (entry_key e)) →
  (∃ v', mfold (Write K (λ e, Some (M e)) F) v ws = Ret v' ∧
     StateReader v' = StateReader v ∧ readEntries v' = readEntries v ∧ readingDone v' = readingDone v ∧
     pending (currentEntries v') (filter (λ e, entry_key e ∉ entry_key <$> ws) B) ∧
     ∀ w, w ∈ ws → ∃ e, e ∈ kept B ∧ entry_key w = entry_key e ∧ M w = M (new e)) ∨
  (mfold (Write K (λ e, Some (M e)) F) v ws = Fail StateErrMismatch ∧
     ∃ w e, w ∈ ws ∧ e ∈ kept B ∧ entry_key w = entry_key e ∧ M w ≠ M (new e)).
Proof.
  induction ws as [|w ws IH]; intros v B Hp Hst Hws Hin.
  { left. exists v. split_and!; try done; [|by intros ? ?%not_elem_of_nil].
    rewrite filter_all; [done|]. apply Forall_forall. intros e _. apply not_elem_of_nil. }
  rewrite fmap_cons in Hws. apply NoDup_cons in Hws as [Hw Hws].
  destruct (Hin w ltac:(by left)) as (e & He & HKe). pose proof (named_key w _ HKe) as Hke. cbn [mfold].
  assert (steady e) as Hse.
  { rewrite Forall_forall in Hst. apply Hst. by apply list_elem_of_filter in He as [_ He]. }
  rewrite (Write_one v B w e) by done. case_bool_decide as HM; cbn [outcome_bind].
  2:{ right. split; [done|]. exists w, e. split; [by left|done]. }
  destruct (IH (MkVerifier (StateReader v) (readEntries v) (readingDone v)
      (delete (entry_key e) (currentEntries v))) (filter (λ e', entry_key e' ≠ entry_key e) B))
    as [(v' & -> & H1 & H2 & H3 & Hp' & Hall)|(-> & w' & e' & Hw' & He' & Hk' & HM')].
  - by apply pending_delete.
  - by apply Forall_filter_2.
  - done.
  - intros w' Hw'. destruct (Hin w' ltac:(by right)) as (e' & He' & Hke'). exists e'. split; [|done].
    unfold kept in *. rewrite filter_filter_comm. apply list_elem_of_filter. split; [|done].
    apply named_key in Hke'. rewrite <- Hke', <- Hke. intros E. apply Hw. rewrite <- E. by apply list_elem_of_fmap_2.
  - left. exists v'. split_and!; try done.
    + rewrite list_filter_filter in Hp'. eapply (eq_rect _ (pending _) Hp'). apply list_filter_iff.
      intros x. rewrite fmap_cons, Hke, not_elem_of_cons. tauto.
    + intros w' [-> | Hw']%elem_of_cons; [by exists e|]. destruct (Hall w' Hw') as (e' & He' & ?).
      exists e'. split; [|done]. unfold kept in *. rewrite filter_filter_comm in He'.
      by apply list_elem_of_filter in He' as [_ ?].
  - right. split; [done|]. exists w', e'. split; [by right|]. split; [|done].
    unfold kept in *. rewrite filter_filter_comm in He'. by apply list_elem_of_filter in He' as [_ ?].
Qed.

(** ** The whole run *)

Context (Hinj : ∀ e1 e2, M e1 = M e2 → e1 = e2).
Context (Hstore : ∀ k w, store !! k = Some w → K (LedgerEntry_LedgerKey w) = Some k).
Lemma stored_key k w : store !! k = Some w → entry_key w = k.
Proof using Hstore. intros Hw. by apply named_key, Hstore. Qed.


(** The database answers with entries that it has.  Asked for keys that it has,
    it answers with exactly their entries; asked for another key as well it may
    answer with an entry of a key that it was not asked for. *)
Definition known (k : LedgerKey) : Prop := K k = Some (key_text k) ∧ is_Some (store !! key_text k).
Context (Hfetched : ∀ keys w, w ∈ fetch keys → store !! entry_key w = Some w).
Context (Hfetch : ∀ keys, Forall known keys → NoDup (key_text <$> keys) → fetch keys ≡ₚ omap (λ k, store !! key_text k) keys).
Context (Hbatch : 0 < batchSize).

(** Entries with different keys that the database has. *)
Definition askable (B : list LedgerEntry) : Prop :=
  NoDup (entry_key <$> B) ∧ Forall (λ e, known (LedgerEntry_LedgerKey e)) B.

Lemma keys_app (B B' : list LedgerEntry) :
  NoDup (entry_key <$> B ++ B') → NoDup (entry_key <$> B) ∧ NoDup (entry_key <$> B').
Proof using Type. rewrite fmap_app. by intros (? & _ & ?)%NoDup_app. Qed.

Lemma steady_known e : steady e → is_Some (store !! entry_key e) → known (LedgerEntry_LedgerKey e).
Proof using Type. by intros (_ & _ & _ & HK) Hs. Qed.

(** The rows for the keys of a batch. *)
Lemma fetch_batch B : askable B → fetch (LedgerEntry_LedgerKey <$> B) ≡ₚ omap (λ e, store !! entry_key e) B.
Proof using Hfetch.
  intros [Hn Hg]. rewrite Hfetch.
  - by rewrite omap_fmap.
  - by rewrite Forall_fmap.
  - by rewrite <- list_fmap_compose.
Qed.

Lemma fetch_elem B w :
  askable B → w ∈ fetch (LedgerEntry_LedgerKey <$> B) ↔ ∃ e, e ∈ B ∧ store !! entry_key e = Some w.
Proof using Hfetch.
  intros HB. rewrite fetch_batch by done. apply list_elem_of_omap.
Qed.

Lemma found_key (B : list LedgerEntry) w :
  w ∈ omap (λ e, store !! entry_key e) B → entry_key w ∈ entry_key <$> B.
Proof using Hstore.
  intros (e & He & Hw)%list_elem_of_omap.
  apply stored_key in Hw. rewrite Hw. by apply (list_elem_of_fmap_2 entry_key).
Qed.

Lemma fetch_NoDup (B : list LedgerEntry) : askable B → NoDup (entry_key <$> fetch (LedgerEntry_LedgerKey <$> B)).
Proof using Hfetch Hstore.
  intros HB. rewrite fetch_batch by done. destruct HB as [Hn _]. induction B as [|e B IH]; [constructor|].
  rewrite fmap_cons in Hn. apply NoDup_cons in Hn as [He Hn].
  cbn [fmap list_fmap omap list_omap]. destruct (store !! entry_key e) as [w|] eqn:E; [|by apply IH].
  cbn [fmap list_fmap]. apply NoDup_cons. split; [|by apply IH].
  apply stored_key in E. intros (w' & Hk & Hw')%list_elem_of_fmap. apply He. rewrite <- E, Hk. by apply found_key.
Qed.

(** The database has the entries that are not ignored, as transformed, and
    the number of entries is right. *)
Definition rows_agree (l : list LedgerEntry) : Prop := ∀ e, e ∈ l → store !! entry_key e = Some (new e).
Definition agrees (es : list LedgerEntry) (n count : Z) : Prop :=
  rows_agree (kept es) ∧ n + Z.of_nat (length (kept es)) = count.

Definition verify_from (fuel : nat) (v : StateVerifier) (count : Z) : outcome verify_error unit :=
  outcome_bind (λ v, Verify v count)
    (verify_loop K (λ e, Some (M e)) F fetch fuel batchSize v).

(** An entry of the batch that is left over is not found locally. *)
Lemma leftover_fails fuel v B count e :
  pending (currentEntries v) B → e ∈ B → (1 ≤ fuel)%nat →
  verify_from fuel v count = Fail StateErrNotFoundLocally.
Proof using Type.
  intros Hp He Hf. destruct fuel as [|fuel]; [lia|]. unfold verify_from. cbn [verify_loop].
  unfold GetLedgerKeys, checkUnreadEntries.
  destruct (0 <? size (currentEntries v))%nat eqn:E; [done|].
  apply (pending_empty _ _ Hp) in E as ->. by apply not_elem_of_nil in He.
Qed.

Lemma rows_match (B : list LedgerEntry) e w :
  askable B →
  (∀ w, w ∈ fetch (LedgerEntry_LedgerKey <$> B) → ∃ e, e ∈ B ∧ entry_key w = entry_key e ∧ M w = M (new e)) →
  e ∈ B → w ∈ fetch (LedgerEntry_LedgerKey <$> B) → entry_key w = entry_key e →
  store !! entry_key e = Some (new e).
Proof using Hinj Hstore Hfetch.
  intros Hn Hall He Hw Hk. destruct (Hall w Hw) as (e' & He' & Hk' & HM).
  assert (e' = e) as -> by (apply (NoDup_key entry_key B); [apply Hn|congruence..]).
  apply Hinj in HM as ->. apply fetch_elem in Hw as (e'' & He'' & Hs); [|done].
  pose proof (stored_key _ _ Hs). congruence.
Qed.

Lemma agrees_split es1 es2 n count :
  agrees (es1 ++ es2) n count ↔ rows_agree (kept es1) ∧
  agrees es2 (n + Z.of_nat (length (kept es1))) count.
Proof using Type.
  unfold agrees, rows_agree. rewrite kept_app, length_app. setoid_rewrite elem_of_app.
  rewrite Nat2Z.inj_add, Z.add_assoc. split.
  - intros [H1 H2]. split_and!; auto.
  - intros (H1 & H2 & H3). split; [intros e [|]; auto|done].
Qed.

Lemma verify_from_S fuel v count v1 B :
  GetLedgerKeys K F v batchSize = Ret (v1, LedgerEntry_LedgerKey <$> B) →
  verify_from (S fuel) v count =
    match B with
    | [] => Verify v1 count
    | _ => outcome_bind (λ v2, verify_from fuel v2 count)
             (mfold (Write K (λ e, Some (M e)) F) v1 (fetch (LedgerEntry_LedgerKey <$> B)))
    end.
Proof using Type.
  intros H. unfold verify_from at 1. cbn [verify_loop]. rewrite H. outcome_simpl.
  destruct B as [|e B]; [done|]. by destruct (mfold _ v1 _).
Qed.

(** What one batch takes from the reader. *)
Lemma GetLedgerKeys_spec es v :
  StateReader v = inr <$> es → currentEntries v = ∅ → Forall steady es → NoDup (entry_key <$> kept es) →
  ∃ es1 es2 v1, es = es1 ++ es2 ∧
    GetLedgerKeys K F v batchSize = Ret (v1, LedgerEntry_LedgerKey <$> kept es1) ∧
    StateReader v1 = inr <$> es2 ∧ readEntries v1 = readEntries v + Z.of_nat (length (kept es1)) ∧
    pending (currentEntries v1) (kept es1) ∧ (kept es1 = [] → es2 = [] ∧ readingDone v1 = true).
Proof using Hbatch.
  intros Hr Hcur Hst Hn. unfold GetLedgerKeys, checkUnreadEntries. rewrite Hcur, map_size_empty. cbn [Nat.ltb Nat.leb]. outcome_simpl. rewrite Hr.
  destruct (keys_loop_spec es batchSize (readEntries v) ∅ [] [] Hst pending_nil Hn)
    as (es1 & es2 & m & done & -> & -> & Hp & Hd & Hk).
  eexists es1, es2, _. split; [done|]. cbn [outcome_bind app]. split; [done|].
  split_and!; [done|done|done|]. intros E. specialize (Hk Hbatch E) as ->. split; [by apply Hd|].
  apply orb_true_r.
Qed.

(** Writing the rows of one batch whose keys are all in the database. *)
Lemma known_batch_spec B v1 :
  pending (currentEntries v1) B → Forall steady B → kept B = B → askable B →
  let written := mfold (Write K (λ e, Some (M e)) F) v1 (fetch (LedgerEntry_LedgerKey <$> B)) in
  (∃ v2, written = Ret v2 ∧ StateReader v2 = StateReader v1 ∧ readEntries v2 = readEntries v1 ∧
     (currentEntries v2 = ∅ ∧ rows_agree B ∨ ∃ B2 e, pending (currentEntries v2) B2 ∧ e ∈ B2 ∧ ¬ rows_agree B)) ∨
  (written = Fail StateErrMismatch ∧ ¬ rows_agree B).
Proof using Hinj Hstore Hfetch.
  intros Hp HB Hkept Hn written. subst written.
  destruct (Write_all (fetch (LedgerEntry_LedgerKey <$> B)) v1 B Hp HB)
    as [(v2 & -> & H1 & H2 & _ & Hp2 & Hall)|(-> & w & e & Hw & He & Hke & HM)].
  - by apply fetch_NoDup.
  - intros w (e & He & Hs)%fetch_elem; [|done]. rewrite Hkept. exists e. split; [done|]. by apply Hstore.
  - left. exists v2. split_and!; [done..|]. rewrite Hkept in Hall.
    destruct (filter _ B) as [|e l] eqn:EB; [left|right].
    + split; [apply map_eq; intros k; rewrite lookup_empty; apply Hp2, not_elem_of_nil|].
      intros e He. destruct (decide (entry_key e ∈ entry_key <$> fetch (LedgerEntry_LedgerKey <$> B)))
        as [(w & Hk & Hw)%list_elem_of_fmap|Hno]; [by apply (rows_match B e w)|].
      exfalso. apply (not_elem_of_nil e). rewrite <- EB. by apply list_elem_of_filter.
    + exists (e :: l), e. split; [done|]. split; [by left|]. intros Hag.
      assert (e ∈ e :: l) as Hin by by left. rewrite <- EB in Hin. apply list_elem_of_filter in Hin as [Hno He].
      specialize (Hag e He). apply Hno. rewrite <- (stored_key _ _ Hag).
      apply list_elem_of_fmap_2, fetch_elem; [done|]. by exists e.
  - right. split; [done|]. intros Hag. rewrite Hkept in He. specialize (Hag e He).
    apply fetch_elem in Hw as (e' & _ & Hs); [|done]. pose proof (stored_key _ _ Hs). congruence.
Qed.

(** An entry that the database does not have is not found: what the database
    answers does not take it out of the batch. *)
Lemma Write_missing ws e : ∀ v B,
  pending (currentEntries v) B → Forall steady B → kept B = B → (∀ w, w ∈ ws → store !! entry_key w = Some w) →
  e ∈ B → store !! entry_key e = None →
  let written := mfold (Write K (λ e, Some (M e)) F) v ws in
  (∃ v2 B2, written = Ret v2 ∧ StateReader v2 = StateReader v ∧ readEntries v2 = readEntries v ∧
     pending (currentEntries v2) B2 ∧ e ∈ B2) ∨
  (∃ err, written = Fail err ∧ is_state_error err = true).
Proof using Hstore.
  induction ws as [|w ws IH]; intros v B Hp HB Hkept Hws He Hnone written; subst written.
  { left. by exists v, B. }
  cbn [mfold]. pose proof (Hws w ltac:(by left)) as Hw. pose proof (Hstore _ _ Hw) as HK.
  destruct (decide (entry_key w ∈ entry_key <$> B)) as [(e' & Hk & He')%list_elem_of_fmap|Hno].
  - rewrite (Write_one v B w e'); [|done|by eapply Forall_forall in HB|by rewrite Hkept|by rewrite <- Hk].
    case_bool_decide; cbn [outcome_bind]; [|right; by exists StateErrMismatch].
    destruct (IH (MkVerifier (StateReader v) (readEntries v) (readingDone v) (delete (entry_key e') (currentEntries v)))
      (filter (λ e0, entry_key e0 ≠ entry_key e') B)) as [(v2 & B2 & -> & ?)|?]; [..|left; by exists v2, B2|by right].
    + by apply pending_delete.
    + by apply Forall_filter_2.
    + unfold kept in *. by rewrite filter_filter_comm, Hkept.
    + intros w' Hw'. apply Hws. by right.
    + apply list_elem_of_filter. split; [|done]. intros Heq. rewrite Heq, <- Hk, Hw in Hnone. done.
    + done.
  - right. exists StateErrNotInArchive. split; [|done]. unfold Write, marshal. outcome_simpl. rewrite HK.
    cbn [outcome_bind]. by rewrite (proj2 Hp _ Hno).
Qed.

(** Writing the rows of one batch. *)
Lemma batch_spec B v1 :
  pending (currentEntries v1) B → Forall steady B → kept B = B → NoDup (entry_key <$> B) →
  let written := mfold (Write K (λ e, Some (M e)) F) v1 (fetch (LedgerEntry_LedgerKey <$> B)) in
  (∃ v2, written = Ret v2 ∧ StateReader v2 = StateReader v1 ∧ readEntries v2 = readEntries v1 ∧
     (currentEntries v2 = ∅ ∧ rows_agree B ∨ ∃ B2 e, pending (currentEntries v2) B2 ∧ e ∈ B2 ∧ ¬ rows_agree B)) ∨
  (∃ err, written = Fail err ∧ is_state_error err = true ∧ ¬ rows_agree B).
Proof using Hinj Hstore Hfetch Hfetched.
  intros Hp HB Hkept Hn written.
  destruct (decide (Exists (λ e, store !! entry_key e = None) B)) as [(e & He & Hnone)%Exists_exists|Hall].
  - assert (¬ rows_agree B) as Hno by (intros Hag; specialize (Hag e He); congruence).
    destruct (Write_missing (fetch (LedgerEntry_LedgerKey <$> B)) e v1 B) as [(v2 & B2 & ? & ? & ? & ? & ?)|(err & ? & ?)];
      [done..|by apply Hfetched|done|done| |right; by exists err].
    left. exists v2. split_and!; [done..|]. right. by exists B2, e.
  - apply not_Exists_Forall in Hall; [|intros e; apply _].
    assert (askable B) as Hask.
    { split; [done|]. rewrite Forall_forall in *. intros e He. apply steady_known; [by apply HB|].
      apply not_eq_None_Some, (Hall e He). }
    destruct (known_batch_spec B v1 Hp HB Hkept Hask) as [?|[? ?]]; [by left|right; by eexists].
Qed.

Lemma verify_loop_spec fuel : ∀ es v count,
  StateReader v = inr <$> es → currentEntries v = ∅ → Forall steady es →
  NoDup (entry_key <$> kept es) → (length es + 2 ≤ fuel)%nat →
  (verify_from fuel v count = Ret tt ∧ agrees es (readEntries v) count) ∨
  (∃ e, verify_from fuel v count = Fail e ∧ is_state_error e = true ∧ ¬ agrees es (readEntries v) count).
Proof using Hinj Hstore Hfetch Hfetched Hbatch.
  induction fuel as [|fuel IH]; intros es v count Hr Hcur Hst Hn Hf; [lia|].
  destruct (GetLedgerKeys_spec es v Hr Hcur Hst Hn) as (es1 & es2 & v1 & -> & E & Hr1 & Hn1' & Hp & Hd).
  rewrite (verify_from_S _ _ _ _ _ E). clear E.
  rewrite kept_app in Hn. apply keys_app in Hn as [Hn1 Hn2].
  apply Forall_app in Hst as [Hst1 Hst2]. setoid_rewrite agrees_split. rewrite <- Hn1'.
  assert (length (kept es1) ≤ length es1)%nat as Hlen by apply length_filter.
  assert (Forall steady (kept es1) ∧ kept (kept es1) = kept es1) as [HB Hkept].
  { split; [by apply Forall_filter_2|]. unfold kept. rewrite list_filter_filter.
    apply list_filter_iff. tauto. }
  destruct (kept es1) as [|e0 B0] eqn:EB.
  { destruct (Hd eq_refl) as [-> Hdone].
    unfold Verify, checkUnreadEntries. rewrite (proj2 (pending_empty _ [] Hp) eq_refl), Hdone. cbn.
    unfold agrees, rows_agree. cbn [kept filter list_filter length]. rewrite Z.add_0_r.
    destruct (Z.eqb_spec (readEntries v1) count) as [->|Hne]; cbn [negb]; [left|right].
    - split_and!; [done|by intros ? ?%not_elem_of_nil..|done].
    - exists StateErrCount. split_and!; [done..|]. intros (_ & _ & ?). by apply Hne. }
  destruct (batch_spec (e0 :: B0) v1 Hp HB Hkept Hn1)
    as [(v2 & -> & H1 & H2 & [[Hempty Hrows]|(B2 & e & Hp2 & He & Hno)])|(err & -> & Herr & Hno)]; cbn [outcome_bind].
  - rewrite length_app in Hf. rewrite <- H2.
    destruct (IH es2 v2 count) as [[-> Hag]|(err & -> & Herr & Hag)];
      [congruence|done|done|done|simpl in Hlen; lia|by left|].
    right. exists err. split_and!; [done..|]. by intros [_ ?].
  - right. exists StateErrNotFoundLocally. split_and!; [|done|by intros [? _]].
    apply (leftover_fails _ _ B2 _ e); (done || lia).
  - right. exists err. split_and!; [done..|]. by intros [? _].
Qed.

(** What a run that finds no difference fetched: the entries of the archive. *)
Fixpoint fetched (fuel : nat) (v : StateVerifier) : list LedgerEntry :=
  match fuel with
  | O => []
  | S fuel' =>
      match GetLedgerKeys K F v batchSize with
      | Ret (v, keys) =>
          match keys with
          | [] => []
          | _ =>
              fetch keys ++
              match mfold (Write K (λ e, Some (M e)) F) v (fetch keys) with
              | Ret v => fetched fuel' v
              | _ => []
              end
          end
      | _ => []
      end
  end.

Lemma fetch_agrees B : askable B → rows_agree B → fetch (LedgerEntry_LedgerKey <$> B) ≡ₚ new <$> B.
Proof using Hfetch.
  intros HB Hag. rewrite fetch_batch by done. clear HB. induction B as [|e B IH]; [done|].
  cbn [omap list_omap]. rewrite (Hag e) by by left. rewrite fmap_cons. f_equiv. apply IH. intros e' He'. apply Hag. by right.
Qed.

Lemma fetched_spec fuel : ∀ es v count,
  StateReader v = inr <$> es → currentEntries v = ∅ → Forall steady es → NoDup (entry_key <$> kept es) →
  verify_from fuel v count = Ret tt → fetched fuel v ≡ₚ new <$> kept es.
Proof using Hinj Hstore Hfetch Hfetched Hbatch.
  induction fuel as [|fuel IH]; intros es v count Hr Hcur Hst Hn; [done|].
  destruct (GetLedgerKeys_spec es v Hr Hcur Hst Hn) as (es1 & es2 & v1 & -> & E & Hr1 & _ & Hp & Hd).
  rewrite (verify_from_S _ _ _ _ _ E). cbn [fetched]. rewrite E.
  rewrite kept_app in *. apply keys_app in Hn as [Hn1 Hn2]. apply Forall_app in Hst as [Hst1 Hst2].
  assert (Forall steady (kept es1) ∧ kept (kept es1) = kept es1) as [HB Hkept].
  { split; [by apply Forall_filter_2|]. unfold kept. rewrite list_filter_filter. apply list_filter_iff. tauto. }
  destruct (kept es1) as [|e0 B0] eqn:EB; [by destruct (Hd eq_refl) as [-> _]|].
  destruct (batch_spec (e0 :: B0) v1 Hp HB Hkept Hn1)
    as [(v2 & -> & H1 & H2 & [[Hempty Hrows]|(B2 & e & Hp2 & He & Hno)])|(err & -> & Herr & Hno)]; cbn [outcome_bind]; [| |done].
  - intros Hret. rewrite fmap_app. change (fetch (LedgerEntry_LedgerKey <$> e0 :: B0) ++ fetched fuel v2 ≡ₚ
      (new <$> e0 :: B0) ++ (new <$> kept es2)).
    rewrite fetch_agrees; [f_equiv|split; [done|]|done].
    2:{ rewrite Forall_forall in *. intros e He. apply steady_known; [by apply HB|]. rewrite (Hrows e He). by eexists. }
    apply (IH es2 v2 count); [congruence|done..].
  - intros Hret. destruct fuel as [|fuel]; [done|]. by rewrite (leftover_fails (S fuel) _ B2 _ e) in Hret by (done || lia).
Qed.
End verifies.

(** ** transformEntry (verify.go of aurora) *)

(** [sponsorsMap[signer.Key.Address()] = signerSponsoringIDs[i]] *)
Fixpoint sponsors_loop (signers : list Signer) (ids : list (option AccountId))
    (sponsorsMap : gmap gostring (option AccountId)) : outcome verify_error (gmap gostring (option AccountId)) :=
  match signers, ids with
  | [], _ => Ret sponsorsMap
  | _ :: _, [] => Panic
  | signer :: signers', id :: ids' =>
      a ← must (SignerKey_Address (Some (Key signer)));
      sponsors_loop signers' ids' (<[a := id]> sponsorsMap)
  end.

(** The account is changed in place. *)
Definition transformAccount (a : AccountEntry) : outcome verify_error AccountEntry :=
  let v1 := default (MkAccountV1 no_liabilities None) (Account_Ext a) in
  let v2 := default (MkAccountV2 0 0 (replicate (length (Signers a)) None)) (V1_Ext v1) in
  sponsorsMap ← sponsors_loop (Signers a) (V2_SignerSponsoringIDs v2) ∅;
  signers ← must (SortSignersByKey (Signers a));
  ids ← mfold (λ ids signer,
    a ← must (SignerKey_Address (Some (Key signer)));
    Ret (ids ++ [default None (sponsorsMap !! a)])) [] signers;
  Ret (MkAccount (Account_AccountId a) (Account_Balance a) (Account_SeqNum a) (Account_NumSubEntries a)
    (Account_InflationDest a) (Account_Flags a) (Account_HomeDomain a) (Account_Thresholds a) signers
    (Some (MkAccountV1 (V1_Liabilities v1)
      (Some (MkAccountV2 (V2_NumSponsored v2) (V2_NumSponsoring v2) ids))))).

(** The entry is a copy, so its extension changes in the copy only; the account,
    trust line or balance it points to is the caller's. *)
Definition transformEntry : TransformLedgerEntryFunction := λ entry,
  let ext := Some (default None (Entry_Ext entry)) in
  let done data := Ret (false, MkEntry (LastModifiedLedgerSeq entry) data ext,
                               MkEntry (LastModifiedLedgerSeq entry) data (Entry_Ext entry)) in
  match Data entry with
  | DataAccount accountEntry => a ← transformAccount accountEntry; done (DataAccount a)
  | DataOffer _ => done (Data entry)
  | DataTrustLine t =>
      done (DataTrustLine (MkTrustLine (TrustLine_AccountId t) (TrustLine_Asset t) (TrustLine_Balance t)
        (TrustLine_Limit t) (TrustLine_Flags t) (Some (default no_liabilities (TrustLine_Ext t)))))
  | DataData _ => done (Data entry)
  | DataClaimableBalance b =>
      claimants ← must (SortClaimantsByDestination (Claimants b));
      done (DataClaimableBalance (MkClaimableBalance (ClaimableBalance_BalanceId b) claimants
        (ClaimableBalance_Asset b) (ClaimableBalance_Amount b)))
  end.

(** Entries as hcnet-core writes them: one sponsor per signer, and no signer or
    claimant twice. *)
Definition entry_ok (e : LedgerEntry) : Prop :=
  match Data e with
  | DataAccount a =>
      NoDup ((λ s, signer_string (Key s)) <$> Signers a) ∧
      length (SignerSponsoringIDs a) = length (Signers a)
  | DataClaimableBalance b => NoDup ((λ c, address (Destination c)) <$> Claimants b)
  | _ => True
  end.

Definition signer_addr (s : Signer) : gostring := signer_string (Key s).

(** What the loop leaves in the map. *)
Definition sponsor_map (signers : list Signer) (ids : list (option AccountId))
    (m : gmap gostring (option AccountId)) : gmap gostring (option AccountId) :=
  foldl (λ m '(s, id), <[signer_addr s := id]> m) m (zip signers ids).

Lemma sponsors_loop_total signers ids m :
  length ids = length signers → sponsors_loop signers ids m = Ret (sponsor_map signers ids m).
Proof.
  unfold sponsor_map. revert ids m.
  induction signers as [|s signers IH]; intros [|id ids] m Hl; simpl in *; try done.
  rewrite SignerKey_Address_total. outcome_simpl. cbn [must outcome_bind]. apply IH. lia.
Qed.

Lemma sponsor_ids_total (m : gmap gostring (option AccountId)) signers :
  mfold (λ ids signer, a ← must (SignerKey_Address (Some (Key signer)));
    Ret (ids ++ [default None (m !! a)])) [] signers =
  Ret ((λ s, default None (m !! signer_addr s)) <$> signers) :> outcome verify_error _.
Proof.
  assert (∀ acc, mfold (λ ids signer, a ← must (SignerKey_Address (Some (Key signer)));
    Ret (ids ++ [default None (m !! a)])) acc signers =
    Ret (acc ++ ((λ s, default None (m !! signer_addr s)) <$> signers)) :> outcome verify_error _) as H;
    [|apply (H [])].
  induction signers as [|s signers IH]; intros acc; simpl; [by rewrite app_nil_r|].
  rewrite SignerKey_Address_total. outcome_simpl. cbn [must outcome_bind]. rewrite IH. by rewrite <- app_assoc.
Qed.

Lemma sponsor_map_other signers ids m k :
  k ∉ signer_addr <$> signers → sponsor_map signers ids m !! k = m !! k.
Proof.
  unfold sponsor_map. revert ids m. induction signers as [|s signers IH]; intros [|id ids] m Hk; simpl; try done.
  rewrite fmap_cons, not_elem_of_cons in Hk. destruct Hk as [Hs Hk].
  rewrite IH by done. by rewrite lookup_insert_ne.
Qed.

(** Reading back the sponsors of a list of distinct signers. *)
Lemma sponsor_map_lookup signers (f : Signer → option AccountId) m s :
  NoDup (signer_addr <$> signers) → s ∈ signers →
  sponsor_map signers (f <$> signers) m !! signer_addr s = Some (f s).
Proof.
  revert m. induction signers as [|s0 signers IH]; intros m Hn Hs; [by apply not_elem_of_nil in Hs|].
  rewrite fmap_cons in Hn. apply NoDup_cons in Hn as [H0 Hn]. rewrite fmap_cons.
  change (sponsor_map (s0 :: signers) (f s0 :: (f <$> signers)) m) with
    (sponsor_map signers (f <$> signers) (<[signer_addr s0 := f s0]> m)).
  apply elem_of_cons in Hs as [->|Hs]; [|by apply IH].
  rewrite sponsor_map_other by done. by rewrite lookup_insert_eq.
Qed.

(** *** The normal form of an entry *)

Definition normal_sponsors (a : AccountEntry) : list (option AccountId) :=
  (λ s, default None (sponsor_map (Signers a) (SignerSponsoringIDs a) ∅ !! signer_addr s)) <$>
    signers_sorted (Signers a).
Definition normal_account (a : AccountEntry) : AccountEntry :=
  MkAccount (Account_AccountId a) (Account_Balance a) (Account_SeqNum a) (Account_NumSubEntries a)
    (Account_InflationDest a) (Account_Flags a) (Account_HomeDomain a) (Account_Thresholds a)
    (signers_sorted (Signers a))
    (Some (MkAccountV1 (AccountEntry_Liabilities a)
      (Some (MkAccountV2 (NumSponsored a) (NumSponsoring a) (normal_sponsors a))))).
Definition normal_data (d : LedgerEntryData) : LedgerEntryData :=
  match d with
  | DataAccount a => DataAccount (normal_account a)
  | DataTrustLine t =>
      DataTrustLine (MkTrustLine (TrustLine_AccountId t) (TrustLine_Asset t) (TrustLine_Balance t)
        (TrustLine_Limit t) (TrustLine_Flags t) (Some (TrustLineEntry_Liabilities t)))
  | DataClaimableBalance b =>
      DataClaimableBalance (MkClaimableBalance (ClaimableBalance_BalanceId b) (claimants_sorted (Claimants b))
        (ClaimableBalance_Asset b) (ClaimableBalance_Amount b))
  | d => d
  end.
#[local] Arguments signers_sorted : simpl never.
#[local] Arguments claimants_sorted : simpl never.
#[local] Arguments signer_string : simpl never.
#[local] Arguments sponsor_map : simpl never.

(** What the caller sees, and what is returned. *)
Definition normal_after (e : LedgerEntry) : LedgerEntry :=
  MkEntry (LastModifiedLedgerSeq e) (normal_data (Data e)) (Entry_Ext e).
Definition normal (e : LedgerEntry) : LedgerEntry :=
  MkEntry (LastModifiedLedgerSeq e) (normal_data (Data e)) (Some (SponsoringID e)).

Lemma transformAccount_total a :
  length (SignerSponsoringIDs a) = length (Signers a) → transformAccount a = Ret (normal_account a).
Proof.
  intros Hl. unfold transformAccount.
  assert (V2_SignerSponsoringIDs (default (MkAccountV2 0 0 (replicate (length (Signers a)) None))
    (V1_Ext (default (MkAccountV1 no_liabilities None) (Account_Ext a)))) = SignerSponsoringIDs a) as E.
  { unfold SignerSponsoringIDs, account_v2. destruct (Account_Ext a) as [[l [v2|]]|]; done. }
  rewrite E, sponsors_loop_total by done. outcome_simpl.
  rewrite SortSignersByKey_total. cbn [must outcome_bind].
  pose proof (sponsor_ids_total (sponsor_map (Signers a) (SignerSponsoringIDs a) ∅) (signers_sorted (Signers a))) as H.
  outcome_simpl. rewrite H. cbn [outcome_bind].
  unfold normal_account, AccountEntry_Liabilities, NumSponsored, NumSponsoring, account_v2.
  by destruct (Account_Ext a) as [[l [v2|]]|].
Qed.

Lemma transformEntry_total e : entry_ok e → transformEntry e = Ret (false, normal e, normal_after e).
Proof.
  unfold entry_ok, transformEntry, normal, normal_after, SponsoringID.
  destruct e as [seq d ext]; simpl. destruct d as [a|t|o|d|b]; simpl; intros Hok.
  - rewrite transformAccount_total by tauto. outcome_simpl. by destruct ext.
  - unfold TrustLineEntry_Liabilities. by destruct ext, (TrustLine_Ext t).
  - by destruct ext.
  - by destruct ext.
  - rewrite SortClaimantsByDestination_total. outcome_simpl. cbn [must outcome_bind]. by destruct ext.
Qed.

Lemma normal_account_idemp a :
  NoDup (signer_addr <$> Signers a) → length (SignerSponsoringIDs a) = length (Signers a) →
  normal_account (normal_account a) = normal_account a.
Proof.
  intros Hn Hl. unfold normal_account at 1.
  assert (signers_sorted (signers_sorted (Signers a)) = signers_sorted (Signers a)) as Hs
    by by apply sorted_by_idemp.
  assert (NoDup (signer_addr <$> signers_sorted (Signers a))) as Hn'.
  { unfold signers_sorted. by rewrite (sorted_by_perm signer_addr (Signers a)). }
  replace (normal_sponsors (normal_account a)) with (normal_sponsors a).
  - cbn. by rewrite Hs.
  - unfold normal_sponsors at 2. cbn. rewrite Hs. unfold normal_sponsors.
    apply list_fmap_ext. intros i s Hi. apply list_elem_of_lookup_2 in Hi.
    by rewrite sponsor_map_lookup.
Qed.

Lemma normal_data_idemp e : entry_ok e → normal_data (normal_data (Data e)) = normal_data (Data e).
Proof.
  unfold entry_ok. destruct (Data e) as [a|t|o|d|b]; simpl; intros Hok; try done.
  - f_equal. apply normal_account_idemp; tauto.
  - do 2 f_equal. by apply (sorted_by_idemp (λ c, address (Destination c))).
Qed.

Lemma entry_ok_normal e : entry_ok e → entry_ok (normal_after e).
Proof.
  unfold entry_ok, normal_after. destruct e as [seq [a|t|o|d|b] ext]; simpl; try done.
  - intros [Hn Hl]. unfold signers_sorted, normal_account, normal_sponsors; simpl. split.
    + by rewrite (sorted_by_perm signer_addr (Signers a)).
    + unfold SignerSponsoringIDs; simpl. by rewrite length_fmap.
  - intros Hn. by rewrite (sorted_by_perm (λ c, address (Destination c)) (Claimants b)).
Qed.

Lemma transformEntry_steady K e :
  entry_ok e → is_Some (K (LedgerEntry_LedgerKey e)) → steady K (Some transformEntry) (λ _, false) normal normal_after e.
Proof.
  intros Hok [k Hk]. split_and!.
  - by apply transformEntry_total.
  - exists (normal_after (normal_after e)). unfold transformed.
    rewrite transformEntry_total by by apply entry_ok_normal.
    unfold normal at 1. cbn. rewrite normal_data_idemp by done. done.
  - unfold normal_after, LedgerEntry_LedgerKey. by destruct e as [seq [a|t|o|d|b] ext].
  - unfold entry_key, key_text. by rewrite Hk.
Qed.

(** ** Properties *)

(** The entries of the archive that are not ignored, transformed, by key. *)
Definition archive_rows (K : LedgerKey → option gostring) (ignored : LedgerEntry → bool)
    (new : LedgerEntry → LedgerEntry) (es : list LedgerEntry) : gmap gostring LedgerEntry :=
  list_to_map ((λ e, (entry_key K e, new e)) <$> kept ignored es).

Lemma archive_rows_lookup K ignored new es e :
  NoDup (entry_key K <$> kept ignored es) → e ∈ kept ignored es →
  archive_rows K ignored new es !! entry_key K e = Some (new e).
Proof.
  intros Hn He. apply elem_of_list_to_map.
  - by rewrite <- list_fmap_compose.
  - by apply (list_elem_of_fmap_2 (λ e, (entry_key K e, new e))).
Qed.

Lemma archive_rows_size K ignored new es :
  NoDup (entry_key K <$> kept ignored es) →
  size (archive_rows K ignored new es) = length (kept ignored es).
Proof.
  intros Hn. unfold archive_rows. rewrite map_size_list_to_map by by rewrite <- list_fmap_compose.
  by rewrite length_fmap.
Qed.

Lemma agrees_iff K ignored new store es :
  NoDup (entry_key K <$> kept ignored es) →
  agrees K ignored new store es 0 (Z.of_nat (size store)) ↔ store = archive_rows K ignored new es.
Proof.
  intros Hn. unfold agrees, rows_agree. split.
  - intros [Hrows Hsize]. symmetry. apply map_subseteq_size_eq.
    + apply map_subseteq_spec. intros k w Hk. unfold archive_rows in Hk.
      apply elem_of_list_to_map_2, list_elem_of_fmap in Hk as (e & [= -> ->] & He). by apply Hrows.
    + rewrite archive_rows_size by done. lia.
  - intros ->. split; [intros e He; by apply archive_rows_lookup|]. rewrite archive_rows_size by done. lia.
Qed.

(** for a reader that returns the entries of an archive, each key once, the
    verification of a database returns no error exactly when the database holds
    the entries of the archive as transformed, no more and no less; otherwise it
    returns a state error.  The size of the batches does not matter, and the
    loop ends.  The transformation may change what it is given in place. *)
Theorem verifyState_spec K M F ignored new after store fetch batchSize es :
  (∀ e1 e2, M e1 = M e2 → e1 = e2) → (∀ k w, store !! k = Some w → K (LedgerEntry_LedgerKey w) = Some k) →
  (∀ keys w, w ∈ fetch keys → store !! entry_key K w = Some w) →
  (∀ keys, Forall (known K store) keys → NoDup (key_text K <$> keys) → fetch keys ≡ₚ omap (λ k, store !! key_text K k) keys) → 0 < batchSize →
  Forall (steady K F ignored new after) es → NoDup (entry_key K <$> kept ignored es) →
  let result := verifyState K (λ e, Some (M e)) F fetch (Z.of_nat (size store))
                  (length es + 2) batchSize (inr <$> es) in
  (result = Ret tt ∧ store = archive_rows K ignored new es) ∨
  (∃ err, result = Fail err ∧ is_state_error err = true ∧ store ≠ archive_rows K ignored new es).
Proof.
  intros Hinj Hstore Hfetched Hfetch Hb Hst Hn result. setoid_rewrite <- (agrees_iff _ _ _ _ _ Hn).
  by apply (verify_loop_spec K M F ignored new after store fetch batchSize Hinj Hstore Hfetched Hfetch Hb
    (length es + 2) es (MkVerifier (inr <$> es) 0 false ∅) (Z.of_nat (size store))).
Qed.

(** An injective encoding of entries, and one of keys. *)
Definition example_marshal (e : LedgerEntry) : list Z := [Z.pos (encode e)].
Definition example_key (k : LedgerKey) : option gostring := Some (LedgerKey_MarshalBinaryCompress k).
Definition example_trust (balance : Z) (ext : option Liabilities) : LedgerEntry :=
  MkEntry 9 (DataTrustLine (MkTrustLine (MkAccountId (replicate 32 1)) AssetTypeNative balance 10 1 ext)) None.
Definition example_store : gmap gostring LedgerEntry :=
  {[ entry_key example_key (example_trust 5 None) := normal (example_trust 5 None) ]}.

Theorem verifyState_spec_witness :
  let fetch keys := omap (λ k, example_store !! key_text example_key k) keys in
  let result := verifyState example_key (λ e, Some (example_marshal e)) (Some transformEntry)
                  fetch (Z.of_nat (size example_store)) 3 verifyBatchSize (inr <$> [example_trust 5 None]) in
  (result = Ret tt ∧ example_store = archive_rows example_key (λ _, false) normal [example_trust 5 None]) ∨
  (∃ err, result = Fail err ∧ is_state_error err = true ∧
    example_store ≠ archive_rows example_key (λ _, false) normal [example_trust 5 None]).
Proof.
  apply (verifyState_spec example_key example_marshal (Some transformEntry) (λ _, false) normal normal_after
    example_store (λ keys, omap (λ k, example_store !! key_text example_key k) keys) verifyBatchSize [example_trust 5 None]).
  - intros e1 e2 [= E%encode_inj]. done.
  - unfold example_store. intros k w [<- <-]%lookup_singleton_Some. reflexivity.
  - intros keys w (k & _ & Hw)%list_elem_of_omap. unfold example_store in *. apply lookup_singleton_Some in Hw as [_ <-]. reflexivity.
  - done.
  - done.
  - apply Forall_cons. split; [apply transformEntry_steady; [done|by eexists]|by apply Forall_nil].
  - apply NoDup_singleton.
Defined.

(** A database that misses the trust line is found wanting. *)
Example verifyState_missing :
  verifyState example_key (λ e, Some (example_marshal e)) (Some transformEntry)
    (λ _, []) 0 3 verifyBatchSize (inr <$> [example_trust 5 None]) = Fail StateErrNotFoundLocally.
Proof. by vm_compute. Qed.

(** [transformEntry] brings an entry into a normal form: it never ignores
    an entry nor panics, the result has the same key, transforming the result
    or the entry it was given (whose account it changes in place) again gives
    the same, and entries that differ only in the order of their claimants
    have the same normal form. *)
Theorem transformEntry_normal_form e :
  entry_ok e →
  ∃ n a, transformEntry e = Ret (false, n, a) ∧
    LedgerEntry_LedgerKey n = LedgerEntry_LedgerKey e ∧
    (∃ a', transformEntry n = Ret (false, n, a')) ∧ (∃ a', transformEntry a = Ret (false, n, a')) ∧
    ∀ seq id cs cs' asset amt ext, e = MkEntry seq (DataClaimableBalance (MkClaimableBalance id cs asset amt)) ext →
      cs' ≡ₚ cs → ∃ a', transformEntry (MkEntry seq (DataClaimableBalance (MkClaimableBalance id cs' asset amt)) ext)
        = Ret (false, n, a').
Proof.
  intros Hok. exists (normal e), (normal_after e). split_and!.
  - by apply transformEntry_total.
  - unfold normal, LedgerEntry_LedgerKey. by destruct e as [seq [a|t|o|d|b] ext].
  - exists (normal_after (normal e)). rewrite transformEntry_total.
    + unfold normal at 1. cbn. by rewrite normal_data_idemp.
    + by apply entry_ok_normal in Hok.
  - destruct (transformEntry_steady (λ _, Some []) e Hok) as (_ & Ha & _); [by eexists|]. exact Ha.
  - intros seq id cs cs' asset amt ext -> Hp. eexists.
    rewrite transformEntry_total by (unfold entry_ok in *; simpl in *; by rewrite Hp).
    unfold normal. cbn. do 6 f_equal. apply (sorted_by_canonical (λ c, address (Destination c))); [|done].
    unfold entry_ok in Hok; simpl in Hok. by rewrite Hp.
Qed.

Definition example_balance : LedgerEntry :=
  MkEntry 3 (DataClaimableBalance (MkClaimableBalance (MkClaimableBalanceId [])
    [MkClaimant (MkAccountId [2]) ClaimPredicateUnconditional; MkClaimant (MkAccountId [1]) ClaimPredicateUnconditional]
    AssetTypeNative 5)) None.

Theorem transformEntry_normal_form_witness :
  ∃ n a, transformEntry example_balance = Ret (false, n, a) ∧
    LedgerEntry_LedgerKey n = LedgerEntry_LedgerKey example_balance ∧
    (∃ a', transformEntry n = Ret (false, n, a')) ∧ (∃ a', transformEntry a = Ret (false, n, a')) ∧
    ∀ seq id cs cs' asset amt ext,
      example_balance = MkEntry seq (DataClaimableBalance (MkClaimableBalance id cs asset amt)) ext →
      cs' ≡ₚ cs → ∃ a', transformEntry (MkEntry seq (DataClaimableBalance (MkClaimableBalance id cs' asset amt)) ext)
        = Ret (false, n, a').
Proof. apply transformEntry_normal_form. by apply (bool_decide_unpack _). Defined.
