(* ===== verification/HistoryTables.v ===== *)
(** * db2/history: the tables of the ledger state

    The rows that the ingestion keeps for the entries of the ledger, from
    [src/services/aurora/internal/db2/history/main.go] and
    [claimable_balances.go], with the statements of [accounts.go],
    [account_data.go], [offers.go], [trust_lines.go], [claimable_balances.go],
    [account_signers.go] and [asset_stats.go].  A table is a finite map from its
    primary key to its rows; a statement is the function it computes on the
    table, with the number of affected rows.  The only error of a statement is
    a key that is there already.  The [CHECK] constraints of the migrations 38 and
    42 (balances, liabilities, weights, prices and counters that are not negative,
    ledgers above 0) and the ranges of the integer columns, which Postgres also
    enforces, are left out: entries of a valid ledger keep them.  A query lists
    its rows in the order of the map; no theorem depends on it.  The float column
    [price] of the offers is left out. *)

From S2P Require Import Prelude Xdr LedgerEntry.

Inductive proc_error :=
  | ErrCacheAdd
  | ErrMarshalKey
  | ErrInvalidEntryType
  | ErrInvalidChange
  | ErrInsertOnly
  | ErrConstraint
  | ErrParseAmount
  | ErrRun
  | ErrExtract
  | StateErrRows (rowsAffected : Z)
  | StateErrNegativeAccounts
  | StateErrAmountLeft
  | StateErrBothNil.

(** [null.String] *)
Abbreviation nullString := (option gostring).

(** ** Statements on a table *)
Section table.
Context {K R : Type} `{Countable K} (key : R → K).

Definition delete_row (k : K) (t : gmap K R) : Z * gmap K R :=
  (if bool_decide (is_Some (t !! k)) then 1 else 0, delete k t).
Definition update_row (k : K) (set : R → R) (t : gmap K R) : Z * gmap K R :=
  match t !! k with Some r => (1, <[k := set r]> t) | None => (0, t) end.

(** [INSERT]: a second row with the same primary key is an error. *)
Definition insert_row (t : gmap K R) (r : R) : outcome proc_error (gmap K R) :=
  if bool_decide (is_Some (t !! key r)) then Fail ErrConstraint else Ret (<[key r := r]> t).
Definition insert_rows (rs : list R) (t : gmap K R) : outcome proc_error (gmap K R) := mfold insert_row t rs.

(** [INSERT ... ON CONFLICT (key) DO UPDATE] of a batch, which must not touch a
    row twice. *)
Definition upsert_rows (rs : list R) (t : gmap K R) : outcome proc_error (gmap K R) :=
  if bool_decide (NoDup (key <$> rs)) then Ret (foldl (λ t r, <[key r := r]> t) t rs) else Fail ErrConstraint.

(** A batch insert builder for the rows of the table (BatchInsert.v): the rows
    wait until there are [maxBatchSize] of them. *)
Definition batch_add {T} (insert : list R → T → outcome proc_error T) (maxBatchSize : Z) (batch : list R) (r : R)
    (t : T) : outcome proc_error (list R * T) :=
  let batch := batch ++ [r] in
  if Z.of_nat (length batch) =? maxBatchSize then t ← insert batch t; Ret ([], t) else Ret (batch, t).

(** *** The rows of a batch over a table *)
Definition put (rs : list R) (t : gmap K R) : gmap K R := foldl (λ t r, <[key r := r]> t) t rs.

Lemma put_app rs rs' t : put (rs ++ rs') t = put rs' (put rs t).
Proof. apply foldl_app. Qed.

Lemma put_insert rs q r t : q ∉ key <$> rs → put rs (<[q := r]> t) = <[q := r]> (put rs t).
Proof.
  revert t. induction rs as [|x rs IH]; intros t; simpl; [done|].
  rewrite not_elem_of_cons. intros [Hq Hrs]. rewrite insert_insert_ne by done. by apply IH.
Qed.

Lemma put_delete rs q t : q ∉ key <$> rs → put rs (delete q t) = delete q (put rs t).
Proof.
  revert t. induction rs as [|x rs IH]; intros t; simpl; [done|].
  rewrite not_elem_of_cons. intros [Hq Hrs]. rewrite <- delete_insert_ne by done. by apply IH.
Qed.

Lemma put_other rs q t : q ∉ key <$> rs → put rs t !! q = t !! q.
Proof.
  revert t. induction rs as [|x rs IH]; intros t; simpl; [done|].
  rewrite not_elem_of_cons. intros [Hq Hrs]. rewrite IH by done. by rewrite lookup_insert_ne.
Qed.

Lemma put_elem rs r t : NoDup (key <$> rs) → r ∈ rs → put rs t !! key r = Some r.
Proof.
  revert t. induction rs as [|x rs IH]; intros t; [by intros _ ?%elem_of_nil|].
  rewrite fmap_cons. intros [Hx Hn]%NoDup_cons [->|Hr]%elem_of_cons; simpl; [|by apply IH].
  rewrite put_other by done. apply lookup_insert_eq.
Qed.

Lemma put_None rs q t : put rs t !! q = None → q ∉ key <$> rs ∧ t !! q = None.
Proof.
  revert t. induction rs as [|x rs IH]; intros t; simpl; [split; [apply not_elem_of_nil|done]|].
  intros [Hq [Hx Ht]%lookup_insert_None]%IH. split; [|done]. rewrite not_elem_of_cons. auto.
Qed.

Lemma insert_rows_put rs t :
  NoDup (key <$> rs) → (∀ r, r ∈ rs → t !! key r = None) → insert_rows rs t = Ret (put rs t).
Proof.
  unfold insert_rows. revert t. induction rs as [|x rs IH]; intros t Hn Ht; [done|].
  rewrite fmap_cons in Hn. apply NoDup_cons in Hn as [Hx Hn]. simpl.
  assert (insert_row t x = Ret (<[key x := x]> t)) as ->.
  { unfold insert_row. rewrite bool_decide_false; [done|]. rewrite Ht by by left. by intros []. }
  simpl. apply IH; [done|]. intros r Hr. rewrite lookup_insert_ne; [apply Ht; by right|].
  intros Heq. apply Hx. rewrite Heq. by apply list_elem_of_fmap_2.
Qed.

Lemma upsert_rows_put rs t : NoDup (key <$> rs) → upsert_rows rs t = Ret (put rs t).
Proof. intros Hn. unfold upsert_rows. by rewrite bool_decide_true. Qed.

(** A batch is waiting: its rows are new. *)
Definition waits (batch : list R) (t : gmap K R) : Prop := NoDup (key <$> batch) ∧ ∀ r, r ∈ batch → t !! key r = None.

Lemma insert_waiting batch t : waits batch t → insert_rows batch t = Ret (put batch t).
Proof. intros [? ?]. by apply insert_rows_put. Qed.

Lemma batch_adds n rs batch t :
  waits batch t → NoDup (key <$> rs) → (∀ r, r ∈ rs → put batch t !! key r = None) →
  ∃ batch' t', mfold (λ '(batch, t) r, batch_add insert_rows n batch r t) (batch, t) rs = Ret (batch', t') ∧
    waits batch' t' ∧ put batch' t' = put rs (put batch t).
Proof.
  revert batch t. induction rs as [|r rs IH]; intros batch t Hw Hn Hf; [by exists batch, t|].
  rewrite fmap_cons in Hn. apply NoDup_cons in Hn as [Hr Hn]. cbn [mfold].
  destruct (put_None batch (key r) t) as [Hb Ht]; [apply Hf; by left|].
  assert (waits (batch ++ [r]) t) as Hw'.
  { destruct Hw as [Hn' Hf']. split.
    - rewrite fmap_app. apply NoDup_app. split_and!; [done| |apply NoDup_singleton].
      intros q Hq Hq'. simpl in Hq'. apply list_elem_of_singleton in Hq' as ->. done.
    - intros r' [Hr'| ->%list_elem_of_singleton]%elem_of_app; [by apply Hf'|done]. }
  assert (∀ r', r' ∈ rs → put (batch ++ [r]) t !! key r' = None) as Hf'.
  { intros r' Hr'. rewrite put_app. simpl. rewrite lookup_insert_ne; [apply Hf; by right|].
    intros Heq. apply Hr. rewrite Heq. by apply list_elem_of_fmap_2. }
  unfold batch_add at 2. case_if.
  - rewrite (insert_waiting _ _ Hw'). cbn [outcome_bind]. unfold mbind, outcome_mbind. cbn [outcome_bind].
    destruct (IH [] (put (batch ++ [r]) t)) as (b' & t' & -> & ? & Heq); [split; [constructor|by intros ? ?%elem_of_nil]|done..|].
    exists b', t'. split_and!; [done..|]. rewrite Heq. simpl. by rewrite put_app.
  - cbn [outcome_bind]. destruct (IH (batch ++ [r]) t) as (b' & t' & -> & ? & Heq); [done..|].
    exists b', t'. split_and!; [done..|]. rewrite Heq, put_app. done.
Qed.

Lemma delete_row_Some k r t : t !! k = Some r → delete_row k t = (1, delete k t).
Proof. intros Hk. unfold delete_row. by rewrite bool_decide_true by eauto. Qed.

Lemma update_row_Some k f r t : t !! k = Some r → update_row k f t = (1, <[k := f r]> t).
Proof. intros Hk. unfold update_row. by rewrite Hk. Qed.
End table.

(** ** Rows *)

Record AccountRow := MkAccountRow {
  ar_AccountID : gostring; ar_Balance : Z; ar_BuyingLiabilities : Z; ar_SellingLiabilities : Z;
  ar_SequenceNumber : Z; ar_NumSubEntries : Z; ar_InflationDestination : gostring; ar_HomeDomain : gostring;
  ar_Flags : Z; ar_MasterWeight : Z; ar_ThresholdLow : Z; ar_ThresholdMedium : Z; ar_ThresholdHigh : Z;
  ar_LastModifiedLedger : Z; ar_Sponsor : nullString; ar_NumSponsored : Z; ar_NumSponsoring : Z }.

Record AccountSignerRow := MkSignerRow {
  sr_Account : gostring; sr_Signer : gostring; sr_Weight : Z; sr_Sponsor : nullString }.

(** The column [ledger_key], the primary key, is not in the structs of data and
    trust lines. *)
Record DataRow := MkDataRow {
  dr_ledger_key : gostring; dr_AccountID : gostring; dr_Name : gostring; dr_Value : list Z; dr_LastModifiedLedger : Z; dr_Sponsor : nullString }.

Record OfferRow := MkOfferRow {
  or_SellerID : gostring; or_OfferID : Z; or_SellingAsset : Asset; or_BuyingAsset : Asset; or_Amount : Z;
  or_Pricen : Z; or_Priced : Z; or_Flags : Z; or_Deleted : bool; or_LastModifiedLedger : Z; or_Sponsor : nullString }.

Record TrustLineRow := MkTrustLineRow {
  tr_ledger_key : gostring; tr_AccountID : gostring; tr_AssetType : Z; tr_AssetIssuer : gostring; tr_AssetCode : gostring;
  tr_Balance : Z; tr_Limit : Z; tr_BuyingLiabilities : Z; tr_SellingLiabilities : Z; tr_Flags : Z;
  tr_LastModifiedLedger : Z; tr_Sponsor : nullString }.

Record HistoryClaimant := MkHistoryClaimant { hc_Destination : gostring; hc_Predicate : ClaimPredicate }.
Record ClaimableBalanceRow := MkBalanceRow {
  cr_BalanceID : ClaimableBalanceId; cr_Claimants : list HistoryClaimant; cr_Asset : Asset; cr_Amount : Z;
  cr_Sponsor : nullString; cr_LastModifiedLedger : Z }.

(** The amount is a decimal number of any size. *)
Record ExpAssetStat := MkAssetStat {
  as_AssetType : Z; as_AssetCode : gostring; as_AssetIssuer : gostring; as_Amount : gostring; as_NumAccounts : Z }.

Abbreviation AccountTable := (gmap gostring AccountRow).
Abbreviation SignerTable := (gmap (gostring * gostring) AccountSignerRow).
Abbreviation DataTable := (gmap gostring DataRow).
Abbreviation TrustLineTable := (gmap gostring TrustLineRow).
Abbreviation BalanceTable := (gmap ClaimableBalanceId ClaimableBalanceRow).
Abbreviation asset_key := (Z * gostring * gostring)%type.
Abbreviation AssetStatTable := (gmap asset_key ExpAssetStat).

(** The offers and the ledger up to which they were compacted. *)
Record OfferTable := MkOfferTable { offer_rows : gmap Z OfferRow; offer_compaction_sequence : Z }.

(** ** Entries to rows *)

(** [Address] of an account in a row; a failure panics. *)
Definition address_of (a : AccountId) : outcome proc_error gostring := must (AccountId_Address (Some a)).

(** processors/main.go *)
Definition ledgerEntrySponsorToNullString (entry : LedgerEntry) : outcome proc_error nullString :=
  match SponsoringID entry with
  | Some sponsoringID => a ← address_of sponsoringID; Ret (Some a)
  | None => Ret None
  end.

Definition accountToMap (entry : LedgerEntry) : outcome proc_error AccountRow :=
  match Data entry with
  | DataAccount account =>
      let liabilities := AccountEntry_Liabilities account in
      let th := Account_Thresholds account in
      inflationDestination ← match Account_InflationDest account with
                             | Some d => address_of d
                             | None => Ret []
                             end;
      accountID ← address_of (Account_AccountId account);
      sponsor ← ledgerEntrySponsorToNullString entry;
      Ret (MkAccountRow accountID (Account_Balance account) (Liabilities_Buying liabilities)
        (Liabilities_Selling liabilities) (Account_SeqNum account) (Account_NumSubEntries account)
        inflationDestination (Account_HomeDomain account) (Account_Flags account) (MasterKeyWeight th)
        (ThresholdLow th) (ThresholdMedium th) (ThresholdHigh th) (LastModifiedLedgerSeq entry) sponsor
        (NumSponsored account) (NumSponsoring account))
  | _ => Panic
  end.

Definition trustLineToMap (ledger_key : gostring) (entry : LedgerEntry) : outcome proc_error TrustLineRow :=
  match Data entry with
  | DataTrustLine trustLine =>
      '(assetType, assetCode, assetIssuer) ← must (ExtractType (TrustLine_Asset trustLine));
      let liabilities := TrustLineEntry_Liabilities trustLine in
      accountID ← address_of (TrustLine_AccountId trustLine);
      sponsor ← ledgerEntrySponsorToNullString entry;
      Ret (MkTrustLineRow ledger_key accountID assetType assetIssuer assetCode (TrustLine_Balance trustLine)
        (TrustLine_Limit trustLine) (Liabilities_Buying liabilities) (Liabilities_Selling liabilities)
        (TrustLine_Flags trustLine) (LastModifiedLedgerSeq entry) sponsor)
  | _ => Panic
  end.

(** offers_processor.go *)
Definition ledgerEntryToRow (entry : LedgerEntry) : outcome proc_error OfferRow :=
  match Data entry with
  | DataOffer offer =>
      sellerID ← address_of (SellerId offer);
      sponsor ← ledgerEntrySponsorToNullString entry;
      Ret (MkOfferRow sellerID (OfferId offer) (Selling offer) (Buying offer) (Amount offer)
        (Price.N (OfferPrice offer)) (Price.D (OfferPrice offer)) (Flags offer) false
        (LastModifiedLedgerSeq entry) sponsor)
  | _ => Panic
  end.

Definition buildClaimants (claimants : list Claimant) : outcome proc_error (list HistoryClaimant) :=
  mfold (λ hClaimants c,
    destination ← address_of (Destination c);
    Ret (hClaimants ++ [MkHistoryClaimant destination (Predicate c)])) [] claimants.

(** [ledgerKey.MarshalBinary] in base64, the text of a key in the columns
    [ledger_key]; [None] is an error. *)
Section statements.
Context (MarshalBinaryBase64 : LedgerKey → option gostring).

Definition ledgerKeyToString (k : LedgerKey) : outcome proc_error gostring :=
  match MarshalBinaryBase64 k with Some s => Ret s | None => Fail ErrMarshalKey end.
Definition dataEntryToLedgerKeyString (entry : LedgerEntry) : outcome proc_error gostring :=
  ledgerKeyToString (LedgerEntry_LedgerKey entry).
Definition ledgerKeyDataToString (account : AccountId) (name : gostring) : outcome proc_error gostring :=
  ledgerKeyToString (LedgerEntryTypeData account name).
Definition trustLineEntryToLedgerKeyString (entry : LedgerEntry) : outcome proc_error gostring :=
  ledgerKeyToString (LedgerEntry_LedgerKey entry).
Definition ledgerKeyTrustLineToString (account : AccountId) (line : Asset) : outcome proc_error gostring :=
  ledgerKeyToString (LedgerEntryTypeTrustline account line).

(** ** accounts.go *)
Definition UpsertAccounts (accounts : list LedgerEntry) (t : AccountTable) : outcome proc_error AccountTable :=
  rs ← mfold (λ rs entry,
    if bool_decide (data_type (Data entry) = TypeAccount)
    then r ← accountToMap entry; Ret (rs ++ [r]) else Fail ErrInvalidEntryType) [] accounts;
  upsert_rows ar_AccountID rs t.
Definition RemoveAccount (accountID : gostring) (t : AccountTable) : Z * AccountTable := delete_row accountID t.
Definition GetAccountsByIDs (ids : list gostring) (t : AccountTable) : list AccountRow :=
  (filter (λ kr, kr.1 ∈ ids) (map_to_list t)).*2.

Definition CountAccounts (t : AccountTable) : Z := Z.of_nat (size t).

(** ** account_data.go *)
Definition CountAccountsData (t : DataTable) : Z := Z.of_nat (size t).
(** The rows of the keys of data entries, or of trust lines. *)
Definition GetAccountDataByKeys (keys : list (AccountId * gostring)) (t : DataTable) : outcome proc_error (list DataRow) :=
  lkeys ← mfold (λ lkeys '(account, name), lkey ← ledgerKeyDataToString account name; Ret (lkeys ++ [lkey])) [] keys;
  Ret (filter (λ kr, kr.1 ∈ lkeys) (map_to_list t)).*2.

Definition AccountDataBatch_Add (maxBatchSize : Z) (batch : list DataRow) (entry : LedgerEntry)
    (t : DataTable)
  : outcome proc_error (list DataRow * DataTable) :=
  match Data entry with
  | DataData data =>
      key ← dataEntryToLedgerKeyString entry;
      accountID ← address_of (Data_AccountId data);
      sponsor ← ledgerEntrySponsorToNullString entry;
      batch_add (insert_rows dr_ledger_key) maxBatchSize batch
        (MkDataRow key accountID (Data_DataName data) (Data_DataValue data) (LastModifiedLedgerSeq entry) sponsor) t
  | _ => Panic
  end.
Definition UpdateAccountData (entry : LedgerEntry) (t : DataTable)
  : outcome proc_error (Z * DataTable) :=
  match Data entry with
  | DataData data =>
      key ← dataEntryToLedgerKeyString entry;
      sponsor ← ledgerEntrySponsorToNullString entry;
      Ret (update_row key (λ r, MkDataRow (dr_ledger_key r) (dr_AccountID r) (dr_Name r) (Data_DataValue data)
        (LastModifiedLedgerSeq entry) sponsor) t)
  | _ => Panic
  end.
Definition RemoveAccountData (account : AccountId) (name : gostring) (t : DataTable)
  : outcome proc_error (Z * DataTable) :=
  lkey ← ledgerKeyDataToString account name;
  Ret (delete_row lkey t).

(** ** offers.go *)
Definition with_offers (f : gmap Z OfferRow → Z * gmap Z OfferRow) (t : OfferTable) : Z * OfferTable :=
  let '(n, rows) := f (offer_rows t) in (n, MkOfferTable rows (offer_compaction_sequence t)).
Definition UpdateOffer (offer : OfferRow) : OfferTable → Z * OfferTable :=
  with_offers (update_row (or_OfferID offer) (λ _, offer)).
Definition RemoveOffer (offerID lastModifiedLedger : Z) : OfferTable → Z * OfferTable :=
  with_offers (update_row offerID (λ r, MkOfferRow (or_SellerID r) (or_OfferID r) (or_SellingAsset r)
    (or_BuyingAsset r) (or_Amount r) (or_Pricen r) (or_Priced r) (or_Flags r) true lastModifiedLedger (or_Sponsor r))).
Definition CompactOffers (cutOffSequence : Z) (t : OfferTable) : OfferTable :=
  MkOfferTable (filter (λ '(_, r), ¬ (or_Deleted r = true ∧ or_LastModifiedLedger r ≤ cutOffSequence)) (offer_rows t))
    cutOffSequence.
Definition GetAllOffers (t : OfferTable) : list OfferRow :=
  filter (λ r, or_Deleted r = false) (map_to_list (offer_rows t)).*2.
Definition GetUpdatedOffers (newerThanSequence : Z) (t : OfferTable) : list OfferRow :=
  filter (λ r, newerThanSequence < or_LastModifiedLedger r) (map_to_list (offer_rows t)).*2.
Definition GetOffersByIDs (ids : list Z) (t : OfferTable) : list OfferRow :=
  filter (λ r, or_Deleted r = false ∧ or_OfferID r ∈ ids) (map_to_list (offer_rows t)).*2.

Definition CountOffers (t : OfferTable) : Z := Z.of_nat (length (GetAllOffers t)).

(** ** trust_lines.go *)
Definition CountTrustLines (t : TrustLineTable) : Z := Z.of_nat (size t).
Definition GetTrustLinesByKeys (keys : list (AccountId * Asset)) (t : TrustLineTable) : outcome proc_error (list TrustLineRow) :=
  lkeys ← mfold (λ lkeys '(account, line), lkey ← ledgerKeyTrustLineToString account line; Ret (lkeys ++ [lkey])) [] keys;
  Ret (filter (λ kr, kr.1 ∈ lkeys) (map_to_list t)).*2.
Definition UpsertTrustLines (trustLines : list LedgerEntry) (t : TrustLineTable)
  : outcome proc_error (TrustLineTable) :=
  rs ← mfold (λ rs entry,
    if bool_decide (data_type (Data entry) = TypeTrustline)
    then key ← trustLineEntryToLedgerKeyString entry; r ← trustLineToMap key entry; Ret (rs ++ [r])
    else Fail ErrInvalidEntryType) [] trustLines;
  upsert_rows tr_ledger_key rs t.
Definition RemoveTrustLine (account : AccountId) (line : Asset) (t : TrustLineTable)
  : outcome proc_error (Z * TrustLineTable) :=
  key ← ledgerKeyTrustLineToString account line;
  Ret (delete_row key t).

(** ** claimable_balances.go *)

(** The column [amount] is checked to be positive. *)
Definition insert_balances (rs : list ClaimableBalanceRow) (t : BalanceTable) : outcome proc_error BalanceTable :=
  mfold (λ t r, if 0 <? cr_Amount r then insert_row cr_BalanceID t r else Fail ErrConstraint) t rs.
Definition ClaimableBalancesBatch_Add (maxBatchSize : Z) (batch : list ClaimableBalanceRow) (entry : LedgerEntry)
    (t : BalanceTable) : outcome proc_error (list ClaimableBalanceRow * BalanceTable) :=
  match Data entry with
  | DataClaimableBalance cBalance =>
      claimants ← buildClaimants (Claimants cBalance);
      sponsor ← ledgerEntrySponsorToNullString entry;
      batch_add insert_balances maxBatchSize batch
        (MkBalanceRow (ClaimableBalance_BalanceId cBalance) claimants (ClaimableBalance_Asset cBalance)
          (ClaimableBalance_Amount cBalance) sponsor (LastModifiedLedgerSeq entry)) t
  | _ => Panic
  end.
(** Only the sponsor and the ledger can change. *)
Definition UpdateClaimableBalance (entry : LedgerEntry) (t : BalanceTable) : outcome proc_error (Z * BalanceTable) :=
  match Data entry with
  | DataClaimableBalance cBalance =>
      sponsor ← ledgerEntrySponsorToNullString entry;
      Ret (update_row (ClaimableBalance_BalanceId cBalance) (λ r, MkBalanceRow (cr_BalanceID r) (cr_Claimants r)
        (cr_Asset r) (cr_Amount r) sponsor (LastModifiedLedgerSeq entry)) t)
  | _ => Panic
  end.
Definition RemoveClaimableBalance (cBalance : ClaimableBalanceEntry) (t : BalanceTable) : Z * BalanceTable :=
  delete_row (ClaimableBalance_BalanceId cBalance) t.
Definition CountClaimableBalances (t : BalanceTable) : Z := Z.of_nat (size t).
Definition GetClaimableBalancesByID (ids : list ClaimableBalanceId) (t : BalanceTable) : list ClaimableBalanceRow :=
  (filter (λ kr, kr.1 ∈ ids) (map_to_list t)).*2.

(** ** account_signers.go *)
Definition signer_key (r : AccountSignerRow) : gostring * gostring := (sr_Account r, sr_Signer r).
Definition CreateAccountSigner (account signer : gostring) (weight : Z) (sponsor : nullString) (t : SignerTable)
  : outcome proc_error (Z * SignerTable) :=
  t ← insert_row signer_key t (MkSignerRow account signer weight sponsor);
  Ret (1, t).
Definition RemoveAccountSigner (account signer : gostring) (t : SignerTable) : Z * SignerTable :=
  delete_row (account, signer) t.
Definition SignersForAccounts (accounts : list gostring) (t : SignerTable) : list AccountSignerRow :=
  (filter (λ kr, kr.1.1 ∈ accounts) (map_to_list t)).*2.

(** ** asset_stats.go *)
Definition asset_stat_key (s : ExpAssetStat) : asset_key := (as_AssetType s, as_AssetCode s, as_AssetIssuer s).
Definition InsertAssetStats (assetStats : list ExpAssetStat) (maxBatchSize : Z) (t : AssetStatTable)
  : outcome proc_error AssetStatTable :=
  '(batch, t) ← mfold (λ '(batch, t) s, batch_add (insert_rows asset_stat_key) maxBatchSize batch s t) ([], t) assetStats;
  insert_rows asset_stat_key batch t.
Definition InsertAssetStat (assetStat : ExpAssetStat) (t : AssetStatTable) : outcome proc_error (Z * AssetStatTable) :=
  t ← insert_row asset_stat_key t assetStat; Ret (1, t).
Definition UpdateAssetStat (assetStat : ExpAssetStat) (t : AssetStatTable) : Z * AssetStatTable :=
  update_row (asset_stat_key assetStat) (λ _, assetStat) t.
Definition RemoveAssetStat (k : asset_key) (t : AssetStatTable) : Z * AssetStatTable := delete_row k t.
(** [None] is [sql.ErrNoRows]. *)
Definition GetAssetStat (k : asset_key) (t : AssetStatTable) : option ExpAssetStat := t !! k.
End statements.
