(* ===== verification/Operations.v ===== *)
(** * ingest/processors: operations and their details

    Models [src/services/aurora/internal/ingest/processors/operations_processor.go]
    without the processor itself: the wrapper of an operation in a transaction,
    the details that are stored with it, and its participants.

    The Go functions that print accounts, signer keys and assets never fail
    ([Xdr.Address_total], [LedgerEntry.SignerKey_Address_total],
    [Xdr.Asset_String_total]), so they are written as the functions [address],
    [signer_string], [asset_string] and [canonical_string] of those lemmas.  The
    details are the Go map before [json.Marshal], which does not fail on these
    values. *)

From S2P Require Import Prelude Encoding Strkey Toid Decimal Amount Price Xdr LedgerEntry ChangeCache Transaction LedgerReaders.

(** The values of details. *)
Inductive value :=
  | VString (s : gostring)
  | VInt (n : Z)
  | VBool (b : bool)
  | VNil
  | VInts (l : list Z)
  | VStrings (l : list gostring)
  | VMap (m : gmap gostring value)
  | VMaps (l : list (gmap gostring value))
  | VPredicate (p : ClaimPredicate)
  | VClaimants (l : list (gostring * ClaimPredicate)).
Abbreviation details := (gmap gostring value).

(** A key and its value; assignments to a map, in order. *)
Definition kv (k : string) (v : value) : gostring * value := (str k, v).
Definition set_all (kvs : list (gostring * value)) (d : details) : details :=
  foldl (λ d '(k, v), <[ k := v ]> d) d kvs.

Inductive tx_error :=
  | ErrChanges (e : reader_error)
  | ErrNoOperationResults
  | ErrBalanceId (index : nat)
  | ErrBalanceChange (balanceID : gostring)
  | ErrNoAccountId (address : gostring)
  | ErrMarshalRow
  | ErrInsert
  | ErrLedgerRows (rowsAffected : Z).

(** ** The wrapper *)

Record transactionOperationWrapper := MkOp {
  op_index : nat; op_transaction : LedgerTransaction; op_operation : Operation; op_ledgerSequence : Z }.

(** [toid.New(int32(sequence), int32(index), order).ToInt64()] *)
Definition new_toid (sequence index order : Z) : outcome tx_error Z :=
  must (ToInt64 (New (i32 sequence) (i32 index) order)).

Definition op_ID (operation : transactionOperationWrapper) : outcome tx_error Z :=
  new_toid (op_ledgerSequence operation) (Index (op_transaction operation)) (i32 (Z.of_nat (op_index operation) + 1)).
(** An error is wrapped with the id of the operation, which may panic. *)
Definition with_ID {A} (operation : transactionOperationWrapper) (m : outcome tx_error A) : outcome tx_error A :=
  match m with Fail e => _ ← op_ID operation; Fail e | _ => m end.
Definition op_Order (operation : transactionOperationWrapper) : Z := u32 (Z.of_nat (op_index operation) + 1).
Definition op_TransactionID (operation : transactionOperationWrapper) : outcome tx_error Z :=
  new_toid (op_ledgerSequence operation) (Index (op_transaction operation)) 0.
Definition SourceAccount (operation : transactionOperationWrapper) : AccountId :=
  match Op_SourceAccount (op_operation operation) with
  | Some sourceAccount => ToAccountId sourceAccount
  | None => ToAccountId (Envelope_SourceAccount (Envelope (op_transaction operation)))
  end.
Definition op_body (operation : transactionOperationWrapper) : OperationBody := Body (op_operation operation).
Definition op_OperationType (operation : transactionOperationWrapper) : Z := OperationType (op_body operation).

(** The changes of the operation. *)
Definition op_changes (operation : transactionOperationWrapper) : outcome tx_error (list Change) :=
  map_fail ErrChanges (GetOperationChanges (op_transaction operation) (op_index operation)).

(** [entry.Data.MustAccount()], and the sponsors of its signers *)
Definition MustAccount (e : LedgerEntry) : outcome tx_error AccountEntry :=
  match Data e with DataAccount a => Ret a | _ => Panic end.
Definition signer_sponsor_map (entry : option LedgerEntry) : outcome tx_error (gmap gostring AccountId) :=
  match entry with
  | None => Ret ∅
  | Some e => account ← MustAccount e; must (SponsorPerSigner account)
  end.

Definition getSignerSponsorInChange (signerKey : gostring) (change : Change) : outcome tx_error (option AccountId) :=
  if negb (bool_decide (Change_Type change = TypeAccount)) then Ret None else
  match Post change with
  | None => Ret None
  | Some _ =>
      preSigners ← signer_sponsor_map (Pre change);
      postSigners ← signer_sponsor_map (Post change);
      match postSigners !! signerKey with
      | None => Ret None
      | Some post =>
          match preSigners !! signerKey with
          | Some pre => if bool_decide (address pre = address post) then Ret None else Ret (Some post)
          | None => Ret (Some post)
          end
      end
  end.

(** The first sponsor that the changes tell. *)
Fixpoint sponsor_in_changes (signerKey : option gostring) (changes : list Change) : outcome tx_error (option AccountId) :=
  match changes with
  | [] => Ret None
  | c :: changes =>
      signerSponsor ← match signerKey with Some k => getSignerSponsorInChange k c | None => Ret None end;
      match signerSponsor with
      | Some sponsorAccount => Ret (Some sponsorAccount)
      | None =>
          match Pre c, Post c with
          | None, Some post =>
              match SponsoringID post with
              | Some sponsorAccount => Ret (Some sponsorAccount)
              | None => sponsor_in_changes signerKey changes
              end
          | _, _ => sponsor_in_changes signerKey changes
          end
      end
  end.
Definition getSponsor (operation : transactionOperationWrapper) : outcome tx_error (option AccountId) :=
  changes ← op_changes operation;
  let signerKey := match op_body operation with
    | SetOptionsOp op => match Set_Signer op with Some s => Some (signer_string (Key s)) | None => None end
    | _ => None
    end in
  sponsor_in_changes signerKey changes.

(** Without results, or with too few of them, the index is out of range. *)
Definition op_OperationResult (operation : transactionOperationWrapper) : outcome tx_error OperationResultTr :=
  match OperationResults (Tx_Result (op_transaction operation)) with
  | Some results =>
      match results !! op_index operation with
      | Some (OpInner tr) => Ret tr
      | _ => Panic
      end
  | None => Panic
  end.

(** The accessors of the generated code, which panic on another arm. *)
Definition MustPathPaymentStrictReceiveResult (tr : OperationResultTr) : outcome tx_error (op_result PathPaymentSuccess) :=
  match tr with PathPaymentStrictReceiveResult r => Ret r | _ => Panic end.
Definition MustPathPaymentStrictSendResult (tr : OperationResultTr) : outcome tx_error (op_result PathPaymentSuccess) :=
  match tr with PathPaymentStrictSendResult r => Ret r | _ => Panic end.
Definition MustManageSellOfferResult (tr : OperationResultTr) : outcome tx_error (op_result ManageOfferSuccessResult) :=
  match tr with ManageSellOfferResult r => Ret r | _ => Panic end.
Definition MustManageBuyOfferResult (tr : OperationResultTr) : outcome tx_error (op_result ManageOfferSuccessResult) :=
  match tr with ManageBuyOfferResult r => Ret r | _ => Panic end.
Definition MustCreatePassiveSellOfferResult (tr : OperationResultTr) : outcome tx_error (op_result ManageOfferSuccessResult) :=
  match tr with CreatePassiveSellOfferResult r => Ret r | _ => Panic end.
Definition MustAccountMergeResult (tr : OperationResultTr) : outcome tx_error (op_result Z) :=
  match tr with AccountMergeResult r => Ret r | _ => Panic end.
Definition MustInflationResult (tr : OperationResultTr) : outcome tx_error (op_result (list InflationPayout)) :=
  match tr with InflationResult r => Ret r | _ => Panic end.
Definition MustCreateClaimableBalanceResult (tr : OperationResultTr) : outcome tx_error (op_result ClaimableBalanceId) :=
  match tr with CreateClaimableBalanceResult r => Ret r | _ => Panic end.
Definition MustSuccess {S} (r : op_result S) : outcome tx_error S :=
  match r with Success s => Ret s | Failure _ => Panic end.

(** The operations before [i], from the last to the first. *)
Fixpoint find_begin (operations : list Operation) (sponsoree : AccountId) (i : nat) : option (nat * Operation) :=
  match i with
  | O => None
  | S i =>
      match operations !! i with
      | Some o =>
          match Body o with
          | BeginSponsoringFutureReservesOp sponsoredId =>
              if bool_decide (address sponsoredId = address sponsoree) then Some (i, o) else find_begin operations sponsoree i
          | _ => find_begin operations sponsoree i
          end
      | None => None
      end
  end.
Definition findInitatingBeginSponsoringOp (operation : transactionOperationWrapper) : option transactionOperationWrapper :=
  if negb (Successful (Tx_Result (op_transaction operation))) then None else
  match find_begin (Operations (Envelope (op_transaction operation))) (SourceAccount operation) (op_index operation) with
  | Some (i, o) => Some (MkOp i (op_transaction operation) o (op_ledgerSequence operation))
  | None => None
  end.

(** ** Details *)

(** The error of [Extract] does not occur. *)
Definition addAssetDetails (result : details) (a : Asset) (prefix : string) : details :=
  let result := set_all [kv (prefix +:+ "asset_type") (VString (AssetTypeToString a))] result in
  match a with
  | AssetTypeNative => result
  | AssetTypeCreditAlphanum4 code issuer | AssetTypeCreditAlphanum12 code issuer =>
      set_all [kv (prefix +:+ "asset_code") (VString (trim_right code));
               kv (prefix +:+ "asset_issuer") (VString (address issuer))] result
  end.

Definition flag_names (f : Z) : list (Z * gostring) :=
  (if 0 <? Z.land f AccountFlagsAuthRequiredFlag then [(AccountFlagsAuthRequiredFlag, str "auth_required")] else []) ++
  (if 0 <? Z.land f AccountFlagsAuthRevocableFlag then [(AccountFlagsAuthRevocableFlag, str "auth_revocable")] else []) ++
  (if 0 <? Z.land f AccountFlagsAuthImmutableFlag then [(AccountFlagsAuthImmutableFlag, str "auth_immutable")] else []).
Definition operationFlagDetails (result : details) (f : Z) (prefix : string) : details :=
  set_all [kv (prefix +:+ "_flags") (VInts (flag_names f).*1); kv (prefix +:+ "_flags_s") (VStrings (flag_names f).*2)] result.

(** The hexadecimal text of a balance id; the generated marshaller writes the
    union's type in four bytes. *)
Definition balance_hex (b : ClaimableBalanceId) : gostring := Hex.EncodeToString ([0; 0; 0; 0] ++ V0 b).

Definition addLedgerKeyDetails (result : details) (ledgerKey : LedgerKey) : details :=
  set_all match ledgerKey with
    | LedgerEntryTypeAccount a => [kv "account_id" (VString (address a))]
    | LedgerEntryTypeClaimableBalance b => [kv "claimable_balance_id" (VString (balance_hex b))]
    | LedgerEntryTypeData a name => [kv "data_account_id" (VString (address a)); kv "data_name" (VString name)]
    | LedgerEntryTypeOffer _ offerId => [kv "offer_id" (VString (itoa offerId))]
    | LedgerEntryTypeTrustline a asset =>
        [kv "trustline_account_id" (VString (address a)); kv "trustline_asset" (VString (canonical_string asset))]
    end result.

Definition price_text (p : Price) : outcome tx_error gostring := must (Price_String p).
Definition price_r (p : Price) : value := VMap (set_all [kv "n" (VInt (N p)); kv "d" (VInt (D p))] ∅).
Definition path_details (path : list Asset) : value := VMaps ((λ a, addAssetDetails ∅ a "") <$> path).

(** The three operations that manage an offer; only two have an id. *)
Definition offer_details (offer_id : list (gostring * value)) (op : ManageOffer) : outcome tx_error details :=
  price ← price_text (Manage_Price op);
  let d := set_all (offer_id ++ [kv "amount" (VString (Amount.String (Manage_Amount op))); kv "price" (VString price);
    kv "price_r" (price_r (Manage_Price op))]) ∅ in
  Ret (addAssetDetails (addAssetDetails d (Manage_Buying op) "buying_") (Manage_Selling op) "selling_").

Definition opt_detail {A} (k : string) (f : A → value) (x : option A) : list (gostring * value) :=
  match x with Some x => [kv k (f x)] | None => [] end.
Definition set_options_details (op : SetOptions) : details :=
  let d := set_all (opt_detail "inflation_dest" (λ a, VString (address a)) (Set_InflationDest op)) ∅ in
  let d := match Set_SetFlags op with Some f => if 0 <? f then operationFlagDetails d (i32 f) "set" else d | None => d end in
  let d := match Set_ClearFlags op with Some f => if 0 <? f then operationFlagDetails d (i32 f) "clear" else d | None => d end in
  set_all (opt_detail "master_key_weight" VInt (Set_MasterWeight op) ++ opt_detail "low_threshold" VInt (Set_LowThreshold op) ++
    opt_detail "med_threshold" VInt (Set_MedThreshold op) ++ opt_detail "high_threshold" VInt (Set_HighThreshold op) ++
    opt_detail "home_domain" VString (Set_HomeDomain op) ++
    match Set_Signer op with
    | Some s => [kv "signer_key" (VString (signer_string (Key s))); kv "signer_weight" (VInt (Weight s))]
    | None => []
    end) d.

(** The details by the type of the operation, without the sponsor. *)
Definition body_details (operation : transactionOperationWrapper) : outcome tx_error details :=
  let source := SourceAccount operation in
  let from := kv "from" (VString (address source)) in
  let successful := Successful (Tx_Result (op_transaction operation)) in
  match op_body operation with
  | CreateAccountOp destination startingBalance =>
      Ret (set_all [kv "funder" (VString (address source)); kv "account" (VString (address destination));
        kv "starting_balance" (VString (Amount.String startingBalance))] ∅)
  | PaymentOp destination asset amount =>
      Ret (addAssetDetails (set_all [from; kv "to" (VString (address (ToAccountId destination)));
        kv "amount" (VString (Amount.String amount))] ∅) asset "")
  | PathPaymentStrictReceiveOp op =>
      let d := set_all [from; kv "to" (VString (address (ToAccountId (Receive_Destination op))));
        kv "amount" (VString (Amount.String (Receive_DestAmount op))); kv "source_amount" (VString (Amount.String 0));
        kv "source_max" (VString (Amount.String (Receive_SendMax op)))] ∅ in
      let d := addAssetDetails (addAssetDetails d (Receive_DestAsset op) "") (Receive_SendAsset op) "source_" in
      d ← (if successful then
             tr ← op_OperationResult operation;
             result ← MustPathPaymentStrictReceiveResult tr;
             sendAmount ← must (SendAmount result);
             Ret (set_all [kv "source_amount" (VString (Amount.String sendAmount))] d)
           else Ret d);
      Ret (set_all [kv "path" (path_details (Receive_Path op))] d)
  | PathPaymentStrictSendOp op =>
      let d := set_all [from; kv "to" (VString (address (ToAccountId (Send_Destination op))));
        kv "amount" (VString (Amount.String 0)); kv "source_amount" (VString (Amount.String (Send_SendAmount op)));
        kv "destination_min" (VString (Amount.String (Send_DestMin op)))] ∅ in
      let d := addAssetDetails (addAssetDetails d (Send_DestAsset op) "") (Send_SendAsset op) "source_" in
      d ← (if successful then
             tr ← op_OperationResult operation;
             result ← MustPathPaymentStrictSendResult tr;
             Ret (set_all [kv "amount" (VString (Amount.String (DestAmount result)))] d)
           else Ret d);
      Ret (set_all [kv "path" (path_details (Send_Path op))] d)
  | ManageBuyOfferOp op | ManageSellOfferOp op => offer_details [kv "offer_id" (VInt (Manage_OfferId op))] op
  | CreatePassiveSellOfferOp op => offer_details [] op
  | SetOptionsOp op => Ret (set_options_details op)
  | ChangeTrustOp line limit =>
      let d := addAssetDetails ∅ line "" in
      let d := set_all [kv "trustor" (VString (address source))] d in
      Ret (set_all [kv "trustee" (default VNil (d !! str "asset_issuer")); kv "limit" (VString (Amount.String limit))] d)
  | AllowTrustOp trustor asset authorize =>
      let d := addAssetDetails ∅ (ToAsset asset source) "" in
      Ret (set_all ([kv "trustee" (VString (address source)); kv "trustor" (VString (address trustor));
        kv "authorize" (VBool (IsAuthorized authorize))] ++
        (if IsAuthorizedToMaintainLiabilitiesFlag authorize
         then [kv "authorize_to_maintain_liabilities" (VBool (IsAuthorizedToMaintainLiabilitiesFlag authorize))] else [])) d)
  | AccountMergeOp destination =>
      Ret (set_all [kv "account" (VString (address source)); kv "into" (VString (address (ToAccountId destination)))] ∅)
  | InflationOp => Ret ∅
  | ManageDataOp dataName dataValue =>
      Ret (set_all [kv "name" (VString dataName);
        kv "value" (match dataValue with Some v => VString (Base64.EncodeToString v) | None => VNil end)] ∅)
  | BumpSequenceOp bumpTo => Ret (set_all [kv "bump_to" (VString (itoa bumpTo))] ∅)
  | CreateClaimableBalanceOp asset amount claimants =>
      Ret (set_all [kv "asset" (VString (canonical_string asset)); kv "amount" (VString (Amount.String amount));
        kv "claimants" (VClaimants ((λ c, (address (Destination c), Predicate c)) <$> claimants))] ∅)
  | ClaimClaimableBalanceOp balanceID =>
      Ret (set_all [kv "balance_id" (VString (balance_hex balanceID)); kv "claimant" (VString (address source))] ∅)
  | BeginSponsoringFutureReservesOp sponsoredID => Ret (set_all [kv "sponsored_id" (VString (address sponsoredID))] ∅)
  | EndSponsoringFutureReservesOp =>
      Ret match findInitatingBeginSponsoringOp operation with
          | Some beginSponsorshipOp => set_all [kv "begin_sponsor" (VString (address (SourceAccount beginSponsorshipOp)))] ∅
          | None => ∅
          end
  | RevokeSponsorshipOp (RevokeLedgerEntry ledgerKey) => Ret (addLedgerKeyDetails ∅ ledgerKey)
  | RevokeSponsorshipOp (RevokeSigner accountID signerKey) =>
      Ret (set_all [kv "signer_account_id" (VString (address accountID)); kv "signer_key" (VString (signer_string signerKey))] ∅)
  end.

Definition Details (operation : transactionOperationWrapper) : outcome tx_error details :=
  d ← body_details operation;
  sponsor ← getSponsor operation;
  Ret (set_all (opt_detail "sponsor" (λ a, VString (address a)) sponsor) d).

(** ** Participants *)

Definition getLedgerKeyParticipants (ledgerKey : LedgerKey) : list AccountId :=
  match ledgerKey with
  | LedgerEntryTypeAccount a | LedgerEntryTypeData a _ | LedgerEntryTypeOffer a _ | LedgerEntryTypeTrustline a _ => [a]
  | LedgerEntryTypeClaimableBalance _ => []
  end.

(** The accounts that the body of the operation names. *)
Definition body_participants (operation : transactionOperationWrapper) : list AccountId :=
  match op_body operation with
  | CreateAccountOp destination _ => [destination]
  | PaymentOp destination _ _ => [ToAccountId destination]
  | PathPaymentStrictReceiveOp op => [ToAccountId (Receive_Destination op)]
  | PathPaymentStrictSendOp op => [ToAccountId (Send_Destination op)]
  | AllowTrustOp trustor _ _ => [trustor]
  | AccountMergeOp destination => [ToAccountId destination]
  | CreateClaimableBalanceOp _ _ claimants => Destination <$> claimants
  | BeginSponsoringFutureReservesOp sponsoredID => [sponsoredID]
  | EndSponsoringFutureReservesOp =>
      match findInitatingBeginSponsoringOp operation with
      | Some beginSponsorshipOp => [SourceAccount beginSponsorshipOp]
      | None => []
      end
  | RevokeSponsorshipOp (RevokeLedgerEntry ledgerKey) => getLedgerKeyParticipants ledgerKey
  | RevokeSponsorshipOp (RevokeSigner accountID _) => [accountID]
  | _ => []
  end.

(** A map by address; the order in which Go ranges over it is left to that of the
    finite map, on which nothing below depends. *)
Definition dedupe (l : list AccountId) : list AccountId :=
  (map_to_list (foldl (λ set id, <[ address id := id ]> set) (∅ : gmap gostring AccountId) l)).*2.

Definition Participants (operation : transactionOperationWrapper) : outcome tx_error (list AccountId) :=
  let participants := SourceAccount operation :: body_participants operation in
  sponsor ← getSponsor operation;
  Ret (dedupe (participants ++ match sponsor with Some s => [s] | None => [] end)).

(** The wrappers of the operations of a transaction. *)
Definition wrappers (transaction : LedgerTransaction) (sequence : Z) : list transactionOperationWrapper :=
  imap (λ opi op, MkOp opi transaction op sequence) (Operations (Envelope transaction)).

Definition operationsParticipants (transaction : LedgerTransaction) (sequence : Z) : outcome tx_error (gmap Z (list AccountId)) :=
  mfold (λ participants operation,
    p ← with_ID operation (Participants operation);
    id ← op_ID operation;
    Ret (<[ id := p ]> participants)) ∅ (wrappers transaction sequence).
