(* ===== verification/Effects.v ===== *)
(** * ingest/processors: the effects of operations

    Models the effects of [effects_processor.go]: what [effects()] of the wrapper
    of an operation returns.  Each of the Go methods that add effects is the list
    of what it adds, an address, a type and details ([added]); [add] numbers them.
    Two effects may share one map of details in Go; it is not changed after they
    are added. *)

From S2P Require Import Prelude Encoding Strkey Decimal Amount Price Xdr LedgerEntry ChangeCache Transaction LedgerReaders Operations.

(** ** The types of effects, from db2/history/main.go *)

Definition EffectAccountCreated : Z := 0.
Definition EffectAccountRemoved : Z := 1.
Definition EffectAccountCredited : Z := 2.
Definition EffectAccountDebited : Z := 3.
Definition EffectAccountThresholdsUpdated : Z := 4.
Definition EffectAccountHomeDomainUpdated : Z := 5.
Definition EffectAccountFlagsUpdated : Z := 6.
Definition EffectAccountInflationDestinationUpdated : Z := 7.
Definition EffectSignerCreated : Z := 10.
Definition EffectSignerRemoved : Z := 11.
Definition EffectSignerUpdated : Z := 12.
Definition EffectTrustlineCreated : Z := 20.
Definition EffectTrustlineRemoved : Z := 21.
Definition EffectTrustlineUpdated : Z := 22.
Definition EffectTrustlineAuthorized : Z := 23.
Definition EffectTrustlineDeauthorized : Z := 24.
Definition EffectTrustlineAuthorizedToMaintainLiabilities : Z := 25.
Definition EffectTrade : Z := 33.
Definition EffectDataCreated : Z := 40.
Definition EffectDataRemoved : Z := 41.
Definition EffectDataUpdated : Z := 42.
Definition EffectSequenceBumped : Z := 43.
Definition EffectClaimableBalanceCreated : Z := 50.
Definition EffectClaimableBalanceClaimantCreated : Z := 51.
Definition EffectClaimableBalanceClaimed : Z := 52.
Definition EffectSignerSponsorshipCreated : Z := 72.
Definition EffectSignerSponsorshipUpdated : Z := 73.
Definition EffectSignerSponsorshipRemoved : Z := 74.

(** Created, updated and removed; offers have none. *)
Definition sponsoringEffectsTable (t : LedgerEntryType) : option (Z * Z * Z) :=
  match t with
  | TypeAccount => Some (60, 61, 62)
  | TypeTrustline => Some (63, 64, 65)
  | TypeData => Some (66, 67, 68)
  | TypeClaimableBalance => Some (69, 70, 71)
  | TypeOffer => None
  end.

Definition DefaultSignerWeight : Z := 1.

(** ** What is added *)

Record effect := MkEffect {
  ef_address : gostring; ef_operationID : Z; ef_details : details; ef_effectType : Z; ef_order : Z }.
Abbreviation added := (gostring * Z * details)%type.

Definition add (operation : transactionOperationWrapper) (effects : list effect) (a : added) : outcome tx_error (list effect) :=
  let '(address, effectType, d) := a in
  id ← op_ID operation;
  Ret (effects ++ [MkEffect address id d effectType (u32 (Z.of_nat (length effects) + 1))]).

(** *** Sponsorships *)

Definition sponsor_of (e : option LedgerEntry) : option AccountId :=
  match e with Some e => SponsoringID e | None => None end.

(** The account of the effect, and what the type adds to the details. *)
Definition sponsorship_subject (operation : transactionOperationWrapper) (type : LedgerEntryType) (data : LedgerEntryData)
  : outcome tx_error (gostring * list (gostring * value)) :=
  match type, data with
  | TypeAccount, DataAccount a => Ret (address (Account_AccountId a), [])
  | TypeTrustline, DataTrustLine l =>
      Ret (address (TrustLine_AccountId l), [kv "asset" (VString (canonical_string (TrustLine_Asset l)))])
  | TypeData, DataData d => Ret (address (SourceAccount operation), [kv "data_name" (VString (Data_DataName d))])
  | TypeClaimableBalance, DataClaimableBalance b =>
      Ret (address (SourceAccount operation), [kv "balance_id" (VString (balance_hex (ClaimableBalance_BalanceId b)))])
  | _, _ => Panic
  end.

Definition addLedgerEntrySponsorshipEffects (operation : transactionOperationWrapper) (change : Change)
  : outcome tx_error (list added) :=
  match sponsoringEffectsTable (Change_Type change) with
  | None => Ret []
  | Some (created, updated, removed) =>
      let what := match sponsor_of (Pre change), sponsor_of (Post change) with
        | None, Some post => Some (created, [kv "sponsor" (VString (address post))])
        | Some pre, None => Some (removed, [kv "former_sponsor" (VString (address pre))])
        | Some pre, Some post =>
            if bool_decide (address pre = address post) then None
            else Some (updated, [kv "new_sponsor" (VString (address post)); kv "former_sponsor" (VString (address pre))])
        | None, None => None
        end in
      match what with
      | None => Ret []
      | Some (effectType, kvs) =>
          match match Post change with Some e => Some e | None => Pre change end with
          | None => Panic
          | Some e =>
              '(accountAddress, kvs') ← sponsorship_subject operation (Change_Type change) (Data e);
              Ret [(accountAddress, effectType, set_all (kvs ++ kvs') ∅)]
          end
      end
  end.

(** The account of an entry of the change. *)
Definition entry_account (e : option LedgerEntry) : outcome tx_error gostring :=
  match e with None => Panic | Some e => a ← MustAccount e; Ret (address (Account_AccountId a)) end.

(** The keys of two maps, sorted. *)
Definition sorted_keys {A} (m : gmap gostring A) : list gostring := sort_by str_ltb (map_to_list m).*1.
Definition all_signers (preSigners postSigners : gmap gostring AccountId) : list gostring :=
  sort_by str_ltb ((map_to_list preSigners).*1 ++ filter (λ k, preSigners !! k = None) (map_to_list postSigners).*1).

Definition signer_sponsorship (change : Change) (preSigners postSigners : gmap gostring AccountId) (l : list added)
    (signer : gostring) : outcome tx_error (list added) :=
  match preSigners !! signer, postSigners !! signer with
  | None, None => Ret l
  | None, Some post =>
      a ← entry_account (Post change);
      Ret (l ++ [(a, EffectSignerSponsorshipCreated,
        set_all [kv "sponsor" (VString (address post)); kv "signer" (VString signer)] ∅)])
  | Some pre, None =>
      a ← entry_account (Pre change);
      Ret (l ++ [(a, EffectSignerSponsorshipRemoved,
        set_all [kv "former_sponsor" (VString (address pre)); kv "signer" (VString signer)] ∅)])
  | Some pre, Some post =>
      if bool_decide (address pre = address post) then Ret l else
      a ← entry_account (Post change);
      Ret (l ++ [(a, EffectSignerSponsorshipUpdated,
        set_all [kv "former_sponsor" (VString (address pre)); kv "new_sponsor" (VString (address post));
          kv "signer" (VString signer)] ∅)])
  end.
Definition addSignerSponsorshipEffects (change : Change) : outcome tx_error (list added) :=
  if negb (bool_decide (Change_Type change = TypeAccount)) then Ret [] else
  preSigners ← signer_sponsor_map (Pre change);
  postSigners ← signer_sponsor_map (Post change);
  mfold (signer_sponsorship change preSigners postSigners) [] (all_signers preSigners postSigners).

(** *** Trades *)

Definition tradeDetails (buyer seller : AccountId) (claim : ClaimOfferAtom) : details * details :=
  (addAssetDetails (addAssetDetails (set_all [kv "offer_id" (VInt (Atom_OfferId claim)); kv "seller" (VString (address seller));
     kv "bought_amount" (VString (Amount.String (AmountSold claim))); kv "sold_amount" (VString (Amount.String (AmountBought claim)))] ∅)
     (AssetSold claim) "bought_") (AssetBought claim) "sold_",
   addAssetDetails (addAssetDetails (set_all [kv "offer_id" (VInt (Atom_OfferId claim)); kv "seller" (VString (address buyer));
     kv "bought_amount" (VString (Amount.String (AmountBought claim))); kv "sold_amount" (VString (Amount.String (AmountSold claim)))] ∅)
     (AssetBought claim) "bought_") (AssetSold claim) "sold_").

(** A claim of an offer that was only collected is no trade. *)
Definition is_trade (claim : ClaimOfferAtom) : bool := negb ((AmountSold claim =? 0) && (AmountBought claim =? 0)).
Definition addIngestTradeEffects (buyer : AccountId) (claims : list ClaimOfferAtom) : list added :=
  concat ((λ claim,
    if is_trade claim then
      let '(bd, sd) := tradeDetails buyer (Atom_SellerId claim) claim in
      [(address buyer, EffectTrade, bd); (address (Atom_SellerId claim), EffectTrade, sd)]
    else []) <$> claims).

(** *** By the type of the operation *)

Definition amount_details (amount : Z) (asset : Asset) : details :=
  addAssetDetails (set_all [kv "amount" (VString (Amount.String amount))] ∅) asset "".

Definition addAccountCreatedEffects (source destination : AccountId) (startingBalance : Z) : list added :=
  [(address destination, EffectAccountCreated, set_all [kv "starting_balance" (VString (Amount.String startingBalance))] ∅);
   (address source, EffectAccountDebited,
     set_all [kv "asset_type" (VString (str "native")); kv "amount" (VString (Amount.String startingBalance))] ∅);
   (address destination, EffectSignerCreated,
     set_all [kv "public_key" (VString (address destination)); kv "weight" (VInt DefaultSignerWeight)] ∅)].

Definition addPaymentEffects (source : AccountId) (destination : MuxedAccount) (asset : Asset) (amount : Z) : list added :=
  let d := amount_details amount asset in
  [(address (ToAccountId destination), EffectAccountCredited, d); (address source, EffectAccountDebited, d)].

Definition pathPaymentStrictReceiveEffects (operation : transactionOperationWrapper) (op : PathPaymentStrictReceive)
  : outcome tx_error (list added) :=
  let source := SourceAccount operation in
  tr ← op_OperationResult operation;
  result ← MustPathPaymentStrictReceiveResult tr;
  resultSuccess ← MustSuccess result;
  sendAmount ← must (SendAmount result);
  Ret ([(address (ToAccountId (Receive_Destination op)), EffectAccountCredited,
           amount_details (Receive_DestAmount op) (Receive_DestAsset op));
        (address source, EffectAccountDebited, amount_details sendAmount (Receive_SendAsset op))] ++
       addIngestTradeEffects source (Offers resultSuccess)).

Definition addPathPaymentStrictSendEffects (operation : transactionOperationWrapper) (op : PathPaymentStrictSend)
  : outcome tx_error (list added) :=
  let source := SourceAccount operation in
  tr ← op_OperationResult operation;
  result ← MustPathPaymentStrictSendResult tr;
  resultSuccess ← MustSuccess result;
  Ret ([(address (ToAccountId (Send_Destination op)), EffectAccountCredited,
           amount_details (DestAmount result) (Send_DestAsset op));
        (address source, EffectAccountDebited, amount_details (Send_SendAmount op) (Send_SendAsset op))] ++
       addIngestTradeEffects source (Offers resultSuccess)).

Definition addManageSellOfferEffects (operation : transactionOperationWrapper) : outcome tx_error (list added) :=
  tr ← op_OperationResult operation;
  r ← MustManageSellOfferResult tr;
  s ← MustSuccess r;
  Ret (addIngestTradeEffects (SourceAccount operation) (OffersClaimed s)).
Definition addManageBuyOfferEffects (operation : transactionOperationWrapper) : outcome tx_error (list added) :=
  tr ← op_OperationResult operation;
  r ← MustManageBuyOfferResult tr;
  s ← MustSuccess r;
  Ret (addIngestTradeEffects (SourceAccount operation) (OffersClaimed s)).
(** hcnet-core sets the wrong arm. *)
Definition addCreatePassiveSellOfferEffect (operation : transactionOperationWrapper) : outcome tx_error (list added) :=
  tr ← op_OperationResult operation;
  r ← match tr with ManageSellOfferResult r => Ret r | _ => MustCreatePassiveSellOfferResult tr end;
  s ← MustSuccess r;
  Ret (addIngestTradeEffects (SourceAccount operation) (OffersClaimed s)).

Definition setEffectFlagDetails (flagPtr : option Z) (setValue : bool) : list (gostring * value) :=
  match flagPtr with
  | None => []
  | Some flags =>
      (if IsAuthRequired flags then [kv "auth_required_flag" (VBool setValue)] else []) ++
      (if IsAuthRevocable flags then [kv "auth_revocable_flag" (VBool setValue)] else []) ++
      (if IsAuthImmutable flags then [kv "auth_immutable_flag" (VBool setValue)] else [])
  end.

(** The effects of the change from one map of signers to another. *)
Definition public_key (addy : gostring) : gostring * value := kv "public_key" (VString addy).
Definition signer_weight (weight : Z) : gostring * value := kv "weight" (VInt weight).
Definition signer_diff (source : AccountId) (before after : gmap gostring Z) : list added :=
  omap (λ addy, match after !! addy, before !! addy with
      | None, _ => Some (address source, EffectSignerRemoved, set_all [public_key addy] ∅)
      | Some weight, old =>
          if bool_decide (Some weight = old) then None
          else Some (address source, EffectSignerUpdated, set_all [public_key addy; signer_weight weight] ∅)
      end) (sorted_keys before) ++
  omap (λ addy, match before !! addy, after !! addy with
      | None, Some weight => Some (address source, EffectSignerCreated, set_all [public_key addy; signer_weight weight] ∅)
      | _, _ => None
      end) (sorted_keys after).
Definition signers_of_entry (e : option LedgerEntry) : outcome tx_error (gmap gostring Z) :=
  match e with None => Panic | Some e => account ← MustAccount e; must (SignerSummary account) end.
Definition signer_changes (source : AccountId) (changes : list Change) : outcome tx_error (list added) :=
  mfold (λ l change,
    if negb (bool_decide (Change_Type change = TypeAccount)) then Ret l else
    before ← signers_of_entry (Pre change);
    after ← signers_of_entry (Post change);
    Ret (if bool_decide (before = after) then l else l ++ signer_diff source before after)) [] changes.

(** The caller drops the error of the changes. *)
Definition addSetOptionsEffects (operation : transactionOperationWrapper) (op : SetOptions) : outcome tx_error (list added) :=
  let source := SourceAccount operation in
  let thresholds := opt_detail "low_threshold" VInt (Set_LowThreshold op) ++
    opt_detail "med_threshold" VInt (Set_MedThreshold op) ++ opt_detail "high_threshold" VInt (Set_HighThreshold op) in
  let flags := setEffectFlagDetails (Set_SetFlags op) true ++ setEffectFlagDetails (Set_ClearFlags op) false in
  let l :=
    match Set_HomeDomain op with
    | Some d => [(address source, EffectAccountHomeDomainUpdated, set_all [kv "home_domain" (VString d)] ∅)]
    | None => []
    end ++
    (if bool_decide (thresholds = []) then [] else [(address source, EffectAccountThresholdsUpdated, set_all thresholds ∅)]) ++
    (if bool_decide (flags = []) then [] else [(address source, EffectAccountFlagsUpdated, set_all flags ∅)]) ++
    match Set_InflationDest op with
    | Some a => [(address source, EffectAccountInflationDestinationUpdated,
                   set_all [kv "inflation_destination" (VString (address a))] ∅)]
    | None => []
    end in
  match op_changes operation with
  | Ret changes => l' ← signer_changes source changes; Ret (l ++ l')
  | Fail _ => Ret l
  | Panic => Panic
  end.

(** The first change of a type; without one the type of the effect is 0. *)
Definition first_of (type : LedgerEntryType) (changes : list Change) : option Change :=
  head (filter (λ c, Change_Type c = type) changes).
Definition change_effect (created removed updated : Z) (c : Change) : outcome tx_error Z :=
  match Pre c, Post c with
  | None, Some _ => Ret created
  | Some _, None => Ret removed
  | Some _, Some _ => Ret updated
  | None, None => Panic
  end.

Definition addChangeTrustEffects (operation : transactionOperationWrapper) (line : Asset) (limit : Z)
  : outcome tx_error (list added) :=
  changes ← op_changes operation;
  if bool_decide (changes = []) then Ret [] else
  effectType ← match first_of TypeTrustline changes with
    | Some c => change_effect EffectTrustlineCreated EffectTrustlineRemoved EffectTrustlineUpdated c
    | None => Ret 0
    end;
  Ret [(address (SourceAccount operation), effectType,
    addAssetDetails (set_all [kv "limit" (VString (Amount.String limit))] ∅) line "")].

Definition addAllowTrustEffects (source trustor : AccountId) (asset : AllowTrustOpAsset) (authorize : Z) : list added :=
  let d := addAssetDetails (set_all [kv "trustor" (VString (address trustor))] ∅) (ToAsset asset source) "" in
  [(address source,
    if IsAuthorized authorize then EffectTrustlineAuthorized
    else if IsAuthorizedToMaintainLiabilitiesFlag authorize then EffectTrustlineAuthorizedToMaintainLiabilities
    else EffectTrustlineDeauthorized, d)].

Definition addAccountMergeEffects (operation : transactionOperationWrapper) (dest : MuxedAccount) : outcome tx_error (list added) :=
  let source := SourceAccount operation in
  tr ← op_OperationResult operation;
  r ← MustAccountMergeResult tr;
  balance ← MustSuccess r;
  let d := set_all [kv "amount" (VString (Amount.String balance)); kv "asset_type" (VString (str "native"))] ∅ in
  Ret [(address source, EffectAccountDebited, d); (address (ToAccountId dest), EffectAccountCredited, d);
       (address source, EffectAccountRemoved, ∅)].

Definition addInflationEffects (operation : transactionOperationWrapper) : outcome tx_error (list added) :=
  tr ← op_OperationResult operation;
  r ← MustInflationResult tr;
  payouts ← MustSuccess r;
  Ret ((λ p, (address (Payout_Destination p), EffectAccountCredited,
    set_all [kv "amount" (VString (Amount.String (Payout_Amount p))); kv "asset_type" (VString (str "native"))] ∅)) <$> (payouts : list InflationPayout)).

Definition addManageDataEffects (operation : transactionOperationWrapper) (dataName : gostring) : outcome tx_error (list added) :=
  changes ← op_changes operation;
  '(effectType, kvs) ← match first_of TypeData changes with
    | None => Ret (0, [])
    | Some c =>
        kvs ← match Post c with
          | Some after =>
              match Data after with
              | DataData d => Ret [kv "value" (VString (Base64.EncodeToString (Data_DataValue d)))]
              | _ => Panic
              end
          | None => Ret []
          end;
        effectType ← change_effect EffectDataCreated EffectDataRemoved EffectDataUpdated c;
        Ret (effectType, kvs)
    end;
  Ret [(address (SourceAccount operation), effectType, set_all (kv "name" (VString dataName) :: kvs) ∅)].

Definition addBumpSequenceEffects (operation : transactionOperationWrapper) : outcome tx_error (list added) :=
  changes ← op_changes operation;
  match first_of TypeAccount changes with
  | None => Ret []
  | Some c =>
      match Pre c, Post c with
      | Some before, Some after =>
          beforeAccount ← MustAccount before;
          afterAccount ← MustAccount after;
          Ret (if Account_SeqNum beforeAccount =? Account_SeqNum afterAccount then []
               else [(address (SourceAccount operation), EffectSequenceBumped,
                       set_all [kv "new_seq" (VInt (Account_SeqNum afterAccount))] ∅)])
      | _, _ => Panic
      end
  end.

Definition addCreateClaimableBalanceEffects (operation : transactionOperationWrapper) (asset : Asset) (amount : Z)
    (claimants : list Claimant) : outcome tx_error (list added) :=
  let source := SourceAccount operation in
  tr ← op_OperationResult operation;
  r ← MustCreateClaimableBalanceResult tr;
  balanceId ← match r with Success b => Ret b | Failure _ => Fail (ErrBalanceId (op_index operation)) end;
  let balance := [kv "balance_id" (VString (balance_hex balanceId)); kv "amount" (VString (Amount.String amount))] in
  let asset_kv := kv "asset" (VString (canonical_string asset)) in
  Ret ([(address source, EffectClaimableBalanceCreated, set_all (balance ++ [asset_kv]) ∅)] ++
       ((λ c, (address (Destination c), EffectClaimableBalanceClaimantCreated,
          set_all (balance ++ [kv "predicate" (VPredicate (Predicate c)); asset_kv]) ∅)) <$> claimants) ++
       [(address source, EffectAccountDebited, amount_details amount asset)]).

(** The removed balance with the given text. *)
Fixpoint find_removed_balance (balanceID : gostring) (changes : list Change) : outcome tx_error ClaimableBalanceEntry :=
  match changes with
  | [] => Fail (ErrBalanceChange balanceID)
  | change :: changes =>
      if negb (bool_decide (Change_Type change = TypeClaimableBalance)) then find_removed_balance balanceID changes else
      match Pre change, Post change with
      | Some pre, None =>
          match Data pre with
          | DataClaimableBalance cBalance =>
              if bool_decide (balance_hex (ClaimableBalance_BalanceId cBalance) = balanceID) then Ret cBalance
              else find_removed_balance balanceID changes
          | _ => Panic
          end
      | _, _ => find_removed_balance balanceID changes
      end
  end.
Definition addClaimClaimableBalanceEffects (operation : transactionOperationWrapper) (balanceId : ClaimableBalanceId)
  : outcome tx_error (list added) :=
  let source := SourceAccount operation in
  let balanceID := balance_hex balanceId in
  changes ← op_changes operation;
  cBalance ← find_removed_balance balanceID changes;
  Ret [(address source, EffectClaimableBalanceClaimed,
         set_all [kv "amount" (VString (Amount.String (ClaimableBalance_Amount cBalance))); kv "balance_id" (VString balanceID);
           kv "asset" (VString (canonical_string (ClaimableBalance_Asset cBalance)))] ∅);
       (address source, EffectAccountCredited,
         amount_details (ClaimableBalance_Amount cBalance) (ClaimableBalance_Asset cBalance))].

(** ** The effects of an operation *)

Definition body_effects (operation : transactionOperationWrapper) : outcome tx_error (list added) :=
  let source := SourceAccount operation in
  match op_body operation with
  | CreateAccountOp destination startingBalance => Ret (addAccountCreatedEffects source destination startingBalance)
  | PaymentOp destination asset amount => Ret (addPaymentEffects source destination asset amount)
  | PathPaymentStrictReceiveOp op => pathPaymentStrictReceiveEffects operation op
  | PathPaymentStrictSendOp op => addPathPaymentStrictSendEffects operation op
  | ManageSellOfferOp _ => addManageSellOfferEffects operation
  | ManageBuyOfferOp _ => addManageBuyOfferEffects operation
  | CreatePassiveSellOfferOp _ => addCreatePassiveSellOfferEffect operation
  | SetOptionsOp op => addSetOptionsEffects operation op
  | ChangeTrustOp line limit => addChangeTrustEffects operation line limit
  | AllowTrustOp trustor asset authorize => Ret (addAllowTrustEffects source trustor asset authorize)
  | AccountMergeOp destination => addAccountMergeEffects operation destination
  | InflationOp => addInflationEffects operation
  | ManageDataOp dataName _ => addManageDataEffects operation dataName
  | BumpSequenceOp _ => addBumpSequenceEffects operation
  | CreateClaimableBalanceOp asset amount claimants => addCreateClaimableBalanceEffects operation asset amount claimants
  | ClaimClaimableBalanceOp balanceID => addClaimClaimableBalanceEffects operation balanceID
  | BeginSponsoringFutureReservesOp _ | EndSponsoringFutureReservesOp | RevokeSponsorshipOp _ => Ret []
  end.

Definition change_effects (operation : transactionOperationWrapper) (effects : list effect) (change : Change)
  : outcome tx_error (list effect) :=
  l ← addLedgerEntrySponsorshipEffects operation change;
  effects ← mfold (add operation) effects l;
  l ← addSignerSponsorshipEffects change;
  mfold (add operation) effects l.

Definition op_effects (operation : transactionOperationWrapper) : outcome tx_error (list effect) :=
  if negb (Successful (Tx_Result (op_transaction operation))) then Ret [] else
  l ← body_effects operation;
  effects ← mfold (add operation) [] l;
  changes ← op_changes operation;
  mfold (change_effects operation) effects changes.

Definition operationsEffects (transaction : LedgerTransaction) (sequence : Z) : outcome tx_error (list effect) :=
  mfold (λ effects operation,
    p ← with_ID operation (op_effects operation);
    Ret (effects ++ p)) [] (wrappers transaction sequence).

(** ** The numbers of the effects of an operation *)

(** What is added, numbered from one under the id of an operation. *)
Definition numbered (id : Z) (l : list added) : list effect :=
  imap (λ i '(address, effectType, d), MkEffect address id d effectType (u32 (Z.of_nat i + 1))) l.

Lemma add_numbered operation id l a :
  op_ID operation = Ret id → add operation (numbered id l) a = Ret (numbered id (l ++ [a])).
Proof.
  intros Hid. destruct a as [[address effectType] d]. unfold add, numbered. rewrite Hid. outcome_simpl.
  rewrite imap_app. cbn [imap]. unfold compose. by rewrite length_imap, Nat.add_0_r.
Qed.

Lemma adds_numbered operation id l l' :
  op_ID operation = Ret id → mfold (add operation) (numbered id l) l' = Ret (numbered id (l ++ l')).
Proof.
  intros Hid. revert l. induction l' as [|a l' IH]; intros l; cbn [mfold]; [by rewrite app_nil_r|].
  rewrite (add_numbered operation id l a Hid). cbn [outcome_bind]. by rewrite IH, <- app_assoc.
Qed.

(** The effects of the sponsorships that a change tells. *)
Definition sponsorship_effects (operation : transactionOperationWrapper) (change : Change) : outcome tx_error (list added) :=
  l ← addLedgerEntrySponsorshipEffects operation change;
  l' ← addSignerSponsorshipEffects change;
  Ret (l ++ l').

Lemma change_numbered operation id l c :
  op_ID operation = Ret id →
  change_effects operation (numbered id l) c = (l' ← sponsorship_effects operation c; Ret (numbered id (l ++ l'))).
Proof.
  intros Hid. unfold change_effects, sponsorship_effects. outcome_simpl.
  destruct (addLedgerEntrySponsorshipEffects operation c) as [l1|e|]; cbn [outcome_bind]; [|done..].
  rewrite (adds_numbered operation id l l1 Hid). cbn [outcome_bind].
  destruct (addSignerSponsorshipEffects c) as [l2|e|]; cbn [outcome_bind]; [|done..].
  by rewrite (adds_numbered operation id _ l2 Hid), app_assoc.
Qed.

Lemma changes_numbered operation id l cs :
  op_ID operation = Ret id →
  mfold (change_effects operation) (numbered id l) cs =
  (ls ← mmap (sponsorship_effects operation) cs; Ret (numbered id (l ++ concat ls))).
Proof.
  intros Hid. revert l. induction cs as [|c cs IH]; intros l; cbn [mfold].
  { unfold mbind, outcome_mbind. cbn. by rewrite app_nil_r. }
  rewrite mmap_cons, (change_numbered operation id l c Hid). unfold mbind, outcome_mbind in *.
  destruct (sponsorship_effects operation c) as [l'|e|]; cbn [outcome_bind]; [|done..]. rewrite IH.
  destruct (mmap _ cs) as [ls|e|]; cbn [outcome_bind concat]; [|done..]. by rewrite app_assoc.
Qed.

Lemma op_effects_as operation id :
  op_ID operation = Ret id →
  op_effects operation =
    (if negb (Successful (Tx_Result (op_transaction operation))) then Ret [] else
     body ← body_effects operation;
     changes ← op_changes operation;
     sponsorships ← mmap (sponsorship_effects operation) changes;
     Ret (numbered id (body ++ concat sponsorships))).
Proof.
  intros Hid. unfold op_effects. case_if; [done|]. destruct (body_effects operation) as [b|e|]; outcome_simpl; [|done..].
  change (@nil effect) with (numbered id []). rewrite (adds_numbered operation id [] b Hid). cbn [outcome_bind app].
  destruct (op_changes operation) as [cs|e|]; cbn [outcome_bind]; [|done..]. by rewrite (changes_numbered operation id b cs Hid).
Qed.

(** ** Effects tell what happened

    A reader of effects who knows the state before can follow it: each effect
    changes a map at one key. *)
#[local] Opaque address.

Section replay.
Context {V X : Type} (apply : gmap gostring V → X → option (gmap gostring V)).

Definition replay (l : list X) (m : gmap gostring V) : option (gmap gostring V) :=
  foldl (λ m x, m ≫= λ m, apply m x) (Some m) l.

Lemma replay_one x m : replay [x] m = apply m x.
Proof. done. Qed.

Lemma replay_none v k m : m !! k = v → replay [] m = Some (partial_alter (λ _, v) k m).
Proof.
  intros Hm. unfold replay. cbn. f_equal. apply map_eq. intros k'.
  destruct (decide (k' = k)) as [->|]; [by rewrite lookup_partial_alter_eq, Hm|by rewrite lookup_partial_alter_ne].
Qed.

Lemma replay_app l l' m m' : replay l m = Some m' → replay (l ++ l') m = replay l' m'.
Proof. unfold replay. intros H. by rewrite foldl_app, H. Qed.

(** What the effects for one key do to a map that has there what was before. *)
Definition follows (before after : gmap gostring V) (f : gostring → list X) (k : gostring) : Prop :=
  ∀ m, m !! k = before !! k → replay (f k) m = Some (partial_alter (λ _, after !! k) k m).

Lemma replay_keys (before after : gmap gostring V) f (ks : list gostring) m :
  NoDup ks → (∀ k, k ∈ ks → follows before after f k ∧ m !! k = before !! k) →
  ∃ m', replay (concat (f <$> ks)) m = Some m' ∧ ∀ k, m' !! k = if bool_decide (k ∈ ks) then after !! k else m !! k.
Proof.
  revert m. induction ks as [|k ks IH]; intros m Hn Hf.
  - exists m. split; [done|]. intros k. by rewrite bool_decide_false by apply not_elem_of_nil.
  - apply NoDup_cons in Hn as [Hk Hn]. destruct (Hf k) as [Hfk Hmk]; [by left|].
    destruct (IH (partial_alter (λ _, after !! k) k m) Hn) as (m' & Hr & Hm').
    + intros k' Hk'. destruct (Hf k') as [? Hm]; [by right|]. split; [done|]. rewrite lookup_partial_alter_ne by (intros ->; done). done.
    + exists m'. split; [cbn [fmap list_fmap concat]; by rewrite (replay_app _ _ _ _ (Hfk m Hmk))|].
      intros k'. rewrite Hm'. repeat case_bool_decide; rewrite ?elem_of_cons in *; try tauto.
      * destruct (decide (k' = k)) as [->|]; [by rewrite lookup_partial_alter_eq|tauto].
      * destruct (decide (k' = k)) as [->|]; [tauto|]. by rewrite lookup_partial_alter_ne.
Qed.
End replay.

(** *** Signers and their weights *)

(** An effect that removes or updates a signer that is not there, or creates one
    that is, has no meaning. *)
Definition apply_signer (m : gmap gostring Z) (a : added) : option (gmap gostring Z) :=
  let '(_, effectType, d) := a in
  match d !! str "public_key" with
  | Some (VString addy) =>
      if effectType =? EffectSignerRemoved then _ ← m !! addy; Some (delete addy m)
      else match d !! str "weight" with
           | Some (VInt weight) =>
               if effectType =? EffectSignerUpdated then _ ← m !! addy; Some (<[ addy := weight ]> m)
               else if effectType =? EffectSignerCreated then
                 match m !! addy with Some _ => None | None => Some (<[ addy := weight ]> m) end
               else None
           | _ => None
           end
  | _ => None
  end.

Lemma elem_of_keys {A} (m : gmap gostring A) k : k ∈ (map_to_list m).*1 ↔ is_Some (m !! k).
Proof.
  rewrite list_elem_of_fmap. split.
  - intros ([k' x] & -> & Hx%elem_of_map_to_list). by exists x.
  - intros [x Hx]. exists (k, x). by rewrite elem_of_map_to_list.
Qed.

Lemma sorted_keys_spec {A} (m : gmap gostring A) : NoDup (sorted_keys m) ∧ ∀ k, k ∈ sorted_keys m ↔ is_Some (m !! k).
Proof.
  unfold sorted_keys. split; [rewrite (sort_by_perm str_ltb); apply NoDup_fst_map_to_list|].
  intros k. by rewrite (sort_by_perm str_ltb), elem_of_keys.
Qed.

Lemma all_signers_spec (pre post : gmap gostring AccountId) :
  NoDup (all_signers pre post) ∧ ∀ k, k ∈ all_signers pre post ↔ is_Some (pre !! k) ∨ is_Some (post !! k).
Proof.
  unfold all_signers. split.
  - rewrite (sort_by_perm str_ltb). apply NoDup_app. split_and!; [apply NoDup_fst_map_to_list| |].
    + intros k [x Hk]%elem_of_keys [Hk' _]%list_elem_of_filter. congruence.
    + apply NoDup_filter, NoDup_fst_map_to_list.
  - intros k. rewrite (sort_by_perm str_ltb), elem_of_app, list_elem_of_filter, !elem_of_keys.
    destruct (pre !! k); [|naive_solver]. split; [naive_solver|]. intros _. left. by eexists.
Qed.

Lemma omap_concat {A B} (f : A → option B) (l : list A) : omap f l = concat ((λ x, match f x with Some y => [y] | None => [] end) <$> l).
Proof. induction l as [|x l IH]; [done|]. rewrite fmap_cons. cbn [concat]. rewrite <- IH. cbn. by destruct (f x). Qed.

Lemma apply_removed a addy m w :
  m !! addy = Some w → apply_signer m (a, EffectSignerRemoved, set_all [public_key addy] ∅) = Some (delete addy m).
Proof. intros Hw. unfold apply_signer, set_all. cbn [foldl public_key kv]. rewrite lookup_insert_eq. cbn. by rewrite Hw. Qed.

Lemma apply_weight a addy m t w :
  apply_signer m (a, t, set_all [public_key addy; signer_weight w] ∅) =
  if t =? EffectSignerRemoved then _ ← m !! addy; Some (delete addy m)
  else if t =? EffectSignerUpdated then _ ← m !! addy; Some (<[ addy := w ]> m)
  else if t =? EffectSignerCreated then match m !! addy with Some _ => None | None => Some (<[ addy := w ]> m) end
  else None.
Proof.
  unfold apply_signer, set_all. cbn [foldl public_key signer_weight kv].
  rewrite lookup_insert_ne, !lookup_insert_eq by done. done.
Qed.

(** C32: the effects of a change of the signers of an account tell it: followed on
    the signers and weights before, each of them removes or updates a signer that
    is there or creates one that is not, and after them the signers and weights
    are those of the account after the change. *)
Theorem signer_diff_replays source before after :
  replay apply_signer (signer_diff source before after) before = Some after.
Proof.
  destruct (sorted_keys_spec before) as [Hnb Hb], (sorted_keys_spec after) as [Hna Ha].
  unfold signer_diff. rewrite !omap_concat.
  match goal with |- replay _ (concat (?f <$> _) ++ concat (?g <$> _)) _ = _ =>
    destruct (replay_keys apply_signer before after f (sorted_keys before) before) as (m & Hm & Hmk);
    [done| |rewrite (replay_app _ _ _ _ _ Hm);
      destruct (replay_keys apply_signer m after g (sorted_keys after) m) as (m' & -> & Hmk'); [done| |]] end.
  - intros k Hk%Hb. split; [|done]. intros m Hm. cbv beta. destruct Hk as [w Hk].
    destruct (after !! k) as [w'|] eqn:Hk'; [case_bool_decide as E|].
    + apply replay_none. congruence.
    + by rewrite replay_one, apply_weight, Hm, Hk.
    + rewrite replay_one. apply (apply_removed _ _ _ w). congruence.
  - intros k Hk%Ha. split; [|done]. intros m2 Hm2. cbv beta. destruct Hk as [w Hk]. rewrite Hmk in Hm2. rewrite Hk.
    destruct (before !! k) as [w'|] eqn:Hk'.
    + apply replay_none. rewrite Hm2, <- Hk. by rewrite bool_decide_true by (apply Hb; by eexists).
    + rewrite bool_decide_false in Hm2 by (intros [? ?]%Hb; congruence).
      by rewrite replay_one, apply_weight, Hm2.
  - f_equal. apply map_eq. intros k. rewrite Hmk', Hmk. pose proof (Ha k) as Hak. pose proof (Hb k) as Hbk.
    repeat case_bool_decide; try done. rewrite (proj2 (eq_None_not_Some (before !! k))) by tauto.
    by rewrite (proj2 (eq_None_not_Some (after !! k))) by tauto.
Qed.

(** *** Signers and their sponsors *)

(** An effect names the sponsor that the signer had. *)
Definition apply_signer_sponsor (m : gmap gostring gostring) (a : added) : option (gmap gostring gostring) :=
  let '(_, effectType, d) := a in
  match d !! str "signer" with
  | Some (VString k) =>
      if effectType =? EffectSignerSponsorshipCreated then
        match d !! str "sponsor", m !! k with Some (VString post), None => Some (<[ k := post ]> m) | _, _ => None end
      else if effectType =? EffectSignerSponsorshipRemoved then
        match d !! str "former_sponsor" with
        | Some (VString pre) => if bool_decide (m !! k = Some pre) then Some (delete k m) else None
        | _ => None
        end
      else if effectType =? EffectSignerSponsorshipUpdated then
        match d !! str "former_sponsor", d !! str "new_sponsor" with
        | Some (VString pre), Some (VString post) => if bool_decide (m !! k = Some pre) then Some (<[ k := post ]> m) else None
        | _, _ => None
        end
      else None
  | _ => None
  end.

(** The effects for one signer. *)
Definition signer_sponsor_effects (account_before account_after : gostring) (preSigners postSigners : gmap gostring AccountId)
    (signer : gostring) : list added :=
  match preSigners !! signer, postSigners !! signer with
  | None, None => []
  | None, Some post => [(account_after, EffectSignerSponsorshipCreated,
      set_all [kv "sponsor" (VString (address post)); kv "signer" (VString signer)] ∅)]
  | Some pre, None => [(account_before, EffectSignerSponsorshipRemoved,
      set_all [kv "former_sponsor" (VString (address pre)); kv "signer" (VString signer)] ∅)]
  | Some pre, Some post =>
      if bool_decide (address pre = address post) then [] else
      [(account_after, EffectSignerSponsorshipUpdated,
        set_all [kv "former_sponsor" (VString (address pre)); kv "new_sponsor" (VString (address post)); kv "signer" (VString signer)] ∅)]
  end.

Lemma signer_sponsor_map_account entry m :
  signer_sponsor_map entry = Ret m → m = ∅ ∨ ∃ a, entry_account entry = Ret a.
Proof.
  unfold signer_sponsor_map, entry_account. destruct entry as [e|]; [|intros [= <-]; by left].
  destruct (MustAccount e) as [a|x|]; outcome_simpl; [|done..]. right. by eexists.
Qed.

Lemma signer_sponsorships change pre post :
  signer_sponsor_map (Pre change) = Ret pre → signer_sponsor_map (Post change) = Ret post →
  ∃ a b, ∀ ks l, mfold (signer_sponsorship change pre post) l ks = Ret (l ++ concat (signer_sponsor_effects a b pre post <$> (ks : list gostring))).
Proof.
  intros Hpre Hpost.
  assert (∃ a, pre = ∅ ∨ entry_account (Pre change) = Ret a) as [a Ha] by
    (destruct (signer_sponsor_map_account _ _ Hpre) as [|[a ?]]; [exists []|exists a]; auto).
  assert (∃ b, post = ∅ ∨ entry_account (Post change) = Ret b) as [b Hb] by
    (destruct (signer_sponsor_map_account _ _ Hpost) as [|[b ?]]; [exists []|exists b]; auto).
  exists a, b. induction ks as [|k ks IH]; intros l; cbn [mfold]; [by rewrite app_nil_r|].
  assert (signer_sponsorship change pre post l k = Ret (l ++ signer_sponsor_effects a b pre post k)) as ->.
  { unfold signer_sponsorship, signer_sponsor_effects. destruct (pre !! k) as [x|] eqn:Ex, (post !! k) as [y|] eqn:Ey.
    - destruct Hb as [->|Hb]; [done|]. rewrite Hb. outcome_simpl. case_bool_decide; by rewrite ?app_nil_r.
    - destruct Ha as [->|Ha]; [done|]. by rewrite Ha.
    - destruct Hb as [->|Hb]; [done|]. by rewrite Hb.
    - by rewrite app_nil_r. }
  cbn [outcome_bind]. rewrite IH. by rewrite <- app_assoc.
Qed.

(** What details have under a key. *)
Ltac details_lookup := unfold set_all; cbn [foldl kv]; repeat first [rewrite lookup_insert_eq|rewrite lookup_insert_ne by done].

Lemma signer_sponsor_follows (a b : gostring) (pre post : gmap gostring AccountId) (k : gostring) :
  follows apply_signer_sponsor (address <$> pre) (address <$> post) (signer_sponsor_effects a b pre post) k.
Proof.
  intros m Hm. rewrite lookup_fmap in Hm. unfold signer_sponsor_effects. rewrite lookup_fmap.
  destruct (pre !! k) as [x|] eqn:Ex, (post !! k) as [y|] eqn:Ey; cbn [fmap option_fmap option_map] in *.
  - case_bool_decide as E; [by apply replay_none; rewrite Hm, E|].
    rewrite replay_one. unfold apply_signer_sponsor. details_lookup.
    change (EffectSignerSponsorshipUpdated =? EffectSignerSponsorshipCreated) with false.
    change (EffectSignerSponsorshipUpdated =? EffectSignerSponsorshipRemoved) with false. cbv iota beta. by rewrite bool_decide_true.
  - rewrite replay_one. unfold apply_signer_sponsor. details_lookup.
    change (EffectSignerSponsorshipRemoved =? EffectSignerSponsorshipCreated) with false. cbv iota beta. by rewrite bool_decide_true.
  - rewrite replay_one. unfold apply_signer_sponsor. details_lookup. cbv iota beta. by rewrite Hm.
  - by apply replay_none.
Qed.

(** the effects of a change of an account tell the change of the sponsors of
    its signers: followed on the sponsors before, each effect finds the sponsor
    that it names, and after them every signer has the sponsor that the account
    gives it after the change. *)
Theorem signer_sponsorships_replay change pre post :
  Change_Type change = TypeAccount →
  signer_sponsor_map (Pre change) = Ret pre → signer_sponsor_map (Post change) = Ret post →
  ∃ l, addSignerSponsorshipEffects change = Ret l ∧ replay apply_signer_sponsor l (address <$> pre) = Some (address <$> post).
Proof.
  intros Hty Hpre Hpost. destruct (signer_sponsorships change pre post Hpre Hpost) as (a & b & Hm).
  unfold addSignerSponsorshipEffects. rewrite bool_decide_true, Hpre, Hpost by done. outcome_simpl. rewrite Hm.
  eexists. split; [reflexivity|]. cbn [app].
  destruct (all_signers_spec pre post) as [Hn Hel].
  destruct (replay_keys apply_signer_sponsor (address <$> pre) (address <$> post) (signer_sponsor_effects a b pre post)
    (all_signers pre post) (address <$> pre)) as (m & -> & Hk); [done| |].
  - intros k _. split; [apply signer_sponsor_follows|done].
  - f_equal. apply map_eq. intros k. rewrite Hk. case_bool_decide as Hin; [done|]. rewrite Hel in Hin. rewrite !lookup_fmap.
    rewrite (proj2 (eq_None_not_Some (pre !! k))) by tauto. by rewrite (proj2 (eq_None_not_Some (post !! k))) by tauto.
Qed.

(** A signer gets a sponsor. *)
Definition sponsored_account (sponsor : option AccountId) : LedgerEntry :=
  MkEntry 1 (DataAccount (MkAccount (MkAccountId (replicate 32 1)) 100 7 1 None 0 [] (MkThresholds 1 0 0 0)
    [MkSigner (SignerKeyTypeHashX (replicate 32 5)) 2]
    (Some (MkAccountV1 (MkLiabilities 0 0) (Some (MkAccountV2 0 0 [sponsor])))))) None.

Theorem signer_sponsorships_replay_witness :
  let sponsor := MkAccountId (replicate 32 9) in
  let signer := signer_string (SignerKeyTypeHashX (replicate 32 5)) in
  ∃ l, addSignerSponsorshipEffects (MkChange TypeAccount (Some (sponsored_account None)) (Some (sponsored_account (Some sponsor)))) = Ret l ∧
    replay apply_signer_sponsor l (address <$> (∅ : gmap gostring AccountId)) = Some (address <$> ({[ signer := sponsor ]} : gmap gostring AccountId)).
Proof.
  intros sponsor signer. apply (signer_sponsorships_replay _ ∅ {[ signer := sponsor ]}).
  - reflexivity.
  - vm_compute. reflexivity.
  - cbn [signer_sponsor_map Post sponsored_account MustAccount Data]. outcome_simpl. unfold SponsorPerSigner.
    cbn [SignerSponsoringIDs account_v2 Account_Ext V1_Ext V2_SignerSponsoringIDs Signers sponsor_loop Key].
    rewrite SignerKey_Address_total. reflexivity.
Defined.
