(* ===== verification/HistoryRows.v ===== *)
(** * db2/history: the rows of the history

    The rows that the ingestion writes for the transactions of a ledger, with
    the functions that make them, from [src/services/aurora/internal/db2/history]:
    [transaction_batch_insert_builder.go], [operation_batch_insert_builder.go],
    [effect_batch_insert_builder.go], [trade_batch_insert_builder.go],
    [participants.go], [operation_participant_batch_insert_builder.go],
    [ledger.go], [account.go], [asset.go] and [synt_offer_id.go].

    A table is a finite map from the columns of its unique index; an insertion
    that violates the index is the only error.  The constraints that amounts and
    counts are not negative are left out, and so are the columns that hold the
    time of the insertion.  The base64 text of the generated marshaller is a
    parameter. *)

From S2P Require Import Prelude Encoding Utf8 Strkey Toid Decimal Price Xdr LedgerEntry ChangeCache HistoryTables Transaction LedgerReaders Operations.

(** The text of an envelope, a result with its fee, a meta, the changes of a fee
    and a header; [None] is an error. *)
Class XdrText := {
  EnvelopeText : TransactionEnvelope → option gostring;
  ResultText : Z → TransactionResultResult → option gostring;
  MetaText : TransactionMeta → option gostring;
  FeeMetaText : LedgerEntryChanges → option gostring;
  HeaderText : LedgerHeader → option gostring }.

(** ** Rows *)

(** [TimeBounds] of the column: the bounds, or null. *)
Record TimeBoundsColumn := MkBounds { tb_Null : bool; tb_Upper : option Z; tb_Lower : option Z }.

Record TransactionRow := MkTransactionRow {
  txr_ID : Z; txr_TransactionHash : gostring; txr_LedgerSequence : Z; txr_ApplicationOrder : Z; txr_Account : gostring;
  txr_AccountSequence : gostring; txr_MaxFee : Z; txr_FeeCharged : Z; txr_OperationCount : Z;
  txr_TxEnvelope : gostring; txr_TxResult : gostring; txr_TxMeta : gostring; txr_TxFeeMeta : gostring;
  txr_Signatures : list gostring; txr_MemoType : gostring; txr_Memo : nullString; txr_TimeBounds : TimeBoundsColumn;
  txr_Successful : bool; txr_FeeAccount : nullString; txr_InnerTransactionHash : nullString; txr_NewMaxFee : option Z;
  txr_InnerSignatures : option (list gostring) }.
Record OperationRow := MkOperationRow {
  opr_ID : Z; opr_TransactionID : Z; opr_ApplicationOrder : Z; opr_Type : Z; opr_Details : details; opr_SourceAccount : gostring }.
Record EffectRow := MkEffectRow {
  efr_AccountID : Z; efr_OperationID : Z; efr_Order : Z; efr_Type : Z; efr_Details : details }.
Record TradeRow := MkTradeRow {
  trr_OperationID : Z; trr_Order : Z; trr_LedgerClosedAt : Z; trr_OfferID : Z;
  trr_BaseOfferID : Z; trr_BaseAccountID : Z; trr_BaseAssetID : Z; trr_BaseAmount : Z;
  trr_CounterOfferID : Z; trr_CounterAccountID : Z; trr_CounterAssetID : Z; trr_CounterAmount : Z;
  trr_BaseIsSeller : bool; trr_PriceN : Z; trr_PriceD : Z }.
Record LedgerRow := MkLedgerRow {
  lr_ImporterVersion : Z; lr_ID : Z; lr_Sequence : Z; lr_LedgerHash : gostring; lr_PreviousLedgerHash : nullString;
  lr_TotalCoins : Z; lr_FeePool : Z; lr_BaseFee : Z; lr_BaseReserve : Z; lr_MaxTxSetSize : Z; lr_ClosedAt : Z;
  lr_TransactionCount : Z; lr_SuccessfulTransactionCount : Z; lr_FailedTransactionCount : Z; lr_OperationCount : Z;
  lr_TxSetOperationCount : Z; lr_ProtocolVersion : Z; lr_LedgerHeader : gostring }.

(** ** The row of a transaction *)

Definition formatTimeBounds (transaction : LedgerTransaction) : TimeBoundsColumn :=
  match Envelope_TimeBounds (Envelope transaction) with
  | None => MkBounds true None None
  | Some timeBounds =>
      if MaxTime timeBounds =? 0 then MkBounds false None (Some (i64 (MinTime timeBounds)))
      else MkBounds false (Some (i64 (Z.min (MaxTime timeBounds) MaxInt64))) (Some (i64 (MinTime timeBounds)))
  end.
(** The text of the range in the database; a bound that is not valid is 0. *)
Definition TimeBounds_Value (t : TimeBoundsColumn) : nullString :=
  if tb_Null t then None else
  let lower := str "[" ++ itoa (default 0 (tb_Lower t)) in
  match tb_Upper t with
  | None => Some (lower ++ str ",)")
  | Some upper => Some (lower ++ str ", " ++ itoa upper ++ str ")")
  end.

Definition signatures (xdrSignatures : list DecoratedSignature) : list gostring :=
  (λ s, Base64.EncodeToString (Signature s)) <$> xdrSignatures.

Definition memoType (transaction : LedgerTransaction) : gostring :=
  match Envelope_Memo (Envelope transaction) with
  | MemoNone => str "none" | MemoText _ => str "text" | MemoId _ => str "id"
  | MemoHash _ => str "hash" | MemoReturn _ => str "return"
  end.
(** [strings.Join(strings.Split(scrubbed, "\x00"), "")] *)
Definition memo (transaction : LedgerTransaction) : nullString :=
  match Envelope_Memo (Envelope transaction) with
  | MemoNone => None
  | MemoText text => Some (concat (Prelude.split 0 (Scrub text)))
  | MemoId id => Some (itoa id)
  | MemoHash hash | MemoReturn hash => Some (Base64.EncodeToString hash)
  end.

Definition from_text {A} (o : option A) : outcome tx_error A := match o with Some x => Ret x | None => Fail ErrMarshalRow end.

Section rows.
Context `{XT : XdrText}.

Definition transactionToRow (transaction : LedgerTransaction) (sequence : Z) : outcome tx_error TransactionRow :=
  let envelope := Envelope transaction in
  envelopeBase64 ← from_text (EnvelopeText envelope);
  resultBase64 ← from_text (ResultText (FeeCharged (Tx_Result transaction)) (Result (Tx_Result transaction)));
  metaBase64 ← from_text (MetaText (Meta transaction));
  feeMetaBase64 ← from_text (FeeMetaText (FeeChanges transaction));
  id ← new_toid sequence (Index transaction) 0;
  '(innerHash, feeAccount, newMaxFee, innerSignatures, sigs) ←
    (if IsFeeBump envelope then
       innerHash ← must (InnerHash (Tx_Result transaction));
       feeAccount ← must (FeeBumpAccount envelope);
       fee ← must (FeeBumpFee envelope);
       feeSignatures ← must (FeeBumpSignatures envelope);
       Ret (Some (Hex.EncodeToString innerHash), Some (address (ToAccountId feeAccount)), Some fee,
         Some (signatures (Envelope_Signatures envelope)), signatures feeSignatures)
     else Ret (None, None, None, None, signatures (Envelope_Signatures envelope)));
  Ret (MkTransactionRow id (Hex.EncodeToString (TransactionHash (Tx_Result transaction))) (i32 sequence) (i32 (Index transaction))
    (address (ToAccountId (Envelope_SourceAccount envelope))) (itoa (Envelope_SeqNum envelope)) (Envelope_Fee envelope)
    (FeeCharged (Tx_Result transaction)) (i32 (Z.of_nat (length (Operations envelope))))
    envelopeBase64 resultBase64 metaBase64 feeMetaBase64 sigs (memoType transaction) (memo transaction)
    (formatTimeBounds transaction) (Successful (Tx_Result transaction)) feeAccount innerHash newMaxFee innerSignatures).

(** ** The row of a ledger *)

Definition ledgerHeaderToMap (ledger : LedgerHeaderHistoryEntry) (successTxsCount failedTxsCount opCount txSetOpCount importerVersion : Z)
  : outcome tx_error LedgerRow :=
  let header := Header ledger in
  ledgerHeaderBase64 ← from_text (HeaderText header);
  id ← new_toid (LedgerSeq header) 0 0;
  Ret (MkLedgerRow importerVersion id (LedgerSeq header) (Hex.EncodeToString (Header_Hash ledger))
    (if 1 <? LedgerSeq header then Some (Hex.EncodeToString (PreviousLedgerHash header)) else None)
    (TotalCoins header) (FeePool header) (BaseFee header) (BaseReserve header) (MaxTxSetSize header) (i64 (CloseTime header))
    successTxsCount successTxsCount failedTxsCount opCount txSetOpCount (LedgerVersion header) ledgerHeaderBase64).
End rows.

(** ** The tables *)

(** The keys of assets: type, code and issuer.  Each of the two tables with
    generated ids has a sequence. *)
Abbreviation asset_tuple := (gostring * gostring * gostring)%type.
Record IdTable (K : Type) `{Countable K} := MkIds { ids : gmap K Z; next_id : Z }.
Arguments MkIds {K _ _}. Arguments ids {K _ _}. Arguments next_id {K _ _}.

Record HistoryDB := MkHistory {
  history_accounts : IdTable gostring;
  history_assets : IdTable asset_tuple;
  history_ledgers : gmap Z LedgerRow;
  history_transactions : gmap Z TransactionRow;
  history_operations : gmap Z OperationRow;
  history_effects : gmap (Z * Z) EffectRow;
  history_trades : gmap (Z * Z) TradeRow;
  history_transaction_participants : gmap (Z * Z) (Z * Z);
  history_operation_participants : gmap (Z * Z) (Z * Z) }.

Definition effect_key (r : EffectRow) : Z * Z := (efr_OperationID r, efr_Order r).
Definition trade_key (r : TradeRow) : Z * Z := (trr_OperationID r, trr_Order r).
(** The row of a participant is its key: the id, and the account. *)
Definition participant_key (r : Z * Z) : Z * Z := r.

(** *** account.go, asset.go *)

(** [INSERT ... ON CONFLICT DO NOTHING]: the sequence goes on in any case. *)
Definition insert_id {K} `{Countable K} (t : IdTable K) (k : K) : IdTable K :=
  MkIds (if bool_decide (is_Some (ids t !! k)) then ids t else <[ k := next_id t ]> (ids t)) (next_id t + 1).

(** The rows whose key is asked for are read in batches of [n]. *)
Fixpoint in_batches {A} (fuel n : nat) (l : list A) : list (list A) :=
  match fuel, l with
  | _, [] => []
  | O, _ => []
  | S fuel, _ => take n l :: in_batches fuel n (drop n l)
  end.

(** The map from addresses to ids. *)
Definition AccountsByAddresses (addresses : list gostring) (t : IdTable gostring) : gmap gostring Z :=
  filter (λ kv, kv.1 ∈ addresses) (ids t).
Definition CreateAccounts (addresses : list gostring) (t : IdTable gostring) : IdTable gostring * gmap gostring Z :=
  let addresses := sort_by str_ltb addresses in
  let t := foldl insert_id t addresses in
  (t, foldl (λ addressToID subset, AccountsByAddresses subset t ∪ addressToID) ∅
        (in_batches (length addresses) (Z.to_nat 10000) addresses)).

Definition asset_tuple_of (a : Asset) : asset_tuple :=
  match a with
  | AssetTypeNative => (AssetTypeToString a, [], [])
  | AssetTypeCreditAlphanum4 code issuer | AssetTypeCreditAlphanum12 code issuer =>
      (AssetTypeToString a, trim_right code, address issuer)
  end.
Definition search_string (tuple : asset_tuple) : gostring :=
  let '(t, c, i) := tuple in t ++ str "/" ++ c ++ str "/" ++ i.

(** The ids by the text of the asset. *)
Definition CreateAssets (assets : list Asset) (t : IdTable asset_tuple) : IdTable asset_tuple * gmap gostring Z :=
  let assets := sort_by (λ a b, str_ltb (asset_string a) (asset_string b)) assets in
  let t := foldl (λ t a, insert_id t (asset_tuple_of a)) t assets in
  let '(searchStrings, assetToKey) := foldl (λ '(searchStrings, assetToKey) a,
      let tuple := asset_tuple_of a in
      if bool_decide (is_Some (assetToKey !! tuple)) then (searchStrings, assetToKey)
      else (searchStrings ++ [search_string tuple], <[ tuple := asset_string a ]> assetToKey))
    ([], ∅ : gmap asset_tuple gostring) assets in
  (t, foldl (λ assetMap subset,
        foldl (λ assetMap '(tuple, id), <[ default [] (assetToKey !! tuple) := id ]> assetMap) assetMap
          (map_to_list (filter (λ kv, search_string kv.1 ∈ subset) (ids t)))) ∅
      (in_batches (length searchStrings) (Z.to_nat 1000) searchStrings)).

(** *** synt_offer_id.go, trade_batch_insert_builder.go *)

Inductive OfferIDType := CoreOfferIDType | TOIDType.
Definition offer_id_type (typ : OfferIDType) : Z := match typ with CoreOfferIDType => 0 | TOIDType => 1 end.
Definition offer_mask : Z := 0xC000000000000000.
Definition EncodeOfferId (id : Z) (typ : OfferIDType) : outcome tx_error Z :=
  if negb (Z.land id offer_mask =? 0) then Panic
  else Ret (i64 (Z.lor id (u64 (Z.shiftl (offer_id_type typ) 62)))).
(** Of an [OfferIDType] that is not one of the two the number is kept. *)
Definition DecodeOfferID (encodedId : Z) : outcome tx_error (Z * Z) :=
  if encodedId <? 0 then Panic
  else Ret (Z.shiftr (u64 (i64 (Z.shiftl encodedId 2))) 2, u64 (Z.shiftr encodedId 62)).

Definition getCanonicalAssetOrder (assetId1 assetId2 : Z) : bool * Z * Z :=
  if assetId1 <? assetId2 then (true, assetId1, assetId2) else (false, assetId2, assetId1).

(** The arguments of [Add], without the ids at first. *)
Record InsertTrade := MkInsertTrade {
  it_HistoryOperationID : Z; it_Order : Z; it_LedgerCloseTime : Z; it_BuyOfferExists : bool; it_BuyOfferID : Z;
  it_SellerAccountID : Z; it_BuyerAccountID : Z; it_SoldAssetID : Z; it_BoughtAssetID : Z;
  it_Trade : ClaimOfferAtom; it_SellPrice : Price }.

Definition trade_row (entry : InsertTrade) : outcome tx_error TradeRow :=
  let trade := it_Trade entry in
  sellOfferID ← EncodeOfferId (u64 (Atom_OfferId trade)) CoreOfferIDType;
  buyOfferID ← (if it_BuyOfferExists entry then EncodeOfferId (u64 (it_BuyOfferID entry)) CoreOfferIDType
                else EncodeOfferId (u64 (it_HistoryOperationID entry)) TOIDType);
  let '(orderPreserved, baseAssetID, counterAssetID) :=
    getCanonicalAssetOrder (it_SoldAssetID entry) (it_BoughtAssetID entry) in
  Ret (if orderPreserved : bool then
         MkTradeRow (it_HistoryOperationID entry) (it_Order entry) (it_LedgerCloseTime entry) (Atom_OfferId trade)
           sellOfferID (it_SellerAccountID entry) baseAssetID (AmountSold trade)
           buyOfferID (it_BuyerAccountID entry) counterAssetID (AmountBought trade)
           orderPreserved (N (it_SellPrice entry)) (D (it_SellPrice entry))
       else
         let price := Invert (it_SellPrice entry) in
         MkTradeRow (it_HistoryOperationID entry) (it_Order entry) (it_LedgerCloseTime entry) (Atom_OfferId trade)
           buyOfferID (it_BuyerAccountID entry) baseAssetID (AmountBought trade)
           sellOfferID (it_SellerAccountID entry) counterAssetID (AmountSold trade)
           orderPreserved (N price) (D price)).

(** ** Generated ids *)

Section ids.
Context {K : Type} `{Countable K}.

(** No two keys have one id, and the sequence is above every id. *)
Definition ids_ok (t : IdTable K) : Prop :=
  map_Forall (λ _ i, i < next_id t) (ids t) ∧
  ∀ k k' i, ids t !! k = Some i → ids t !! k' = Some i → k = k'.

Lemma insert_id_grows t k :
  ids_ok t → ids_ok (insert_id t k) ∧ ids t ⊆ ids (insert_id t k) ∧ is_Some (ids (insert_id t k) !! k) ∧
  ∀ k', is_Some (ids (insert_id t k) !! k') → is_Some (ids t !! k') ∨ k' = k.
Proof.
  intros [Hb Hi]. unfold insert_id. case_bool_decide as Hk; cbn [ids next_id].
  - split_and!; [split; [|done]|done|done|by left]. intros k' i Hk'%Hb. simpl in *. lia.
  - apply eq_None_not_Some in Hk. split_and!.
    + split; cbn [ids next_id].
      * intros k' i. rewrite lookup_insert_Some. intros [[_ <-]|[_ Hk'%Hb]]; simpl in *; lia.
      * intros k1 k2 i. rewrite !lookup_insert_Some. intros [[<- <-]|[? H1]] [[<- H2]|[? H2]]; [done|..|by eapply Hi].
        -- apply Hb in H2. simpl in H2. lia.
        -- subst i. apply Hb in H1. simpl in H1. lia.
    + by apply insert_subseteq.
    + rewrite lookup_insert_eq. by eexists.
    + intros k' [i Hk']. apply lookup_insert_Some in Hk' as [[<- _]|[_ Hk']]; [by right|left; by exists i].
Qed.

Lemma insert_ids_grows {A} (f : A → K) l t (t' := foldl (λ t x, insert_id t (f x)) t l) :
  ids_ok t → ids_ok t' ∧ ids t ⊆ ids t' ∧ (∀ x, x ∈ l → is_Some (ids t' !! f x)) ∧
  ∀ k, is_Some (ids t' !! k) → is_Some (ids t !! k) ∨ k ∈ f <$> l.
Proof.
  subst t'. revert t. induction l as [|x l IH]; intros t Ht; cbn [foldl].
  - split_and!; [done..| |by left]. by intros ? ?%elem_of_nil.
  - destruct (insert_id_grows t (f x) Ht) as (Ht1 & Hsub & Hx & Hnew). destruct (IH _ Ht1) as (Ht2 & Hsub2 & Hin & Hnew2).
    split_and!; [done|by etrans| |].
    + intros y [->|Hy]%elem_of_cons; [|by apply Hin]. destruct Hx as [i Hx]. exists i. by eapply lookup_weaken.
    + intros k [Hk|Hk]%Hnew2; [|right; rewrite fmap_cons; by right].
      destruct (Hnew _ Hk) as [?| ->]; [by left|right; rewrite fmap_cons; by left].
Qed.

Lemma in_batches_concat {A} fuel n (l : list A) : (0 < n)%nat → (length l ≤ fuel)%nat → concat (in_batches fuel n l) = l.
Proof.
  intros Hn. revert l. induction fuel as [|fuel IH]; intros [|x l] Hl; simpl in *; try done; [lia|].
  destruct n as [|n]; [lia|]. simpl. f_equal. rewrite IH; [apply take_drop|]. rewrite length_drop. lia.
Qed.
End ids.

Lemma accounts_lookup (bs : list (list gostring)) (t : IdTable gostring) (m : gmap gostring Z) (a : gostring) :
  m ⊆ ids t →
  foldl (λ addressToID subset, AccountsByAddresses subset t ∪ addressToID) m bs !! a =
  if decide (a ∈ concat bs) then ids t !! a else m !! a.
Proof.
  revert m. induction bs as [|b bs IH]; intros m Hm; cbn [foldl concat]; [by rewrite decide_False by apply not_elem_of_nil|].
  assert (∀ k, (AccountsByAddresses b t ∪ m) !! k = if decide (k ∈ b) then ids t !! k else m !! k) as Hu.
  { intros k. rewrite lookup_union. unfold AccountsByAddresses. rewrite map_lookup_filter.
    destruct (ids t !! k) as [i|] eqn:E; simpl.
    - destruct (m !! k) as [j|] eqn:Ej; [|by destruct (decide (k ∈ b)); simplify_option_eq].
      pose proof (lookup_weaken _ _ _ _ Ej Hm). assert (j = i) as -> by congruence.
      destruct (decide (k ∈ b)); by simplify_option_eq.
    - assert (m !! k = None) as ->; [|by destruct (decide (k ∈ b))].
      destruct (m !! k) as [j|] eqn:Ej; [|done]. pose proof (lookup_weaken _ _ _ _ Ej Hm). congruence. }
  rewrite IH.
  - rewrite Hu. destruct (decide (a ∈ concat bs)) as [Hc|Hc], (decide (a ∈ b)) as [Hb|Hb].
    all: rewrite ?(decide_True (P := a ∈ _ ++ _)) by (apply elem_of_app; tauto); try done.
    by rewrite decide_False by (rewrite elem_of_app; tauto).
  - apply map_subseteq_spec. intros k i. rewrite Hu. destruct (decide (k ∈ b)); [done|]. intros Hk. by eapply lookup_weaken.
Qed.

(** [CreateAccounts] adds the addresses that are not in the table and returns the
    ids of all of them; the ids in the table do not change. *)
Lemma CreateAccounts_ids (addresses : list gostring) t :
  ids_ok t →
  ∃ t' m, CreateAccounts addresses t = (t', m) ∧ ids_ok t' ∧ ids t ⊆ ids t' ∧
    (∀ a, is_Some (ids t' !! a) → is_Some (ids t !! a) ∨ a ∈ addresses) ∧
    ∀ a, a ∈ addresses → ∃ i, ids t' !! a = Some i ∧ m !! a = Some i.
Proof.
  intros Ht. unfold CreateAccounts. set (l := sort_by str_ltb addresses).
  assert (∀ a, a ∈ l ↔ a ∈ addresses) as Hl by (intros a; unfold l; by rewrite (sort_by_perm str_ltb addresses)).
  destruct (insert_ids_grows id l t Ht) as (Ht' & Hsub & Hin & Hnew). rewrite list_fmap_id in Hnew.
  eexists _, _. split_and!; [reflexivity|done|done| |].
  - intros a [?|?%Hl]%Hnew; [by left|by right].
  - intros a Ha%Hl. destruct (Hin a Ha) as [i Hi]. exists i. split; [done|].
    rewrite accounts_lookup by apply map_empty_subseteq. rewrite in_batches_concat by lia.
    by rewrite decide_True.
Qed.

(** *** The ids of assets *)

Lemma foldl_foldl {A B C} (f : A → B → A) (g : C → list B) (l : list C) a :
  foldl (λ a c, foldl f a (g c)) a l = foldl f a (concat (g <$> l)).
Proof. revert a. induction l as [|c l IH]; intros a; simpl; [done|]. by rewrite IH, foldl_app. Qed.

Lemma foldl_insert_pair_lookup {K A V} `{Countable K} (h : A → K) (l : list (A * V)) (m : gmap K V) x v :
  (∀ p, p ∈ l → h p.1 = x → p.2 = v) → (∃ p, p ∈ l ∧ h p.1 = x) ∨ m !! x = Some v →
  foldl (λ m '(k, v), <[h k := v]> m) m l !! x = Some v.
Proof.
  revert m. induction l as [|[k w] l IH]; intros m Hv Hx; simpl.
  - destruct Hx as [(p & Hp%elem_of_nil & _)|Hx]; done.
  - apply IH; [intros p Hp; apply Hv; by right|]. destruct (decide (h k = x)) as [<-|Hk].
    + right. rewrite lookup_insert_eq. f_equal. by apply (Hv (k, w)); [left|].
    + rewrite lookup_insert_ne by done. destruct Hx as [(p & [->|Hp]%elem_of_cons & Hpx)|Hx]; [done|left; by exists p|by right].
Qed.

Lemma search_string_inj a b :
  wf_asset a → wf_asset b → search_string (asset_tuple_of a) = search_string (asset_tuple_of b) → a = b.
Proof.
  intros Ha Hb E. apply asset_string_inj; [done..|].
  destruct a as [|ca ia|ca ia], b as [|cb ib|cb ib]; try done; cbn [search_string asset_tuple_of] in E; exact E || discriminate E.
Qed.

(** The tuples in the table are those of assets. *)
Definition assets_ok (t : IdTable asset_tuple) : Prop :=
  ids_ok t ∧ ∀ k, is_Some (ids t !! k) → ∃ a, wf_asset a ∧ k = asset_tuple_of a.

Abbreviation asset_keys_step := (λ '(searchStrings, assetToKey) a,
  let tuple := asset_tuple_of a in
  if bool_decide (is_Some (assetToKey !! tuple)) then (searchStrings, assetToKey)
  else (searchStrings ++ [search_string tuple], <[ tuple := asset_string a ]> assetToKey)).

Lemma asset_keys (assets : list Asset) (searchStrings : list gostring) (assetToKey : gmap asset_tuple gostring) :
  Forall wf_asset assets → foldl asset_keys_step ([], ∅) assets = (searchStrings, assetToKey) →
  (∀ a, a ∈ assets → assetToKey !! asset_tuple_of a = Some (asset_string a) ∧ search_string (asset_tuple_of a) ∈ searchStrings) ∧
  (∀ s, s ∈ searchStrings → ∃ a, a ∈ assets ∧ s = search_string (asset_tuple_of a)) ∧
  ∀ k, is_Some (assetToKey !! k) → ∃ a, a ∈ assets ∧ k = asset_tuple_of a.
Proof.
  revert searchStrings assetToKey. induction assets as [|x l IH] using rev_ind; intros ss m Hw E.
  - injection E as <- <-. split_and!; [by intros ? ?%elem_of_nil..|]. intros k Hk. rewrite lookup_empty in Hk. by destruct Hk.
  - apply Forall_app in Hw as [Hw Hx]. rewrite Forall_singleton in Hx. rewrite foldl_app in E.
    destruct (foldl asset_keys_step ([], ∅) l) as [ss' m'] eqn:E'. destruct (IH ss' m' Hw eq_refl) as (Hin & Hss & Hk).
    cbn [foldl] in E. case_bool_decide as Hd; injection E as <- <-.
    + assert (x ∈ l) as Hxl.
      { destruct (Hk _ Hd) as (b & Hb & Heq). rewrite Forall_forall in Hw.
        rewrite (search_string_inj x b); [done|done|by apply Hw|by rewrite Heq]. }
      split_and!.
      * intros a [Ha| ->%list_elem_of_singleton]%elem_of_app; by apply Hin.
      * intros s (a & Ha & ->)%Hss. exists a. split; [apply elem_of_app; by left|done].
      * intros k (a & Ha & ->)%Hk. exists a. split; [apply elem_of_app; by left|done].
    + apply eq_None_not_Some in Hd. split_and!.
      * intros a [Ha| ->%list_elem_of_singleton]%elem_of_app.
        -- destruct (Hin a Ha) as [H1 H2]. split; [|apply elem_of_app; by left].
           rewrite lookup_insert_ne; [done|]. intros Heq. congruence.
        -- split; [apply lookup_insert_eq|]. apply elem_of_app. right. by apply list_elem_of_singleton.
      * intros s [(a & Ha & ->)%Hss| ->%list_elem_of_singleton]%elem_of_app; eexists; (split; [apply elem_of_app|reflexivity]).
        -- by left.
        -- right. by apply list_elem_of_singleton.
      * intros k. destruct (decide (k = asset_tuple_of x)) as [->|Hkx].
        -- intros _. exists x. split; [apply elem_of_app; right; by apply list_elem_of_singleton|done].
        -- rewrite lookup_insert_ne by done. intros (a & Ha & ->)%Hk. exists a. split; [apply elem_of_app; by left|done].
Qed.

(** [CreateAssets] adds the assets that are not in the table and returns the ids
    of all of them, by the text of the asset. *)
Lemma CreateAssets_ids (assets : list Asset) t :
  assets_ok t → Forall wf_asset assets →
  ∃ t' m, CreateAssets assets t = (t', m) ∧ assets_ok t' ∧ ids t ⊆ ids t' ∧
    ∀ a, a ∈ assets → ∃ i, ids t' !! asset_tuple_of a = Some i ∧ m !! asset_string a = Some i.
Proof.
  intros [Ht Hwt] Hw. unfold CreateAssets. set (l := sort_by _ assets).
  assert (∀ a, a ∈ l ↔ a ∈ assets) as Hl by (intros a; unfold l; by rewrite (sort_by_perm _ assets)).
  assert (Forall wf_asset l) as Hwl by (unfold l; by rewrite (sort_by_perm _ assets)).
  destruct (insert_ids_grows asset_tuple_of l t Ht) as (Ht' & Hsub & Hin & Hnew).
  set (t' := foldl _ t l) in *. destruct (foldl asset_keys_step ([], ∅) l) as [ss m] eqn:E.
  destruct (asset_keys l ss m Hwl E) as (Hm & Hss & _).
  assert (assets_ok t') as Hwt'.
  { split; [done|]. intros k [Hk|(a & -> & Ha)%list_elem_of_fmap]%Hnew; [by apply Hwt|].
    exists a. split; [|done]. rewrite Forall_forall in Hwl. by apply Hwl. }
  eexists _, _. split_and!; [reflexivity|done|done|].
  intros a Ha%Hl. destruct (Hin a Ha) as [i Hi]. exists i. split; [done|]. destruct (Hm a Ha) as [Hma Hsa].
  rewrite foldl_foldl. rewrite Forall_forall in Hwl.
  assert (∀ (k : asset_tuple) (j : Z) (subset : list gostring), (k, j) ∈ map_to_list (filter (λ kv, search_string kv.1 ∈ subset) (ids t')) ↔
    ids t' !! k = Some j ∧ search_string k ∈ subset) as Hel.
  { intros k j subset. by rewrite elem_of_map_to_list, map_lookup_filter_Some. }
  apply foldl_insert_pair_lookup.
  - intros [k j] Hp Hk. cbn [fst snd] in *. apply elem_of_concat in Hp as (x & (b & -> & Hb)%list_elem_of_fmap & [Hj Hs]%Hel).
    assert (search_string k ∈ ss) as (b' & Hb' & Hkb)%Hss.
    { rewrite <- (in_batches_concat (length ss) (Z.to_nat 1000) ss) by lia. apply elem_of_concat. by exists b. }
    destruct (proj2 Hwt' k) as (c & Hc & ->); [by exists j|].
    apply search_string_inj in Hkb as ->; [|done|by apply Hwl].
    destruct (Hm b' Hb') as [Hmb _]. rewrite Hmb in Hk. simpl in Hk. apply asset_string_inj in Hk as ->; [congruence|by apply Hwl..].
  - left. exists (asset_tuple_of a, i). split; [|cbn [fst]; by rewrite Hma].
    rewrite <- (in_batches_concat (length ss) (Z.to_nat 1000) ss) in Hsa by lia.
    apply elem_of_concat in Hsa as (b & Hb & Hsa). apply elem_of_concat. eexists. split; [by apply list_elem_of_fmap_2|by apply Hel].
Qed.

(** ** The ids of offers *)

Lemma EncodeOfferId_value id typ : 0 ≤ id < 2 ^ 62 → EncodeOfferId id typ = Ret (id + offer_id_type typ * 2 ^ 62).
Proof.
  intros Hid. unfold EncodeOfferId. change offer_mask with (3 * 2 ^ 62).
  assert (Z.land id (3 * 2 ^ 62) = 0) as ->.
  { apply Z.bits_inj'. intros n Hn. rewrite Z.land_spec, Z.bits_0. destruct (Z.lt_ge_cases n 62).
    - rewrite Z.mul_pow2_bits_low by lia. apply andb_false_r.
    - rewrite (Z.bits_above_log2 id n); [done|lia|].
      destruct (decide (id = 0)) as [->|]; [simpl; lia|]. apply Z.log2_lt_pow2; [lia|].
      apply Z.lt_le_trans with (2 ^ 62); [lia|]. apply Z.pow_le_mono_r; lia. }
  cbn [negb Z.eqb]. f_equal. assert (0 ≤ offer_id_type typ ≤ 1) by (destruct typ; simpl; lia).
  rewrite Z.shiftl_mul_pow2 by lia. unfold u64, i64, wrap_u. rewrite Z.mod_small by lia.
  rewrite Z.lor_comm, lor_shifted by lia. rewrite wrap_s_small; simpl Z.sub; lia.
Qed.

(** What was encoded is decoded. *)
Lemma EncodeOfferId_roundtrip id typ :
  0 ≤ id < 2 ^ 62 →
  ∃ encodedId, EncodeOfferId id typ = Ret encodedId ∧ 0 ≤ encodedId < 2 ^ 63 ∧
    DecodeOfferID encodedId = Ret (id, offer_id_type typ).
Proof.
  intros Hid. rewrite EncodeOfferId_value by done. eexists. split; [done|].
  assert (0 ≤ offer_id_type typ ≤ 1) by (destruct typ; simpl; lia). split; [lia|].
  unfold DecodeOfferID. rewrite (proj2 (Z.ltb_ge _ _)) by lia. do 2 f_equal.
  - rewrite Z.shiftl_mul_pow2, Z.shiftr_div_pow2 by lia. unfold u64, i64, wrap_u, wrap_s.
    rewrite Zminus_mod_idemp_l, Z.add_simpl_r.
    replace ((id + offer_id_type typ * 2 ^ 62) * 2 ^ 2) with (id * 2 ^ 2 + offer_id_type typ * 2 ^ 64) by lia.
    rewrite Z.mod_add by lia. rewrite Z.mod_small by lia. by rewrite Z.div_mul by lia.
  - rewrite Z.shiftr_div_pow2 by lia. rewrite Z.div_add by lia. rewrite Z.div_small by lia.
    unfold u64, wrap_u. rewrite Z.mod_small; lia.
Qed.

(** ** The row of a trade *)

(** The offer, the account, the asset and the amount of the two sides, and the
    price of what was sold. *)
Definition seller_side (r : TradeRow) : Z * Z * Z * Z :=
  if trr_BaseIsSeller r then (trr_BaseOfferID r, trr_BaseAccountID r, trr_BaseAssetID r, trr_BaseAmount r)
  else (trr_CounterOfferID r, trr_CounterAccountID r, trr_CounterAssetID r, trr_CounterAmount r).
Definition buyer_side (r : TradeRow) : Z * Z * Z * Z :=
  if trr_BaseIsSeller r then (trr_CounterOfferID r, trr_CounterAccountID r, trr_CounterAssetID r, trr_CounterAmount r)
  else (trr_BaseOfferID r, trr_BaseAccountID r, trr_BaseAssetID r, trr_BaseAmount r).
Definition seller_price (r : TradeRow) : Price :=
  let p := MkPrice (trr_PriceN r) (trr_PriceD r) in if trr_BaseIsSeller r then p else Invert p.

(** The ids of the offers, or of the operation, can be encoded. *)
Definition encodable (insert : InsertTrade) : Prop :=
  0 ≤ Atom_OfferId (it_Trade insert) < 2 ^ 62 ∧
  0 ≤ (if it_BuyOfferExists insert then it_BuyOfferID insert else it_HistoryOperationID insert) < 2 ^ 62.

Lemma trade_row_key insert r :
  trade_row insert = Ret r → trade_key r = (it_HistoryOperationID insert, it_Order insert).
Proof.
  unfold trade_row. destruct (EncodeOfferId (u64 (Atom_OfferId _)) CoreOfferIDType); outcome_simpl; [|done..].
  destruct (if it_BuyOfferExists insert then _ else _); cbn [outcome_bind]; [|done..].
  destruct (getCanonicalAssetOrder _ _) as [[[] ?] ?]; by intros [= <-].
Qed.

Lemma trade_row_total insert : encodable insert → ∃ r, trade_row insert = Ret r.
Proof.
  intros [Hs Hb]. unfold trade_row. rewrite (u64_small (Atom_OfferId _)) by (unfold is_u64; lia).
  rewrite (EncodeOfferId_value (Atom_OfferId _)) by done. outcome_simpl. unfold getCanonicalAssetOrder.
  destruct (it_BuyOfferExists insert); rewrite u64_small by (unfold is_u64; lia); rewrite EncodeOfferId_value by done;
    outcome_simpl; case_if; by eexists.
Qed.

(** the row of a trade has the trade: its base asset is the one of the two
    that was stored first, and whichever side that is, the seller's side has the
    seller, the asset and the amount that were sold, and an offer id that decodes
    to the offer that was taken; the buyer's side has what was bought, and the
    offer that the operation left or the operation itself; and the price is that
    of the offer that was taken. *)
Theorem trade_row_spec insert :
  encodable insert →
  ∃ r sell_id buy_id, trade_row insert = Ret r ∧ trade_key r = (it_HistoryOperationID insert, it_Order insert) ∧
    trr_OfferID r = Atom_OfferId (it_Trade insert) ∧ trr_LedgerClosedAt r = it_LedgerCloseTime insert ∧
    trr_BaseAssetID r ≤ trr_CounterAssetID r ∧
    seller_side r = (sell_id, it_SellerAccountID insert, it_SoldAssetID insert, AmountSold (it_Trade insert)) ∧
    buyer_side r = (buy_id, it_BuyerAccountID insert, it_BoughtAssetID insert, AmountBought (it_Trade insert)) ∧
    DecodeOfferID sell_id = Ret (Atom_OfferId (it_Trade insert), offer_id_type CoreOfferIDType) ∧
    DecodeOfferID buy_id = Ret (if it_BuyOfferExists insert then (it_BuyOfferID insert, offer_id_type CoreOfferIDType)
                                else (it_HistoryOperationID insert, offer_id_type TOIDType)) ∧
    seller_price r = it_SellPrice insert.
Proof.
  intros [Hs Hb]. destruct (EncodeOfferId_roundtrip _ CoreOfferIDType Hs) as (s & Es & _ & Ds).
  assert (∃ b, (if it_BuyOfferExists insert then EncodeOfferId (u64 (it_BuyOfferID insert)) CoreOfferIDType
                else EncodeOfferId (u64 (it_HistoryOperationID insert)) TOIDType) = Ret b ∧
    DecodeOfferID b = Ret (if it_BuyOfferExists insert then (it_BuyOfferID insert, offer_id_type CoreOfferIDType)
                           else (it_HistoryOperationID insert, offer_id_type TOIDType))) as (b & Eb & Db).
  { destruct (it_BuyOfferExists insert); rewrite u64_small by (unfold is_u64; lia).
    - destruct (EncodeOfferId_roundtrip _ CoreOfferIDType Hb) as (b & ? & _ & ?). by exists b.
    - destruct (EncodeOfferId_roundtrip _ TOIDType Hb) as (b & ? & _ & ?). by exists b. }
  unfold trade_row. rewrite (u64_small (Atom_OfferId _)) by (unfold is_u64; lia). rewrite Es. outcome_simpl. rewrite Eb.
  outcome_simpl. unfold getCanonicalAssetOrder.
  destruct (it_SoldAssetID insert <? it_BoughtAssetID insert) eqn:E; [apply Z.ltb_lt in E|apply Z.ltb_ge in E];
    eexists _, s, b; (split; [reflexivity|]); cbn [trr_BaseAssetID trr_CounterAssetID]; split_and!; try done; try lia;
    unfold seller_price; simpl; by destruct (it_SellPrice insert).
Qed.

(** ** The memo *)

Lemma concat_split sep (s : gostring) : concat (Prelude.split sep s) = filter (λ c, c ≠ sep) s.
Proof.
  induction s as [|c s IH]; [done|]. cbn [Prelude.split]. rewrite filter_cons. destruct (Z.eqb_spec c sep) as [->|Hc].
  - rewrite decide_False by (intros Hn; by apply Hn). exact IH.
  - rewrite decide_True by done. rewrite <- IH. by destruct (Prelude.split sep s).
Qed.

(** the text of a memo is stored as valid UTF-8 without a NUL byte, which is
    what the database takes; of a text that is valid the other bytes are kept as
    they are. *)
Theorem memo_text_spec transaction text :
  Envelope_Memo (Envelope transaction) = MemoText text → Forall is_u8 text →
  ∃ s, memo transaction = Some s ∧ utf8_string s ∧ (0 ∉ s) ∧ (utf8_string text → s = filter (λ c, c ≠ 0) text).
Proof.
  intros Hm Hu. destruct (Scrub_spec text Hu) as (Hs & Hid & _). unfold memo. rewrite Hm, concat_split.
  eexists. split_and!; [reflexivity|by apply utf8_string_filter_NUL| |by intros ->%Hid].
  intros [Hc _]%list_elem_of_filter. done.
Qed.

Theorem memo_text_spec_witness :
  ∃ s, memo (MkLedgerTransaction 1 (EnvelopeTypeTx (MkTransaction (KeyTypeEd25519 (Ed25519 (MkAccountId (replicate 32 1)))) 100 7 None
      (MemoText [104; 0; 255; 105]) []) []) (MkResultPair [] 0 (TxSuccess [])) [] (MetaV1 [] [])) = Some s ∧
    utf8_string s ∧ (0 ∉ s) ∧ (utf8_string [104; 0; 255; 105] → s = filter (λ c, c ≠ 0) [104; 0; 255; 105]).
Proof. apply memo_text_spec; [done|]. repeat constructor; unfold is_u8; lia. Defined.

(** A trade whose bought asset has the smaller id: the sides are swapped. *)
Definition Example_trade : InsertTrade :=
  MkInsertTrade 4294971393 0 1600000000000 false 0 11 12 8 5
    (MkClaimOfferAtom (MkAccountId (replicate 32 1)) 77 AssetTypeNative 250 (AssetTypeCreditAlphanum4 (str "USD" ++ [0]) (MkAccountId (replicate 32 2))) 100)
    (MkPrice 2 5).

Theorem trade_row_spec_witness :
  ∃ r sell_id buy_id, trade_row Example_trade = Ret r ∧ trade_key r = (4294971393, 0) ∧
    trr_OfferID r = 77 ∧ trr_LedgerClosedAt r = 1600000000000 ∧ trr_BaseAssetID r ≤ trr_CounterAssetID r ∧
    seller_side r = (sell_id, 11, 8, 250) ∧ buyer_side r = (buy_id, 12, 5, 100) ∧
    DecodeOfferID sell_id = Ret (77, 0) ∧ DecodeOfferID buy_id = Ret (4294971393, 1) ∧ seller_price r = MkPrice 2 5.
Proof. apply (trade_row_spec Example_trade). split; simpl; lia. Defined.
