(* ===== verification/Heap.v ===== *)
(** * container/heap of the Go standard library

    [heap.Push] and [heap.Pop] on a slice of elements that are ordered by a
    number: [up] moves the last element towards the root, [down] moves the
    element at the root towards the leaves.  [parent i] is the index above [i];
    a heap has no element smaller than the one above it. *)

From S2P Require Import Prelude.

Section heap.
Context {A : Type} (key : A → Z).
Implicit Types (l : list A) (x y : A) (i j n : nat).

Definition less l i j : bool :=
  match l !! i, l !! j with Some x, Some y => key x <? key y | _, _ => false end.
Definition swap l i j : list A :=
  match l !! i, l !! j with Some x, Some y => <[ j := x ]> (<[ i := y ]> l) | _, _ => l end.
Definition parent (i : nat) : nat := ((i - 1) / 2)%nat.

(** The index goes down, so that the index itself is enough fuel. *)
Fixpoint up (fuel : nat) l j : list A :=
  match fuel with
  | O => l
  | S fuel => let i := parent j in if (i =? j)%nat || negb (less l j i) then l else up fuel (swap l i j) i
  end.
(** The index goes up to [n]. *)
Fixpoint down (fuel : nat) l i n : list A :=
  match fuel with
  | O => l
  | S fuel =>
      let j1 := (2 * i + 1)%nat in
      if (n <=? j1)%nat then l
      else
        let j := if (j1 + 1 <? n)%nat && less l (j1 + 1) j1 then (j1 + 1)%nat else j1 in
        if negb (less l j i) then l else down fuel (swap l i j) j n
  end.
Definition push l x : list A := let l := l ++ [x] in up (length l) l (length l - 1).
(** The smallest element and the others; a slice without elements panics. *)
Definition pop l : option (A * list A) :=
  let n := (length l - 1)%nat in
  let l := down n (swap l 0 n) 0 n in
  match l !! n with Some x => Some (x, take n l) | None => None end.

(** ** Swapping *)

Lemma swap_length l i j : length (swap l i j) = length l.
Proof. unfold swap. destruct (l !! i), (l !! j); try done. by rewrite !length_insert. Qed.

Lemma insert_swap_perm l i x y : l !! i = Some x → x :: <[ i := y ]> l ≡ₚ y :: l.
Proof.
  intros Hi. pose proof (lookup_lt_Some _ _ _ Hi) as Hl. rewrite (insert_take_drop _ _ _ Hl).
  rewrite <- (take_drop_middle _ _ _ Hi) at 3. rewrite <- !Permutation_middle. constructor.
Qed.

Lemma swap_perm l i j : swap l i j ≡ₚ l.
Proof.
  unfold swap. destruct (l !! i) as [x|] eqn:Hi; [|done]. destruct (l !! j) as [y|] eqn:Hj; [|done].
  destruct (decide (i = j)) as [->|Hn].
  { rewrite Hi in Hj. injection Hj as ->. by rewrite !list_insert_id by (rewrite ?list_insert_id by done; done). }
  apply (Permutation_cons_inv (a := y)). rewrite (insert_swap_perm _ j y x) by (by rewrite list_lookup_insert_ne).
  apply (insert_swap_perm _ i x y Hi).
Qed.

Lemma swap_lookup l i j k x y :
  l !! i = Some x → l !! j = Some y →
  swap l i j !! k = if decide (k = j) then Some x else if decide (k = i) then Some y else l !! k.
Proof.
  intros Hi Hj. unfold swap. rewrite Hi, Hj. apply lookup_lt_Some in Hi as ?. apply lookup_lt_Some in Hj as ?.
  destruct (decide (k = j)) as [->|]; [by rewrite list_lookup_insert_eq by (by rewrite length_insert)|].
  rewrite list_lookup_insert_ne by done. destruct (decide (k = i)) as [->|]; [by rewrite list_lookup_insert_eq|].
  by rewrite list_lookup_insert_ne by done.
Qed.

(** ** Order *)

(** The element at [p] is not above the one at [c]. *)
Definition ordered l (p c : nat) : Prop := ∀ x y, l !! p = Some x → l !! c = Some y → key x ≤ key y.
Definition is_heap l : Prop := ∀ c, ordered l (parent c) c.

Lemma less_spec l i j x y : l !! i = Some x → l !! j = Some y → less l i j = (key x <? key y).
Proof. intros Hi Hj. unfold less. by rewrite Hi, Hj. Qed.

Lemma parent_lt i : (0 < i → parent i < i)%nat.
Proof. unfold parent. intros ?. apply Nat.Div0.div_lt_upper_bound. lia. Qed.
Lemma parent_child i c : parent c = i → (c = 0 ∧ i = 0 ∨ c = 2 * i + 1 ∨ c = 2 * i + 2)%nat.
Proof.
  unfold parent. intros <-. pose proof (Nat.div_mod_eq (c - 1) 2). pose proof (Nat.mod_upper_bound (c - 1) 2). lia.
Qed.
Lemma parent_left i : parent (2 * i + 1) = i.
Proof. unfold parent. replace (2 * i + 1 - 1)%nat with (i * 2)%nat by lia. by apply Nat.div_mul. Qed.
Lemma parent_right i : parent (2 * i + 2) = i.
Proof.
  unfold parent. replace (2 * i + 2 - 1)%nat with (1 + i * 2)%nat by lia. rewrite Nat.div_add by done. done.
Qed.

Lemma nil_heap : is_heap [].
Proof. intros c x y Hx. by rewrite lookup_nil in Hx. Qed.

(** The root is the smallest. *)
Lemma heap_root l x y i : is_heap l → l !! 0%nat = Some x → l !! i = Some y → key x ≤ key y.
Proof.
  intros Hh H0. revert y. induction (lt_wf i) as [i _ IH]. intros y Hi. destruct (decide (i = 0)%nat) as [->|Hn]; [naive_solver lia|].
  pose proof (parent_lt i ltac:(lia)) as Hp. destruct (lookup_lt_is_Some_2 l (parent i)) as [z Hz].
  { apply lookup_lt_Some in Hi. lia. }
  etrans; [by apply (IH (parent i))|by apply (Hh i)].
Qed.

(** [up]: every pair is in order but the one of [j] and its parent, and what is
    below [j] is in order with that parent. *)
Definition up_inv l j : Prop :=
  (∀ c, c ≠ j → ordered l (parent c) c) ∧ (∀ c, parent c = j → c ≠ j → ordered l (parent j) c).

Lemma up_heap fuel l j : (j < length l)%nat → (j ≤ fuel)%nat → up_inv l j → is_heap (up fuel l j).
Proof.
  revert l j. induction fuel as [|fuel IH]; intros l j Hj Hf [Ho Hc].
  { replace j with 0%nat in * by lia. intros c. destruct (decide (c = 0)%nat) as [->|]; [intros x y; cbn; naive_solver lia|by apply Ho]. }
  cbn [up]. destruct (Nat.eqb_spec (parent j) j) as [E|E]; cbn [orb].
  { intros c. destruct (decide (c = j)) as [->|]; [rewrite E; intros x y; naive_solver lia|by apply Ho]. }
  assert (0 < j)%nat as Hj0 by (destruct j; [by cbn in E|lia]). pose proof (parent_lt j Hj0) as Hp.
  destruct (lookup_lt_is_Some_2 l j Hj) as [y Hy]. destruct (lookup_lt_is_Some_2 l (parent j)) as [x Hx]; [lia|].
  rewrite (less_spec _ _ _ y x) by done. destruct (Z.ltb_spec (key y) (key x)) as [Hlt|Hle]; cbn [negb].
  - apply IH; [rewrite swap_length; lia|lia|]. split.
    + intros c Hcp u v. rewrite !(swap_lookup _ _ _ _ x y) by done.
      destruct (decide (c = j)) as [->|Hcj].
      { rewrite decide_False, decide_True by lia. intros [= <-] [= <-]. lia. }
      rewrite (decide_False (P := c = parent j)) by done. destruct (decide (parent c = j)) as [Epj|].
      { intros [= <-] Hv. by apply (Hc c Epj Hcj). }
      destruct (decide (parent c = parent j)) as [Epp|]; [|by apply Ho].
      intros [= <-] Hv. etrans; [apply Z.lt_le_incl, Hlt|]. eapply (Ho c Hcj); [by rewrite Epp|done].
    + intros c Epc Hcp u v. rewrite !(swap_lookup _ _ _ _ x y) by done.
      destruct (decide (parent j = 0)%nat) as [E0|E0].
      { assert (parent (parent j) = parent j) as -> by (by rewrite E0).
        rewrite (decide_False (P := parent j = j)), decide_True by lia. intros [= <-].
        destruct (decide (c = j)) as [->|Hcj]; [intros [= <-]; lia|]. rewrite decide_False by done.
        intros Hv. etrans; [apply Z.lt_le_incl, Hlt|]. eapply (Ho c Hcj); [by rewrite Epc|done]. }
      pose proof (parent_lt (parent j) ltac:(lia)) as Hpp.
      rewrite (decide_False (P := parent (parent j) = j)), (decide_False (P := parent (parent j) = parent j)) by lia.
      intros Hu. assert (key u ≤ key x) as Hux by (by apply (Ho (parent j))).
      destruct (decide (c = j)) as [->|Hcj]; [by intros [= <-]|]. rewrite decide_False by done. intros Hv.
      etrans; [exact Hux|]. eapply (Ho c Hcj); [by rewrite Epc|done].
  - intros c. destruct (decide (c = j)) as [->|]; [|by apply Ho]. intros u v Hu Hv. congruence || (simplify_eq; lia).
Qed.

Lemma up_perm fuel l j : up fuel l j ≡ₚ l.
Proof.
  revert l j. induction fuel as [|fuel IH]; intros l j; cbn [up]; [done|].
  destruct (_ || _); [done|]. by rewrite IH, swap_perm.
Qed.

Lemma push_perm l x : push l x ≡ₚ x :: l.
Proof. unfold push. rewrite up_perm. symmetry. apply Permutation_cons_append. Qed.

Lemma push_heap l x : is_heap l → is_heap (push l x).
Proof.
  intros Hh. unfold push. rewrite length_app. cbn [length]. replace (length l + 1 - 1)%nat with (length l) by lia.
  apply up_heap; [rewrite length_app; cbn; lia|lia|]. split.
  - intros c Hc u v. destruct (decide (c < length l)%nat) as [Hl|Hl].
    + assert (parent c < length l)%nat by (unfold parent; pose proof (Nat.Div0.div_le_upper_bound (c - 1) 2 c); lia).
      rewrite !lookup_app_l by done. apply Hh.
    + intros _ Hv. apply lookup_lt_Some in Hv. rewrite length_app in Hv. cbn in Hv. lia.
  - intros c Hp Hc u v _ Hv. apply lookup_lt_Some in Hv. rewrite length_app in Hv. cbn in Hv.
    destruct (parent_child _ _ Hp) as [[-> ?]|?]; lia.
Qed.

(** [down]: below [n], every pair is in order but those of [i] and what is below
    it, which is in order with the parent of [i]. *)
Definition heap_below n l : Prop := ∀ c, (c < n)%nat → ordered l (parent c) c.
Definition down_inv l i n : Prop :=
  (∀ c, (c < n)%nat → parent c ≠ i → ordered l (parent c) c) ∧
  (i ≠ 0%nat → ∀ c, (c < n)%nat → parent c = i → ordered l (parent i) c).

Lemma down_inv_leaf l i n : (n ≤ 2 * i + 1)%nat → down_inv l i n → heap_below n l.
Proof.
  intros Hn [Ho _] c Hc. destruct (decide (parent c = i)) as [E|]; [|by apply Ho].
  destruct (parent_child _ _ E) as [[-> ->]|?]; [intros x y; cbn; naive_solver lia|lia].
Qed.

(** The step to the smaller child [j], which is below [i]. *)
Lemma down_inv_swap l i j n x y :
  parent j = i → (i < j)%nat → l !! i = Some x → l !! j = Some y → key y < key x →
  (∀ c z, (c < n)%nat → parent c = i → c ≠ i → l !! c = Some z → key y ≤ key z) →
  (j < n)%nat → down_inv l i n → down_inv (swap l i j) j n.
Proof.
  intros Hp Hij Hi Hj Hlt Hmin Hjn [Ho Hc]. split.
  - intros c Hcn Hcp u v. rewrite !(swap_lookup _ _ _ _ x y) by done. rewrite (decide_False (P := parent c = j)) by done.
    destruct (decide (parent c = i)) as [Epi|Epi].
    + intros [= <-]. destruct (decide (c = j)) as [->|Hcj]; [intros [= <-]; lia|].
      destruct (decide (c = i)) as [->|Hci]; [intros [= <-]; lia|]. intros Hv. by apply (Hmin c).
    + destruct (decide (c = j)) as [->|Hcj]; [done|]. destruct (decide (c = i)) as [->|Hci]; [|intros Hu Hv; by apply (Ho c)].
      intros Hu [= <-]. assert (i ≠ 0%nat) by (intros ->; by apply Epi). by apply (Hc ltac:(done) j).
  - intros _ c Hcn Hpc u v. rewrite !(swap_lookup _ _ _ _ x y) by done. rewrite Hp, (decide_False (P := i = j)), decide_True by lia.
    intros [= <-]. destruct (parent_child _ _ Hpc) as [[? ?]|?]; [lia|]. rewrite !decide_False by lia. intros Hv.
    apply (Ho c Hcn ltac:(lia)); [by rewrite Hpc|done].
Qed.

Lemma down_heap fuel l i n :
  (n ≤ length l)%nat → (n ≤ fuel + i)%nat → down_inv l i n → heap_below n (down fuel l i n).
Proof.
  revert l i. induction fuel as [|fuel IH]; intros l i Hn Hf Hinv; cbn [down]; [apply (down_inv_leaf _ i); [lia|done]|].
  destruct (Nat.leb_spec n (2 * i + 1)) as [Hle|Hgt]; [by apply (down_inv_leaf _ i)|].
  set (j := if _ && _ then _ else _).
  assert ((i < j < n)%nat ∧ parent j = i) as [Hjn Hpj].
  { unfold j. destruct (Nat.ltb_spec (2 * i + 1 + 1) n); cbn [andb]; [destruct (less _ _ _)|]; split; try lia;
      [replace (2 * i + 1 + 1)%nat with (2 * i + 2)%nat by lia; apply parent_right|apply parent_left..]. }
  destruct (lookup_lt_is_Some_2 l i) as [x Hx]; [lia|]. destruct (lookup_lt_is_Some_2 l j) as [y Hy]; [lia|].
  assert (∀ c z, (c < n)%nat → parent c = i → c ≠ i → l !! c = Some z → key y ≤ key z) as Hmin.
  { intros c z Hc Hpc Hci Hz. destruct (lookup_lt_is_Some_2 l (2 * i + 1)) as [a Ha]; [lia|].
    assert (key y ≤ key a ∧ ∀ b, (2 * i + 2 < n)%nat → l !! (2 * i + 2)%nat = Some b → key y ≤ key b) as [Hya Hyb].
    { revert Hy. unfold j. replace (2 * i + 1 + 1)%nat with (2 * i + 2)%nat by lia. destruct (Nat.ltb_spec (2 * i + 2) n) as [Hb|Hb]; cbn [andb].
      - destruct (lookup_lt_is_Some_2 l (2 * i + 2)) as [b Hlb]; [lia|]. rewrite (less_spec _ _ _ b a) by done.
        destruct (Z.ltb_spec (key b) (key a)); intros Hy; simplify_eq; split; naive_solver lia.
      - intros Hy. simplify_eq. split; [lia|]. intros ? ?. lia. }
    destruct (parent_child _ _ Hpc) as [[? ?]|[->| ->]]; [lia|by simplify_eq|by apply Hyb]. }
  rewrite (less_spec _ _ _ y x) by done. destruct (Z.ltb_spec (key y) (key x)) as [Hlt|Hle]; cbn [negb].
  - apply IH; [rewrite swap_length; lia|lia|]. apply (down_inv_swap l i j n x y); (exact Hmin || tauto).
  - intros c Hc. destruct (decide (parent c = i)) as [E|]; [|by apply Hinv]. intros u v Hu Hv. rewrite E, Hx in Hu. injection Hu as <-.
    destruct (decide (c = i)) as [->|Hci]; [simplify_eq; lia|]. etrans; [exact Hle|by apply (Hmin c)].
Qed.

Lemma down_perm fuel l i n : down fuel l i n ≡ₚ l.
Proof.
  revert l i. induction fuel as [|fuel IH]; intros l i; cbn [down]; [done|]. destruct (_ <=? _)%nat; [done|].
  destruct (negb _); [done|]. by rewrite IH, swap_perm.
Qed.

Lemma down_above fuel l i n k : (i < n)%nat → (n ≤ k)%nat → down fuel l i n !! k = l !! k.
Proof.
  revert l i. induction fuel as [|fuel IH]; intros l i Hi Hk; cbn [down]; [done|].
  destruct (Nat.leb_spec n (2 * i + 1)); [done|]. set (j := if _ && _ then _ else _).
  assert (j < n)%nat as Hj by (unfold j; destruct (Nat.ltb_spec (2 * i + 1 + 1) n); cbn [andb]; [destruct (less _ _ _)|]; lia).
  destruct (negb _); [done|]. rewrite IH by done. destruct (l !! i) as [x|] eqn:Hx; [|unfold swap; by rewrite Hx].
  destruct (l !! j) as [y|] eqn:Hy; [|unfold swap; by rewrite Hx, Hy]. rewrite (swap_lookup _ _ _ _ x y) by done.
  by rewrite !decide_False by lia.
Qed.

(** What is popped is a smallest element, and the others are a heap again. *)
Lemma pop_spec l : l ≠ [] → is_heap l →
  ∃ x rest, pop l = Some (x, rest) ∧ l ≡ₚ x :: rest ∧ is_heap rest ∧ l !! 0%nat = Some x ∧ Forall (λ y, key x ≤ key y) l.
Proof.
  intros Hne Hh. set (n := (length l - 1)%nat). assert (length l = S n) as Hlen by (destruct l; [done|]; unfold n; cbn; lia).
  destruct (lookup_lt_is_Some_2 l 0) as [x Hx]; [lia|]. destruct (lookup_lt_is_Some_2 l n) as [z Hz]; [lia|].
  set (l' := down n (swap l 0 n) 0 n).
  assert (l' !! n = Some x) as Hn.
  { unfold l'. destruct (decide (n = 0)%nat) as [E|E].
    - rewrite E in *. cbn [down]. rewrite (swap_lookup _ _ _ _ x z) by done. by rewrite decide_True by done.
    - rewrite down_above by lia. rewrite (swap_lookup _ _ _ _ x z) by done. by rewrite decide_True by done. }
  assert (l' ≡ₚ l) as Hperm by (unfold l'; by rewrite down_perm, swap_perm).
  assert (length l' = S n) as Hlen' by (by rewrite Hperm).
  assert (heap_below n l') as Hb.
  { apply down_heap; [rewrite swap_length; lia|lia|]. split; [|done].
    intros c Hc Hp u v. rewrite !(swap_lookup _ _ _ _ x z) by done. pose proof (parent_lt c) as Hpc.
    assert (c ≠ 0)%nat by (intros ->; by apply Hp). rewrite !decide_False by lia. apply Hh. }
  assert (l' = take n l' ++ [x]) as Hl'.
  { rewrite <- (take_drop n l') at 1. f_equal. rewrite (drop_S _ x) by done. f_equal. apply drop_ge. lia. }
  exists x, (take n l'). unfold pop. fold n. fold l'. rewrite Hn. split; [done|]. split.
  { rewrite <- Hperm, Hl' at 1. symmetry. apply Permutation_cons_append. }
  split; [|split; [done|]].
  - intros c u v. rewrite !lookup_take_Some. intros [Hu _] [Hv Hc]. by apply (Hb c).
  - apply Forall_forall. intros y [k Hk]%list_elem_of_lookup_1. by apply (heap_root l x y k).
Qed.
End heap.
