(* ===== verification/SequenceQueue.v ===== *)
(** * aurora: the queues of submissions

    Models [queue.go] and [manager.go] of
    [src/services/aurora/internal/txsub/sequence]: submissions wait, for each
    account, until the sequence number before theirs is reached.  A channel is a
    number; it is made with room for one message, and what a call sends on
    channels is in its result, in the order of the sends.  Times are in
    nanoseconds, and a call reads the clock once. *)

From S2P Require Import Prelude Heap.

Inductive sequence_error := ErrNoMoreRoom | ErrBadSequence.
#[export] Instance sequence_error_eq_dec : EqDecision sequence_error.
Proof. solve_decision. Defined.

(** A channel and the error sent on it, [None] for [nil]. *)
Abbreviation sends := (list (nat * option sequence_error)).

(** ** queue.go *)

Record item := MkItem { it_Sequence : Z; it_Chan : nat }.
Record Queue := MkQueue { lastActiveAt : Z; timeout : Z; nextSequence : Z; queue : list item }.
Definition queue_timeout : Z := 10 * 10 ^ 9.
Definition NewQueue (now : Z) : Queue := MkQueue now queue_timeout 0 [].
Definition Size (q : Queue) : nat := length (queue q).
Definition Queue_Push (q : Queue) (sequence : Z) (ch : nat) : Queue :=
  MkQueue (lastActiveAt q) (timeout q) (nextSequence q) (push it_Sequence (queue q) (MkItem sequence ch)).

(** The loop that removes what is due; popping never fails here, since the queue
    has a head. *)
Fixpoint release (fuel : nat) (next : Z) (items : list item) : list item * sends :=
  match fuel, items with
  | S fuel, MkItem hseq ch :: _ =>
      if next <? hseq then (items, []) else
      match pop it_Sequence items with
      | None => (items, [])
      | Some (_, rest) =>
          let '(kept, sent) := release fuel next rest in
          (kept, (ch, if hseq <? next then Some ErrBadSequence else None) :: sent)
      end
  | _, _ => (items, [])
  end.
(** The loop that clears the queue *)
Fixpoint clear (fuel : nat) (items : list item) : list item * sends :=
  match fuel with
  | O => (items, [])
  | S fuel =>
      match pop it_Sequence items with
      | None => (items, [])
      | Some (it, rest) => let '(kept, sent) := clear fuel rest in (kept, (it_Chan it, Some ErrBadSequence) :: sent)
      end
  end.
Definition next_after (next sequence : Z) : Z := if next <=? sequence then u64 (sequence + 1) else next.
Definition Queue_Update (now : Z) (q : Queue) (sequence : Z) : Queue * sends :=
  let next := next_after (nextSequence q) sequence in
  let '(items, sent) := release (Size q) next (queue q) in
  match sent with
  | _ :: _ => (MkQueue now (timeout q) next items, sent)
  | [] =>
      if timeout q <? now - lastActiveAt q then
        let '(items, sent) := clear (length items) items in (MkQueue (lastActiveAt q) (timeout q) next items, sent)
      else (MkQueue (lastActiveAt q) (timeout q) next items, [])
  end.

(** ** manager.go *)

Record Manager := MkManager { MaxSize : Z; queues : gmap gostring Queue }.
Definition NewManager : Manager := MkManager 1024 ∅.
Definition size (m : Manager) : Z := Z.of_nat (sum_list (Size <$> (map_to_list (queues m)).*2)).
Definition Addresses (m : Manager) : list gostring := (map_to_list (queues m)).*1.
Definition Push (now : Z) (m : Manager) (address : gostring) (sequence : Z) (ch : nat) : Manager * sends :=
  if MaxSize m <=? size m then (m, [(ch, Some ErrNoMoreRoom)]) else
  let aq := default (NewQueue now) (queues m !! address) in
  (MkManager (MaxSize m) (<[ address := Queue_Push aq sequence ch ]> (queues m)), []).
Definition update_queue (now : Z) (m : Manager) (address : gostring) (seq : Z) : Manager * sends :=
  match queues m !! address with
  | None => (m, [])
  | Some q =>
      let '(q, sent) := Queue_Update now q seq in
      (MkManager (MaxSize m) (if (Size q =? 0)%nat then delete address (queues m) else <[ address := q ]> (queues m)), sent)
  end.
(** The queues of the addresses are apart, so that the order in which Go ranges
    over [updates] is only that of the sends. *)
Definition Update (now : Z) (m : Manager) (updates : gmap gostring Z) : Manager * sends :=
  foldl (λ (st : Manager * sends) (u : gostring * Z), let '(m, sent) := update_queue now st.1 u.1 u.2 in (m, st.2 ++ sent))
    (m, []) (map_to_list updates).

(** ** What an update of a queue does *)

Lemma release_spec next items :
  is_heap it_Sequence items →
  ∃ due rest, release (length items) next items =
      (rest, (λ it, (it_Chan it, if it_Sequence it <? next then Some ErrBadSequence else None)) <$> due) ∧
    items ≡ₚ due ++ rest ∧ is_heap it_Sequence rest ∧ StronglySorted (λ a b, it_Sequence a ≤ it_Sequence b) due ∧
    Forall (λ it, it_Sequence it ≤ next) due ∧ Forall (λ it, next < it_Sequence it) rest.
Proof.
  remember (length items) as n eqn:Hn. revert items Hn. induction n as [|n IH]; intros items Hn Hh.
  { destruct items; [|done]. exists [], []. split_and!; [done|done|done|constructor..]. }
  destruct items as [|[hseq ch] tl] eqn:Hi; [done|]. rewrite <- Hi in *.
  destruct (pop_spec it_Sequence items ltac:(by rewrite Hi) Hh) as (x & rest & Hpop & Hp & Hr & H0 & Hmin).
  assert (x = MkItem hseq ch) as -> by (rewrite Hi in H0; by injection H0).
  assert (n = length rest) as Hlen by (rewrite Hp in Hn; cbn in Hn; lia).
  destruct (Z.ltb_spec next hseq) as [Hlt|Hle].
  { exists [], items. split; [rewrite Hi; cbn [release]; by destruct (Z.ltb_spec next hseq); [|lia]|].
    split; [done|]. split; [done|]. split; [constructor|]. split; [constructor|].
    eapply Forall_impl; [exact Hmin|]. cbn. lia. }
  destruct (IH rest Hlen Hr) as (due & kept & Hrel & Hp' & Hl & Hs & Hd & Hf).
  exists (MkItem hseq ch :: due), kept. split.
  { rewrite Hi. cbn [release]. destruct (Z.ltb_spec next hseq); [lia|]. rewrite <- Hi, Hpop, Hrel. done. }
  split; [by rewrite Hp, Hp'|]. split; [done|]. split; [|split; [constructor; [done|done]|done]].
  constructor; [done|]. rewrite Hp, Hp', Forall_cons, Forall_app in Hmin. by destruct Hmin as (_ & ? & _).
Qed.

Lemma clear_spec items :
  is_heap it_Sequence items →
  ∃ all, clear (length items) items = ([], (λ it, (it_Chan it, Some ErrBadSequence)) <$> all) ∧ items ≡ₚ all.
Proof.
  remember (length items) as n eqn:Hn. revert items Hn. induction n as [|n IH]; intros items Hn Hh.
  { destruct items; [|done]. by exists []. }
  destruct (pop_spec it_Sequence items ltac:(by destruct items) Hh) as (x & rest & Hpop & Hp & Hr & _).
  destruct (IH rest) as (all & Hc & Ha); [rewrite Hp in Hn; cbn in Hn; lia|done|].
  exists (x :: all). cbn [clear]. rewrite Hpop, Hc. by rewrite Hp, Ha.
Qed.

(** What is sent to a submission that is due, and to one that waited too long. *)
Definition verdict (next : Z) (it : item) : nat * option sequence_error :=
  (it_Chan it, if it_Sequence it <? next then Some ErrBadSequence else None).
Definition refusal (it : item) : nat * option sequence_error := (it_Chan it, Some ErrBadSequence).

Lemma Queue_Update_cases now q seq q' sent :
  is_heap it_Sequence (queue q) → Queue_Update now q seq = (q', sent) →
  let next := next_after (nextSequence q) seq in
  is_heap it_Sequence (queue q') ∧ nextSequence q' = next ∧ timeout q' = timeout q ∧
  ∃ due rest, queue q ≡ₚ due ++ rest ∧ Forall (λ it, it_Sequence it ≤ next) due ∧ Forall (λ it, next < it_Sequence it) rest ∧
    StronglySorted (λ a b, it_Sequence a ≤ it_Sequence b) due ∧
    (due ≠ [] ∧ queue q' = rest ∧ lastActiveAt q' = now ∧ sent = verdict next <$> due ∨
     due = [] ∧ lastActiveAt q' = lastActiveAt q ∧
       (if timeout q <? now - lastActiveAt q then queue q' = [] ∧ ∃ all, rest ≡ₚ all ∧ sent = refusal <$> all
        else queue q' = rest ∧ sent = [])).
Proof.
  intros Hh. unfold Queue_Update, Size. cbv zeta. set (next := next_after _ _).
  destruct (release_spec next (queue q) Hh) as (due & rest & -> & Hp & Hr & Hs & Hd & Hf).
  destruct due as [|it due]; cbn [fmap list_fmap].
  - destruct (timeout q <? now - lastActiveAt q) eqn:Ht.
    + destruct (clear_spec rest Hr) as (all & -> & Ha). intros [= <- <-]. cbn [queue nextSequence timeout lastActiveAt].
      split; [apply nil_heap|]. split; [done|]. split; [done|]. exists [], rest.
      do 4 (split; [done|]). right. split; [done|]. split; [done|]. split; [done|]. by exists all.
    + intros [= <- <-]. cbn [queue nextSequence timeout lastActiveAt]. split; [done|]. split; [done|]. split; [done|].
      exists [], rest. do 4 (split; [done|]). by right.
  - intros [= <- <-]. cbn [queue nextSequence timeout lastActiveAt]. split; [done|]. split; [done|]. split; [done|].
    exists (it :: due), rest. do 4 (split; [done|]). by left.
Qed.

(** C25: an update of a queue lets exactly the submission of the next number pass
    and refuses those of a number before it, the lowest first; the others wait,
    unless nothing was due for longer than the timeout, when all are refused.  The
    next number never goes back. *)
Theorem Queue_Update_spec now q seq q' sent :
  is_heap it_Sequence (queue q) → 0 ≤ seq < MaxUint64 → Queue_Update now q seq = (q', sent) →
  let next := Z.max (nextSequence q) (seq + 1) in
  is_heap it_Sequence (queue q') ∧ nextSequence q' = next ∧
  ∃ due rest, queue q ≡ₚ due ++ rest ∧ Forall (λ it, it_Sequence it ≤ next) due ∧ Forall (λ it, next < it_Sequence it) rest ∧
    StronglySorted (λ a b, it_Sequence a ≤ it_Sequence b) due ∧
    (due ≠ [] ∧ queue q' = rest ∧ sent = verdict next <$> due ∨
     due = [] ∧ if timeout q <? now - lastActiveAt q then queue q' = [] ∧ ∃ all, rest ≡ₚ all ∧ sent = refusal <$> all
                else queue q' = rest ∧ sent = []).
Proof.
  intros Hh Hseq Hu. destruct (Queue_Update_cases _ _ _ _ _ Hh Hu) as (Hh' & Hn & _ & due & rest & Hp & Hd & Hr & Hs & Hcase).
  assert (next_after (nextSequence q) seq = Z.max (nextSequence q) (seq + 1)) as E.
  { unfold next_after. destruct (Z.leb_spec (nextSequence q) seq); [|lia]. rewrite u64_small by int_lia. lia. }
  rewrite E in *. split; [done|]. split; [done|]. exists due, rest. do 4 (split; [done|]). tauto.
Qed.

Definition sample_queue : Queue :=
  Queue_Push (Queue_Push (Queue_Push (Queue_Push (NewQueue 0) 7 0) 5 1) 9 2) 4 3.
Example sample_update :
  Queue_Update 1 sample_queue 4 = (MkQueue 1 queue_timeout 5 [MkItem 7 0; MkItem 9 2], [(3%nat, Some ErrBadSequence); (1%nat, None)]).
Proof. vm_compute. reflexivity. Qed.
Theorem Queue_Update_spec_witness :
  let q' := MkQueue 1 queue_timeout 5 [MkItem 7 0; MkItem 9 2] in is_heap it_Sequence (queue q') ∧ nextSequence q' = 5.
Proof.
  assert (is_heap it_Sequence (queue sample_queue)) as Hh.
  { unfold sample_queue, Queue_Push, NewQueue. cbn [queue]. do 4 apply push_heap. apply nil_heap. }
  destruct (Queue_Update_spec 1 sample_queue 4 _ _ Hh ltac:(unfold MaxUint64; lia) sample_update) as (H1 & H2 & _). exact (conj H1 H2).
Defined.

(** ** What waits in the manager *)

(** The items with their address *)
Definition entries_of (g : gmap gostring Queue) : list (gostring * item) :=
  concat ((λ p : gostring * Queue, pair p.1 <$> queue p.2) <$> map_to_list g).
Definition entries (m : Manager) : list (gostring * item) := entries_of (queues m).
Definition wf_manager (m : Manager) : Prop :=
  ∀ a q, queues m !! a = Some q → is_heap it_Sequence (queue q) ∧ queue q ≠ [].

Lemma entries_insert g a q : g !! a = None → entries_of (<[ a := q ]> g) ≡ₚ (pair a <$> queue q) ++ entries_of g.
Proof. intros Hg. unfold entries_of. rewrite (map_to_list_insert g a q Hg). done. Qed.
Lemma entries_lookup g a q : g !! a = Some q → entries_of g ≡ₚ (pair a <$> queue q) ++ entries_of (delete a g).
Proof. intros Hg. rewrite <- (insert_delete_id g a q Hg) at 1. apply entries_insert, lookup_delete_eq. Qed.
Lemma entries_replace g a q : entries_of (<[ a := q ]> g) ≡ₚ (pair a <$> queue q) ++ entries_of (delete a g).
Proof. rewrite (entries_lookup _ a q) by apply lookup_insert_eq. by rewrite delete_insert_eq. Qed.

Lemma size_entries m : size m = Z.of_nat (length (entries m)).
Proof.
  unfold size, entries, entries_of. f_equal. induction (map_to_list (queues m)) as [|[a q] l IH]; [done|].
  cbn [fmap list_fmap concat sum_list sum_list_with foldr]. rewrite length_app, length_fmap. unfold Size at 1. cbn. f_equal. exact IH.
Qed.

Lemma elem_of_entries m a it : (a, it) ∈ entries m ↔ ∃ q, queues m !! a = Some q ∧ it ∈ queue q.
Proof.
  unfold entries, entries_of. rewrite elem_of_concat. split.
  - intros (l & [[a' q] [-> Hq]]%list_elem_of_fmap & Hin). cbn [fst snd] in Hin. apply list_elem_of_fmap in Hin as (it' & [= -> ->] & Hit).
    exists q. by rewrite elem_of_map_to_list in Hq.
  - intros (q & Hq & Hit). exists (pair a <$> queue q). split; [|by apply list_elem_of_fmap_2].
    apply list_elem_of_fmap. exists (a, q). by rewrite elem_of_map_to_list.
Qed.

(** An update answers those that leave. *)
Definition left_by (gone : list (gostring * item)) (sent : sends) : Prop := sent.*1 = (λ e : gostring * item, it_Chan e.2) <$> gone.

Lemma update_queue_spec now m a seq m' sent :
  wf_manager m → update_queue now m a seq = (m', sent) →
  wf_manager m' ∧ MaxSize m' = MaxSize m ∧ ∃ gone, entries m ≡ₚ gone ++ entries m' ∧ left_by gone sent.
Proof.
  intros Hwf. unfold update_queue. destruct (queues m !! a) as [q|] eqn:Hq; [|intros [= <- <-]; split; [done|]; split; [done|]; by exists []].
  destruct (Queue_Update now q seq) as [q' s] eqn:Hu. intros [= <- <-]. destruct (Hwf a q Hq) as [Hh _].
  destruct (Queue_Update_cases _ _ _ _ _ Hh Hu) as (Hh' & _ & _ & due & rest & Hp & _ & _ & _ & Hcase).
  assert (∃ gone, queue q ≡ₚ gone ++ queue q' ∧ s.*1 = it_Chan <$> gone) as (gone & Hg & Hs).
  { destruct Hcase as [(_ & -> & _ & ->)|(-> & _ & Hcase)].
    - exists due. split; [done|]. by rewrite <- list_fmap_compose.
    - destruct (timeout q <? _); [destruct Hcase as (-> & all & Ha & ->)|destruct Hcase as (-> & ->); by exists []].
      exists all. split; [by rewrite app_nil_r, Hp, Ha|]. by rewrite <- list_fmap_compose. }
  cbn [MaxSize]. split; [|split; [done|]].
  - intros b r. cbn [queues]. unfold Size. destruct (Nat.eqb_spec (length (queue q')) 0) as [E|E]; intros Hb.
    + apply lookup_delete_Some in Hb as [_ Hb]. by apply (Hwf b).
    + apply lookup_insert_Some in Hb as [[<- <-]|[_ Hb]]; [|by apply (Hwf b)]. split; [done|]. by destruct (queue q').
  - exists (pair a <$> gone). split; [|unfold left_by; rewrite Hs, <- list_fmap_compose; done].
    unfold entries. cbn [queues]. rewrite (entries_lookup _ a q Hq), Hg, fmap_app, <- app_assoc. f_equiv. unfold Size.
    destruct (Nat.eqb_spec (length (queue q')) 0) as [E|E]; [|symmetry; apply entries_replace].
    destruct (queue q'); [done|done].
Qed.

Lemma updates_spec now l m s0 m' sent :
  wf_manager m →
  foldl (λ (st : Manager * sends) (u : gostring * Z), let '(m, sent) := update_queue now st.1 u.1 u.2 in (m, st.2 ++ sent)) (m, s0) l = (m', sent) →
  wf_manager m' ∧ MaxSize m' = MaxSize m ∧ ∃ gone s, sent = s0 ++ s ∧ entries m ≡ₚ gone ++ entries m' ∧ left_by gone s.
Proof.
  revert m s0. induction l as [|[a seq] l IH]; intros m s0 Hwf; cbn [foldl].
  { intros [= <- <-]. split; [done|]. split; [done|]. exists [], []. by rewrite app_nil_r. }
  cbn [fst snd]. destruct (update_queue now m a seq) as [m1 s1] eqn:Hu.
  destruct (update_queue_spec _ _ _ _ _ _ Hwf Hu) as (Hwf1 & Hm1 & gone1 & Hp1 & Hs1).
  intros (Hwf' & Hm' & gone & s & -> & Hp & Hs)%IH; [|done]. split; [done|]. split; [congruence|].
  exists (gone1 ++ gone), (s1 ++ s). rewrite !app_assoc. split; [done|]. split; [by rewrite Hp1, Hp, app_assoc|].
  unfold left_by in *. by rewrite !fmap_app, Hs, Hs1.
Qed.

Lemma Update_spec now m updates m' sent :
  wf_manager m → Update now m updates = (m', sent) →
  wf_manager m' ∧ MaxSize m' = MaxSize m ∧ ∃ gone, entries m ≡ₚ gone ++ entries m' ∧ left_by gone sent.
Proof. intros Hwf (? & ? & gone & s & -> & ? & ?)%updates_spec; [|done]. eauto. Qed.

Lemma Push_spec now m a seq ch m' sent :
  wf_manager m → Push now m a seq ch = (m', sent) →
  wf_manager m' ∧ MaxSize m' = MaxSize m ∧
  (MaxSize m ≤ size m ∧ m' = m ∧ sent = [(ch, Some ErrNoMoreRoom)] ∨
   size m < MaxSize m ∧ entries m' ≡ₚ (a, MkItem seq ch) :: entries m ∧ sent = []).
Proof.
  intros Hwf. unfold Push. destruct (Z.leb_spec (MaxSize m) (size m)); intros [= <- <-]; [split; [done|]; split; [done|]; by left|]. cbn [MaxSize].
  set (aq := default _ _).
  assert (is_heap it_Sequence (queue aq)) as Hh.
  { unfold aq. destruct (queues m !! a) as [q|] eqn:Hq; [by apply (Hwf a)|apply nil_heap]. }
  split; [|split; [done|]; right; split; [lia|]; split; [|done]].
  - intros b r. cbn [queues]. intros [[<- <-]|[_ Hb]]%lookup_insert_Some; [|by apply (Hwf b)].
    cbn [Queue_Push queue]. split; [by apply push_heap|]. intros E. pose proof (push_perm it_Sequence (queue aq) (MkItem seq ch)) as Hp.
    rewrite E in Hp. by apply Permutation_nil_cons in Hp.
  - unfold entries. cbn [queues]. rewrite entries_replace. cbn [Queue_Push queue]. rewrite push_perm, fmap_cons. cbn [app]. f_equiv.
    unfold aq. destruct (queues m !! a) as [q|] eqn:Hq; cbn [default]; [by rewrite (entries_lookup (queues m) a q)|].
    cbn. by rewrite delete_id.
Qed.

(** The manager never holds more than it may. *)
Lemma Push_bounded now m a seq ch m' sent :
  wf_manager m → size m ≤ MaxSize m → Push now m a seq ch = (m', sent) → size m' ≤ MaxSize m'.
Proof.
  intros Hwf Hs Hp. destruct (Push_spec _ _ _ _ _ _ _ Hwf Hp) as (_ & -> & [(_ & -> & _)|(Hl & He & _)]); [done|].
  rewrite size_entries in *. rewrite He. cbn [length]. lia.
Qed.
Lemma Update_bounded now m updates m' sent :
  wf_manager m → size m ≤ MaxSize m → Update now m updates = (m', sent) → size m' ≤ MaxSize m'.
Proof.
  intros Hwf Hs Hu. destruct (Update_spec _ _ _ _ _ Hwf Hu) as (_ & -> & gone & He & _).
  rewrite size_entries in *. rewrite He, length_app in Hs. lia.
Qed.
