(* ===== verification/TxSub.v ===== *)
(** * aurora: the submission of transactions

    Models [src/services/aurora/internal/txsub]: [system.go], [results.go],
    [open_submission_list.go], [submitter.go], [errors.go] and the type of
    results of [main.go], with the queries that they make of the database.

    Each request runs in a goroutine of its own, and so does the ticker; what
    they share, the queues of SequenceQueue.v and the list of open submissions,
    is behind mutexes.  The system is a state and an event for each step between
    two of these calls, with what the outside answers: which queries fail, the
    response of hcnet-core, the clock, the end of the client's patience.  A
    theorem about all sequences of events is one about all interleavings.
    Left out are metrics, logging, the initialization, and the result codes with
    which [errors.go] renders an error.

    A channel keeps the list of what was sent on it and not yet received.  All
    channels have room for one message and are closed once one was sent, so that
    a second send would panic. *)

From S2P Require Import Prelude Xdr LedgerEntry Transaction HistoryTables HistoryRows Heap SequenceQueue.

(** The marshaller of transaction results, read from base64. *)
Class ResultCodec := { UnmarshalResult : gostring → option TransactionResultResult }.

(** ** errors.go, main.go *)

Inductive sub_error :=
  | ErrNoResults
  | ErrCanceled
  | ErrTimeout
  | FailedTransactionError (ResultXDR : gostring)
  | ErrQueueFull
  | ErrResultXDR
  | ErrLookup
  | ErrBeginTx
  | ErrFetchSequence
  | ErrSubmit
  | ErrException (exception : gostring)
  | ErrStatus (status : gostring).
Definition ErrBadSequence : sub_error := FailedTransactionError (str "AAAAAAAAAAD////7AAAAAA==").
Definition ErrNoAccount : sub_error := FailedTransactionError (str "AAAAAAAAAAD////4AAAAAA==").

Record Result := MkResult { Err : option sub_error; Result_Transaction : option TransactionRow }.
Definition failure (e : sub_error) : Result := MkResult (Some e) None.

(** ** The database *)

Record DB := MkDB { db_transactions : gmap Z TransactionRow; db_accounts : gmap gostring AccountRow }.
Definition has_hash (hash : gostring) (row : TransactionRow) : bool := bool_decide (txr_TransactionHash row = hash).
Definition has_inner_hash (hash : gostring) (row : TransactionRow) : bool := bool_decide (txr_InnerTransactionHash row = Some hash).
(** The first row of the union *)
Definition TransactionByHash (db : DB) (hash : gostring) : option TransactionRow :=
  let rows := (map_to_list (db_transactions db)).*2 in
  head (filter (λ row, has_hash hash row) rows ++ filter (λ row, has_inner_hash hash row) rows).
Definition GetSequenceNumbers (db : DB) (addresses : list gostring) : gmap gostring Z :=
  list_to_map (omap (λ a, (λ row, (a, u64 (ar_SequenceNumber row))) <$> db_accounts db !! a) addresses).

Section txsub.
Context `{RC : ResultCodec}.

(** ** results.go *)

Definition txResultFromHistory (tx : TransactionRow) : Result :=
  MkResult
    (match UnmarshalResult (txr_TxResult tx) with
     | Some r => if Successful (MkResultPair [] 0 r) then None else Some (FailedTransactionError (txr_TxResult tx))
     | None => Some ErrResultXDR
     end) (Some tx).
Definition txResultByHash (db : DB) (fails : bool) (hash : gostring) : Result :=
  if fails then failure ErrLookup else
  match TransactionByHash db hash with Some hr => txResultFromHistory hr | None => failure ErrNoResults end.
Definition is_no_results (r : Result) : bool := match Err r with Some ErrNoResults => true | _ => false end.
(** The result that is there already, or the sequence number of the account. *)
Definition checkTxAlreadyExists (db : DB) (begin lookup fetch : bool) (hash sourceAddress : gostring) : Result + Z :=
  if begin then inl (failure ErrBeginTx) else
  let r := txResultByHash db lookup hash in
  if is_no_results r then
    if fetch then inl (failure ErrFetchSequence) else
    match GetSequenceNumbers db [sourceAddress] !! sourceAddress with
    | None => inl (failure ErrNoAccount)
    | Some num => inr num
    end
  else inl r.

(** ** submitter.go, main.go *)

Record TXResponse := MkTXResponse { Exception : gostring; Error : gostring; Status : gostring }.
Definition TXStatusError := str "ERROR".
Definition TXStatusPending := str "PENDING".
Definition TXStatusDuplicate := str "DUPLICATE".
Definition TXStatusTryAgainLater := str "TRY_AGAIN_LATER".
(** The error of a submission; [None] for the response when the request fails. *)
Definition Submit (cresp : option TXResponse) : option sub_error :=
  match cresp with
  | None => Some ErrSubmit
  | Some cresp =>
      if negb (bool_decide (Exception cresp = [])) then Some (ErrException (Exception cresp))
      else if bool_decide (Status cresp = TXStatusError) then Some (FailedTransactionError (Error cresp))
      else if bool_decide (Status cresp ∈ [TXStatusPending; TXStatusDuplicate; TXStatusTryAgainLater]) then None
      else Some (ErrStatus (Status cresp))
  end.
Definition IsBadSeq (err : sub_error) : outcome sub_error bool :=
  match err with
  | FailedTransactionError ResultXDR =>
      match UnmarshalResult ResultXDR with
      | None => Fail ErrResultXDR
      | Some r => Ret (match r with TxError TxBadSeq => true | _ => false end)
      end
  | _ => Ret false
  end.

(** ** open_submission_list.go

    A listener is the channel of the response of a request, which is the number
    of the request. *)

Record openSubmission := MkOpenSubmission { SubmittedAt : Z; Listeners : list nat }.
Abbreviation submissionList := (gmap gostring openSubmission).
Abbreviation responses := (list (nat * Result)).
Definition Add (now : Z) (s : submissionList) (hash : gostring) (l : nat) : submissionList :=
  if negb (length hash =? 64)%nat then s else
  let os := default (MkOpenSubmission now []) (s !! hash) in
  <[ hash := MkOpenSubmission (SubmittedAt os) (Listeners os ++ [l]) ]> s.
Definition answer_all (r : Result) (os : openSubmission) : responses := (λ l, (l, r)) <$> Listeners os.
Definition Finish (s : submissionList) (hash : gostring) (r : Result) : submissionList * responses :=
  match s !! hash with
  | None => (s, [])
  | Some os => (delete hash s, answer_all r os)
  end.
Definition too_old (now maxAge : Z) (os : openSubmission) : bool := maxAge <? now - SubmittedAt os.
Definition Clean (now : Z) (s : submissionList) (maxAge : Z) : submissionList * responses :=
  (filter (λ e : gostring * openSubmission, too_old now maxAge e.2 = false) s,
   concat ((λ e : gostring * openSubmission, answer_all (failure ErrTimeout) e.2) <$>
     filter (λ e : gostring * openSubmission, too_old now maxAge e.2 = true) (map_to_list s))).
Definition Pending (s : submissionList) : list gostring := (map_to_list s).*1.

(** ** system.go *)

(** Where the goroutine of a request is: before the check, before [Push] and
    [Update] of the queue, at the [select], before [submitOnce], before [Add] and
    the second [Update], in [waitUntilAccountSequence], before the second look at
    the database; or it has returned. *)
Inductive pc :=
  | PCheck
  | PPush (sequenceNumber : Z)
  | PUpdate (sequenceNumber : Z) (seq : nat)
  | PSelect (seq : nat)
  | PSubmit
  | PAdd
  | PAdvance
  | PWaitSequence (err : sub_error) (polled : bool)
  | PLookup (err : sub_error)
  | PReturned.
Record request := MkRequest { rq_hash : gostring; rq_sourceAddress : gostring; rq_SeqNum : Z; rq_pc : pc }.
(** Where the ticker is, with the snapshot that its transaction reads. *)
Inductive ticker :=
  | TIdle
  | TSequences (db : DB)
  | TUpdate (db : DB) (curSeq : gmap gostring Z)
  | TPending (db : DB)
  | TFinish (db : DB) (hashes : list gostring).

Record System := MkSystem {
  SubmissionQueue : Manager; sys_channels : gmap nat (list (option sequence_error)); sys_next : nat;
  sys_Pending : submissionList; sys_responses : gmap nat (list Result);
  sys_requests : gmap nat request; sys_ticker : ticker; sys_DB : DB }.
Definition NewSystem (db : DB) : System := MkSystem NewManager ∅ 0 ∅ ∅ ∅ TIdle db.
Definition SubmissionTimeout : Z := 30 * 10 ^ 9.

(** Sending on channels *)
Definition post {A} (sent : list (nat * A)) (box : gmap nat (list A)) : gmap nat (list A) :=
  foldl (λ (g : gmap nat (list A)) (s : nat * A), <[ s.1 := default [] (g !! s.1) ++ [s.2] ]> g) box sent.

Definition goto (t : nat) (rq : request) (p : pc) (s : System) : System :=
  MkSystem (SubmissionQueue s) (sys_channels s) (sys_next s) (sys_Pending s) (sys_responses s)
    (<[ t := MkRequest (rq_hash rq) (rq_sourceAddress rq) (rq_SeqNum rq) p ]> (sys_requests s)) (sys_ticker s) (sys_DB s).
Definition with_queue (q : Manager * sends) (s : System) : System :=
  MkSystem q.1 (post q.2 (sys_channels s)) (sys_next s) (sys_Pending s) (sys_responses s) (sys_requests s) (sys_ticker s) (sys_DB s).
Definition with_pending (l : submissionList * responses) (s : System) : System :=
  MkSystem (SubmissionQueue s) (sys_channels s) (sys_next s) l.1 (post l.2 (sys_responses s)) (sys_requests s) (sys_ticker s) (sys_DB s).
Definition with_ticker (k : ticker) (s : System) : System :=
  MkSystem (SubmissionQueue s) (sys_channels s) (sys_next s) (sys_Pending s) (sys_responses s) (sys_requests s) k (sys_DB s).
Definition with_DB (db : DB) (s : System) : System :=
  MkSystem (SubmissionQueue s) (sys_channels s) (sys_next s) (sys_Pending s) (sys_responses s) (sys_requests s) (sys_ticker s) db.
(** A new channel *)
Definition fresh (s : System) : System :=
  MkSystem (SubmissionQueue s) (sys_channels s) (S (sys_next s)) (sys_Pending s) (sys_responses s) (sys_requests s) (sys_ticker s) (sys_DB s).
Definition received (ch : nat) (s : System) : System :=
  MkSystem (SubmissionQueue s) (<[ ch := [] ]> (sys_channels s)) (sys_next s) (sys_Pending s) (sys_responses s) (sys_requests s) (sys_ticker s) (sys_DB s).
Definition finish (t : nat) (rq : request) (r : Result) (s : System) : System :=
  goto t rq PReturned (with_pending (sys_Pending s, [(t, r)]) s).

Inductive event :=
  | EvRequest (t : nat) (envelope : TransactionEnvelope) (hash : gostring)
  | EvCheck (t : nat) (begin lookup fetch : bool)
  | EvPush (t : nat) (now : Z)
  | EvUpdate (t : nat) (now : Z)
  | EvReceive (t : nat)
  | EvDone (t : nat)
  | EvSubmit (t : nat) (cresp : option TXResponse)
  | EvAdd (t : nat) (now : Z)
  | EvAdvance (t : nat) (now : Z)
  | EvPoll (t : nat) (fetch : bool)
  | EvLookup (t : nat) (lookup : bool)
  | EvTick (begin : bool)
  | EvTickSequences (fetch : bool)
  | EvTickUpdate (now : Z)
  | EvTickPending
  | EvTickFinish (lookup : bool)
  | EvTickClean (now : Z).

(** One step of [Submit] of a request. *)
Definition request_step (t : nat) (rq : request) (e : event) (s : System) : option System :=
  match e, rq_pc rq with
  | EvCheck _ begin lookup fetch, PCheck =>
      Some (match checkTxAlreadyExists (sys_DB s) begin lookup fetch (rq_hash rq) (rq_sourceAddress rq) with
            | inl r => finish t rq r s
            | inr num => goto t rq (PPush num) s
            end)
  | EvPush _ now, PPush num =>
      let ch := sys_next s in
      Some (goto t rq (PUpdate num ch) (with_queue (Push now (SubmissionQueue s) (rq_sourceAddress rq) (rq_SeqNum rq) ch) (fresh s)))
  | EvUpdate _ now, PUpdate num ch =>
      Some (goto t rq (PSelect ch) (with_queue (Update now (SubmissionQueue s) {[ rq_sourceAddress rq := num ]}) s))
  | EvReceive _, PSelect ch =>
      match sys_channels s !! ch with
      | Some (msg :: _) =>
          Some (match msg with
                | None => goto t rq PSubmit (received ch s)
                | Some SequenceQueue.ErrBadSequence => finish t rq (failure ErrBadSequence) (received ch s)
                | Some ErrNoMoreRoom => finish t rq (failure ErrQueueFull) (received ch s)
                end)
      | _ => None
      end
  | EvDone _, PSelect _ => Some (finish t rq (failure ErrCanceled) s)
  | EvSubmit _ cresp, PSubmit =>
      Some (match Submit cresp with
            | None => goto t rq PAdd s
            | Some err =>
                match IsBadSeq err with
                | Ret true => goto t rq (PWaitSequence err false) s
                | Ret false => finish t rq (failure err) s
                | Fail e => finish t rq (failure e) s
                | Panic => s
                end
            end)
  | EvAdd _ now, PAdd => Some (goto t rq PAdvance (with_pending (Add now (sys_Pending s) (rq_hash rq) t, []) s))
  | EvAdvance _ now, PAdvance =>
      Some (goto t rq PReturned (with_queue (Update now (SubmissionQueue s) {[ rq_sourceAddress rq := rq_SeqNum rq ]}) s))
  | EvPoll _ fetch, PWaitSequence err _ =>
      let num := default 0 (GetSequenceNumbers (sys_DB s) [rq_sourceAddress rq] !! rq_sourceAddress rq) in
      Some (if negb fetch && (rq_SeqNum rq <=? num) then goto t rq (PLookup err) s else goto t rq (PWaitSequence err true) s)
  | EvDone _, PWaitSequence _ true => Some (finish t rq (failure ErrCanceled) s)
  | EvLookup _ lookup, PLookup err =>
      let r := txResultByHash (sys_DB s) lookup (rq_hash rq) in
      Some (finish t rq (match Err r with None => r | Some _ => failure err end) s)
  | _, _ => None
  end.

(** One step of [Tick]; a tick while another one runs does nothing. *)
Definition tick_step (e : event) (s : System) : option System :=
  match e, sys_ticker s with
  | EvTick begin, TIdle => Some (if begin then s else with_ticker (TSequences (sys_DB s)) s)
  | EvTick _, _ => Some s
  | EvTickSequences fetch, TSequences db =>
      Some (match Addresses (SubmissionQueue s) with
            | [] => with_ticker (TPending db) s
            | addys => if fetch then with_ticker TIdle s else with_ticker (TUpdate db (GetSequenceNumbers db addys)) s
            end)
  | EvTickUpdate now, TUpdate db curSeq => Some (with_ticker (TPending db) (with_queue (Update now (SubmissionQueue s) curSeq) s))
  | EvTickPending, TPending db => Some (with_ticker (TFinish db (Pending (sys_Pending s))) s)
  | EvTickFinish lookup, TFinish db (hash :: hashes) =>
      let r := txResultByHash db lookup hash in
      Some (with_ticker (TFinish db hashes)
        (match Err r with
         | None | Some (FailedTransactionError _) => with_pending (Finish (sys_Pending s) hash r) s
         | Some _ => s
         end))
  | EvTickClean now, TFinish db [] => Some (with_ticker TIdle (with_pending (Clean now (sys_Pending s) SubmissionTimeout) s))
  | _, _ => None
  end.

Definition event_request (e : event) : option nat :=
  match e with
  | EvCheck t _ _ _ | EvPush t _ | EvUpdate t _ | EvReceive t | EvDone t | EvSubmit t _ | EvAdd t _ | EvAdvance t _
  | EvPoll t _ | EvLookup t _ => Some t
  | _ => None
  end.
Definition step (s : System) (e : event) : option System :=
  match e with
  | EvRequest t envelope hash =>
      match sys_requests s !! t with
      | Some _ => None
      | None => Some (goto t (MkRequest hash (address (ToAccountId (Envelope_SourceAccount envelope))) (u64 (Envelope_SeqNum envelope)) PCheck) PCheck s)
      end
  | _ =>
      match event_request e with
      | Some t => match sys_requests s !! t with Some rq => request_step t rq e s | None => None end
      | None => tick_step e s
      end
  end.
Definition run (s : System) (es : list event) : option System := foldl (λ s e, s ≫= λ s, step s e) (Some s) es.

(** The database goes on between the events; ingestion adds transactions. *)
Inductive transition : System → System → Prop :=
  | Transition_step s e s' : step s e = Some s' → transition s s'
  | Transition_ingest s db : db_transactions (sys_DB s) ⊆ db_transactions db → transition s (with_DB db s).
Definition reachable (s : System) : Prop := ∃ db, rtc transition (NewSystem db) s.

(** ** Mailboxes

    A pool of channels on which nothing was sent yet, all different, and a box of
    what was sent: at most one message, and none for a channel of the pool. *)

Definition mail_ok {A} (pool : list nat) (box : gmap nat (list A)) : Prop :=
  NoDup pool ∧ (∀ i msgs, box !! i = Some msgs → (i ∉ pool) ∧ (length msgs ≤ 1)%nat).
#[global] Instance mail_ok_perm {A} : Proper ((≡ₚ) ==> (=) ==> iff) (@mail_ok A).
Proof. intros l l' Hl b ? <-. unfold mail_ok. setoid_rewrite Hl. done. Qed.

Lemma post_other {A} (sent : list (nat * A)) (box : gmap nat (list A)) i : i ∉ sent.*1 → post sent box !! i = box !! i.
Proof.
  revert box. induction sent as [|[j m] sent IH]; intros box Hi; [done|]. cbn [post foldl fst snd]. rewrite fmap_cons, not_elem_of_cons in Hi.
  destruct Hi as [Hij Hi]. change (foldl _ ?b sent) with (post sent b). rewrite IH by done. by apply lookup_insert_ne.
Qed.

Lemma post_sent {A} (sent : list (nat * A)) (box : gmap nat (list A)) i m :
  NoDup sent.*1 → (i, m) ∈ sent → box !! i = None → post sent box !! i = Some [m].
Proof.
  revert box. induction sent as [|[j m'] sent IH]; intros box Hnd Hin Hi; [by apply not_elem_of_nil in Hin|]. rewrite fmap_cons in Hnd. apply NoDup_cons in Hnd as [Hj Hnd].
  cbn [post foldl fst snd]. change (foldl _ ?b sent) with (post sent b). apply elem_of_cons in Hin as [[= <- <-]|Hin].
  - rewrite post_other by done. by rewrite lookup_insert_eq, Hi.
  - apply IH; [done..|]. rewrite lookup_insert_ne; [done|]. intros <-. apply Hj. by apply (list_elem_of_fmap_2 fst _ (j, m)).
Qed.

(** Sending to those that leave the pool *)
Lemma mail_post {A} (pool pool' gone : list nat) (sent : list (nat * A)) (box : gmap nat (list A)) :
  mail_ok pool box → pool ≡ₚ gone ++ pool' → sent.*1 ≡ₚ gone →
  mail_ok pool' (post sent box) ∧ (∀ i, i ∈ gone → ∃ m, (i, m) ∈ sent ∧ post sent box !! i = Some [m]) ∧
  (∀ i, i ∉ gone → post sent box !! i = box !! i).
Proof.
  intros [Hnd Hbox] Hp Hs. rewrite Hp in Hnd. apply NoDup_app in Hnd as (Hg & Hdis & Hnd').
  assert (∀ i, i ∈ gone → ∃ m, (i, m) ∈ sent ∧ post sent box !! i = Some [m]) as Hsent.
  { intros i Hi. rewrite <- Hs in Hi. apply list_elem_of_fmap in Hi as ([j m] & -> & Hin). exists m. split; [done|].
    apply post_sent; [by rewrite Hs|done|]. destruct (box !! j) as [msgs|] eqn:Hb; [|done]. destruct (Hbox j msgs Hb) as [Hn _].
    destruct Hn. rewrite Hp, elem_of_app. left. rewrite <- Hs. by apply (list_elem_of_fmap_2 fst _ (j, m)). }
  assert (∀ i, i ∉ gone → post sent box !! i = box !! i) as Hother by (intros i Hi; apply post_other; by rewrite Hs).
  split; [|done]. split; [done|]. intros i msgs Hi. destruct (decide (i ∈ gone)) as [Hin|Hni].
  - destruct (Hsent i Hin) as (m & _ & Hm). rewrite Hm in Hi. injection Hi as <-. split; [by apply Hdis|done].
  - rewrite Hother in Hi by done. destruct (Hbox i msgs Hi) as [Hn Hl]. split; [|done]. intros Hi'. apply Hn. rewrite Hp. by apply elem_of_app; right.
Qed.

Lemma mail_empty {A} : mail_ok [] (∅ : gmap nat (list A)).
Proof. split; [constructor|]. intros i msgs Hi. by rewrite lookup_empty in Hi. Qed.
(** A channel that is not known yet enters the pool. *)
Lemma mail_new {A} (pool : list nat) (box : gmap nat (list A)) ch : ch ∉ pool → box !! ch = None → mail_ok pool box → mail_ok (ch :: pool) box.
Proof.
  intros Hn Hb [Hnd Hbox]. split; [by constructor|]. intros i msgs Hi. destruct (Hbox i msgs Hi) as [? ?].
  split; [|done]. apply not_elem_of_cons. split; [congruence|done].
Qed.
Lemma mail_received {A} (pool : list nat) (box : gmap nat (list A)) ch msgs :
  box !! ch = Some msgs → mail_ok pool box → mail_ok pool (<[ ch := [] ]> box).
Proof.
  intros Hc [Hnd Hbox]. split; [done|]. intros i l [[<- <-]|[_ Hi]]%lookup_insert_Some; [|by apply (Hbox i)].
  split; [apply (Hbox ch msgs Hc)|cbn; lia].
Qed.

(** ** The queues and their channels *)

Definition queue_channels (m : Manager) : list nat := (λ e : gostring * item, it_Chan e.2) <$> entries m.
Definition waiting_on (p : pc) : option nat := match p with PUpdate _ ch | PSelect ch => Some ch | _ => None end.

(** A request that waits is in the queue of its account, or was answered. *)
Record chan_inv (s : System) : Prop := {
  ci_manager : wf_manager (SubmissionQueue s);
  ci_size : size (SubmissionQueue s) ≤ MaxSize (SubmissionQueue s);
  ci_mail : mail_ok (queue_channels (SubmissionQueue s)) (sys_channels s);
  ci_fresh ch : ch ∈ queue_channels (SubmissionQueue s) ∨ is_Some (sys_channels s !! ch) → (ch < sys_next s)%nat;
  ci_waits t rq ch : sys_requests s !! t = Some rq → waiting_on (rq_pc rq) = Some ch →
    (ch < sys_next s)%nat ∧
    ((rq_sourceAddress rq, MkItem (rq_SeqNum rq) ch) ∈ entries (SubmissionQueue s) ∨ ∃ msg, sys_channels s !! ch = Some [msg]);
  ci_apart t t' rq rq' ch : sys_requests s !! t = Some rq → sys_requests s !! t' = Some rq' →
    waiting_on (rq_pc rq) = Some ch → waiting_on (rq_pc rq') = Some ch → t = t' }.

Lemma elem_of_channels m a it : (a, it) ∈ entries m → it_Chan it ∈ queue_channels m.
Proof. intros H. by apply (list_elem_of_fmap_2 (λ e : gostring * item, it_Chan e.2) _ (a, it)). Qed.

(** Only requests change, and none waits that did not wait before. *)
Definition fewer_wait (s s' : System) : Prop :=
  ∀ t rq' ch, sys_requests s' !! t = Some rq' → waiting_on (rq_pc rq') = Some ch →
    ∃ rq, sys_requests s !! t = Some rq ∧ waiting_on (rq_pc rq) = Some ch ∧
      rq_sourceAddress rq = rq_sourceAddress rq' ∧ rq_SeqNum rq = rq_SeqNum rq'.
Lemma chan_frame s s' :
  SubmissionQueue s' = SubmissionQueue s → sys_channels s' = sys_channels s → sys_next s' = sys_next s → fewer_wait s s' →
  chan_inv s → chan_inv s'.
Proof.
  intros Hq Hc Hn Hw [H1 H2 H3 H4 H5 H6]. split; rewrite ?Hq, ?Hc, ?Hn; [done..| |].
  - intros t rq' ch Ht Hch. destruct (Hw _ _ _ Ht Hch) as (rq & Hrq & Hch' & <- & <-). by apply (H5 t).
  - intros t t' rq rq' ch Ht Ht' Hch Hch'. destruct (Hw _ _ _ Ht Hch) as (? & ? & ? & _). destruct (Hw _ _ _ Ht' Hch') as (? & ? & ? & _). eauto.
Qed.

Lemma fewer_goto s t rq p s0 :
  sys_requests s0 = sys_requests s → sys_requests s !! t = Some rq → waiting_on p = None ∨ waiting_on p = waiting_on (rq_pc rq) →
  fewer_wait s (goto t rq p s0).
Proof.
  intros Hs Ht Hp t' rq' ch. cbn [goto sys_requests]. rewrite Hs. intros [[<- <-]|[_ Hl]]%lookup_insert_Some Hch; [|eauto].
  cbn [rq_pc] in Hch. exists rq. destruct Hp as [Hp|Hp]; rewrite Hp in Hch; [done|]. done.
Qed.

Lemma chan_update now updates s : chan_inv s → chan_inv (with_queue (Update now (SubmissionQueue s) updates) s).
Proof.
  intros [H1 H2 H3 H4 H5 H6]. destruct (Update now (SubmissionQueue s) updates) as [m sent] eqn:Hu.
  destruct (Update_spec _ _ _ _ _ H1 Hu) as (Hwf & Hmax & gone & Hp & Hs). pose proof (Update_bounded _ _ _ _ _ H1 H2 Hu) as Hb.
  unfold with_queue. cbn [fst snd].
  assert (queue_channels (SubmissionQueue s) ≡ₚ ((λ e : gostring * item, it_Chan e.2) <$> gone) ++ queue_channels m) as Hpc
    by (unfold queue_channels; by rewrite Hp, fmap_app).
  destruct (mail_post _ _ _ sent _ H3 Hpc ltac:(by rewrite Hs)) as (Hm & Hsent & Hother). split; cbn; [done|done|done| | |done].
  - intros ch Hch. apply H4. destruct Hch as [Hch|Hch]; [left; rewrite Hpc, elem_of_app; by right|].
    destruct (decide (ch ∈ (λ e : gostring * item, it_Chan e.2) <$> gone)) as [Hin|Hni]; [left; rewrite Hpc, elem_of_app; by left|].
    right. by rewrite <- Hother.
  - intros t rq ch Ht Hch. destruct (H5 t rq ch Ht Hch) as [Hlt Hcase]. split; [done|]. destruct Hcase as [Hin|[msg Hmsg]].
    + rewrite Hp, elem_of_app in Hin. destruct Hin as [Hin|Hin]; [right|by left].
      destruct (Hsent ch) as (msg & _ & Hmsg); [|by exists msg].
      by apply (list_elem_of_fmap_2 (λ e : gostring * item, it_Chan e.2) _ (rq_sourceAddress rq, MkItem (rq_SeqNum rq) ch)).
    + right. exists msg. rewrite Hother; [done|]. intros Hin. destruct H3 as [_ Hbox]. destruct (Hbox ch _ Hmsg) as [Hn _].
      apply Hn. rewrite Hpc. by apply elem_of_app; left.
Qed.

Lemma chan_push now s t rq num :
  sys_requests s !! t = Some rq → waiting_on (rq_pc rq) = None → chan_inv s →
  chan_inv (goto t rq (PUpdate num (sys_next s))
    (with_queue (Push now (SubmissionQueue s) (rq_sourceAddress rq) (rq_SeqNum rq) (sys_next s)) (fresh s))).
Proof.
  intros Ht Hw [H1 H2 H3 H4 H5 H6]. set (ch := sys_next s).
  destruct (Push now (SubmissionQueue s) (rq_sourceAddress rq) (rq_SeqNum rq) ch) as [m sent] eqn:Hpush.
  destruct (Push_spec _ _ _ _ _ _ _ H1 Hpush) as (Hwf & Hmax & Hcase). pose proof (Push_bounded _ _ _ _ _ _ _ H1 H2 Hpush) as Hb.
  assert (ch ∉ queue_channels (SubmissionQueue s)) as Hnew by (intros Hin; specialize (H4 ch (or_introl Hin)); unfold ch in H4; lia).
  assert (sys_channels s !! ch = None) as Hnone.
  { destruct (sys_channels s !! ch) eqn:E; [|done]. specialize (H4 ch (or_intror (mk_is_Some _ _ E))). unfold ch in H4. lia. }
  pose proof (mail_new _ _ ch Hnew Hnone H3) as Hmail.
  assert (mail_ok (queue_channels m) (post sent (sys_channels s)) ∧ (∀ c, c ≠ ch → post sent (sys_channels s) !! c = sys_channels s !! c) ∧
    (∀ c, c ∈ queue_channels m → c = ch ∨ c ∈ queue_channels (SubmissionQueue s)) ∧
    (∀ e, e ∈ entries (SubmissionQueue s) → e ∈ entries m) ∧
    ((rq_sourceAddress rq, MkItem (rq_SeqNum rq) ch) ∈ entries m ∨ ∃ msg, post sent (sys_channels s) !! ch = Some [msg])) as (Hm & Hother & Hsub & Hsup & Hme).
  { destruct Hcase as [(_ & -> & ->)|(_ & He & ->)].
    - destruct (mail_post (ch :: queue_channels (SubmissionQueue s)) (queue_channels (SubmissionQueue s)) [ch] [(ch, Some ErrNoMoreRoom)] _ Hmail)
        as (Hm & Hsent & Hother); [done|done|]. split; [done|]. split; [intros c Hc; apply Hother; by rewrite list_elem_of_singleton|].
      split; [auto|]. split; [done|]. right. destruct (Hsent ch) as (msg & _ & ?); [by left|]. by exists msg.
    - assert (queue_channels m ≡ₚ ch :: queue_channels (SubmissionQueue s)) as Hp by (unfold queue_channels; by rewrite He).
      split; [by rewrite Hp|]. split; [done|]. split; [intros c; rewrite Hp, elem_of_cons; tauto|].
      split; [intros e; rewrite He, elem_of_cons; auto|]. left. rewrite He. by left. }
  split; cbn; [done|done|done| | |].
  - intros c Hc. destruct (decide (c = ch)) as [->|Hn]; [unfold ch; lia|]. enough (c < ch)%nat by (unfold ch in *; lia). apply H4.
    destruct Hc as [Hc|Hc]; [left; by destruct (Hsub c Hc)|right; by rewrite <- Hother].
  - intros t' rq' c [[<- <-]|[Hne Ht']]%lookup_insert_Some Hc.
    + cbn [rq_pc waiting_on] in Hc. injection Hc as <-. split; [unfold ch; lia|done].
    + destruct (H5 t' rq' c Ht' Hc) as [Hlt Hcase']. split; [lia|]. destruct Hcase' as [Hin|[msg Hmsg]]; [left; by apply Hsup|right].
      exists msg. rewrite Hother; [done|]. unfold ch. lia.
  - intros t1 t2 rq1 rq2 c [[<- <-]|[Hne1 Ht1]]%lookup_insert_Some [[<- <-]|[Hne2 Ht2]]%lookup_insert_Some Hc1 Hc2; [done|..].
    + cbn [rq_pc waiting_on] in Hc1. injection Hc1 as <-. destruct (H5 t2 rq2 _ Ht2 Hc2). unfold ch in *. lia.
    + cbn [rq_pc waiting_on] in Hc2. injection Hc2 as <-. destruct (H5 t1 rq1 _ Ht1 Hc1). unfold ch in *. lia.
    + by apply (H6 t1 t2 rq1 rq2 c).
Qed.

(** A message is received by the request that waits for it, which goes on. *)
Lemma chan_receive s s' t rq p ch msgs :
  sys_requests s !! t = Some rq → waiting_on (rq_pc rq) = Some ch → waiting_on p = None → sys_channels s !! ch = Some msgs →
  SubmissionQueue s' = SubmissionQueue s → sys_channels s' = <[ ch := [] ]> (sys_channels s) → sys_next s' = sys_next s →
  sys_requests s' = <[ t := MkRequest (rq_hash rq) (rq_sourceAddress rq) (rq_SeqNum rq) p ]> (sys_requests s) →
  chan_inv s → chan_inv s'.
Proof.
  intros Ht Hw Hp Hch Hq Hc Hn Hr [H1 H2 H3 H4 H5 H6]. split; rewrite ?Hq, ?Hc, ?Hn, ?Hr; [done|done|by apply (mail_received _ _ ch msgs)|..].
  - intros c [Hin|Hin]; [apply H4; by left|]. apply H4. destruct (decide (c = ch)) as [->|]; [right; by rewrite Hch|].
    right. by rewrite lookup_insert_ne in Hin by done.
  - intros t' rq' c [[<- <-]|[Hne Ht']]%lookup_insert_Some Hc'; [cbn [rq_pc] in Hc'; congruence|].
    destruct (H5 t' rq' c Ht' Hc') as [Hlt Hcase]. split; [done|]. destruct Hcase as [?|[msg Hmsg]]; [by left|right]. exists msg.
    rewrite lookup_insert_ne; [done|]. intros <-. apply Hne. by apply (H6 t t' rq rq' ch).
  - intros t1 t2 rq1 rq2 c [[<- <-]|[Hne1 Ht1]]%lookup_insert_Some [[<- <-]|[Hne2 Ht2]]%lookup_insert_Some Hc1 Hc2;
      [done|cbn [rq_pc] in *; congruence..|by apply (H6 t1 t2 rq1 rq2 c)].
Qed.

(** ** The open submissions and the responses *)

(** The listeners with the hash that they listen for *)
Definition listeners (l : submissionList) : list (gostring * nat) :=
  concat ((λ e : gostring * openSubmission, pair e.1 <$> Listeners e.2) <$> map_to_list l).
Definition returned (p : pc) : bool := match p with PAdvance | PReturned => true | _ => false end.

Lemma listeners_lookup (l : submissionList) (h : gostring) (os : openSubmission) : l !! h = Some os → listeners l ≡ₚ (pair h <$> Listeners os) ++ listeners (delete h l).
Proof.
  intros Hl. unfold listeners. rewrite <- (insert_delete_id l h os Hl) at 1.
  by rewrite (map_to_list_insert (delete h l) h os (lookup_delete_eq l h)).
Qed.
Lemma listeners_insert (l : submissionList) (h : gostring) (os : openSubmission) : listeners (<[ h := os ]> l) ≡ₚ (pair h <$> Listeners os) ++ listeners (delete h l).
Proof. rewrite (listeners_lookup _ h os) by apply lookup_insert_eq. by rewrite delete_insert_eq. Qed.

Lemma listeners_Add (now : Z) (l : submissionList) (h : gostring) (t : nat) : length h = 64%nat → listeners (Add now l h t) ≡ₚ (h, t) :: listeners l.
Proof.
  intros Hh. unfold Add. rewrite Hh. cbn [negb Nat.eqb]. rewrite listeners_insert. cbn [Listeners]. rewrite fmap_app. cbn [fmap list_fmap].
  destruct (l !! h) as [os|] eqn:Hl; cbn [default Listeners].
  - rewrite (listeners_lookup l h os Hl), <- app_assoc. symmetry. apply Permutation_middle.
  - by rewrite delete_id.
Qed.

(** Whoever stops listening is answered. *)
Definition answered (gone : list (gostring * nat)) (sent : responses) : Prop := sent.*1 = gone.*2.

Lemma answer_all_fst r os : (answer_all r os).*1 = Listeners os.
Proof. unfold answer_all. rewrite <- list_fmap_compose. apply list_fmap_id. Qed.

Lemma listeners_Finish (l : submissionList) (h : gostring) (r : Result) :
  ∃ gone, listeners l ≡ₚ gone ++ listeners (Finish l h r).1 ∧ answered gone (Finish l h r).2 ∧
    ∀ t r', (t, r') ∈ (Finish l h r).2 → r' = r ∧ (h, t) ∈ gone.
Proof.
  unfold Finish. destruct (l !! h) as [os|] eqn:Hl; cbn [fst snd].
  - exists (pair h <$> Listeners os). split; [by apply listeners_lookup|]. split.
    + unfold answered. rewrite answer_all_fst, <- list_fmap_compose. symmetry. apply list_fmap_id.
    + intros t r' (u & [= -> ->] & Hu)%list_elem_of_fmap. split; [done|]. by apply list_elem_of_fmap_2.
  - exists []. split; [done|]. split; [done|]. intros t r' Hin. by apply not_elem_of_nil in Hin.
Qed.

Lemma listeners_split (P : openSubmission → bool) (l : submissionList) :
  listeners l ≡ₚ concat ((λ e : gostring * openSubmission, pair e.1 <$> Listeners e.2) <$>
      filter (λ e : gostring * openSubmission, P e.2 = true) (map_to_list l)) ++
    listeners (filter (λ e : gostring * openSubmission, P e.2 = false) l).
Proof.
  induction l as [|h os l Hl IH] using map_ind; [done|]. rewrite listeners_insert, (delete_id l h Hl), IH.
  rewrite (map_to_list_insert l h os Hl), filter_cons. cbn [snd]. destruct (P os) eqn:HP.
  - rewrite decide_True by done. rewrite map_filter_insert_False by (cbn; congruence). rewrite (delete_id l h Hl).
    cbn [fmap list_fmap concat fst snd]. by rewrite app_assoc.
  - rewrite decide_False by done. rewrite map_filter_insert_True by done. rewrite listeners_insert.
    rewrite delete_id by (apply map_lookup_filter_None; by left). apply Permutation_app_swap_app.
Qed.

Lemma listeners_Clean (now : Z) (l : submissionList) (maxAge : Z) :
  ∃ gone, listeners l ≡ₚ gone ++ listeners (Clean now l maxAge).1 ∧ answered gone (Clean now l maxAge).2 ∧
    ∀ t r, (t, r) ∈ (Clean now l maxAge).2 → r = failure ErrTimeout.
Proof.
  unfold Clean. cbn [fst snd]. eexists. split; [apply (listeners_split (too_old now maxAge))|]. split.
  - unfold answered. induction (filter _ (map_to_list l)) as [|[h os] es IH]; [done|]. cbn [fmap list_fmap concat fst snd].
    rewrite !fmap_app. cbn. rewrite answer_all_fst, <- list_fmap_compose. f_equal; [symmetry; apply list_fmap_id|exact IH].
  - intros t r Hin. apply elem_of_concat in Hin as (rs & (e & -> & _)%list_elem_of_fmap & Hin).
    by apply list_elem_of_fmap in Hin as (u & [= -> ->] & _).
Qed.

(** A result without an error is a successful transaction of the database that has
    the hash, itself or inside of a fee bump. *)
Definition justified (db : DB) (hash : gostring) (r : Result) : Prop :=
  Err r = None →
  ∃ i row res, db_transactions db !! i = Some row ∧ Result_Transaction r = Some row ∧
    (txr_TransactionHash row = hash ∨ txr_InnerTransactionHash row = Some hash) ∧
    UnmarshalResult (txr_TxResult row) = Some res ∧ Successful (MkResultPair [] 0 res) = true.

Lemma failure_justified db hash e : justified db hash (failure e).
Proof. done. Qed.
Lemma justified_mono db db' hash r : db_transactions db ⊆ db_transactions db' → justified db hash r → justified db' hash r.
Proof.
  intros Hsub Hj Herr. destruct (Hj Herr) as (i & row & res & Hi & H). exists i, row, res. split; [|done]. by eapply lookup_weaken.
Qed.
Lemma txResultByHash_justified db fails hash : justified db hash (txResultByHash db fails hash).
Proof.
  unfold txResultByHash. destruct fails; [done|]. destruct (TransactionByHash db hash) as [row|] eqn:Hrow; [|done].
  unfold txResultFromHistory. intros Herr. cbn [Err] in Herr.
  destruct (UnmarshalResult (txr_TxResult row)) as [res|] eqn:Hres; [|done]. destruct (Successful _) eqn:Hok; [|done].
  apply head_Some_elem_of in Hrow. rewrite elem_of_app, !list_elem_of_filter in Hrow.
  assert (row ∈ (map_to_list (db_transactions db)).*2 ∧ (txr_TransactionHash row = hash ∨ txr_InnerTransactionHash row = Some hash)) as [Hin Hh].
  { unfold has_hash, has_inner_hash in Hrow. rewrite !bool_decide_spec in Hrow. tauto. }
  apply list_elem_of_fmap in Hin as ([i row'] & -> & Hi%elem_of_map_to_list). by exists i, row', res.
Qed.
Lemma checkTxAlreadyExists_justified db begin lookup fetch hash source r :
  checkTxAlreadyExists db begin lookup fetch hash source = inl r → justified db hash r.
Proof.
  unfold checkTxAlreadyExists. destruct begin; [by intros [= <-]|]. destruct (is_no_results _); [|intros [= <-]; apply txResultByHash_justified].
  destruct fetch; [by intros [= <-]|]. destruct (_ !! _); [done|]. by intros [= <-].
Qed.

Definition snapshot (k : ticker) : option DB :=
  match k with TIdle => None | TSequences db | TUpdate db _ | TPending db | TFinish db _ => Some db end.

(** A request that has not returned was not answered and does not listen; one that
    has was answered, or listens for its hash (a hash of another length is not
    listened for). *)
Record resp_inv (s : System) : Prop := {
  ri_mail : mail_ok (listeners (sys_Pending s)).*2 (sys_responses s);
  ri_listens h t : (h, t) ∈ listeners (sys_Pending s) → ∃ rq, sys_requests s !! t = Some rq ∧ rq_hash rq = h ∧ returned (rq_pc rq) = true;
  ri_answered t msgs : sys_responses s !! t = Some msgs → ∃ rq, sys_requests s !! t = Some rq ∧ returned (rq_pc rq) = true;
  ri_returned t rq : sys_requests s !! t = Some rq → returned (rq_pc rq) = true →
    (∃ r, sys_responses s !! t = Some [r]) ∨ (rq_hash rq, t) ∈ listeners (sys_Pending s) ∨ length (rq_hash rq) ≠ 64%nat;
  ri_justified t rq r : sys_requests s !! t = Some rq → sys_responses s !! t = Some [r] → justified (sys_DB s) (rq_hash rq) r;
  ri_snapshot db : snapshot (sys_ticker s) = Some db → db_transactions db ⊆ db_transactions (sys_DB s) }.

(** Only requests that go on without returning change. *)
Definition same_returns (s s' : System) : Prop :=
  (∀ t rq, sys_requests s !! t = Some rq → ∃ rq', sys_requests s' !! t = Some rq' ∧ rq_hash rq' = rq_hash rq ∧ returned (rq_pc rq') = returned (rq_pc rq)) ∧
  (∀ t rq', sys_requests s' !! t = Some rq' → (∃ rq, sys_requests s !! t = Some rq ∧ rq_hash rq' = rq_hash rq ∧ returned (rq_pc rq') = returned (rq_pc rq)) ∨
     sys_requests s !! t = None ∧ returned (rq_pc rq') = false).
Lemma resp_frame s s' :
  sys_Pending s' = sys_Pending s → sys_responses s' = sys_responses s → db_transactions (sys_DB s) ⊆ db_transactions (sys_DB s') →
  (∀ db, snapshot (sys_ticker s') = Some db → snapshot (sys_ticker s) = Some db ∨ db = sys_DB s') → same_returns s s' →
  resp_inv s → resp_inv s'.
Proof.
  intros Hp Hr Hdb Hk [Hfw Hbw] [H1 H2 H3 H4 H5 H6]. split; rewrite ?Hp, ?Hr; [done|..].
  - intros h t Hin. destruct (H2 h t Hin) as (rq & Ht & Hh & Hret). destruct (Hfw t rq Ht) as (rq' & Ht' & Hh' & Hr'). exists rq'. by rewrite Hh', Hr'.
  - intros t msgs Hm. destruct (H3 t msgs Hm) as (rq & Ht & Hret). destruct (Hfw t rq Ht) as (rq' & Ht' & _ & Hr'). exists rq'. by rewrite Hr'.
  - intros t rq' Ht' Hret. destruct (Hbw t rq' Ht') as [(rq & Ht & -> & Hr')|[_ Hn]]; [|congruence]. apply (H4 t rq Ht). congruence.
  - intros t rq' r Ht' Hm. destruct (Hbw t rq' Ht') as [(rq & Ht & -> & Hr')|[Hn _]].
    + eapply justified_mono; [exact Hdb|by apply (H5 t)].
    + destruct (H3 t _ Hm) as (rq & Ht & _). congruence.
  - intros db Hs. destruct (Hk db Hs) as [Hs'| ->]; [|done]. etrans; [by apply H6|done].
Qed.

Lemma same_goto s t rq p s0 :
  sys_requests s0 = sys_requests s → sys_requests s !! t = Some rq → returned p = returned (rq_pc rq) → same_returns s (goto t rq p s0).
Proof.
  intros Hs Ht Hp. unfold same_returns. cbn [goto sys_requests]. rewrite Hs. split.
  - intros t' rq' Ht'. destruct (decide (t' = t)) as [->|Hn]; [|exists rq'; by rewrite lookup_insert_ne].
    rewrite Ht in Ht'. injection Ht' as <-. eexists. split; [apply lookup_insert_eq|]. done.
  - intros t' rq' [[<- <-]|[_ Hl]]%lookup_insert_Some; [left; exists rq; done|]. left. by exists rq'.
Qed.
Lemma same_refl s s' : sys_requests s' = sys_requests s → same_returns s s'.
Proof. intros E. unfold same_returns. rewrite E. split; [eauto|]. intros t rq' Ht. left. eauto. Qed.

Lemma not_returned s t rq : resp_inv s → sys_requests s !! t = Some rq → returned (rq_pc rq) = false →
  (t ∉ (listeners (sys_Pending s)).*2) ∧ sys_responses s !! t = None.
Proof.
  intros [H1 H2 H3 H4 H5 H6] Ht Hret. split.
  - intros ([h t'] & -> & Hin)%list_elem_of_fmap. destruct (H2 h t' Hin) as (rq' & Ht' & _ & Hr'). cbn [snd] in *. congruence.
  - destruct (sys_responses s !! t) as [msgs|] eqn:Hm; [|done]. destruct (H3 t msgs Hm) as (rq' & Ht' & Hr'). congruence.
Qed.

(** A request answers itself and returns. *)
Lemma resp_finish s t rq r :
  resp_inv s → sys_requests s !! t = Some rq → returned (rq_pc rq) = false → justified (sys_DB s) (rq_hash rq) r →
  resp_inv (finish t rq r s).
Proof.
  intros Hinv Ht Hret Hj. destruct (not_returned _ _ _ Hinv Ht Hret) as [Hn Hnone]. destruct Hinv as [H1 H2 H3 H4 H5 H6].
  destruct (mail_post (t :: (listeners (sys_Pending s)).*2) (listeners (sys_Pending s)).*2 [t] [(t, r)] _ (mail_new _ _ t Hn Hnone H1))
    as (Hm & Hsent & Hother); [done|done|].
  assert (post [(t, r)] (sys_responses s) !! t = Some [r]) as Hpost.
  { destruct (Hsent t) as (m & Hin & Hp); [by left|]. apply list_elem_of_singleton in Hin. injection Hin as ->. done. }
  assert (∀ t', t' ≠ t → post [(t, r)] (sys_responses s) !! t' = sys_responses s !! t') as Hne
    by (intros t' Hn'; apply Hother; by rewrite list_elem_of_singleton).
  split; cbn [finish goto with_pending sys_Pending sys_responses sys_requests sys_DB sys_ticker fst snd]; [done|..|done].
  - intros h t' Hin. destruct (H2 h t' Hin) as (rq' & Ht' & Hh & Hr'). exists rq'. rewrite lookup_insert_ne; [done|]. intros <-. congruence.
  - intros t' msgs Hmsg. destruct (decide (t' = t)) as [->|Hn']; [eexists; split; [apply lookup_insert_eq|done]|].
    rewrite lookup_insert_ne by done. apply (H3 t' msgs). by rewrite <- Hne.
  - intros t' rq' [[<- <-]|[Hn' Ht']]%lookup_insert_Some Hr'; [left; by exists r|]. rewrite Hne by done. by apply H4.
  - intros t' rq' r' [[<- <-]|[Hn' Ht']]%lookup_insert_Some; [rewrite Hpost; by intros [= <-]|]. rewrite Hne by done. by apply H5.
Qed.

(** A request listens and returns. *)
Lemma resp_add now s t rq :
  resp_inv s → sys_requests s !! t = Some rq → returned (rq_pc rq) = false →
  resp_inv (goto t rq PAdvance (with_pending (Add now (sys_Pending s) (rq_hash rq) t, []) s)).
Proof.
  intros Hinv Ht Hret. destruct (not_returned _ _ _ Hinv Ht Hret) as [Hn Hnone]. destruct Hinv as [H1 H2 H3 H4 H5 H6].
  assert (∃ new, listeners (Add now (sys_Pending s) (rq_hash rq) t) ≡ₚ new ++ listeners (sys_Pending s) ∧
    (new = [(rq_hash rq, t)] ∨ new = [] ∧ length (rq_hash rq) ≠ 64%nat)) as (new & Hp & Hnew).
  { destruct (decide (length (rq_hash rq) = 64%nat)) as [E|E].
    - exists [(rq_hash rq, t)]. split; [by apply listeners_Add|by left].
    - exists []. split; [|by right]. unfold Add. by apply Nat.eqb_neq in E as ->. }
  split; cbn [goto with_pending sys_Pending sys_responses sys_requests sys_DB sys_ticker fst snd post foldl]; [|..|done].
  - rewrite Hp, fmap_app. destruct Hnew as [->|[-> _]]; [by apply mail_new|done].
  - intros h t'. rewrite Hp, elem_of_app. intros [Hin|Hin].
    + destruct Hnew as [->|[-> _]]; [|by apply not_elem_of_nil in Hin]. apply list_elem_of_singleton in Hin as [= -> ->].
      eexists. split; [apply lookup_insert_eq|done].
    + destruct (H2 h t' Hin) as (rq' & Ht' & Hh & Hr'). exists rq'. rewrite lookup_insert_ne; [done|]. intros <-. congruence.
  - intros t' msgs Hm. destruct (H3 t' msgs Hm) as (rq' & Ht' & Hr'). exists rq'. rewrite lookup_insert_ne; [done|]. intros <-. congruence.
  - intros t' rq' [[<- <-]|[Hn' Ht']]%lookup_insert_Some Hr'; cbn [rq_hash].
    + right. destruct Hnew as [->|[_ E]]; [left|by right]. rewrite Hp. by left.
    + destruct (H4 t' rq' Ht' Hr') as [?|[?|?]]; [by left|right; left; rewrite Hp, elem_of_app; by right|auto].
  - intros t' rq' r' [[<- <-]|[Hn' Ht']]%lookup_insert_Some; [congruence|by apply H5].
Qed.

(** Listeners are answered and removed. *)
Lemma resp_answer s l sent gone :
  resp_inv s → listeners (sys_Pending s) ≡ₚ gone ++ listeners l → answered gone sent →
  (∀ t r, (t, r) ∈ sent → ∃ h, (h, t) ∈ gone ∧ justified (sys_DB s) h r) →
  resp_inv (with_pending (l, sent) s).
Proof.
  intros [H1 H2 H3 H4 H5 H6] Hp Ha Hj.
  assert ((listeners (sys_Pending s)).*2 ≡ₚ gone.*2 ++ (listeners l).*2) as Hp2 by (by rewrite Hp, fmap_app).
  destruct (mail_post _ _ _ sent _ H1 Hp2 ltac:(by rewrite Ha)) as (Hm & Hsent & Hother).
  assert (∀ h t, (h, t) ∈ gone → (h, t) ∈ listeners (sys_Pending s)) as Hgone by (intros h t Hin; rewrite Hp, elem_of_app; by left).
  split; cbn [with_pending sys_Pending sys_responses sys_requests sys_DB sys_ticker fst snd]; [done|..|done].
  - intros h t Hin. apply H2. rewrite Hp, elem_of_app. by right.
  - intros t msgs Hmsg. destruct (decide (t ∈ gone.*2)) as [Hin|Hni]; [|by apply (H3 t msgs); rewrite <- Hother].
    apply list_elem_of_fmap in Hin as ([h t'] & -> & Hin). destruct (H2 h t' (Hgone _ _ Hin)) as (rq & ? & _ & ?). eauto.
  - intros t rq Ht Hret. destruct (H4 t rq Ht Hret) as [[r Hr]|[Hin|?]]; [|rewrite Hp, elem_of_app in Hin; destruct Hin as [Hin|Hin]|auto].
    + left. exists r. rewrite Hother; [done|]. intros ([h t'] & -> & Hin)%list_elem_of_fmap. destruct H1 as [_ Hbox].
      destruct (Hbox _ _ Hr) as [Hn _]. apply Hn. by apply (list_elem_of_fmap_2 snd _ (h, t')), Hgone.
    + left. destruct (Hsent t) as (r & _ & Hr); [by apply (list_elem_of_fmap_2 snd _ (rq_hash rq, t))|]. by exists r.
    + auto.
  - intros t rq r Ht Hr. destruct (decide (t ∈ gone.*2)) as [Hin|Hni]; [|apply (H5 t); [done|by rewrite <- Hother]].
    destruct (Hsent t Hin) as (r' & Hin' & Hr'). rewrite Hr in Hr'. injection Hr' as <-. destruct (Hj t r Hin') as (h & Hh & Hjust).
    destruct (H2 h t (Hgone _ _ Hh)) as (rq' & Ht' & <- & _). rewrite Ht in Ht'. by injection Ht' as <-.
Qed.

(** ** Every step keeps the invariants *)

Lemma chan_goto s t rq p s0 :
  sys_requests s !! t = Some rq → waiting_on p = None ∨ waiting_on p = waiting_on (rq_pc rq) →
  SubmissionQueue s0 = SubmissionQueue s → sys_channels s0 = sys_channels s → sys_next s0 = sys_next s → sys_requests s0 = sys_requests s →
  chan_inv s → chan_inv (goto t rq p s0).
Proof. intros Ht Hp Hq Hc Hn Hr. apply chan_frame; [done..|]. by apply fewer_goto. Qed.
Lemma chan_same s s0 :
  SubmissionQueue s0 = SubmissionQueue s → sys_channels s0 = sys_channels s → sys_next s0 = sys_next s → sys_requests s0 = sys_requests s →
  chan_inv s → chan_inv s0.
Proof. intros Hq Hc Hn Hr. apply chan_frame; [done..|]. intros t rq ch. rewrite Hr. eauto. Qed.

Lemma chan_request_step t rq e s s' :
  sys_requests s !! t = Some rq → request_step t rq e s = Some s' → chan_inv s → chan_inv s'.
Proof.
  intros Ht Hs Hinv. destruct e, (rq_pc rq) eqn:Hpc; cbn [request_step] in Hs; rewrite ?Hpc in Hs; try discriminate Hs.
  - destruct (checkTxAlreadyExists _ _ _ _ _ _); injection Hs as <-; apply (chan_goto s); auto.
  - injection Hs as <-. apply chan_push; [done|by rewrite Hpc|done].
  - injection Hs as <-. eapply (chan_goto (with_queue _ s)); [exact Ht|right; by rewrite Hpc|done..|]. by apply chan_update.
  - destruct (sys_channels s !! seq) as [[|msg msgs]|] eqn:Hch; [done| |done]. assert (waiting_on (rq_pc rq) = Some seq) as Hw by (by rewrite Hpc).
    destruct msg as [[]|]; injection Hs as <-;
      [by apply (chan_receive s _ t rq PReturned seq _ Ht Hw eq_refl Hch)..|by apply (chan_receive s _ t rq PSubmit seq _ Ht Hw eq_refl Hch)].
  - injection Hs as <-. apply (chan_goto s); auto.
  - destruct polled; [|done]. injection Hs as <-. apply (chan_goto s); auto.
  - destruct (Submit cresp) as [err|]; [destruct (IsBadSeq err) as [[]| |]|]; injection Hs as <-; [apply (chan_goto s); auto..|done|apply (chan_goto s); auto].
  - injection Hs as <-. apply (chan_goto s); auto.
  - injection Hs as <-. eapply (chan_goto (with_queue _ s)); [exact Ht|by left|done..|]. by apply chan_update.
  - destruct (negb fetch && _); injection Hs as <-; apply (chan_goto s); auto.
  - injection Hs as <-. apply (chan_goto s); auto.
Qed.

Lemma chan_tick_step e s s' : tick_step e s = Some s' → chan_inv s → chan_inv s'.
Proof.
  intros Hs Hinv. destruct e; try discriminate Hs; cbn [tick_step] in Hs; destruct (sys_ticker s) as [|db|db curSeq|db|db hashes]; try discriminate Hs.
  - destruct begin; injection Hs as <-; [done|by apply (chan_same s)].
  - by injection Hs as <-.
  - by injection Hs as <-.
  - by injection Hs as <-.
  - by injection Hs as <-.
  - destruct (Addresses _); [|destruct fetch]; injection Hs as <-; by apply (chan_same s).
  - injection Hs as <-. eapply (chan_same (with_queue _ s)); [done..|]. by apply chan_update.
  - injection Hs as <-. by apply (chan_same s).
  - destruct hashes as [|hash hashes]; [done|]. destruct (Err _) as [[]|]; injection Hs as <-; by apply (chan_same s).
  - destruct hashes as [|hash hashes]; [|done]. injection Hs as <-. by apply (chan_same s).
Qed.

Lemma resp_goto s t rq p s0 :
  resp_inv s → sys_requests s !! t = Some rq → returned p = returned (rq_pc rq) →
  sys_Pending s0 = sys_Pending s → sys_responses s0 = sys_responses s → sys_DB s0 = sys_DB s → sys_ticker s0 = sys_ticker s →
  sys_requests s0 = sys_requests s → resp_inv (goto t rq p s0).
Proof.
  intros Hinv Ht Hp H1 H2 H3 H4 H5. apply (resp_frame s); cbn; [done|done|by rewrite H3|rewrite H4; auto|by apply same_goto|done].
Qed.
Lemma resp_same s s0 :
  sys_Pending s0 = sys_Pending s → sys_responses s0 = sys_responses s → sys_DB s0 = sys_DB s → sys_requests s0 = sys_requests s →
  (∀ db, snapshot (sys_ticker s0) = Some db → snapshot (sys_ticker s) = Some db ∨ db = sys_DB s) → resp_inv s → resp_inv s0.
Proof. intros H1 H2 H3 H4 Hk. apply resp_frame; [done|done|by rewrite H3|by rewrite H3|by apply same_refl]. Qed.

Lemma resp_request_step t rq e s s' :
  sys_requests s !! t = Some rq → request_step t rq e s = Some s' → resp_inv s → resp_inv s'.
Proof.
  intros Ht Hs Hinv. destruct e, (rq_pc rq) eqn:Hpc; cbn [request_step] in Hs; rewrite ?Hpc in Hs; try discriminate Hs;
    assert (returned (rq_pc rq) = returned (rq_pc rq)) as Hret by done; rewrite Hpc in Hret at 2; cbn [returned] in Hret.
  - destruct (checkTxAlreadyExists _ _ _ _ _ _) as [r|num] eqn:Hc; injection Hs as <-;
      [apply resp_finish; [done..|by eapply checkTxAlreadyExists_justified]|by apply (resp_goto s)].
  - injection Hs as <-. by apply (resp_goto s).
  - injection Hs as <-. by apply (resp_goto s).
  - destruct (sys_channels s !! seq) as [[|msg msgs]|] eqn:Hch; [done| |done].
    assert (resp_inv (received seq s)) as Hinv' by (apply (resp_same s); auto).
    destruct msg as [[]|]; injection Hs as <-; [by apply resp_finish..|]. by apply (resp_goto s).
  - injection Hs as <-. by apply resp_finish.
  - destruct polled; [|done]. injection Hs as <-. by apply resp_finish.
  - destruct (Submit cresp) as [err|]; [destruct (IsBadSeq err) as [[]| |]|]; injection Hs as <-;
      [by apply (resp_goto s)|by apply resp_finish..|done|by apply (resp_goto s)].
  - injection Hs as <-. by apply resp_add.
  - injection Hs as <-. by apply (resp_goto s).
  - destruct (negb fetch && _); injection Hs as <-; by apply (resp_goto s).
  - injection Hs as <-. apply resp_finish; [done..|]. pose proof (txResultByHash_justified (sys_DB s) lookup (rq_hash rq)) as Hj.
    by destruct (Err _).
Qed.

Lemma resp_tick_step e s s' : tick_step e s = Some s' → resp_inv s → resp_inv s'.
Proof.
  intros Hs Hinv. destruct e; try discriminate Hs; cbn [tick_step] in Hs; destruct (sys_ticker s) as [|db|db curSeq|db|db hashes] eqn:Hk; try discriminate Hs.
  - destruct begin; injection Hs as <-; [done|]. apply (resp_same s); [done..| |done]. intros db [= <-]. by right.
  - by injection Hs as <-.
  - by injection Hs as <-.
  - by injection Hs as <-.
  - by injection Hs as <-.
  - destruct (Addresses _); [|destruct fetch]; injection Hs as <-; (apply (resp_same s); [done..| |done]; rewrite Hk; auto). done.
  - injection Hs as <-. apply (resp_same s); [done..| |done]. rewrite Hk. auto.
  - injection Hs as <-. apply (resp_same s); [done..| |done]. rewrite Hk. auto.
  - destruct hashes as [|hash hashes]; [done|]. set (r := txResultByHash db lookup hash) in *.
    assert (justified (sys_DB s) hash r) as Hj.
    { eapply justified_mono; [|apply txResultByHash_justified]. apply (ri_snapshot _ Hinv). by rewrite Hk. }
    assert (resp_inv (with_pending (Finish (sys_Pending s) hash r) s)) as Hfin.
    { destruct (listeners_Finish (sys_Pending s) hash r) as (gone & Hp & Ha & Hr). destruct (Finish _ _ _) as [l sent].
      apply (resp_answer s l sent gone Hinv Hp Ha). intros t r' Hin. destruct (Hr t r' Hin) as [-> Hin']. by exists hash. }
    assert (∀ s0, sys_DB s0 = sys_DB s → resp_inv s0 → resp_inv (with_ticker (TFinish db hashes) s0)) as Hstep.
    { intros s0 Hdb H0. split; [apply H0|apply H0|apply H0|apply H0|apply H0|]. intros db' [= <-]. cbn. rewrite Hdb.
      apply (ri_snapshot _ Hinv). by rewrite Hk. }
    destruct (Err r) as [[]|]; injection Hs as <-; by apply Hstep.
  - destruct hashes as [|hash hashes]; [|done]. injection Hs as <-.
    destruct (listeners_Clean now (sys_Pending s) SubmissionTimeout) as (gone & Hp & Ha & Hr).
    destruct (Clean _ _ _) as [l sent].
    assert (resp_inv (with_pending (l, sent) s)) as [H1 H2 H3 H4 H5 H6]; [|by split].
    apply (resp_answer s l sent gone Hinv Hp Ha). intros t r Hin. rewrite (Hr t r Hin).
    assert (t ∈ gone.*2) as ([h t'] & -> & Hg)%list_elem_of_fmap by (rewrite <- Ha; by apply (list_elem_of_fmap_2 fst _ (t, r))).
    exists h. split; [done|apply failure_justified].
Qed.

Definition sys_inv (s : System) : Prop := chan_inv s ∧ resp_inv s.

Lemma sys_inv_new db : sys_inv (NewSystem db).
Proof.
  split; split; cbn; try done; try apply mail_empty.
  - intros ch [Hin|[? Hin]]; [by apply not_elem_of_nil in Hin|by rewrite lookup_empty in Hin].
  - intros h t Hin. by apply not_elem_of_nil in Hin.
Qed.

Lemma sys_inv_step s e s' : step s e = Some s' → sys_inv s → sys_inv s'.
Proof.
  intros Hs [Hc Hr].
  assert (∀ t, event_request e = Some t → sys_requests s !! t ≫= (λ rq, request_step t rq e s) = Some s' → sys_inv s') as Hreq.
  { intros t _ Hb. destruct (sys_requests s !! t) as [rq|] eqn:Ht; [|done]. split; [by eapply chan_request_step|by eapply resp_request_step]. }
  assert (tick_step e s = Some s' → sys_inv s') as Htick by (intros Hb; split; [by eapply chan_tick_step|by eapply resp_tick_step]).
  destruct e; cbn [step event_request] in Hs; [|first [by apply Htick|eapply Hreq; [reflexivity|exact Hs]]..].
  destruct (sys_requests s !! t) eqn:Ht; [done|]. injection Hs as <-. split.
  - apply (chan_frame s); [done..| |done]. intros t' rq' ch. cbn [goto sys_requests].
    intros [[<- <-]|[_ Hl]]%lookup_insert_Some Hw; [done|eauto].
  - apply (resp_frame s); [done|done|done|auto| |done]. split; cbn [goto sys_requests].
    + intros t' rq Ht'. exists rq. rewrite lookup_insert_ne; [done|congruence].
    + intros t' rq' [[<- <-]|[_ Hl]]%lookup_insert_Some; [by right|left; eauto].
Qed.

Lemma sys_inv_reachable s : reachable s → sys_inv s.
Proof.
  intros (db & Hs). pose proof (sys_inv_new db) as Hinv. induction Hs as [|s1 s2 s3 Ht _ IH]; [done|]. apply IH. destruct Ht as [s e s' Hs|s db' Hdb].
  - by eapply sys_inv_step.
  - destruct Hinv as [Hc Hr]. split; [by apply (chan_same s)|]. apply (resp_frame s); [done|done|done|auto|by apply same_refl|done].
Qed.

(** ** Properties *)

(** C23: whatever the interleaving of requests, ticks and ingestion and whatever
    fails, the channel of a request gets at most one result, and none while the
    request runs; once [Submit] has returned it has its result, or it is one of
    the listeners of its hash, not both (only a hash of another length than 64 is
    lost).  A result without an error is a successful transaction of the database
    under that hash. *)
Theorem Submit_answers_once s t rq :
  reachable s → sys_requests s !! t = Some rq →
  (∀ msgs, sys_responses s !! t = Some msgs → (length msgs ≤ 1)%nat) ∧
  (returned (rq_pc rq) = false → sys_responses s !! t = None ∧ ∀ h, (h, t) ∉ listeners (sys_Pending s)) ∧
  (returned (rq_pc rq) = true →
    (∃ r, sys_responses s !! t = Some [r] ∧ justified (sys_DB s) (rq_hash rq) r) ∨ (rq_hash rq, t) ∈ listeners (sys_Pending s) ∨
    length (rq_hash rq) ≠ 64%nat) ∧
  ((∃ h, (h, t) ∈ listeners (sys_Pending s)) → sys_responses s !! t = None).
Proof.
  intros [_ Hinv]%sys_inv_reachable Ht. pose proof (ri_mail _ Hinv) as [_ Hbox]. split; [intros msgs Hm; by apply (Hbox t)|]. split; [|split].
  - intros Hret. destruct (not_returned _ _ _ Hinv Ht Hret) as [Hn ?]. split; [done|]. intros h Hin. apply Hn.
    by apply (list_elem_of_fmap_2 snd _ (h, t)).
  - intros Hret. destruct (ri_returned _ Hinv t rq Ht Hret) as [[r Hr]|[?|?]]; [left|auto..]. exists r. split; [done|]. by apply (ri_justified _ Hinv t).
  - intros [h Hin]. destruct (sys_responses s !! t) as [msgs|] eqn:Hm; [|done]. destruct (Hbox t msgs Hm) as [Hn _].
    destruct Hn. by apply (list_elem_of_fmap_2 snd _ (h, t)).
Qed.

(** no wake-up is lost: a request that waits for its turn is in the queue of
    its account under its sequence number, or the one message for it is already
    in its channel; no two requests wait on the same channel; and the manager
    holds no more submissions than it may. *)
Theorem waiting_is_queued s t rq ch :
  reachable s → sys_requests s !! t = Some rq → rq_pc rq = PSelect ch →
  ((∃ q, queues (SubmissionQueue s) !! rq_sourceAddress rq = Some q ∧ MkItem (rq_SeqNum rq) ch ∈ queue q) ∨
   ∃ msg, sys_channels s !! ch = Some [msg]) ∧
  (∀ t' rq', sys_requests s !! t' = Some rq' → rq_pc rq' = PSelect ch → t' = t) ∧
  size (SubmissionQueue s) ≤ MaxSize (SubmissionQueue s).
Proof.
  intros [Hinv _]%sys_inv_reachable Ht Hpc. assert (waiting_on (rq_pc rq) = Some ch) as Hw by (by rewrite Hpc).
  destruct (ci_waits _ Hinv t rq ch Ht Hw) as [_ Hcase]. rewrite elem_of_entries in Hcase. split; [done|]. split; [|apply (ci_size _ Hinv)].
  intros t' rq' Ht' Hpc'. eapply (ci_apart _ Hinv t' t rq' rq ch); [done..|by rewrite Hpc'|done].
Qed.

(** *** A tick *)

Definition decided (r : Result) : bool := match Err r with None | Some (FailedTransactionError _) => true | Some _ => false end.
Definition tick_events (now : Z) (s : System) : list event :=
  [EvTick false; EvTickSequences false] ++
  (match Addresses (SubmissionQueue s) with [] => [] | _ => [EvTickUpdate now] end) ++
  EvTickPending :: replicate (length (Pending (sys_Pending s))) (EvTickFinish false) ++ [EvTickClean now].

Lemma events_app s es es' s' : run s es = Some s' → run s (es ++ es') = run s' es'.
Proof. unfold run. intros H. by rewrite foldl_app, H. Qed.
Lemma events_cons s e es s' : step s e = Some s' → run s (e :: es) = run s' es.
Proof. intros H. unfold run. cbn [foldl mbind option_bind]. by rewrite H. Qed.

(** What [Pending] answers and keeps. *)
Lemma Finish_keeps (l : submissionList) (h h' : gostring) (r : Result) : h ≠ h' → (Finish l h r).1 !! h' = l !! h'.
Proof. intros Hn. unfold Finish. destruct (l !! h); [|done]. by apply lookup_delete_ne. Qed.

Lemma elem_of_listeners (l : submissionList) (h : gostring) (t : nat) : (h, t) ∈ listeners l ↔ ∃ os, l !! h = Some os ∧ t ∈ Listeners os.
Proof.
  unfold listeners. rewrite elem_of_concat. split.
  - intros (x & ([h' os] & -> & Hin)%list_elem_of_fmap & Hx). cbn [fst snd] in Hx. apply list_elem_of_fmap in Hx as (t' & [= -> ->] & Ht).
    exists os. by rewrite elem_of_map_to_list in Hin.
  - intros (os & Hl & Ht). exists (pair h <$> Listeners os). split; [|by apply list_elem_of_fmap_2].
    apply list_elem_of_fmap. exists (h, os). by rewrite elem_of_map_to_list.
Qed.

(** Sending to some listeners leaves the results of others, and each of them gets
    what it is sent. *)
Lemma with_pending_answers s l sent gone :
  resp_inv s → listeners (sys_Pending s) ≡ₚ gone ++ listeners l → answered gone sent →
  (∀ t msgs, sys_responses s !! t = Some msgs → sys_responses (with_pending (l, sent) s) !! t = Some msgs) ∧
  (∀ t r, (t, r) ∈ sent → sys_responses (with_pending (l, sent) s) !! t = Some [r]).
Proof.
  intros Hinv Hp Ha. pose proof (ri_mail _ Hinv) as Hmail.
  assert ((listeners (sys_Pending s)).*2 ≡ₚ gone.*2 ++ (listeners l).*2) as Hp2 by (by rewrite Hp, fmap_app).
  destruct (mail_post _ _ _ sent _ Hmail Hp2 ltac:(by rewrite Ha)) as (_ & _ & Hother). destruct Hmail as [Hnd Hbox]. cbn [with_pending sys_responses fst snd].
  assert (∀ t, t ∈ gone.*2 → sys_responses s !! t = None) as Hnone.
  { intros t Hin. destruct (sys_responses s !! t) as [msgs|] eqn:Hm; [|done]. destruct (Hbox t msgs Hm) as [Hn _]. destruct Hn.
    rewrite Hp2, elem_of_app. by left. }
  split.
  - intros t msgs Hm. rewrite Hother; [done|]. intros Hin. rewrite (Hnone t Hin) in Hm. done.
  - intros t r Hin. apply post_sent; [rewrite Ha|done|].
    + rewrite Hp2 in Hnd. by apply NoDup_app in Hnd as [? _].
    + apply Hnone. rewrite <- Ha. by apply (list_elem_of_fmap_2 fst _ (t, r)).
Qed.

(** The loop over the pending hashes *)
Lemma tick_finish db hashes s :
  resp_inv s → sys_ticker s = TFinish db hashes → NoDup hashes →
  ∃ s', run s (replicate (length hashes) (EvTickFinish false)) = Some s' ∧ resp_inv s' ∧ sys_ticker s' = TFinish db [] ∧
    sys_requests s' = sys_requests s ∧
    (∀ h, sys_Pending s' !! h = if decide (h ∈ hashes ∧ decided (txResultByHash db false h) = true) then None else sys_Pending s !! h) ∧
    (∀ t msgs, sys_responses s !! t = Some msgs → sys_responses s' !! t = Some msgs) ∧
    (∀ h os t, h ∈ hashes → decided (txResultByHash db false h) = true → sys_Pending s !! h = Some os → t ∈ Listeners os →
       sys_responses s' !! t = Some [txResultByHash db false h]).
Proof.
  revert s. induction hashes as [|hash hashes IH]; intros s Hinv Hk Hnd.
  { exists s. do 4 (split; [done|]). split; [|split; [done|]].
    - intros h. rewrite decide_False; [done|]. intros [Hin _]. by apply not_elem_of_nil in Hin.
    - intros h os t Hin. by apply not_elem_of_nil in Hin. }
  apply NoDup_cons in Hnd as [Hnin Hnd]. set (r := txResultByHash db false hash).
  set (s1 := with_ticker (TFinish db hashes) (if decided r then with_pending (Finish (sys_Pending s) hash r) s else s)).
  assert (step s (EvTickFinish false) = Some s1) as Hstep.
  { cbn [step event_request tick_step]. rewrite Hk. fold r. unfold s1, decided. by destruct (Err r) as [[]|]. }
  assert (resp_inv s1) as Hinv1 by (by apply (resp_tick_step (EvTickFinish false) s)).
  assert (sys_requests s1 = sys_requests s) as Hreq by (unfold s1; by destruct (decided r)).
  assert (∀ h, sys_Pending s1 !! h = if decide (h = hash ∧ decided r = true) then None else sys_Pending s !! h) as Hpend.
  { intros h. unfold s1. destruct (decided r); cbn [with_ticker with_pending sys_Pending].
    - destruct (decide (h = hash ∧ true = true)) as [[-> _]|Hn].
      + unfold Finish. destruct (sys_Pending s !! hash) eqn:E; [apply lookup_delete_eq|done].
      + apply Finish_keeps. intros <-. by apply Hn.
    - rewrite decide_False; [done|]. by intros [_ ?]. }
  assert ((∀ t msgs, sys_responses s !! t = Some msgs → sys_responses s1 !! t = Some msgs) ∧
    (decided r = true → ∀ os t, sys_Pending s !! hash = Some os → t ∈ Listeners os → sys_responses s1 !! t = Some [r])) as [Hkeep Hnew].
  { unfold s1. destruct (decided r); [|done]. destruct (listeners_Finish (sys_Pending s) hash r) as (gone & Hp & Ha & _).
    destruct (Finish (sys_Pending s) hash r) as [l sent] eqn:Hf. destruct (with_pending_answers s l sent gone Hinv Hp Ha) as [H1 H2].
    split; [exact H1|]. intros _ os t Hos Ht. apply H2. unfold Finish in Hf. rewrite Hos in Hf. injection Hf as <- <-.
    by apply (list_elem_of_fmap_2 (λ l, (l, r))). }
  destruct (IH s1 Hinv1 eq_refl Hnd) as (s' & Hrun & Hinv' & Hk' & Hreq' & Hpend' & Hkeep' & Hnew').
  exists s'. split; [cbn [length replicate]; by rewrite (events_cons _ _ _ _ Hstep)|]. split; [done|]. split; [done|]. split; [congruence|].
  split; [|split; [auto|]].
  - intros h. rewrite Hpend', Hpend. unfold r.
    destruct (decide (h ∈ hashes ∧ _)) as [[Hin Hd]|Hn1]; [by rewrite decide_True by (rewrite elem_of_cons; auto)|].
    destruct (decide (h = hash ∧ _)) as [[-> Hd]|Hn2]; [by rewrite decide_True by (rewrite elem_of_cons; auto)|].
    rewrite decide_False; [done|]. rewrite elem_of_cons. intros [[->|Hin] Hd]; [by apply Hn2|by apply Hn1].
  - intros h os t [->|Hin]%elem_of_cons Hd Hos Ht; [apply Hkeep'; by apply (Hnew Hd os)|].
    apply (Hnew' h os); [done..| |done]. rewrite Hpend, decide_False; [done|]. intros [-> _]. done.
Qed.

(** C24: a tick whose queries succeed answers every listener of a transaction that
    the database holds, with its result, and every other one of a submission that
    is older than the timeout; the others go on listening. *)
Theorem Tick_answers now s :
  reachable s → sys_ticker s = TIdle →
  ∃ s', run s (tick_events now s) = Some s' ∧ sys_ticker s' = TIdle ∧ sys_requests s' = sys_requests s ∧
    ∀ h os t, sys_Pending s !! h = Some os → t ∈ Listeners os →
      let r := txResultByHash (sys_DB s) false h in
      if decided r then sys_responses s' !! t = Some [r]
      else if too_old now SubmissionTimeout os then sys_responses s' !! t = Some [failure ErrTimeout]
      else sys_Pending s' !! h = Some os.
Proof.
  intros [_ Hinv]%sys_inv_reachable Hk. set (db := sys_DB s). unfold tick_events.
  assert (∃ s1, run s ([EvTick false; EvTickSequences false] ++
    (match Addresses (SubmissionQueue s) with [] => [] | _ => [EvTickUpdate now] end) ++ [EvTickPending]) = Some s1 ∧ resp_inv s1 ∧
    sys_ticker s1 = TFinish db (Pending (sys_Pending s)) ∧ sys_Pending s1 = sys_Pending s ∧ sys_responses s1 = sys_responses s ∧
    sys_requests s1 = sys_requests s) as (s1 & Hrun1 & Hinv1 & Hk1 & Hp1 & Hr1 & Hq1).
  { set (f q := with_ticker (TFinish db (Pending (sys_Pending s))) (with_queue q s)).
    assert (∀ q, resp_inv (f q)) as Hf.
    { intros q. apply (resp_same s); [done..| |done]. cbn. intros db' [= <-]. by right. }
    exists (match Addresses (SubmissionQueue s) with [] => f (SubmissionQueue s, [])
            | a => f (Update now (SubmissionQueue s) (GetSequenceNumbers db a)) end).
    split; [|by destruct (Addresses (SubmissionQueue s))]. cbn [app].
    rewrite (events_cons _ _ _ (with_ticker (TSequences db) s)) by (cbn [step event_request tick_step]; by rewrite Hk).
    destruct (Addresses (SubmissionQueue s)) as [|a addys] eqn:Ha; cbn [app].
    - rewrite (events_cons _ _ _ (with_ticker (TPending db) s)) by (cbn; by rewrite Ha). done.
    - rewrite (events_cons _ _ _ (with_ticker (TUpdate db (GetSequenceNumbers db (a :: addys))) s)) by (cbn [step event_request tick_step sys_ticker with_ticker SubmissionQueue]; by rewrite Ha).
      done. }
  destruct (tick_finish db (Pending (sys_Pending s)) s1 Hinv1 Hk1) as (s2 & Hrun2 & Hinv2 & Hk2 & Hq2 & Hp2 & Hkeep & Hnew).
  { apply NoDup_fst_map_to_list. }
  destruct (listeners_Clean now (sys_Pending s2) SubmissionTimeout) as (gone & Hp & Ha & _).
  destruct (Clean now (sys_Pending s2) SubmissionTimeout) as [l sent] eqn:Hc.
  destruct (with_pending_answers s2 l sent gone Hinv2 Hp Ha) as [Hk3 Hn3].
  exists (with_ticker TIdle (with_pending (l, sent) s2)). split; [|split; [done|split; [cbn; congruence|]]].
  - replace (_ ++ _ ++ EvTickPending :: _) with
      (([EvTick false; EvTickSequences false] ++ (match Addresses (SubmissionQueue s) with [] => [] | _ => [EvTickUpdate now] end) ++ [EvTickPending]) ++
       replicate (length (Pending (sys_Pending s))) (EvTickFinish false) ++ [EvTickClean now]) by (by rewrite <- !app_assoc).
    rewrite (events_app _ _ _ _ Hrun1), (events_app _ _ _ _ Hrun2), (events_cons _ _ _ (with_ticker TIdle (with_pending (l, sent) s2))); [done|].
    cbn [step event_request tick_step]. by rewrite Hk2, Hc.
  - intros h os t Hos Ht. cbv zeta. assert (h ∈ Pending (sys_Pending s)) as Hin.
    { apply list_elem_of_fmap. exists (h, os). by rewrite elem_of_map_to_list. }
    fold db. destruct (decided (txResultByHash db false h)) eqn:Hd.
    { apply Hk3. apply (Hnew h os); [done..|by rewrite Hp1|done]. }
    assert (sys_Pending s2 !! h = Some os) as Hos2 by (rewrite Hp2, decide_False, Hp1; [done|by intros [_ ?]; congruence]).
    unfold Clean in Hc. injection Hc as <- <-. destruct (too_old now SubmissionTimeout os) eqn:Hold.
    + apply Hn3. apply elem_of_concat. exists (answer_all (failure ErrTimeout) os). split; [|by apply (list_elem_of_fmap_2 (λ l, (l, _)))].
      apply list_elem_of_fmap. exists (h, os). split; [done|]. apply list_elem_of_filter. split; [done|]. by rewrite elem_of_map_to_list.
    + cbn [with_ticker with_pending sys_Pending fst]. by apply map_lookup_filter_Some.
Qed.
End txsub.

(** ** Examples

    Account [A] is at number 6.  Request 0 submits number 7, which hcnet-core
    accepts; request 1 submits number 9 and waits.  Then the transaction of
    request 0 is ingested and a tick answers it. *)
Section Example_txsub.
Let codec : ResultCodec := {| UnmarshalResult s := if bool_decide (s = str "ok") then Some (TxSuccess []) else None |}.
#[local] Existing Instance codec.
Let A : MuxedAccount := KeyTypeEd25519 (replicate 32 1).
Let envelope (seq : Z) : TransactionEnvelope := EnvelopeTypeTx (MkTransaction A 100 seq None MemoNone []) [].
Let A_row : AccountRow := MkAccountRow (address (ToAccountId A)) 0 0 0 6 0 [] [] 0 1 0 0 0 1 None 0 0.
Let hash (c : Z) : gostring := replicate 64 c.
Let row : TransactionRow :=
  MkTransactionRow 1 (hash 97) 1 1 [] [] 100 100 0 [] (str "ok") [] [] [] [] None (MkBounds true None None) true None None None None.
Let db0 : DB := MkDB ∅ {[ address (ToAccountId A) := A_row ]}.
Let db1 : DB := MkDB {[ 1 := row ]} {[ address (ToAccountId A) := A_row ]}.
Let pending : TXResponse := MkTXResponse [] [] TXStatusPending.
Let events : list event :=
  [EvRequest 0 (envelope 7) (hash 97); EvCheck 0 false false false; EvPush 0 10; EvUpdate 0 11; EvReceive 0; EvSubmit 0 (Some pending);
   EvAdd 0 12; EvAdvance 0 13; EvRequest 1 (envelope 9) (hash 98); EvCheck 1 false false false; EvPush 1 14; EvUpdate 1 15].
Let s0 : System := default (NewSystem db0) (run (NewSystem db0) events).
Let s1 : System := with_DB db1 s0.

Lemma run_transitions (s : System) es s' : run s es = Some s' → rtc transition s s'.
Proof.
  revert s. induction es as [|e es IH]; intros s; [intros [= <-]; done|]. unfold run. cbn [foldl mbind option_bind].
  destruct (step s e) as [s''|] eqn:Hs; [intros Hr; eapply rtc_l; [by eapply Transition_step|by apply IH]|].
  intros Hr. exfalso. clear - Hr. induction es; [done|auto].
Qed.
Lemma s0_runs : bool_decide (is_Some (run (NewSystem db0) events)) = true.
Proof. vm_compute. reflexivity. Qed.
Lemma s0_reachable : reachable s0.
Proof.
  exists db0. apply (run_transitions _ events). destruct (bool_decide_eq_true_1 _ s0_runs) as [s Hs].
  change s0 with (default (NewSystem db0) (run (NewSystem db0) events)). by rewrite Hs.
Qed.
Lemma s1_reachable : reachable s1.
Proof.
  destruct s0_reachable as [db Hs]. exists db. eapply rtc_r; [exact Hs|]. apply Transition_ingest.
  assert (db_transactions (sys_DB s0) = ∅) as -> by (vm_compute; reflexivity). apply map_empty_subseteq.
Qed.

Theorem Submit_answers_once_witness : sys_responses s0 !! 0%nat = None.
Proof.
  destruct (Submit_answers_once s0 0%nat (MkRequest (hash 97) (address (ToAccountId A)) 7 PReturned) s0_reachable ltac:(vm_compute; reflexivity))
    as (_ & _ & _ & H). apply H. exists (hash 97). vm_compute. left.
Defined.
Theorem waiting_is_queued_witness : size (SubmissionQueue s0) ≤ 1024.
Proof.
  destruct (waiting_is_queued s0 1%nat (MkRequest (hash 98) (address (ToAccountId A)) 9 (PSelect 1)) 1%nat s0_reachable
    ltac:(vm_compute; reflexivity) eq_refl) as (_ & _ & H). vm_compute in H. vm_compute. exact H.
Defined.
Theorem Tick_answers_witness : ∃ s', run s1 (tick_events 20 s1) = Some s' ∧ sys_responses s' !! 0%nat = Some [MkResult None (Some row)].
Proof.
  destruct (Tick_answers 20 s1 s1_reachable ltac:(vm_compute; reflexivity)) as (s' & Hr & _ & _ & H). exists s'. split; [exact Hr|].
  specialize (H (hash 97) (MkOpenSubmission 12 [0%nat]) 0%nat ltac:(vm_compute; reflexivity) ltac:(left)).
  vm_compute in H. vm_compute. exact H.
Defined.
End Example_txsub.
