(* ===== verification/StatPages.v ===== *)
(** * db2/history: pages of asset statistics

    Models [GetAssetStats] with its cursor, of [asset_stats.go] and [main.go] in
    [src/services/aurora/internal/db2/history], and the [PageQuery] it is given.
    The order of the texts in the database depends on its collation, of which
    only that it is a strict total order is known. *)

From S2P Require Import Prelude Strkey Xdr LedgerEntry HistoryTables.

Record PageQuery := MkPage { pg_Cursor : gostring; pg_Order : gostring; pg_Limit : Z }.

Inductive page_error :=
  | ErrInvalidOrder
  | ErrInvalidCursor.

(** [ORDER BY] on the columns [(asset_code, asset_issuer)]. *)
Class RowOrder := {
  row_ltb : gostring * gostring → gostring * gostring → bool;
  row_ltb_irrefl a : row_ltb a a = false;
  row_ltb_trans a b c : row_ltb a b = true → row_ltb b c = true → row_ltb a c = true;
  row_ltb_total a b : a ≠ b → row_ltb a b = true ∨ row_ltb b a = true;
  order_by : (ExpAssetStat → ExpAssetStat → bool) → list ExpAssetStat → list ExpAssetStat;
  order_by_sorts : sorts order_by }.

(** [xdr.AssetTypeToString[t]], empty for a value that is no key of the map. *)
Definition asset_type_text (t : Z) : gostring :=
  if t =? 0 then str "native" else if t =? 1 then str "credit_alphanum4"
  else if t =? 2 then str "credit_alphanum12" else [].
Definition StringToAssetType (s : gostring) : option Z :=
  if bool_decide (s = str "native") then Some 0
  else if bool_decide (s = str "credit_alphanum4") then Some 1
  else if bool_decide (s = str "credit_alphanum12") then Some 2 else None.

(** [strings.SplitN] for a positive [n]. *)
Definition SplitN (s : gostring) (sep : Z) (n : nat) : list gostring :=
  let parts := split sep s in
  if (length parts <=? n)%nat then parts else take (n - 1) parts ++ [join sep (drop (n - 1) parts)].

Definition PagingToken (e : ExpAssetStat) : gostring :=
  as_AssetCode e ++ str "_" ++ as_AssetIssuer e ++ str "_" ++ asset_type_text (as_AssetType e).

Definition parseAssetStatsCursor (cursor : gostring) : outcome page_error (gostring * gostring) :=
  match SplitN cursor 95 3 with
  | [code; issuer; assetType] =>
      issuerAccount ← map_fail (λ _, ErrInvalidCursor) (AccountId_SetAddress issuer);
      _ ← map_fail (λ _, ErrInvalidCursor) (SetCredit code issuerAccount);
      match StringToAssetType assetType with
      | None => Fail ErrInvalidCursor
      | Some _ => Ret (code, issuer)
      end
  | _ => Fail ErrInvalidCursor
  end.

Definition stat_position (s : ExpAssetStat) : gostring * gostring := (as_AssetCode s, as_AssetIssuer s).

Definition GetAssetStats `{RowOrder} (assetCode assetIssuer : gostring) (page : PageQuery) (t : AssetStatTable)
  : outcome page_error (list ExpAssetStat) :=
  let rows := filter (λ s, (assetCode = [] ∨ as_AssetCode s = assetCode) ∧ (assetIssuer = [] ∨ as_AssetIssuer s = assetIssuer))
                (map_to_list t).*2 in
  less ← (if bool_decide (pg_Order page = str "asc") then Ret row_ltb
          else if bool_decide (pg_Order page = str "desc") then Ret (λ a b, row_ltb b a)
          else Fail ErrInvalidOrder);
  rows ← (if bool_decide (pg_Cursor page = []) then Ret rows
          else cursor ← parseAssetStatsCursor (pg_Cursor page);
               Ret (filter (λ s, less cursor (stat_position s) = true) rows));
  Ret (take (Z.to_nat (pg_Limit page)) (order_by (λ a b, less (stat_position a) (stat_position b)) rows)).

(** ** Cursors *)

(** Rows of credit assets, whose cursor can be read. *)
Record stat_ok (s : ExpAssetStat) : Prop := {
  stat_issuer : ∃ i, wf_account i ∧ as_AssetIssuer s = address i;
  stat_code : (1 ≤ length (as_AssetCode s) ≤ 12)%nat ∧ Forall (λ c, is_alnum c = true) (as_AssetCode s);
  stat_type : as_AssetType s = 1 ∨ as_AssetType s = 2 }.

(** The cursor of a row is read back. *)
Lemma parse_PagingToken s : stat_ok s → parseAssetStatsCursor (PagingToken s) = Ret (stat_position s).
Proof.
  intros [(i & Hi & Hissuer) [Hl Hc] Ht]. unfold parseAssetStatsCursor, PagingToken, stat_position.
  assert (SplitN (as_AssetCode s ++ str "_" ++ as_AssetIssuer s ++ str "_" ++ asset_type_text (as_AssetType s)) 95 3 =
    [as_AssetCode s; as_AssetIssuer s; asset_type_text (as_AssetType s)]) as ->.
  { unfold SplitN. change (str "_") with [95]. cbn [app].
    rewrite !split_app; [destruct Ht as [-> | ->]; by vm_compute| |by apply alnum_plain].
    rewrite Hissuer. by apply alnum_plain, address_alnum. }
  rewrite Hissuer, SetAddress_address by done. outcome_simpl. cbn [map_fail outcome_bind].
  assert (∃ a, SetCredit (as_AssetCode s) i = Ret a) as [a ->].
  { unfold SetCredit. destruct (_ && _) eqn:E1; [by eexists|]. destruct (_ && _) eqn:E2 in |- *; [by eexists|]. rewrite !andb_false_iff, !Nat.leb_gt in *. lia. }
  cbn [map_fail outcome_bind]. by destruct Ht as [-> | ->].
Qed.

Lemma PagingToken_not_nil s : PagingToken s ≠ [].
Proof. unfold PagingToken. intros [_ H]%app_eq_nil. done. Qed.

(** ** Pages *)
Section pages.
Context `{RowOrder}.

Definition row_less (a b : ExpAssetStat) : bool := row_ltb (stat_position a) (stat_position b).
Definition row_le (a b : ExpAssetStat) : Prop := row_less b a = false.

Lemma row_ltb_asym a b : row_ltb a b = true → row_ltb b a = false.
Proof.
  intros Hab. destruct (row_ltb b a) eqn:Hba; [|done]. pose proof (row_ltb_trans _ _ _ Hab Hba) as Haa.
  by rewrite row_ltb_irrefl in Haa.
Qed.

Lemma row_ltb_antisym a b : row_ltb a b = false → row_ltb b a = false → a = b.
Proof. intros Hab Hba. destruct (decide (a = b)) as [|Hne]; [done|]. destruct (row_ltb_total a b Hne); congruence. Qed.

Lemma row_le_trans a b c : row_le a b → row_le b c → row_le a c.
Proof.
  unfold row_le, row_less. intros Hab Hbc. destruct (row_ltb (stat_position c) (stat_position a)) eqn:Hca; [|done].
  destruct (row_ltb (stat_position b) (stat_position c)) eqn:E.
  - by rewrite (row_ltb_trans _ _ _ E Hca) in Hab.
  - by rewrite (row_ltb_antisym _ _ E Hbc), Hca in Hab.
Qed.

Lemma order_by_sorted l : StronglySorted row_le (order_by row_less l).
Proof.
  destruct (order_by_sorts row_less l) as [_ Hs]. apply Hs.
  - intros x y _ _. apply row_ltb_asym.
  - intros x y z _ _ _. apply row_le_trans.
Qed.

Lemma order_by_perm l : order_by row_less l ≡ₚ l.
Proof. apply (order_by_sorts row_less l). Qed.

(** Rows with different positions, whose cursors can be read. *)
Definition pageable (l : list ExpAssetStat) : Prop := NoDup (stat_position <$> l) ∧ Forall stat_ok l.

Lemma pageable_perm l k : l ≡ₚ k → pageable l → pageable k.
Proof. intros Hp [Hn Hf]. split; by rewrite <- Hp. Qed.

Lemma sorted_unique l k : pageable l → StronglySorted row_le l → StronglySorted row_le k → l ≡ₚ k → l = k.
Proof.
  intros [Hn _] Hl Hk Hp. apply (StronglySorted_unique_strong row_le); [|done..].
  intros x y Hx Hy Hxy Hyx. apply (NoDup_key stat_position l); [done..|by rewrite Hp|]. by apply row_ltb_antisym.
Qed.

(** The rows in their order; a page continues after a prefix. *)
Definition listing (t : AssetStatTable) : list ExpAssetStat := order_by row_less (map_to_list t).*2.
Definition cursor_after (done : list ExpAssetStat) : gostring :=
  match last done with None => [] | Some s => PagingToken s end.

Lemma after_last front s todo :
  pageable ((front ++ [s]) ++ todo) → StronglySorted row_le ((front ++ [s]) ++ todo) →
  filter (λ r, row_ltb (stat_position s) (stat_position r) = true) ((front ++ [s]) ++ todo) = todo.
Proof.
  intros [Hn _] (Hb & (Hf & _)%StronglySorted_app & _)%StronglySorted_app. rewrite filter_app, filter_none, filter_all; [done| |].
  - apply Forall_forall. intros r Hr. destruct (row_ltb_total (stat_position s) (stat_position r)) as [|Hrs]; [|done|].
    + intros Heq. rewrite fmap_app in Hn. apply NoDup_app in Hn as (_ & Hn & _). apply (Hn (stat_position s)).
      * apply list_elem_of_fmap_2. apply elem_of_app. right. by left.
      * rewrite Heq. by apply list_elem_of_fmap_2.
    + assert (row_le s r) as Hle by (apply Hb; [apply elem_of_app; right; by left|done]).
      unfold row_le, row_less in Hle. congruence.
  - apply Forall_forall. intros r [Hr| ->%list_elem_of_singleton]%elem_of_app; [|by rewrite row_ltb_irrefl].
    assert (row_le r s) as Hle by (apply Hf; [done|by left]). unfold row_le, row_less in Hle. by rewrite Hle.
Qed.

(** A page that continues after a prefix of the rows in their order. *)
Lemma GetAssetStats_page t done todo n :
  pageable (map_to_list t).*2 → listing t = done ++ todo →
  GetAssetStats [] [] (MkPage (cursor_after done) (str "asc") n) t = Ret (take (Z.to_nat n) todo).
Proof.
  intros Hp Hl. unfold GetAssetStats. cbn [pg_Order pg_Cursor pg_Limit].
  rewrite (bool_decide_true (str "asc" = _)) by done. outcome_simpl. rewrite filter_all by (apply Forall_forall; auto).
  assert (listing t ≡ₚ (map_to_list t).*2) as Hperm by apply order_by_perm.
  assert (StronglySorted row_le (listing t)) as Hs by apply order_by_sorted.
  assert (pageable (listing t)) as Hpl by by eapply pageable_perm.
  unfold cursor_after. destruct (last done) as [s|] eqn:El.
  - rewrite bool_decide_false by apply PagingToken_not_nil. apply last_Some in El as [front ->].
    rewrite Hl in Hpl, Hs, Hperm. rewrite parse_PagingToken.
    2:{ destruct Hpl as [_ Hf]. rewrite !Forall_app in Hf. destruct Hf as [[_ Hf] _]. by apply Forall_inv in Hf. }
    cbn [outcome_bind]. do 2 f_equal. symmetry. apply sorted_unique.
    + destruct Hpl as [Hn Hf]. rewrite fmap_app in Hn. apply NoDup_app in Hn as (_ & _ & Hn). by apply Forall_app in Hf as [_ Hf].
    + by apply StronglySorted_app in Hs as (_ & _ & ?).
    + apply order_by_sorted.
    + rewrite <- (after_last front s todo Hpl Hs). rewrite order_by_perm. by rewrite Hperm.
  - apply last_None in El as ->. rewrite bool_decide_true by done. cbn [outcome_bind]. by rewrite (eq_sym Hl : todo = listing t).
Qed.
End pages.
