(* ===== verification/ChangeProcessor.v ===== *)
(** * aurora: change processors

    What the processors of [src/services/aurora/internal/ingest/processors] that
    turn the changes of a ledger into rows have in common: each keeps a
    [LedgerEntryChangeCache] of the changes of one type of entry, and writes the
    squashed changes to its table when the cache is full and at the end.  The
    class [ChangeProcessor] is what such a processor supplies and
    [ProcessorLaws] what it promises; that the table follows the ledger is
    proved against this interface, and the processors (StateProcessors.v,
    SignersProcessor.v, AssetStats.v) are its instances. *)

From S2P Require Import Prelude Xdr LedgerEntry ChangeCache HistoryTables.

(** processors/main.go *)
Definition maxBatchSize : Z := 100000.

Abbreviation rows := (gmap gostring LedgerEntry).

(** The key of entries in the cache, and the order in which a cache is ranged
    over, of which nothing but completeness is used. *)
Class LedgerCache := {
  MarshalBinaryBase64 : LedgerKey → option gostring;
  MarshalBinaryBase64_inj k1 k2 s : MarshalBinaryBase64 k1 = Some s → MarshalBinaryBase64 k2 = Some s → k1 = k2;
  iterate : gmap gostring Change → list (gostring * Change);
  iterate_perm m : iterate m ≡ₚ map_to_list m }.

(** ** The processors *)

(** [sink_type] is the type of entries the processor looks at, [flush] what it
    does with the changes of a full cache, [finish] the rest of its [Commit]. *)
Class ChangeProcessor `{LedgerCache} (T : Type) := {
  sink_type : LedgerEntryType;
  flush : list Change → T → outcome proc_error T;
  finish : T → T }.

Section processor.
Context `{LC : LedgerCache} {T : Type} `{!ChangeProcessor T}.

Definition AddToCache (cache : LedgerEntryChangeCache) (change : Change) : outcome proc_error LedgerEntryChangeCache :=
  map_fail (λ _, ErrCacheAdd) (AddChange MarshalBinaryBase64 cache change).

(** The state of a processor is its cache and its table. *)
Definition ProcessChange (p : LedgerEntryChangeCache * T) (change : Change)
  : outcome proc_error (LedgerEntryChangeCache * T) :=
  let '(cache, t) := p in
  if negb (bool_decide (Change_Type change = sink_type)) then Ret (cache, t) else
  cache ← AddToCache cache change;
  if maxBatchSize <? Z.of_nat (Size cache) then
    t ← flush (GetChanges iterate cache) t;
    Ret (NewLedgerEntryChangeCache, t)
  else Ret (cache, t).
Definition Commit (p : LedgerEntryChangeCache * T) : outcome proc_error T :=
  let '(cache, t) := p in
  t ← flush (GetChanges iterate cache) t;
  Ret (finish t).

(** [StreamChanges] and the commit of the processor runner, for one processor. *)
Definition StreamChanges (changes : list Change) (t : T) : outcome proc_error T :=
  p ← mfold ProcessChange (NewLedgerEntryChangeCache, t) changes;
  Commit p.
End processor.

(** ** Changes that say what they replace

    [apply_exact] is [apply_change] for a change whose [Pre] is the row as it
    is. *)
Section exact.
Context `{LC : LedgerCache}.
Abbreviation K := MarshalBinaryBase64.

Definition apply_exact (s : rows) (c : Change) : option rows :=
  k ← change_key K c;
  if decide (Pre c = s !! k) then Some (match Post c with Some e => <[k := e]> s | None => delete k s end) else None.
Fixpoint apply_exacts (s : rows) (cs : list Change) : option rows :=
  match cs with [] => Some s | c :: cs' => s' ← apply_exact s c; apply_exacts s' cs' end.

(** The entries in a change. *)
Definition entries_of (c : Change) : list LedgerEntry := option_list (Pre c) ++ option_list (Post c).

Lemma entries_of_elem c e : e ∈ entries_of c ↔ Pre c = Some e ∨ Post c = Some e.
Proof. unfold entries_of. rewrite elem_of_app. destruct (Pre c), (Post c); simpl; set_solver. Qed.

(** The entries of one type. *)
Definition of_type (ty : LedgerEntryType) (s : rows) : rows := filter (λ '(_, e), data_type (Data e) = ty) s.

Lemma of_type_lookup ty s k : of_type ty s !! k = e ← s !! k; if decide (data_type (Data e) = ty) then Some e else None.
Proof.
  unfold of_type. destruct (s !! k) as [e|] eqn:E; simpl.
  - case_decide; [by apply map_lookup_filter_Some|]. apply map_lookup_filter_None. right. intros e' He'. naive_solver.
  - apply map_lookup_filter_None. by left.
Qed.

(** [ok] is what is known of the entries of the ledger. *)
Context (ok : LedgerEntry → Prop).
Definition change_wf (c : Change) : Prop :=
  change_ok c ∧ Forall (λ e, ok e ∧ data_type (Data e) = Change_Type c) (entries_of c).

Lemma wf_entry c e : change_wf c → Pre c = Some e ∨ Post c = Some e → ok e ∧ data_type (Data e) = Change_Type c.
Proof. intros [_ Hc] He. rewrite Forall_forall in Hc. by apply Hc, entries_of_elem. Qed.

Lemma change_wf_intro c :
  change_ok c → (∀ e, Pre c = Some e ∨ Post c = Some e → ok e ∧ data_type (Data e) = Change_Type c) → change_wf c.
Proof. intros Ho Hc. split; [done|]. apply Forall_forall. intros e He. by apply Hc, entries_of_elem. Qed.

Lemma apply_exacts_app s cs ds : apply_exacts s (cs ++ ds) = s' ← apply_exacts s cs; apply_exacts s' ds.
Proof. revert s. induction cs as [|c cs IH]; intros s; simpl; [done|]. destruct (apply_exact s c); simpl; [apply IH|done]. Qed.

Lemma apply_exact_inv s c s' :
  apply_exact s c = Some s' →
  ∃ k, change_key K c = Some k ∧ Pre c = s !! k ∧ s' = match Post c with Some e => <[k := e]> s | None => delete k s end.
Proof. unfold apply_exact. destruct (change_key K c) as [k|]; [|done]. simpl. case_decide; [|done]. intros [= <-]. eauto. Qed.

Lemma apply_exact_change s c s' : apply_exact s c = Some s' → apply_change K s c = Some s'.
Proof.
  intros (k & Hk & Hp & ->)%apply_exact_inv. unfold apply_change. rewrite Hk. simpl.
  rewrite decide_True by (by rewrite Hp). done.
Qed.

Lemma apply_exacts_changes s cs s' : apply_exacts s cs = Some s' → apply_changes K s cs = Some s'.
Proof.
  revert s. induction cs as [|c cs IH]; intros s; simpl; [done|].
  destruct (apply_exact s c) as [s1|] eqn:E; [|done]. rewrite (apply_exact_change _ _ _ E). apply IH.
Qed.

(** Entries that have the key of their row, and the type of a change. *)
Definition keyed (s : rows) : Prop := ∀ k e, s !! k = Some e → K (LedgerEntry_LedgerKey e) = Some k ∧ ok e.

Lemma change_key_Pre c k e : change_ok c → change_key K c = Some k → Pre c = Some e → K (LedgerEntry_LedgerKey e) = Some k.
Proof. unfold change_ok, change_key. intros Ho Hk Hp. rewrite Hp in *. destruct (Post c); [by rewrite Ho|done]. Qed.

Lemma change_key_Post c k e : change_key K c = Some k → Post c = Some e → K (LedgerEntry_LedgerKey e) = Some k.
Proof. unfold change_key. intros Hk Hp. by rewrite Hp in Hk. Qed.

Lemma apply_exact_keyed s c s' : keyed s → change_wf c → apply_exact s c = Some s' → keyed s'.
Proof.
  intros Hs [Hok Hwf] (k & Hk & _ & ->)%apply_exact_inv. rewrite Forall_forall in Hwf. destruct (Post c) as [e|] eqn:Ep.
  - intros k' e' [[<- <-]|[Hne He']]%lookup_insert_Some; [|by apply Hs].
    split; [by eapply change_key_Post|]. apply Hwf, entries_of_elem. by right.
  - intros k' e' [Hne He']%lookup_delete_Some. by apply Hs.
Qed.

Lemma apply_exact_type ty s c s' :
  change_wf c → apply_exact s c = Some s' →
  if decide (Change_Type c = ty) then apply_exact (of_type ty s) c = Some (of_type ty s')
  else of_type ty s' = of_type ty s.
Proof.
  intros [_ Hwf] (k & Hk & Hp & ->)%apply_exact_inv. rewrite Forall_forall in Hwf.
  assert (∀ e, s !! k = Some e → data_type (Data e) = Change_Type c) as Hpre.
  { intros e He. apply Hwf, entries_of_elem. left. by rewrite Hp. }
  assert (∀ e, Post c = Some e → data_type (Data e) = Change_Type c) as Hpost.
  { intros e He. apply Hwf, entries_of_elem. by right. }
  case_decide as Hty.
  - unfold apply_exact. rewrite Hk. simpl. rewrite decide_True.
    + f_equal. apply map_eq. intros k'. rewrite of_type_lookup. destruct (decide (k' = k)) as [->|Hne].
      * destruct (Post c) as [e|]; [|by rewrite !lookup_delete_eq].
        rewrite !lookup_insert_eq. simpl. rewrite decide_True by (by rewrite Hpost). done.
      * destruct (Post c); rewrite ?lookup_insert_ne, ?lookup_delete_ne, of_type_lookup by done; done.
    + rewrite of_type_lookup, Hp. destruct (s !! k) as [e|]; [|done]. simpl. rewrite decide_True by (by rewrite Hpre). done.
  - apply map_eq. intros k'. rewrite !of_type_lookup. destruct (decide (k' = k)) as [->|Hne].
    + destruct (Post c) as [e|].
      * rewrite lookup_insert_eq. simpl. rewrite decide_False by (by rewrite Hpost).
        destruct (s !! k) as [e'|]; simpl; [|done]. rewrite decide_False by (by rewrite Hpre). done.
      * rewrite lookup_delete_eq. simpl. destruct (s !! k) as [e'|]; simpl; [|done]. rewrite decide_False by (by rewrite Hpre). done.
    + destruct (Post c); by rewrite ?lookup_insert_ne, ?lookup_delete_ne by done.
Qed.
End exact.

(** ** Squashed changes *)
Section squash.
Context `{LC : LedgerCache} (ok : LedgerEntry → Prop).
Abbreviation K := MarshalBinaryBase64.

(** A squashed change of the entry [k] takes its sides from the changes [ps] of
    that entry. *)
Definition from_changes (ps : list Change) (k : option gostring) (c : Change) : Prop :=
  (∃ c', c' ∈ ps ∧ Pre c' = Pre c ∧ change_key K c' = k) ∧ (∃ c', c' ∈ ps ∧ Post c' = Post c ∧ change_key K c' = k).

(** [cs] does to the ledger what [ps] does, with one change for an entry. *)
Record squashes (ps cs : list Change) (s0 s : rows) : Prop := {
  squash_apply : apply_exacts s0 cs = Some s;
  squash_wf : Forall (change_wf ok) cs;
  squash_NoDup : NoDup (change_key K <$> cs);
  squash_pre c k : c ∈ cs → change_key K c = Some k → Pre c = s0 !! k ∧ Post c = s !! k;
  squash_length : (length cs ≤ length ps)%nat;
  squash_from c : c ∈ cs → from_changes ps (change_key K c) c }.

Definition cached (ps : list Change) (s0 : rows) (cache : LedgerEntryChangeCache) : Prop :=
  (size cache ≤ length ps)%nat ∧
  ∀ k c, cache !! k = Some c → Pre c = s0 !! k ∧ change_wf ok c ∧ from_changes ps (Some k) c.

Lemma key_type_entry e : key_type (LedgerEntry_LedgerKey e) = data_type (Data e).
Proof. by destruct e as [seq [] ext]. Qed.

(** The change that replaces two changes of the same entry. *)
Lemma merged_wf k old c e :
  change_wf ok old → change_wf ok c → Post c = Some e → K (LedgerEntry_LedgerKey e) = Some k →
  (∀ e', Pre old = Some e' → K (LedgerEntry_LedgerKey e') = Some k) →
  change_wf ok (MkChange (key_type (LedgerEntry_LedgerKey e)) (Pre old) (Some e)).
Proof.
  intros Hold Hc Hp He Ho.
  assert (∀ e', Pre old = Some e' → LedgerEntry_LedgerKey e' = LedgerEntry_LedgerKey e) as Hkey
    by (intros e' He'; eapply MarshalBinaryBase64_inj; eauto).
  apply change_wf_intro.
  - unfold change_ok; simpl. destruct (Pre old) as [e'|]; [by apply Hkey|done].
  - simpl. rewrite key_type_entry. intros e' [H|[= <-]].
    + split; [by apply (wf_entry ok old e'); [|left]|]. by rewrite <- !key_type_entry, (Hkey e').
    + split; [|done]. by apply (wf_entry ok c e); [|right].
Qed.

Lemma from_changes_app ps c0 k c : from_changes ps k c → from_changes (ps ++ [c0]) k c.
Proof. intros [(a & ? & ?) (b & ? & ?)]. split; [exists a|exists b]; set_solver. Qed.

(** The last change of [ps] gives the new [Post], an earlier one the [Pre]. *)
Lemma from_changes_last ps c k old new :
  change_key K c = Some k → Post new = Post c → Pre new = Pre old → from_changes ps (Some k) old →
  from_changes (ps ++ [c]) (Some k) new.
Proof. intros Hk Hp Hp' [(a & ? & ? & ?) _]. split; [exists a|exists c]; split_and!; (set_solver || congruence). Qed.

Lemma cached_insert ps s0 cache c0 k c :
  cached ps s0 cache → Pre c = s0 !! k → change_wf ok c → from_changes (ps ++ [c0]) (Some k) c →
  cached (ps ++ [c0]) s0 (<[k := c]> cache).
Proof.
  intros [Hs Hc] Hp Hw Hn. split.
  - rewrite length_app. simpl. rewrite map_size_insert. destruct (cache !! k); unfold id; lia.
  - intros k' c' [[<- <-]|[_ H]]%lookup_insert_Some; [done|].
    destruct (Hc _ _ H) as (? & ? & ?). split_and!; [done..|]. by apply from_changes_app.
Qed.

Lemma cached_delete ps s0 cache c0 k : cached ps s0 cache → cached (ps ++ [c0]) s0 (delete k cache).
Proof.
  intros [Hs Hc]. split.
  - rewrite length_app, map_size_delete. destruct (cache !! k); unfold id; simpl; lia.
  - intros k' c' [_ H]%lookup_delete_Some. destruct (Hc _ _ H) as (? & ? & ?). split_and!; [done..|]. by apply from_changes_app.
Qed.

Lemma AddChange_cached ps s0 s s' cache c :
  caches K s0 s cache → cached ps s0 cache → change_wf ok c → apply_exact s c = Some s' →
  ∃ cache', AddChange K cache c = Ret cache' ∧ caches K s0 s' cache' ∧ cached (ps ++ [c]) s0 cache'.
Proof.
  intros Hc Hca Hw Hs. destruct (AddChange_caches K _ _ _ _ _ Hc (proj1 Hw) (apply_exact_change _ _ _ Hs)) as (cache' & Ha & Hc').
  exists cache'. split_and!; [done..|]. destruct (apply_exact_inv _ _ _ Hs) as (k & Hk & Hp & _).
  assert (Hself : from_changes (ps ++ [c]) (Some k) c) by (split; exists c; set_solver).
  assert (Hold : ∀ d, cache !! k = Some d →
    Pre d = s0 !! k ∧ change_wf ok d ∧ from_changes ps (Some k) d ∧
    ∀ e, Pre d = Some e → K (LedgerEntry_LedgerKey e) = Some k).
  { intros d Hd. destruct (proj2 Hca _ _ Hd) as (? & ? & ?). pose proof (Hc k) as Hck. rewrite Hd in Hck.
    destruct Hck as (_ & _ & _ & Hkey). split_and!; eauto. }
  pose proof (Hc k) as Hck. revert Ha.
  unfold AddChange, addCreatedChange, addUpdatedChange, addRemovedChange.
  destruct (Pre c) as [pre|] eqn:Epre, (Post c) as [post|] eqn:Epost; try done.
  - pose proof (change_key_Post _ _ _ Hk Epost) as Hpk. rewrite (key_string_Ret K _ k Hpk). outcome_simpl.
    destruct (cache !! k) as [d|] eqn:E.
    + destruct (Hold _ eq_refl) as (H1 & H2 & H3 & H4).
      destruct (LedgerEntryChangeType_of d) as [[]|?|]; simpl; intros [= <-];
        (apply cached_insert; [done|done|by apply (merged_wf k d c)|by apply (from_changes_last _ _ _ d)]).
    + intros [= <-]. apply cached_insert; [done| |done|done]. rewrite Epre, Hp. exact Hck.
  - assert (K (LedgerEntry_LedgerKey pre) = Some k) as Hpk by (eapply change_key_Pre; [apply Hw|done|done]).
    rewrite (key_string_Ret K _ k Hpk). outcome_simpl.
    destruct (cache !! k) as [d|] eqn:E.
    + destruct (Hold _ eq_refl) as (H1 & H2 & H3 & H4).
      destruct (LedgerEntryChangeType_of d) as [[]|?|]; simpl; intros [= <-]; [by apply cached_delete|].
      apply cached_insert; [done|done| |by apply (from_changes_last _ _ _ d)]. apply change_wf_intro.
      * unfold change_ok; simpl. by destruct (Pre d).
      * simpl. intros e [H|H]; [|done]. split; [by apply (wf_entry ok d e); [|left]|].
        rewrite <- key_type_entry. f_equal. eapply MarshalBinaryBase64_inj; [by apply H4|done].
    + intros [= <-]. apply cached_insert; [done| |done|done]. rewrite Epre, Hp. exact Hck.
  - pose proof (change_key_Post _ _ _ Hk Epost) as Hpk. rewrite (key_string_Ret K _ k Hpk). outcome_simpl.
    destruct (cache !! k) as [d|] eqn:E.
    + destruct (Hold _ eq_refl) as (H1 & H2 & H3 & H4).
      destruct (LedgerEntryChangeType_of d) as [[]|?|]; simpl; intros [= <-].
      apply cached_insert; [done|done|by apply (merged_wf k d c)|by apply (from_changes_last _ _ _ d)].
    + intros [= <-]. apply cached_insert; [done| |done|done]. rewrite Epre, Hp. exact Hck.
Qed.
Lemma apply_exact_distinct l s s' :
  apply_changes K s l.*2 = Some s' → NoDup l.*1 → (∀ k c, (k, c) ∈ l → change_key K c = Some k ∧ Pre c = s !! k) →
  apply_exacts s l.*2 = Some s'.
Proof.
  revert s. induction l as [|[k c] l IH]; intros s Ha Hn Hl; simpl in *; [done|].
  apply NoDup_cons in Hn as [Hk Hn]. destruct (Hl k c) as [Hck Hp]; [by left|].
  destruct (apply_change K s c) as [s1|] eqn:E; [|done]. simpl in Ha.
  assert (apply_exact s c = Some s1) as ->.
  { unfold apply_exact. rewrite Hck. simpl. rewrite decide_True by done. revert E.
    unfold apply_change. rewrite Hck. simpl. by case_decide. }
  simpl. apply IH; [done..|]. intros k' c' Hin. destruct (Hl k' c') as [? Hp']; [by right|]. split; [done|].
  rewrite Hp'. destruct (apply_change_inv _ _ _ _ E) as (k2 & Hk2 & _ & _ & Hout). rewrite Hck in Hk2. injection Hk2 as <-.
  symmetry. apply Hout. intros ->. apply Hk. by apply (list_elem_of_fmap_2 fst) in Hin.
Qed.

(** What the cache holds after some changes. *)
Lemma AddChanges_cached ps qs s0 s s' cache :
  caches K s0 s cache → cached ps s0 cache → Forall (change_wf ok) qs → apply_exacts s qs = Some s' →
  ∃ cache', mfold (AddChange K) cache qs = Ret cache' ∧ caches K s0 s' cache' ∧ cached (ps ++ qs) s0 cache'.
Proof.
  revert ps s cache. induction qs as [|c qs IH]; intros ps s cache Hc Hca Hw Ha; simpl in *.
  { injection Ha as <-. rewrite app_nil_r. by exists cache. }
  apply Forall_cons in Hw as [Hwc Hw]. destruct (apply_exact s c) as [s1|] eqn:E; [|done].
  destruct (AddChange_cached _ _ _ _ _ _ Hc Hca Hwc E) as (cache1 & -> & Hc1 & Hca1). simpl.
  rewrite cons_middle, app_assoc. by apply (IH _ s1).
Qed.

Lemma cache_squashes ps s0 s cache :
  caches K s0 s cache → cached ps s0 cache → squashes ps (GetChanges iterate cache) s0 s.
Proof.
  intros Hc Hca.
  assert (∀ k c, (k, c) ∈ iterate cache ↔ cache !! k = Some c) as Hin.
  { intros k c. rewrite iterate_perm. apply elem_of_map_to_list. }
  assert (∀ k c, cache !! k = Some c → change_key K c = Some k) as Hkey.
  { intros k c Hkc. specialize (Hc k). rewrite Hkc in Hc. destruct Hc as (_ & _ & H3 & H4).
    unfold change_key. destruct (Post c) as [e|] eqn:E; [by apply H4; right|].
    destruct (Pre c) as [e|]; [by apply H4; left|]. by destruct H3. }
  assert (NoDup (iterate cache).*1) as Hn by (rewrite iterate_perm; apply NoDup_fst_map_to_list).
  assert (∀ c, c ∈ GetChanges iterate cache → ∃ k, cache !! k = Some c) as Hget.
  { intros c ([k c'] & -> & Hk%Hin)%list_elem_of_fmap. by exists k. }
  split.
  - apply apply_exact_distinct; [|done|].
    + destruct (apply_distinct K (iterate cache) s0) as (s' & Hs' & Hpost & Hout); [done| |].
      * intros k c Hkc%Hin. split; [by apply Hkey|]. specialize (Hc k). rewrite Hkc in Hc. apply Hc.
      * rewrite Hs'. f_equal. apply map_eq. intros k. specialize (Hc k).
        destruct (cache !! k) as [c|] eqn:E; [destruct Hc as (_ & <- & _); by apply Hpost, Hin|].
        rewrite Hout; [done|]. intros ([k' c] & -> & Hkc%Hin)%list_elem_of_fmap. simpl in E. congruence.
    + intros k c Hkc%Hin. split; [by apply Hkey|]. by destruct (proj2 Hca _ _ Hkc).
  - apply Forall_forall. intros c (k & Hk)%Hget. by destruct (proj2 Hca _ _ Hk) as (_ & ? & _).
  - unfold GetChanges. rewrite <- list_fmap_compose.
    replace ((change_key K ∘ snd) <$> iterate cache) with (Some <$> (iterate cache).*1).
    + apply NoDup_fmap_2; [by intros ?? [= ->]|done].
    + rewrite <- list_fmap_compose. apply Forall_fmap_ext, Forall_forall. intros [k c] Hkc%Hin. symmetry. by apply Hkey.
  - intros c k (k' & Hk)%Hget Hck. rewrite (Hkey _ _ Hk) in Hck. injection Hck as ->.
    destruct (proj2 Hca _ _ Hk) as (? & _). specialize (Hc k). rewrite Hk in Hc. by destruct Hc as (_ & ? & _).
  - unfold GetChanges. rewrite length_fmap, iterate_perm, length_map_to_list. apply Hca.
  - intros c (k & Hk)%Hget. destruct (proj2 Hca _ _ Hk) as (_ & _ & Hcr). by rewrite (Hkey _ _ Hk).
Qed.
(** *** The type of the squashed changes *)
Definition all_type (ty : LedgerEntryType) (s : rows) : Prop := ∀ k e, s !! k = Some e → data_type (Data e) = ty.

Lemma of_type_all ty s : all_type ty (of_type ty s).
Proof. intros k e. rewrite of_type_lookup. destruct (s !! k); simpl; [|done]. case_decide; [|done]. by intros [= <-]. Qed.

Lemma of_type_keyed ty s : keyed ok s → keyed ok (of_type ty s).
Proof.
  intros Hk k e. rewrite of_type_lookup. destruct (s !! k) eqn:E; simpl; [|done]. case_decide; [|done].
  intros [= <-]. by apply Hk.
Qed.

Lemma all_type_apply ty s c s' : all_type ty s → change_wf ok c → Change_Type c = ty → apply_exact s c = Some s' → all_type ty s'.
Proof.
  intros Hs Hw Hc (k & Hk & Hp & ->)%apply_exact_inv k' e'. destruct (Post c) as [e|] eqn:E.
  - intros [[<- <-]|[_ He]]%lookup_insert_Some; [|by eapply Hs]. rewrite <- Hc. apply (wf_entry ok c e Hw). by right.
  - intros [_ He]%lookup_delete_Some. by eapply Hs.
Qed.

Lemma all_type_applies ty cs s s' :
  all_type ty s → Forall (change_wf ok) cs → Forall (λ c, Change_Type c = ty) cs → apply_exacts s cs = Some s' → all_type ty s'.
Proof.
  revert s. induction cs as [|c cs IH]; intros s Hs Hw Hc Ha; simpl in *; [by injection Ha as <-|].
  apply Forall_cons in Hw as [? ?], Hc as [? ?]. destruct (apply_exact s c) as [s1|] eqn:E; [|done].
  eapply (IH s1); [|done..]. by eapply all_type_apply.
Qed.

Lemma apply_exacts_keys cs s s' c : apply_exacts s cs = Some s' → c ∈ cs → is_Some (change_key K c).
Proof.
  revert s. induction cs as [|d cs IH]; intros s Ha Hc; [by apply elem_of_nil in Hc|]. simpl in Ha.
  destruct (apply_exact s d) as [s1|] eqn:E; [|done]. apply elem_of_cons in Hc as [->|Hc]; [|by eapply IH].
  destruct (apply_exact_inv _ _ _ E) as (k & Hk & _). by eexists.
Qed.

Lemma squashes_type ty ps cs s0 s :
  squashes ps cs s0 s → Forall (λ c, change_wf ok c ∧ Change_Type c = ty) ps → Forall (λ c, Change_Type c = ty) cs.
Proof.
  intros Hsq Hps. apply Forall_forall. intros c Hc. rewrite Forall_forall in Hps.
  pose proof (squash_wf _ _ _ _ Hsq) as Hw. rewrite Forall_forall in Hw. specialize (Hw c Hc).
  destruct (squash_from _ _ _ _ Hsq c Hc) as [(c1 & H1 & Hp1 & _) (c2 & H2 & Hp2 & _)].
  destruct (apply_exacts_keys _ _ _ _ (squash_apply _ _ _ _ Hsq) Hc) as [k Hk]. unfold change_key in Hk.
  destruct (Post c) as [e|] eqn:E2.
  - destruct (Hps c2 H2) as [Hw2 <-]. destruct (wf_entry ok c e Hw) as [_ <-]; [by right|].
    by destruct (wf_entry ok c2 e Hw2) as [_ ->]; [right|].
  - destruct (Pre c) as [e|] eqn:E1; [|done].
    destruct (Hps c1 H1) as [Hw1 <-]. destruct (wf_entry ok c e Hw) as [_ <-]; [by left|].
    by destruct (wf_entry ok c1 e Hw1) as [_ ->]; [left|].
Qed.
End squash.

(** ** The interface

    [follows fut s t]: the table [t] holds the rows of the entries [s], and the
    changes [fut] are still to come; [after fut s t]: so it does when the
    processor has committed, with the changes [fut] for its successors. *)
Class ProcessorLaws `{LC : LedgerCache} {T} `{!ChangeProcessor T} (ok : LedgerEntry → Prop)
    (follows after : list Change → rows → T → Prop) : Prop := {
  flush_follows fut ps cs s0 s t :
    follows (ps ++ fut) s0 t → keyed ok s0 → all_type sink_type s0 → squashes ok ps cs s0 s →
    Forall (λ c, change_wf ok c ∧ Change_Type c = sink_type) ps → maxBatchSize < Z.of_nat (length cs) →
    ∃ t', flush cs t = Ret t' ∧ follows fut s t';
  flush_after fut ps cs s0 s t :
    follows (ps ++ fut) s0 t → keyed ok s0 → all_type sink_type s0 → squashes ok ps cs s0 s →
    Forall (λ c, change_wf ok c ∧ Change_Type c = sink_type) ps →
    ∃ t', flush cs t = Ret t' ∧ after fut s (finish t') }.

(** A processor for which the end of the ledger makes no difference. *)
Lemma laws_intro `{LC : LedgerCache} {T} `{!ChangeProcessor T} (ok : LedgerEntry → Prop)
    (follows : list Change → rows → T → Prop) :
  (∀ fut ps cs s0 s t, follows (ps ++ fut) s0 t → keyed ok s0 → all_type sink_type s0 → squashes ok ps cs s0 s →
    Forall (λ c, change_wf ok c ∧ Change_Type c = sink_type) ps → ∃ t', flush cs t = Ret t' ∧ follows fut s t') →
  (∀ fut s t, follows fut s t → follows fut s (finish t)) → ProcessorLaws ok follows follows.
Proof.
  intros Hfl Hfi. split; [intros; by eapply Hfl|]. intros fut ps cs s0 s t H1 H2 H3 H4 H5.
  destruct (Hfl fut ps cs s0 s t H1 H2 H3 H4 H5) as (t' & ? & ?). eauto.
Qed.

Section laws.
Context `{LC : LedgerCache} {T : Type} `{!ChangeProcessor T} (ok : LedgerEntry → Prop)
  (follows after : list Change → rows → T → Prop) `{!ProcessorLaws ok follows after}.
Abbreviation K := MarshalBinaryBase64.
Abbreviation mine := (filter (λ c, Change_Type c = sink_type)).

(** The changes [ps] since the last flush are in the cache. *)
Definition processing (fut : list Change) (s : rows) (p : LedgerEntryChangeCache * T) : Prop :=
  ∃ s0 ps, follows (ps ++ fut) s0 p.2 ∧ keyed ok s0 ∧ all_type sink_type s0 ∧ caches K s0 s p.1 ∧ cached ok ps s0 p.1 ∧
    Forall (λ c, change_wf ok c ∧ Change_Type c = sink_type) ps.

Lemma processing_start fut s t :
  follows fut s t → keyed ok s → all_type sink_type s → processing fut s (NewLedgerEntryChangeCache, t).
Proof.
  intros Hf Hk Hty. exists s, []. split_and!; [done..| | |done].
  - intros k. simpl. unfold NewLedgerEntryChangeCache. by rewrite lookup_empty.
  - split; [by apply Nat.eq_le_incl, map_size_empty|]. intros k c. simpl. unfold NewLedgerEntryChangeCache. by rewrite lookup_empty.
Qed.

Lemma caches_keyed s0 s ps cache : keyed ok s0 → caches K s0 s cache → cached ok ps s0 cache → keyed ok s.
Proof.
  intros Hk Hc Hca k e He. specialize (Hc k). destruct (cache !! k) as [c|] eqn:E.
  - destruct Hc as (_ & Hp & _ & Hkey). destruct (proj2 Hca _ _ E) as (_ & Hw & _).
    split; [apply Hkey; right; by rewrite Hp|]. by apply (wf_entry ok c e); [|right; rewrite Hp].
  - rewrite Hc in He. by apply Hk.
Qed.

(** Writing the cache to the table. *)
Lemma cache_flush s0 ps s cache :
  all_type sink_type s0 → caches K s0 s cache → cached ok ps s0 cache →
  Forall (λ c, change_wf ok c ∧ Change_Type c = sink_type) ps →
  squashes ok ps (GetChanges iterate cache) s0 s ∧ length (GetChanges iterate cache) = Size cache ∧ all_type sink_type s.
Proof.
  intros Hty Hc Hca Hps. pose proof (cache_squashes ok ps s0 s cache Hc Hca) as Hsq. split_and!; [done| |].
  - unfold GetChanges, Size in *. by rewrite length_fmap, iterate_perm, length_map_to_list.
  - eapply all_type_applies; [done|apply Hsq|by eapply squashes_type|apply Hsq].
Qed.

Lemma flush_processing fut s p :
  processing fut s p → maxBatchSize < Z.of_nat (Size p.1) →
  ∃ t', flush (GetChanges iterate p.1) p.2 = Ret t' ∧ follows fut s t' ∧ keyed ok s ∧ all_type sink_type s.
Proof.
  intros (s0 & ps & Hf & Hk & Hty & Hc & Hca & Hps) Hsz. destruct (cache_flush s0 ps s p.1) as (Hsq & Hl & Hty'); [done..|].
  destruct (flush_follows fut ps (GetChanges iterate p.1) s0 s p.2) as (t' & Ht' & Hf'); [done..|by rewrite Hl|].
  exists t'. split_and!; [done..|by eapply caches_keyed|done].
Qed.

Lemma Commit_after fut s p : processing fut s p → ∃ t', Commit p = Ret t' ∧ after fut s t'.
Proof.
  destruct p as [cache t]. intros (s0 & ps & Hf & Hk & Hty & Hc & Hca & Hps). simpl in *.
  destruct (cache_flush s0 ps s cache) as (Hsq & Hl & Hty'); [done..|].
  destruct (flush_after fut ps (GetChanges iterate cache) s0 s t) as (t' & Ht' & Hf'); [done..|].
  exists (finish t'). split; [|done]. rewrite Ht'. done.
Qed.

Lemma ProcessChange_processing fut s s' p c :
  Change_Type c = sink_type → processing (c :: fut) s p → change_wf ok c → apply_exact s c = Some s' →
  ∃ p', ProcessChange p c = Ret p' ∧ processing fut s' p'.
Proof.
  destruct p as [cache t]. intros Hty (s0 & ps & Hf & Hk & Hty0 & Hc & Hca & Hps) Hw Hs. simpl in *.
  destruct (AddChange_cached ok ps s0 s s' cache c) as (cache' & Ha & Hc' & Hca'); [done..|].
  rewrite bool_decide_true by done. simpl. unfold AddToCache. rewrite Ha. outcome_simpl. simpl.
  rewrite (cons_middle c), app_assoc in Hf.
  assert (processing fut s' (cache', t)) as Hp.
  { exists s0, (ps ++ [c]). split_and!; [done..|]. apply Forall_app; split; [done|by constructor]. }
  case_if; [|by eexists].
  destruct (flush_processing fut s' (cache', t) Hp) as (t' & Ht' & Hf' & Hk' & Hty'); [simpl; lia|].
  simpl in Ht'. rewrite Ht'. simpl. eexists. split; [done|]. by apply processing_start.
Qed.

Lemma ProcessChange_other p c : Change_Type c ≠ sink_type → ProcessChange p c = Ret p.
Proof. intros Hn. destruct p as [cache t]. simpl. by rewrite bool_decide_false. Qed.

Lemma ProcessChange_any cs fut s s' p c :
  processing (mine (c :: cs) ++ fut) (of_type sink_type s) p → change_wf ok c → apply_exact s c = Some s' →
  ∃ p', ProcessChange p c = Ret p' ∧ processing (mine cs ++ fut) (of_type sink_type s') p'.
Proof.
  intros Hp Hw Ha. pose proof (apply_exact_type ok sink_type s c s' Hw Ha) as Ht. rewrite filter_cons in Hp.
  destruct (decide (Change_Type c = sink_type)) as [Hty|Hty]; [by eapply ProcessChange_processing|].
  rewrite ProcessChange_other by done. exists p. by rewrite Ht.
Qed.

Lemma ProcessChange_next cs s s' p c :
  processing (mine (c :: cs)) (of_type sink_type s) p → change_wf ok c → apply_exact s c = Some s' →
  ∃ p', ProcessChange p c = Ret p' ∧ processing (mine cs) (of_type sink_type s') p'.
Proof. intros Hp Hw Ha. pose proof (ProcessChange_any cs [] s s' p c) as H. rewrite !app_nil_r in H. by apply H. Qed.

Lemma ProcessChanges_processing cs : ∀ fut s s' p,
  processing (mine cs ++ fut) (of_type sink_type s) p → Forall (change_wf ok) cs → apply_exacts s cs = Some s' →
  ∃ p', mfold ProcessChange p cs = Ret p' ∧ processing fut (of_type sink_type s') p'.
Proof.
  induction cs as [|c cs IH]; intros fut s s' p Hp Hw Ha; simpl in Ha; [injection Ha as <-; eauto|].
  apply Forall_cons in Hw as [Hwc Hw]. destruct (apply_exact s c) as [s1|] eqn:E; [|done]. simpl in Ha.
  destruct (ProcessChange_any cs fut s s1 p c) as (p1 & Hp1 & Hpr); [done..|]. cbn [mfold]. rewrite Hp1. simpl. by eapply IH.
Qed.

Lemma processing_of_type fut s t :
  follows fut (of_type sink_type s) t → keyed ok s → processing fut (of_type sink_type s) (NewLedgerEntryChangeCache, t).
Proof. intros Hf Hk. apply processing_start; [done|by apply of_type_keyed|apply of_type_all]. Qed.

(** The table follows the ledger. *)
Lemma StreamChanges_follows cs fut s s' t :
  follows (mine cs ++ fut) (of_type sink_type s) t → keyed ok s → Forall (change_wf ok) cs → apply_exacts s cs = Some s' →
  ∃ t', StreamChanges cs t = Ret t' ∧ after fut (of_type sink_type s') t'.
Proof.
  intros Hf Hk Hw Ha.
  destruct (ProcessChanges_processing cs fut s s' (NewLedgerEntryChangeCache, t)) as (p & Hp & Hpr);
    [by apply processing_of_type|done..|].
  destruct (Commit_after fut _ p Hpr) as (t' & Ht' & Hf'). exists t'. split; [|done].
  unfold StreamChanges. by rewrite Hp.
Qed.
End laws.

(** ** Tables with one row per entry *)
Section represents.
Context `{LC : LedgerCache} (ok : LedgerEntry → Prop).
Abbreviation K := MarshalBinaryBase64.

(** The three ways a change can apply. *)
Lemma change_cases s c s' :
  keyed ok s → change_wf ok c → apply_exact s c = Some s' →
  ∃ k, change_key K c = Some k ∧
   ((∃ e, Pre c = None ∧ Post c = Some e ∧ s !! k = None ∧ s' = <[k := e]> s ∧
      K (LedgerEntry_LedgerKey e) = Some k ∧ ok e ∧ data_type (Data e) = Change_Type c) ∨
    (∃ e, Pre c = Some e ∧ Post c = None ∧ s !! k = Some e ∧ s' = delete k s ∧
      K (LedgerEntry_LedgerKey e) = Some k ∧ ok e ∧ data_type (Data e) = Change_Type c) ∨
    (∃ e0 e, Pre c = Some e0 ∧ Post c = Some e ∧ s !! k = Some e0 ∧ s' = <[k := e]> s ∧
      K (LedgerEntry_LedgerKey e) = Some k ∧ ok e0 ∧ ok e ∧ LedgerEntry_LedgerKey e0 = LedgerEntry_LedgerKey e ∧
      data_type (Data e0) = Change_Type c ∧ data_type (Data e) = Change_Type c)).
Proof.
  intros Hs Hw Ha. destruct (apply_exact_inv _ _ _ Ha) as (k & Hk & Hp & ->). exists k. split; [done|].
  assert (Hpost : ∀ e, Post c = Some e → K (LedgerEntry_LedgerKey e) = Some k ∧ ok e ∧ data_type (Data e) = Change_Type c).
  { intros e He. split; [by eapply change_key_Post|]. apply (wf_entry ok c e Hw). by right. }
  assert (Hpre : ∀ e, Pre c = Some e → K (LedgerEntry_LedgerKey e) = Some k ∧ ok e ∧ data_type (Data e) = Change_Type c).
  { intros e He. split; [eapply change_key_Pre; [apply Hw|done..]|]. apply (wf_entry ok c e Hw). by left. }
  destruct (Pre c) as [e0|] eqn:E0, (Post c) as [e|] eqn:E1.
  - right; right. exists e0, e. destruct (Hpost e eq_refl) as (? & ? & ?), (Hpre e0 eq_refl) as (? & ? & ?).
    split_and!; try done. by eapply MarshalBinaryBase64_inj.
  - right; left. exists e0. destruct (Hpre e0 eq_refl) as (? & ? & ?). by split_and!.
  - left. exists e. destruct (Hpost e eq_refl) as (? & ? & ?). by split_and!.
  - unfold change_key in Hk. by rewrite E0, E1 in Hk.
Qed.

Context {Kt R : Type} `{Countable Kt} (rkey : R → Kt) (kof : LedgerEntry → Kt) (row_of : LedgerEntry → R).

(** [kof] names the entries of the table, their rows have that key. *)
Record row_keys (ty : LedgerEntryType) : Prop := {
  kof_inj e1 e2 : ok e1 → ok e2 → data_type (Data e1) = ty → data_type (Data e2) = ty → kof e1 = kof e2 →
    LedgerEntry_LedgerKey e1 = LedgerEntry_LedgerKey e2;
  kof_key e1 e2 : data_type (Data e1) = ty → data_type (Data e2) = ty →
    LedgerEntry_LedgerKey e1 = LedgerEntry_LedgerKey e2 → kof e1 = kof e2;
  row_key e : ok e → data_type (Data e) = ty → rkey (row_of e) = kof e }.

Definition represents (s : rows) (t : gmap Kt R) : Prop :=
  (∀ k e, s !! k = Some e → t !! kof e = Some (row_of e)) ∧
  (∀ q r, t !! q = Some r → ∃ k e, s !! k = Some e ∧ kof e = q).

Context (ty : LedgerEntryType) (Hkeys : row_keys ty).

Lemma kof_same s k e e' :
  keyed ok s → all_type ty s → s !! k = Some e' → ok e → data_type (Data e) = ty →
  K (LedgerEntry_LedgerKey e) = Some k → kof e' = kof e.
Proof.
  intros Hs Hty He' Ho Hte Hk. apply (kof_key ty Hkeys); [by eapply Hty|done|].
  eapply MarshalBinaryBase64_inj; [by apply Hs|done].
Qed.

Lemma kof_other s k k' e e' :
  keyed ok s → all_type ty s → s !! k' = Some e' → k' ≠ k → ok e → data_type (Data e) = ty →
  K (LedgerEntry_LedgerKey e) = Some k → kof e' ≠ kof e.
Proof.
  intros Hs Hty He' Hne Ho Hte Hk Heq. destruct (Hs _ _ He') as [Hk' Ho'].
  apply (kof_inj ty Hkeys) in Heq; [|done|done|by eapply Hty|done]. rewrite Heq in Hk'. congruence.
Qed.

Lemma represents_insert s t k e :
  keyed ok s → all_type ty s → represents s t → ok e → data_type (Data e) = ty → K (LedgerEntry_LedgerKey e) = Some k →
  represents (<[k := e]> s) (<[kof e := row_of e]> t).
Proof.
  intros Hs Hty [H1 H2] Ho Hte Hk. split.
  - intros k' e' [[<- <-]|[Hne He']]%lookup_insert_Some; [by rewrite lookup_insert_eq|].
    rewrite lookup_insert_ne; [by eapply H1|]. apply not_eq_sym. by eapply kof_other.
  - intros q r [[<- <-]|[Hne Hr]]%lookup_insert_Some; [exists k, e; by rewrite lookup_insert_eq|].
    destruct (H2 _ _ Hr) as (k' & e' & He' & <-). exists k', e'. split; [|done].
    rewrite lookup_insert_ne; [done|]. intros ->. destruct Hne. symmetry. by eapply kof_same.
Qed.

Lemma represents_delete s t k e :
  keyed ok s → all_type ty s → represents s t → s !! k = Some e → represents (delete k s) (delete (kof e) t).
Proof.
  intros Hs Hty [H1 H2] He. destruct (Hs _ _ He) as [Hk Ho]. split.
  - intros k' e' [Hne He']%lookup_delete_Some. rewrite lookup_delete_ne; [by eapply H1|].
    apply not_eq_sym. eapply kof_other; try done. by eapply Hty.
  - intros q r [Hne Hr]%lookup_delete_Some. destruct (H2 _ _ Hr) as (k' & e' & He' & <-). exists k', e'. split; [|done].
    rewrite lookup_delete_ne; [done|]. intros ->. congruence.
Qed.

(** *** Folding the changes of a flush, some rows still pending *)
Context {B : Type} (step : B → Change → outcome proc_error B) (I : rows → B → Prop) (pend : B → list Kt).

Definition step_follows (c : Change) : Prop := ∀ s b s',
  keyed ok s → all_type ty s → apply_exact s c = Some s' → I s b → (∀ e, e ∈ entries_of c → kof e ∉ pend b) →
  ∃ b', step b c = Ret b' ∧ I s' b' ∧ ∀ q, q ∈ pend b' → q ∈ pend b ∨ ∃ e, e ∈ entries_of c ∧ kof e = q.

Lemma entry_change_key c e : change_wf ok c → e ∈ entries_of c → change_key K c = K (LedgerEntry_LedgerKey e).
Proof.
  intros [Ho _] [Hx|Hx]%entries_of_elem; unfold change_key, change_ok in *; rewrite Hx in Ho |- *; [|done].
  destruct (Post c); [by rewrite Ho|done].
Qed.

Lemma fold_follows cs s s' b :
  Forall (change_wf ok) cs → Forall (λ c, Change_Type c = ty) cs → Forall step_follows cs → NoDup (change_key K <$> cs) →
  keyed ok s → all_type ty s → apply_exacts s cs = Some s' → I s b →
  (∀ c e, c ∈ cs → e ∈ entries_of c → kof e ∉ pend b) →
  ∃ b', mfold step b cs = Ret b' ∧ I s' b'.
Proof.
  revert s b. induction cs as [|c cs IH]; intros s b Hw Hc Hst Hn Hs Hty Ha HI Hp; simpl in *.
  { injection Ha as <-. eauto. }
  apply Forall_cons in Hw as [Hwc Hw], Hc as [Hcc Hc], Hst as [Hstc Hst]. apply NoDup_cons in Hn as [Hnc Hn].
  destruct (apply_exact s c) as [s1|] eqn:E; [|done]. simpl in Ha.
  destruct (Hstc s b s1) as (b1 & -> & HI1 & Hpend); [done..|intros e He; eapply Hp; [by left|done]|]. simpl.
  apply (IH s1 b1); try done.
  - by eapply apply_exact_keyed.
  - by eapply all_type_apply.
  - intros c' e' Hc' He' [Hq|(e & He & Hq)]%Hpend; [by eapply Hp; [right|..]|].
    assert (change_wf ok c' ∧ Change_Type c' = ty) as [Hw' Hty'].
    { rewrite Forall_forall in Hw, Hc. auto. }
    assert (∀ c e, change_wf ok c → Change_Type c = ty → e ∈ entries_of c → ok e ∧ data_type (Data e) = ty) as Hent.
    { intros d f Hwd <- Hf. apply wf_entry; [done|]. by apply entries_of_elem. }
    destruct (Hent c e) as [? ?], (Hent c' e') as [? ?]; try done.
    apply (kof_inj ty Hkeys) in Hq; [|done..]. apply Hnc.
    rewrite (entry_change_key c e), Hq, <- (entry_change_key c' e') by done.
    by apply (list_elem_of_fmap_2 (change_key K)).
Qed.
End represents.

(** *** Rows waiting to be inserted or upserted *)
Section waiting.
Context `{LC : LedgerCache} (ok : LedgerEntry → Prop).
Abbreviation K := MarshalBinaryBase64.
Context {Kt R : Type} `{Countable Kt} (rkey : R → Kt) (kof : LedgerEntry → Kt) (row_of : LedgerEntry → R).
Context (ty : LedgerEntryType) (Hkeys : row_keys ok rkey kof row_of ty).

(** New rows wait for an [INSERT]. *)
Definition inserting (s : rows) (b : list R * gmap Kt R) : Prop :=
  NoDup (rkey <$> b.1) ∧ (∀ r, r ∈ b.1 → b.2 !! rkey r = None) ∧ represents kof row_of s (put rkey b.1 b.2).
(** New and updated rows wait for an upsert. *)
Definition upserting (s : rows) (b : list LedgerEntry * gmap Kt R) : Prop :=
  NoDup (kof <$> b.1) ∧ Forall (λ e, ok e ∧ data_type (Data e) = ty) b.1 ∧
  represents kof row_of s (put rkey (row_of <$> b.1) b.2).

Lemma upserting_keys es : Forall (λ e, ok e ∧ data_type (Data e) = ty) es → rkey <$> (row_of <$> es) = kof <$> es.
Proof.
  intros He. rewrite <- list_fmap_compose. apply Forall_fmap_ext. eapply Forall_impl; [done|].
  intros e [? ?]. by apply (row_key _ _ _ _ _ Hkeys).
Qed.

Lemma represents_fresh s t k e :
  keyed ok s → all_type ty s → represents kof row_of s t → ok e → data_type (Data e) = ty →
  K (LedgerEntry_LedgerKey e) = Some k → s !! k = None → t !! kof e = None.
Proof.
  intros Hs Hty [_ H2] Ho Hte Hk Hn. destruct (t !! kof e) as [r|] eqn:E; [|done]. exfalso.
  destruct (H2 _ _ E) as (k' & e' & He' & Heq). destruct (decide (k' = k)) as [->|Hne]; [congruence|].
  by apply (kof_other ok rkey kof row_of ty Hkeys s k k' e e').
Qed.

Lemma inserting_create s rs t k e :
  keyed ok s → all_type ty s → inserting s (rs, t) → ok e → data_type (Data e) = ty → K (LedgerEntry_LedgerKey e) = Some k →
  s !! k = None → kof e ∉ rkey <$> rs → inserting (<[k := e]> s) (rs ++ [row_of e], t).
Proof.
  intros Hs Hty (Hn & Hf & Hr) Ho Hte Hk Hsk Hq. simpl in *.
  assert (rkey (row_of e) = kof e) as Hrk by by apply (row_key _ _ _ _ _ Hkeys).
  unfold inserting. cbn [fst snd]. split_and!.
  - rewrite fmap_app. apply NoDup_app. split_and!; [done| |apply NoDup_singleton].
    intros q Hq' Hq''. simpl in Hq''. apply list_elem_of_singleton in Hq'' as ->. by rewrite Hrk in Hq'.
  - intros r [Hr'| ->%list_elem_of_singleton]%elem_of_app; [by apply Hf|]. rewrite Hrk.
    rewrite <- (put_other rkey rs) by done. by eapply represents_fresh.
  - rewrite put_app. simpl. rewrite Hrk. by apply (represents_insert ok rkey kof row_of ty Hkeys).
Qed.

Lemma inserting_batch {T} (insert : list R → T → outcome proc_error T) (view : T → gmap Kt R) s rs t r n :
  inserting s (rs ++ [r], view t) →
  (NoDup (rkey <$> (rs ++ [r])) → (∀ r', r' ∈ rs ++ [r] → view t !! rkey r' = None) →
    ∃ t', insert (rs ++ [r]) t = Ret t' ∧ view t' = put rkey (rs ++ [r]) (view t)) →
  ∃ rs' t', batch_add insert n rs r t = Ret (rs', t') ∧ inserting s (rs', view t') ∧
    ((rs' = rs ++ [r] ∧ t' = t) ∨ (rs' = [] ∧ insert (rs ++ [r]) t = Ret t')).
Proof.
  intros (Hn & Hf & Hr) Hins. unfold batch_add. case_if; [|by exists (rs ++ [r]), t; split_and!; [..|left]].
  destruct (Hins Hn Hf) as (t' & Ht' & Hv). rewrite Ht'. exists [], t'. split_and!; [done| |by right].
  unfold inserting; simpl in *. rewrite Hv. split_and!; [by constructor|by intros ? ?%elem_of_nil|done].
Qed.

Lemma inserting_row s rs t k e :
  inserting s (rs, t) → s !! k = Some e → kof e ∉ rkey <$> rs → t !! kof e = Some (row_of e).
Proof. intros (_ & _ & [H1 _]) He Hq. rewrite <- (put_other rkey rs) by done. by eapply H1. Qed.

Lemma inserting_delete s rs t k e :
  keyed ok s → all_type ty s → inserting s (rs, t) → s !! k = Some e → kof e ∉ rkey <$> rs →
  inserting (delete k s) (rs, delete (kof e) t).
Proof.
  intros Hs Hty (Hn & Hf & Hr) He Hq. simpl in *. split_and!; simpl; [done| |].
  - intros r Hr'. rewrite lookup_delete_ne; [by apply Hf|]. intros Heq. apply Hq. rewrite Heq. by apply list_elem_of_fmap_2.
  - rewrite put_delete by done. by apply (represents_delete ok rkey kof row_of ty Hkeys).
Qed.

Lemma inserting_update s rs t k e :
  keyed ok s → all_type ty s → inserting s (rs, t) → ok e → data_type (Data e) = ty → K (LedgerEntry_LedgerKey e) = Some k →
  kof e ∉ rkey <$> rs → inserting (<[k := e]> s) (rs, <[kof e := row_of e]> t).
Proof.
  intros Hs Hty (Hn & Hf & Hr) Ho Hte Hk Hq. simpl in *. split_and!; simpl; [done| |].
  - intros r Hr'. rewrite lookup_insert_ne; [by apply Hf|]. intros Heq. apply Hq. rewrite Heq. by apply list_elem_of_fmap_2.
  - rewrite put_insert by done. by apply (represents_insert ok rkey kof row_of ty Hkeys).
Qed.

Lemma inserting_start s t : represents kof row_of s t → inserting s ([], t).
Proof. intros Hr. split_and!; simpl; [by constructor|by intros ? ?%elem_of_nil|done]. Qed.

Lemma upserting_start s t : represents kof row_of s t → upserting s ([], t).
Proof. intros Hr. split_and!; simpl; [by constructor|by constructor|done]. Qed.

Lemma upserting_put s es t k e :
  keyed ok s → all_type ty s → upserting s (es, t) → ok e → data_type (Data e) = ty → K (LedgerEntry_LedgerKey e) = Some k →
  kof e ∉ kof <$> es → upserting (<[k := e]> s) (es ++ [e], t).
Proof.
  intros Hs Hty (Hn & Hf & Hr) Ho Hte Hk Hq. unfold upserting. cbn [fst snd] in *. split_and!.
  - rewrite fmap_app. apply NoDup_app. split_and!; [done| |apply NoDup_singleton].
    intros q Hq' Hq''. simpl in Hq''. apply list_elem_of_singleton in Hq'' as ->. done.
  - apply Forall_app. split; [done|]. by constructor.
  - rewrite fmap_app, put_app. simpl. rewrite (row_key _ _ _ _ _ Hkeys) by done.
    by apply (represents_insert ok rkey kof row_of ty Hkeys).
Qed.

Lemma upserting_row s es t k e :
  upserting s (es, t) → s !! k = Some e → kof e ∉ kof <$> es → t !! kof e = Some (row_of e).
Proof.
  intros (_ & Hf & [H1 _]) He Hq. rewrite <- (put_other rkey (row_of <$> es)); [by eapply H1|]. by rewrite upserting_keys.
Qed.

Lemma upserting_delete s es t k e :
  keyed ok s → all_type ty s → upserting s (es, t) → s !! k = Some e → kof e ∉ kof <$> es →
  upserting (delete k s) (es, delete (kof e) t).
Proof.
  intros Hs Hty (Hn & Hf & Hr) He Hq. split_and!; simpl in *; [done..|].
  rewrite put_delete by by rewrite upserting_keys. by apply (represents_delete ok rkey kof row_of ty Hkeys).
Qed.
End waiting.
