(* ===== verification/StateProcessors.v ===== *)
(** * aurora: the processors of accounts, data, offers, trust lines and balances

    Models [accounts_processor.go], [account_data_processor.go],
    [offers_processor.go], [trust_lines_processor.go] and
    [claimable_balances_processor.go] of
    [src/services/aurora/internal/ingest/processors], as instances of the
    interface of ChangeProcessor.v. *)

From S2P Require Import Prelude Xdr LedgerEntry ChangeCache HistoryTables ChangeProcessor.

#[local] Opaque address.

(** An update or removal must affect one row. *)
Definition affected {T} (r : Z * T) : outcome proc_error T :=
  let '(rowsAffected, t) := r in
  if negb (rowsAffected =? 1) then Fail (StateErrRows rowsAffected) else Ret t.

Section processors.
Context `{LC : LedgerCache}.
(** The generated marshaller of accounts; [None] is an error. *)
Context (AccountEntry_MarshalBinary : AccountEntry → option (list Z)).

(** ** accounts_processor.go *)
Definition accounts_change (st : list LedgerEntry * AccountTable) (change : Change)
  : outcome proc_error (list LedgerEntry * AccountTable) :=
  let '(batchUpsertAccounts, t) := st in
  changed ← map_fail (λ _, ErrRun) (AccountChangedExceptSigners AccountEntry_MarshalBinary change);
  if negb changed then Ret (batchUpsertAccounts, t) else
  match Pre change, Post change with
  | _, Some post => Ret (batchUpsertAccounts ++ [post], t)
  | Some pre, None =>
      account ← must (account_of pre);
      accountID ← address_of (Account_AccountId account);
      t ← affected (RemoveAccount accountID t);
      Ret (batchUpsertAccounts, t)
  | None, None => Fail ErrInvalidChange
  end.
Definition AccountsProcessor_flush (changes : list Change) (t : AccountTable) : outcome proc_error AccountTable :=
  '(batchUpsertAccounts, t) ← mfold accounts_change ([], t) changes;
  match batchUpsertAccounts with [] => Ret t | _ => UpsertAccounts batchUpsertAccounts t end.

(** ** account_data_processor.go *)
Definition data_change (st : list DataRow * DataTable) (change : Change) : outcome proc_error (list DataRow * DataTable) :=
  let '(batch, t) := st in
  match Pre change, Post change with
  | None, Some post => AccountDataBatch_Add MarshalBinaryBase64 maxBatchSize batch post t
  | Some pre, None =>
      match Data pre with
      | DataData data =>
          r ← RemoveAccountData MarshalBinaryBase64 (Data_AccountId data) (Data_DataName data) t;
          t ← affected r;
          Ret (batch, t)
      | _ => Panic
      end
  | _, Some post =>
      r ← UpdateAccountData MarshalBinaryBase64 post t;
      t ← affected r;
      Ret (batch, t)
  | None, None => Panic
  end.
Definition AccountDataProcessor_flush (changes : list Change) (t : DataTable) : outcome proc_error DataTable :=
  '(batch, t) ← mfold data_change ([], t) changes;
  insert_rows dr_ledger_key batch t.

(** ** offers_processor.go *)
Definition offerCompactionWindow : Z := 100.

Definition insert_offers (rs : list OfferRow) (t : OfferTable) : outcome proc_error OfferTable :=
  rows ← insert_rows or_OfferID rs (offer_rows t);
  Ret (MkOfferTable rows (offer_compaction_sequence t)).

(** [sequence] is the ledger that is processed. *)
Definition offers_change (sequence : Z) (st : list OfferRow * OfferTable) (change : Change)
  : outcome proc_error (list OfferRow * OfferTable) :=
  let '(batch, t) := st in
  match Pre change, Post change with
  | None, Some post =>
      row ← ledgerEntryToRow post;
      batch_add insert_offers maxBatchSize batch row t
  | Some pre, None =>
      match Data pre with
      | DataOffer offer =>
          t ← affected (RemoveOffer (OfferId offer) sequence t);
          Ret (batch, t)
      | _ => Panic
      end
  | _, Some post =>
      row ← ledgerEntryToRow post;
      t ← affected (UpdateOffer row t);
      Ret (batch, t)
  | None, None => Panic
  end.
Definition flushCache (sequence : Z) (changes : list Change) (t : OfferTable) : outcome proc_error OfferTable :=
  '(batch, t) ← mfold (offers_change sequence) ([], t) changes;
  insert_offers batch t.
Definition trim_offers (sequence : Z) (t : OfferTable) : OfferTable :=
  if offerCompactionWindow <? sequence then CompactOffers (sequence - offerCompactionWindow) t else t.

(** ** trust_lines_processor.go *)
Definition trust_lines_change (st : list LedgerEntry * TrustLineTable) (change : Change)
  : outcome proc_error (list LedgerEntry * TrustLineTable) :=
  let '(batchUpsertTrustLines, t) := st in
  match Pre change, Post change with
  | _, Some post => Ret (batchUpsertTrustLines ++ [post], t)
  | Some pre, None =>
      match Data pre with
      | DataTrustLine trustLine =>
          r ← RemoveTrustLine MarshalBinaryBase64 (TrustLine_AccountId trustLine) (TrustLine_Asset trustLine) t;
          t ← affected r;
          Ret (batchUpsertTrustLines, t)
      | _ => Panic
      end
  | None, None => Fail ErrInvalidChange
  end.
Definition TrustLinesProcessor_flush (changes : list Change) (t : TrustLineTable) : outcome proc_error TrustLineTable :=
  '(batchUpsertTrustLines, t) ← mfold trust_lines_change ([], t) changes;
  match batchUpsertTrustLines with [] => Ret t | _ => UpsertTrustLines MarshalBinaryBase64 batchUpsertTrustLines t end.

(** ** claimable_balances_processor.go *)
Definition balances_change (st : list ClaimableBalanceRow * BalanceTable) (change : Change)
  : outcome proc_error (list ClaimableBalanceRow * BalanceTable) :=
  let '(batch, t) := st in
  match Pre change, Post change with
  | None, Some post => ClaimableBalancesBatch_Add maxBatchSize batch post t
  | Some pre, None =>
      match Data pre with
      | DataClaimableBalance cBalance =>
          t ← affected (RemoveClaimableBalance cBalance t);
          Ret (batch, t)
      | _ => Panic
      end
  | _, Some post =>
      r ← UpdateClaimableBalance post t;
      t ← affected r;
      Ret (batch, t)
  | None, None => Panic
  end.
Definition ClaimableBalancesProcessor_flush (changes : list Change) (t : BalanceTable) : outcome proc_error BalanceTable :=
  '(batch, t) ← mfold balances_change ([], t) changes;
  insert_balances batch t.

(** The processors *)
#[export] Instance AccountsProcessor : ChangeProcessor AccountTable :=
  { sink_type := TypeAccount; flush := AccountsProcessor_flush; finish := id }.
#[export] Instance AccountDataProcessor : ChangeProcessor DataTable :=
  { sink_type := TypeData; flush := AccountDataProcessor_flush; finish := id }.
Definition OffersProcessor (sequence : Z) : ChangeProcessor OfferTable :=
  {| sink_type := TypeOffer; flush := flushCache sequence; finish := trim_offers sequence |}.
#[export] Instance TrustLinesProcessor : ChangeProcessor TrustLineTable :=
  { sink_type := TypeTrustline; flush := TrustLinesProcessor_flush; finish := id }.
#[export] Instance ClaimableBalancesProcessor : ChangeProcessor BalanceTable :=
  { sink_type := TypeClaimableBalance; flush := ClaimableBalancesProcessor_flush; finish := id }.
End processors.

(** ** The entries of a well-formed ledger

    An offer id belongs to one account, and the id of a claimable balance names
    its claimants, asset and amount (it is a hash of the operation that creates
    it). *)
Record Names := { seller_of : Z → AccountId; contents_of : ClaimableBalanceId → list Claimant * Asset * Z }.

Definition wf_sponsor (o : option AccountId) : Prop := ∀ a, o = Some a → wf_account a.

(** The bytes by which hcnet-core sorts the signers of an account. *)
Definition signer_rank (s : Signer) : gostring :=
  match Key s with
  | SignerKeyTypeEd25519 k => 0 :: k
  | SignerKeyTypePreAuthTx k => 1 :: k
  | SignerKeyTypeHashX k => 2 :: k
  end.
Definition signer_text (s : Signer) : gostring := signer_string (Key s).

Record account_wf (a : AccountEntry) : Prop := {
  account_id_wf : wf_account (Account_AccountId a);
  inflation_wf : wf_sponsor (Account_InflationDest a);
  signers_wf : Forall (λ s, wf_signer (Key s)) (Signers a);
  signers_ranked : StronglySorted (λ s1 s2, str_ltb (signer_rank s1) (signer_rank s2) = true) (Signers a);
  signers_not_master : address (Account_AccountId a) ∉ signer_text <$> Signers a;
  signers_weights : Forall (λ s, 0 ≤ Weight s < 2 ^ 31) (Signers a);
  master_weight_wf : 0 ≤ th_master (Account_Thresholds a) < 2 ^ 8;
  sponsors_length : length (SignerSponsoringIDs a) = length (Signers a);
  sponsors_wf : Forall wf_sponsor (SignerSponsoringIDs a) }.

Definition entry_wf (names : Names) (e : LedgerEntry) : Prop :=
  wf_sponsor (SponsoringID e) ∧
  match Data e with
  | DataAccount a => account_wf a
  | DataTrustLine t => wf_account (TrustLine_AccountId t) ∧ valid_asset (TrustLine_Asset t) ∧
      TrustLine_Asset t ≠ AssetTypeNative ∧ 0 ≤ TrustLine_Balance t < 2 ^ 63
  | DataOffer o => wf_account (SellerId o) ∧ SellerId o = seller_of names (OfferId o)
  | DataData d => wf_account (Data_AccountId d)
  | DataClaimableBalance b =>
      contents_of names (ClaimableBalance_BalanceId b) = (Claimants b, ClaimableBalance_Asset b, ClaimableBalance_Amount b) ∧
      0 < ClaimableBalance_Amount b ∧ NoDup ((λ c, address (Destination c)) <$> Claimants b) ∧
      Forall (λ c, wf_account (Destination c)) (Claimants b)
  end.

(** Entries whose key has a text. *)
Definition named `{LC : LedgerCache} (names : Names) (e : LedgerEntry) : Prop :=
  entry_wf names e ∧ is_Some (MarshalBinaryBase64 (LedgerEntry_LedgerKey e)).

(** ** The rows of the entries *)
Definition sponsor_text (e : LedgerEntry) : nullString := address <$> SponsoringID e.

Lemma address_of_total a : address_of a = Ret (address a).
Proof. unfold address_of. by rewrite Address_total. Qed.

Lemma sponsor_total e : ledgerEntrySponsorToNullString e = Ret (sponsor_text e).
Proof. unfold ledgerEntrySponsorToNullString, sponsor_text. destruct (SponsoringID e); [by rewrite address_of_total|done]. Qed.

Definition account_key (e : LedgerEntry) : gostring :=
  match Data e with DataAccount a => address (Account_AccountId a) | _ => [] end.
Definition account_row (e : LedgerEntry) : AccountRow :=
  match Data e with
  | DataAccount a =>
      let th := Account_Thresholds a in
      MkAccountRow (address (Account_AccountId a)) (Account_Balance a) (Liabilities_Buying (AccountEntry_Liabilities a))
        (Liabilities_Selling (AccountEntry_Liabilities a)) (Account_SeqNum a) (Account_NumSubEntries a)
        (match Account_InflationDest a with Some d => address d | None => [] end) (Account_HomeDomain a) (Account_Flags a)
        (th_master th) (th_low th) (th_med th) (th_high th) (LastModifiedLedgerSeq e) (sponsor_text e)
        (NumSponsored a) (NumSponsoring a)
  | _ => MkAccountRow [] 0 0 0 0 0 [] [] 0 0 0 0 0 0 None 0 0
  end.

Lemma accountToMap_total e : data_type (Data e) = TypeAccount → accountToMap e = Ret (account_row e).
Proof.
  unfold accountToMap, account_row. destruct (Data e) as [a|t|o|d|b]; try done. intros _.
  rewrite sponsor_total. outcome_simpl. destruct (Account_InflationDest a); simpl; rewrite ?address_of_total; simpl;
    rewrite ?address_of_total; done.
Qed.

Lemma account_keys `{LC : LedgerCache} names :
  row_keys (named names) ar_AccountID account_key account_row TypeAccount.
Proof.
  split; unfold account_key, account_row, LedgerEntry_LedgerKey.
  - intros e1 e2 [[_ H1] _] [[_ H2] _]. destruct (Data e1); try done. destruct (Data e2); try done. intros _ _ Heq.
    f_equal. apply address_inj; [apply H1|apply H2|done].
  - intros e1 e2. destruct (Data e1); try done. destruct (Data e2); try done. by intros _ _ [= ->].
  - intros e _. by destruct (Data e).
Qed.

Definition ledger_key_text `{LC : LedgerCache} (e : LedgerEntry) : gostring :=
  default [] (MarshalBinaryBase64 (LedgerEntry_LedgerKey e)).

Definition data_row (key : gostring) (e : LedgerEntry) : DataRow :=
  match Data e with
  | DataData d => MkDataRow key (address (Data_AccountId d)) (Data_DataName d) (Data_DataValue d)
                    (LastModifiedLedgerSeq e) (sponsor_text e)
  | _ => MkDataRow key [] [] [] 0 None
  end.

Definition offer_key (e : LedgerEntry) : Z := match Data e with DataOffer o => OfferId o | _ => 0 end.
Definition offer_row (e : LedgerEntry) : OfferRow :=
  match Data e with
  | DataOffer o => MkOfferRow (address (SellerId o)) (OfferId o) (Selling o) (Buying o) (Amount o) (Price.N (OfferPrice o))
                     (Price.D (OfferPrice o)) (Flags o) false (LastModifiedLedgerSeq e) (sponsor_text e)
  | _ => MkOfferRow [] 0 AssetTypeNative AssetTypeNative 0 0 0 0 false 0 None
  end.

Definition trust_line_row (key : gostring) (e : LedgerEntry) : TrustLineRow :=
  match Data e with
  | DataTrustLine t =>
      let '(assetType, assetCode, assetIssuer) :=
        match ExtractType (TrustLine_Asset t) with Ret x => x | _ => (0, [], []) end in
      MkTrustLineRow key (address (TrustLine_AccountId t)) assetType assetIssuer assetCode (TrustLine_Balance t)
        (TrustLine_Limit t) (Liabilities_Buying (TrustLineEntry_Liabilities t))
        (Liabilities_Selling (TrustLineEntry_Liabilities t)) (TrustLine_Flags t) (LastModifiedLedgerSeq e) (sponsor_text e)
  | _ => MkTrustLineRow key [] 0 [] [] 0 0 0 0 0 0 None
  end.

Definition balance_key (e : LedgerEntry) : ClaimableBalanceId :=
  match Data e with DataClaimableBalance b => ClaimableBalance_BalanceId b | _ => MkClaimableBalanceId [] end.
Definition balance_row (e : LedgerEntry) : ClaimableBalanceRow :=
  match Data e with
  | DataClaimableBalance b =>
      MkBalanceRow (ClaimableBalance_BalanceId b) ((λ c, MkHistoryClaimant (address (Destination c)) (Predicate c)) <$> Claimants b)
        (ClaimableBalance_Asset b) (ClaimableBalance_Amount b) (sponsor_text e) (LastModifiedLedgerSeq e)
  | _ => MkBalanceRow (MkClaimableBalanceId []) [] AssetTypeNative 0 None 0
  end.

Lemma ledgerEntryToRow_total e : data_type (Data e) = TypeOffer → ledgerEntryToRow e = Ret (offer_row e).
Proof.
  unfold ledgerEntryToRow, offer_row. destruct (Data e); try done. intros _.
  rewrite sponsor_total, address_of_total. done.
Qed.

Lemma ExtractType_total a : ∃ t c i, ExtractType a = Ret (t, c, i).
Proof.
  destruct a as [|code issuer|code issuer]; unfold ExtractType, Extract; [by eexists _, _, _|..]; rewrite Encode_address; outcome_simpl; by eexists _, _, _.
Qed.

Lemma trustLineToMap_total key e :
  data_type (Data e) = TypeTrustline → trustLineToMap key e = Ret (trust_line_row key e).
Proof.
  unfold trustLineToMap, trust_line_row. destruct (Data e) as [a|t|o|d|b]; try done. intros _.
  destruct (ExtractType_total (TrustLine_Asset t)) as (ty & c & i & ->). rewrite sponsor_total, address_of_total. done.
Qed.

Lemma buildClaimants_total cs :
  buildClaimants cs = Ret ((λ c, MkHistoryClaimant (address (Destination c)) (Predicate c)) <$> cs).
Proof.
  apply (mfold_map _ (λ c, MkHistoryClaimant (address (Destination c)) (Predicate c)) cs []).
  intros acc c _. by rewrite address_of_total.
Qed.

Section keys.
Context `{LC : LedgerCache} (names : Names).

Lemma offer_keys : row_keys (named names) or_OfferID offer_key offer_row TypeOffer.
Proof.
  split; unfold offer_key, offer_row, LedgerEntry_LedgerKey.
  - intros e1 e2 [[_ H1] _] [[_ H2] _]. destruct (Data e1); try done. destruct (Data e2); try done. intros _ _ Heq.
    destruct H1 as [_ ->], H2 as [_ ->]. by rewrite Heq.
  - intros e1 e2. destruct (Data e1); try done. destruct (Data e2); try done. by intros _ _ [= _ ->].
  - intros e _. by destruct (Data e).
Qed.

Lemma balance_keys : row_keys (named names) cr_BalanceID balance_key balance_row TypeClaimableBalance.
Proof.
  split; unfold balance_key, balance_row, LedgerEntry_LedgerKey.
  - intros e1 e2 _ _. destruct (Data e1); try done. destruct (Data e2); try done. by intros _ _ ->.
  - intros e1 e2. destruct (Data e1); try done. destruct (Data e2); try done. by intros _ _ [= ->].
  - intros e _. by destruct (Data e).
Qed.

Lemma text_keys {R} (rkey : R → gostring) (row : gostring → LedgerEntry → R) ty :
  (∀ k e, rkey (row k e) = k) →
  row_keys (named names) rkey ledger_key_text (λ e, row (ledger_key_text e) e) ty.
Proof.
  intros Hr. split; unfold ledger_key_text.
  - intros e1 e2 [_ [k1 H1]] [_ [k2 H2]] _ _ Heq. rewrite H1, H2 in Heq. simpl in Heq. subst.
    by eapply MarshalBinaryBase64_inj.
  - by intros e1 e2 _ _ ->.
  - intros e _ _. apply Hr.
Qed.
End keys.

(** ** The tables follow the ledger *)
Section laws.
Context `{LC : LedgerCache} (names : Names) (AccountEntry_MarshalBinary : AccountEntry → option (list Z)).
Abbreviation K := MarshalBinaryBase64.
Abbreviation ok := (named names).

Lemma affected_1 {T} (t : T) : affected (1, t) = Ret t.
Proof. done. Qed.

(** What the laws say about a change of the squashed list. *)
Lemma squashed_sides ps cs s0 s c :
  squashes ok ps cs s0 s → c ∈ cs →
  ∃ k, change_key K c = Some k ∧ Pre c = s0 !! k ∧
    (∃ c', c' ∈ ps ∧ Pre c' = Pre c) ∧ (∃ c', c' ∈ ps ∧ Post c' = Post c).
Proof.
  intros Hsq Hc. destruct (apply_exacts_keys _ _ _ _ (squash_apply _ _ _ _ _ Hsq) Hc) as [k Hk].
  destruct (squash_pre _ _ _ _ _ Hsq c k Hc Hk) as [Hp _].
  destruct (squash_from _ _ _ _ _ Hsq c Hc) as [(c1 & ? & ? & _) (c2 & ? & ? & _)].
  exists k. split_and!; eauto.
Qed.

Lemma pend_snoc {Kt} (f : LedgerEntry → Kt) es e c q :
  Post c = Some e → q ∈ f <$> (es ++ [e]) → q ∈ f <$> es ∨ ∃ e', e' ∈ entries_of c ∧ f e' = q.
Proof.
  intros Hp. rewrite fmap_app, elem_of_app. simpl. rewrite list_elem_of_singleton. intros [?| ->]; [by left|right].
  exists e. split; [|done]. apply entries_of_elem. by right.
Qed.

(** *** Accounts

    Within a ledger [seq], [AccountChangedExceptSigners] recognises an update by
    the ledger of the entry, which is [seq] after it and was not before, as long
    as the cache is not flushed before the end of the ledger; a history archive
    only has creations. *)
Definition accounts_follow (seq : Z) (fut : list Change) (s : rows) (t : AccountTable) : Prop :=
  represents account_key account_row s t ∧
  ((∀ c, c ∈ fut → Pre c = None) ∨
   (Z.of_nat (length fut) ≤ maxBatchSize ∧ (∀ k e, s !! k = Some e → LastModifiedLedgerSeq e ≠ seq) ∧
    ∀ c e, c ∈ fut → Post c = Some e → LastModifiedLedgerSeq e = seq)).

Lemma accounts_step c :
  change_wf ok c → Change_Type c = TypeAccount →
  (∀ e0 e, Pre c = Some e0 → Post c = Some e → LastModifiedLedgerSeq e0 ≠ LastModifiedLedgerSeq e) →
  step_follows ok account_key TypeAccount (accounts_change AccountEntry_MarshalBinary)
    (upserting ok ar_AccountID account_key account_row TypeAccount) (λ b, account_key <$> b.1) c.
Proof.
  intros Hw Hty Hlm s [es t] s' Hs Hst Ha HI Hp. pose proof (account_keys names) as HK.
  destruct (change_cases ok s c s' Hs Hw Ha) as (k & Hk & [(e & Hpre & Hpost & Hsk & -> & Hke & Ho & Hte)|
    [(e & Hpre & Hpost & Hsk & -> & Hke & Ho & Hte)|(e0 & e & Hpre & Hpost & Hsk & -> & Hke & Ho0 & Ho & Heq & Hte0 & Hte)]]);
    rewrite Hty in *; unfold accounts_change, AccountChangedExceptSigners; rewrite Hty, bool_decide_true by done;
    rewrite Hpre, Hpost; cbn [negb map_fail outcome_bind]; outcome_simpl.
  - eexists. split; [done|]. split; [apply (upserting_put ok _ _ _ _ HK); try done|].
    + apply Hp, entries_of_elem. by right.
    + intros q. by apply pend_snoc.
  - assert (account_key e ∉ account_key <$> es) as Hq by (apply (Hp e), entries_of_elem; by left).
    pose proof (upserting_row ok _ _ _ _ HK _ _ _ _ _ HI Hsk Hq) as Hrow.
    pose proof (upserting_delete ok _ _ _ _ HK _ _ _ _ _ Hs Hst HI Hsk Hq) as HI'.
    unfold account_of. destruct (Data e) as [a| | | |] eqn:Ed; try done. cbn [negb must outcome_bind].
    assert (account_key e = address (Account_AccountId a)) as Hak by (unfold account_key; by rewrite Ed).
    rewrite Hak in Hrow, HI'. rewrite address_of_total. cbn [outcome_bind]. unfold RemoveAccount. rewrite (delete_row_Some _ _ _ Hrow), affected_1.
    cbn [outcome_bind]. eexists. split; [done|]. split; [exact HI'|]. auto.
  - specialize (Hlm e0 e Hpre Hpost). rewrite (proj2 (Z.eqb_neq _ _) Hlm). cbn [negb outcome_bind].
    eexists. split; [done|]. split; [apply (upserting_put ok _ _ _ _ HK); try done|].
    + apply Hp, entries_of_elem. by right.
    + intros q. by apply pend_snoc.
Qed.
Lemma UpsertAccounts_total es t :
  Forall (λ e, ok e ∧ data_type (Data e) = TypeAccount) es → NoDup (account_key <$> es) →
  UpsertAccounts es t = Ret (put ar_AccountID (account_row <$> es) t).
Proof.
  intros He Hn. unfold UpsertAccounts. rewrite (mfold_map _ account_row es []).
  - outcome_simpl. apply upsert_rows_put. by rewrite (upserting_keys ok _ _ _ _ (account_keys names)).
  - rewrite Forall_forall in He. intros acc e [_ Hte]%He. rewrite bool_decide_true by done. by rewrite accountToMap_total.
Qed.

(** Folding the squashed changes with a step that is known to follow. *)
Lemma flush_fold {B Kt R} `{Countable Kt} (rkey : R → Kt) (kof : LedgerEntry → Kt) (row : LedgerEntry → R)
    (ty : LedgerEntryType) (step : B → Change → outcome proc_error B) (I : rows → B → Prop) (pend : B → list Kt)
    (ps cs : list Change) (s0 s : rows) (b : B) :
  row_keys ok rkey kof row ty → keyed ok s0 → all_type ty s0 → squashes ok ps cs s0 s →
  Forall (λ c, change_wf ok c ∧ Change_Type c = ty) ps → I s0 b → pend b = [] →
  (∀ c, c ∈ cs → change_wf ok c → Change_Type c = ty → step_follows ok kof ty step I pend c) →
  ∃ b', mfold step b cs = Ret b' ∧ I s b'.
Proof.
  intros HK Hk Hty Hsq Hps HI Hb Hst. pose proof (squashes_type ok ty ps cs s0 s Hsq Hps) as Hct.
  pose proof (squash_wf _ _ _ _ _ Hsq) as Hw.
  apply (fold_follows ok rkey kof row ty HK step I pend cs s0 s b); try done.
  - rewrite Forall_forall in Hct, Hw. apply Forall_forall. auto.
  - apply Hsq.
  - apply Hsq.
  - intros c e _ _. rewrite Hb. apply not_elem_of_nil.
Qed.

Lemma accounts_flush seq fut ps cs s0 s t :
  accounts_follow seq (ps ++ fut) s0 t → keyed ok s0 → all_type TypeAccount s0 → squashes ok ps cs s0 s →
  Forall (λ c, change_wf ok c ∧ Change_Type c = TypeAccount) ps →
  ∃ t', AccountsProcessor_flush AccountEntry_MarshalBinary cs t = Ret t' ∧ represents account_key account_row s t'.
Proof.
  intros [Hr Hlm] Hk Hty Hsq Hps. unfold AccountsProcessor_flush.
  destruct (flush_fold ar_AccountID account_key account_row TypeAccount (accounts_change AccountEntry_MarshalBinary)
    (upserting ok ar_AccountID account_key account_row TypeAccount) (λ b, account_key <$> b.1) ps cs s0 s ([], t))
    as ([es t'] & -> & Hn & Hes & Hr'); [apply account_keys|done..|by apply upserting_start|done| |].
  { intros c Hc Hw Hct. apply accounts_step; [done..|]. intros e0 e Hpre Hpost.
    destruct (squashed_sides ps cs s0 s c Hsq Hc) as (k & _ & Hp0 & (c1 & H1 & Hp1) & (c2 & H2 & Hp2)).
    destruct Hlm as [Hlm|(_ & Hs0 & Hfut)].
    - specialize (Hlm c1). rewrite Hp1, Hpre in Hlm. by discriminate Hlm; apply elem_of_app; left.
    - rewrite (Hfut c2 e); [|apply elem_of_app; by left|by rewrite Hp2]. eapply (Hs0 k). by rewrite <- Hp0. }
  outcome_simpl. exists (put ar_AccountID (account_row <$> es) t'). split; [|done].
  destruct es as [|e es]; [done|]. by apply UpsertAccounts_total.
Qed.

#[export] Instance accounts_laws seq :
  ProcessorLaws (ChangeProcessor0 := AccountsProcessor AccountEntry_MarshalBinary) ok (accounts_follow seq)
    (λ _, represents account_key account_row).
Proof.
  split; cbn [flush sink_type finish AccountsProcessor].
  - intros fut ps cs s0 s t Hf Hk Hty Hsq Hps Hsz. destruct (accounts_flush seq fut ps cs s0 s t) as (t' & -> & Hr); [done..|].
    exists t'. split; [done|]. split; [done|]. left. destruct Hf as [_ [Hlm|(Hl & _)]]; [intros c Hc; apply Hlm, elem_of_app; by right|].
    pose proof (squash_length _ _ _ _ _ Hsq). rewrite length_app in Hl. lia.
  - intros fut ps cs s0 s t Hf Hk Hty Hsq Hps. by apply (accounts_flush seq fut ps cs s0 s t).
Qed.

(** *** Account data *)
Definition data_key : LedgerEntry → gostring := ledger_key_text.
Definition data_rows (e : LedgerEntry) : DataRow := data_row (ledger_key_text e) e.
Lemma data_keys : row_keys ok dr_ledger_key data_key data_rows TypeData.
Proof. apply (text_keys names dr_ledger_key data_row). intros k e. unfold data_row. by destruct (Data e). Qed.

Lemma ledger_key_string k e : K (LedgerEntry_LedgerKey e) = Some k →
  ledger_key_text e = k ∧ ledgerKeyToString K (LedgerEntry_LedgerKey e) = Ret k.
Proof. intros Hk. unfold ledger_key_text, ledgerKeyToString. by rewrite Hk. Qed.

Lemma data_step c :
  change_wf ok c → Change_Type c = TypeData →
  step_follows ok data_key TypeData data_change (inserting dr_ledger_key data_key data_rows) (λ b, dr_ledger_key <$> b.1) c.
Proof.
  intros Hw Hty s [rs t] s' Hs Hst Ha HI Hp. pose proof data_keys as HK.
  destruct (change_cases ok s c s' Hs Hw Ha) as (k & Hk & [(e & Hpre & Hpost & Hsk & -> & Hke & Ho & Hte)|
    [(e & Hpre & Hpost & Hsk & -> & Hke & Ho & Hte)|(e0 & e & Hpre & Hpost & Hsk & -> & Hke & Ho0 & Ho & Heq & Hte0 & Hte)]]);
    rewrite Hty in *; unfold data_change; rewrite Hpre, Hpost;
    (assert (data_key e ∉ dr_ledger_key <$> rs) as Hq by (apply (Hp e), entries_of_elem; auto));
    destruct (ledger_key_string k e Hke) as [Htx Hstr].
  - pose proof (inserting_create ok _ _ _ _ HK s rs t k e Hs Hst HI Ho Hte Hke Hsk Hq) as HI'.
    destruct (inserting_batch dr_ledger_key data_key data_rows (insert_rows dr_ledger_key) id _ rs t (data_rows e) maxBatchSize HI')
      as (rs' & t' & Hb & HI'' & Hpe); [intros; eexists; split; [by apply insert_rows_put|done]|].
    exists (rs', t'). split; [|split; [done|]].
    + revert Hb. unfold AccountDataBatch_Add, dataEntryToLedgerKeyString, data_rows, data_row. rewrite Htx.
      destruct (Data e) as [| | |d|] eqn:Ed; try done. rewrite Hstr. outcome_simpl. cbn [outcome_bind].
      rewrite address_of_total, sponsor_total. done.
    + intros q. simpl. destruct Hpe as [[-> _]|[-> _]]; [|by intros ?%elem_of_nil].
      rewrite fmap_app, elem_of_app. intros [?| ->%list_elem_of_singleton]; [by left|right].
      exists e. split; [apply entries_of_elem; by right|]. symmetry. by apply (row_key _ _ _ _ _ HK).
  - pose proof (inserting_row _ _ _ _ _ _ _ _ HI Hsk Hq) as Hrow.
    pose proof (inserting_delete ok _ _ _ _ HK _ _ _ _ _ Hs Hst HI Hsk Hq) as HI'.
    unfold data_key in Hrow, HI'. rewrite Htx in Hrow, HI'.
    unfold LedgerEntry_LedgerKey in Hstr. destruct (Data e) as [| | |d|] eqn:Ed; try done.
    unfold RemoveAccountData, ledgerKeyDataToString. rewrite Hstr. outcome_simpl. cbn [outcome_bind].
    rewrite (delete_row_Some _ _ _ Hrow), affected_1. cbn [outcome_bind]. eexists. split; [done|]. split; [exact HI'|]. auto.
  - assert (data_key e0 = data_key e) as Hkk by by apply (kof_key _ _ _ _ _ HK).
    pose proof (inserting_row _ _ _ _ _ _ _ _ HI Hsk) as Hrow. rewrite Hkk in Hrow. specialize (Hrow Hq).
    pose proof (inserting_update ok _ _ _ _ HK _ _ _ _ _ Hs Hst HI Ho Hte Hke Hq) as HI'.
    unfold data_key in Hrow, HI'. rewrite Htx in Hrow, HI'.
    eexists. split; [|split; [exact HI'|auto]].
    unfold UpdateAccountData, dataEntryToLedgerKeyString.
    unfold data_rows, data_row in *. rewrite Htx in *. unfold LedgerEntry_LedgerKey in Heq.
    destruct (Data e0) as [| | |d0|] eqn:Ed0; try done. destruct (Data e) as [| | |d|] eqn:Ed; try done.
    rewrite Hstr. outcome_simpl. cbn [outcome_bind]. rewrite sponsor_total. cbn [outcome_bind].
    rewrite (update_row_Some _ _ _ _ Hrow), affected_1. injection Heq as -> ->.
    unfold data_key in Hkk. cbn. by rewrite Hkk, Htx.
Qed.

#[export] Instance data_laws :
  ProcessorLaws (ChangeProcessor0 := AccountDataProcessor) ok (λ _, represents data_key data_rows)
    (λ _, represents data_key data_rows).
Proof.
  apply laws_intro; [|done]. intros fut ps cs s0 s t Hr Hk Hty Hsq Hps. cbn [flush sink_type AccountDataProcessor] in *.
  unfold AccountDataProcessor_flush.
  destruct (flush_fold dr_ledger_key data_key data_rows TypeData data_change
    (inserting dr_ledger_key data_key data_rows) (λ b, dr_ledger_key <$> b.1) ps cs s0 s ([], t))
    as ([rs t'] & -> & Hn & Hf & Hr'); [apply data_keys|done..|by apply inserting_start|done| |].
  { intros c _. apply data_step. }
  outcome_simpl. eexists. split; [by apply insert_rows_put|done].
Qed.

(** *** Offers

    A removed offer stays in the table, marked as deleted: what follows the
    ledger are the live rows, and an id is created once. *)
Definition live (m : gmap Z OfferRow) : gmap Z OfferRow := filter (λ '(_, r), or_Deleted r = false) m.
Definition created (c : Change) : list Z :=
  match Pre c, Post c with None, Some e => [offer_key e] | _, _ => [] end.
Definition created_ids (cs : list Change) : list Z := cs ≫= created.

Definition offers_follow (fut : list Change) (s : rows) (t : OfferTable) : Prop :=
  represents offer_key offer_row s (live (offer_rows t)) ∧ NoDup (created_ids fut) ∧
  ∀ q, q ∈ created_ids fut → offer_rows t !! q = None.

Lemma live_insert q r m : or_Deleted r = false → live (<[q := r]> m) = <[q := r]> (live m).
Proof. intros Hr. by apply map_filter_insert_True. Qed.

Lemma live_insert_deleted q r m : or_Deleted r = true → live (<[q := r]> m) = delete q (live m).
Proof. intros Hr. unfold live. rewrite map_filter_insert_False by by rewrite Hr. apply map_filter_delete. Qed.

Lemma live_put rs m : Forall (λ r, or_Deleted r = false) rs → live (put or_OfferID rs m) = put or_OfferID rs (live m).
Proof.
  intros Hrs. revert m. induction Hrs as [|r rs Hr _ IH]; intros m; simpl; [done|]. by rewrite IH, live_insert.
Qed.

Lemma live_Some q r m : live m !! q = Some r → m !! q = Some r ∧ or_Deleted r = false.
Proof. unfold live. by rewrite map_lookup_filter_Some. Qed.

Lemma insert_offers_put rs t :
  NoDup (or_OfferID <$> rs) → (∀ r, r ∈ rs → offer_rows t !! or_OfferID r = None) →
  insert_offers rs t = Ret (MkOfferTable (put or_OfferID rs (offer_rows t)) (offer_compaction_sequence t)).
Proof. intros Hn Hf. unfold insert_offers. by rewrite insert_rows_put. Qed.

(** The rows that wait in the batch are live and new, [t0] is the table before
    the flush, which creates offers of [ids] only. *)
Definition offers_inserting (ids : list Z) (t0 : OfferTable) (s : rows) (b : list OfferRow * OfferTable) : Prop :=
  inserting or_OfferID offer_key offer_row s (b.1, live (offer_rows b.2)) ∧
  Forall (λ r, or_Deleted r = false ∧ offer_rows b.2 !! or_OfferID r = None ∧ or_OfferID r ∈ ids) b.1 ∧
  ∀ q, is_Some (offer_rows b.2 !! q) → is_Some (offer_rows t0 !! q) ∨ q ∈ ids.
Definition offers_touched (t0 : OfferTable) (b : list OfferRow * OfferTable) : list Z :=
  (or_OfferID <$> b.1) ++ filter (λ q, offer_rows t0 !! q = None) (map_to_list (offer_rows b.2)).*1.

Lemma offers_touched_elem t0 b q :
  q ∈ offers_touched t0 b ↔ q ∈ or_OfferID <$> b.1 ∨ (offer_rows t0 !! q = None ∧ is_Some (offer_rows b.2 !! q)).
Proof.
  unfold offers_touched. rewrite elem_of_app, list_elem_of_filter. apply or_iff_compat_l, and_iff_compat_l.
  rewrite list_elem_of_fmap. split.
  - intros ([q' r] & -> & Hq%elem_of_map_to_list). by eexists.
  - intros [r Hq]. exists (q, r). by rewrite elem_of_map_to_list.
Qed.
Lemma put_dom rs (m : gmap Z OfferRow) q :
  is_Some (put or_OfferID rs m !! q) → is_Some (m !! q) ∨ q ∈ or_OfferID <$> rs.
Proof. intros Hi. destruct (decide (q ∈ or_OfferID <$> rs)); [by right|left]. by rewrite put_other in Hi. Qed.

(** A new offer is added to the batch, or the batch is inserted. *)
Lemma offers_batch ids t0 s k e rs t :
  inserting or_OfferID offer_key offer_row (<[k := e]> s) (rs ++ [offer_row e], live (offer_rows t)) →
  Forall (λ r, or_Deleted r = false ∧ offer_rows t !! or_OfferID r = None ∧ or_OfferID r ∈ ids) (rs ++ [offer_row e]) →
  (∀ q, is_Some (offer_rows t !! q) → is_Some (offer_rows t0 !! q) ∨ q ∈ ids) →
  ∃ b, batch_add insert_offers maxBatchSize rs (offer_row e) t = Ret b ∧ offers_inserting ids t0 (<[k := e]> s) b ∧
    ∀ q, q ∈ offers_touched t0 b → q ∈ offers_touched t0 (rs ++ [offer_row e], t).
Proof.
  intros HI Hrs Hdom.
  assert (∀ r, r ∈ rs ++ [offer_row e] → offer_rows t !! or_OfferID r = None) as Hnew.
  { intros r Hr. rewrite Forall_forall in Hrs. by apply Hrs. }
  pose proof (λ Hn, insert_offers_put (rs ++ [offer_row e]) t Hn Hnew) as Hput.
  destruct (inserting_batch or_OfferID offer_key offer_row insert_offers (λ t, live (offer_rows t)) _ rs t (offer_row e) maxBatchSize HI)
    as (rs' & t' & Hb & HI' & [[-> ->]|[-> Hins]]).
  - intros Hn _. eexists. split; [by apply Hput|]. apply live_put. eapply Forall_impl; [done|]. by intros ? (? & _).
  - by exists (rs ++ [offer_row e], t).
  - rewrite Hput in Hins by by apply HI. injection Hins as <-. eexists. split; [done|]. split; [split_and!; [done|done|]|]; simpl.
    + intros q [?|(r & -> & Hr)%list_elem_of_fmap]%put_dom; [by apply Hdom|]. right. rewrite Forall_forall in Hrs. by apply Hrs.
    + intros q. rewrite !offers_touched_elem. simpl. intros [Hq%elem_of_nil|[? [?|?]%put_dom]]; [done|by right|by left].
Qed.

Lemma offers_touched_dom t0 rs t t' :
  (∀ q, is_Some (offer_rows t' !! q) → is_Some (offer_rows t !! q)) →
  ∀ q, q ∈ offers_touched t0 (rs, t') → q ∈ offers_touched t0 (rs, t).
Proof. intros Hd q. rewrite !offers_touched_elem. simpl. intros [?|[? ?]]; [by left|right; auto]. Qed.

(** An offer of the table is rewritten. *)
Lemma offers_rewrite ids t0 s s' rs t q r r0 :
  offers_inserting ids t0 s (rs, t) → offer_rows t !! q = Some r0 → q ∉ or_OfferID <$> rs →
  inserting or_OfferID offer_key offer_row s' (rs, live (<[q := r]> (offer_rows t))) →
  let t' := MkOfferTable (<[q := r]> (offer_rows t)) (offer_compaction_sequence t) in
  offers_inserting ids t0 s' (rs, t') ∧ ∀ q, q ∈ offers_touched t0 (rs, t') → q ∈ offers_touched t0 (rs, t).
Proof.
  intros (_ & Hrs & Hdom) Hq Hqr HI t'. simpl in *.
  assert (∀ q', is_Some (offer_rows t' !! q') → is_Some (offer_rows t !! q')) as Hd.
  { intros q' [x Hx]. unfold t' in Hx; simpl in Hx. apply lookup_insert_Some in Hx as [[<- _]|[_ ?]]; by eexists. }
  split; [|by apply offers_touched_dom]. split_and!; [done| |auto]; simpl.
  rewrite Forall_forall in *. intros x Hx. destruct (Hrs x Hx) as (? & ? & ?). split_and!; [done| |done].
  rewrite lookup_insert_ne; [done|]. intros ->. by apply Hqr, list_elem_of_fmap_2.
Qed.

Lemma offers_step seq ids t0 c :
  change_wf ok c → Change_Type c = TypeOffer → (∀ q, q ∈ created c → q ∈ ids ∧ offer_rows t0 !! q = None) →
  step_follows ok offer_key TypeOffer (offers_change seq) (offers_inserting ids t0) (offers_touched t0) c.
Proof.
  intros Hw Hty Hcr s [rs t] s' Hs Hst Ha HIO Hp. pose proof (offer_keys names) as HK. pose proof HIO as (HI & Hrs & Hdom).
  assert (∀ e, e ∈ entries_of c → offer_key e ∉ or_OfferID <$> rs) as Hq0.
  { intros e He Hq. apply (Hp e He), offers_touched_elem. by left. }
  destruct (change_cases ok s c s' Hs Hw Ha) as (k & Hk & [(e & Hpre & Hpost & Hsk & -> & Hke & Ho & Hte)|
    [(e & Hpre & Hpost & Hsk & -> & Hke & Ho & Hte)|(e0 & e & Hpre & Hpost & Hsk & -> & Hke & Ho0 & Ho & Heq & Hte0 & Hte)]]);
    rewrite Hty in *; unfold offers_change; rewrite Hpre, Hpost;
    (assert (offer_key e ∉ or_OfferID <$> rs) as Hq by (apply Hq0, entries_of_elem; auto)); cbn [fst snd] in *.
  - rewrite ledgerEntryToRow_total by done. cbn [outcome_bind].
    assert (or_OfferID (offer_row e) = offer_key e) as Hre by by apply (row_key _ _ _ _ _ HK).
    assert (or_Deleted (offer_row e) = false) as Hde by (unfold offer_row; by destruct (Data e)).
    destruct (Hcr (offer_key e)) as [Hid Ht0]; [unfold created; rewrite Hpre, Hpost; by left|].
    assert (offer_rows t !! offer_key e = None) as Hnone.
    { apply eq_None_not_Some. intros Hi. eapply (Hp e); [apply entries_of_elem; by right|].
      apply offers_touched_elem. by right. }
    destruct (offers_batch ids t0 s k e rs t) as (b & Hb & HI' & Ht);
      [by apply (inserting_create ok _ _ _ _ HK)|apply Forall_app; split; [done|]; apply Forall_singleton; by rewrite Hre|done|].
    exists b. split_and!; [done|done|]. intros q Hqt%Ht. apply offers_touched_elem in Hqt. cbn [fst snd] in Hqt.
    rewrite offers_touched_elem. cbn [fst snd].
    rewrite fmap_app, elem_of_app in Hqt. simpl in Hqt. rewrite list_elem_of_singleton, Hre in Hqt.
    destruct Hqt as [[?| ->]|?]; [by left; left| |by left; right]. right. exists e. by rewrite entries_of_elem; auto.
  - pose proof (inserting_row _ _ _ _ _ _ _ _ HI Hsk Hq) as [Hrow _]%live_Some.
    pose proof (inserting_delete ok _ _ _ _ HK _ _ _ _ _ Hs Hst HI Hsk Hq) as HI'.
    destruct (Data e) as [| |o| |] eqn:Ed; try done.
    assert (offer_key e = OfferId o) as Hok by (unfold offer_key; by rewrite Ed). rewrite Hok in *.
    unfold RemoveOffer, with_offers. rewrite (update_row_Some _ _ _ _ Hrow), affected_1. cbn [outcome_bind].
    eexists. split; [done|]. destruct (offers_rewrite ids t0 s (delete k s) rs t (OfferId o)
      (MkOfferRow (or_SellerID (offer_row e)) (or_OfferID (offer_row e)) (or_SellingAsset (offer_row e))
        (or_BuyingAsset (offer_row e)) (or_Amount (offer_row e)) (or_Pricen (offer_row e)) (or_Priced (offer_row e))
        (or_Flags (offer_row e)) true seq (or_Sponsor (offer_row e))) (offer_row e) HIO Hrow Hq) as [? ?];
      [by rewrite live_insert_deleted|]. split; [done|]. auto.
  - assert (offer_key e0 = offer_key e) as Hkk by by apply (kof_key _ _ _ _ _ HK).
    pose proof (inserting_row _ _ _ _ _ _ _ _ HI Hsk) as Hrow. rewrite Hkk in Hrow. specialize (Hrow Hq) as [Hrow _]%live_Some.
    pose proof (inserting_update ok _ _ _ _ HK _ _ _ _ _ Hs Hst HI Ho Hte Hke Hq) as HI'.
    rewrite ledgerEntryToRow_total by done. cbn [outcome_bind].
    assert (or_OfferID (offer_row e) = offer_key e) as Hre by by apply (row_key _ _ _ _ _ HK).
    unfold UpdateOffer, with_offers. outcome_simpl. cbv beta. rewrite Hre, (update_row_Some _ _ _ _ Hrow), affected_1. cbn [outcome_bind].
    eexists. split; [done|]. destruct (offers_rewrite ids t0 s (<[k := e]> s) rs t _ (offer_row e) _ HIO Hrow Hq) as [? ?];
      [rewrite live_insert; [done|unfold offer_row; by destruct (Data e)]|]. split; [done|]. auto.
Qed.

Lemma created_ids_elem cs q : q ∈ created_ids cs ↔ ∃ c, c ∈ cs ∧ q ∈ created c.
Proof. unfold created_ids. rewrite list_elem_of_bind. naive_solver. Qed.

(** A squashed creation comes from a creation. *)
Lemma squashed_created ps cs s0 s c q :
  squashes ok ps cs s0 s → Forall (λ c, change_wf ok c ∧ Change_Type c = TypeOffer) ps → c ∈ cs → q ∈ created c →
  q ∈ created_ids ps.
Proof.
  intros Hsq Hps Hc Hq. unfold created in Hq. pose proof (squash_from _ _ _ _ _ Hsq c Hc) as [(c1 & H1 & Hp1 & Hk1) _].
  pose proof (squashes_type ok TypeOffer ps cs s0 s Hsq Hps) as Hct. pose proof (squash_wf _ _ _ _ _ Hsq) as Hw.
  rewrite Forall_forall in Hps, Hct, Hw. specialize (Hct c Hc). specialize (Hw c Hc).
  destruct (Pre c) as [e0|] eqn:Epre; [by apply elem_of_nil in Hq|].
  destruct (Post c) as [e|] eqn:Epost; [|by apply elem_of_nil in Hq]. apply list_elem_of_singleton in Hq as ->.
  apply created_ids_elem. exists c1. split; [done|]. unfold created. rewrite Hp1.
  destruct (Hps c1 H1) as [Hw1 Hty1].
  destruct (apply_exacts_keys _ _ _ _ (squash_apply _ _ _ _ _ Hsq) Hc) as [k Hk]. rewrite Hk in Hk1.
  destruct (Post c1) as [e1|] eqn:E1; [|unfold change_key in Hk1; by rewrite E1, Hp1 in Hk1].
  apply list_elem_of_singleton. pose proof (offer_keys names) as HK. apply (kof_key _ _ _ _ _ HK).
  - rewrite <- Hct. apply (wf_entry ok c e Hw). by right.
  - rewrite <- Hty1. apply (wf_entry ok c1 e1 Hw1). by right.
  - apply (MarshalBinaryBase64_inj _ _ k); [by apply (change_key_Post c)|by apply (change_key_Post c1)].
Qed.

#[export] Instance offers_laws seq : ProcessorLaws (ChangeProcessor0 := OffersProcessor seq) ok offers_follow offers_follow.
Proof.
  apply laws_intro.
  - intros fut ps cs s0 s t (Hr & Hn & Hnew) Hk Hty Hsq Hps. cbn [flush sink_type OffersProcessor] in *.
    unfold created_ids in Hn. rewrite bind_app in Hn. apply NoDup_app in Hn as (_ & Hdisj & Hn). unfold flushCache.
    assert (Hold : ∀ q, q ∈ created_ids ps → offer_rows t !! q = None).
    { intros q Hq. apply Hnew. unfold created_ids. rewrite bind_app. apply elem_of_app. by left. }
    destruct (flush_fold or_OfferID offer_key offer_row TypeOffer (offers_change seq)
      (offers_inserting (created_ids ps) t) (offers_touched t) ps cs s0 s ([], t))
      as ([rs t'] & -> & HI & Hrs & Hdom); [apply offer_keys|done..| | | |].
    + split_and!; [by apply inserting_start|done|by left].
    + destruct (offers_touched t ([], t)) as [|q qs] eqn:E; [done|]. exfalso.
      assert (q ∈ offers_touched t ([], t)) as [Hq|[Hq [r Hr']]]%offers_touched_elem by (rewrite E; left);
        [by apply elem_of_nil in Hq|]. simpl in Hr'. congruence.
    + intros c Hc Hw Hct. apply offers_step; [done..|]. intros q Hq. pose proof (squashed_created _ _ _ _ _ _ Hsq Hps Hc Hq). auto.
    + outcome_simpl. cbn [fst snd] in *. rewrite Forall_forall in Hrs.
      rewrite insert_offers_put; [|apply HI|intros r Hr'; by apply Hrs]. eexists. split; [done|]. split_and!; simpl; [|done|].
      * rewrite live_put by (apply Forall_forall; intros r Hr'; by apply Hrs). apply HI.
      * intros q Hq. apply eq_None_not_Some. intros Hi.
        assert (q ∉ created_ids ps) as Hnp by (intros Hx; by apply (Hdisj q)).
        apply put_dom in Hi as [[Hi|?]%Hdom|(r & -> & Hr')%list_elem_of_fmap]; [|done|by apply Hnp, Hrs].
        rewrite Hnew in Hi; [by destruct Hi|]. unfold created_ids. rewrite bind_app. apply elem_of_app. by right.
  - intros fut s t (Hr & Hn & Hnew). cbn [finish OffersProcessor]. unfold trim_offers. case_if; [|done].
    unfold CompactOffers. split_and!; simpl; [|done|].
    + unfold live. rewrite map_filter_filter. replace (filter _ (offer_rows t)) with (live (offer_rows t)); [done|].
      apply map_filter_ext. intros q r _. destruct (or_Deleted r); naive_solver.
    + intros q Hq. apply map_lookup_filter_None. left. auto.
Qed.

(** *** Trust lines *)
Definition trust_line_rows (e : LedgerEntry) : TrustLineRow := trust_line_row (ledger_key_text e) e.
Lemma trust_line_keys : row_keys ok tr_ledger_key ledger_key_text trust_line_rows TypeTrustline.
Proof.
  apply (text_keys names tr_ledger_key trust_line_row). intros k e. unfold trust_line_row.
  destruct (Data e); try done. by destruct (match ExtractType _ with Ret x => x | _ => _ end) as [[? ?] ?].
Qed.

Lemma UpsertTrustLines_total es t :
  Forall (λ e, ok e ∧ data_type (Data e) = TypeTrustline) es → NoDup (ledger_key_text <$> es) →
  UpsertTrustLines K es t = Ret (put tr_ledger_key (trust_line_rows <$> es) t).
Proof.
  intros He Hn. unfold UpsertTrustLines. rewrite (mfold_map _ trust_line_rows es []).
  - outcome_simpl. apply upsert_rows_put. by rewrite (upserting_keys ok _ _ _ _ trust_line_keys).
  - rewrite Forall_forall in He. intros acc e [[_ [k Hk]] Hte]%He. rewrite bool_decide_true by done.
    unfold trustLineEntryToLedgerKeyString. destruct (ledger_key_string k e Hk) as [Ht ->].
    outcome_simpl. rewrite trustLineToMap_total by done. unfold trust_line_rows. by rewrite Ht.
Qed.

Lemma trust_lines_step c :
  change_wf ok c → Change_Type c = TypeTrustline →
  step_follows ok ledger_key_text TypeTrustline trust_lines_change
    (upserting ok tr_ledger_key ledger_key_text trust_line_rows TypeTrustline) (λ b, ledger_key_text <$> b.1) c.
Proof.
  intros Hw Hty s [es t] s' Hs Hst Ha HI Hp. pose proof trust_line_keys as HK.
  destruct (change_cases ok s c s' Hs Hw Ha) as (k & Hk & [(e & Hpre & Hpost & Hsk & -> & Hke & Ho & Hte)|
    [(e & Hpre & Hpost & Hsk & -> & Hke & Ho & Hte)|(e0 & e & Hpre & Hpost & Hsk & -> & Hke & Ho0 & Ho & Heq & Hte0 & Hte)]]);
    rewrite Hty in *; unfold trust_lines_change; rewrite Hpre, Hpost;
    (assert (ledger_key_text e ∉ ledger_key_text <$> es) as Hq by (apply (Hp e), entries_of_elem; auto)).
  - eexists. split; [done|]. split; [by apply (upserting_put ok _ _ _ _ HK)|]. intros q. by apply pend_snoc.
  - pose proof (upserting_row ok _ _ _ _ HK _ _ _ _ _ HI Hsk Hq) as Hrow.
    pose proof (upserting_delete ok _ _ _ _ HK _ _ _ _ _ Hs Hst HI Hsk Hq) as HI'.
    destruct (ledger_key_string k e Hke) as [Htx Hstr]. rewrite Htx in Hrow, HI'.
    unfold LedgerEntry_LedgerKey in Hstr. destruct (Data e) as [|tl| | |] eqn:Ed; try done.
    unfold RemoveTrustLine, ledgerKeyTrustLineToString. rewrite Hstr. outcome_simpl. cbn [outcome_bind].
    rewrite (delete_row_Some _ _ _ Hrow), affected_1. cbn [outcome_bind]. eexists. split; [done|]. split; [exact HI'|]. auto.
  - eexists. split; [done|]. split; [by apply (upserting_put ok _ _ _ _ HK)|]. intros q. by apply pend_snoc.
Qed.

#[export] Instance trust_lines_laws :
  ProcessorLaws (ChangeProcessor0 := TrustLinesProcessor) ok (λ _, represents ledger_key_text trust_line_rows)
    (λ _, represents ledger_key_text trust_line_rows).
Proof.
  apply laws_intro; [|done]. intros fut ps cs s0 s t Hr Hk Hty Hsq Hps. cbn [flush sink_type TrustLinesProcessor] in *.
  unfold TrustLinesProcessor_flush.
  destruct (flush_fold tr_ledger_key ledger_key_text trust_line_rows TypeTrustline trust_lines_change
    (upserting ok tr_ledger_key ledger_key_text trust_line_rows TypeTrustline) (λ b, ledger_key_text <$> b.1) ps cs s0 s ([], t))
    as ([es t'] & -> & Hn & Hes & Hr'); [apply trust_line_keys|done..|by apply upserting_start|done| |].
  { intros c _. apply trust_lines_step. }
  outcome_simpl. exists (put tr_ledger_key (trust_line_rows <$> es) t'). split; [|done].
  destruct es as [|e es]; [done|]. by apply UpsertTrustLines_total.
Qed.

(** *** Claimable balances *)
Lemma insert_balances_put rs t :
  NoDup (cr_BalanceID <$> rs) → (∀ r, r ∈ rs → t !! cr_BalanceID r = None) → Forall (λ r, 0 < cr_Amount r) rs →
  insert_balances rs t = Ret (put cr_BalanceID rs t).
Proof.
  intros Hn Hf Hp. rewrite <- (insert_rows_put cr_BalanceID rs t) by done. unfold insert_balances, insert_rows.
  clear Hn Hf. revert t. induction Hp as [|r rs Hr _ IH]; intros t; simpl; [done|].
  rewrite (proj2 (Z.ltb_lt _ _) Hr). destruct (insert_row cr_BalanceID t r); simpl; [apply IH|done..].
Qed.

Definition balances_inserting (s : rows) (b : list ClaimableBalanceRow * BalanceTable) : Prop :=
  inserting cr_BalanceID balance_key balance_row s b ∧ Forall (λ r, 0 < cr_Amount r) b.1.

Lemma balances_step c :
  change_wf ok c → Change_Type c = TypeClaimableBalance →
  step_follows ok balance_key TypeClaimableBalance balances_change balances_inserting (λ b, cr_BalanceID <$> b.1) c.
Proof.
  intros Hw Hty s [rs t] s' Hs Hst Ha [HI Hpos] Hp. pose proof (balance_keys names) as HK.
  destruct (change_cases ok s c s' Hs Hw Ha) as (k & Hk & [(e & Hpre & Hpost & Hsk & -> & Hke & Ho & Hte)|
    [(e & Hpre & Hpost & Hsk & -> & Hke & Ho & Hte)|(e0 & e & Hpre & Hpost & Hsk & -> & Hke & Ho0 & Ho & Heq & Hte0 & Hte)]]);
    rewrite Hty in *; unfold balances_change; rewrite Hpre, Hpost;
    (assert (balance_key e ∉ cr_BalanceID <$> rs) as Hq by (apply (Hp e), entries_of_elem; auto)).
  - pose proof (inserting_create ok _ _ _ _ HK s rs t k e Hs Hst HI Ho Hte Hke Hsk Hq) as HI'.
    assert (Forall (λ r, 0 < cr_Amount r) (rs ++ [balance_row e])) as Hpos'.
    { apply Forall_app. split; [done|]. apply Forall_singleton. destruct Ho as [[_ Ho] _]. unfold balance_row.
      destruct (Data e); try done. apply Ho. }
    destruct (inserting_batch cr_BalanceID balance_key balance_row insert_balances id _ rs t (balance_row e) maxBatchSize HI')
      as (rs' & t' & Hb & HI'' & Hpe); [intros; eexists; split; [by apply insert_balances_put|done]|].
    exists (rs', t'). split; [|split; [split; [done|]|]].
    + revert Hb. unfold ClaimableBalancesBatch_Add, balance_row. destruct (Data e); try done.
      rewrite buildClaimants_total, sponsor_total. done.
    + by destruct Hpe as [[-> _]|[-> _]].
    + intros q. simpl. destruct Hpe as [[-> _]|[-> _]]; [|by intros ?%elem_of_nil].
      rewrite fmap_app, elem_of_app. intros [?| ->%list_elem_of_singleton]; [by left|right].
      exists e. split; [apply entries_of_elem; by right|]. symmetry. by apply (row_key _ _ _ _ _ HK).
  - pose proof (inserting_row _ _ _ _ _ _ _ _ HI Hsk Hq) as Hrow.
    pose proof (inserting_delete ok _ _ _ _ HK _ _ _ _ _ Hs Hst HI Hsk Hq) as HI'.
    destruct (Data e) as [| | | |b] eqn:Ed; try done.
    assert (balance_key e = ClaimableBalance_BalanceId b) as Hbk by (unfold balance_key; by rewrite Ed). rewrite Hbk in Hrow, HI'.
    unfold RemoveClaimableBalance. rewrite (delete_row_Some _ _ _ Hrow), affected_1. outcome_simpl.
    eexists. split; [done|]. split; [by split|]. auto.
  - assert (balance_key e0 = balance_key e) as Hkk by by apply (kof_key _ _ _ _ _ HK).
    pose proof (inserting_row _ _ _ _ _ _ _ _ HI Hsk) as Hrow. rewrite Hkk in Hrow. specialize (Hrow Hq).
    pose proof (inserting_update ok _ _ _ _ HK _ _ _ _ _ Hs Hst HI Ho Hte Hke Hq) as HI'.
    eexists. split; [|split; [split; [exact HI'|done]|auto]].
    destruct Ho0 as [[_ Ho0] _], Ho as [[_ Ho] _].
    revert Hrow Hkk Ho0 Ho. unfold UpdateClaimableBalance, balance_row, balance_key.
    destruct (Data e0) as [| | | |b0] eqn:Ed0; try done. destruct (Data e) as [| | | |b] eqn:Ed; try done.
    intros Hrow Hkk [Hc0 _] [Hc _]. rewrite Hkk, Hc in Hc0. injection Hc0 as Hc1 Hc2 Hc3.
    rewrite sponsor_total. outcome_simpl. rewrite (update_row_Some _ _ _ _ Hrow), affected_1. simpl.
    by rewrite Hkk, Hc1, Hc2, Hc3.
Qed.

#[export] Instance balances_laws :
  ProcessorLaws (ChangeProcessor0 := ClaimableBalancesProcessor) ok (λ _, represents balance_key balance_row)
    (λ _, represents balance_key balance_row).
Proof.
  apply laws_intro; [|done]. intros fut ps cs s0 s t Hr Hk Hty Hsq Hps. cbn [flush sink_type ClaimableBalancesProcessor] in *.
  unfold ClaimableBalancesProcessor_flush.
  destruct (flush_fold cr_BalanceID balance_key balance_row TypeClaimableBalance balances_change
    balances_inserting (λ b, cr_BalanceID <$> b.1) ps cs s0 s ([], t))
    as ([rs t'] & -> & (Hn & Hf & Hr') & Hpos); [apply balance_keys|done..|split; [by apply inserting_start|done]|done| |].
  { intros c _. apply balances_step. }
  outcome_simpl. eexists. split; [by apply insert_balances_put|done].
Qed.
End laws.
