(* ===== verification/TransactionProcessors.v ===== *)
(** * ingest/processors: the processors of transactions

    Models the processors of [src/services/aurora/internal/ingest/processors]
    that write the history of a ledger: [effects_processor.go],
    [ledgers_processor.go], [operations_processor.go], [trades_processor.go],
    [participants_processor.go] and [transactions_processor.go]; their group is
    in HistoryRunner.v.  The state of a processor is passed explicitly, and
    so is the database.  Where Go ranges over a map, the order is that of the
    finite map; the theorems are about the tables, in which it cannot be seen. *)

From S2P Require Import Prelude Encoding Strkey Toid Decimal Price Xdr LedgerEntry ChangeCache HistoryTables Transaction LedgerReaders Operations Effects HistoryRows ChangeProcessor.

(** Rows into a table; a violated constraint is the error of the statement. *)
Definition insert_batch {K R} `{Countable K} (key : R → K) (rs : list R) (t : gmap K R) : outcome tx_error (gmap K R) :=
  map_fail (λ _, ErrInsert) (insert_rows key rs t).
Definition add_row {K R} `{Countable K} (key : R → K) (r : R) (s : list R * gmap K R) : outcome tx_error (list R * gmap K R) :=
  map_fail (λ _, ErrInsert) (batch_add (insert_rows key) maxBatchSize s.1 r s.2).

(** *** Updates of one table of the database *)
Definition set_accounts (t : IdTable gostring) (db : HistoryDB) : HistoryDB :=
  MkHistory t (history_assets db) (history_ledgers db) (history_transactions db) (history_operations db)
    (history_effects db) (history_trades db) (history_transaction_participants db) (history_operation_participants db).
Definition set_assets (t : IdTable asset_tuple) (db : HistoryDB) : HistoryDB :=
  MkHistory (history_accounts db) t (history_ledgers db) (history_transactions db) (history_operations db)
    (history_effects db) (history_trades db) (history_transaction_participants db) (history_operation_participants db).
Definition set_ledgers (t : gmap Z LedgerRow) (db : HistoryDB) : HistoryDB :=
  MkHistory (history_accounts db) (history_assets db) t (history_transactions db) (history_operations db)
    (history_effects db) (history_trades db) (history_transaction_participants db) (history_operation_participants db).
Definition set_transactions (t : gmap Z TransactionRow) (db : HistoryDB) : HistoryDB :=
  MkHistory (history_accounts db) (history_assets db) (history_ledgers db) t (history_operations db)
    (history_effects db) (history_trades db) (history_transaction_participants db) (history_operation_participants db).
Definition set_operations (t : gmap Z OperationRow) (db : HistoryDB) : HistoryDB :=
  MkHistory (history_accounts db) (history_assets db) (history_ledgers db) (history_transactions db) t
    (history_effects db) (history_trades db) (history_transaction_participants db) (history_operation_participants db).
Definition set_effects (t : gmap (Z * Z) EffectRow) (db : HistoryDB) : HistoryDB :=
  MkHistory (history_accounts db) (history_assets db) (history_ledgers db) (history_transactions db) (history_operations db)
    t (history_trades db) (history_transaction_participants db) (history_operation_participants db).
Definition set_trades (t : gmap (Z * Z) TradeRow) (db : HistoryDB) : HistoryDB :=
  MkHistory (history_accounts db) (history_assets db) (history_ledgers db) (history_transactions db) (history_operations db)
    (history_effects db) t (history_transaction_participants db) (history_operation_participants db).
Definition set_transaction_participants (t : gmap (Z * Z) (Z * Z)) (db : HistoryDB) : HistoryDB :=
  MkHistory (history_accounts db) (history_assets db) (history_ledgers db) (history_transactions db) (history_operations db)
    (history_effects db) (history_trades db) t (history_operation_participants db).
Definition set_operation_participants (t : gmap (Z * Z) (Z * Z)) (db : HistoryDB) : HistoryDB :=
  MkHistory (history_accounts db) (history_assets db) (history_ledgers db) (history_transactions db) (history_operations db)
    (history_effects db) (history_trades db) (history_transaction_participants db) t.

(** [loadAccountIDs] of two of the processors *)
Definition loadAccountIDs (addresses : list gostring) (db : HistoryDB) : outcome tx_error (gmap gostring Z * HistoryDB) :=
  let '(t, addressToID) := CreateAccounts addresses (history_accounts db) in
  _ ← mfold (λ _ address,
    match addressToID !! address with Some _ => Ret tt | None => Fail (ErrNoAccountId address) end) tt addresses;
  Ret (addressToID, set_accounts t db).

(** ** effects_processor.go *)

Definition Effects_ProcessTransaction (sequence : Z) (transaction : LedgerTransaction) (effects : list effect)
  : outcome tx_error (list effect) :=
  if negb (Successful (Tx_Result transaction)) then Ret effects else
  effectsForTx ← operationsEffects transaction sequence;
  Ret (effects ++ effectsForTx).

Definition insertDBOperationsEffects (effects : list effect) (accountSet : gmap gostring Z) (t : gmap (Z * Z) EffectRow)
  : outcome tx_error (gmap (Z * Z) EffectRow) :=
  '(batch, t) ← mfold (λ s effect,
    match accountSet !! ef_address effect with
    | None => Fail (ErrNoAccountId (ef_address effect))
    | Some accountID =>
        add_row effect_key (MkEffectRow accountID (ef_operationID effect) (ef_order effect) (ef_effectType effect) (ef_details effect)) s
    end) ([], t) effects;
  insert_batch effect_key batch t.

Definition Effects_Commit (effects : list effect) (db : HistoryDB) : outcome tx_error HistoryDB :=
  if bool_decide (effects = []) then Ret db else
  let accountSet : gset gostring := list_to_set (ef_address <$> effects) in
  '(addressToID, db) ← loadAccountIDs (elements accountSet) db;
  t ← insertDBOperationsEffects effects addressToID (history_effects db);
  Ret (set_effects t db).

(** ** ledgers_processor.go *)

Record LedgersProcessor := MkLedgers { successTxCount : Z; failedTxCount : Z; opCount : Z; txSetOpCount : Z }.
Definition NewLedgerProcessor : LedgersProcessor := MkLedgers 0 0 0 0.

Definition Ledgers_ProcessTransaction (transaction : LedgerTransaction) (p : LedgersProcessor) : LedgersProcessor :=
  let n := Z.of_nat (length (Operations (Envelope transaction))) in
  if Successful (Tx_Result transaction)
  then MkLedgers (successTxCount p + 1) (failedTxCount p) (opCount p + n) (txSetOpCount p + n)
  else MkLedgers (successTxCount p) (failedTxCount p + 1) (opCount p) (txSetOpCount p + n).

(** The four unique indexes of the table; two nulls do not conflict. *)
Definition ledger_conflict (r r' : LedgerRow) : bool :=
  bool_decide (lr_ID r = lr_ID r') || bool_decide (lr_Sequence r = lr_Sequence r') ||
  bool_decide (lr_LedgerHash r = lr_LedgerHash r') ||
  match lr_PreviousLedgerHash r, lr_PreviousLedgerHash r' with
  | Some h, Some h' => bool_decide (h = h')
  | _, _ => false
  end.
Definition insert_ledger (r : LedgerRow) (t : gmap Z LedgerRow) : outcome tx_error (gmap Z LedgerRow) :=
  if existsb (ledger_conflict r) (map_to_list t).*2 then Fail ErrInsert else Ret (<[ lr_ID r := r ]> t).

Section processors.
Context `{XT : XdrText}.

(** [InsertLedger]: the number of rows, and the table. *)
Definition InsertLedger (ledger : LedgerHeaderHistoryEntry) (p : LedgersProcessor) (ingestVersion : Z) (t : gmap Z LedgerRow)
  : outcome tx_error (Z * gmap Z LedgerRow) :=
  r ← ledgerHeaderToMap ledger (successTxCount p) (failedTxCount p) (opCount p) (txSetOpCount p) ingestVersion;
  t ← insert_ledger r t;
  Ret (1, t).
Definition Ledgers_Commit (ledger : LedgerHeaderHistoryEntry) (ingestVersion : Z) (p : LedgersProcessor) (db : HistoryDB)
  : outcome tx_error HistoryDB :=
  '(rowsAffected, t) ← InsertLedger ledger p ingestVersion (history_ledgers db);
  if negb (rowsAffected =? 1) then Fail (ErrLedgerRows rowsAffected) else Ret (set_ledgers t db).

(** ** operations_processor.go *)

Definition operation_row (operation : transactionOperationWrapper) : outcome tx_error OperationRow :=
  d ← with_ID operation (Details operation);
  id ← op_ID operation;
  transactionID ← op_TransactionID operation;
  Ret (MkOperationRow id transactionID (op_Order operation) (op_OperationType operation) d (address (SourceAccount operation))).
Definition Operations_ProcessTransaction (sequence : Z) (transaction : LedgerTransaction) (s : list OperationRow * gmap Z OperationRow)
  : outcome tx_error (list OperationRow * gmap Z OperationRow) :=
  mfold (λ s operation, r ← operation_row operation; add_row opr_ID r s) s (wrappers transaction sequence).

(** ** transactions_processor.go *)

Definition Transactions_ProcessTransaction (sequence : Z) (transaction : LedgerTransaction)
    (s : list TransactionRow * gmap Z TransactionRow) : outcome tx_error (list TransactionRow * gmap Z TransactionRow) :=
  r ← transactionToRow transaction sequence;
  add_row txr_ID r s.
End processors.

(** ** trades_processor.go *)

Record TradeProcessor := MkTrades {
  tp_inserts : list InsertTrade; tp_buyers : list gostring; tp_accountSet : gset gostring; tp_assets : list Asset }.
Definition NewTradeProcessor : TradeProcessor := MkTrades [] [] ∅ [].

(** The last change whose entry before it has the key.  The loop of the code goes
    down; here the list is reversed. *)
Fixpoint find_offer (key : LedgerKey) (changes : list Change) : outcome tx_error (option LedgerEntry) :=
  match changes with
  | [] => Ret None
  | change :: changes =>
      match Pre change with
      | None => find_offer key changes
      | Some pre =>
          equal ← must (LedgerKey_Equals key (LedgerEntry_LedgerKey pre));
          if equal : bool then Ret (Some pre) else find_offer key changes
      end
  end.
(** [errors.Wrap] of an error that is [nil] is [nil]: without a change the price is
    zero. *)
Definition findTradeSellPrice (operation : transactionOperationWrapper) (trade : ClaimOfferAtom) : outcome tx_error Price :=
  changes ← op_changes operation;
  pre ← find_offer (LedgerEntryTypeOffer (Atom_SellerId trade) (Atom_OfferId trade)) (reverse changes);
  match pre with
  | None => Ret (MkPrice 0 0)
  | Some pre => match Data pre with DataOffer offer => Ret (OfferPrice offer) | _ => Panic end
  end.

(** The claims of an operation, and the offer that it leaves. *)
Definition manage_result (r : op_result ManageOfferSuccessResult) : outcome tx_error (list ClaimOfferAtom * option OfferEntry) :=
  s ← MustSuccess r; Ret (OffersClaimed s, Result_Offer s).
Definition MustTr (r : option OperationResult) : outcome tx_error OperationResultTr :=
  match r with Some (OpInner tr) => Ret tr | _ => Panic end.
Definition op_trades (body : OperationBody) (result : option OperationResult)
  : outcome tx_error (list ClaimOfferAtom * option OfferEntry) :=
  match body with
  | PathPaymentStrictReceiveOp _ =>
      tr ← MustTr result; r ← MustPathPaymentStrictReceiveResult tr; s ← MustSuccess r; Ret (Offers s, None)
  | PathPaymentStrictSendOp _ =>
      tr ← MustTr result; r ← MustPathPaymentStrictSendResult tr; s ← MustSuccess r; Ret (Offers s, None)
  | ManageBuyOfferOp _ => tr ← MustTr result; r ← MustManageBuyOfferResult tr; manage_result r
  | ManageSellOfferOp _ => tr ← MustTr result; r ← MustManageSellOfferResult tr; manage_result r
  | CreatePassiveSellOfferOp _ =>
      tr ← MustTr result;
      r ← match tr with ManageSellOfferResult r => Ret r | _ => MustCreatePassiveSellOfferResult tr end;
      manage_result r
  | _ => Ret ([], None)
  end.

(** The trades of one operation, with their buyers. *)
Definition trades_of_claims (opID closeTime : Z) (operation : transactionOperationWrapper) (buyOffer : option OfferEntry)
    (inserts : list (InsertTrade * gostring)) (trades : list ClaimOfferAtom) : outcome tx_error (list (InsertTrade * gostring)) :=
  mfold (λ inserts '(order, trade),
    if negb (is_trade trade) then Ret inserts else
    sellOfferPrice ← findTradeSellPrice operation trade;
    Ret (inserts ++ [(MkInsertTrade opID (i32 (Z.of_nat order)) closeTime (bool_decide (is_Some buyOffer))
      (match buyOffer with Some o => OfferId o | None => 0 end) 0 0 0 0 trade sellOfferPrice,
      address (SourceAccount operation))])) inserts (imap pair trades).

Definition extractTrades (ledger : LedgerHeaderHistoryEntry) (transaction : LedgerTransaction)
  : outcome tx_error (list (InsertTrade * gostring)) :=
  match OperationResults (Tx_Result transaction) with
  | None => Fail ErrNoOperationResults
  | Some opResults =>
      mfold (λ inserts operation,
        '(trades, buyOffer) ← op_trades (op_body operation) (opResults !! op_index operation);
        opID ← op_ID operation;
        trades_of_claims opID (i64 (CloseTime (Header ledger))) operation buyOffer inserts trades) []
        (wrappers transaction (LedgerSeq (Header ledger)))
  end.

Definition add_trade (p : TradeProcessor) (x : InsertTrade * gostring) : TradeProcessor :=
  let '(insert, buyer) := x in
  MkTrades (tp_inserts p ++ [insert]) (tp_buyers p ++ [buyer])
    ({[ buyer ]} ∪ ({[ address (Atom_SellerId (it_Trade insert)) ]} ∪ tp_accountSet p))
    (tp_assets p ++ [AssetSold (it_Trade insert); AssetBought (it_Trade insert)]).
Definition Trades_ProcessTransaction (ledger : LedgerHeaderHistoryEntry) (transaction : LedgerTransaction) (p : TradeProcessor)
  : outcome tx_error TradeProcessor :=
  if negb (Successful (Tx_Result transaction)) then Ret p else
  txInserts ← extractTrades ledger transaction;
  Ret (foldl add_trade p txInserts).

(** The ids of a trade; a key that is not in the map gives 0. *)
Definition with_ids (accountSet assetMap : gmap gostring Z) (buyer : gostring) (insert : InsertTrade) : InsertTrade :=
  let trade := it_Trade insert in
  MkInsertTrade (it_HistoryOperationID insert) (it_Order insert) (it_LedgerCloseTime insert) (it_BuyOfferExists insert)
    (it_BuyOfferID insert) (default 0 (accountSet !! address (Atom_SellerId trade))) (default 0 (accountSet !! buyer))
    (default 0 (assetMap !! asset_string (AssetSold trade))) (default 0 (assetMap !! asset_string (AssetBought trade)))
    trade (it_SellPrice insert).
Definition Trades_Commit (p : TradeProcessor) (db : HistoryDB) : outcome tx_error HistoryDB :=
  if bool_decide (tp_inserts p = []) then Ret db else
  let '(accounts, accountSet) := CreateAccounts (elements (tp_accountSet p)) (history_accounts db) in
  let '(assets, assetMap) := CreateAssets (tp_assets p) (history_assets db) in
  '(batch, t) ← mfold (λ s '(insert, buyer),
    r ← trade_row (with_ids accountSet assetMap buyer insert);
    add_row trade_key r s) ([], history_trades db) (zip (tp_inserts p) (tp_buyers p));
  t ← insert_batch trade_key batch t;
  Ret (set_trades t (set_assets assets (set_accounts accounts db))).

(** ** participants_processor.go *)

(** The sets of the ids of transactions and operations. *)
Record participant := MkParticipant { transactionSet : gset Z; operationSet : gset Z }.
Definition no_participant : participant := MkParticipant ∅ ∅.
Definition addTransactionID (id : Z) (p : participant) : participant := MkParticipant ({[ id ]} ∪ transactionSet p) (operationSet p).
Definition addOperationID (id : Z) (p : participant) : participant := MkParticipant (transactionSet p) ({[ id ]} ∪ operationSet p).
Abbreviation participants := (gmap gostring participant).
Definition update_participant (f : participant → participant) (address : gostring) (s : participants) : participants :=
  <[ address := f (default no_participant (s !! address)) ]> s.

Definition participantsForLedgerEntry (le : LedgerEntry) : option AccountId :=
  match Data le with DataAccount a => Some (Account_AccountId a) | _ => None end.
Definition participantsForLedgerKey (lk : LedgerKey) : option AccountId :=
  match lk with LedgerEntryTypeAccount a => Some a | _ => None end.
Definition participantsForChanges (changes : LedgerEntryChanges) : list AccountId :=
  omap (λ c, match c with
    | LedgerEntryCreated e | LedgerEntryUpdated e | LedgerEntryState e => participantsForLedgerEntry e
    | LedgerEntryRemoved k => participantsForLedgerKey k
    end) changes.
(** The field [Operations] is the arm of version 0 only. *)
Definition participantsForMeta (meta : TransactionMeta) : list AccountId :=
  match meta with
  | MetaV0 operations => concat (participantsForChanges <$> operations)
  | MetaV1 _ _ | MetaV2 _ _ _ => []
  end.

Definition participantsForTransaction (sequence : Z) (transaction : LedgerTransaction) : outcome tx_error (list AccountId) :=
  feeBump ← (if IsFeeBump (Envelope transaction)
             then a ← must (FeeBumpAccount (Envelope transaction)); Ret [ToAccountId a] else Ret []);
  let l := ToAccountId (Envelope_SourceAccount (Envelope transaction)) :: feeBump ++
    participantsForMeta (Meta transaction) ++ participantsForChanges (FeeChanges transaction) in
  l ← mfold (λ l operation, p ← with_ID operation (Participants operation); Ret (l ++ p)) l (wrappers transaction sequence);
  Ret (dedupe l).

Definition addTransactionParticipants (sequence : Z) (transaction : LedgerTransaction) (participantSet : participants)
  : outcome tx_error participants :=
  transactionID ← new_toid sequence (Index transaction) 0;
  l ← participantsForTransaction sequence transaction;
  Ret (foldl (λ s p, update_participant (addTransactionID transactionID) (address p) s) participantSet l).
Definition addOperationsParticipants (sequence : Z) (transaction : LedgerTransaction) (participantSet : participants)
  : outcome tx_error participants :=
  m ← operationsParticipants transaction sequence;
  Ret (foldl (λ s '(operationID, l),
    foldl (λ s p, update_participant (addOperationID operationID) (address p) s) s l) participantSet (map_to_list m)).
Definition Participants_ProcessTransaction (sequence : Z) (transaction : LedgerTransaction) (participantSet : participants)
  : outcome tx_error participants :=
  participantSet ← addTransactionParticipants sequence transaction participantSet;
  addOperationsParticipants sequence transaction participantSet.

(** The rows of the two tables, ids and accounts. *)
Definition participant_rows (set : participant → gset Z) (accountIDs : gmap gostring Z) (participantSet : participants) : list (Z * Z) :=
  concat ((λ '(address, entry), (λ id, (id, default 0 (accountIDs !! address))) <$> elements (set entry)) <$> map_to_list participantSet).
Definition insert_participants (rows : list (Z * Z)) (t : gmap (Z * Z) (Z * Z)) : outcome tx_error (gmap (Z * Z) (Z * Z)) :=
  '(batch, t) ← mfold (λ s r, add_row participant_key r s) ([], t) rows;
  insert_batch participant_key batch t.
Definition Participants_Commit (participantSet : participants) (db : HistoryDB) : outcome tx_error HistoryDB :=
  if bool_decide (size participantSet = 0)%nat then Ret db else
  '(accountIDs, db) ← loadAccountIDs (map_to_list participantSet).*1 db;
  t ← insert_participants (participant_rows transactionSet accountIDs participantSet) (history_transaction_participants db);
  let db := set_transaction_participants t db in
  t ← insert_participants (participant_rows operationSet accountIDs participantSet) (history_operation_participants db);
  Ret (set_operation_participants t db).

(** ** The rows that are written *)

Section writes.
Context {A K R : Type} `{Countable K} (key : R → K) (f : A → outcome tx_error R).

Lemma add_rows l rs batch t :
  mmap f l = Ret rs → waits key batch t → NoDup (key <$> rs) → (∀ r, r ∈ rs → put key batch t !! key r = None) →
  ∃ batch' t', mfold (λ s x, r ← f x; add_row key r s) (batch, t) l = Ret (batch', t') ∧
    waits key batch' t' ∧ put key batch' t' = put key rs (put key batch t).
Proof.
  intros Hl Hw Hn Hf. destruct (batch_adds key maxBatchSize rs batch t Hw Hn Hf) as (b' & t' & H1 & H2 & H3).
  exists b', t'. split; [|done]. unfold mbind, outcome_mbind. rewrite (mfold_mmap f (λ s r, add_row key r s) _ _ _ Hl).
  unfold add_row. rewrite mfold_map_fail, (mfold_ext _ (λ '(batch, t) r, batch_add (insert_rows key) maxBatchSize batch r t));
    [by rewrite H1|by intros []].
Qed.

(** A commit that adds its rows and inserts what waits. *)
Lemma insert_all_rows l rs t :
  mmap f l = Ret rs → NoDup (key <$> rs) → (∀ r, r ∈ rs → t !! key r = None) →
  ('(batch, t) ← mfold (λ s x, r ← f x; add_row key r s) ([], t) l; insert_batch key batch t) = Ret (put key rs t).
Proof.
  intros Hl Hn Hf. destruct (add_rows l rs [] t Hl) as (b' & t' & -> & Hw & Hp); [split; [constructor|by intros ? ?%elem_of_nil]|done..|].
  outcome_simpl. unfold insert_batch. rewrite insert_waiting by done. by rewrite Hp.
Qed.
End writes.

(** The table of accounts has grown by the addresses. *)
Definition grows (t : IdTable gostring) (addresses : list gostring) (t' : IdTable gostring) : Prop :=
  ids_ok t' ∧ ids t ⊆ ids t' ∧ ∀ a, is_Some (ids t' !! a) ↔ is_Some (ids t !! a) ∨ a ∈ addresses.
Definition id_of (t : IdTable gostring) (address : gostring) : Z := default 0 (ids t !! address).

Lemma grows_nil t : ids_ok t → grows t [] t.
Proof. intros Ht. split_and!; [done..|]. intros a. split; [by left|]. by intros [?|?%elem_of_nil]. Qed.

Lemma CreateAccounts_grows (addresses : list gostring) t :
  ids_ok t → ∃ t' m, CreateAccounts addresses t = (t', m) ∧ grows t addresses t' ∧
    ∀ a, a ∈ addresses → m !! a = Some (id_of t' a).
Proof.
  intros Ht. destruct (CreateAccounts_ids addresses t Ht) as (t' & m & E & Ht' & Hsub & Hnew & Hin).
  exists t', m. split_and!; [done| |].
  - split_and!; [done..|]. intros a. split; [apply Hnew|]. intros [[i Hi]|Ha].
    + exists i. by eapply lookup_weaken.
    + destruct (Hin a Ha) as (i & Hi & _). by exists i.
  - intros a Ha. destruct (Hin a Ha) as (i & Hi & ->). unfold id_of. by rewrite Hi.
Qed.

Lemma loadAccountIDs_grows (addresses : list gostring) db :
  ids_ok (history_accounts db) →
  ∃ t m, loadAccountIDs addresses db = Ret (m, set_accounts t db) ∧ grows (history_accounts db) addresses t ∧
    ∀ a, a ∈ addresses → m !! a = Some (id_of t a).
Proof.
  intros Ht. destruct (CreateAccounts_grows addresses (history_accounts db) Ht) as (t & m & E & Hg & Hm).
  exists t, m. split; [|done]. unfold loadAccountIDs. rewrite E.
  assert (∀ l, (∀ a, a ∈ l → is_Some (m !! a)) → mfold (E := tx_error) (λ _ address,
    match m !! address with Some _ => Ret tt | None => Fail (ErrNoAccountId address) end) tt l = Ret tt) as Hl.
  { induction l as [|a l IH]; intros Ha; [done|]. simpl. destruct (Ha a) as [i ->]; [by left|]. apply IH. intros b Hb. apply Ha. by right. }
  rewrite Hl; [done|]. intros a Ha. rewrite Hm by done. by eexists.
Qed.

(** *** Effects *)

Definition effect_id (e : effect) : Z * Z := (ef_operationID e, ef_order e).
Definition effect_row (t : IdTable gostring) (e : effect) : EffectRow :=
  MkEffectRow (id_of t (ef_address e)) (ef_operationID e) (ef_order e) (ef_effectType e) (ef_details e).

Lemma Effects_Commit_spec (effects : list effect) db :
  ids_ok (history_accounts db) → NoDup (effect_id <$> effects) → (∀ e, e ∈ effects → history_effects db !! effect_id e = None) →
  ∃ t, Effects_Commit effects db =
      Ret (set_effects (put effect_key (effect_row t <$> effects) (history_effects db)) (set_accounts t db)) ∧
    grows (history_accounts db) (ef_address <$> effects) t.
Proof.
  intros Ht Hn Hf. unfold Effects_Commit. case_bool_decide as He.
  { subst effects. exists (history_accounts db). split; [by destruct db|by apply grows_nil]. }
  set (addresses := elements _).
  assert (∀ a, a ∈ addresses ↔ a ∈ ef_address <$> effects) as Ha by (intros a; unfold addresses; by rewrite elem_of_elements, elem_of_list_to_set).
  destruct (loadAccountIDs_grows addresses db Ht) as (t & m & -> & (Hok & Hsub & Hg) & Hm). outcome_simpl. exists t.
  split; [|split_and!; [done..|intros a; by rewrite Hg, Ha]].
  unfold insertDBOperationsEffects. change (history_effects (set_accounts t db)) with (history_effects db).
  rewrite (mfold_ext _ (λ s e, r ← Ret (effect_row t e); add_row effect_key r s)).
  - pose proof (insert_all_rows effect_key (λ e, Ret (effect_row t e)) effects (effect_row t <$> effects) (history_effects db)) as Hi.
    outcome_simpl. rewrite Hi; [done| | |].
    + apply mmap_Ret, Forall2_fmap_r, Forall_Forall2_diag, Forall_true. done.
    + rewrite <- list_fmap_compose. exact Hn.
    + intros r (e & -> & He')%list_elem_of_fmap. by apply Hf.
  - intros s e He'. rewrite Hm; [done|]. apply Ha. by apply list_elem_of_fmap_2.
Qed.

(** *** Trades *)

(** A trade with the ids in the two tables. *)
Definition asset_id (t : IdTable asset_tuple) (a : Asset) : Z := default 0 (ids t !! asset_tuple_of a).
Definition trade_ids (t : IdTable gostring) (assets : IdTable asset_tuple) (x : InsertTrade * gostring) : InsertTrade :=
  let insert := x.1 in
  let trade := it_Trade insert in
  MkInsertTrade (it_HistoryOperationID insert) (it_Order insert) (it_LedgerCloseTime insert) (it_BuyOfferExists insert)
    (it_BuyOfferID insert) (id_of t (address (Atom_SellerId trade))) (id_of t x.2)
    (asset_id assets (AssetSold trade)) (asset_id assets (AssetBought trade)) trade (it_SellPrice insert).

(** The accounts and the assets of trades. *)
Definition trade_addresses (l : list (InsertTrade * gostring)) : list gostring :=
  concat ((λ x, [address (Atom_SellerId (it_Trade x.1)); x.2]) <$> l).
Definition trade_assets (l : list (InsertTrade * gostring)) : list Asset :=
  concat ((λ x, [AssetSold (it_Trade x.1); AssetBought (it_Trade x.1)]) <$> l).

Lemma elem_of_concat_fmap {A B} (f : A → list B) (l : list A) y : y ∈ concat (f <$> l) ↔ ∃ x, x ∈ l ∧ y ∈ f x.
Proof. rewrite elem_of_concat. setoid_rewrite list_elem_of_fmap. naive_solver. Qed.

Lemma add_trades (l : list (InsertTrade * gostring)) (p := foldl add_trade NewTradeProcessor l) :
  tp_inserts p = l.*1 ∧ tp_buyers p = l.*2 ∧ tp_assets p = trade_assets l ∧ ∀ a, a ∈ tp_accountSet p ↔ a ∈ trade_addresses l.
Proof.
  subst p. induction l as [|[x b] l (H1 & H2 & H3 & H4)] using rev_ind; [split_and!; [done..|set_solver]|].
  unfold trade_assets, trade_addresses in *. rewrite foldl_app, !fmap_app, !concat_app. cbn [foldl add_trade fmap list_fmap concat fst snd].
  cbn [tp_inserts tp_buyers tp_assets tp_accountSet app]. rewrite H1, H2, H3. split_and!; [done..|].
  intros a. rewrite elem_of_union, elem_of_union, H4, elem_of_app, !elem_of_cons, !elem_of_singleton. 
  set_solver.
Qed.

Lemma Trades_Commit_spec (l : list (InsertTrade * gostring)) db :
  ids_ok (history_accounts db) → assets_ok (history_assets db) → Forall wf_asset (trade_assets l) →
  Forall encodable l.*1 → NoDup ((λ x : InsertTrade * gostring, (it_HistoryOperationID x.1, it_Order x.1)) <$> l) →
  (∀ x, x ∈ l → history_trades db !! (it_HistoryOperationID x.1, it_Order x.1) = None) →
  ∃ t assets rows,
    Trades_Commit (foldl add_trade NewTradeProcessor l) db =
      Ret (set_trades (put trade_key rows (history_trades db)) (set_assets assets (set_accounts t db))) ∧
    grows (history_accounts db) (trade_addresses l) t ∧ assets_ok assets ∧ ids (history_assets db) ⊆ ids assets ∧
    (∀ a, a ∈ trade_assets l → is_Some (ids assets !! asset_tuple_of a)) ∧
    mmap (λ x, trade_row (trade_ids t assets x)) l = Ret rows.
Proof.
  intros Ht Has Hwa He Hn Hf. destruct (add_trades l) as (Hi & Hb & Ha & Hs). unfold Trades_Commit.
  rewrite Hi, Hb, Ha. case_bool_decide as Hnil.
  { apply fmap_nil_inv in Hnil as ->. exists (history_accounts db), (history_assets db), [].
    split; [by destruct db|]. split; [by apply grows_nil|]. split; [done|]. split; [done|]. split; [by intros ? ?%elem_of_nil|done]. }
  destruct (CreateAccounts_grows (elements (tp_accountSet (foldl add_trade NewTradeProcessor l))) (history_accounts db) Ht)
    as (t & m & -> & (Hok & Hsub & Hg) & Hm).
  destruct (CreateAssets_ids (trade_assets l) (history_assets db) Has Hwa) as (assets & ma & -> & Hok' & Hsub' & Hma).
  destruct (mmap_total (λ x, trade_row (trade_ids t assets x)) l) as [rows Hr].
  { intros x Hx. rewrite Forall_forall in He.
    destruct (trade_row_total (trade_ids t assets x)) as [r Hr]; [|by exists r].
    by apply (He x.1), list_elem_of_fmap_2. }
  assert (trade_key <$> rows = (λ x : InsertTrade * gostring, (it_HistoryOperationID x.1, it_Order x.1)) <$> l) as Hk.
  { apply mmap_Ret in Hr. clear -Hr. induction Hr as [|x r l rows Hx _ IH]; [done|]. rewrite !fmap_cons, IH.
    by rewrite (trade_row_key _ _ Hx). }
  exists t, assets, rows. split; [|split; [|split; [done|split; [done|split; [|done]]]]].
  - rewrite zip_fst_snd.
    rewrite (mfold_ext _ (λ s x, r ← trade_row (trade_ids t assets x); add_row trade_key r s)).
    + pose proof (insert_all_rows trade_key (λ x, trade_row (trade_ids t assets x)) l rows (history_trades db) Hr) as Hall.
      outcome_simpl. cbn [history_trades set_assets set_accounts]. rewrite Hk in Hall. specialize (Hall Hn).
      destruct (mfold _ _ l) as [[b' t']|e|]; cbn [outcome_bind] in *.
      1: rewrite Hall; [done|].
      2-3: discriminate Hall.
      all: intros r Hr'; apply (list_elem_of_fmap_2 trade_key) in Hr'; rewrite Hk in Hr';
        apply list_elem_of_fmap in Hr' as (x & -> & Hx); by apply Hf.
    + intros s [insert buyer] Hx. unfold with_ids, trade_ids. cbn [fst snd].
      assert (address (Atom_SellerId (it_Trade insert)) ∈ trade_addresses l ∧ buyer ∈ trade_addresses l ∧
        AssetSold (it_Trade insert) ∈ trade_assets l ∧ AssetBought (it_Trade insert) ∈ trade_assets l) as (H1 & H2 & H3 & H4).
      { unfold trade_addresses, trade_assets. rewrite !elem_of_concat_fmap. split_and!; exists (insert, buyer); set_solver. }
      rewrite !Hm by (by rewrite elem_of_elements, Hs). unfold asset_id.
      destruct (Hma _ H3) as (i & -> & ->), (Hma _ H4) as (j & -> & ->). done.
  - split_and!; [done..|]. intros a. rewrite Hg, elem_of_elements, Hs. done.
  - intros a Hin. destruct (Hma a Hin) as (i & Hia & _). by exists i.
Qed.

(** *** Participants *)

Lemma elem_of_participant_rows (set : participant → gset Z) (m : gmap gostring Z) (s : participants) (r : Z * Z) :
  r ∈ participant_rows set m s ↔ ∃ a p, s !! a = Some p ∧ r.1 ∈ set p ∧ r.2 = default 0 (m !! a).
Proof.
  unfold participant_rows. rewrite elem_of_concat_fmap. split.
  - intros ([a p] & Hp%elem_of_map_to_list & (i & -> & Hi%elem_of_elements)%list_elem_of_fmap). by exists a, p.
  - intros (a & p & Hp & Hi & Hr). exists (a, p). split; [by apply elem_of_map_to_list|]. apply list_elem_of_fmap.
    exists r.1. split; [by rewrite <- Hr; destruct r|by apply elem_of_elements].
Qed.

Lemma participant_rows_ext (set : participant → gset Z) (m m' : gmap gostring Z) (s : participants) :
  (∀ a, a ∈ (map_to_list s).*1 → m !! a = m' !! a) → participant_rows set m s = participant_rows set m' s.
Proof.
  intros Hm. unfold participant_rows. f_equal. apply list_fmap_ext. intros i [a p] Hi.
  rewrite Hm; [done|]. apply list_elem_of_lookup_2 in Hi. by apply (list_elem_of_fmap_2 fst) in Hi.
Qed.

Lemma participant_rows_NoDup (set : participant → gset Z) (t : IdTable gostring) (s : participants) :
  ids_ok t → (∀ a, a ∈ (map_to_list s).*1 → is_Some (ids t !! a)) → NoDup (participant_rows set (ids t) s).
Proof.
  intros [_ Hi] Hs. unfold participant_rows. pose proof (NoDup_fst_map_to_list s) as Hn. revert Hs Hn.
  induction (map_to_list s) as [|[a p] l IH]; intros Hs Hn; cbn [fmap list_fmap concat]; [constructor|].
  cbn [fmap list_fmap fst] in Hn. apply NoDup_cons in Hn as [Ha Hn]. apply NoDup_app. split_and!.
  - apply NoDup_fmap; [by intros x y [= ->]|apply NoDup_elements].
  - intros r (i & -> & _)%list_elem_of_fmap Hr%elem_of_concat_fmap.
    destruct Hr as ([b q] & Hb & (j & [= _ E] & _)%list_elem_of_fmap). apply Ha.
    destruct (Hs a) as [x Hx]; [by left|]. destruct (Hs b) as [y Hy]; [right; by apply (list_elem_of_fmap_2 fst) in Hb|].
    rewrite Hx, Hy in E. simpl in E. subst y. rewrite (Hi a b x Hx Hy). by apply (list_elem_of_fmap_2 fst) in Hb.
  - apply IH; [|done]. intros b Hb. apply Hs. by right.
Qed.

Lemma insert_participants_put (rows : list (Z * Z)) t :
  NoDup rows → (∀ r, r ∈ rows → t !! r = None) → insert_participants rows t = Ret (put participant_key rows t).
Proof.
  intros Hn Hf. pose proof (insert_all_rows participant_key Ret rows rows t) as Hall. outcome_simpl. unfold insert_participants.
  rewrite <- Hall; [done| |by rewrite list_fmap_id|done].
  apply mmap_Ret, Forall_Forall2_diag, Forall_true. done.
Qed.

Lemma Participants_Commit_spec (s : participants) db :
  ids_ok (history_accounts db) →
  (∀ a p r, s !! a = Some p → r.1 ∈ transactionSet p → history_transaction_participants db !! r = None) →
  (∀ a p r, s !! a = Some p → r.1 ∈ operationSet p → history_operation_participants db !! r = None) →
  ∃ t, Participants_Commit s db =
      Ret (set_operation_participants (put participant_key (participant_rows operationSet (ids t) s) (history_operation_participants db))
        (set_transaction_participants
          (put participant_key (participant_rows transactionSet (ids t) s) (history_transaction_participants db)) (set_accounts t db))) ∧
    grows (history_accounts db) (map_to_list s).*1 t.
Proof.
  intros Ht Hf1 Hf2. unfold Participants_Commit. case_bool_decide as Hz.
  { apply map_size_empty_inv in Hz as ->. exists (history_accounts db). unfold participant_rows. rewrite map_to_list_empty.
    split; [by destruct db|by apply grows_nil]. }
  destruct (loadAccountIDs_grows (map_to_list s).*1 db Ht) as (t & m & -> & Hg & Hm). outcome_simpl. exists t. split; [|done].
  destruct Hg as (Hok & Hsub & Hg).
  assert (∀ a, a ∈ (map_to_list s).*1 → is_Some (ids t !! a)) as Hin by (intros a Ha; apply Hg; by right).
  assert (∀ a, a ∈ (map_to_list s).*1 → m !! a = ids t !! a) as Hmt.
  { intros a Ha. rewrite Hm by done. unfold id_of. destruct (Hin a Ha) as [i ->]. done. }
  rewrite !(participant_rows_ext _ m (ids t)) by done.
  rewrite insert_participants_put; [|by apply participant_rows_NoDup|].
  - cbn [outcome_bind]. rewrite insert_participants_put; [done|by apply participant_rows_NoDup|].
    intros r (a & p & Hp & Hr & _)%elem_of_participant_rows. by eapply Hf2.
  - intros r (a & p & Hp & Hr & _)%elem_of_participant_rows. by eapply Hf1.
Qed.
