(* ===== verification/OperationTypes.v ===== *)
(** * ingest/processors: operations that do not go wrong

    The functions of the processors of transactions panic where a value has not
    the shape that they expect: a result of another type, a change of the wrong
    entry, a price without a denominator.  This file says what they expect of an
    operation and of a transaction, and shows that it is all they need: on what
    is typed they return. *)

From S2P Require Import Prelude Toid Decimal Price Xdr LedgerEntry ChangeCache HistoryTables Transaction LedgerReaders Operations Effects.
From S2P Require Import HistoryRows ChangeProcessor TransactionProcessors.

#[local] Opaque address.

(** ** What is expected *)

(** The result of an operation that succeeded; for passive offers hcnet-core sets
    the arm of other offers. *)
Definition result_typed (body : OperationBody) (tr : OperationResultTr) : Prop :=
  match body with
  | PathPaymentStrictReceiveOp _ => ∃ s, tr = PathPaymentStrictReceiveResult (Success s)
  | PathPaymentStrictSendOp _ => ∃ s, tr = PathPaymentStrictSendResult (Success s)
  | ManageSellOfferOp _ => ∃ s, tr = ManageSellOfferResult (Success s)
  | ManageBuyOfferOp _ => ∃ s, tr = ManageBuyOfferResult (Success s)
  | CreatePassiveSellOfferOp _ => ∃ s, tr = ManageSellOfferResult (Success s) ∨ tr = CreatePassiveSellOfferResult (Success s)
  | AccountMergeOp _ => ∃ s, tr = AccountMergeResult (Success s)
  | InflationOp => ∃ s, tr = InflationResult (Success s)
  | CreateClaimableBalanceOp _ _ _ => ∃ s, tr = CreateClaimableBalanceResult (Success s)
  | _ => True
  end.

(** An entry of the type, and for an account a sponsor or none for each signer. *)
Definition entry_typed (type : LedgerEntryType) (e : LedgerEntry) : Prop :=
  data_type (Data e) = type ∧
  match Data e with DataAccount a => (length (Signers a) ≤ length (SignerSponsoringIDs a))%nat | _ => True end.
Definition change_typed (c : Change) : Prop :=
  (is_Some (Pre c) ∨ is_Some (Post c)) ∧
  (∀ e, Pre c = Some e → entry_typed (Change_Type c) e) ∧ (∀ e, Post c = Some e → entry_typed (Change_Type c) e).

(** The changes that the operation makes when it succeeds. *)
Definition body_changes (body : OperationBody) (changes : list Change) : Prop :=
  match body with
  | SetOptionsOp _ => Forall (λ c, Change_Type c = TypeAccount → is_Some (Pre c) ∧ is_Some (Post c)) changes
  | BumpSequenceOp _ => ∀ c, first_of TypeAccount changes = Some c → is_Some (Pre c) ∧ is_Some (Post c)
  | ClaimClaimableBalanceOp balanceID =>
      ∃ c pre b, c ∈ changes ∧ Pre c = Some pre ∧ Post c = None ∧ Data pre = DataClaimableBalance b ∧
        balance_hex (ClaimableBalance_BalanceId b) = balance_hex balanceID
  | _ => True
  end.
Definition price_typed (body : OperationBody) : Prop :=
  match body with
  | ManageSellOfferOp op | ManageBuyOfferOp op | CreatePassiveSellOfferOp op => D (Manage_Price op) ≠ 0
  | _ => True
  end.

Record operation_typed (operation : transactionOperationWrapper) : Prop := {
  typed_price : price_typed (op_body operation);
  typed_changes : ∃ changes, op_changes operation = Ret changes ∧ Forall change_typed changes ∧
    (Successful (Tx_Result (op_transaction operation)) = true → body_changes (op_body operation) changes);
  typed_result : Successful (Tx_Result (op_transaction operation)) = true →
    ∃ results tr, OperationResults (Tx_Result (op_transaction operation)) = Some results ∧
      results !! op_index operation = Some (OpInner tr) ∧ result_typed (op_body operation) tr }.

(** ** Changes *)

Lemma typed_account c e : Change_Type c = TypeAccount → entry_typed (Change_Type c) e →
  ∃ a, Data e = DataAccount a ∧ (length (Signers a) ≤ length (SignerSponsoringIDs a))%nat.
Proof. intros -> [Hty Hs]. destruct (Data e) as [a| | | |]; try done. by exists a. Qed.

Lemma sponsor_loop_defined all signers i m :
  (i + length signers ≤ length all)%nat → ∃ m', sponsor_loop i all signers m = Ret m'.
Proof.
  revert i m. induction signers as [|s signers IH]; intros i m Hl; cbn [sponsor_loop]; [by eexists|]. cbn [length] in Hl.
  destruct (lookup_lt_is_Some_2 all i) as [o Ho]; [lia|]. rewrite Ho.
  destruct o as [x|]; rewrite ?SignerKey_Address_total; outcome_simpl; apply IH; lia.
Qed.

Lemma signer_sponsor_map_typed c entry :
  Change_Type c = TypeAccount → (∀ e, entry = Some e → entry_typed (Change_Type c) e) → ∃ m, signer_sponsor_map entry = Ret m.
Proof.
  intros Hty He. unfold signer_sponsor_map, MustAccount. destruct entry as [e|]; [|by eexists].
  destruct (typed_account c e Hty) as (a & -> & Hl); [by apply He|]. outcome_simpl. unfold SponsorPerSigner.
  destruct (sponsor_loop_defined (SignerSponsoringIDs a) (Signers a) 0 ∅) as [m ->]; [simpl; lia|]. by exists m.
Qed.

Lemma sponsor_in_changes_typed k cs : Forall change_typed cs → ∃ s, sponsor_in_changes k cs = Ret s.
Proof.
  induction 1 as [|c cs (_ & Hpre & Hpost) _ [s IH]]; cbn [sponsor_in_changes]; [by eexists|].
  assert (∃ o, match k with Some k => getSignerSponsorInChange k c | None => Ret None end = Ret o) as [o ->].
  { destruct k as [k|]; [|by eexists]. unfold getSignerSponsorInChange. case_bool_decide as Hty; cbn [negb]; [|by eexists].
    destruct (signer_sponsor_map_typed c (Pre c)) as [m ->]; [done..|].
    destruct (signer_sponsor_map_typed c (Post c)) as [m' ->]; [done..|]. destruct (Post c); [|by eexists]. outcome_simpl.
    destruct (m' !! k); [|by eexists]. destruct (m !! k); [|by eexists]. case_bool_decide; by eexists. }
  outcome_simpl. destruct o; [by eexists|]. rewrite IH. destruct (Pre c), (Post c) as [post|]; try by eexists.
  destruct (SponsoringID post); by eexists.
Qed.

Lemma getSponsor_typed operation : operation_typed operation → ∃ s, getSponsor operation = Ret s.
Proof.
  intros [_ (cs & Hcs & Ht & _) _]. unfold getSponsor. rewrite Hcs. outcome_simpl. by apply sponsor_in_changes_typed.
Qed.

(** ** Details and participants *)

Lemma op_OperationResult_typed operation :
  operation_typed operation → Successful (Tx_Result (op_transaction operation)) = true →
  ∃ tr, op_OperationResult operation = Ret tr ∧ result_typed (op_body operation) tr.
Proof.
  intros [_ _ Hr] Hs. destruct (Hr Hs) as (rs & tr & Hrs & Htr & Ht). exists tr. split; [|done].
  unfold op_OperationResult. by rewrite Hrs, Htr.
Qed.

Lemma spent_total sa offers ret : ∃ x, spent sa offers ret = Ret x.
Proof.
  revert ret. induction offers as [|o offers IH]; intros ret; cbn [spent]; [by eexists|]. rewrite Asset_String_total. outcome_simpl.
  case_bool_decide; [apply IH|by eexists].
Qed.

Lemma SendAmount_total r : ∃ x, SendAmount r = Ret x.
Proof.
  unfold SendAmount. destruct r as [s|]; [|by eexists]. destruct (Offers s) as [|o os] eqn:E; [by eexists|].
  rewrite Asset_String_total. outcome_simpl. apply spent_total.
Qed.

Lemma offer_details_typed kvs op : D (Manage_Price op) ≠ 0 → ∃ d, offer_details kvs op = Ret d.
Proof.
  intros Hd. unfold offer_details. assert (∃ t, price_text (Manage_Price op) = Ret t) as [t ->]; [|by eexists].
  unfold price_text, Price_String, NewRat. rewrite (proj2 (Z.eqb_neq _ _)) by done. case_if; by eexists.
Qed.

Lemma body_details_typed operation : operation_typed operation → ∃ d, body_details operation = Ret d.
Proof.
  intros Ht. pose proof (op_OperationResult_typed operation Ht) as Hr. pose proof (typed_price _ Ht) as Hp.
  unfold body_details. destruct (op_body operation) as [| |op| | | | | | | | | | |op| | | | |[|]] eqn:E; try by eexists; cbn in Hr, Hp.
  2-4: by apply offer_details_typed.
  - destruct (Successful _); [|by eexists]. destruct (Hr eq_refl) as (tr & -> & s & ->). outcome_simpl.
    cbn [MustPathPaymentStrictReceiveResult outcome_bind]. destruct (SendAmount_total (Success s)) as [x ->]. by eexists.
  - destruct (Successful _); [|by eexists]. destruct (Hr eq_refl) as (tr & -> & s & ->). by eexists.
Qed.

Lemma Details_typed operation : operation_typed operation → ∃ d, Details operation = Ret d.
Proof.
  intros Ht. unfold Details. destruct (body_details_typed operation Ht) as [d ->], (getSponsor_typed operation Ht) as [s ->]. by eexists.
Qed.

Lemma Participants_typed operation : operation_typed operation → ∃ l, Participants operation = Ret l.
Proof. intros Ht. unfold Participants. destruct (getSponsor_typed operation Ht) as [s ->]. by eexists. Qed.

(** ** Effects *)

Lemma entry_sponsorship_typed operation c : change_typed c → ∃ l, addLedgerEntrySponsorshipEffects operation c = Ret l.
Proof.
  intros (Hone & Hpre & Hpost). unfold addLedgerEntrySponsorshipEffects.
  destruct (sponsoringEffectsTable (Change_Type c)) as [[[a b] d]|] eqn:Et; [|by eexists].
  match goal with |- context [match ?w with None => Ret [] | Some _ => _ end] => destruct w as [[t kvs]|] end; [|by eexists].
  assert (∃ e, match Post c with Some e => Some e | None => Pre c end = Some e ∧ entry_typed (Change_Type c) e) as (e & -> & Hty & _).
  { destruct (Post c) as [e|]; [by exists e; auto|]. destruct Hone as [[e He]|[]]; [|done]. exists e. auto. }
  assert (∃ s, sponsorship_subject operation (Change_Type c) (Data e) = Ret s) as [[x kvs'] ->]; [|by eexists].
  rewrite <- Hty. rewrite <- Hty in Et. destruct (Data e); first [discriminate Et|by eexists].
Qed.

Lemma signer_sponsorship_typed c : change_typed c → ∃ l, addSignerSponsorshipEffects c = Ret l.
Proof.
  intros (_ & Hpre & Hpost). unfold addSignerSponsorshipEffects. case_bool_decide as Hty; cbn [negb]; [|by eexists].
  destruct (signer_sponsor_map_typed c (Pre c)) as [m Hm]; [done..|].
  destruct (signer_sponsor_map_typed c (Post c)) as [m' Hm']; [done..|]. rewrite Hm, Hm'. outcome_simpl.
  destruct (signer_sponsorships c m m' Hm Hm') as (a & b & Hl). rewrite Hl. by eexists.
Qed.

Lemma signer_changes_typed source cs :
  Forall change_typed cs → Forall (λ c, Change_Type c = TypeAccount → is_Some (Pre c) ∧ is_Some (Post c)) cs →
  ∃ l, signer_changes source cs = Ret l.
Proof.
  unfold signer_changes. generalize (@nil added) as l. intros l Ht Hb. revert l.
  induction Ht as [|c cs (_ & Hpre & Hpost) _ IH]; intros l; cbn [mfold]; [by eexists|].
  apply Forall_cons in Hb as [Hc Hb]. case_bool_decide as Hty; cbn [negb outcome_bind]; [|by apply IH].
  destruct (Hc Hty) as [[e He] [e' He']]. rewrite He, He'. unfold signers_of_entry, MustAccount.
  destruct (typed_account c e Hty (Hpre e He)) as (a & -> & _), (typed_account c e' Hty (Hpost e' He')) as (a' & -> & _).
  outcome_simpl. rewrite !SignerSummary_total. cbn [must outcome_bind]. by apply IH.
Qed.

Lemma first_of_elem type changes c : first_of type changes = Some c → c ∈ changes ∧ Change_Type c = type.
Proof. unfold first_of. intros H%head_Some_elem_of. by apply list_elem_of_filter in H as [? ?]. Qed.

Lemma change_effect_typed a b d c : change_typed c → ∃ t, change_effect a b d c = Ret t.
Proof. intros [Hone _]. unfold change_effect. destruct (Pre c), (Post c); try by eexists. by destruct Hone as [[]|[]]. Qed.

Lemma find_removed_balance_typed (id : gostring) cs :
  Forall change_typed cs →
  (∃ c pre b, c ∈ cs ∧ Pre c = Some pre ∧ Post c = None ∧ Data pre = DataClaimableBalance b ∧
    balance_hex (ClaimableBalance_BalanceId b) = id) →
  ∃ b, find_removed_balance id cs = Ret b.
Proof.
  induction 1 as [|c cs (Hone & Hpre & Hpost) _ IH]; intros (c' & pre & b & Hin & Hc'); [by apply elem_of_nil in Hin|].
  cbn [find_removed_balance]. apply elem_of_cons in Hin as [->|Hin].
  - destruct Hc' as (E1 & E2 & E3 & E4). rewrite E1, E2, E3. destruct (Hpre _ E1) as [Hty _]. rewrite E3 in Hty. cbn in Hty.
    rewrite bool_decide_true by done. cbn [negb]. rewrite bool_decide_true by done. by eexists.
  - destruct IH as [x Hx]; [by exists c', pre, b|]. case_bool_decide as Hty; cbn [negb]; [|by exists x].
    destruct (Pre c) as [p|] eqn:Ep, (Post c) as [q|]; try by exists x. destruct (Hpre p eq_refl) as [Hp _].
    rewrite Hty in Hp. destruct (Data p); try discriminate Hp. case_bool_decide; [by eexists|by exists x].
Qed.

Lemma body_effects_typed operation :
  operation_typed operation → Successful (Tx_Result (op_transaction operation)) = true → ∃ l, body_effects operation = Ret l.
Proof.
  intros Ht Hs. destruct (op_OperationResult_typed operation Ht Hs) as (tr & Htr & Hr).
  destruct (typed_changes _ Ht) as (cs & Hcs & Hct & Hb). specialize (Hb Hs). unfold body_effects.
  destruct (op_body operation) as [| |op|op|op|op| | | | | | |op|op| | | | |] eqn:E; cbn in Hr, Hb; try by eexists.
  - unfold pathPaymentStrictReceiveEffects. destruct Hr as [s ->]. rewrite Htr.
    destruct (SendAmount_total (Success s)) as [x Hx]. outcome_simpl. cbn [MustPathPaymentStrictReceiveResult outcome_bind MustSuccess].
    rewrite Hx. by eexists.
  - unfold addManageSellOfferEffects. destruct Hr as [s ->]. rewrite Htr. by eexists.
  - unfold addCreatePassiveSellOfferEffect. destruct Hr as [s [->| ->]]; rewrite Htr; by eexists.
  - unfold addSetOptionsEffects. rewrite Hcs. destruct (signer_changes_typed (SourceAccount operation) cs Hct Hb) as [l ->]. by eexists.
  - unfold addChangeTrustEffects. rewrite Hcs. outcome_simpl. case_bool_decide; [by eexists|].
    destruct (first_of TypeTrustline cs) as [c|] eqn:Ec; [|by eexists]. apply first_of_elem in Ec as [Hc _].
    rewrite Forall_forall in Hct. destruct (change_effect_typed EffectTrustlineCreated EffectTrustlineRemoved EffectTrustlineUpdated c) as [t ->];
      [by apply Hct|by eexists].
  - unfold addAccountMergeEffects. destruct Hr as [s ->]. rewrite Htr. by eexists.
  - unfold addInflationEffects. destruct Hr as [s ->]. rewrite Htr. by eexists.
  - unfold addManageDataEffects. rewrite Hcs. outcome_simpl.
    destruct (first_of TypeData cs) as [c|] eqn:Ec; [|by eexists]. apply first_of_elem in Ec as [Hc Hty]. rewrite Forall_forall in Hct.
    destruct (change_effect_typed EffectDataCreated EffectDataRemoved EffectDataUpdated c) as [t ->]; [by apply Hct|].
    destruct (Hct c Hc) as (_ & _ & Hpost). destruct (Post c) as [e|]; [|by eexists]. destruct (Hpost e eq_refl) as [He _].
    rewrite Hty in He. destruct (Data e); try discriminate He. by eexists.
  - unfold addBumpSequenceEffects. rewrite Hcs. outcome_simpl. destruct (first_of TypeAccount cs) as [c|] eqn:Ec; [|by eexists].
    destruct (Hb c eq_refl) as [[e He] [e' He']]. apply first_of_elem in Ec as [Hc Hty]. rewrite Forall_forall in Hct.
    destruct (Hct c Hc) as (_ & Hpre & Hpost). rewrite He, He'. unfold MustAccount.
    destruct (typed_account c e Hty (Hpre e He)) as (a & -> & _), (typed_account c e' Hty (Hpost e' He')) as (a' & -> & _). by eexists.
  - unfold addManageBuyOfferEffects. destruct Hr as [s ->]. rewrite Htr. by eexists.
  - unfold addPathPaymentStrictSendEffects. destruct Hr as [s ->]. rewrite Htr. by eexists.
  - unfold addCreateClaimableBalanceEffects. destruct Hr as [s ->]. rewrite Htr. by eexists.
  - unfold addClaimClaimableBalanceEffects. rewrite Hcs. outcome_simpl.
    destruct (find_removed_balance_typed (balance_hex balanceID) cs Hct) as [b ->]; [|by eexists].
    destruct Hb as (c & pre & b & Hb). by exists c, pre, b.
Qed.

Lemma op_effects_typed operation id :
  operation_typed operation → op_ID operation = Ret id → ∃ l, op_effects operation = Ret (numbered id l).
Proof.
  intros Ht Hid. rewrite (op_effects_as operation id Hid). case_if; [by exists []|].
  destruct (body_effects_typed operation Ht) as [b ->]; [by destruct (Successful _)|].
  destruct (typed_changes _ Ht) as (cs & -> & Hct & _). outcome_simpl. rewrite Forall_forall in Hct.
  destruct (mmap_total (sponsorship_effects operation) cs) as [ls ->]; [|by eexists].
  intros c Hc. unfold sponsorship_effects. destruct (entry_sponsorship_typed operation c) as [l ->]; [by apply Hct|].
  destruct (signer_sponsorship_typed c) as [l' ->]; [by apply Hct|]. by eexists.
Qed.

(** ** Trades *)

Lemma op_trades_typed operation results :
  operation_typed operation → Successful (Tx_Result (op_transaction operation)) = true →
  OperationResults (Tx_Result (op_transaction operation)) = Some results →
  ∃ r, op_trades (op_body operation) (results !! op_index operation) = Ret r.
Proof.
  intros [_ _ Hr] Hs Hres. destruct (Hr Hs) as (rs & tr & Hrs & Htr & Ht). rewrite Hrs in Hres. injection Hres as ->.
  rewrite Htr. unfold op_trades. destruct (op_body operation); try by eexists; cbn in Ht.
  all: destruct Ht as [s Ht]; first [destruct Ht as [->| ->]|rewrite Ht]; by eexists.
Qed.

(** An offer has the key of an offer. *)
Lemma find_offer_typed seller offerID cs :
  Forall change_typed cs →
  ∃ o, find_offer (LedgerEntryTypeOffer seller offerID) cs = Ret o ∧ ∀ pre, o = Some pre → ∃ offer, Data pre = DataOffer offer.
Proof.
  induction 1 as [|c cs (_ & Hpre & _) _ (o & IH & Ho)]; cbn [find_offer]; [by exists None|].
  destruct (Pre c) as [pre|]; [|by exists o]. unfold LedgerEntry_LedgerKey.
  destruct (Data pre) as [| |offer| |] eqn:Ed; cbn [LedgerKey_Equals must]; outcome_simpl; try by exists o.
  case_if; [|by exists o]. exists (Some pre). split; [done|]. intros pre' [= <-]. by exists offer.
Qed.

Lemma findTradeSellPrice_typed operation trade : operation_typed operation → ∃ p, findTradeSellPrice operation trade = Ret p.
Proof.
  intros [_ (cs & Hcs & Ht & _) _]. unfold findTradeSellPrice. rewrite Hcs. outcome_simpl.
  destruct (find_offer_typed (Atom_SellerId trade) (Atom_OfferId trade) (reverse cs)) as (o & -> & Ho); [by apply Forall_reverse|].
  outcome_simpl. destruct o as [pre|]; [|by eexists]. destruct (Ho pre eq_refl) as [offer ->]. by eexists.
Qed.

(** The trades of one claim. *)
Definition trade_of_claim (opID closeTime : Z) (operation : transactionOperationWrapper) (buyOffer : option OfferEntry)
    (x : nat * ClaimOfferAtom) : outcome tx_error (list (InsertTrade * gostring)) :=
  let '(order, trade) := x in
  if negb (is_trade trade) then Ret [] else
  sellOfferPrice ← findTradeSellPrice operation trade;
  Ret [(MkInsertTrade opID (i32 (Z.of_nat order)) closeTime (bool_decide (is_Some buyOffer))
    (match buyOffer with Some o => OfferId o | None => 0 end) 0 0 0 0 trade sellOfferPrice, address (SourceAccount operation))].

Lemma trades_of_claims_append opID closeTime operation buyOffer inserts trades r :
  trades_of_claims opID closeTime operation buyOffer inserts trades = Ret r ↔
  ∃ ps, mmap (trade_of_claim opID closeTime operation buyOffer) (imap pair trades) = Ret ps ∧ r = inserts ++ concat ps.
Proof.
  rewrite <- mfold_append. unfold trades_of_claims.
  rewrite (mfold_ext _ (λ acc x, outcome_bind (λ p, Ret (acc ++ p)) (trade_of_claim opID closeTime operation buyOffer x))); [done|].
  intros acc [i t] _. unfold trade_of_claim. destruct (is_trade t); cbn [negb outcome_bind]; [|by rewrite app_nil_r].
  by destruct (findTradeSellPrice operation t).
Qed.

Lemma trades_of_claims_typed opID closeTime operation buyOffer trades :
  operation_typed operation → ∃ l, trades_of_claims opID closeTime operation buyOffer [] trades = Ret l.
Proof.
  intros Ht. destruct (mmap_total (trade_of_claim opID closeTime operation buyOffer) (imap pair trades)) as [ps Hps].
  - intros [i t] _. unfold trade_of_claim. destruct (findTradeSellPrice_typed operation t Ht) as [p ->]. case_if; by eexists.
  - eexists. apply trades_of_claims_append. by exists ps.
Qed.

(** ** Operations *)

(** C31: an operation that is typed does not go wrong: its price has a
    denominator, its changes have the entries of their types, and if it succeeded
    its result is the one of its type and its changes are those it makes.  Then
    its details, its participants, its effects and, if it succeeded, its trades
    are computed without a panic and without an error. *)
Theorem operation_typed_total operation id :
  operation_typed operation → op_ID operation = Ret id →
  (∃ d, Details operation = Ret d) ∧ (∃ ps, Participants operation = Ret ps) ∧
  (∃ l, op_effects operation = Ret (numbered id l)) ∧
  (Successful (Tx_Result (op_transaction operation)) = true →
   ∃ results claims offer, OperationResults (Tx_Result (op_transaction operation)) = Some results ∧
     op_trades (op_body operation) (results !! op_index operation) = Ret (claims, offer) ∧
     ∀ closeTime, ∃ l, trades_of_claims id closeTime operation offer [] claims = Ret l).
Proof.
  intros Ht Hid. split; [by apply Details_typed|]. split; [by apply Participants_typed|]. split; [by apply op_effects_typed|].
  intros Hs. destruct (typed_result _ Ht Hs) as (rs & _ & Hrs & _). destruct (op_trades_typed operation rs Ht Hs Hrs) as [[claims offer] Hc].
  exists rs, claims, offer. split_and!; [done..|]. intros closeTime. by apply trades_of_claims_typed.
Qed.

(** *** An example: an offer that takes another *)
Module Example_operation.
Definition alice : AccountId := MkAccountId (replicate 32 1).
Definition bob : AccountId := MkAccountId (replicate 32 2).
Definition usd : Asset := AssetTypeCreditAlphanum4 [85; 83; 68; 0] bob.
Definition offer (amount : Z) : LedgerEntry := MkEntry 63 (DataOffer (MkOffer bob 7 usd AssetTypeNative amount (MkPrice 1 2) 0)) None.
Definition account (balance : Z) : LedgerEntry :=
  MkEntry 64 (DataAccount (MkAccount alice balance 7 1 None 0 [] (MkThresholds 1 0 0 0)
    [MkSigner (SignerKeyTypeHashX (replicate 32 5)) 2] None)) None.
Definition claim : ClaimOfferAtom := MkClaimOfferAtom bob 7 usd 10 AssetTypeNative 5.
Definition sell : Operation := MkOperation None (ManageSellOfferOp (MkManageOffer AssetTypeNative usd 5 (MkPrice 2 1) 0)).
Definition fund : Operation := MkOperation None (CreateAccountOp bob 100).
Definition transaction : LedgerTransaction :=
  MkLedgerTransaction 1 (EnvelopeTypeTx (MkTransaction (KeyTypeEd25519 (Ed25519 alice)) 200 8 None (MemoText [104; 105]) [fund; sell]) [])
    (MkResultPair [1] 200 (TxSuccess [OpInner (CreateAccountResult (Success tt));
      OpInner (ManageSellOfferResult (Success (MkManageOfferSuccess [claim] None)))]))
    [LedgerEntryState (account 500); LedgerEntryUpdated (account 300)]
    (MetaV2 [] [[]; [LedgerEntryState (offer 10); LedgerEntryRemoved (LedgerEntryTypeOffer bob 7);
                 LedgerEntryState (account 300); LedgerEntryUpdated (account 295)]] []).
Definition operation : transactionOperationWrapper := MkOp 1 transaction sell 64.
End Example_operation.

Lemma example_typed : operation_typed Example_operation.operation.
Proof.
  split; [done| |].
  - exists [MkChange TypeOffer (Some (Example_operation.offer 10)) None;
      MkChange TypeAccount (Some (Example_operation.account 300)) (Some (Example_operation.account 295))].
    split; [done|]. split; [|done]. repeat (apply Forall_cons; split); [..|by apply Forall_nil].
    + split; [by left; eexists|]. split; [by intros e [= <-]|done].
    + split; [by left; eexists|]. split; intros e [= <-]; (split; [done|cbn; lia]).
  - intros _. eexists _, _. split_and!; [reflexivity|reflexivity|]. by eexists.
Qed.

Theorem operation_typed_total_witness :
  ∃ id, let operation := Example_operation.operation in op_ID operation = Ret id ∧
    ((∃ d, Details operation = Ret d) ∧ (∃ ps, Participants operation = Ret ps) ∧
     (∃ l, op_effects operation = Ret (numbered id l)) ∧
     (Successful (Tx_Result (op_transaction operation)) = true →
      ∃ results claims offer, OperationResults (Tx_Result (op_transaction operation)) = Some results ∧
        op_trades (op_body operation) (results !! op_index operation) = Ret (claims, offer) ∧
        ∀ closeTime, ∃ l, trades_of_claims id closeTime operation offer [] claims = Ret l)).
Proof.
  exists (64 * 2 ^ 32 + 1 * 2 ^ 12 + 2). split; [by vm_compute|].
  apply operation_typed_total; [apply example_typed|by vm_compute].
Defined.
