(* ===== verification/LedgerHistory.v ===== *)
(** * ingest/processors: the history of a ledger

    What the processors of transactions write for the transactions of a ledger,
    said without them: the effects and the trades of the operations that
    succeeded, a row for each operation and for each transaction, and who took
    part in them ([ledger_history]).  For transactions that are typed and fit in
    the identifiers it is computed without an error, and everything in it has an
    identifier of the ledger, no two of one kind the same. *)

From S2P Require Import Prelude Toid Price Xdr LedgerEntry ChangeCache HistoryTables Transaction LedgerReaders Operations Effects HistoryRows.
From S2P Require Import ChangeProcessor TransactionProcessors OperationTypes.

#[local] Opaque address.

(** ** What the transactions of a ledger give *)

Record History := MkHist {
  h_effects : list effect;
  h_operations : list OperationRow;
  h_trades : list (InsertTrade * gostring);
  h_participants : participants;
  h_transactions : list TransactionRow }.

Section history.
Context `{XT : XdrText} (ledger : LedgerHeaderHistoryEntry).
Abbreviation sequence := (LedgerSeq (Header ledger)).

Definition successful (txs : list LedgerTransaction) : list LedgerTransaction :=
  filter (λ tx, Successful (Tx_Result tx) = true) txs.
Definition ledger_operations (txs : list LedgerTransaction) : list transactionOperationWrapper :=
  concat ((λ tx, wrappers tx sequence) <$> txs).

(** The effects and the trades of an operation. *)
Definition operation_effects (operation : transactionOperationWrapper) : outcome tx_error (list effect) :=
  with_ID operation (op_effects operation).
Definition operation_trades (operation : transactionOperationWrapper) : outcome tx_error (list (InsertTrade * gostring)) :=
  match OperationResults (Tx_Result (op_transaction operation)) with
  | None => Fail ErrNoOperationResults
  | Some opResults =>
      '(claims, buyOffer) ← op_trades (op_body operation) (opResults !! op_index operation);
      opID ← op_ID operation;
      trades_of_claims opID (i64 (CloseTime (Header ledger))) operation buyOffer [] claims
  end.

(** The history of a ledger, without the processors: the effects and the trades
    of the operations that succeeded, a row for each operation and for each
    transaction, and who took part. *)
Definition ledger_history (txs : list LedgerTransaction) : outcome tx_error History :=
  effects ← mmap operation_effects (ledger_operations (successful txs));
  operations ← mmap operation_row (ledger_operations txs);
  trades ← mmap operation_trades (ledger_operations (successful txs));
  participants ← mfold (λ s tx, Participants_ProcessTransaction sequence tx s) ∅ txs;
  transactions ← mmap (λ tx, transactionToRow tx sequence) txs;
  Ret (MkHist (concat effects) operations (concat trades) participants transactions).

(** The processors that skip the transactions that failed. *)
Lemma stream_successful {S B} (f : LedgerTransaction → outcome tx_error B) (g : S → B → S) txs s rs :
  mmap f (successful txs) = Ret rs →
  mfold (λ s tx, if negb (Successful (Tx_Result tx)) then Ret s else r ← f tx; Ret (g s r)) s txs = Ret (foldl g s rs).
Proof.
  unfold successful. revert s rs. induction txs as [|tx txs IH]; intros s rs; [by intros [= <-]|]. rewrite filter_cons. cbn [mfold].
  destruct (Successful (Tx_Result tx)); cbn [negb].
  - rewrite decide_True by done. rewrite mmap_cons. destruct (f tx) as [r|e|]; outcome_simpl; [|done..].
    destruct (mmap f _) as [rs'|e|]; outcome_simpl; [|done..]. intros [= <-]. by apply (IH (g s r) rs').
  - rewrite decide_False by done. apply IH.
Qed.

Lemma foldl_concat {A B} (f : A → B → A) a (ls : list (list B)) : foldl (foldl f) a ls = foldl f a (concat ls).
Proof. by rewrite (foldl_foldl f (λ l, l)), list_fmap_id. Qed.

Lemma foldl_app_concat {A} (ls : list (list A)) a : foldl app a ls = a ++ concat ls.
Proof. revert a. induction ls as [|l ls IH]; intros a; cbn [foldl concat]; [by rewrite app_nil_r|]. by rewrite IH, app_assoc. Qed.

Lemma concat_concat {A} (ls : list (list (list A))) : concat (@concat A <$> ls) = concat (concat ls).
Proof. induction ls as [|l ls IH]; [done|]. rewrite fmap_cons. cbn [concat]. by rewrite IH, concat_app. Qed.

Lemma operationsEffects_append tx es :
  mmap operation_effects (wrappers tx sequence) = Ret es → operationsEffects tx sequence = Ret (concat es).
Proof. intros H. apply mfold_append. by exists es. Qed.

Lemma extractTrades_append tx ls :
  is_Some (OperationResults (Tx_Result tx)) → mmap operation_trades (wrappers tx sequence) = Ret ls → extractTrades ledger tx = Ret (concat ls).
Proof.
  intros [rs Hrs] Hl. unfold extractTrades. rewrite Hrs. rewrite mmap_Ret in Hl.
  assert (∀ op, op ∈ wrappers tx sequence → op_transaction op = tx) as Hop.
  { intros op (i & o & -> & _)%elem_of_lookup_imap. done. }
  change (concat ls) with ([] ++ concat ls). generalize (@nil (InsertTrade * gostring)) as acc. revert Hop.
  induction Hl as [|op l ops ls Hop' _ IH]; intros Hop acc; cbn [mfold concat]; [by rewrite app_nil_r|].
  unfold operation_trades in Hop'. rewrite (Hop op), Hrs in Hop' by (by left). outcome_simpl.
  destruct (op_trades (op_body op) (rs !! op_index op)) as [[claims buyOffer]|e|]; cbn [outcome_bind] in *; [|done..].
  destruct (op_ID op) as [id|e|]; cbn [outcome_bind] in *; [|done..].
  apply trades_of_claims_append in Hop' as (ps & Hps & ->).
  rewrite (proj2 (trades_of_claims_append _ _ _ _ acc _ (acc ++ concat ps))); [|by exists ps]. cbn [outcome_bind app].
  rewrite IH by (intros op' Hop'; apply Hop; by right). by rewrite <- app_assoc.
Qed.

(** What the transactions that succeeded give, from what their operations do. *)
Lemma successful_append {B} (f : transactionOperationWrapper → outcome tx_error (list B)) (g : LedgerTransaction → outcome tx_error (list B)) txs ls :
  (∀ tx r, tx ∈ successful txs → mmap f (wrappers tx sequence) = Ret r → g tx = Ret (concat r)) →
  mmap f (ledger_operations (successful txs)) = Ret ls → ∃ rs, mmap g (successful txs) = Ret rs ∧ concat rs = concat ls.
Proof.
  intros Hg (lss & Hl & ->)%mmap_concat. exists (@concat B <$> lss). split; [|apply concat_concat].
  apply mmap_Ret in Hl. apply mmap_Ret. clear -Hl Hg. induction Hl as [|tx l txs' ls Htx _ IH]; [constructor|]. cbn [fmap list_fmap]. constructor.
  - apply Hg; [by left|done].
  - apply IH. intros tx' r Htx'. apply Hg. by right.
Qed.

(** *** Identifiers *)

Definition tx_id (tx : LedgerTransaction) : Z := packed (MkID sequence (Index tx) 0).
Definition op_id (operation : transactionOperationWrapper) : Z :=
  packed (MkID sequence (Index (op_transaction operation)) (Z.of_nat (op_index operation) + 1)).
Definition in_ledger (id : Z) : Prop := sequence * 2 ^ 32 ≤ id < (sequence + 1) * 2 ^ 32.

Lemma elem_of_ledger_operations txs operation :
  operation ∈ ledger_operations txs ↔
  ∃ tx i o, tx ∈ txs ∧ Operations (Envelope tx) !! i = Some o ∧ operation = MkOp i tx o sequence.
Proof.
  unfold ledger_operations, wrappers. rewrite elem_of_concat. setoid_rewrite list_elem_of_fmap. split.
  - intros (l & (tx & -> & Htx) & (i & o & -> & Ho)%elem_of_lookup_imap). by exists tx, i, o.
  - intros (tx & i & o & Htx & Ho & ->). eexists. split; [by exists tx|]. apply elem_of_lookup_imap. by exists i, o.
Qed.

(** The effects, the claims and the offers of an operation can be numbered. *)
Definition claim_fits (claim : ClaimOfferAtom) : Prop :=
  0 ≤ Atom_OfferId claim < 2 ^ 62 ∧ wf_asset (AssetSold claim) ∧ wf_asset (AssetBought claim).
Record operation_fits (operation : transactionOperationWrapper) : Prop := {
  fits_effects : ∀ l, op_effects operation = Ret l → Z.of_nat (length l) < 2 ^ 32;
  fits_claims : ∀ results claims buyOffer, OperationResults (Tx_Result (op_transaction operation)) = Some results →
    op_trades (op_body operation) (results !! op_index operation) = Ret (claims, buyOffer) →
    Z.of_nat (length claims) < 2 ^ 31 ∧ Forall claim_fits claims ∧ ∀ o, buyOffer = Some o → 0 ≤ OfferId o < 2 ^ 62 }.

(** The transactions and the operations fit in an identifier; the id of an
    operation is stored with its trades, which leaves two bits less. *)
Record fits (txs : list LedgerTransaction) : Prop := {
  fits_sequence : 0 < sequence < 2 ^ 30;
  fits_operations : ∀ operation, operation ∈ ledger_operations txs → operation_fits operation;
  fits_transaction : ∀ tx, tx ∈ txs → 0 < Index tx < 2 ^ 20 ∧ Z.of_nat (length (Operations (Envelope tx))) < 2 ^ 12;
  fits_distinct : NoDup (Index <$> txs) }.

Lemma fits_successful txs : fits txs → fits (successful txs).
Proof.
  intros [Hs Ho Ht Hd]. split; [done| | |].
  - intros op (tx & i & o & [_ Htx]%list_elem_of_filter & Hi & ->)%elem_of_ledger_operations. apply Ho, elem_of_ledger_operations.
    by exists tx, i, o.
  - intros tx [_ Htx]%list_elem_of_filter. by apply Ht.
  - eapply sublist_NoDup; [exact Hd|]. apply fmap_sublist, sublist_filter.
Qed.

Lemma new_toid_fits index order :
  0 < sequence < 2 ^ 30 → 0 < index < 2 ^ 20 → 0 ≤ order < 2 ^ 12 → new_toid sequence index order = Ret (packed (MkID sequence index order)).
Proof.
  intros Hs Hi Ho. unfold new_toid, New. rewrite !i32_small by (unfold is_i32; lia). rewrite ToInt64_packed; [done|].
  unfold wf; simpl; lia.
Qed.

Lemma packed_in_ledger index order : 0 < index < 2 ^ 20 → 0 ≤ order < 2 ^ 12 → in_ledger (packed (MkID sequence index order)).
Proof. intros Hi Ho. unfold in_ledger, packed. simpl. lia. Qed.

Lemma tx_ID_fits txs tx : fits txs → tx ∈ txs → new_toid sequence (Index tx) 0 = Ret (tx_id tx) ∧ in_ledger (tx_id tx).
Proof.
  intros [Hs _ Ht _] Htx. destruct (Ht tx Htx) as [Hi _]. split; [by apply new_toid_fits|by apply packed_in_ledger].
Qed.

Lemma op_fits txs operation : fits txs → operation ∈ ledger_operations txs →
  op_ledgerSequence operation = sequence ∧ 0 < Index (op_transaction operation) < 2 ^ 20 ∧
  0 < Z.of_nat (op_index operation) + 1 < 2 ^ 12.
Proof.
  intros [Hs _ Ht _] (tx & i & o & Htx & Ho & ->)%elem_of_ledger_operations. destruct (Ht tx Htx) as [Hi Hl].
  apply lookup_lt_Some in Ho. cbn. split_and!; [done|lia..].
Qed.

Lemma op_ID_fits txs operation : fits txs → operation ∈ ledger_operations txs →
  op_ID operation = Ret (op_id operation) ∧ in_ledger (op_id operation).
Proof.
  intros Hf Hop. destruct (op_fits txs operation Hf Hop) as (Hs & Hi & Ho). unfold op_ID. rewrite Hs.
  rewrite i32_small by (unfold is_i32; lia). split; [apply new_toid_fits; [apply Hf|lia..]|apply packed_in_ledger; lia].
Qed.

Lemma op_ids_distinct txs : fits txs → NoDup (op_id <$> ledger_operations txs).
Proof.
  intros Hf. set (key := λ op, (Index (op_transaction op), op_index op)).
  assert (NoDup (key <$> ledger_operations txs)) as Hn.
  { unfold ledger_operations. apply (NoDup_concat_fst key Index txs); [|apply Hf].
    apply Forall2_fmap_r, Forall_Forall2_diag, Forall_true. intros tx. unfold wrappers. split.
    - apply NoDup_alt. intros i j x. rewrite !list_lookup_fmap, !list_lookup_imap.
      destruct (Operations (Envelope tx) !! i), (Operations (Envelope tx) !! j); cbn; try done. intros [= <-] [= ]. done.
    - intros op (i & o & -> & _)%elem_of_lookup_imap. done. }
  apply NoDup_fmap_2_strong; [|by apply NoDup_fmap_1 in Hn].
  intros x y Hx Hy E. apply (NoDup_key key _ _ _ Hn Hx Hy).
  destruct (op_fits txs x Hf Hx) as (_ & Hix & Hox), (op_fits txs y Hf Hy) as (_ & Hiy & Hoy).
  unfold op_id, packed in E. cbn in E. unfold key. f_equal; lia.
Qed.

Lemma tx_ids_distinct txs : fits txs → NoDup (tx_id <$> txs).
Proof.
  intros Hf. apply NoDup_fmap_2_strong; [|eapply NoDup_fmap_1, Hf].
  intros x y Hx Hy E. apply (NoDup_key Index txs); [apply Hf|done..|].
  unfold tx_id, packed in E. cbn in E. lia.
Qed.

(** *** Participants *)

Definition took_part (set : participant → gset Z) (s : participants) (a : gostring) (id : Z) : Prop :=
  ∃ p, s !! a = Some p ∧ id ∈ set p.

Lemma took_part_update (set set' : participant → gset Z) (f : participant → participant) (a : gostring) (x : Z) (s : participants)
    (a' : gostring) (id : Z) :
  (∀ p, set (f p) = {[ x ]} ∪ set p) → (∀ p, set' (f p) = set' p) → set no_participant = ∅ → set' no_participant = ∅ →
  (took_part set (update_participant f a s) a' id ↔ took_part set s a' id ∨ (a' = a ∧ id = x)) ∧
  (took_part set' (update_participant f a s) a' id ↔ took_part set' s a' id).
Proof.
  intros H1 H2 H3 H4. unfold took_part, update_participant. destruct (decide (a' = a)) as [->|Ha].
  - rewrite lookup_insert_eq. destruct (s !! a) as [p|]; cbn [default]; split.
    all: setoid_rewrite (inj_iff Some).
    + split; [intros (? & <- & Hid); rewrite H1 in Hid; apply elem_of_union in Hid as [?%elem_of_singleton|?]; eauto|].
      intros [(? & -> & ?)|[_ ->]]; eexists; (split; [reflexivity|]); rewrite H1; apply elem_of_union; [by right|left; by apply elem_of_singleton].
    + split; [intros (? & <- & Hid); rewrite H2 in Hid; eauto|]. intros (? & -> & ?). eexists. split; [reflexivity|by rewrite H2].
    + split; [intros (? & <- & Hid); rewrite H1, H3 in Hid; apply elem_of_union in Hid as [?%elem_of_singleton|[]%elem_of_empty]; eauto|].
      intros [(? & ? & ?)|[_ ->]]; [done|]. eexists. split; [reflexivity|]. rewrite H1. apply elem_of_union. left. by apply elem_of_singleton.
    + split; [intros (? & <- & Hid); rewrite H2, H4 in Hid; by apply elem_of_empty in Hid|]. by intros (? & ? & _).
  - rewrite lookup_insert_ne by done. split; [|done]. split; [by left|]. by intros [?|[? _]].
Qed.

Lemma took_part_fold (set set' : participant → gset Z) (f : participant → participant) (x : Z) (l : list AccountId) (s : participants)
    (a : gostring) (id : Z) :
  (∀ p, set (f p) = {[ x ]} ∪ set p) → (∀ p, set' (f p) = set' p) → set no_participant = ∅ → set' no_participant = ∅ →
  let s' := foldl (λ s p, update_participant f (address p) s) s l in
  (took_part set s' a id ↔ took_part set s a id ∨ (a ∈ address <$> l ∧ id = x)) ∧ (took_part set' s' a id ↔ took_part set' s a id).
Proof.
  intros H1 H2 H3 H4. revert s. induction l as [|p l IH]; intros s; cbn [foldl fmap list_fmap].
  - split; [|done]. split; [by left|]. by intros [?|[?%elem_of_nil _]].
  - destruct (IH (update_participant f (address p) s)) as [-> ->].
    destruct (took_part_update set set' f (address p) x s a id) as [-> ->]; [done..|]. split; [|done].
    rewrite elem_of_cons. naive_solver.
Qed.

Lemma addTransactionID_took (id : Z) (l : list AccountId) (s : participants) (a : gostring) (id' : Z) :
  let s' := foldl (λ s p, update_participant (addTransactionID id) (address p) s) s l in
  (took_part transactionSet s' a id' ↔ took_part transactionSet s a id' ∨ (a ∈ address <$> l ∧ id' = id)) ∧
  (took_part operationSet s' a id' ↔ took_part operationSet s a id').
Proof. by apply took_part_fold. Qed.

Lemma addOperationIDs_took (m : list (Z * list AccountId)) (s : participants) (a : gostring) (id' : Z) :
  let s' := foldl (λ s '(operationID, l), foldl (λ s p, update_participant (addOperationID operationID) (address p) s) s l) s m in
  (took_part operationSet s' a id' ↔ took_part operationSet s a id' ∨ ∃ l, (id', l) ∈ m ∧ a ∈ address <$> l) ∧
  (took_part transactionSet s' a id' ↔ took_part transactionSet s a id').
Proof.
  revert s. induction m as [|[id l] m IH]; intros s; cbn [foldl].
  - split; [|done]. split; [by left|]. by intros [?|(? & ?%elem_of_nil & _)].
  - destruct (IH (foldl (λ s p, update_participant (addOperationID id) (address p) s) s l)) as [-> ->].
    destruct (took_part_fold operationSet transactionSet (addOperationID id) id l s a id') as [-> ->]; [done..|]. split; [|done].
    setoid_rewrite elem_of_cons. naive_solver.
Qed.

(** *** Transactions that are typed *)

(** The operations are, a transaction that succeeded has results, everything can
    be marshalled, and the result of a fee bump transaction has an inner one. *)
Record transaction_typed (tx : LedgerTransaction) : Prop := {
  typed_operations : ∀ operation, operation ∈ wrappers tx sequence → operation_typed operation;
  typed_results : Successful (Tx_Result tx) = true → is_Some (OperationResults (Tx_Result tx));
  typed_texts : is_Some (EnvelopeText (Envelope tx)) ∧ is_Some (ResultText (FeeCharged (Tx_Result tx)) (Result (Tx_Result tx))) ∧
    is_Some (MetaText (Meta tx)) ∧ is_Some (FeeMetaText (FeeChanges tx));
  typed_inner : IsFeeBump (Envelope tx) = true → ∃ h, InnerHash (Tx_Result tx) = Ret h }.

Lemma fee_bump_parts e : IsFeeBump e = true →
  ∃ a fee s, FeeBumpAccount e = Ret a ∧ FeeBumpFee e = Ret fee ∧ FeeBumpSignatures e = Ret s.
Proof. destruct e as [| |tx s]; try done. intros _. by exists (FeeSource tx), (FeeBump_Fee tx), s. Qed.

Lemma collect_participants (ops : list transactionOperationWrapper) (m : gmap Z (list AccountId)) :
  (∀ op, op ∈ ops → op_ID op = Ret (op_id op) ∧ ∃ l, Participants op = Ret l) → NoDup (op_id <$> ops) →
  ∃ m' : gmap Z (list AccountId),
    mfold (λ participants operation, p ← with_ID operation (Participants operation); id ← op_ID operation;
      Ret (<[ id := p ]> participants)) m ops = Ret m' ∧
    ∀ id l, m' !! id = Some l ↔ (id ∉ op_id <$> ops ∧ m !! id = Some l) ∨
      ∃ operation, operation ∈ ops ∧ id = op_id operation ∧ Participants operation = Ret l.
Proof.
  revert m. induction ops as [|op ops IH]; intros m Hops Hnd; cbn [mfold].
  { exists m. split; [done|]. intros id l. split; [intros H; left; split; [apply not_elem_of_nil|done]|].
    by intros [[_ H]|(? & ?%elem_of_nil & _)]. }
  rewrite fmap_cons in Hnd. apply NoDup_cons in Hnd as [Hop Hnd].
  destruct (Hops op) as [Hid [l0 Hl0]]; [by left|]. unfold with_ID at 1. rewrite Hl0, Hid. outcome_simpl.
  destruct (IH (<[ op_id op := l0 ]> m)) as (m' & Hm' & Hiff); [intros op' Hop'; apply Hops; by right|done|].
  exists m'. split; [exact Hm'|]. intros id l. rewrite Hiff, fmap_cons, not_elem_of_cons. setoid_rewrite elem_of_cons.
  destruct (decide (id = op_id op)) as [->|Hne].
  - rewrite lookup_insert_eq. split.
    + intros [[_ [= <-]]|(o & Ho & H)]; right; [exists op; auto|exists o; auto].
    + intros [[[Hx _] _]|(o & [->|Ho] & Hx & Hl)]; [by destruct Hx| |right; by exists o].
      rewrite Hl in Hl0. injection Hl0 as ->. by left.
  - rewrite lookup_insert_ne by done. split.
    + intros [[Hx H]|(o & Ho & H)]; [left; auto|right; exists o; auto].
    + intros [[[_ Hx] H]|(o & [->|Ho] & Hx & Hl)]; [by left|done|right; by exists o].
Qed.

Section typed.
Context (txs : list LedgerTransaction) (Hf : fits txs) (Ht : Forall transaction_typed txs).

Lemma typed_operation operation : operation ∈ ledger_operations txs → operation_typed operation.
Proof using Ht.
  intros (tx & i & o & Htx & Ho & ->)%elem_of_ledger_operations. rewrite Forall_forall in Ht.
  apply (typed_operations tx); [by apply Ht|]. apply elem_of_lookup_imap. by exists i, o.
Qed.

Lemma transactionToRow_typed tx :
  tx ∈ txs → ∃ r, transactionToRow tx sequence = Ret r ∧ txr_ID r = tx_id tx.
Proof using Hf Ht.
  intros Htx. destruct (tx_ID_fits txs tx Hf Htx) as [Hid _]. rewrite Forall_forall in Ht.
  destruct (Ht tx Htx) as [_ _ ([t1 E1] & [t2 E2] & [t3 E3] & [t4 E4]) Hin].
  unfold transactionToRow. rewrite E1, E2, E3, E4, Hid. cbn [from_text]. outcome_simpl.
  destruct (IsFeeBump (Envelope tx)) eqn:Eb; [|by eexists].
  destruct (Hin eq_refl) as [h ->], (fee_bump_parts _ Eb) as (a & fee & s & -> & -> & ->). by eexists.
Qed.

Lemma operation_row_typed operation :
  operation ∈ ledger_operations txs → ∃ r, operation_row operation = Ret r ∧ opr_ID r = op_id operation.
Proof using Hf Ht.
  intros Hop. destruct (op_ID_fits txs operation Hf Hop) as [Hid _]. destruct (op_fits txs operation Hf Hop) as (Hs & Hi & _).
  destruct (Details_typed operation) as [d Hd]; [by apply typed_operation|].
  pose proof (fits_sequence _ Hf). unfold operation_row, with_ID, op_TransactionID. rewrite Hd, Hid, Hs, new_toid_fits by lia.
  outcome_simpl. by eexists.
Qed.

Lemma participantsForTransaction_typed tx :
  tx ∈ txs → ∃ l, participantsForTransaction sequence tx = Ret l.
Proof using Hf Ht.
  intros Htx. rewrite Forall_forall in Ht. destruct (Ht tx Htx) as [Ho _ _ _]. unfold participantsForTransaction.
  assert (∃ f, (if IsFeeBump (Envelope tx) then a ← must (FeeBumpAccount (Envelope tx)); Ret [ToAccountId a] else Ret []) =
    Ret (E := tx_error) f) as [f ->].
  { destruct (IsFeeBump (Envelope tx)) eqn:Eb; [|by eexists]. destruct (fee_bump_parts _ Eb) as (a & _ & _ & -> & _). by eexists. }
  outcome_simpl. destruct (mmap_total (λ operation, with_ID operation (Participants operation)) (wrappers tx sequence)) as [ps Hps].
  { intros op Hop. destruct (Participants_typed op) as [l ->]; [by apply Ho|]. by exists l. }
  match goal with |- context [mfold _ ?acc _] => assert (mfold (λ l operation,
      outcome_bind (λ p, Ret (l ++ p)) (with_ID operation (Participants operation))) acc (wrappers tx sequence) =
    Ret (acc ++ concat ps)) as -> by (apply mfold_append; by exists ps) end.
  by eexists.
Qed.

Lemma operationsParticipants_typed tx :
  tx ∈ txs → ∃ m, operationsParticipants tx sequence = Ret m ∧
    ∀ id l, m !! id = Some l ↔ ∃ operation, operation ∈ wrappers tx sequence ∧ id = op_id operation ∧ Participants operation = Ret l.
Proof using Hf Ht.
  intros Htx. rewrite Forall_forall in Ht. destruct (Ht tx Htx) as [Ho _ _ _].
  assert (∀ op, op ∈ wrappers tx sequence → op_ID op = Ret (op_id op)) as Hid.
  { intros op (i & o & -> & Hi)%elem_of_lookup_imap. apply (op_ID_fits txs); [done|]. apply elem_of_ledger_operations. by exists tx, i, o. }
  assert (NoDup (op_id <$> wrappers tx sequence)) as Hn.
  { replace (wrappers tx sequence) with (ledger_operations [tx]) by apply app_nil_r. apply op_ids_distinct. split; [apply Hf| | |apply NoDup_singleton].
    - intros op (tx' & i & o & ->%list_elem_of_singleton & Hi & ->)%elem_of_ledger_operations. apply Hf, elem_of_ledger_operations.
      by exists tx, i, o.
    - intros tx' ->%list_elem_of_singleton. by apply Hf. }
  destruct (collect_participants (wrappers tx sequence) ∅) as (m & Hm & Hiff); [|done|].
  { intros op Hop. split; [by apply Hid|]. by apply Participants_typed, Ho. }
  exists m. split; [exact Hm|]. intros id l. rewrite Hiff. split; [intros [[_ Hx]|Hx]; [by rewrite lookup_empty in Hx|done]|by right].
Qed.
Lemma Participants_ProcessTransaction_typed (tx : LedgerTransaction) (s : participants) :
  tx ∈ txs → ∃ s', Participants_ProcessTransaction sequence tx s = Ret s' ∧ ∀ (a : gostring) (id : Z),
    (took_part transactionSet s' a id ↔ took_part transactionSet s a id ∨
       ∃ l, participantsForTransaction sequence tx = Ret l ∧ a ∈ address <$> l ∧ id = tx_id tx) ∧
    (took_part operationSet s' a id ↔ took_part operationSet s a id ∨
       ∃ operation l, operation ∈ wrappers tx sequence ∧ Participants operation = Ret l ∧ a ∈ address <$> l ∧ id = op_id operation).
Proof using Hf Ht.
  intros Htx. destruct (participantsForTransaction_typed tx Htx) as [l Hl], (operationsParticipants_typed tx Htx) as (m & Hm & Hiff).
  destruct (tx_ID_fits txs tx Hf Htx) as [Hid _].
  unfold Participants_ProcessTransaction, addTransactionParticipants, addOperationsParticipants. rewrite Hid, Hl, Hm. outcome_simpl.
  eexists. split; [reflexivity|]. intros a id.
  match goal with |- context [took_part _ (foldl _ ?s1 _) _ _] =>
    destruct (addOperationIDs_took (map_to_list m) s1 a id) as [-> ->];
    destruct (addTransactionID_took (tx_id tx) l s a id) as [-> ->] end.
  split.
  - split; (intros [H|H]; [by left|right]); [by exists l|]. destruct H as (l' & [= <-] & H). done.
  - split; (intros [H|H]; [by left|right]).
    + destruct H as (l' & (op & Hop & -> & Hp)%elem_of_map_to_list%Hiff & Ha). by exists op, l'.
    + destruct H as (op & l' & Hop & Hp & Ha & ->). exists l'. split; [|done]. apply elem_of_map_to_list, Hiff. by exists op.
Qed.

Lemma participants_typed :
  ∃ s, mfold (λ s tx, Participants_ProcessTransaction sequence tx s) ∅ txs = Ret s ∧ ∀ (a : gostring) (id : Z),
    (took_part transactionSet s a id ↔
       ∃ tx l, tx ∈ txs ∧ participantsForTransaction sequence tx = Ret l ∧ a ∈ address <$> l ∧ id = tx_id tx) ∧
    (took_part operationSet s a id ↔
       ∃ operation l, operation ∈ ledger_operations txs ∧ Participants operation = Ret l ∧ a ∈ address <$> l ∧ id = op_id operation).
Proof using Hf Ht.
  assert (∀ l, (∀ tx, tx ∈ l → tx ∈ txs) → ∀ s0, ∃ s, mfold (λ s tx, Participants_ProcessTransaction sequence tx s) s0 l = Ret s ∧
    ∀ (a : gostring) (id : Z),
    (took_part transactionSet s a id ↔ took_part transactionSet s0 a id ∨
       ∃ tx l', tx ∈ l ∧ participantsForTransaction sequence tx = Ret l' ∧ a ∈ address <$> l' ∧ id = tx_id tx) ∧
    (took_part operationSet s a id ↔ took_part operationSet s0 a id ∨
       ∃ operation l', operation ∈ ledger_operations l ∧ Participants operation = Ret l' ∧ a ∈ address <$> l' ∧ id = op_id operation)) as Hall.
  { induction l as [|tx l IH]; intros Hl s0; cbn [mfold].
    - exists s0. split; [done|]. intros a id. split; (split; [by left|]).
      + by intros [?|(? & ? & ?%elem_of_nil & _)].
      + by intros [?|(? & ? & ?%elem_of_nil & _)].
    - destruct (Participants_ProcessTransaction_typed tx s0) as (s1 & -> & H1); [apply Hl; by left|]. cbn [outcome_bind].
      destruct (IH (λ tx' Htx', Hl tx' (list_elem_of_further _ _ _ Htx')) s1) as (s & Hs & H2). exists s. split; [done|].
      intros a id. destruct (H2 a id) as [-> ->], (H1 a id) as [-> ->].
      unfold ledger_operations. rewrite fmap_cons. cbn [concat]. setoid_rewrite elem_of_app. setoid_rewrite elem_of_cons.
      split; split.
      + intros [[H|(l' & H)]|(tx' & l' & Htx' & H)]; [by left|right; exists tx, l'; auto|right; exists tx', l'; auto].
      + intros [H|(tx' & l' & [->|Htx'] & H)]; [by left; left|left; right; by exists l'|right; by exists tx', l'].
      + intros [[H|(op & l' & Hop & H)]|(op & l' & Hop & H)]; [by left|right; exists op, l'; auto..].
      + intros [H|(op & l' & [Hop|Hop] & H)]; [by left; left|left; right; by exists op, l'|right; by exists op, l']. }
  destruct (Hall txs (λ _ H, H) ∅) as (s & Hs & H). exists s. split; [done|]. intros a id. destruct (H a id) as [-> ->].
  unfold took_part. split; (split; [intros [(p & Hp & _)|Hx]; [by rewrite lookup_empty in Hp|done]|by right]).
Qed.
Lemma successful_operation operation : operation ∈ ledger_operations (successful txs) →
  operation ∈ ledger_operations txs ∧ Successful (Tx_Result (op_transaction operation)) = true.
Proof using Type.
  intros (tx & i & o & [Hs Htx]%list_elem_of_filter & Ho & ->)%elem_of_ledger_operations. split; [|done].
  apply elem_of_ledger_operations. by exists tx, i, o.
Qed.

Lemma numbered_ids id l : Z.of_nat (length l) < 2 ^ 32 →
  NoDup (effect_id <$> numbered id l) ∧ ∀ e, e ∈ numbered id l → (effect_id e).1 = id.
Proof using Type.
  intros Hl. unfold numbered. split.
  - apply NoDup_alt. intros i j x. rewrite !list_lookup_fmap, !list_lookup_imap.
    destruct (l !! i) as [[[? ?] ?]|] eqn:Ei, (l !! j) as [[[? ?] ?]|] eqn:Ej; cbn; try done.
    apply lookup_lt_Some in Ei, Ej. intros [= <-] [= E]. unfold u32, wrap_u in E.
    rewrite !Z.mod_small in E by lia. lia.
  - intros e (i & [[? ?] ?] & -> & _)%elem_of_lookup_imap. done.
Qed.

Lemma operation_effects_typed operation :
  operation ∈ ledger_operations (successful txs) →
  ∃ es, operation_effects operation = Ret es ∧ NoDup (effect_id <$> es) ∧ ∀ e, e ∈ es → (effect_id e).1 = op_id operation.
Proof using Hf Ht.
  intros [Hop _]%successful_operation. destruct (op_ID_fits txs operation Hf Hop) as [Hid _].
  destruct (op_effects_typed operation (op_id operation)) as [l Hl]; [by apply typed_operation|done|].
  exists (numbered (op_id operation) l). unfold operation_effects. rewrite Hl. split; [done|]. apply numbered_ids.
  destruct (fits_operations _ Hf _ Hop) as [He _]. specialize (He _ Hl). unfold numbered in He. by rewrite length_imap in He.
Qed.
Abbreviation trade_id := (λ x : InsertTrade * gostring, (it_HistoryOperationID x.1, it_Order x.1)).

Lemma claims_trades id closeTime operation buyOffer claims ps :
  0 ≤ id < 2 ^ 62 → Z.of_nat (length claims) < 2 ^ 31 → Forall claim_fits claims → (∀ o, buyOffer = Some o → 0 ≤ OfferId o < 2 ^ 62) →
  mmap (trade_of_claim id closeTime operation buyOffer) (imap pair claims) = Ret ps →
  NoDup (trade_id <$> concat ps) ∧ ∀ x, x ∈ concat ps →
    (trade_id x).1 = id ∧ encodable x.1 ∧ wf_asset (AssetSold (it_Trade x.1)) ∧ wf_asset (AssetBought (it_Trade x.1)).
Proof using Type.
  intros Hid Hl Hc Ho Hp. apply mmap_Ret in Hp.
  assert (∀ y l, trade_of_claim id closeTime operation buyOffer y = Ret l →
    l = [] ∨ ∃ p, l = [(MkInsertTrade id (i32 (Z.of_nat y.1)) closeTime (bool_decide (is_Some buyOffer))
      (match buyOffer with Some o => OfferId o | None => 0 end) 0 0 0 0 y.2 p, address (SourceAccount operation))]) as Hy.
  { intros [i c] l. unfold trade_of_claim. destruct (is_trade c); cbn [negb]; [|intros [= <-]; by left].
    destruct (findTradeSellPrice operation c) as [p|e|]; outcome_simpl; [|done..]. intros [= <-]. right. by exists p. }
  split.
  - apply (NoDup_fmap_1 (λ k : Z * Z, (k.2, tt))). rewrite <- list_fmap_compose.
    apply (NoDup_concat_fst _ (λ y : nat * ClaimOfferAtom, i32 (Z.of_nat y.1)) (imap pair claims)).
    + eapply Forall2_impl; [exact Hp|]. intros y l [->|[p ->]]%Hy.
      * split; [constructor|by intros ? ?%elem_of_nil].
      * split; [apply NoDup_singleton|]. by intros x ->%list_elem_of_singleton.
    + apply NoDup_alt. intros i j z. rewrite !list_lookup_fmap, !list_lookup_imap.
      destruct (claims !! i) eqn:Ei, (claims !! j) eqn:Ej; cbn; try done. apply lookup_lt_Some in Ei, Ej.
      rewrite !i32_small by (unfold is_i32; lia). intros [= <-] [= E]. lia.
  - intros x (l & [i Hi]%list_elem_of_lookup_1 & Hx)%elem_of_concat. destruct (Forall2_lookup_r _ _ _ _ _ Hp Hi) as (y & Hyi & Hyl).
    destruct (Hy y l Hyl) as [->|[p ->]]; [by apply elem_of_nil in Hx|]. apply list_elem_of_singleton in Hx as ->.
    rewrite list_lookup_imap in Hyi. destruct (claims !! i) as [c|] eqn:Ec; [|done]. injection Hyi as <-.
    rewrite Forall_forall in Hc. destruct (Hc c) as (Hc1 & Hc2 & Hc3); [by apply (list_elem_of_lookup_2 _ i)|].
    split; [done|]. split; [|done]. split; [done|]. cbn. destruct buyOffer as [o|]; cbn; [by apply Ho|done].
Qed.

Lemma op_id_bound operation : operation ∈ ledger_operations txs → 0 ≤ op_id operation < 2 ^ 62.
Proof using Hf.
  intros Hop. destruct (op_ID_fits txs operation Hf Hop) as [_ Hin]. pose proof (fits_sequence _ Hf). unfold in_ledger in Hin. lia.
Qed.

Lemma operation_trades_typed operation :
  operation ∈ ledger_operations (successful txs) →
  ∃ l, operation_trades operation = Ret l ∧ NoDup (trade_id <$> l) ∧ ∀ x, x ∈ l →
    (trade_id x).1 = op_id operation ∧ encodable x.1 ∧ wf_asset (AssetSold (it_Trade x.1)) ∧ wf_asset (AssetBought (it_Trade x.1)).
Proof using Hf Ht.
  intros [Hop Hs]%successful_operation. destruct (op_ID_fits txs operation Hf Hop) as [Hid _].
  pose proof (typed_operation operation Hop) as Htyped. destruct (typed_result _ Htyped Hs) as (rs & _ & Hrs & _).
  destruct (op_trades_typed operation rs Htyped Hs Hrs) as [[claims buyOffer] Hc].
  destruct (fits_claims _ (fits_operations _ Hf _ Hop) rs claims buyOffer Hrs Hc) as (Hl & Hcl & Ho).
  destruct (trades_of_claims_typed (op_id operation) (i64 (CloseTime (Header ledger))) operation buyOffer claims Htyped) as [l Hl'].
  exists l. unfold operation_trades. rewrite Hrs, Hc, Hid. outcome_simpl. split; [done|].
  apply trades_of_claims_append in Hl' as (ps & Hps & ->). cbn [app]. eapply claims_trades; [by apply op_id_bound|done..].
Qed.
(** What every operation gives, together. *)
Lemma concat_operations {B} (f : transactionOperationWrapper → outcome tx_error (list B)) (key : B → Z * Z) (P : B → Prop) ops :
  NoDup (op_id <$> ops) →
  (∀ op, op ∈ ops → ∃ l, f op = Ret l ∧ NoDup (key <$> l) ∧ ∀ x, x ∈ l → (key x).1 = op_id op ∧ P x) →
  ∃ ls, mmap f ops = Ret ls ∧ NoDup (key <$> concat ls) ∧
    ∀ x, x ∈ concat ls → P x ∧ ∃ op, op ∈ ops ∧ (key x).1 = op_id op.
Proof using Type.
  intros Hn Hop. assert (∃ ls, Forall2 (λ op l, f op = Ret l ∧ NoDup (key <$> l) ∧ ∀ x, x ∈ l → (key x).1 = op_id op ∧ P x) ops ls) as [ls Hl].
  { clear Hn. induction ops as [|op ops IH]; [exists []; constructor|]. destruct (Hop op) as [l Hl]; [by left|].
    destruct IH as [ls Hls]; [intros op' Hop'; apply Hop; by right|]. exists (l :: ls). by constructor. }
  exists ls. split_and!.
  - apply mmap_Ret. eapply Forall2_impl; [exact Hl|]. by intros op l [? _].
  - eapply NoDup_concat_fst; [|exact Hn]. eapply Forall2_impl; [exact Hl|]. intros op l (_ & Hk & Hx). split; [done|].
    intros y Hy. by apply Hx.
  - intros x (l & [i Hi]%list_elem_of_lookup_1 & Hx)%elem_of_concat. destruct (Forall2_lookup_r _ _ _ _ _ Hl Hi) as (op & Hopi & _ & _ & Hk).
    destruct (Hk x Hx) as [Hid HP]. split; [done|]. exists op. split; [by apply (list_elem_of_lookup_2 _ i)|done].
Qed.
End typed.

(** The identifiers in a history: they are of the ledger, and those of a table
    are distinct; the rows of operations and of transactions are in order. *)
Record history_ok (txs : list LedgerTransaction) (h : History) : Prop := {
  effects_distinct : NoDup (effect_id <$> h_effects h);
  effects_in : ∀ e, e ∈ h_effects h → in_ledger (ef_operationID e);
  operations_are : opr_ID <$> h_operations h = op_id <$> ledger_operations txs;
  trades_distinct : NoDup ((λ x : InsertTrade * gostring, (it_HistoryOperationID x.1, it_Order x.1)) <$> h_trades h);
  trades_in : ∀ x, x ∈ h_trades h → in_ledger (it_HistoryOperationID x.1) ∧ encodable x.1;
  trades_assets : Forall wf_asset (trade_assets (h_trades h));
  transactions_are : txr_ID <$> h_transactions h = tx_id <$> txs;
  participants_are : ∀ (a : gostring) (id : Z),
    (took_part transactionSet (h_participants h) a id ↔
       ∃ tx l, tx ∈ txs ∧ participantsForTransaction sequence tx = Ret l ∧ a ∈ address <$> l ∧ id = tx_id tx) ∧
    (took_part operationSet (h_participants h) a id ↔
       ∃ operation l, operation ∈ ledger_operations txs ∧ Participants operation = Ret l ∧ a ∈ address <$> l ∧ id = op_id operation) }.

Lemma rows_of {A B} (f : A → outcome tx_error B) (g : B → Z) (h : A → Z) l :
  (∀ x, x ∈ l → ∃ r, f x = Ret r ∧ g r = h x) → ∃ rs, mmap f l = Ret rs ∧ g <$> rs = h <$> l.
Proof.
  induction l as [|x l IH]; intros Hx; [by exists []|]. rewrite mmap_cons. destruct (Hx x) as (r & -> & Hr); [by left|].
  destruct IH as (rs & -> & Hrs); [intros y Hy; apply Hx; by right|]. exists (r :: rs). split; [done|]. by rewrite !fmap_cons, Hr, Hrs.
Qed.

Lemma ledger_history_typed txs :
  fits txs → Forall transaction_typed txs → ∃ h, ledger_history txs = Ret h ∧ history_ok txs h.
Proof.
  intros Hf Ht. unfold ledger_history. pose proof (op_ids_distinct _ (fits_successful _ Hf)) as Hn.
  destruct (concat_operations operation_effects effect_id (λ _, True) _ Hn) as (es & -> & Hes & Hes').
  { intros op Hop. destruct (operation_effects_typed txs Hf Ht op Hop) as (l & ? & ? & Hl). exists l. split_and!; [done..|]. auto. }
  outcome_simpl. destruct (rows_of operation_row opr_ID op_id (ledger_operations txs)) as (ops & -> & Hops);
    [by apply operation_row_typed|]. cbn [outcome_bind].
  destruct (concat_operations operation_trades (λ x, (it_HistoryOperationID x.1, it_Order x.1))
    (λ x, encodable x.1 ∧ wf_asset (AssetSold (it_Trade x.1)) ∧ wf_asset (AssetBought (it_Trade x.1))) _ Hn) as (ts & -> & Hts & Hts').
  { by apply operation_trades_typed. }
  cbn [outcome_bind]. destruct (participants_typed txs Hf Ht) as (s & -> & Hs). cbn [outcome_bind].
  destruct (rows_of (λ tx, transactionToRow tx sequence) txr_ID tx_id txs) as (rs & -> & Hrs); [by apply transactionToRow_typed|].
  cbn [outcome_bind]. eexists. split; [reflexivity|].
  assert (∀ op, op ∈ ledger_operations (successful txs) → in_ledger (op_id op)) as Hin.
  { intros op Hop. by apply (op_ID_fits (successful txs)); [apply fits_successful|]. }
  split; cbn [h_effects h_operations h_trades h_participants h_transactions]; try done.
  - intros e He. destruct (Hes' e He) as (_ & op & Hop & E). simpl in E. rewrite E. by apply Hin.
  - intros x Hx. destruct (Hts' x Hx) as ((? & _) & op & Hop & E). simpl in E. rewrite E. split; [by apply Hin|done].
  - apply Forall_forall. intros a (x & Hx & Ha)%elem_of_concat_fmap. destruct (Hts' x Hx) as ((_ & ? & ?) & _).
    rewrite !elem_of_cons in Ha. by destruct Ha as [->|[->|?%elem_of_nil]].
Qed.

Lemma operation_rows_in txs h r : fits txs → history_ok txs h → r ∈ h_operations h → in_ledger (opr_ID r).
Proof.
  intros Hf Hok Hr. apply (list_elem_of_fmap_2 opr_ID) in Hr. rewrite (operations_are _ _ Hok) in Hr.
  apply list_elem_of_fmap in Hr as (op & -> & Hop). by apply (op_ID_fits txs).
Qed.

Lemma transaction_rows_in txs h r : fits txs → history_ok txs h → r ∈ h_transactions h → in_ledger (txr_ID r).
Proof.
  intros Hf Hok Hr. apply (list_elem_of_fmap_2 txr_ID) in Hr. rewrite (transactions_are _ _ Hok) in Hr.
  apply list_elem_of_fmap in Hr as (tx & -> & Htx). by apply (tx_ID_fits txs).
Qed.

Lemma participant_rows_in (txs : list LedgerTransaction) (h : History) (m : gmap gostring Z) (r : Z * Z) : fits txs → history_ok txs h →
  r ∈ participant_rows transactionSet m (h_participants h) ∨ r ∈ participant_rows operationSet m (h_participants h) → in_ledger r.1.
Proof.
  intros Hf Hok [(a & p & Hp & Hr & _)%elem_of_participant_rows|(a & p & Hp & Hr & _)%elem_of_participant_rows].
  - destruct (proj1 (proj1 (participants_are _ _ Hok a r.1))) as (tx & l & Htx & _ & _ & ->); [by exists p|]. by apply (tx_ID_fits txs).
  - destruct (proj1 (proj2 (participants_are _ _ Hok a r.1))) as (op & l & Hop & _ & _ & ->); [by exists p|]. by apply (op_ID_fits txs).
Qed.

(** *** The counts of a ledger *)

Lemma ledger_counts txs :
  foldl (flip Ledgers_ProcessTransaction) NewLedgerProcessor txs =
  MkLedgers (Z.of_nat (length (successful txs))) (Z.of_nat (length txs) - Z.of_nat (length (successful txs)))
    (Z.of_nat (length (ledger_operations (successful txs)))) (Z.of_nat (length (ledger_operations txs))).
Proof.
  induction txs as [|tx txs IH] using rev_ind; [done|]. rewrite foldl_app, IH. cbn [foldl flip].
  unfold successful, ledger_operations, Ledgers_ProcessTransaction. rewrite filter_app, !fmap_app, !concat_app, !length_app.
  unfold wrappers. rewrite filter_cons. cbn [fmap list_fmap concat length]. rewrite app_nil_r, length_imap.
  destruct (Successful (Tx_Result tx)); [rewrite decide_True by done|rewrite decide_False by done]; cbn [successTxCount failedTxCount opCount txSetOpCount
    filter list_filter fmap list_fmap concat length]; rewrite ?length_app, ?app_nil_r, ?length_imap; cbn [length];
    f_equal; lia.
Qed.
End history.
