(* ===== verification/SignersProcessor.v ===== *)
(** * aurora: the processor of account signers

    Models [signers_processor.go] of
    [src/services/aurora/internal/ingest/processors], with the ledger cache, as
    an instance of the interface of ChangeProcessor.v, and the insert-only mode
    in which the entries of a history archive are processed.  The table has a
    row for each signer of an account, the master key included. *)

From S2P Require Import Prelude Xdr LedgerEntry ChangeCache HistoryTables ChangeProcessor StateProcessors.

#[local] Opaque address signer_string.

(** The order in which a map of signers is ranged over. *)
Class SignerOrder := {
  range_signers : gmap gostring Z → list (gostring * Z);
  range_signers_perm m : range_signers m ≡ₚ map_to_list m }.

Section processor.
Context `{LC : LedgerCache} `{SO : SignerOrder}.

Definition must_account (e : LedgerEntry) : outcome proc_error AccountEntry :=
  match Data e with DataAccount a => Ret a | _ => Panic end.

(** *** Commit, with the ledger cache *)
Definition remove_signers (preAccountEntry : AccountEntry) (t : SignerTable) : outcome proc_error SignerTable :=
  signers ← must (SignerSummary preAccountEntry);
  mfold (λ t '(signer, _),
    account ← address_of (Account_AccountId preAccountEntry);
    affected (RemoveAccountSigner account signer t)) t (range_signers signers).
Definition create_signers (postAccountEntry : AccountEntry) (t : SignerTable) : outcome proc_error SignerTable :=
  sponsorsPerSigner ← must (SponsorPerSigner postAccountEntry);
  signers ← must (SignerSummary postAccountEntry);
  mfold (λ t '(signer, weight),
    account ← address_of (Account_AccountId postAccountEntry);
    sponsor ← (if bool_decide (signer ≠ account) then
                 match sponsorsPerSigner !! signer with
                 | Some s => a ← address_of s; Ret (Some a)
                 | None => Ret None
                 end
               else Ret None);
    r ← CreateAccountSigner account signer weight sponsor t;
    affected r) t (range_signers signers).
Definition signers_change (t : SignerTable) (change : Change) : outcome proc_error SignerTable :=
  changed ← must (AccountSignersChanged change);
  if negb changed then Ret t else
  t ← match Pre change with Some pre => a ← must_account pre; remove_signers a t | None => Ret t end;
  match Post change with Some post => a ← must_account post; create_signers a t | None => Ret t end.
Definition SignersProcessor_flush (changes : list Change) (t : SignerTable) : outcome proc_error SignerTable :=
  mfold signers_change t changes.

#[export] Instance SignersProcessor : ChangeProcessor SignerTable :=
  { sink_type := TypeAccount; flush := SignersProcessor_flush; finish := id }.

(** *** Insert-only mode: the state is a batch and the table *)
Definition signers_batch_add : list AccountSignerRow → AccountSignerRow → SignerTable → outcome proc_error (list AccountSignerRow * SignerTable) :=
  batch_add (insert_rows signer_key) maxBatchSize.
Definition InsertOnly_ProcessChange (p : list AccountSignerRow * SignerTable) (change : Change)
  : outcome proc_error (list AccountSignerRow * SignerTable) :=
  if negb (bool_decide (Change_Type change = TypeAccount)) then Ret p else
  match Pre change, Post change with
  | None, Some post =>
      accountEntry ← must_account post;
      account ← address_of (Account_AccountId accountEntry);
      sponsors ← must (SponsorPerSigner accountEntry);
      signers ← must (SignerSummary accountEntry);
      mfold (λ '(batch, t) '(signer, weight),
        sponsor ← match sponsors !! signer with
                  | Some sponsorDesc => a ← address_of sponsorDesc; Ret (Some a)
                  | None => Ret None
                  end;
        signers_batch_add batch (MkSignerRow account signer weight sponsor) t) p (range_signers signers)
  | _, _ => Fail ErrInsertOnly
  end.
Definition InsertOnly_Commit (p : list AccountSignerRow * SignerTable) : outcome proc_error SignerTable :=
  let '(batch, t) := p in insert_rows signer_key batch t.
End processor.

(** ** The rows of an account *)

(** The sponsors that [SponsorPerSigner] collects. *)
Definition sponsors_of (signers : list gostring) (ids : list (option AccountId)) (m : gmap gostring AccountId)
  : gmap gostring AccountId :=
  foldl (λ m '(s, o), match o with Some x => <[s := x]> m | None => m end) m (zip signers ids).
Definition signer_sponsors (a : AccountEntry) : gmap gostring AccountId :=
  sponsors_of (signer_text <$> Signers a) (SignerSponsoringIDs a) ∅.

Lemma sponsor_loop_total all signers i m :
  length all = (i + length signers)%nat →
  sponsor_loop i all signers m = Ret (sponsors_of (signer_text <$> signers) (drop i all) m).
Proof.
  revert i m. induction signers as [|s signers IH]; intros i m Hl; simpl.
  { unfold sponsors_of. by destruct (drop i all). }
  simpl in Hl. destruct (lookup_lt_is_Some_2 all i) as [o Ho]; [lia|]. rewrite Ho, (drop_S _ _ _ Ho).
  unfold sponsors_of in *. simpl. destruct o as [x|]; rewrite ?SignerKey_Address_total; outcome_simpl; apply IH; lia.
Qed.

Lemma SponsorPerSigner_total a : account_wf a → SponsorPerSigner a = Ret (signer_sponsors a).
Proof. intros Hw. unfold SponsorPerSigner. rewrite sponsor_loop_total; [done|]. simpl. by rewrite (sponsors_length _ Hw). Qed.

Lemma sponsors_of_notin signers ids m x : x ∉ signers → sponsors_of signers ids m !! x = m !! x.
Proof.
  unfold sponsors_of. revert ids m. induction signers as [|s signers IH]; intros [|o ids] m Hx; simpl; [done..|].
  apply not_elem_of_cons in Hx as [Hx Hn]. rewrite IH by done. destruct o; [by rewrite lookup_insert_ne|done].
Qed.

(** The row of a signer of an account. *)
Definition account_signer (a : AccountEntry) (signer : gostring) : option AccountSignerRow :=
  weight ← signer_weights a !! signer;
  Some (MkSignerRow (address (Account_AccountId a)) signer weight (address <$> (signer_sponsors a !! signer))).
Definition signer_row (e : LedgerEntry) (signer : gostring) : option AccountSignerRow :=
  match Data e with DataAccount a => account_signer a signer | _ => None end.

Lemma sponsor_not_master a : account_wf a → signer_sponsors a !! address (Account_AccountId a) = None.
Proof. intros Hw. unfold signer_sponsors. rewrite sponsors_of_notin; [done|]. apply (signers_not_master _ Hw). Qed.

(** *** The signers of an account are in the order of hcnet-core *)
Definition weights_over (signers : list Signer) (m : gmap gostring Z) : gmap gostring Z :=
  foldl (λ ret signer, <[signer_string (Key signer) := i32 (Weight signer)]> ret) m signers.

Lemma weights_over_dom signers m x : is_Some (weights_over signers m !! x) ↔ is_Some (m !! x) ∨ x ∈ signer_text <$> signers.
Proof.
  unfold weights_over. revert m. induction signers as [|s signers IH]; intros m; simpl.
  - rewrite elem_of_nil. tauto.
  - rewrite IH, elem_of_cons. unfold signer_text at 2. rewrite lookup_insert_is_Some. destruct (decide (x = signer_string (Key s))); naive_solver.
Qed.

Lemma signer_elem a x :
  account_wf a → x ∈ signer_text <$> Signers a ↔ is_Some (signer_weights a !! x) ∧ x ≠ address (Account_AccountId a).
Proof.
  intros Hw. pose proof (signers_not_master _ Hw) as Hm.
  change (signer_weights a) with (weights_over (Signers a) (if 0 <? MasterKeyWeight (Account_Thresholds a)
     then {[ address (Account_AccountId a) := th_master (Account_Thresholds a) ]} else ∅)).
  rewrite weights_over_dom. split.
  - intros Hx. split; [by right|]. intros ->. done.
  - intros [[Hx|Hx] Hne]; [|done]. destruct (0 <? _); [|by rewrite lookup_empty in Hx; destruct Hx].
    rewrite lookup_singleton_ne in Hx by done. by destruct Hx.
Qed.

Definition ranked (s1 s2 : Signer) : Prop := str_ltb (signer_rank s1) (signer_rank s2) = true.

Lemma ranked_NoDup l : StronglySorted ranked l → NoDup (Key <$> l).
Proof.
  induction 1 as [|s l _ IH Hs]; simpl; constructor; [|done].
  intros (s' & Hk & Hin)%list_elem_of_fmap. rewrite Forall_forall in Hs. specialize (Hs _ Hin). unfold ranked, signer_rank in Hs.
  rewrite Hk, str_ltb_irrefl in Hs. done.
Qed.

Definition key_ranked (k1 k2 : SignerKey) : Prop := ranked (MkSigner k1 0) (MkSigner k2 0).
Lemma keys_ranked l : StronglySorted ranked l → StronglySorted key_ranked (Key <$> l).
Proof. induction 1 as [|s l _ IH Hs]; simpl; constructor; [done|]. rewrite Forall_fmap. eapply Forall_impl; done. Qed.

(** So the accounts with the same signers list them alike. *)
Lemma signer_texts_unique a b :
  account_wf a → account_wf b → Account_AccountId a = Account_AccountId b → signer_weights a = signer_weights b →
  signer_text <$> Signers a = signer_text <$> Signers b.
Proof.
  intros Ha Hb Hid Hw.
  assert (∀ x, x ∈ signer_text <$> Signers a ↔ x ∈ signer_text <$> Signers b) as Hx.
  { intros x. rewrite !signer_elem by done. by rewrite Hw, Hid. }
  assert (∀ c d, account_wf c → account_wf d → (∀ x, x ∈ signer_text <$> Signers c → x ∈ signer_text <$> Signers d) →
    ∀ k, k ∈ Key <$> Signers c → k ∈ Key <$> Signers d) as Hkeys.
  { intros c d Hc Hd Hcd k (s & -> & Hs)%list_elem_of_fmap.
    assert (signer_text s ∈ signer_text <$> Signers d) as (s' & Hs' & Hin)%list_elem_of_fmap by by apply Hcd, list_elem_of_fmap_2.
    pose proof (signers_wf _ Hc) as H1. pose proof (signers_wf _ Hd) as H2. rewrite Forall_forall in H1, H2.
    apply signer_string_inj in Hs'; [|by apply H1|by apply H2]. rewrite Hs'. by apply list_elem_of_fmap_2. }
  assert (Key <$> Signers a = Key <$> Signers b) as Hk.
  { apply (StronglySorted_unique_strong key_ranked).
    - intros k1 k2 _ _ H1 H2. unfold key_ranked, ranked in *. rewrite (str_ltb_asym _ _ H1) in H2. done.
    - apply keys_ranked, Ha.
    - apply keys_ranked, Hb.
    - apply NoDup_Permutation; [apply ranked_NoDup, Ha|apply ranked_NoDup, Hb|].
      intros k. split; eapply Hkeys; try done; intros x; apply Hx. }
  rewrite !(list_fmap_compose Key signer_string _ : signer_text <$> _ = _). by rewrite Hk.
Qed.

(** ** Rows removed and created *)
Section rows.
Context `{LC : LedgerCache} `{SO : SignerOrder}.

Lemma range_elem m k w : (k, w) ∈ range_signers m ↔ m !! k = Some w.
Proof. rewrite range_signers_perm. apply elem_of_map_to_list. Qed.
Lemma range_NoDup m : NoDup (range_signers m).*1.
Proof. rewrite range_signers_perm. apply NoDup_fst_map_to_list. Qed.

Definition remove_step (a : gostring) (t : SignerTable) (x : gostring * Z) : outcome proc_error SignerTable :=
  affected (RemoveAccountSigner a x.1 t).
Lemma remove_steps a l t :
  NoDup l.*1 → (∀ x, x ∈ l.*1 → is_Some (t !! (a, x))) →
  ∃ t', mfold (remove_step a) t l = Ret t' ∧ ∀ b x, t' !! (b, x) = if decide (b = a ∧ x ∈ l.*1) then None else t !! (b, x).
Proof.
  revert t. induction l as [|[x w] l IH]; intros t; [simpl|rewrite fmap_cons; cbn [mfold fst]]; intros Hn Ht.
  { exists t. split; [done|]. intros b y. rewrite decide_False; [done|]. by intros [_ ?%elem_of_nil]. }
  apply NoDup_cons in Hn as [Hx Hn]. destruct (Ht x) as [r Hr]; [by left|].
  assert (remove_step a t (x, w) = Ret (delete (a, x) t)) as ->.
  { unfold remove_step, RemoveAccountSigner. cbn [fst]. by rewrite (delete_row_Some _ _ _ Hr). }
  cbn [outcome_bind].
  destruct (IH (delete (a, x) t) Hn) as (t' & Ht' & Hl).
  { intros y Hy. rewrite lookup_delete_ne; [apply Ht; by right|]. intros [= ->]. done. }
  exists t'. split; [done|]. intros b y. rewrite Hl.
  destruct (decide (b = a ∧ y ∈ l.*1)) as [[-> Hy]|Hy]; [by rewrite decide_True by (split; [done|by right])|].
  destruct (decide (b = a ∧ y ∈ x :: l.*1)) as [[-> [->|?]%elem_of_cons]|Hny]; [by rewrite lookup_delete_eq|naive_solver|].
  rewrite lookup_delete_ne; [done|]. intros [= -> ->]. apply Hny. split; [done|by left].
Qed.

Definition create_step (row : gostring → Z → AccountSignerRow) (t : SignerTable) (x : gostring * Z) : outcome proc_error SignerTable :=
  t ← insert_row signer_key t (row x.1 x.2); Ret t.
Lemma create_steps a row l t :
  (∀ x w, signer_key (row x w) = (a, x)) → NoDup l.*1 → (∀ x, x ∈ l.*1 → t !! (a, x) = None) →
  ∃ t', mfold (create_step row) t l = Ret t' ∧ (∀ x w, (x, w) ∈ l → t' !! (a, x) = Some (row x w)) ∧
    ∀ b x, ¬ (b = a ∧ x ∈ l.*1) → t' !! (b, x) = t !! (b, x).
Proof.
  intros Hrow. revert t. induction l as [|[x w] l IH]; intros t Hn Ht; simpl in *.
  { exists t. split_and!; [done|by intros ?? ?%elem_of_nil|done]. }
  apply NoDup_cons in Hn as [Hx Hn]. 
  assert (create_step row t (x, w) = Ret (<[(a, x) := row x w]> t)) as ->.
  { unfold create_step, insert_row. simpl. rewrite Hrow, Ht by by left. by rewrite bool_decide_false by (by intros []). }
  cbn [outcome_bind].
  destruct (IH (<[(a, x) := row x w]> t) Hn) as (t' & Ht' & Hl & Ho).
  { intros y Hy. rewrite lookup_insert_ne; [apply Ht; by right|]. intros [= ->]. done. }
  exists t'. split; [done|]. split.
  - intros y v [[= -> ->]|Hy]%elem_of_cons; [|by apply Hl]. rewrite Ho by naive_solver. by rewrite lookup_insert_eq.
  - intros b y Hny. rewrite Ho; [rewrite lookup_insert_ne; [done|]|].
    + intros [= -> ->]. apply Hny. split; [done|by left].
    + intros [-> Hy]. apply Hny. split; [done|by right].
Qed.

Lemma account_signer_None a x : account_signer a x = None ↔ signer_weights a !! x = None.
Proof. unfold account_signer. destruct (signer_weights a !! x); done. Qed.

(** [remove_signers] drops the rows of the account, when they are all there. *)
Lemma remove_signers_total a t :
  let id := address (Account_AccountId a) in (∀ x, t !! (id, x) = account_signer a x) →
  ∃ t', remove_signers a t = Ret t' ∧ (∀ x, t' !! (id, x) = None) ∧ ∀ b x, b ≠ id → t' !! (b, x) = t !! (b, x).
Proof.
  intros id Ht. destruct (remove_steps id (range_signers (signer_weights a)) t) as (t' & Ht' & Hl); [apply range_NoDup| |].
  { intros x ([x' w] & -> & Hx%range_elem)%list_elem_of_fmap. simpl. rewrite Ht. unfold account_signer. rewrite Hx. by eexists. }
  exists t'. split_and!.
  - unfold remove_signers. rewrite SignerSummary_total. cbn [must]. outcome_simpl. rewrite <- Ht'.
    apply mfold_ext. intros acc [x w] _. by rewrite address_of_total.
  - intros x. rewrite Hl. case_decide as Hd; [done|]. rewrite Ht. apply account_signer_None, eq_None_not_Some.
    intros [w Hw]. apply Hd. split; [done|]. by apply range_elem, (list_elem_of_fmap_2 fst) in Hw.
  - intros b x Hb. rewrite Hl. rewrite decide_False; [done|]. by intros [? _].
Qed.

(** [create_signers] adds the rows of the account, when it has none. *)
Lemma create_signers_total a t :
  account_wf a → let id := address (Account_AccountId a) in (∀ x, t !! (id, x) = None) →
  ∃ t', create_signers a t = Ret t' ∧ (∀ x, t' !! (id, x) = account_signer a x) ∧ ∀ b x, b ≠ id → t' !! (b, x) = t !! (b, x).
Proof.
  intros Hw id Ht.
  destruct (create_steps id (λ x w, MkSignerRow id x w (address <$> (signer_sponsors a !! x)))
    (range_signers (signer_weights a)) t) as (t' & Ht' & Hl & Ho); [done|apply range_NoDup|done|].
  exists t'. split_and!.
  - unfold create_signers. rewrite SignerSummary_total, SponsorPerSigner_total by done. cbn [must]. outcome_simpl.
    rewrite <- Ht'. apply mfold_ext. intros acc [x w] _. rewrite address_of_total. outcome_simpl. cbn [outcome_bind].
    unfold create_step, CreateAccountSigner. cbn [fst snd]. fold id. case_bool_decide as Hx.
    + destruct (signer_sponsors a !! x); rewrite ?address_of_total; cbn [outcome_bind fmap option_fmap option_map];
        outcome_simpl; rewrite ?address_of_total; cbn [outcome_bind]; by destruct (insert_row _ _ _).
    + rewrite Hx.
      replace (signer_sponsors a !! id) with (@None AccountId) by (symmetry; by apply sponsor_not_master).
      outcome_simpl. cbn [outcome_bind fmap option_fmap option_map]. by destruct (insert_row _ _ _).
  - intros x. unfold account_signer. destruct (signer_weights a !! x) as [w|] eqn:E; simpl.
    + by apply Hl, range_elem.
    + rewrite Ho; [done|]. intros [_ ([x' w] & -> & Hx%range_elem)%list_elem_of_fmap]. simpl in E. congruence.
  - intros b x Hb. apply Ho. by intros [? _].
Qed.
End rows.

(** ** The table follows the signers of the accounts *)
Section laws.
Context `{LC : LedgerCache} `{SO : SignerOrder} (names : Names).
Abbreviation ok := (named names).

Definition signers_follow (s : rows) (t : SignerTable) : Prop :=
  (∀ k e, s !! k = Some e → ∀ x, t !! (account_key e, x) = signer_row e x) ∧
  (∀ a x, is_Some (t !! (a, x)) → ∃ k e, s !! k = Some e ∧ account_key e = a).

Lemma account_entry e : ok e → data_type (Data e) = TypeAccount →
  ∃ a, Data e = DataAccount a ∧ account_wf a ∧ account_key e = address (Account_AccountId a) ∧ ∀ x, signer_row e x = account_signer a x.
Proof.
  intros [[_ Hw] _]. unfold account_key, signer_row. destruct (Data e) as [a| | | |]; try done. intros _. by exists a.
Qed.

(** The rows of one account are rewritten. *)
Lemma signers_follow_insert s t t' k e :
  keyed ok s → all_type TypeAccount s → signers_follow s t → ok e → data_type (Data e) = TypeAccount →
  MarshalBinaryBase64 (LedgerEntry_LedgerKey e) = Some k → (∀ x, t' !! (account_key e, x) = signer_row e x) →
  (∀ b x, b ≠ account_key e → t' !! (b, x) = t !! (b, x)) → signers_follow (<[k := e]> s) t'.
Proof.
  intros Hs Hty [H1 H2] Ho Hte Hk He Hb. pose proof (account_keys names) as HK. split.
  - intros k' e' [[<- <-]|[Hne He']]%lookup_insert_Some x; [done|].
    rewrite Hb; [by eapply H1|]. by eapply (kof_other ok ar_AccountID account_key account_row TypeAccount HK s k k').
  - intros a x Hi. destruct (decide (a = account_key e)) as [->|Hne]; [exists k, e; by rewrite lookup_insert_eq|].
    rewrite Hb in Hi by done. destruct (H2 _ _ Hi) as (k' & e' & He' & <-). exists k', e'. split; [|done].
    rewrite lookup_insert_ne; [done|]. intros ->. apply Hne. by eapply (kof_same ok ar_AccountID account_key account_row TypeAccount HK).
Qed.

Lemma signers_follow_delete s t t' k e :
  keyed ok s → all_type TypeAccount s → signers_follow s t → s !! k = Some e →
  (∀ x, t' !! (account_key e, x) = None) → (∀ b x, b ≠ account_key e → t' !! (b, x) = t !! (b, x)) →
  signers_follow (delete k s) t'.
Proof.
  intros Hs Hty [H1 H2] He Hn Hb. pose proof (account_keys names) as HK. destruct (Hs _ _ He) as [Hk Ho]. split.
  - intros k' e' [Hne He']%lookup_delete_Some x. rewrite Hb; [by eapply H1|].
    eapply (kof_other ok ar_AccountID account_key account_row TypeAccount HK s k k'); try done. by eapply Hty.
  - intros a x Hi. destruct (decide (a = account_key e)) as [->|Hne]; [rewrite Hn in Hi; by destruct Hi|].
    rewrite Hb in Hi by done. destruct (H2 _ _ Hi) as (k' & e' & He' & <-). exists k', e'. split; [|done].
    rewrite lookup_delete_ne; [done|]. intros ->. congruence.
Qed.

(** An account without a row has none of its signers'. *)
Lemma signers_fresh s t k e x :
  keyed ok s → all_type TypeAccount s → signers_follow s t → ok e → data_type (Data e) = TypeAccount →
  MarshalBinaryBase64 (LedgerEntry_LedgerKey e) = Some k → s !! k = None → t !! (account_key e, x) = None.
Proof.
  intros Hs Hty [_ H2] Ho Hte Hk Hn. pose proof (account_keys names) as HK. apply eq_None_not_Some. intros Hi.
  destruct (H2 _ _ Hi) as (k' & e' & He' & Heq). destruct (decide (k' = k)) as [->|Hne]; [congruence|].
  by apply (kof_other ok ar_AccountID account_key account_row TypeAccount HK s k k' e e').
Qed.

(** An update that [AccountSignersChanged] does not report. *)
Lemma signers_unchanged a b :
  account_wf a → account_wf b → Account_AccountId a = Account_AccountId b →
  signer_weights a = signer_weights b → SignerSponsoringIDs a = SignerSponsoringIDs b →
  ∀ x, account_signer a x = account_signer b x.
Proof.
  intros Ha Hb Hid Hw Hsp x. unfold account_signer, signer_sponsors.
  by rewrite Hw, Hid, Hsp, (signer_texts_unique a b Ha Hb Hid Hw).
Qed.

Lemma signers_step c :
  change_wf ok c → Change_Type c = TypeAccount →
  step_follows ok account_key TypeAccount signers_change signers_follow (λ _, []) c.
Proof.
  intros Hw Hty s t s' Hs Hst Ha HI _.
  destruct (change_cases ok s c s' Hs Hw Ha) as (k & Hk & [(e & Hpre & Hpost & Hsk & -> & Hke & Ho & Hte)|
    [(e & Hpre & Hpost & Hsk & -> & Hke & Ho & Hte)|(e0 & e & Hpre & Hpost & Hsk & -> & Hke & Ho0 & Ho & Heq & Hte0 & Hte)]]);
    rewrite Hty in *; unfold signers_change;
    destruct (account_entry e Ho Hte) as (a & Ea & Hwa & Hka & Hra).
  - assert (AccountSignersChanged c = Ret true) as -> by (unfold AccountSignersChanged; by rewrite Hty, Hpre, bool_decide_true).
    rewrite Hpre, Hpost. unfold must_account. rewrite Ea. cbn [must outcome_bind negb]. outcome_simpl.
    destruct (create_signers_total a t Hwa) as (t' & -> & H1 & H2).
    { intros x. rewrite <- Hka. by eapply signers_fresh. }
    exists t'. split_and!; [done| |by left]. apply (signers_follow_insert s t t' k e); try done.
    + intros x. by rewrite Hka, H1, Hra.
    + intros b x Hb. apply H2. by rewrite <- Hka.
  - assert (AccountSignersChanged c = Ret true) as -> by (unfold AccountSignersChanged; by rewrite Hty, Hpre, Hpost, bool_decide_true).
    rewrite Hpre, Hpost. unfold must_account. rewrite Ea. cbn [must outcome_bind negb]. outcome_simpl.
    destruct (remove_signers_total a t) as (t' & -> & H1 & H2).
    { intros x. rewrite <- Hka, <- Hra. by apply (proj1 HI k e). }
    exists t'. split_and!; [done| |by left]. apply (signers_follow_delete s t t' k e); try done.
    + intros x. by rewrite Hka, H1.
    + intros b x Hb. apply H2. by rewrite <- Hka.
  - destruct (account_entry e0 Ho0 Hte0) as (a0 & Ea0 & Hwa0 & Hka0 & Hra0).
    assert (Account_AccountId a0 = Account_AccountId a) as Hid.
    { unfold LedgerEntry_LedgerKey in Heq. rewrite Ea0, Ea in Heq. by injection Heq. }
    destruct c as [ty pre post]; simpl in Hpre, Hpost, Hty; subst ty pre post. cbn [Change_Type Pre Post].
    destruct (signers_changed_spec TypeAccount e0 e a0 a) as (changed & -> & Hch); [done..| |].
    { apply Forall_app. split; [apply Hwa0|apply Hwa]. }
    unfold must_account. rewrite Ea0, Ea. cbn [must outcome_bind]. destruct changed; cbn [negb]; outcome_simpl.
    + destruct (remove_signers_total a0 t) as (t1 & -> & H1 & H2).
      { intros x. rewrite <- Hka0, <- Hra0. by apply (proj1 HI k e0). }
      rewrite Hid in H1, H2. cbn [outcome_bind].
      destruct (create_signers_total a t1 Hwa H1) as (t' & -> & H3 & H4).
      exists t'. split_and!; [done| |by left]. apply (signers_follow_insert s t t' k e); try done.
      * intros x. by rewrite Hka, H3, Hra.
      * intros b x Hb. rewrite Hka in Hb. by rewrite H4, H2.
    + destruct (proj1 Hch eq_refl) as [Hw1 Hw2]. exists t. split_and!; [done| |by left].
      apply (signers_follow_insert s t t k e); try done.
      intros x. rewrite Hra, Hka, <- Hid, <- Hka0, (proj1 HI k e0 Hsk), Hra0. by apply signers_unchanged.
Qed.

#[export] Instance signers_laws : ProcessorLaws (ChangeProcessor0 := SignersProcessor) ok (λ _, signers_follow) (λ _, signers_follow).
Proof.
  apply laws_intro; [|done]. intros fut ps cs s0 s t Hr Hk Hty Hsq Hps. cbn [flush sink_type SignersProcessor] in *.
  apply (flush_fold names ar_AccountID account_key account_row TypeAccount signers_change
    signers_follow (λ _, []) ps cs s0 s t); [apply account_keys|done..|]. intros c _. apply signers_step.
Qed.

(** *** Insert-only mode *)
Definition signers_inserting (s : rows) (p : list AccountSignerRow * SignerTable) : Prop :=
  waits signer_key p.1 p.2 ∧ signers_follow s (put signer_key p.1 p.2).

Definition account_signers (a : AccountEntry) : list AccountSignerRow :=
  (λ x, MkSignerRow (address (Account_AccountId a)) x.1 x.2 (address <$> (signer_sponsors a !! x.1))) <$> range_signers (signer_weights a).

Lemma account_signers_keys a : NoDup (signer_key <$> account_signers a).
Proof.
  unfold account_signers. rewrite <- list_fmap_compose.
  change (NoDup ((λ x, (address (Account_AccountId a), x)) ∘ fst <$> range_signers (signer_weights a))).
  rewrite list_fmap_compose.
  apply NoDup_fmap_2, range_NoDup. by intros ?? [= ->].
Qed.

Lemma put_account_signers a t x :
  put signer_key (account_signers a) t !! (address (Account_AccountId a), x) =
    match account_signer a x with Some r => Some r | None => t !! (address (Account_AccountId a), x) end.
Proof.
  unfold account_signer. destruct (signer_weights a !! x) as [w|] eqn:E; simpl.
  - apply (put_elem signer_key _ (MkSignerRow (address (Account_AccountId a)) x w (address <$> (signer_sponsors a !! x))));
      [apply account_signers_keys|]. apply list_elem_of_fmap. exists (x, w). split; [done|]. by apply range_elem.
  - apply put_other. unfold account_signers. rewrite <- list_fmap_compose.
    intros ([x' w] & Heq & Hx%range_elem)%list_elem_of_fmap. unfold signer_key in Heq; cbn in Heq. injection Heq as ->. congruence.
Qed.

Lemma put_account_others a t b x :
  b ≠ address (Account_AccountId a) → put signer_key (account_signers a) t !! (b, x) = t !! (b, x).
Proof.
  intros Hb. apply put_other. unfold account_signers. rewrite <- list_fmap_compose.
  intros ([x' w] & Heq & _)%list_elem_of_fmap. unfold signer_key in Heq; cbn in Heq. congruence.
Qed.

Lemma InsertOnly_ProcessChange_follows s s' p c :
  keyed ok s → change_wf ok c → Pre c = None → apply_exact s c = Some s' → signers_inserting (of_type TypeAccount s) p →
  ∃ p', InsertOnly_ProcessChange p c = Ret p' ∧ signers_inserting (of_type TypeAccount s') p'.
Proof.
  intros Hs Hw Hpre Ha HI. unfold InsertOnly_ProcessChange. pose proof (apply_exact_type ok TypeAccount s c s' Hw Ha) as Hty.
  case_decide as Hc; [|rewrite bool_decide_false by done; exists p; by rewrite Hty].
  rewrite bool_decide_true by done. cbn [negb].
  assert (keyed ok (of_type TypeAccount s)) as Hk by by apply of_type_keyed.
  destruct (change_cases ok _ c _ Hk Hw Hty) as (k & Hck & [(e & _ & Hpost & Hsk & Heq & Hke & Ho & Hte)|
    [(e & Hp & _)|(e0 & e & Hp & _)]]); [|congruence..].
  rewrite Hpre, Hpost. rewrite Hc in Hte. destruct (account_entry e Ho Hte) as (a & Ea & Hwa & Hka & Hra).
  unfold must_account. rewrite Ea. outcome_simpl. rewrite address_of_total, SponsorPerSigner_total, SignerSummary_total by done.
  cbn [must outcome_bind]. destruct p as [batch t]. destruct HI as [Hwt HF]. cbn [fst snd] in *.
  destruct (batch_adds signer_key maxBatchSize (account_signers a) batch t Hwt) as (batch' & t' & Hb & Hw' & Hput).
  { apply account_signers_keys. }
  { intros r ([x w] & -> & _)%list_elem_of_fmap. unfold signer_key; cbn [sr_Account sr_Signer fst snd]. rewrite <- Hka.
    eapply signers_fresh; try done. by apply of_type_all. }
  exists (batch', t'). split.
  - rewrite <- Hb. unfold account_signers. rewrite mfold_fmap. apply mfold_ext. intros [b u] [x w] _. cbn [fst snd].
    unfold signers_batch_add. destruct (signer_sponsors a !! x); rewrite ?address_of_total; outcome_simpl; by rewrite ?address_of_total.
  - split; [done|]. cbn [fst snd]. rewrite Hput, Heq. apply (signers_follow_insert _ (put signer_key batch t) _ k e); try done.
    + by apply of_type_all.
    + intros x. rewrite Hra, Hka, put_account_signers. destruct (account_signer a x); [done|]. rewrite <- Hka.
      eapply signers_fresh; try done. by apply of_type_all.
    + intros b x Hb'. rewrite Hka in Hb'. by apply put_account_others.
Qed.

Lemma InsertOnly_follows cs s s' p :
  keyed ok s → Forall (change_wf ok) cs → Forall (λ c, Pre c = None) cs → apply_exacts s cs = Some s' →
  signers_inserting (of_type TypeAccount s) p →
  ∃ p', mfold InsertOnly_ProcessChange p cs = Ret p' ∧ signers_inserting (of_type TypeAccount s') p'.
Proof.
  revert s p. induction cs as [|c cs IH]; intros s p Hs Hw Hp Ha HI; simpl in *; [injection Ha as <-; eauto|].
  apply Forall_cons in Hw as [Hwc Hw], Hp as [Hpc Hp]. destruct (apply_exact s c) as [s1|] eqn:E; [|done].
  destruct (InsertOnly_ProcessChange_follows s s1 p c) as (p1 & -> & HI1); [done..|]. simpl.
  apply (IH s1); try done. by eapply apply_exact_keyed.
Qed.

Lemma InsertOnly_Commit_follows s p : signers_inserting s p → ∃ t', InsertOnly_Commit p = Ret t' ∧ signers_follow s t'.
Proof. destruct p as [batch t]. intros [Hw HF]. cbn [fst snd] in *. unfold InsertOnly_Commit. rewrite (insert_waiting _ _ _ Hw). eauto. Qed.
End laws.
