(* ===== verification/RowEntries.v ===== *)
(** * aurora: the ledger entries that rows stand for

    Models the part of [verify.go] of [src/services/aurora/internal/ingest] that
    turns the rows of the database back into ledger entries.  For tables that
    follow a ledger the result is the normal form of the entry, the form into
    which [transformEntry] brings the entries of the archive. *)

From S2P Require Import Prelude Strkey Xdr LedgerEntry ChangeCache StateVerifier HistoryTables StatPages.
From S2P Require Import ChangeProcessor StateProcessors SignersProcessor.
#[local] Opaque address.

Inductive verification_error :=
  | ErrCall
  | FromVerifier (e : verify_error)
  | ErrQuery (e : proc_error)
  | ErrPage (e : page_error)
  | StateErrMasterWeight
  | StateErrAddStat (e : proc_error)
  | StateErrStatMissing
  | StateErrStatMismatch
  | StateErrStatsLeft.

(** [ingesterrors.StateError], by which the state is marked invalid. *)
Definition is_state_failure (e : verification_error) : bool :=
  match e with
  | FromVerifier e => is_state_error e
  | ErrCall | ErrQuery _ | ErrPage _ => false
  | _ => true
  end.

(** ** Entries from rows *)

Definition addLedgerEntrySponsor (seq : Z) (data : LedgerEntryData) (sponsor : nullString)
  : outcome verification_error LedgerEntry :=
  ledgerEntrySponsor ← match sponsor with
                       | None => Ret None
                       | Some s => a ← must (MustAddress s); Ret (Some a)
                       end;
  Ret (MkEntry seq data (Some ledgerEntrySponsor)).

(** The three maps built from the rows of the signers. *)
Record SignerMaps := MkSignerMaps {
  masterWeightMap : gmap gostring Z;
  signersMap : gmap gostring (list Signer);
  sponsoringSignersMap : gmap gostring (gmap gostring gostring) }.
Definition add_signer (m : SignerMaps) (row : AccountSignerRow) : outcome verification_error SignerMaps :=
  if bool_decide (sr_Account row = sr_Signer row) then
    Ret (MkSignerMaps (<[sr_Account row := sr_Weight row]> (masterWeightMap m)) (signersMap m) (sponsoringSignersMap m))
  else
    key ← must (MustSigner (sr_Signer row));
    let signers := default [] (signersMap m !! sr_Account row) in
    let sponsors := default ∅ (sponsoringSignersMap m !! sr_Account row) in
    Ret (MkSignerMaps (masterWeightMap m)
      (<[sr_Account row := signers ++ [MkSigner key (u32 (sr_Weight row))]]> (signersMap m))
      (<[sr_Account row := <[sr_Signer row := default [] (sr_Sponsor row)]> sponsors]> (sponsoringSignersMap m))).

Definition account_of_row (m : SignerMaps) (row : AccountRow) : outcome verification_error LedgerEntry :=
  inflationDest ← (if bool_decide (ar_InflationDestination row = []) then Ret None
                   else t ← must (MustAddress (ar_InflationDestination row)); Ret (Some t));
  if negb (i32 (ar_MasterWeight row) =? default 0 (masterWeightMap m !! ar_AccountID row)) then Fail StateErrMasterWeight else
  signers ← must (SortSignersByKey (default [] (signersMap m !! ar_AccountID row)));
  signerSponsoringIDs ← mfold (λ ids signer,
    a ← must (SignerKey_Address (Some (Key signer)));
    let sponsor := default [] (sponsors ← sponsoringSignersMap m !! ar_AccountID row; sponsors !! a) in
    id ← (if bool_decide (sponsor = []) then Ret None else x ← must (MustAddress sponsor); Ret (Some x));
    Ret (ids ++ [id])) [] signers;
  accountID ← must (MustAddress (ar_AccountID row));
  addLedgerEntrySponsor (ar_LastModifiedLedger row)
    (DataAccount (MkAccount accountID (ar_Balance row) (ar_SequenceNumber row) (ar_NumSubEntries row) inflationDest
      (ar_Flags row) (ar_HomeDomain row)
      (MkThresholds (ar_MasterWeight row) (ar_ThresholdLow row) (ar_ThresholdMedium row) (ar_ThresholdHigh row)) signers
      (Some (MkAccountV1 (MkLiabilities (ar_BuyingLiabilities row) (ar_SellingLiabilities row))
        (Some (MkAccountV2 (ar_NumSponsored row) (ar_NumSponsoring row) signerSponsoringIDs))))))
    (ar_Sponsor row).

Definition data_of_row (row : DataRow) : outcome verification_error LedgerEntry :=
  accountID ← must (MustAddress (dr_AccountID row));
  addLedgerEntrySponsor (dr_LastModifiedLedger row) (DataData (MkData accountID (dr_Name row) (dr_Value row))) (dr_Sponsor row).

Definition offer_of_row (row : OfferRow) : outcome verification_error LedgerEntry :=
  sellerID ← must (MustAddress (or_SellerID row));
  addLedgerEntrySponsor (or_LastModifiedLedger row)
    (DataOffer (MkOffer sellerID (or_OfferID row) (or_SellingAsset row) (or_BuyingAsset row) (or_Amount row)
      (Price.MkPrice (or_Pricen row) (or_Priced row)) (or_Flags row))) (or_Sponsor row).

Definition trust_line_of_row (row : TrustLineRow) : outcome verification_error TrustLineEntry :=
  asset ← must (MustNewCreditAsset (tr_AssetCode row) (tr_AssetIssuer row));
  accountID ← must (MustAddress (tr_AccountID row));
  Ret (MkTrustLine accountID asset (tr_Balance row) (tr_Limit row) (tr_Flags row)
    (Some (MkLiabilities (tr_BuyingLiabilities row) (tr_SellingLiabilities row)))).

Definition balance_of_row (row : ClaimableBalanceRow) : outcome verification_error LedgerEntry :=
  claimants ← mfold (λ claimants claimant,
    destination ← must (MustAddress (hc_Destination claimant));
    Ret (claimants ++ [MkClaimant destination (hc_Predicate claimant)])) [] (cr_Claimants row);
  claimants ← must (SortClaimantsByDestination claimants);
  addLedgerEntrySponsor (cr_LastModifiedLedger row)
    (DataClaimableBalance (MkClaimableBalance (cr_BalanceID row) claimants (cr_Asset row) (cr_Amount row))) (cr_Sponsor row).

(** ** Rows of entries *)
#[local] Arguments addLedgerEntrySponsor : simpl never.

Lemma must_address {E} i : wf_account i → must (MustAddress (address i)) = Ret i :> outcome E _.
Proof. intros Hi. unfold MustAddress. by rewrite SetAddress_address. Qed.

Lemma addLedgerEntrySponsor_text e data :
  wf_sponsor (SponsoringID e) →
  addLedgerEntrySponsor (LastModifiedLedgerSeq e) data (sponsor_text e) =
    Ret (MkEntry (LastModifiedLedgerSeq e) data (Some (SponsoringID e))).
Proof.
  intros Hw. unfold addLedgerEntrySponsor, sponsor_text. destruct (SponsoringID e) as [i|]; [|done].
  cbn [fmap option_fmap option_map]. by rewrite must_address by by apply Hw.
Qed.

Lemma data_of_row_normal names e key :
  entry_wf names e → data_type (Data e) = TypeData → data_of_row (data_row key e) = Ret (normal e).
Proof.
  intros [Hs Hw] Ht. unfold data_of_row, data_row, normal. destruct (Data e) as [| | |d|]; try done. cbn.
  rewrite must_address by done. outcome_simpl. rewrite addLedgerEntrySponsor_text by done. by destruct d.
Qed.

Lemma offer_of_row_normal names e :
  entry_wf names e → data_type (Data e) = TypeOffer → offer_of_row (offer_row e) = Ret (normal e).
Proof.
  intros [Hs Hw] Ht. unfold offer_of_row, offer_row, normal. destruct (Data e) as [| |o| |]; try done. cbn.
  rewrite must_address by apply Hw. outcome_simpl. rewrite addLedgerEntrySponsor_text by done. by destruct o as [????? []].
Qed.

(** The asset is rebuilt from its code and its issuer. *)
Lemma MustNewCreditAsset_stat {E} a ty code issuer :
  valid_asset a → a ≠ AssetTypeNative → ExtractType a = Ret (ty, code, issuer) →
  must (MustNewCreditAsset code issuer) = Ret a :> outcome E _.
Proof.
  intros Hv Hn. unfold ExtractType, Extract, MustNewCreditAsset, NewCreditAsset, SetCredit.
  destruct a as [|c i|c i]; [done| |]; destruct Hv as [(c' & -> & Hl & Hc) Hi]; rewrite Encode_address; outcome_simpl;
    cbn [must outcome_bind]; intros [= <- <- <-]; rewrite SetAddress_address by done; outcome_simpl;
    cbn [outcome_bind]; rewrite (valid_code_trim _ _ c' eq_refl) by (done || lia).
  - by rewrite (proj2 (andb_true_iff _ _)) by (rewrite !Nat.leb_le; lia).
  - rewrite (proj2 (andb_false_iff (1 <=? _)%nat _)) by (rewrite !Nat.leb_gt; lia).
    by rewrite (proj2 (andb_true_iff _ _)) by (rewrite !Nat.leb_le; lia).
Qed.

Lemma trust_line_of_row_normal names e key :
  entry_wf names e → data_type (Data e) = TypeTrustline →
  ∃ t, trust_line_of_row (trust_line_row key e) = Ret t ∧
    addLedgerEntrySponsor (tr_LastModifiedLedger (trust_line_row key e)) (DataTrustLine t) (tr_Sponsor (trust_line_row key e)) =
    Ret (normal e) ∧ Data (normal e) = DataTrustLine t.
Proof.
  intros [Hs Hw] Ht. unfold trust_line_of_row, trust_line_row, normal. destruct (Data e) as [|t| | |]; try done.
  destruct Hw as (Ha & Hv & Hn & _). destruct (ExtractType_total (TrustLine_Asset t)) as (ty & c & i & Hx). rewrite Hx.
  cbn. rewrite (MustNewCreditAsset_stat (TrustLine_Asset t) ty c i), must_address by done. outcome_simpl.
  eexists. split; [done|]. rewrite addLedgerEntrySponsor_text by done. by destruct (TrustLineEntry_Liabilities t).
Qed.

Lemma balance_of_row_normal names e :
  entry_wf names e → data_type (Data e) = TypeClaimableBalance → balance_of_row (balance_row e) = Ret (normal e).
Proof.
  intros [Hs Hw] Ht. unfold balance_of_row, balance_row, normal. destruct (Data e) as [| | | |b]; try done.
  destruct Hw as (_ & _ & Hn & Hd). cbn. rewrite mfold_fmap.
  rewrite (mfold_map _ (λ c, c) (Claimants b) []).
  - rewrite list_fmap_id. outcome_simpl. rewrite SortClaimantsByDestination_total. cbn [must outcome_bind].
    by rewrite addLedgerEntrySponsor_text.
  - intros acc c Hc. rewrite Forall_forall in Hd. cbn [hc_Destination hc_Predicate]. rewrite must_address by by apply Hd. by destruct c.
Qed.

(** ** Accounts and their signers *)

(** The maps, when every signer of the rows can be read. *)
Definition row_signer (r : AccountSignerRow) : outcome verification_error Signer :=
  key ← must (MustSigner (sr_Signer r)); Ret (MkSigner key (u32 (sr_Weight r))).
Definition other_signer (id : gostring) (r : AccountSignerRow) : Prop := sr_Account r = id ∧ sr_Signer r ≠ id.
#[local] Instance other_signer_dec id r : Decision (other_signer id r).
Proof. unfold other_signer. apply _. Defined.

Definition sponsor_in (m : SignerMaps) (id x : gostring) : gostring :=
  default [] (sponsors ← sponsoringSignersMap m !! id; sponsors !! x).

Record maps_of (f : AccountSignerRow → Signer) (l : list AccountSignerRow) (m : SignerMaps) : Prop := {
  maps_master id r : r ∈ l → sr_Account r = id → sr_Signer r = id → masterWeightMap m !! id = Some (sr_Weight r);
  maps_no_master id : (∀ r, r ∈ l → sr_Account r = id → sr_Signer r ≠ id) → masterWeightMap m !! id = None;
  maps_signers id : default [] (signersMap m !! id) = f <$> filter (other_signer id) l;
  maps_sponsor id r : r ∈ l → other_signer id r → sponsor_in m id (sr_Signer r) = default [] (sr_Sponsor r) }.

Lemma maps_snoc f l m r m' :
  NoDup (signer_key <$> l ++ [r]) → maps_of f l m → (sr_Account r ≠ sr_Signer r → row_signer r = Ret (f r)) →
  add_signer m r = Ret m' → maps_of f (l ++ [r]) m'.
Proof.
  intros Hn [H1 H2 H3 H4] Hr. rewrite fmap_app in Hn. apply NoDup_app in Hn as (_ & Hn & _).
  assert (∀ r', r' ∈ l → ¬ (sr_Account r' = sr_Account r ∧ sr_Signer r' = sr_Signer r)) as Hne.
  { intros r' Hr' [Ha Hs]. apply (Hn (signer_key r')); [by apply list_elem_of_fmap_2|]. apply list_elem_of_singleton.
    unfold signer_key. by rewrite Ha, Hs. }
  unfold add_signer. case_bool_decide as Hm; [|unfold row_signer in Hr; specialize (Hr Hm); revert Hr;
    destruct (must (MustSigner (sr_Signer r))) as [key| |]; outcome_simpl; [|done..]; intros [= Hf]]; intros [= <-].
  - split; cbn [masterWeightMap signersMap sponsoringSignersMap].
    + intros id r' [Hr'| ->%list_elem_of_singleton]%elem_of_app Ha Hs; [|by rewrite Ha, lookup_insert_eq].
      rewrite lookup_insert_ne; [by apply H1|]. intros Heq. apply (Hne r' Hr'). split; congruence.
    + intros id Hid. rewrite lookup_insert_ne; [apply H2; intros r' Hr'; apply Hid, elem_of_app; by left|].
      intros Heq. apply (Hid r); [apply elem_of_app; right; by left|done|congruence].
    + intros id. rewrite filter_app, H3, filter_cons_False, filter_nil, app_nil_r; [done|]. unfold other_signer. intros [<- ?]. done.
    + intros id r' [Hr'| ->%list_elem_of_singleton]%elem_of_app Ho; [by apply H4|]. destruct Ho as [<- ?]. done.
  - split; cbn [masterWeightMap signersMap sponsoringSignersMap].
    + intros id r' [Hr'| ->%list_elem_of_singleton]%elem_of_app Ha Hs; [by apply H1|]. congruence.
    + intros id Hid. apply H2. intros r' Hr'. apply Hid, elem_of_app. by left.
    + intros id. rewrite filter_app, fmap_app, <- H3. destruct (decide (id = sr_Account r)) as [->|Hne'].
      * rewrite lookup_insert_eq, filter_cons_True, filter_nil by (split; congruence). simpl. by rewrite Hf.
      * rewrite lookup_insert_ne by done. rewrite filter_cons_False, filter_nil by (intros [? _]; congruence). by rewrite app_nil_r.
    + intros id r' Hr' Ho. unfold sponsor_in in *. cbn [sponsoringSignersMap].
      apply elem_of_app in Hr' as [Hr'| ->%list_elem_of_singleton].
      * destruct (decide (id = sr_Account r)) as [->|Hne']; [|rewrite lookup_insert_ne by done; by apply H4].
        rewrite lookup_insert_eq. simpl. rewrite lookup_insert_ne.
        { specialize (H4 _ _ Hr' Ho). by destruct (sponsoringSignersMap m !! sr_Account r). }
        intros Heq. apply (Hne r' Hr'). destruct Ho. split; congruence.
      * destruct Ho as [<- _]. rewrite lookup_insert_eq. simpl. by rewrite lookup_insert_eq.
Qed.

Lemma add_signers f l :
  NoDup (signer_key <$> l) → (∀ r, r ∈ l → sr_Account r ≠ sr_Signer r → row_signer r = Ret (f r)) →
  ∃ m, mfold add_signer (MkSignerMaps ∅ ∅ ∅) l = Ret m ∧ maps_of f l m.
Proof.
  induction l as [|r l IH] using rev_ind; intros Hn Hf.
  { eexists. split; [done|]. split; simpl; try done. all: by intros id r ?%elem_of_nil. }
  destruct IH as (m & Hm & HI).
  { rewrite fmap_app in Hn. by apply NoDup_app in Hn as [? _]. } { intros r' Hr'. apply Hf, elem_of_app. by left. }
  assert (∃ m', add_signer m r = Ret m') as [m' Hm'].
  { unfold add_signer. case_bool_decide as Hd; [by eexists|].
    assert (row_signer r = Ret (f r)) as Hr by (apply Hf; [apply elem_of_app; right; by left|done]).
    unfold row_signer in Hr. destruct (must (MustSigner (sr_Signer r))); [by eexists|done..]. }
  exists m'. rewrite mfold_app, Hm. simpl. rewrite Hm'. split; [done|]. eapply maps_snoc; try done.
  intros Hne. apply Hf; [apply elem_of_app; right; by left|done].
Qed.

(** *** The signers of an account *)
Lemma signer_texts_NoDup a : account_wf a → NoDup (signer_text <$> Signers a).
Proof.
  intros Hw. rewrite (list_fmap_compose Key signer_string _ : signer_text <$> _ = _). apply NoDup_fmap_2_strong; [|apply ranked_NoDup, Hw].
  pose proof (signers_wf _ Hw) as Hs. rewrite Forall_forall in Hs.
  intros k1 k2 (s1 & -> & H1)%list_elem_of_fmap (s2 & -> & H2)%list_elem_of_fmap. apply signer_string_inj; by apply Hs.
Qed.

Lemma weights_over_notin l m x : x ∉ signer_text <$> l → weights_over l m !! x = m !! x.
Proof.
  unfold weights_over. revert m. induction l as [|s l IH]; intros m; [done|]. rewrite fmap_cons, not_elem_of_cons.
  intros [Hx Hl]. simpl. rewrite IH by done. by rewrite lookup_insert_ne.
Qed.

Lemma weights_over_elem l m s :
  NoDup (signer_text <$> l) → s ∈ l → weights_over l m !! signer_text s = Some (i32 (Weight s)).
Proof.
  revert m. induction l as [|s' l IH]; intros m; [by intros _ ?%elem_of_nil|]. rewrite fmap_cons.
  intros [Hs Hn]%NoDup_cons [->|Hin]%elem_of_cons; [|by apply IH].
  change (weights_over (s' :: l) m) with (weights_over l (<[signer_text s' := i32 (Weight s')]> m)).
  rewrite weights_over_notin by done. apply lookup_insert_eq.
Qed.

Definition master_weights (a : AccountEntry) : gmap gostring Z :=
  if 0 <? MasterKeyWeight (Account_Thresholds a)
  then {[ address (Account_AccountId a) := th_master (Account_Thresholds a) ]} else ∅.
Lemma signer_weights_over a : signer_weights a = weights_over (Signers a) (master_weights a).
Proof. done. Qed.

Lemma master_weight a :
  account_wf a → default 0 (signer_weights a !! address (Account_AccountId a)) = th_master (Account_Thresholds a).
Proof.
  intros Hw. rewrite signer_weights_over, weights_over_notin by apply Hw. unfold master_weights, MasterKeyWeight.
  pose proof (master_weight_wf _ Hw). destruct (Z.ltb_spec 0 (th_master (Account_Thresholds a))).
  - by rewrite lookup_singleton_eq.
  - rewrite lookup_empty. simpl. lia.
Qed.

(** The sponsors as [transformEntry] and as the processor collect them. *)
Lemma sponsor_maps_agree signers ids m m' :
  NoDup (signer_text <$> signers) → (∀ x, x ∈ signer_text <$> signers → m' !! x = None) →
  (∀ x, default None (m !! x) = m' !! x) →
  ∀ x, default None (sponsor_map signers ids m !! x) = sponsors_of (signer_text <$> signers) ids m' !! x.
Proof.
  revert ids m m'. induction signers as [|s signers IH]; intros ids m m' Hn Hf Hm x; [by destruct ids|].
  destruct ids as [|o ids]; [done|]. rewrite fmap_cons in *. apply NoDup_cons in Hn as [Hs Hn].
  change (sponsor_map (s :: signers) (o :: ids) m) with (sponsor_map signers ids (<[signer_text s := o]> m)).
  change (sponsors_of (signer_text s :: (signer_text <$> signers)) (o :: ids) m') with
    (sponsors_of (signer_text <$> signers) ids (match o with Some y => <[signer_text s := y]> m' | None => m' end)).
  apply IH; [done| |].
  - intros y Hy. assert (y ≠ signer_text s) by (by intros ->). destruct o; rewrite ?lookup_insert_ne by done; apply Hf; by right.
  - intros y. destruct (decide (y = signer_text s)) as [->|Hy].
    + rewrite lookup_insert_eq. destruct o; [by rewrite lookup_insert_eq|]. simpl. rewrite Hf; [done|by left].
    + rewrite lookup_insert_ne by done. destruct o; rewrite ?lookup_insert_ne by done; apply Hm.
Qed.

Lemma normal_sponsors_eq a :
  account_wf a → normal_sponsors a = (λ s, signer_sponsors a !! signer_text s) <$> signers_sorted (Signers a).
Proof.
  intros Hw. unfold normal_sponsors, signer_sponsors. apply list_fmap_ext. intros i s _.
  apply sponsor_maps_agree; [by apply signer_texts_NoDup|done|]. intros x. by rewrite !lookup_empty.
Qed.

Lemma sponsors_of_wf signers ids m x i :
  (∀ y j, m !! y = Some j → wf_account j) → Forall wf_sponsor ids → sponsors_of signers ids m !! x = Some i → wf_account i.
Proof.
  unfold sponsors_of. revert ids m. induction signers as [|s signers IH]; intros [|o ids] m Hm Hf; simpl; [by apply Hm..|].
  apply Forall_cons in Hf as [Ho Hf]. apply IH; [|done]. intros y j. destruct o as [v|]; [|by apply Hm].
  intros [[<- <-]|[_ Hy]]%lookup_insert_Some; [by apply Ho|by eapply Hm].
Qed.

Definition row_of_signer (a : AccountEntry) (s : Signer) : AccountSignerRow :=
  MkSignerRow (address (Account_AccountId a)) (signer_text s) (i32 (Weight s)) (address <$> (signer_sponsors a !! signer_text s)).
Definition signer_of (r : AccountSignerRow) : Signer :=
  match row_signer r with Ret s => s | _ => MkSigner (SignerKeyTypeHashX []) 0 end.

Lemma row_signer_total a s : account_wf a → s ∈ Signers a → row_signer (row_of_signer a s) = Ret s.
Proof.
  intros Hw Hs. unfold row_signer, row_of_signer. cbn [sr_Signer sr_Weight]. unfold MustSigner, signer_text.
  pose proof (signers_wf _ Hw) as Hk. pose proof (signers_weights _ Hw) as Hwt. rewrite Forall_forall in Hk, Hwt.
  rewrite signer_string_read by by apply Hk. outcome_simpl. cbn [must outcome_bind]. specialize (Hwt _ Hs).
  destruct s as [k w]; simpl in *. do 2 f_equal. rewrite i32_small by (unfold is_i32; lia). apply u32_small. unfold is_u32. lia.
Qed.

Lemma account_signer_elem a x r :
  account_wf a → account_signer a x = Some r → x ≠ address (Account_AccountId a) →
  ∃ s, s ∈ Signers a ∧ x = signer_text s ∧ r = row_of_signer a s.
Proof.
  intros Hw Hr Hx. unfold account_signer in Hr. destruct (signer_weights a !! x) as [w|] eqn:E; [|done].
  assert (x ∈ signer_text <$> Signers a) as (s & -> & Hs)%list_elem_of_fmap by (apply signer_elem; [done|by split; [eexists|]]).
  exists s. split_and!; [done..|]. injection Hr as <-. unfold row_of_signer. f_equal.
  rewrite signer_weights_over, weights_over_elem in E by (by apply signer_texts_NoDup || done). by injection E as <-.
Qed.

Lemma row_of_signer_elem a s :
  account_wf a → s ∈ Signers a → account_signer a (signer_text s) = Some (row_of_signer a s).
Proof.
  intros Hw Hs. unfold account_signer. rewrite signer_weights_over, weights_over_elem by (by apply signer_texts_NoDup || done). done.
Qed.

(** The rows of a query, which has those of the account. *)
Record lists_account (a : AccountEntry) (l : list AccountSignerRow) : Prop := {
  listed_keys : NoDup (signer_key <$> l);
  listed_own r : r ∈ l → sr_Account r = address (Account_AccountId a) → account_signer a (sr_Signer r) = Some r;
  listed_all x r : account_signer a x = Some r → r ∈ l }.

Lemma account_signer_key a x r : account_signer a x = Some r → signer_key r = (address (Account_AccountId a), x).
Proof. unfold account_signer. destruct (signer_weights a !! x); [|done]. by intros [= <-]. Qed.

Lemma listed_signers a l :
  account_wf a → lists_account a l →
  filter (other_signer (address (Account_AccountId a))) l ≡ₚ row_of_signer a <$> Signers a.
Proof.
  intros Hw [Hn Ho Hl]. apply NoDup_Permutation.
  - apply NoDup_filter. by eapply NoDup_fmap_1.
  - apply (NoDup_fmap_1 sr_Signer). rewrite <- list_fmap_compose. by apply signer_texts_NoDup.
  - intros r. rewrite list_elem_of_filter, list_elem_of_fmap. split.
    + intros [[Ha Hs] Hr]. destruct (account_signer_elem a (sr_Signer r) r) as (s & Hin & _ & ->); [done|by apply Ho|done|].
      by exists s.
    + intros (s & -> & Hs). split; [|by eapply Hl, row_of_signer_elem]. split; [done|]. cbn [row_of_signer sr_Signer].
      intros Heq. apply (signers_not_master _ Hw). rewrite <- Heq. by apply list_elem_of_fmap_2.
Qed.

Lemma listed_master a l f m :
  account_wf a → lists_account a l → maps_of f l m →
  default 0 (masterWeightMap m !! address (Account_AccountId a)) = th_master (Account_Thresholds a).
Proof.
  intros Hw [Hn Ho Hl] [H1 H2 _ _]. rewrite <- (master_weight a Hw).
  destruct (account_signer a (address (Account_AccountId a))) as [r|] eqn:E.
  - pose proof (account_signer_key _ _ _ E) as [= Ha Hs]. rewrite (H1 _ r) by (by eapply Hl || done).
    unfold account_signer in E. destruct (signer_weights a !! _); [|done]. by injection E as <-.
  - rewrite H2; [by apply account_signer_None in E as ->|]. intros r Hr Ha Hs. specialize (Ho r Hr Ha). rewrite Hs in Ho. congruence.
Qed.

Lemma bind_Ret {E A B} (f : A → outcome E B) a : Ret a ≫= f = f a.
Proof. done. Qed.

(** The account is rebuilt from its row and the rows of its signers. *)
Lemma account_of_row_normal names e a l m :
  entry_wf names e → Data e = DataAccount a → lists_account a l → maps_of signer_of l m →
  account_of_row m (account_row e) = Ret (normal e).
Proof.
  intros [Hs Hw] He Hl Hm. rewrite He in Hw. unfold account_of_row, account_row, normal. rewrite He. cbn.
  assert ((if bool_decide (match Account_InflationDest a with Some d => address d | None => [] end = [])
    then Ret None else t ← must (MustAddress (match Account_InflationDest a with Some d => address d | None => [] end)); Ret (Some t))
    = Ret (Account_InflationDest a) :> outcome verification_error _) as ->.
  { pose proof (inflation_wf _ Hw) as Hi. destruct (Account_InflationDest a) as [d|]; [|done].
    rewrite bool_decide_false, must_address; [done|by apply Hi|]. intros Hnil.
    pose proof (address_length d (proj1 (Hi d eq_refl))) as Hlen. by rewrite Hnil in Hlen. }
  rewrite bind_Ret, (listed_master a l _ m Hw Hl Hm).
  pose proof (master_weight_wf _ Hw). rewrite i32_small by (unfold is_i32; lia). rewrite Z.eqb_refl. cbn [negb].
  rewrite (maps_signers _ _ _ Hm), SortSignersByKey_total. cbn [must]. rewrite bind_Ret.
  assert (signer_of <$> filter (other_signer (address (Account_AccountId a))) l ≡ₚ Signers a) as Hp.
  { rewrite (listed_signers a l Hw Hl), <- list_fmap_compose.
    assert (signer_of ∘ row_of_signer a <$> Signers a = id <$> Signers a) as ->; [|by rewrite list_fmap_id].
    apply list_fmap_ext. intros i s Hi%list_elem_of_lookup_2. cbn. unfold signer_of. by rewrite row_signer_total. }
  assert (signers_sorted (signer_of <$> filter (other_signer (address (Account_AccountId a))) l) = signers_sorted (Signers a)) as ->.
  { apply (sorted_by_canonical signer_text); [|done]. rewrite Hp. by apply signer_texts_NoDup. }
  rewrite (mfold_map _ (λ s, signer_sponsors a !! signer_text s) _ []).
  - cbn [app]. rewrite bind_Ret, must_address, bind_Ret by apply Hw. rewrite addLedgerEntrySponsor_text by done.
    unfold normal_account. rewrite normal_sponsors_eq by done. by destruct (Account_Thresholds a), (AccountEntry_Liabilities a).
  - intros acc s Hsin. rewrite SignerKey_Address_total. cbn [must]. rewrite bind_Ret.
    assert (s ∈ Signers a) as Hin.
    { apply (elem_of_Permutation_proper s _ _ (sorted_by_perm signer_text (Signers a) (signer_texts_NoDup a Hw))). exact Hsin. }
    pose proof (row_of_signer_elem a s Hw Hin) as Hrow.
    pose proof (maps_sponsor _ _ _ Hm (address (Account_AccountId a)) (row_of_signer a s) (listed_all _ _ Hl _ _ Hrow)) as Hsp.
    unfold sponsor_in in Hsp. cbn [row_of_signer sr_Signer sr_Sponsor] in Hsp. cbv zeta. fold (signer_text s). rewrite Hsp.
    2:{ split; [done|]. cbn [row_of_signer sr_Signer]. intros Heq. apply (signers_not_master _ Hw). rewrite <- Heq. by apply list_elem_of_fmap_2. }
    destruct (signer_sponsors a !! signer_text s) as [i|] eqn:E; cbn [fmap option_fmap option_map default]; [|done].
    assert (wf_account i) as Hi.
    { eapply (sponsors_of_wf _ _ ∅); [|apply (sponsors_wf _ Hw)|exact E]. intros y j Hy. by rewrite lookup_empty in Hy. }
    cbn [id]. rewrite bool_decide_false, must_address; [done..|]. intros Hnil.
    pose proof (address_length i (proj1 Hi)) as Hlen. by rewrite Hnil in Hlen.
Qed.
