(* ===== verification/AssetStats.v ===== *)
(** * aurora: asset statistics

    Models [asset_stats_set.go] and [asset_stats_processor.go] of
    [src/services/aurora/internal/ingest/processors]: for each asset, the number
    of authorized trust lines and their total balance.  The table is shown to
    hold these totals of the ledger. *)

From S2P Require Import Prelude Decimal Xdr LedgerEntry ChangeCache HistoryTables ChangeProcessor StateProcessors.

#[local] Opaque address.

(** ** asset_stats_set.go *)
Abbreviation assetStatKey := asset_key.
Record assetStatValue := MkStatValue { amount : Z; numAccounts : Z }.
Abbreviation AssetStatSet := (gmap assetStatKey assetStatValue).

(** The order in which a set is ranged over. *)
Class StatsOrder := {
  range_stats : AssetStatSet → list (assetStatKey * assetStatValue);
  range_stats_perm m : range_stats m ≡ₚ map_to_list m }.

(** [AddDelta]: the amount is a [big.Int], the number of accounts an [int32]. *)
Definition AddDelta (s : AssetStatSet) (asset : Asset) (deltaBalance deltaAccounts : Z) : outcome proc_error AssetStatSet :=
  if (deltaBalance =? 0) && (deltaAccounts =? 0) then Ret s else
  key ← map_fail (λ _, ErrExtract) (ExtractType asset);
  match s !! key with
  | None => Ret (<[key := MkStatValue deltaBalance deltaAccounts]> s)
  | Some current =>
      let current := MkStatValue (amount current + deltaBalance) (i32 (numAccounts current + deltaAccounts)) in
      if (numAccounts current =? 0) && (amount current =? 0) then Ret (delete key s) else Ret (<[key := current]> s)
  end.
Definition Add (s : AssetStatSet) (trustLine : TrustLineEntry) : outcome proc_error AssetStatSet :=
  if negb (IsAuthorized (TrustLine_Flags trustLine)) then Ret s else
  AddDelta s (TrustLine_Asset trustLine) (TrustLine_Balance trustLine) 1.
Definition stat_row (key : assetStatKey) (value : assetStatValue) : ExpAssetStat :=
  let '(assetType, assetCode, assetIssuer) := key in
  MkAssetStat assetType assetCode assetIssuer (itoa (amount value)) (numAccounts value).
Definition AssetStatSet_Remove (s : AssetStatSet) (key : assetStatKey) : option ExpAssetStat * AssetStatSet :=
  match s !! key with
  | None => (None, s)
  | Some value => (Some (stat_row key value), delete key s)
  end.
Definition All `{StatsOrder} (s : AssetStatSet) : list ExpAssetStat := (λ '(key, value), stat_row key value) <$> range_stats s.

(** ** asset_stats_processor.go *)

(** [big.Int.SetString] in base 10. *)
Definition Int_SetString (s : gostring) : option Z :=
  let '(neg, digits) := match s with 45 :: r => (true, r) | 43 :: r => (false, r) | _ => (false, s) end in
  match digits with
  | [] => None
  | _ => if forallb is_digit digits then Some (if neg then - read_digits digits else read_digits digits) else None
  end.

(** The trust line and the deltas; none when it was and is not authorized. *)
Definition trustline_delta (preTrustline postTrustline : option TrustLineEntry)
  : outcome proc_error (TrustLineEntry * Z * Z) :=
  match preTrustline, postTrustline with
  | Some pre, None =>
      if IsAuthorized (TrustLine_Flags pre) then Ret (pre, i64 (- TrustLine_Balance pre), -1) else Ret (pre, 0, 0)
  | None, Some post =>
      if IsAuthorized (TrustLine_Flags post) then Ret (post, TrustLine_Balance post, 1) else Ret (post, 0, 0)
  | Some pre, Some post =>
      if IsAuthorized (TrustLine_Flags pre) && IsAuthorized (TrustLine_Flags post) then
        Ret (post, i64 (TrustLine_Balance post - TrustLine_Balance pre), 0)
      else if IsAuthorized (TrustLine_Flags pre) && negb (IsAuthorized (TrustLine_Flags post)) then
        Ret (post, i64 (- TrustLine_Balance pre), -1)
      else if negb (IsAuthorized (TrustLine_Flags pre)) && IsAuthorized (TrustLine_Flags post) then
        Ret (post, TrustLine_Balance post, 1)
      else Ret (post, 0, 0)
  | None, None => Fail StateErrBothNil
  end.
Definition adjustAssetStat (assetStatSet : AssetStatSet) (preTrustline postTrustline : option TrustLineEntry)
  : outcome proc_error AssetStatSet :=
  '(trustline, deltaBalance, deltaAccounts) ← trustline_delta preTrustline postTrustline;
  AddDelta assetStatSet (TrustLine_Asset trustline) deltaBalance deltaAccounts.

Definition must_trust_line (e : LedgerEntry) : outcome proc_error TrustLineEntry :=
  match Data e with DataTrustLine t => Ret t | _ => Panic end.
Definition stats_change (assetStatSet : AssetStatSet) (change : Change) : outcome proc_error AssetStatSet :=
  match Pre change, Post change with
  | None, Some post => p ← must_trust_line post; adjustAssetStat assetStatSet None (Some p)
  | Some pre, Some post =>
      q ← must_trust_line pre; p ← must_trust_line post; adjustAssetStat assetStatSet (Some q) (Some p)
  | Some pre, None => q ← must_trust_line pre; adjustAssetStat assetStatSet (Some q) None
  | None, None => Fail ErrInvalidChange
  end.

(** The database is brought up to date with a delta. *)
Definition apply_delta (t : AssetStatTable) (delta : ExpAssetStat) : outcome proc_error AssetStatTable :=
  let key := asset_stat_key delta in
  match GetAssetStat key t with
  | None =>
      if as_NumAccounts delta <? 0 then Fail StateErrNegativeAccounts else
      r ← InsertAssetStat delta t;
      affected r
  | Some stat =>
      match Int_SetString (as_Amount stat), Int_SetString (as_Amount delta) with
      | Some statBalance, Some deltaBalance =>
          let statBalance := statBalance + deltaBalance in
          let statAccounts := i32 (as_NumAccounts stat + as_NumAccounts delta) in
          if statAccounts =? 0 then
            if negb (statBalance =? 0) then Fail StateErrAmountLeft else
            affected (RemoveAssetStat key t)
          else
            affected (UpdateAssetStat
              (MkAssetStat (as_AssetType delta) (as_AssetCode delta) (as_AssetIssuer delta) (itoa statBalance) statAccounts) t)
      | _, _ => Fail ErrParseAmount
      end
  end.

Section processor.
Context `{LC : LedgerCache} `{SO : StatsOrder}.

Definition AssetStatsProcessor_flush (changes : list Change) (t : AssetStatTable) : outcome proc_error AssetStatTable :=
  assetStatSet ← mfold stats_change ∅ changes;
  mfold apply_delta t (All assetStatSet).

#[export] Instance AssetStatsProcessor : ChangeProcessor AssetStatTable :=
  { sink_type := TypeTrustline; flush := AssetStatsProcessor_flush; finish := id }.

(** The insert-only mode, for the entries of a history archive. *)
Definition Stats_InsertOnly_ProcessChange (assetStatSet : AssetStatSet) (change : Change) : outcome proc_error AssetStatSet :=
  if negb (bool_decide (Change_Type change = TypeTrustline)) then Ret assetStatSet else
  match Pre change, Post change with
  | None, Some post => p ← must_trust_line post; adjustAssetStat assetStatSet None (Some p)
  | _, _ => Fail ErrInsertOnly
  end.
Definition Stats_InsertOnly_Commit (assetStatSet : AssetStatSet) (t : AssetStatTable) : outcome proc_error AssetStatTable :=
  InsertAssetStats (All assetStatSet) maxBatchSize t.
End processor.

(** ** The totals of a ledger *)
Definition asset_stat (a : Asset) : assetStatKey := match ExtractType a with Ret k => k | _ => (0, [], []) end.
Definition line_authorized (q : assetStatKey) (t : TrustLineEntry) : bool :=
  bool_decide (asset_stat (TrustLine_Asset t) = q) && IsAuthorized (TrustLine_Flags t).
Definition line_amount (q : assetStatKey) (e : LedgerEntry) : Z :=
  match Data e with DataTrustLine t => if line_authorized q t then TrustLine_Balance t else 0 | _ => 0 end.
Definition line_count (q : assetStatKey) (e : LedgerEntry) : Z :=
  match Data e with DataTrustLine t => if line_authorized q t then 1 else 0 | _ => 0 end.

Definition total (f : LedgerEntry → Z) (s : rows) : Z := map_fold (λ _ e acc, f e + acc) 0 s.

(** What the table holds: no row for an asset without authorized trust lines. *)
Definition stat_value (amt num : Z) : option assetStatValue :=
  if (num =? 0) && (amt =? 0) then None else Some (MkStatValue amt num).
Definition stats_represent (s : rows) (t : AssetStatTable) : Prop :=
  ∀ q, t !! q = stat_row q <$> stat_value (total (line_amount q) s) (total (line_count q) s).

Lemma total_insert f s k e : s !! k = None → total f (<[k := e]> s) = f e + total f s.
Proof. intros Hk. unfold total. apply (map_fold_insert_L (λ _ e acc, f e + acc)); [intros; lia|done]. Qed.

Lemma total_delete f s k e : s !! k = Some e → total f s = f e + total f (delete k s).
Proof. intros Hk. unfold total. apply (map_fold_delete_L (λ _ e acc, f e + acc)); [intros; lia|done]. Qed.

Lemma total_update f s k e0 e : s !! k = Some e0 → total f (<[k := e]> s) = total f s - f e0 + f e.
Proof.
  intros Hk. rewrite (total_delete f s k e0 Hk), <- insert_delete_eq, total_insert by apply lookup_delete_eq. lia.
Qed.

Lemma line_count_bounds q e : 0 ≤ line_count q e ≤ 1 ∧ (line_count q e = 0 → line_amount q e = 0).
Proof. unfold line_count, line_amount. destruct (Data e) as [|tl| | |]; [lia|destruct (line_authorized q tl); lia|lia..]. Qed.

Lemma totals_bounds q s :
  0 ≤ total (line_count q) s ≤ Z.of_nat (size s) ∧ (total (line_count q) s = 0 → total (line_amount q) s = 0).
Proof.
  induction s as [|k e s Hk IH] using map_ind.
  - unfold total. rewrite !map_fold_empty, map_size_empty. done.
  - rewrite !total_insert, map_size_insert_None by done. pose proof (line_count_bounds q e). lia.
Qed.

Lemma Int_SetString_itoa n : Int_SetString (itoa n) = Some n.
Proof.
  rewrite itoa_sign. unfold Int_SetString.
  rewrite (sign_split (n <? 0) (utoa (Z.abs n)) (λ neg digits, match digits with
    | [] => None
    | _ => if forallb is_digit digits then Some (if neg then - read_digits digits else read_digits digits) else None
    end)) by (apply digits_or_dot, utoa_digits; lia).
  pose proof (utoa_not_nil (Z.abs n) ltac:(lia)) as Hne. pose proof (utoa_digits (Z.abs n) ltac:(lia)) as Hd.
  destruct (utoa (Z.abs n)) as [|c r] eqn:E; [done|]. rewrite (forallb_digits _ Hd), <- E, read_utoa by lia.
  f_equal. destruct (Z.ltb_spec n 0); lia.
Qed.

(** ** The set holds the differences *)

(** The deltas between two ledgers; the number of accounts is an [int32]. *)
Definition deltas (s0 s : rows) (D : AssetStatSet) : Prop :=
  ∀ q, D !! q = stat_value (total (line_amount q) s - total (line_amount q) s0)
                  (i32 (total (line_count q) s - total (line_count q) s0)).

Lemma i32_add x y : i32 (i32 x + y) = i32 (x + y).
Proof. int_lia. Qed.

Lemma ExtractType_stat a : ExtractType a = Ret (asset_stat a).
Proof. unfold asset_stat. by destruct (ExtractType_total a) as (t & c & i & ->). Qed.

Lemma stat_value_Some a n v : stat_value a n = Some v → v = MkStatValue a n ∧ ¬ (a = 0 ∧ n = 0).
Proof. unfold stat_value. destruct (Z.eqb_spec n 0), (Z.eqb_spec a 0); simpl; try done; intros [= <-]; split; done || lia. Qed.

(** [AddDelta] adds to the differences of one asset. *)
Definition stat_or_0 (o : option assetStatValue) : assetStatValue := default (MkStatValue 0 0) o.
Lemma AddDelta_spec D a b n :
  n = 0 ∨ n = 1 ∨ n = -1 → (∀ v, D !! asset_stat a = Some v → stat_value (amount v) (i32 (numAccounts v)) = Some v) →
  ∃ D', AddDelta D a b n = Ret D' ∧
    ∀ q, D' !! q = if decide (q = asset_stat a)
                   then stat_value (amount (stat_or_0 (D !! q)) + b) (i32 (numAccounts (stat_or_0 (D !! q)) + n)) else D !! q.
Proof.
  intros Hn Hv. unfold AddDelta. destruct ((b =? 0) && (n =? 0)) eqn:E0.
  { apply andb_true_iff in E0 as [->%Z.eqb_eq ->%Z.eqb_eq]. exists D. split; [done|]. intros q. case_decide as Hq; [|done].
    subst q. rewrite !Z.add_0_r. destruct (D !! asset_stat a) as [v|]; simpl; [|done]. symmetry. by apply Hv. }
  rewrite ExtractType_stat. cbn [map_fail]. outcome_simpl. destruct (D !! asset_stat a) as [v|] eqn:E.
  - cbn [amount numAccounts].
    assert (∀ q, q ≠ asset_stat a → ∀ D', D' = delete (asset_stat a) D ∨ (∃ v, D' = <[asset_stat a := v]> D) → D' !! q = D !! q) as Ho.
    { intros q Hq D' [->|[w ->]]; [by rewrite lookup_delete_ne|by rewrite lookup_insert_ne]. }
    unfold stat_value. destruct ((i32 (numAccounts v + n) =? 0) && (amount v + b =? 0)) eqn:E1; (eexists; split; [done|]); intros q; (case_decide as Hq; [subst q|apply Ho; eauto]);
      rewrite ?lookup_delete_eq, ?lookup_insert_eq, E; simpl; by rewrite E1.
  - eexists. split; [done|]. intros q. case_decide as Hq; [subst q|by rewrite lookup_insert_ne].
    rewrite lookup_insert_eq, E. simpl. rewrite i32_small by (unfold is_i32; lia). unfold stat_value.
    by rewrite !Z.add_0_l, andb_comm, E0.
Qed.

(** A change of a trust line, as a difference in one asset. *)
Definition side (f : LedgerEntry → Z) (o : option LedgerEntry) : Z := match o with Some e => f e | None => 0 end.
Lemma change_total f k s s' (pre post : option LedgerEntry) :
  pre = s !! k → s' = match post with Some e => <[k := e]> s | None => delete k s end →
  total f s' - total f s = side f post - side f pre.
Proof.
  intros -> ->. destruct (s !! k) as [e0|] eqn:E, post as [e|]; simpl.
  - rewrite (total_update f s k e0 e E). lia.
  - rewrite (total_delete f s k e0 E). lia.
  - rewrite total_insert by done. lia.
  - rewrite delete_id by done. lia.
Qed.

Lemma stat_or_0_value a n : stat_or_0 (stat_value a n) = MkStatValue a n.
Proof. unfold stat_value. destruct (Z.eqb_spec n 0), (Z.eqb_spec a 0); simpl; by subst. Qed.

(** The trust line of a side of a change. *)
Definition line_of (o : option LedgerEntry) : option TrustLineEntry :=
  e ← o; match Data e with DataTrustLine t => Some t | _ => None end.
Definition authorized (o : option TrustLineEntry) : bool :=
  match o with Some t => IsAuthorized (TrustLine_Flags t) | None => false end.
Definition balance_of (o : option TrustLineEntry) : Z := match o with Some t => TrustLine_Balance t | None => 0 end.

Lemma side_line q o a :
  (∀ t, line_of o = Some t → TrustLine_Asset t = a) →
  side (line_amount q) o = (if decide (q = asset_stat a) then if authorized (line_of o) then balance_of (line_of o) else 0 else 0) ∧
  side (line_count q) o = (if decide (q = asset_stat a) then if authorized (line_of o) then 1 else 0 else 0).
Proof.
  intros Hl. destruct o as [e|]; simpl in *; [|by case_decide]. unfold line_amount, line_count, line_authorized.
  destruct (Data e) as [|t| | |]; simpl; try (by case_decide). rewrite (Hl t eq_refl).
  destruct (decide (q = asset_stat a)) as [->|Hq]; [by rewrite bool_decide_true|]. by rewrite bool_decide_false by congruence.
Qed.

Section laws.
Context `{LC : LedgerCache} `{SO : StatsOrder} (names : Names).
Abbreviation ok := (named names).

Lemma must_line e : ok e → data_type (Data e) = TypeTrustline →
  ∃ t, Data e = DataTrustLine t ∧ must_trust_line e = Ret t ∧ 0 ≤ TrustLine_Balance t < 2 ^ 63.
Proof.
  intros [[_ Hw] _]. unfold must_trust_line. destruct (Data e) as [|t| | |]; try done. intros _. exists t. by destruct Hw as (_ & _ & _ & ?).
Qed.

(** The deltas of a trust line. *)
Lemma trustline_delta_spec (pre post : option TrustLineEntry) a :
  (is_Some pre ∨ is_Some post) →
  (∀ t, pre = Some t ∨ post = Some t → TrustLine_Asset t = a ∧ 0 ≤ TrustLine_Balance t < 2 ^ 63) →
  ∃ t b n, trustline_delta pre post = Ret (t, b, n) ∧ TrustLine_Asset t = a ∧ (n = 0 ∨ n = 1 ∨ n = -1) ∧
    b = (if authorized post then balance_of post else 0) - (if authorized pre then balance_of pre else 0) ∧
    n = (if authorized post then 1 else 0) - (if authorized pre then 1 else 0).
Proof.
  intros Hs Ht. destruct pre as [p|], post as [q|]; [| | |by destruct Hs as [[]|[]]];
    unfold trustline_delta; cbn [authorized balance_of];
    try (destruct (Ht p) as [Hpa Hpb]; [by auto|]); try (destruct (Ht q) as [Hqa Hqb]; [by auto|]);
    try destruct (IsAuthorized (TrustLine_Flags p)); try destruct (IsAuthorized (TrustLine_Flags q)); simpl;
    eexists _, _, _; (split; [done|]); rewrite ?i64_small by (unfold is_i64; lia); split_and!; (done || lia).
Qed.

(** The trust lines of a change have one asset. *)
Lemma stats_change_lines D c :
  change_wf ok c → Change_Type c = TypeTrustline → is_Some (change_key MarshalBinaryBase64 c) →
  ∃ a, (∀ t, line_of (Pre c) = Some t ∨ line_of (Post c) = Some t → TrustLine_Asset t = a ∧ 0 ≤ TrustLine_Balance t < 2 ^ 63) ∧
    stats_change D c = adjustAssetStat D (line_of (Pre c)) (line_of (Post c)) ∧
    (is_Some (line_of (Pre c)) ∨ is_Some (line_of (Post c))).
Proof.
  intros Hw Hty [k Hk].
  assert (Hent : ∀ e, Pre c = Some e ∨ Post c = Some e →
    ∃ t, Data e = DataTrustLine t ∧ must_trust_line e = Ret t ∧ 0 ≤ TrustLine_Balance t < 2 ^ 63).
  { intros e He. destruct (wf_entry ok c e Hw He) as [? Hte]. rewrite Hty in Hte. by apply must_line. }
  destruct Hw as [Hok _]. unfold change_ok in Hok. unfold change_key in Hk. unfold stats_change, line_of.
  destruct (Pre c) as [e0|], (Post c) as [e|]; [| | |done];
    try (destruct (Hent e0) as (t0 & E0 & M0 & B0); [by auto|]); try (destruct (Hent e) as (t & E & M & B); [by auto|]); simpl;
    rewrite ?M0, ?M, ?E0, ?E; outcome_simpl.
  - unfold LedgerEntry_LedgerKey in Hok. rewrite E0, E in Hok. injection Hok as _ Hasset.
    exists (TrustLine_Asset t). split_and!; [naive_solver|done|by left].
  - exists (TrustLine_Asset t0). split_and!; [naive_solver|done|by left].
  - exists (TrustLine_Asset t). split_and!; [naive_solver|done|by right].
Qed.

Lemma deltas_step s0 c :
  change_wf ok c → Change_Type c = TypeTrustline →
  step_follows ok ledger_key_text TypeTrustline stats_change (deltas s0) (λ _, []) c.
Proof.
  intros Hw Hty s D s' Hs Hst Ha HI _. destruct (apply_exact_inv _ _ _ Ha) as (k & Hk & Hp & Hs').
  destruct (stats_change_lines D c Hw Hty) as (a & Hline & -> & Hsome); [by eexists|].
  unfold adjustAssetStat. destruct (trustline_delta_spec _ _ a Hsome Hline) as (t & b & n & -> & Hta & Hn & Hb & Hnn).
  outcome_simpl. rewrite Hta.
  destruct (AddDelta_spec D a b n Hn) as (D' & -> & HD').
  { intros v Hv. rewrite HI in Hv. apply stat_value_Some in Hv as Hv'. destruct Hv' as [-> _]. simpl. rewrite <- Hv. f_equal. int_lia. }
  exists D'. split_and!; [done| |by left]. intros q. rewrite HD'.
  pose proof (change_total (line_amount q) k s s' _ _ Hp Hs') as Ht1.
  pose proof (change_total (line_count q) k s s' _ _ Hp Hs') as Ht2.
  destruct (side_line q (Pre c) a) as [E1 E2]; [intros u Hu; by apply Hline; left|].
  destruct (side_line q (Post c) a) as [E3 E4]; [intros u Hu; by apply Hline; right|].
  rewrite E1, E3 in Ht1. rewrite E2, E4 in Ht2. rewrite (HI q). case_decide as Hq.
  - rewrite stat_or_0_value. cbn [amount numAccounts]. rewrite i32_add. f_equal; [lia|]. f_equal. lia.
  - f_equal; [lia|]. f_equal. lia.
Qed.

(** ** The database takes the deltas *)
Lemma apply_delta_spec t q v amt num amt' num' :
  t !! q = stat_row q <$> stat_value amt num → v = MkStatValue (amt' - amt) (num' - num) →
  0 ≤ num < 2 ^ 31 → 0 ≤ num' < 2 ^ 31 → (num = 0 → amt = 0) → (num' = 0 → amt' = 0) → ¬ (amt' = amt ∧ num' = num) →
  ∃ t', apply_delta t (stat_row q v) = Ret t' ∧ t' !! q = stat_row q <$> stat_value amt' num' ∧
    ∀ q', q' ≠ q → t' !! q' = t !! q'.
Proof.
  intros Ht -> Hnum Hnum' H0 H0' Hne. destruct q as [[ty code] issuer]. unfold apply_delta, GetAssetStat.
  unfold asset_stat_key at 1. cbn [stat_row as_AssetType as_AssetCode as_AssetIssuer amount numAccounts as_NumAccounts as_Amount] in *.
  rewrite Ht. unfold stat_value in *. destruct (Z.eqb_spec num 0) as [Hn0|Hn0].
  - rewrite (H0 Hn0) in *. subst num. cbn [andb Z.eqb fmap option_fmap option_map] in *. rewrite Z.sub_0_r in *.
    rewrite (proj2 (Z.ltb_ge _ _)) by lia. unfold InsertAssetStat, insert_row.
    unfold asset_stat_key. cbn [as_AssetType as_AssetCode as_AssetIssuer]. rewrite Ht, bool_decide_false by (by intros []).
    outcome_simpl. rewrite affected_1. eexists. split; [done|]. rewrite (proj2 (Z.eqb_neq num' 0)) by lia. simpl. split.
    + rewrite lookup_insert_eq. by rewrite !Z.sub_0_r.
    + intros q' Hq'. by rewrite lookup_insert_ne.
  - cbn [andb fmap option_fmap option_map stat_row as_Amount as_NumAccounts amount numAccounts] in *.
    rewrite !Int_SetString_itoa. cbv zeta. rewrite !Zplus_minus, (i32_small num') by (unfold is_i32; lia).
    destruct (Z.eqb_spec num' 0) as [Hn1|Hn1].
    + rewrite (H0' Hn1), Z.eqb_refl. cbn [negb andb]. unfold RemoveAssetStat, asset_stat_key. cbn [as_AssetType as_AssetCode as_AssetIssuer].
      rewrite (delete_row_Some _ _ _ Ht). eexists. split; [done|]. split; [by rewrite lookup_delete_eq|].
      intros q' Hq'. by rewrite lookup_delete_ne.
    + unfold UpdateAssetStat, asset_stat_key. cbn [as_AssetType as_AssetCode as_AssetIssuer].
      rewrite (update_row_Some _ _ _ _ Ht). eexists. split; [done|]. simpl. split; [by rewrite lookup_insert_eq|].
      intros q' Hq'. by rewrite lookup_insert_ne.
Qed.

Definition represents_at (s : rows) (t : AssetStatTable) (q : assetStatKey) : Prop :=
  t !! q = stat_row q <$> stat_value (total (line_amount q) s) (total (line_count q) s).

Lemma apply_deltas s0 s D l t :
  deltas s0 s D → Z.of_nat (size s0) < 2 ^ 31 → Z.of_nat (size s) < 2 ^ 31 →
  NoDup l.*1 → (∀ q v, (q, v) ∈ l → D !! q = Some v ∧ represents_at s0 t q) →
  ∃ t', mfold apply_delta t ((λ '(q, v), stat_row q v) <$> l) = Ret t' ∧
    ∀ q, if decide (q ∈ l.*1) then represents_at s t' q else t' !! q = t !! q.
Proof.
  intros HD Hsz0 Hsz. revert t. induction l as [|[q v] l IH]; intros t Hn Hl.
  { by exists t. }
  rewrite fmap_cons in Hn. apply NoDup_cons in Hn as [Hq Hn]. destruct (Hl q v) as [Hv Ht]; [by left|].
  rewrite HD in Hv. apply stat_value_Some in Hv as [Hv Hne].
  destruct (totals_bounds q s0) as [Hb0 Hz0]. destruct (totals_bounds q s) as [Hb Hz].
  rewrite i32_small in Hv, Hne by (unfold is_i32; lia).
  destruct (apply_delta_spec t q v _ _ _ _ Ht Hv) as (t1 & Ht1 & Hq1 & Ho1); [lia..|done|done|lia|].
  destruct (IH t1 Hn) as (t' & Ht' & Hl').
  { intros q' v' Hin. destruct (Hl q' v') as [? Hr]; [by right|]. split; [done|]. unfold represents_at. rewrite Ho1; [done|].
    intros ->. apply Hq. by apply (list_elem_of_fmap_2 fst) in Hin. }
  exists t'. split; [by rewrite fmap_cons; cbn [mfold]; rewrite Ht1|]. intros q'. specialize (Hl' q'). rewrite fmap_cons. cbn [fst].
  destruct (decide (q' ∈ l.*1)) as [Hin|Hin]; [by rewrite decide_True by by right|].
  destruct (decide (q' = q)) as [->|Hne'].
  - rewrite decide_True by by left. unfold represents_at. by rewrite Hl'.
  - rewrite decide_False by (rewrite not_elem_of_cons; done). rewrite Hl'. by apply Ho1.
Qed.

(** There are fewer than [2^31] trust lines, which the changes to come cannot
    change: the number of accounts of an asset is an [int32]. *)
Definition stats_follow (fut : list Change) (s : rows) (t : AssetStatTable) : Prop :=
  stats_represent s t ∧ Z.of_nat (size s + length fut) < 2 ^ 31.

Lemma apply_exacts_size cs s s' : apply_exacts s cs = Some s' → (size s' ≤ size s + length cs)%nat.
Proof.
  revert s. induction cs as [|c cs IH]; intros s Ha; simpl in *; [injection Ha as ->; lia|].
  destruct (apply_exact s c) as [s1|] eqn:E; [|done]. specialize (IH s1 Ha).
  destruct (apply_exact_inv _ _ _ E) as (k & _ & _ & ->). revert IH. destruct (Post c).
  - rewrite map_size_insert. destruct (s !! k); unfold id; lia.
  - rewrite map_size_delete. destruct (s !! k); unfold id; lia.
Qed.

#[export] Instance stats_laws : ProcessorLaws (ChangeProcessor0 := AssetStatsProcessor) ok stats_follow stats_follow.
Proof.
  apply laws_intro; [|done]. intros fut ps cs s0 s t [Hr Hb] Hk Hty Hsq Hps. cbn [flush sink_type AssetStatsProcessor] in *.
  pose proof (apply_exacts_size cs s0 s (squash_apply _ _ _ _ _ Hsq)) as Hsz. pose proof (squash_length _ _ _ _ _ Hsq) as Hl.
  rewrite length_app in Hb. unfold AssetStatsProcessor_flush.
  destruct (flush_fold names tr_ledger_key ledger_key_text trust_line_rows TypeTrustline stats_change
    (deltas s0) (λ _, []) ps cs s0 s ∅) as (D & -> & HD); [apply trust_line_keys|done..| |done| |].
  - intros q. unfold stat_value. by rewrite !Z.sub_diag.
  - intros c _. apply deltas_step.
  - outcome_simpl. cbn [outcome_bind]. unfold All.
    assert (∀ q v, (q, v) ∈ range_stats D ↔ D !! q = Some v) as Hin.
    { intros q v. rewrite range_stats_perm. apply elem_of_map_to_list. }
    destruct (apply_deltas s0 s D (range_stats D) t HD) as (t' & -> & Ht'); [lia..| | |].
    + rewrite range_stats_perm. apply NoDup_fst_map_to_list.
    + intros q v Hv%Hin. split; [done|apply Hr].
    + exists t'. split; [done|]. split; [|lia]. intros q. specialize (Ht' q). case_decide as Hq; [done|]. rewrite Ht', Hr.
      assert (D !! q = None) as Hnone.
      { apply eq_None_not_Some. intros [v Hv%Hin]. apply Hq. by apply (list_elem_of_fmap_2 fst) in Hv. }
      rewrite HD in Hnone. unfold stat_value in Hnone. destruct (totals_bounds q s0), (totals_bounds q s).
      rewrite i32_small in Hnone by (unfold is_i32; lia).
      destruct (Z.eqb_spec (total (line_count q) s - total (line_count q) s0) 0); [|done].
      destruct (Z.eqb_spec (total (line_amount q) s - total (line_amount q) s0) 0); [|done].
      do 2 f_equal; lia.
Qed.

(** *** Insert-only mode *)
Lemma Stats_InsertOnly_change s0 s s' D c :
  keyed ok s → change_wf ok c → Pre c = None → apply_exact s c = Some s' → deltas s0 (of_type TypeTrustline s) D →
  ∃ D', Stats_InsertOnly_ProcessChange D c = Ret D' ∧ deltas s0 (of_type TypeTrustline s') D'.
Proof.
  intros Hs Hw Hpre Ha HI. unfold Stats_InsertOnly_ProcessChange. pose proof (apply_exact_type ok TypeTrustline s c s' Hw Ha) as Hty.
  case_decide as Hc; [|rewrite bool_decide_false by done; exists D; by rewrite Hty].
  destruct (deltas_step s0 c Hw Hc (of_type TypeTrustline s) D (of_type TypeTrustline s')) as (D' & HD' & HI' & _);
    [by apply of_type_keyed|by apply of_type_all|done..|intros; apply not_elem_of_nil|].
  exists D'. split; [|done]. rewrite bool_decide_true by done. unfold stats_change in HD'. rewrite Hpre in *.
  destruct (Post c); [|done]. exact HD'.
Qed.

Lemma Stats_InsertOnly_follows s0 cs s s' D :
  keyed ok s → Forall (change_wf ok) cs → Forall (λ c, Pre c = None) cs → apply_exacts s cs = Some s' →
  deltas s0 (of_type TypeTrustline s) D →
  ∃ D', mfold Stats_InsertOnly_ProcessChange D cs = Ret D' ∧ deltas s0 (of_type TypeTrustline s') D'.
Proof.
  revert s D. induction cs as [|c cs IH]; intros s D Hs Hw Hp Ha HI; simpl in *; [injection Ha as <-; eauto|].
  apply Forall_cons in Hw as [Hwc Hw], Hp as [Hpc Hp]. destruct (apply_exact s c) as [s1|] eqn:E; [|done].
  destruct (Stats_InsertOnly_change s0 s s1 D c) as (D1 & -> & HI1); [done..|]. simpl.
  apply (IH s1); try done. by eapply apply_exact_keyed.
Qed.

Lemma All_keys D : asset_stat_key <$> All D = (range_stats D).*1.
Proof.
  unfold All. rewrite <- list_fmap_compose. apply list_fmap_ext. intros i [[[ty code] issuer] v] _. done.
Qed.

Lemma Stats_InsertOnly_Commit_follows s D :
  deltas ∅ s D → Z.of_nat (size s) < 2 ^ 31 → ∃ t, Stats_InsertOnly_Commit D ∅ = Ret t ∧ stats_represent s t.
Proof.
  intros HD Hsz. unfold Stats_InsertOnly_Commit, InsertAssetStats.
  assert (NoDup (asset_stat_key <$> All D)) as Hn by (rewrite All_keys, range_stats_perm; apply NoDup_fst_map_to_list).
  destruct (batch_adds asset_stat_key maxBatchSize (All D) [] ∅) as (batch & t & -> & Hw & Hput); [|done|done|].
  { split; [constructor|by intros ? ?%elem_of_nil]. }
  outcome_simpl. exists (put asset_stat_key (All D) ∅). split; [by rewrite (insert_waiting _ _ _ Hw), Hput|].
  intros q. specialize (HD q). unfold total in HD. rewrite !map_fold_empty, !Z.sub_0_r in HD. fold (total (line_count q) s) in HD.
  fold (total (line_amount q) s) in HD. destruct (totals_bounds q s) as [Hb _]. rewrite i32_small in HD by (unfold is_i32; lia).
  rewrite <- HD. destruct (D !! q) as [v|] eqn:E; simpl.
  - assert (asset_stat_key (stat_row q v) = q) as Hq by by destruct q as [[? ?] ?].
    rewrite <- Hq at 1. apply put_elem; [done|]. unfold All. apply list_elem_of_fmap. exists (q, v). split; [done|].
    rewrite range_stats_perm. by apply elem_of_map_to_list.
  - rewrite put_other; [done|]. rewrite All_keys. intros ([q' v] & -> & Hin)%list_elem_of_fmap.
    rewrite range_stats_perm in Hin. apply elem_of_map_to_list in Hin. simpl in E. congruence.
Qed.
End laws.
