(* ===== verification/ProcessorRunner.v ===== *)
(** * aurora: running the change processors

    Models the change side of [processor_runner.go] and [group_processors.go] of
    [src/services/aurora/internal/ingest], with [StatsChangeProcessor] and the
    readers of [src/ingest/io] that they use.  The state of aurora, a table for
    each kind of row, is shown to follow the ledger: the entries of a history
    archive fill the tables, and the changes of each ledger keep them. *)

From S2P Require Import Prelude Xdr LedgerEntry ChangeCache Transaction LedgerReaders HistoryTables ChangeProcessor StateProcessors.
From S2P Require Import SignersProcessor AssetStats.

(** ** stats_change_processor.go

    The fields [AccountsCreated], ... are [Created (Stats_Accounts r)], .... *)
Record Counts := MkCounts { Created : Z; Updated : Z; Removed : Z }.
Record StatsChangeProcessorResults := MkStats {
  Stats_Accounts : Counts; Stats_ClaimableBalances : Counts; Stats_Data : Counts; Stats_Offers : Counts; Stats_TrustLines : Counts }.

Definition count_change (k : LedgerEntryChangeType) (n : Counts) : Counts :=
  match k with
  | ChangeCreated => MkCounts (i64 (Created n + 1)) (Updated n) (Removed n)
  | ChangeUpdated => MkCounts (Created n) (i64 (Updated n + 1)) (Removed n)
  | ChangeRemoved => MkCounts (Created n) (Updated n) (i64 (Removed n + 1))
  end.
Definition Stats_ProcessChange (r : StatsChangeProcessorResults) (change : Change) : outcome proc_error StatsChangeProcessorResults :=
  k ← must (LedgerEntryChangeType_of change);
  let '(MkStats a b d o t) := r in
  Ret match Change_Type change with
      | TypeAccount => MkStats (count_change k a) b d o t
      | TypeClaimableBalance => MkStats a (count_change k b) d o t
      | TypeData => MkStats a b (count_change k d) o t
      | TypeOffer => MkStats a b d (count_change k o) t
      | TypeTrustline => MkStats a b d o (count_change k t)
      end.
Definition no_counts : Counts := MkCounts 0 0 0.
Definition NewStatsChangeProcessor : StatsChangeProcessorResults := MkStats no_counts no_counts no_counts no_counts no_counts.

(** ** The tables *)
Record Tables := MkTables {
  t_accounts : AccountTable; t_data : DataTable; t_offers : OfferTable; t_trust_lines : TrustLineTable;
  t_balances : BalanceTable; t_signers : SignerTable; t_asset_stats : AssetStatTable }.

(** The errors of a run. *)
Inductive runner_error :=
  | ErrGetLedger
  | ErrLedgerDoesNotExist
  | ErrProtocolVersion (ledgerVersion : Z)
  | ErrBucketListHash
  | ErrBucketListMismatch
  | ErrGetState
  | ErrChangeReader (e : reader_error)
  | ErrReadChange (e : reader_error)
  | ErrProcessing (e : proc_error).

(** Where the ledgers come from: the ledger backend, whose [None] is an error and
    [Some None] a ledger that it does not have, and the history archive, with the
    hash of its bucket list and a reader of its entries at a checkpoint. *)
Class LedgerSources := {
  GetLedger : Z → option (option LedgerCloseMeta);
  BucketListHash : Z → option (list Z);
  GetState : Z → option (list (outcome reader_error Change)) }.

Section runner.
Context `{NW : Network} `{LS : LedgerSources} `{LC : LedgerCache} `{SO : SignerOrder} `{TO : StatsOrder}.
Context (AccountEntry_MarshalBinary : AccountEntry → option (list Z)).

(** ** The processors that have an insert-only mode *)
Inductive AssetStats_state :=
  | AssetStats_cached (p : LedgerEntryChangeCache * AssetStatTable)
  | AssetStats_insert_only (assetStatSet : AssetStatSet) (t : AssetStatTable).
Definition NewAssetStatsProcessor (t : AssetStatTable) (useLedgerEntryCache : bool) : AssetStats_state :=
  if useLedgerEntryCache then AssetStats_cached (NewLedgerEntryChangeCache, t) else AssetStats_insert_only ∅ t.
Definition AssetStats_ProcessChange (p : AssetStats_state) (change : Change) : outcome proc_error AssetStats_state :=
  match p with
  | AssetStats_cached p => p ← ProcessChange p change; Ret (AssetStats_cached p)
  | AssetStats_insert_only set t => set ← Stats_InsertOnly_ProcessChange set change; Ret (AssetStats_insert_only set t)
  end.
Definition AssetStats_Commit (p : AssetStats_state) : outcome proc_error AssetStatTable :=
  match p with
  | AssetStats_cached p => Commit p
  | AssetStats_insert_only set t => Stats_InsertOnly_Commit set t
  end.

Inductive Signers_state :=
  | Signers_cached (p : LedgerEntryChangeCache * SignerTable)
  | Signers_insert_only (p : list AccountSignerRow * SignerTable).
Definition NewSignersProcessor (t : SignerTable) (useLedgerEntryCache : bool) : Signers_state :=
  if useLedgerEntryCache then Signers_cached (NewLedgerEntryChangeCache, t) else Signers_insert_only ([], t).
Definition Signers_ProcessChange (p : Signers_state) (change : Change) : outcome proc_error Signers_state :=
  match p with
  | Signers_cached p => p ← ProcessChange p change; Ret (Signers_cached p)
  | Signers_insert_only p => p ← InsertOnly_ProcessChange p change; Ret (Signers_insert_only p)
  end.
Definition Signers_Commit (p : Signers_state) : outcome proc_error SignerTable :=
  match p with
  | Signers_cached p => Commit p
  | Signers_insert_only p => InsertOnly_Commit p
  end.

(** ** group_processors.go *)
Record groupChangeProcessors := MkGroup {
  g_stats : StatsChangeProcessorResults;
  g_data : LedgerEntryChangeCache * DataTable;
  g_accounts : LedgerEntryChangeCache * AccountTable;
  g_offers : LedgerEntryChangeCache * OfferTable;
  g_asset_stats : AssetStats_state;
  g_signers : Signers_state;
  g_trust_lines : LedgerEntryChangeCache * TrustLineTable;
  g_balances : LedgerEntryChangeCache * BalanceTable }.

Definition group_ProcessChange (sequence : Z) (g : groupChangeProcessors) (change : Change)
  : outcome proc_error groupChangeProcessors :=
  stats ← Stats_ProcessChange (g_stats g) change;
  data ← ProcessChange (g_data g) change;
  accounts ← ProcessChange (ChangeProcessor0 := AccountsProcessor AccountEntry_MarshalBinary) (g_accounts g) change;
  offers ← ProcessChange (ChangeProcessor0 := OffersProcessor sequence) (g_offers g) change;
  asset_stats ← AssetStats_ProcessChange (g_asset_stats g) change;
  signers ← Signers_ProcessChange (g_signers g) change;
  trust_lines ← ProcessChange (g_trust_lines g) change;
  balances ← ProcessChange (g_balances g) change;
  Ret (MkGroup stats data accounts offers asset_stats signers trust_lines balances).
Definition group_Commit (sequence : Z) (g : groupChangeProcessors) : outcome proc_error Tables :=
  data ← Commit (g_data g);
  accounts ← Commit (ChangeProcessor0 := AccountsProcessor AccountEntry_MarshalBinary) (g_accounts g);
  offers ← Commit (ChangeProcessor0 := OffersProcessor sequence) (g_offers g);
  asset_stats ← AssetStats_Commit (g_asset_stats g);
  signers ← Signers_Commit (g_signers g);
  trust_lines ← Commit (g_trust_lines g);
  balances ← Commit (g_balances g);
  Ret (MkTables accounts data offers trust_lines balances signers asset_stats).

(** ** processor_runner.go *)
Definition buildChangeProcessor (useLedgerCache : bool) (t : Tables) : groupChangeProcessors :=
  let cache := NewLedgerEntryChangeCache in
  MkGroup NewStatsChangeProcessor (cache, t_data t) (cache, t_accounts t) (cache, t_offers t)
    (NewAssetStatsProcessor (t_asset_stats t) useLedgerCache) (NewSignersProcessor (t_signers t) useLedgerCache)
    (cache, t_trust_lines t) (cache, t_balances t).

(** [io.StreamChanges], of what the reader still returns. *)
Definition group_StreamChanges (sequence : Z) (g : groupChangeProcessors) (reader : list (outcome reader_error Change))
  : outcome runner_error groupChangeProcessors :=
  mfold (λ g r, change ← map_fail ErrReadChange r;
                map_fail ErrProcessing (group_ProcessChange sequence g change)) g reader.
Definition run_group (sequence : Z) (useLedgerCache : bool) (reader : list (outcome reader_error Change)) (t : Tables)
  : outcome runner_error (StatsChangeProcessorResults * Tables) :=
  g ← group_StreamChanges sequence (buildChangeProcessor useLedgerCache t) reader;
  t ← map_fail ErrProcessing (group_Commit sequence g);
  Ret (g_stats g, t).

Definition MaxSupportedProtocolVersion : Z := 15.
Definition must_get_ledger (ledgerSequence : Z) : outcome runner_error LedgerCloseMeta :=
  match GetLedger ledgerSequence with
  | None => Fail ErrGetLedger
  | Some None => Fail ErrLedgerDoesNotExist
  | Some (Some ledgerCloseMeta) => Ret ledgerCloseMeta
  end.
Definition checkIfProtocolVersionSupported (ledgerSequence : Z) : outcome runner_error unit :=
  ledgerCloseMeta ← must_get_ledger ledgerSequence;
  let ledgerVersion := LedgerVersion (Header (LedgerHeaderEntry ledgerCloseMeta)) in
  if MaxSupportedProtocolVersion <? ledgerVersion then Fail (ErrProtocolVersion ledgerVersion) else Ret tt.
Definition validateBucketList (ledgerSequence : Z) : outcome runner_error unit :=
  match BucketListHash ledgerSequence with
  | None => Fail ErrBucketListHash
  | Some historyBucketListHash =>
      ledgerCloseMeta ← must_get_ledger ledgerSequence;
      if bool_decide (historyBucketListHash = Header_BucketListHash (Header (LedgerHeaderEntry ledgerCloseMeta)))
      then Ret tt else Fail ErrBucketListMismatch
  end.

(** genesis_ledger_state_reader.go *)
Definition genesis_change : Change :=
  MkChange TypeAccount None (Some (MkEntry 1 (DataAccount
    (MkAccount MasterKey (100000000000 * 10000000) 0 0 None 0 [] (MkThresholds 1 0 0 0) [] None)) None)).
Definition GenesisLedgerStateReader : list (outcome reader_error Change) := [Ret genesis_change].

Definition RunHistoryArchiveIngestion (checkpointLedger : Z) (t : Tables)
  : outcome runner_error (StatsChangeProcessorResults * Tables) :=
  changeReader ← (if checkpointLedger =? 1 then Ret GenesisLedgerStateReader else
                    _ ← checkIfProtocolVersionSupported checkpointLedger;
                    _ ← validateBucketList checkpointLedger;
                    match GetState checkpointLedger with Some r => Ret r | None => Fail ErrGetState end);
  run_group checkpointLedger false changeReader t.

Definition runChangeProcessorOnLedger (ledger : Z) (t : Tables)
  : outcome runner_error (StatsChangeProcessorResults * Tables) :=
  ledgerCloseMeta ← must_get_ledger ledger;
  changeReader ← map_fail ErrChangeReader (ledger_changes ledgerCloseMeta);
  run_group ledger true changeReader t.
(** What [RunAllProcessorsOnLedger] does before it runs the processors of
    transactions. *)
Definition RunChangesOnLedger (sequence : Z) (t : Tables)
  : outcome runner_error (StatsChangeProcessorResults * Tables) :=
  _ ← checkIfProtocolVersionSupported sequence;
  runChangeProcessorOnLedger sequence t.
End runner.

(** ** The tables follow the ledger *)
Section follow.
Context `{LC : LedgerCache} `{SO : SignerOrder} `{TO : StatsOrder} (names : Names).
Context (AccountEntry_MarshalBinary : AccountEntry → option (list Z)).
Abbreviation ok := (named names).
Abbreviation mine ty := (filter (λ c, Change_Type c = ty)).

(** The tables hold the rows of the ledger [s]; the changes [fut] of the ledgers
    to come create offers that were never there and keep the number of trust
    lines below [2^31]. *)
Record tables_follow (fut : list Change) (s : rows) (t : Tables) : Prop := {
  accounts_ok : represents account_key account_row (of_type TypeAccount s) (t_accounts t);
  data_ok : represents data_key data_rows (of_type TypeData s) (t_data t);
  offers_ok : offers_follow (mine TypeOffer fut) (of_type TypeOffer s) (t_offers t);
  trust_lines_ok : represents ledger_key_text trust_line_rows (of_type TypeTrustline s) (t_trust_lines t);
  balances_ok : represents balance_key balance_row (of_type TypeClaimableBalance s) (t_balances t);
  signers_ok : signers_follow (of_type TypeAccount s) (t_signers t);
  asset_stats_ok : stats_follow (mine TypeTrustline fut) (of_type TypeTrustline s) (t_asset_stats t) }.

(** The dates by which [AccountChangedExceptSigners] knows the accounts that a
    ledger changes; an archive only creates accounts. *)
Definition dated (seq : Z) (s : rows) (cs : list Change) : Prop :=
  let cs := mine TypeAccount cs in
  (∀ c, c ∈ cs → Pre c = None) ∨
  (Z.of_nat (length cs) ≤ maxBatchSize ∧ (∀ k e, of_type TypeAccount s !! k = Some e → LastModifiedLedgerSeq e ≠ seq) ∧
   ∀ c e, c ∈ cs → Post c = Some e → LastModifiedLedgerSeq e = seq).

(** The invariant of a run that has the changes [cs] before it. *)
Definition asset_stats_run (cs fut : list Change) (s : rows) (p : AssetStats_state) : Prop :=
  match p with
  | AssetStats_cached p =>
      processing (ChangeProcessor0 := AssetStatsProcessor) ok stats_follow (mine TypeTrustline (cs ++ fut)) (of_type TypeTrustline s) p
  | AssetStats_insert_only set t => t = ∅ ∧ deltas ∅ (of_type TypeTrustline s) set ∧
      Z.of_nat (size (of_type TypeTrustline s) + length (mine TypeTrustline (cs ++ fut))) < 2 ^ 31 ∧ Forall (λ c, Pre c = None) cs
  end.
Definition signers_run (cs fut : list Change) (s : rows) (p : Signers_state) : Prop :=
  match p with
  | Signers_cached p =>
      processing (ChangeProcessor0 := SignersProcessor) ok (λ _, signers_follow) (mine TypeAccount (cs ++ fut)) (of_type TypeAccount s) p
  | Signers_insert_only p => signers_inserting (of_type TypeAccount s) p ∧ Forall (λ c, Pre c = None) cs
  end.
Record group_run (seq : Z) (cs fut : list Change) (s : rows) (g : groupChangeProcessors) : Prop := {
  run_accounts : processing (ChangeProcessor0 := AccountsProcessor AccountEntry_MarshalBinary) ok (accounts_follow seq)
    (mine TypeAccount cs) (of_type TypeAccount s) (g_accounts g);
  run_data : processing (ChangeProcessor0 := AccountDataProcessor) ok (λ _, represents data_key data_rows)
    (mine TypeData (cs ++ fut)) (of_type TypeData s) (g_data g);
  run_offers : processing (ChangeProcessor0 := OffersProcessor seq) ok offers_follow
    (mine TypeOffer (cs ++ fut)) (of_type TypeOffer s) (g_offers g);
  run_trust_lines : processing (ChangeProcessor0 := TrustLinesProcessor) ok (λ _, represents ledger_key_text trust_line_rows)
    (mine TypeTrustline (cs ++ fut)) (of_type TypeTrustline s) (g_trust_lines g);
  run_balances : processing (ChangeProcessor0 := ClaimableBalancesProcessor) ok (λ _, represents balance_key balance_row)
    (mine TypeClaimableBalance (cs ++ fut)) (of_type TypeClaimableBalance s) (g_balances g);
  run_signers : signers_run cs fut s (g_signers g);
  run_asset_stats : asset_stats_run cs fut s (g_asset_stats g) }.

Lemma Stats_ProcessChange_total r c : is_Some (change_key MarshalBinaryBase64 c) → ∃ r', Stats_ProcessChange r c = Ret r'.
Proof.
  intros [k Hk]. unfold Stats_ProcessChange, LedgerEntryChangeType_of. unfold change_key in Hk. destruct r.
  destruct (Pre c), (Post c); simpl; [by eexists..|done].
Qed.

Lemma size_of_type_step ty s s' c :
  change_wf ok c → apply_exact s c = Some s' →
  (size (of_type ty s') + length (mine ty []) ≤ size (of_type ty s) + length (mine ty [c]))%nat.
Proof.
  intros Hw Ha. pose proof (apply_exact_type ok ty s c s' Hw Ha) as Ht. rewrite filter_cons. case_decide.
  - assert (apply_exacts (of_type ty s) [c] = Some (of_type ty s')) as Ha' by (simpl; by rewrite Ht).
    apply apply_exacts_size in Ha'. simpl in *. lia.
  - rewrite Ht. simpl. lia.
Qed.

Lemma asset_stats_step cs fut s s' p c :
  asset_stats_run (c :: cs) fut s p → keyed ok s → change_wf ok c → apply_exact s c = Some s' →
  ∃ p', AssetStats_ProcessChange p c = Ret p' ∧ asset_stats_run cs fut s' p'.
Proof.
  intros Hr Hk Hw Ha. destruct p as [p|set t]; simpl in *.
  - destruct (ProcessChange_next (ChangeProcessor0 := AssetStatsProcessor) ok stats_follow stats_follow (cs ++ fut) s s' p c)
      as (p' & -> & Hp'); [done..|]. by eexists.
  - destruct Hr as (-> & HD & Hsz & Hpre). apply Forall_cons in Hpre as [Hpc Hpre].
    destruct (Stats_InsertOnly_change names ∅ s s' set c) as (set' & -> & HD'); [done..|]. eexists. split; [done|].
    split_and!; [done..| |done]. pose proof (size_of_type_step TypeTrustline s s' c Hw Ha) as H1.
    rewrite (filter_app _ [c] (cs ++ fut) : mine TypeTrustline (c :: cs ++ fut) = _), length_app in Hsz. simpl in *. lia.
Qed.

Lemma signers_run_step cs fut s s' p c :
  signers_run (c :: cs) fut s p → keyed ok s → change_wf ok c → apply_exact s c = Some s' →
  ∃ p', Signers_ProcessChange p c = Ret p' ∧ signers_run cs fut s' p'.
Proof.
  intros Hr Hk Hw Ha. destruct p as [p|p]; simpl in *.
  - destruct (ProcessChange_next (ChangeProcessor0 := SignersProcessor) ok (λ _, signers_follow) (λ _, signers_follow) (cs ++ fut) s s' p c)
      as (p' & -> & Hp'); [done..|]. by eexists.
  - destruct Hr as [HI Hpre]. apply Forall_cons in Hpre as [Hpc Hpre].
    destruct (InsertOnly_ProcessChange_follows names s s' p c) as (p' & -> & HI'); [done..|]. by eexists.
Qed.

Lemma group_step seq cs fut s s' g c :
  group_run seq (c :: cs) fut s g → keyed ok s → change_wf ok c → apply_exact s c = Some s' →
  ∃ g', group_ProcessChange AccountEntry_MarshalBinary seq g c = Ret g' ∧ group_run seq cs fut s' g'.
Proof.
  intros [R1 R2 R3 R4 R5 R6 R7] Hk Hw Ha. destruct (apply_exact_inv _ _ _ Ha) as (k & Hck & _).
  unfold group_ProcessChange.
  destruct (Stats_ProcessChange_total (g_stats g) c) as (st & ->); [by eexists|].
  destruct (ProcessChange_next (ChangeProcessor0 := AccountDataProcessor) ok _ _ (cs ++ fut) s s' _ c R2) as (p2 & -> & H2); [done..|].
  destruct (ProcessChange_next (ChangeProcessor0 := AccountsProcessor AccountEntry_MarshalBinary) ok _ _ cs s s' _ c R1) as (p1 & -> & H1); [done..|].
  destruct (ProcessChange_next (ChangeProcessor0 := OffersProcessor seq) ok _ _ (cs ++ fut) s s' _ c R3) as (p3 & -> & H3); [done..|].
  destruct (asset_stats_step cs fut s s' _ c R7) as (p7 & -> & H7); [done..|].
  destruct (signers_run_step cs fut s s' _ c R6) as (p6 & -> & H6); [done..|].
  destruct (ProcessChange_next (ChangeProcessor0 := TrustLinesProcessor) ok _ _ (cs ++ fut) s s' _ c R4) as (p4 & -> & H4); [done..|].
  destruct (ProcessChange_next (ChangeProcessor0 := ClaimableBalancesProcessor) ok _ _ (cs ++ fut) s s' _ c R5) as (p5 & -> & H5); [done..|].
  eexists. split; [done|]. by split.
Qed.

Lemma group_StreamChanges_run seq cs fut s s' g :
  group_run seq cs fut s g → keyed ok s → Forall (change_wf ok) cs → apply_exacts s cs = Some s' →
  ∃ g', group_StreamChanges AccountEntry_MarshalBinary seq g (Ret <$> cs) = Ret g' ∧ group_run seq [] fut s' g'.
Proof.
  revert s g. induction cs as [|c cs IH]; intros s g Hr Hk Hw Ha; simpl in Ha; [injection Ha as <-; by exists g|].
  apply Forall_cons in Hw as [Hwc Hw]. destruct (apply_exact s c) as [s1|] eqn:E; [|done].
  destruct (group_step seq cs fut s s1 g c) as (g1 & Hg1 & Hr1); [done..|].
  unfold group_StreamChanges. rewrite fmap_cons. cbn [mfold map_fail]. outcome_simpl. rewrite Hg1. cbn [map_fail outcome_bind].
  apply (IH s1 g1); try done. by eapply apply_exact_keyed.
Qed.

(** *** The end of a run *)
Lemma asset_stats_commit fut s p :
  asset_stats_run [] fut s p → ∃ t, AssetStats_Commit p = Ret t ∧ stats_follow (mine TypeTrustline fut) (of_type TypeTrustline s) t.
Proof.
  destruct p as [p|set t]; simpl.
  - intros Hp. by apply (Commit_after (ChangeProcessor0 := AssetStatsProcessor) ok stats_follow stats_follow).
  - intros (-> & HD & Hsz & _). destruct (Stats_InsertOnly_Commit_follows (of_type TypeTrustline s) set HD) as (t & -> & Ht); [lia|].
    exists t. by split_and!.
Qed.

Lemma signers_commit fut s p : signers_run [] fut s p → ∃ t, Signers_Commit p = Ret t ∧ signers_follow (of_type TypeAccount s) t.
Proof.
  destruct p as [p|p]; simpl.
  - intros Hp. by apply (Commit_after (ChangeProcessor0 := SignersProcessor) ok (λ _, signers_follow) (λ _, signers_follow) _ _ _ Hp).
  - intros [HI _]. by apply InsertOnly_Commit_follows.
Qed.

Lemma group_Commit_follows seq fut s g :
  group_run seq [] fut s g → ∃ t, group_Commit AccountEntry_MarshalBinary seq g = Ret t ∧ tables_follow fut s t.
Proof.
  intros [R1 R2 R3 R4 R5 R6 R7]. unfold group_Commit.
  destruct (Commit_after (ChangeProcessor0 := AccountDataProcessor) ok _ _ _ _ _ R2) as (t2 & -> & H2).
  destruct (Commit_after (ChangeProcessor0 := AccountsProcessor AccountEntry_MarshalBinary) ok _ _ _ _ _ R1) as (t1 & -> & H1).
  destruct (Commit_after (ChangeProcessor0 := OffersProcessor seq) ok _ _ _ _ _ R3) as (t3 & -> & H3).
  destruct (asset_stats_commit fut s _ R7) as (t7 & -> & H7).
  destruct (signers_commit fut s _ R6) as (t6 & -> & H6).
  destruct (Commit_after (ChangeProcessor0 := TrustLinesProcessor) ok _ _ _ _ _ R4) as (t4 & -> & H4).
  destruct (Commit_after (ChangeProcessor0 := ClaimableBalancesProcessor) ok _ _ _ _ _ R5) as (t5 & -> & H5).
  eexists. split; [done|]. by split.
Qed.

(** *** The start of a run: on a ledger, or on an archive with empty tables *)
Lemma group_start_ledger seq cs fut s t :
  tables_follow (cs ++ fut) s t → keyed ok s → dated seq s cs → group_run seq cs fut s (buildChangeProcessor true t).
Proof.
  intros [H1 H2 H3 H4 H5 H6 H7] Hk Hd. split; simpl.
  all: apply processing_start; try done; try by apply of_type_keyed. all: try apply of_type_all.
Qed.

Lemma represents_empty {Kt R} `{Countable Kt} (kof : LedgerEntry → Kt) (row : LedgerEntry → R) : represents kof row ∅ ∅.
Proof. split; intros ? ? Hx; by rewrite lookup_empty in Hx. Qed.

Lemma offers_archive cs n :
  NoDup (created_ids cs) → offers_follow cs ∅ (MkOfferTable ∅ n).
Proof.
  intros Hn. split_and!; [|done|by intros q _]. unfold live. cbn [offer_rows]. rewrite map_filter_empty. apply represents_empty.
Qed.

Lemma of_type_empty ty : of_type ty ∅ = ∅.
Proof. apply map_filter_empty. Qed.

Lemma keyed_empty : keyed ok ∅.
Proof. intros k e Hx. by rewrite lookup_empty in Hx. Qed.

Lemma group_start_archive seq cs fut n :
  Forall (λ c, Pre c = None) cs → NoDup (created_ids (mine TypeOffer (cs ++ fut))) →
  Z.of_nat (length (mine TypeTrustline (cs ++ fut))) < 2 ^ 31 →
  group_run seq cs fut ∅ (buildChangeProcessor false (MkTables ∅ ∅ (MkOfferTable ∅ n) ∅ ∅ ∅ ∅)).
Proof.
  intros Hp Hn Hsz. split; simpl.
  - apply processing_start; rewrite ?of_type_empty; [|apply keyed_empty|by intros ? ? Hx; rewrite lookup_empty in Hx].
    split; [apply represents_empty|]. left. intros c [_ Hc]%list_elem_of_filter. rewrite Forall_forall in Hp. by apply Hp.
  - apply processing_start; rewrite ?of_type_empty; [apply represents_empty|apply keyed_empty|by intros ? ? Hx; rewrite lookup_empty in Hx].
  - apply processing_start; rewrite ?of_type_empty; [by apply offers_archive|apply keyed_empty|by intros ? ? Hx; rewrite lookup_empty in Hx].
  - apply processing_start; rewrite ?of_type_empty; [apply represents_empty|apply keyed_empty|by intros ? ? Hx; rewrite lookup_empty in Hx].
  - apply processing_start; rewrite ?of_type_empty; [apply represents_empty|apply keyed_empty|by intros ? ? Hx; rewrite lookup_empty in Hx].
  - split; [|done]. rewrite of_type_empty. split; [split; [constructor|by intros ? ?%elem_of_nil]|]. simpl. split.
    + intros ? ? Hx. by rewrite lookup_empty in Hx.
    + intros a x Hx. rewrite lookup_empty in Hx. by destruct Hx.
  - rewrite of_type_empty. split_and!; [done| |by rewrite map_size_empty|done].
    intros q. unfold stat_value. by rewrite !Z.sub_diag.
Qed.
End follow.

(** ** Runs *)

(** [TruncateExpingestStateTables] of db2/history/ingestion.go. *)
Definition TruncateExpingestStateTables (t : Tables) : Tables :=
  MkTables ∅ ∅ (MkOfferTable ∅ (offer_compaction_sequence (t_offers t))) ∅ ∅ ∅ ∅.

Section runs.
Context `{NW : Network} `{LS : LedgerSources} `{LC : LedgerCache} `{SO : SignerOrder} `{TO : StatsOrder} (names : Names).
Context (AccountEntry_MarshalBinary : AccountEntry → option (list Z)).
Abbreviation ok := (named names).
Abbreviation mine ty := (filter (λ c, Change_Type c = ty)).
Abbreviation archive := (RunHistoryArchiveIngestion AccountEntry_MarshalBinary).

(** The ledgers after a checkpoint. *)
Definition RunLedgers (sequences : list Z) (t : Tables) : outcome runner_error Tables :=
  mfold (λ t seq, r ← RunChangesOnLedger AccountEntry_MarshalBinary seq t; Ret r.2) t sequences.

(** The backend has a ledger, in a version that is supported, and the changes in
    its meta are [cs]. *)
Definition supported (seq : Z) (ledgerCloseMeta : LedgerCloseMeta) : Prop :=
  GetLedger seq = Some (Some ledgerCloseMeta) ∧
  LedgerVersion (Header (LedgerHeaderEntry ledgerCloseMeta)) ≤ MaxSupportedProtocolVersion.
Definition ledger_has (seq : Z) (cs : list Change) : Prop :=
  ∃ ledgerCloseMeta, supported seq ledgerCloseMeta ∧ ledger_changes ledgerCloseMeta = Ret (Ret <$> cs).

(** The network closes the ledgers [ls], with their changes, on the entries [s],
    and has the entries [s'] then. *)
Inductive closes : rows → list (Z * list Change) → rows → Prop :=
  | closes_nil s : closes s [] s
  | closes_cons s seq cs s1 ls s' :
      ledger_has seq cs → Forall (change_wf ok) cs → dated seq s cs → apply_exacts s cs = Some s1 → closes s1 ls s' →
      closes s ((seq, cs) :: ls) s'.

Lemma run_group_follows seq cached cs fut s s' t :
  group_run names AccountEntry_MarshalBinary seq cs fut s (buildChangeProcessor cached t) → keyed ok s →
  Forall (change_wf ok) cs → apply_exacts s cs = Some s' →
  ∃ stats t', run_group AccountEntry_MarshalBinary seq cached (Ret <$> cs) t = Ret (stats, t') ∧ tables_follow fut s' t'.
Proof.
  intros Hr Hk Hw Ha. unfold run_group.
  destruct (group_StreamChanges_run names AccountEntry_MarshalBinary seq cs fut s s' _ Hr Hk Hw Ha) as (g & -> & Hg).
  destruct (group_Commit_follows names AccountEntry_MarshalBinary seq fut s' g Hg) as (t' & Ht' & Hf).
  outcome_simpl. rewrite Ht'. by eexists _, _.
Qed.

Lemma supported_check seq lcm : supported seq lcm → checkIfProtocolVersionSupported seq = Ret tt.
Proof.
  intros [Hg Hv]. unfold checkIfProtocolVersionSupported, must_get_ledger. rewrite Hg. outcome_simpl.
  by rewrite (proj2 (Z.ltb_ge _ _) Hv).
Qed.

Lemma apply_exacts_keyed cs s s' : keyed ok s → Forall (change_wf ok) cs → apply_exacts s cs = Some s' → keyed ok s'.
Proof.
  revert s. induction cs as [|c cs IH]; intros s Hk Hw Ha; simpl in *; [by injection Ha as <-|].
  apply Forall_cons in Hw as [Hwc Hw]. destruct (apply_exact s c) as [s1|] eqn:E; [|done].
  apply (IH s1); try done. by eapply apply_exact_keyed.
Qed.

Lemma closes_keyed s ls s' : closes s ls s' → keyed ok s → keyed ok s'.
Proof. induction 1 as [|s seq cs s1 ls s' _ Hw _ Ha _ IH]; [done|]. intros Hk. apply IH. by eapply apply_exacts_keyed. Qed.

Lemma RunLedgers_follows s ls s' fut t :
  closes s ls s' → keyed ok s → tables_follow (concat ls.*2 ++ fut) s t →
  ∃ t', RunLedgers ls.*1 t = Ret t' ∧ tables_follow fut s' t'.
Proof.
  intros Hc. revert t. induction Hc as [s|s seq cs s1 ls s' Hs Hw Hd Ha _ IH]; intros t Hk Hf; [by exists t|].
  simpl in Hf. rewrite <- app_assoc in Hf. unfold RunLedgers. cbn [mfold fmap list_fmap fst].
  destruct (run_group_follows seq true cs (concat ls.*2 ++ fut) s s1 t) as (stats & t1 & H1 & Hf1); [|done..|].
  { by apply group_start_ledger. }
  destruct Hs as (lcm & Hs & Hcs). unfold RunChangesOnLedger. rewrite (supported_check _ _ Hs). outcome_simpl.
  unfold runChangeProcessorOnLedger, must_get_ledger. rewrite (proj1 Hs). outcome_simpl. rewrite Hcs. cbn [map_fail outcome_bind].
  rewrite H1. cbn [outcome_bind snd]. apply IH; [by eapply apply_exacts_keyed|done].
Qed.

(** The entries that an archive has at a checkpoint, and the hash of its bucket
    list is that of the ledger; the first ledger needs no archive. *)
Definition archive_has (checkpoint : Z) (cs : list Change) : Prop :=
  if checkpoint =? 1 then cs = [genesis_change] else
  ∃ ledgerCloseMeta, supported checkpoint ledgerCloseMeta ∧
    BucketListHash checkpoint = Some (Header_BucketListHash (Header (LedgerHeaderEntry ledgerCloseMeta))) ∧
    GetState checkpoint = Some (Ret <$> cs).

Lemma RunHistoryArchiveIngestion_follows checkpoint cs fut s t :
  archive_has checkpoint cs →
  Forall (change_wf ok) cs → Forall (λ c, Pre c = None) cs → apply_exacts ∅ cs = Some s →
  NoDup (created_ids (mine TypeOffer (cs ++ fut))) → Z.of_nat (length (mine TypeTrustline (cs ++ fut))) < 2 ^ 31 →
  ∃ stats t', archive checkpoint (TruncateExpingestStateTables t) = Ret (stats, t') ∧ tables_follow fut s t'.
Proof.
  intros Hr Hw Hp Ha Hn Hsz. unfold RunHistoryArchiveIngestion.
  destruct (run_group_follows checkpoint false cs fut ∅ s (TruncateExpingestStateTables t)) as (stats & t' & H & Hf);
    [by apply group_start_archive|apply keyed_empty|done..|]. exists stats, t'. split; [|done].
  rewrite <- H. unfold archive_has in Hr. destruct (checkpoint =? 1); [by rewrite Hr|].
  destruct Hr as (lcm & Hs & Hb & Hg). rewrite (supported_check _ _ Hs). outcome_simpl.
  unfold validateBucketList, must_get_ledger. rewrite Hb, (proj1 Hs). outcome_simpl. rewrite bool_decide_true by done.
  outcome_simpl. by rewrite Hg.
Qed.

End runs.

(** *** An example: an archive with an account and a trust line, and a ledger *)
Module Example_run.
Definition alice : AccountId := MkAccountId (replicate 32 1).
Definition issuer : AccountId := MkAccountId (replicate 32 2).
Definition usd : Asset := AssetTypeCreditAlphanum4 [85; 83; 68; 0] issuer.
(** Keys are written as their position in a list. *)
Definition keys : list LedgerKey :=
  [LedgerEntryTypeAccount alice; LedgerEntryTypeTrustline alice usd; LedgerEntryTypeOffer alice 7; LedgerEntryTypeOffer issuer 7].
#[local] Instance cache : LedgerCache.
Proof.
  refine {| MarshalBinaryBase64 k := (λ x, [Z.of_nat x.1]) <$> list_find (λ k', k = k') keys; iterate := map_to_list |}; [|done].
  intros k1 k2 s ([i k] & H1 & ->)%fmap_Some ([i' k'] & H2 & Hs)%fmap_Some. injection Hs as Hs%Nat2Z.inj. simpl in Hs. subst i'.
  apply list_find_Some in H1 as (H1 & -> & _), H2 as (H2 & -> & _). congruence.
Defined.
#[local] Instance signer_order : SignerOrder := {| range_signers := map_to_list; range_signers_perm m := reflexivity _ |}.
#[local] Instance stats_order : StatsOrder := {| range_stats := map_to_list; range_stats_perm m := reflexivity _ |}.

Definition account (seq balance : Z) : LedgerEntry :=
  MkEntry seq (DataAccount (MkAccount alice balance 7 1 None 0 [] (MkThresholds 1 0 0 0)
    [MkSigner (SignerKeyTypeHashX (replicate 32 5)) 2] None)) None.
Definition line (seq balance : Z) : LedgerEntry := MkEntry seq (DataTrustLine (MkTrustLine alice usd balance 1000 1 None)) None.
Definition offer (seq : Z) : LedgerEntry :=
  MkEntry seq (DataOffer (MkOffer alice 7 usd AssetTypeNative 10 (Price.MkPrice 1 2) 0)) None.
Definition archived : list Change :=
  [MkChange TypeAccount None (Some (account 60 500)); MkChange TypeTrustline None (Some (line 61 100))].
Definition ledger_64 : list Change :=
  [MkChange TypeAccount (Some (account 60 500)) (Some (account 64 400));
   MkChange TypeTrustline (Some (line 61 100)) (Some (line 64 150)); MkChange TypeOffer None (Some (offer 64))].
Definition entries : rows := default ∅ (apply_exacts ∅ archived).
Definition entries' : rows := default ∅ (apply_exacts entries ledger_64).
Definition names : Names := {| seller_of _ := alice; contents_of _ := ([], AssetTypeNative, 0) |}.
#[local] Instance network : Network := {|
  sha256 x := x; MarshalPayload _ _ := Some [1]; NetworkPassphrase := [65]; MasterKey := alice |}.
(** The first change is a fee. *)
Definition transaction : TransactionResultMeta :=
  MkResultMeta (MkResultPair [1] 100 (TxSuccess [])) [LedgerEntryState (account 60 500); LedgerEntryUpdated (account 64 400)]
    (MetaV2 [] [[LedgerEntryState (line 61 100); LedgerEntryUpdated (line 64 150); LedgerEntryCreated (offer 64)]] []).
Definition ledger (seq : Z) : LedgerCloseMeta :=
  MkCloseMeta (MkHistoryEntry [] (MkHeader 15 [] 0 [1; 2; 3] seq 0 0 100 0 0))
    (if seq =? 64 then [EnvelopeTypeTx (MkTransaction (KeyTypeEd25519 (Ed25519 alice)) 100 8 None MemoNone []) []] else [])
    (if seq =? 64 then [transaction] else []) [].
#[local] Instance sources : LedgerSources := {|
  GetLedger seq := Some (Some (ledger seq)); BucketListHash _ := Some [1; 2; 3]; GetState _ := Some (Ret <$> archived) |}.
Lemma archive_has_archived : archive_has 63 archived.
Proof. by exists (ledger 63). Qed.
Lemma ledger_has_64 : ledger_has 64 ledger_64.
Proof. exists (ledger 64). split; [done|]. vm_compute. reflexivity. Qed.

Ltac wf_key := split; [done|repeat (apply Forall_cons; split; [done|])]; apply Forall_nil; exact I.
Lemma alice_wf : wf_account alice.
Proof. wf_key. Qed.
Lemma issuer_wf : wf_account issuer.
Proof. wf_key. Qed.

Lemma account_named seq balance : named names (account seq balance).
Proof.
  split; [|by vm_compute; eexists]. split; [by intros a [=]|]. split; try done.
  - apply alice_wf.
  - apply Forall_cons. split; [wf_key|done].
  - apply SSorted_cons; constructor.
  - intros Hin. apply list_elem_of_singleton in Hin. vm_compute in Hin. done.
  - by apply Forall_cons.
  - apply Forall_cons. split; [by intros a [=]|done].
Qed.

Lemma line_named seq balance : 0 ≤ balance < 2 ^ 63 → named names (line seq balance).
Proof.
  intros Hb. split; [|by vm_compute; eexists]. split; [by intros a [=]|]. split; [apply alice_wf|].
  split; [|split; [done|exact Hb]]. split; [|apply issuer_wf]. exists [85; 83; 68].
  split_and!; [done|simpl; lia..|by repeat (apply Forall_cons; split)].
Qed.

Lemma offer_named seq : named names (offer seq).
Proof. split; [|by vm_compute; eexists]. split; [by intros a [=]|]. split; [apply alice_wf|done]. Qed.

Lemma change_named ty pre post :
  change_ok (MkChange ty pre post) →
  (∀ e, pre = Some e ∨ post = Some e → named names e ∧ data_type (Data e) = ty) → change_wf (named names) (MkChange ty pre post).
Proof. intros Ho He. by apply change_wf_intro. Qed.

Lemma archived_wf : Forall (change_wf (named names)) archived.
Proof.
  repeat (apply Forall_cons; split); try done; apply change_named; try done; intros e [[=]|[= <-]]; (split; [|done]).
  - apply account_named.
  - by apply line_named.
Qed.

Lemma ledger_64_wf : Forall (change_wf (named names)) ledger_64.
Proof.
  repeat (apply Forall_cons; split); try done; apply change_named; try done; intros e [[= <-]|[= <-]]; (split; [|done]);
    (apply account_named || by apply line_named || apply offer_named).
Qed.

Lemma ledger_64_dated : dated 64 entries ledger_64.
Proof.
  right. split_and!; [by vm_compute| |].
  - assert (map_Forall (λ _ e, LastModifiedLedgerSeq e ≠ 64) (of_type TypeAccount entries)) as H.
    { apply (bool_decide_eq_true_1 _). vm_compute. reflexivity. }
    exact H.
  - intros c e [Hty Hc]%list_elem_of_filter. unfold ledger_64 in Hc. rewrite !elem_of_cons in Hc.
    destruct Hc as [->|[->|[->|?%elem_of_nil]]]; simpl in *; try done; by intros [= <-].
Qed.
End Example_run.
#[local] Existing Instances Example_run.network Example_run.sources.
#[local] Existing Instances Example_run.cache Example_run.signer_order Example_run.stats_order.

