(* ===== verification/HistoryRunner.v ===== *)
(** * aurora: running the processors of transactions

    Models the side of [processor_runner.go] and [group_processors.go] of
    [src/services/aurora/internal/ingest] that writes the history of a ledger,
    with [DeleteRangeAll] of [db2/history/main.go], which takes it back.  The
    rows of a ledger are shown to be the ones its transactions give, each under
    an id that belongs to the ledger. *)

From S2P Require Import Prelude Toid Xdr LedgerEntry ChangeCache HistoryTables Transaction LedgerReaders Operations Effects HistoryRows.
From S2P Require Import ChangeProcessor TransactionProcessors OperationTypes LedgerHistory SignersProcessor AssetStats ProcessorRunner.

(** ingest/main.go *)
Definition CurrentVersion : Z := 12.

Inductive run_error :=
  | ErrRunner (e : runner_error)
  | ErrReader (e : reader_error)
  | ErrTransaction (e : tx_error)
  | ErrRange (e : toid_error).

(** ** group_processors.go *)
Record groupTransactionProcessors := MkTxGroup {
  tg_stats : TransactionStats;
  tg_effects : list effect;
  tg_ledgers : LedgersProcessor;
  tg_operations : list OperationRow * gmap Z OperationRow;
  tg_trades : TradeProcessor;
  tg_participants : participants;
  tg_transactions : list TransactionRow * gmap Z TransactionRow }.

Section group.
Context `{XT : XdrText} (ledger : LedgerHeaderHistoryEntry).
Abbreviation sequence := (LedgerSeq (Header ledger)).

Definition group_ProcessTransaction (g : groupTransactionProcessors) (tx : LedgerTransaction)
  : outcome tx_error groupTransactionProcessors :=
  let stats := TransactionStats_ProcessTransaction (tg_stats g) tx in
  effects ← Effects_ProcessTransaction sequence tx (tg_effects g);
  let ledgers := Ledgers_ProcessTransaction tx (tg_ledgers g) in
  operations ← Operations_ProcessTransaction sequence tx (tg_operations g);
  trades ← Trades_ProcessTransaction ledger tx (tg_trades g);
  participants ← Participants_ProcessTransaction sequence tx (tg_participants g);
  transactions ← Transactions_ProcessTransaction sequence tx (tg_transactions g);
  Ret (MkTxGroup stats effects ledgers operations trades participants transactions).

(** The rows that wait in the processors of operations and of transactions go
    into the tables as they were left. *)
Definition tx_group_Commit (g : groupTransactionProcessors) (db : HistoryDB) : outcome tx_error HistoryDB :=
  db ← Effects_Commit (tg_effects g) db;
  db ← Ledgers_Commit ledger CurrentVersion (tg_ledgers g) db;
  t ← insert_batch opr_ID (tg_operations g).1 (tg_operations g).2;
  let db := set_operations t db in
  db ← Trades_Commit (tg_trades g) db;
  db ← Participants_Commit (tg_participants g) db;
  t ← insert_batch txr_ID (tg_transactions g).1 (tg_transactions g).2;
  Ret (set_transactions t db).

(** ** processor_runner.go *)
Definition buildTransactionProcessor (db : HistoryDB) : groupTransactionProcessors :=
  MkTxGroup NewTransactionStats [] NewLedgerProcessor ([], history_operations db) NewTradeProcessor ∅ ([], history_transactions db).
(** [io.StreamLedgerTransactions] *)
Definition StreamLedgerTransactions (g : groupTransactionProcessors) (reader : list LedgerTransaction)
  : outcome tx_error groupTransactionProcessors :=
  mfold group_ProcessTransaction g reader.
End group.

Section runner.
Context `{XT : XdrText} `{NW : Network} `{LS : LedgerSources}.

Definition RunTransactionProcessorsOnLedger (ledger : Z) (db : HistoryDB) : outcome run_error (TransactionStats * HistoryDB) :=
  lcm ← map_fail ErrRunner (must_get_ledger ledger);
  transactionReader ← map_fail ErrReader (NewLedgerTransactionReader lcm);
  _ ← map_fail ErrRunner (checkIfProtocolVersionSupported ledger);
  let header := GetHeader transactionReader in
  g ← map_fail ErrTransaction
    (StreamLedgerTransactions header (buildTransactionProcessor db) (transactions transactionReader));
  db ← map_fail ErrTransaction (tx_group_Commit header g db);
  Ret (tg_stats g, db).
End runner.

(** Both kinds of processors, on a ledger. *)
Definition RunAllProcessorsOnLedger `{XT : XdrText} `{NW : Network} `{LS : LedgerSources} `{LC : LedgerCache} `{SO : SignerOrder}
    `{TO : StatsOrder} (AccountEntry_MarshalBinary : AccountEntry → option (list Z)) (sequence : Z) (t : Tables) (db : HistoryDB)
  : outcome run_error (StatsChangeProcessorResults * TransactionStats * Tables * HistoryDB) :=
  '(changeStats, t) ← map_fail ErrRunner (RunChangesOnLedger AccountEntry_MarshalBinary sequence t);
  '(transactionStats, db) ← RunTransactionProcessorsOnLedger sequence db;
  Ret (changeStats, transactionStats, t, db).

(** ** db2/history/main.go *)

(** [DeleteRange] of a table, by the column that has the id. *)
Definition DeleteRange {K R} `{Countable K} (start stop : Z) (id : K → Z) (t : gmap K R) : gmap K R :=
  filter (λ kr, ¬ (start ≤ id kr.1 < stop)) t.
Definition DeleteRangeAll (start stop : Z) (db : HistoryDB) : HistoryDB :=
  let db := set_effects (DeleteRange start stop fst (history_effects db)) db in
  let db := set_operation_participants (DeleteRange start stop fst (history_operation_participants db)) db in
  let db := set_operations (DeleteRange start stop id (history_operations db)) db in
  let db := set_transaction_participants (DeleteRange start stop fst (history_transaction_participants db)) db in
  let db := set_transactions (DeleteRange start stop id (history_transactions db)) db in
  let db := set_ledgers (DeleteRange start stop id (history_ledgers db)) db in
  set_trades (DeleteRange start stop fst (history_trades db)) db.

(** fsm.go: [ingestRange] of [reingestHistoryRangeState] *)
Definition ingestRange `{XT : XdrText} `{NW : Network} `{LS : LedgerSources} (fromLedger toLedger : Z) (db : HistoryDB)
  : outcome run_error HistoryDB :=
  '(start, stop) ← map_fail ErrRange (LedgerRangeInclusive (i32 fromLedger) (i32 toLedger));
  mfold (λ db cur, r ← RunTransactionProcessorsOnLedger cur db; Ret r.2) (DeleteRangeAll start stop db)
    (seqZ fromLedger (toLedger - fromLedger + 1)).

(** ** The group *)

Section group_run.
Context `{XT : XdrText} (ledger : LedgerHeaderHistoryEntry).
Abbreviation sequence := (LedgerSeq (Header ledger)).

(** The group runs its processors side by side. *)
Lemma stream_group txs g effects operations trades participants transactions :
  mfold (λ s tx, Effects_ProcessTransaction sequence tx s) (tg_effects g) txs = Ret effects →
  mfold (λ s tx, Operations_ProcessTransaction sequence tx s) (tg_operations g) txs = Ret operations →
  mfold (λ s tx, Trades_ProcessTransaction ledger tx s) (tg_trades g) txs = Ret trades →
  mfold (λ s tx, Participants_ProcessTransaction sequence tx s) (tg_participants g) txs = Ret participants →
  mfold (λ s tx, Transactions_ProcessTransaction sequence tx s) (tg_transactions g) txs = Ret transactions →
  StreamLedgerTransactions ledger g txs =
    Ret (MkTxGroup (foldl TransactionStats_ProcessTransaction (tg_stats g) txs) effects
      (foldl (flip Ledgers_ProcessTransaction) (tg_ledgers g) txs) operations trades participants transactions).
Proof.
  unfold StreamLedgerTransactions. revert g. induction txs as [|tx txs IH]; intros g; cbn [mfold foldl].
  { intros [= <-] [= <-] [= <-] [= <-] [= <-]. by destruct g. }
  destruct (Effects_ProcessTransaction _ _ _) as [effects1|e|] eqn:E1; [|done..].
  destruct (Operations_ProcessTransaction _ _ _) as [operations1|e|] eqn:E2; [|done..].
  destruct (Trades_ProcessTransaction _ _ _) as [trades1|e|] eqn:E3; [|done..].
  destruct (Participants_ProcessTransaction _ _ _) as [participants1|e|] eqn:E4; [|done..].
  destruct (Transactions_ProcessTransaction _ _ _) as [transactions1|e|] eqn:E5; [|done..]. cbn [outcome_bind].
  assert (group_ProcessTransaction ledger g tx = Ret (MkTxGroup (TransactionStats_ProcessTransaction (tg_stats g) tx) effects1
    (Ledgers_ProcessTransaction tx (tg_ledgers g)) operations1 trades1 participants1 transactions1)) as ->.
  { unfold group_ProcessTransaction. by rewrite E1, E2, E3, E4, E5. }
  cbn [outcome_bind]. intros H1 H2 H3 H4 H5. by rewrite (IH (MkTxGroup _ effects1 _ operations1 trades1 participants1 transactions1)).
Qed.

Lemma stream_operations txs rows (t : gmap Z OperationRow) :
  mmap operation_row (ledger_operations ledger txs) = Ret rows → NoDup (opr_ID <$> rows) → (∀ r, r ∈ rows → t !! opr_ID r = None) →
  ∃ batch t', mfold (λ s tx, Operations_ProcessTransaction sequence tx s) ([], t) txs = Ret (batch, t') ∧
    insert_batch opr_ID batch t' = Ret (put opr_ID rows t).
Proof.
  intros Hr Hn Hf. destruct (add_rows opr_ID operation_row _ rows [] t Hr) as (batch & t' & Hm & Hw & Hp);
    [split; [constructor|by intros ? ?%elem_of_nil]|done..|].
  exists batch, t'. split.
  - rewrite <- Hm. unfold ledger_operations. rewrite <- mfold_concat, mfold_fmap. done.
  - unfold insert_batch. rewrite insert_waiting by done. by rewrite Hp.
Qed.

Lemma stream_transactions txs rows (t : gmap Z TransactionRow) :
  mmap (λ tx, transactionToRow tx sequence) txs = Ret rows → NoDup (txr_ID <$> rows) → (∀ r, r ∈ rows → t !! txr_ID r = None) →
  ∃ batch t', mfold (λ s tx, Transactions_ProcessTransaction sequence tx s) ([], t) txs = Ret (batch, t') ∧
    insert_batch txr_ID batch t' = Ret (put txr_ID rows t).
Proof.
  intros Hr Hn Hf. destruct (add_rows txr_ID _ _ rows [] t Hr) as (batch & t' & Hm & Hw & Hp);
    [split; [constructor|by intros ? ?%elem_of_nil]|done..|].
  exists batch, t'. split; [exact Hm|]. unfold insert_batch. rewrite insert_waiting by done. by rewrite Hp.
Qed.

(** The stream ends with the history of the ledger in the processors. *)
Lemma stream_history txs h db :
  ledger_history ledger txs = Ret h → history_ok ledger txs h → fits ledger txs → Forall (transaction_typed ledger) txs →
  (∀ r, r ∈ h_operations h → history_operations db !! opr_ID r = None) →
  (∀ r, r ∈ h_transactions h → history_transactions db !! txr_ID r = None) →
  ∃ operations transactions,
    StreamLedgerTransactions ledger (buildTransactionProcessor db) txs =
      Ret (MkTxGroup (foldl TransactionStats_ProcessTransaction NewTransactionStats txs) (h_effects h)
        (foldl (flip Ledgers_ProcessTransaction) NewLedgerProcessor txs) operations
        (foldl add_trade NewTradeProcessor (h_trades h)) (h_participants h) transactions) ∧
    insert_batch opr_ID operations.1 operations.2 = Ret (put opr_ID (h_operations h) (history_operations db)) ∧
    insert_batch txr_ID transactions.1 transactions.2 = Ret (put txr_ID (h_transactions h) (history_transactions db)).
Proof.
  intros Hh Hok Hf Ht Ho Htx. unfold ledger_history in Hh.
  destruct (mmap operation_effects _) as [es|e|] eqn:E1; outcome_simpl; [|done..].
  destruct (mmap operation_row _) as [ops|e|] eqn:E2; cbn [outcome_bind] in Hh; [|done..].
  destruct (mmap (operation_trades ledger) _) as [ts|e|] eqn:E3; cbn [outcome_bind] in Hh; [|done..].
  destruct (mfold _ ∅ txs) as [s|e|] eqn:E4; cbn [outcome_bind] in Hh; [|done..].
  destruct (mmap _ txs) as [rs|e|] eqn:E5; cbn [outcome_bind] in Hh; [|done..]. injection Hh as <-.
  cbn [h_effects h_operations h_trades h_participants h_transactions] in *.
  destruct (stream_operations txs ops (history_operations db) E2) as (b1 & t1 & Hs1 & Hi1); [|done|].
  { pose proof (operations_are _ _ _ Hok) as E. cbn [h_operations] in E. rewrite E. by apply op_ids_distinct. }
  destruct (stream_transactions txs rs (history_transactions db) E5) as (b2 & t2 & Hs2 & Hi2); [|done|].
  { pose proof (transactions_are _ _ _ Hok) as E. cbn [h_transactions] in E. rewrite E. by apply tx_ids_distinct. }
  exists (b1, t1), (b2, t2). split; [|done]. apply stream_group; cbn [buildTransactionProcessor tg_effects tg_operations tg_trades tg_participants tg_transactions]; try done.
  - destruct (successful_append ledger operation_effects (λ tx, operationsEffects tx sequence) txs es) as (rs' & Hrs & Hcs);
      [intros; by apply operationsEffects_append|done|].
    unfold Effects_ProcessTransaction. rewrite (stream_successful _ app _ _ _ Hrs). by rewrite foldl_app_concat, Hcs.
  - destruct (successful_append ledger (operation_trades ledger) (extractTrades ledger) txs ts) as (rs' & Hrs & Hcs); [|done|].
    { intros tx r [Hs Htxs]%list_elem_of_filter Hr. apply extractTrades_append; [|done].
      rewrite Forall_forall in Ht. by apply (typed_results ledger tx (Ht tx Htxs)). }
    unfold Trades_ProcessTransaction. rewrite (stream_successful _ (foldl add_trade) _ _ _ Hrs). by rewrite foldl_concat, Hcs.
Qed.
End group_run.

(** ** The database after a run *)

(** *** Ranges of identifiers *)
Section delete.
Context {K R : Type} `{Countable K} (start stop : Z) (id : K → Z).

Lemma DeleteRange_absent (t : gmap K R) :
  DeleteRange start stop id t = t ↔ ∀ k, start ≤ id k < stop → t !! k = None.
Proof.
  unfold DeleteRange. split.
  - intros <- k Hk. rewrite map_lookup_filter. destruct (t !! k); [|done]. cbn. by rewrite option_guard_False by auto.
  - intros Hk. apply map_filter_id. intros k r Hr Hin. rewrite (Hk k Hin) in Hr. done.
Qed.

Lemma DeleteRange_put (key : R → K) rs (t : gmap K R) :
  (∀ r, r ∈ rs → start ≤ id (key r) < stop) → DeleteRange start stop id (put key rs t) = DeleteRange start stop id t.
Proof.
  revert t. induction rs as [|r rs IH]; intros t Hr; [done|]. cbn [put foldl]. change (foldl _ ?t rs) with (put key rs t).
  rewrite IH by (intros r' Hr'; apply Hr; by right). apply map_filter_insert_not. intros y Hn. apply Hn. cbn. apply Hr. by left.
Qed.
End delete.

(** No row has an identifier in the range. *)
Definition absent (start stop : Z) (db : HistoryDB) : Prop := DeleteRangeAll start stop db = db.

Definition db_ok (db : HistoryDB) : Prop := ids_ok (history_accounts db) ∧ assets_ok (history_assets db).

Section written.
Context `{XT : XdrText} (ledger : LedgerHeaderHistoryEntry).
Abbreviation sequence := (LedgerSeq (Header ledger)).

(** The database [db'] has, besides the rows of [db], those of the history [h];
    the ids of [db] are kept, and every account and asset of the new rows has
    one. *)
Record history_written (db : HistoryDB) (h : History) (row : LedgerRow) (db' : HistoryDB) : Prop := {
  written_ok : db_ok db';
  written_accounts : ids (history_accounts db) ⊆ ids (history_accounts db');
  written_assets : ids (history_assets db) ⊆ ids (history_assets db');
  written_ledger : history_ledgers db' = <[ lr_ID row := row ]> (history_ledgers db);
  written_transactions : history_transactions db' = put txr_ID (h_transactions h) (history_transactions db);
  written_operations : history_operations db' = put opr_ID (h_operations h) (history_operations db);
  written_effects : history_effects db' = put effect_key (effect_row (history_accounts db') <$> h_effects h) (history_effects db);
  written_trades : ∃ rows, mmap (λ x, trade_row (trade_ids (history_accounts db') (history_assets db') x)) (h_trades h) = Ret rows ∧
    history_trades db' = put trade_key rows (history_trades db);
  written_transaction_participants : history_transaction_participants db' =
    put participant_key (participant_rows transactionSet (ids (history_accounts db')) (h_participants h)) (history_transaction_participants db);
  written_operation_participants : history_operation_participants db' =
    put participant_key (participant_rows operationSet (ids (history_accounts db')) (h_participants h)) (history_operation_participants db);
  written_known : ∀ a, a ∈ (ef_address <$> h_effects h) ++ trade_addresses (h_trades h) ++ (map_to_list (h_participants h)).*1 →
    is_Some (ids (history_accounts db') !! a);
  written_known_assets : ∀ a, a ∈ trade_assets (h_trades h) → is_Some (ids (history_assets db') !! asset_tuple_of a) }.

Lemma id_of_grows (t t' : IdTable gostring) (a : gostring) : ids t ⊆ ids t' → is_Some (ids t !! a) → id_of t' a = id_of t a.
Proof. intros Hs [i Hi]. unfold id_of. by rewrite Hi, (lookup_weaken _ _ _ _ Hi Hs). Qed.

Lemma asset_id_grows t t' a : ids t ⊆ ids t' → is_Some (ids t !! asset_tuple_of a) → asset_id t' a = asset_id t a.
Proof. intros Hs [i Hi]. unfold asset_id. by rewrite Hi, (lookup_weaken _ _ _ _ Hi Hs). Qed.

(** The rows do not change when the tables of ids grow. *)
Lemma effect_rows_grow (t t' : IdTable gostring) (es : list effect) :
  ids t ⊆ ids t' → (∀ a, a ∈ ef_address <$> es → is_Some (ids t !! a)) → effect_row t' <$> es = effect_row t <$> es.
Proof.
  intros Hs He. apply list_fmap_ext. intros i e Hi. unfold effect_row. rewrite (id_of_grows t t'); [done|done|].
  apply He, list_elem_of_fmap_2. by apply (list_elem_of_lookup_2 _ i).
Qed.

Lemma trade_rows_grow (t t' : IdTable gostring) (u u' : IdTable asset_tuple) (l : list (InsertTrade * gostring)) :
  ids t ⊆ ids t' → ids u ⊆ ids u' → (∀ a, a ∈ trade_addresses l → is_Some (ids t !! a)) →
  (∀ a, a ∈ trade_assets l → is_Some (ids u !! asset_tuple_of a)) →
  mmap (λ x, trade_row (trade_ids t' u' x)) l = mmap (λ x, trade_row (trade_ids t u x)) l.
Proof.
  intros Ht Hu Ha Hb. apply mfold_ext. intros acc x Hx. unfold trade_ids.
  assert (address (Atom_SellerId (it_Trade x.1)) ∈ trade_addresses l ∧ x.2 ∈ trade_addresses l ∧
    AssetSold (it_Trade x.1) ∈ trade_assets l ∧ AssetBought (it_Trade x.1) ∈ trade_assets l) as (H1 & H2 & H3 & H4).
  { unfold trade_addresses, trade_assets. rewrite !elem_of_concat_fmap. split_and!; exists x; set_solver. }
  rewrite !(id_of_grows t t'), !(asset_id_grows u u'); auto.
Qed.

(** No row of a table has an identifier of the ledger. *)
Record no_rows (db : HistoryDB) : Prop := {
  no_effects : ∀ k, in_ledger ledger k.1 → history_effects db !! k = None;
  no_operations : ∀ k, in_ledger ledger k → history_operations db !! k = None;
  no_transactions : ∀ k, in_ledger ledger k → history_transactions db !! k = None;
  no_trades : ∀ k, in_ledger ledger k.1 → history_trades db !! k = None;
  no_transaction_participants : ∀ k, in_ledger ledger k.1 → history_transaction_participants db !! k = None;
  no_operation_participants : ∀ k, in_ledger ledger k.1 → history_operation_participants db !! k = None }.

Lemma absent_no_rows start stop db :
  (∀ id, in_ledger ledger id → start ≤ id < stop) → absent start stop db → no_rows db.
Proof.
  intros Hr Ha. unfold absent, DeleteRangeAll in Ha. destruct db. injection Ha as H1 H2 H3 H4 H5 H6 H7.
  split; cbn; intros k Hk; [eapply (DeleteRange_absent _ _ fst)|eapply (DeleteRange_absent _ _ id)|eapply (DeleteRange_absent _ _ id)|
    eapply (DeleteRange_absent _ _ fst)..]; try eassumption; by apply Hr.
Qed.

Lemma commit_history txs h db stats operations transactions counts row :
  history_ok ledger txs h → fits ledger txs → db_ok db → no_rows db →
  insert_batch opr_ID operations.1 operations.2 = Ret (put opr_ID (h_operations h) (history_operations db)) →
  insert_batch txr_ID transactions.1 transactions.2 = Ret (put txr_ID (h_transactions h) (history_transactions db)) →
  ledgerHeaderToMap ledger (successTxCount counts) (failedTxCount counts) (opCount counts) (txSetOpCount counts) CurrentVersion = Ret row →
  map_Forall (λ _ r, ledger_conflict row r = false) (history_ledgers db) →
  ∃ db', tx_group_Commit ledger (MkTxGroup stats (h_effects h) counts operations
      (foldl add_trade NewTradeProcessor (h_trades h)) (h_participants h) transactions) db = Ret db' ∧
    history_written db h row db'.
Proof.
  intros Hok Hf [Hacc Hass] Hno Hops Htxs Hrow Hconf. unfold tx_group_Commit.
  cbn [tg_effects tg_ledgers tg_operations tg_trades tg_participants tg_transactions].
  destruct (Effects_Commit_spec (h_effects h) db Hacc (effects_distinct _ _ _ Hok)) as (t1 & -> & Ht1 & Hs1 & Hg1).
  { intros e He. apply (no_effects _ Hno). by apply (effects_in _ _ _ Hok). }
  outcome_simpl. unfold Ledgers_Commit, InsertLedger, insert_ledger. rewrite Hrow. outcome_simpl.
  cbn [history_ledgers set_effects set_accounts].
  assert (existsb (ledger_conflict row) (map_to_list (history_ledgers db)).*2 = false) as ->.
  { apply not_true_iff_false. rewrite existsb_exists.
    intros (r & ([k r'] & -> & Hr%elem_of_map_to_list)%list_elem_of_In%list_elem_of_fmap & Hc). pose proof (Hconf k r' Hr). simpl in *. congruence. }
  cbn [outcome_bind]. change (1 =? 1) with true. cbn [outcome_bind negb]. rewrite Hops. cbn [outcome_bind].
  match goal with |- context [Trades_Commit _ ?db2] =>
    destruct (Trades_Commit_spec (h_trades h) db2) as (t2 & assets & rows & -> & (Ht2 & Hs2 & Hg2) & Hass2 & Hsa2 & Hka2 & Hrows) end;
    [done|done|apply Hok| |apply Hok| |].
  { apply Forall_forall. intros x (y & -> & Hy)%list_elem_of_fmap. by apply (trades_in _ _ _ Hok). }
  { intros x Hx. apply (no_trades _ Hno). by apply (trades_in _ _ _ Hok). }
  cbn [outcome_bind].
  match goal with |- context [Participants_Commit _ ?db3] =>
    destruct (Participants_Commit_spec (h_participants h) db3) as (t3 & -> & (Ht3 & Hs3 & Hg3)) end; [done|..].
  { intros a p r Hp Hr. apply (no_transaction_participants _ Hno), (participant_rows_in ledger txs h {[ a := r.2 ]}); [done..|left].
    apply elem_of_participant_rows. exists a, p. by rewrite lookup_singleton_eq. }
  { intros a p r Hp Hr. apply (no_operation_participants _ Hno), (participant_rows_in ledger txs h {[ a := r.2 ]}); [done..|right].
    apply elem_of_participant_rows. exists a, p. by rewrite lookup_singleton_eq. }
  cbn [outcome_bind]. rewrite Htxs. cbn [outcome_bind]. eexists. split; [reflexivity|].
  cbn in Hs1, Hg1, Hs2, Hg2, Hs3, Hg3, Hsa2, Hka2.
  assert (∀ a, a ∈ ef_address <$> h_effects h → is_Some (ids t1 !! a)) as Hk1 by (intros a Ha; apply Hg1; by right).
  assert (∀ a, a ∈ trade_addresses (h_trades h) → is_Some (ids t2 !! a)) as Hk2 by (intros a Ha; apply Hg2; by right).
  split; cbn; try done.
  - by etrans; [|etrans].
  - f_equal. symmetry. apply effect_rows_grow; [by etrans|done].
  - exists rows. split; [|done]. by rewrite (trade_rows_grow t2 t3 assets assets).
  - intros a Ha. rewrite !elem_of_app in Ha. destruct Ha as [Ha|[Ha|Ha]].
    + apply Hg3. left. apply Hg2. left. by apply Hk1.
    + apply Hg3. left. by apply Hk2.
    + apply Hg3. by right.
Qed.
End written.

(** ** Running a ledger *)

Section run.
Context `{XT : XdrText} `{NW : Network} `{LS : LedgerSources}.

Lemma reader_index lcm reader i tx :
  NewLedgerTransactionReader lcm = Ret reader → transactions reader !! i = Some tx → Index tx = u32 (Z.of_nat i + 1).
Proof.
  unfold NewLedgerTransactionReader, storeTransactions. destruct (hash_txs (TxSet lcm)) as [byHash|e|]; outcome_simpl; [|done..].
  rewrite (mfold_ext _ (λ ys x, outcome_bind (λ y, Ret (ys ++ [y])) (store_transaction lcm byHash x.1 x.2))) by (intros ? [] _; done).
  destruct (mfold _ [] _) as [txs|e|] eqn:E; cbn [outcome_bind]; [|done..]. intros [= <-] Hi. cbn [transactions] in Hi.
  apply (proj1 (mmap_Ret (λ x, store_transaction lcm byHash x.1 x.2) _ _)) in E.
  destruct (Forall2_lookup_r _ _ _ _ _ E Hi) as ([j rm] & Hj & Htx). rewrite list_lookup_imap in Hj.
  destruct (TxProcessing lcm !! i) as [rm'|]; [|done]. injection Hj as <- <-. unfold store_transaction in Htx. cbn in Htx.
  destruct (byHash !! _); [|done]. by case_if; simplify_eq/=.
Qed.

(** A ledger that has few enough transactions, operations, effects and trades,
    with offers that can be numbered. *)
Record ledger_fits (ledger : LedgerHeaderHistoryEntry) (txs : list LedgerTransaction) : Prop := {
  ledger_sequence : 0 < LedgerSeq (Header ledger) < 2 ^ 30;
  ledger_size : Z.of_nat (length txs) < 2 ^ 20;
  ledger_sizes : Forall (λ tx, Z.of_nat (length (Operations (Envelope tx))) < 2 ^ 12) txs;
  ledger_operations_fit : Forall operation_fits (ledger_operations ledger txs) }.

Lemma reader_fits lcm reader :
  NewLedgerTransactionReader lcm = Ret reader → ledger_fits (LedgerHeaderEntry lcm) (transactions reader) →
  fits (LedgerHeaderEntry lcm) (transactions reader).
Proof.
  intros Hr [Hs Hl Ho Hop]. rewrite !Forall_forall in *.
  assert (∀ i tx, transactions reader !! i = Some tx → Index tx = Z.of_nat i + 1) as Hi.
  { intros i tx Hi. rewrite (reader_index lcm reader i tx Hr Hi). apply lookup_lt_Some in Hi. apply u32_small. unfold is_u32. lia. }
  split; [done|done| |].
  - intros tx Htx. split; [|by apply Ho]. apply list_elem_of_lookup_1 in Htx as [i Htx]. rewrite (Hi i tx Htx).
    apply lookup_lt_Some in Htx. lia.
  - apply NoDup_alt. intros i j x. rewrite !list_lookup_fmap.
    destruct (transactions reader !! i) as [tx|] eqn:Ei, (transactions reader !! j) as [tx'|] eqn:Ej; cbn; try done.
    rewrite (Hi _ _ Ei), (Hi _ _ Ej). intros [= <-] [= E]. lia.
Qed.

(** The row of the ledger, with its counts. *)
Definition ledger_row (ledger : LedgerHeaderHistoryEntry) (txs : list LedgerTransaction) : outcome tx_error LedgerRow :=
  let succeeded := Z.of_nat (length (successful txs)) in
  ledgerHeaderToMap ledger succeeded (Z.of_nat (length txs) - succeeded)
    (Z.of_nat (length (ledger_operations ledger (successful txs)))) (Z.of_nat (length (ledger_operations ledger txs))) CurrentVersion.

(** What is needed of a ledger. *)
Record ledger_ready (sequence : Z) (lcm : LedgerCloseMeta) (txs : list LedgerTransaction) (row : LedgerRow) : Prop := {
  ready_supported : supported sequence lcm;
  ready_sequence : LedgerSequence lcm = sequence;
  ready_reader : ∃ reader, NewLedgerTransactionReader lcm = Ret reader ∧ transactions reader = txs;
  ready_fits : ledger_fits (LedgerHeaderEntry lcm) txs;
  ready_typed : Forall (transaction_typed (LedgerHeaderEntry lcm)) txs;
  ready_row : ledger_row (LedgerHeaderEntry lcm) txs = Ret row }.

Lemma NewLedgerTransactionReader_header lcm reader : NewLedgerTransactionReader lcm = Ret reader → GetHeader reader = LedgerHeaderEntry lcm.
Proof. unfold NewLedgerTransactionReader. destruct (storeTransactions lcm); outcome_simpl; [|done..]. by intros [= <-]. Qed.

Lemma ledger_range sequence :
  0 < sequence < 2 ^ 30 → ∃ start stop, LedgerRangeInclusive sequence sequence = Ret (start, stop) ∧
    ∀ id, sequence * 2 ^ 32 ≤ id < (sequence + 1) * 2 ^ 32 → start ≤ id < stop.
Proof.
  intros Hs. unfold LedgerRangeInclusive. rewrite Z.ltb_irrefl, (proj2 (Z.leb_gt _ _)) by lia. cbn [orb].
  rewrite i32_small by (unfold is_i32; lia). unfold New.
  rewrite !ToInt64_packed by (unfold wf; simpl; lia). destruct (sequence =? 1); outcome_simpl; eexists _, _; (split; [reflexivity|]);
    unfold packed; simpl; lia.
Qed.

Lemma run_writes sequence lcm txs row start stop db :
  ledger_ready sequence lcm txs row → LedgerRangeInclusive sequence sequence = Ret (start, stop) →
  db_ok db → absent start stop db → map_Forall (λ _ r, ledger_conflict row r = false) (history_ledgers db) →
  ∃ h db', RunTransactionProcessorsOnLedger sequence db = Ret (foldl TransactionStats_ProcessTransaction NewTransactionStats txs, db') ∧
    ledger_history (LedgerHeaderEntry lcm) txs = Ret h ∧ history_ok (LedgerHeaderEntry lcm) txs h ∧ history_written db h row db'.
Proof.
  intros [Hs Hseq (reader & Hr & <-) Hfit Ht Hrow] Hrange Hdb Ha Hc.
  pose proof (reader_fits lcm reader Hr Hfit) as Hf. set (ledger := LedgerHeaderEntry lcm) in *.
  destruct (ledger_history_typed ledger (transactions reader) Hf Ht) as (h & Hh & Hok). exists h.
  assert (no_rows ledger db) as Hno.
  { destruct (ledger_range sequence) as (a & b & Hab & Hin).
    { pose proof (ledger_sequence _ _ Hfit) as Hx. unfold LedgerSequence in Hseq. fold ledger in Hseq. by rewrite Hseq in Hx. }
    rewrite Hab in Hrange. injection Hrange as -> ->. apply (absent_no_rows ledger start stop); [|done].
    intros id Hid. apply Hin. unfold in_ledger in Hid. unfold LedgerSequence in Hseq. fold ledger in Hseq. by rewrite Hseq in Hid. }
  destruct (stream_history ledger (transactions reader) h db Hh Hok Hf Ht) as (ops & rows & Hstream & Hops & Hrows).
  { intros r Hin. by apply (no_operations _ _ Hno), (operation_rows_in ledger (transactions reader) h). }
  { intros r Hin. by apply (no_transactions _ _ Hno), (transaction_rows_in ledger (transactions reader) h). }
  destruct (commit_history ledger (transactions reader) h db (foldl TransactionStats_ProcessTransaction NewTransactionStats (transactions reader))
    ops rows (foldl (flip Ledgers_ProcessTransaction) NewLedgerProcessor (transactions reader)) row) as (db' & Hcommit & Hw); try done.
  { rewrite (ledger_counts ledger). exact Hrow. }
  exists db'. split; [|done]. unfold RunTransactionProcessorsOnLedger, must_get_ledger.
  rewrite (proj1 Hs). outcome_simpl. cbn [map_fail outcome_bind]. rewrite Hr. cbn [map_fail outcome_bind]. rewrite (supported_check _ _ Hs). cbn [map_fail outcome_bind].
  rewrite (NewLedgerTransactionReader_header _ _ Hr). fold ledger. rewrite Hstream. cbn [map_fail outcome_bind].
  by rewrite Hcommit.
Qed.

(** The database with other ids. *)
Definition with_new_ids (db' db : HistoryDB) : HistoryDB := set_assets (history_assets db') (set_accounts (history_accounts db') db).

Lemma ready_range sequence lcm txs row start stop :
  ledger_ready sequence lcm txs row → LedgerRangeInclusive sequence sequence = Ret (start, stop) →
  fits (LedgerHeaderEntry lcm) txs ∧ (∀ id, in_ledger (LedgerHeaderEntry lcm) id → start ≤ id < stop) ∧ start ≤ lr_ID row < stop.
Proof.
  intros [_ Hseq (reader & Hr & <-) Hfit _ Hrow] Hrange. unfold LedgerSequence in Hseq.
  pose proof (ledger_sequence _ _ Hfit) as Hs. rewrite Hseq in Hs.
  destruct (ledger_range sequence Hs) as (a & b & Hab & Hin). rewrite Hab in Hrange. injection Hrange as -> ->.
  split_and!; [by apply reader_fits|intros id Hid; apply Hin; unfold in_ledger in Hid; by rewrite Hseq in Hid|..].
  all: unfold ledger_row, ledgerHeaderToMap, from_text, new_toid, New in Hrow; rewrite Hseq in Hrow;
    destruct (HeaderText _); outcome_simpl; [|done]; rewrite !i32_small in Hrow by (unfold is_i32; lia);
    rewrite ToInt64_packed in Hrow by (unfold wf; simpl; lia); cbn [must outcome_bind] in Hrow; injection Hrow as <-;
    cbn [lr_ID]; apply Hin; unfold packed; simpl; lia.
Qed.

(** Taking the history of the ledger back leaves what was there, with the new ids. *)
Lemma delete_written sequence lcm txs row start stop db h db' :
  ledger_ready sequence lcm txs row → LedgerRangeInclusive sequence sequence = Ret (start, stop) → absent start stop db →
  history_ok (LedgerHeaderEntry lcm) txs h → history_written db h row db' → DeleteRangeAll start stop db' = with_new_ids db' db.
Proof.
  intros Hready Hrange Ha Hok Hw. destruct (ready_range _ _ _ _ _ _ Hready Hrange) as (Hf & Hin & Hrow).
  unfold absent, DeleteRangeAll in Ha. destruct db as [acc ass led tra ope eff trd tp op]. injection Ha as H1 H2 H3 H4 H5 H6 H7.
  destruct Hw as [_ _ _ Wl Wt Wo We (rows & Hrows & Wtr) Wtp Wop _ _]. cbn in *.
  unfold DeleteRangeAll, with_new_ids. destruct db' as [acc' ass' led' tra' ope' eff' trd' tp' op']. cbn in *.
  assert (DeleteRange start stop id led' = led) as ->.
  { subst led'. change (<[lr_ID row:=row]> led) with (put lr_ID [row] led). rewrite DeleteRange_put; [done|].
    by intros r ->%list_elem_of_singleton. }
  assert (DeleteRange start stop id tra' = tra) as ->.
  { subst tra'. rewrite DeleteRange_put; [done|]. intros r Hr. apply Hin. by apply (transaction_rows_in _ txs h). }
  assert (DeleteRange start stop id ope' = ope) as ->.
  { subst ope'. rewrite DeleteRange_put; [done|]. intros r Hr. apply Hin. by apply (operation_rows_in _ txs h). }
  assert (DeleteRange start stop fst eff' = eff) as ->.
  { subst eff'. rewrite DeleteRange_put; [done|]. intros r (e & -> & He)%list_elem_of_fmap. apply Hin. by apply (effects_in _ _ _ Hok). }
  assert (DeleteRange start stop fst trd' = trd) as ->.
  { subst trd'. rewrite DeleteRange_put; [done|]. intros r Hr. apply Hin. apply mmap_Ret in Hrows.
    apply list_elem_of_lookup_1 in Hr as [i Hr]. destruct (Forall2_lookup_r _ _ _ _ _ Hrows Hr) as (x & Hx & Hxr).
    rewrite (trade_row_key _ _ Hxr). apply (trades_in _ _ _ Hok). by apply (list_elem_of_lookup_2 _ i). }
  assert (DeleteRange start stop fst tp' = tp) as ->.
  { subst tp'. rewrite DeleteRange_put; [done|]. intros r Hr. apply Hin. apply (participant_rows_in _ txs h (ids acc')); auto. }
  assert (DeleteRange start stop fst op' = op) as ->; [|done].
  subst op'. rewrite DeleteRange_put; [done|]. intros r Hr. apply Hin. apply (participant_rows_in _ txs h (ids acc')); auto.
Qed.

(** ** Properties *)

(** C3: ingesting the history of a ledger into a database that has no row of it
    succeeds, and what is written is the history of its transactions
    ([ledger_history]): a row for the ledger with its counts, one for each
    transaction and each operation, one for each effect and each trade of the
    operations that succeeded and one for each participant, however the rows are
    cut into batches; the other rows and the ids of accounts and assets are kept,
    and every account and asset of the new rows has an id.  All of it, and
    nothing else, is in the range of identifiers of the ledger: deleting the range
    takes it back. *)
Theorem RunTransactionProcessorsOnLedger_writes sequence lcm txs row start stop db :
  ledger_ready sequence lcm txs row → LedgerRangeInclusive sequence sequence = Ret (start, stop) →
  db_ok db → absent start stop db → map_Forall (λ _ r, ledger_conflict row r = false) (history_ledgers db) →
  ∃ stats h db', RunTransactionProcessorsOnLedger sequence db = Ret (stats, db') ∧
    ledger_history (LedgerHeaderEntry lcm) txs = Ret h ∧ history_written db h row db' ∧
    DeleteRangeAll start stop db' = with_new_ids db' db.
Proof.
  intros Hready Hrange Hdb Ha Hc. destruct (run_writes _ _ _ _ _ _ _ Hready Hrange Hdb Ha Hc) as (h & db' & Hrun & Hh & Hok & Hw).
  eexists _, h, db'. split_and!; [exact Hrun|done|done|]. by eapply delete_written.
Qed.

(** The tables of two databases that have the same history written to them, one
    with more ids, are the same. *)
Lemma written_same db h row db1 db2 :
  history_written db h row db1 → history_written (with_new_ids db1 db) h row db2 → db2 = with_new_ids db2 db1.
Proof.
  intros [_ _ _ L1 T1 O1 E1 (r1 & R1 & Tr1) P1 Q1 K1 A1] [_ Hs Ha L2 T2 O2 E2 (r2 & R2 & Tr2) P2 Q2 _ _].
  destruct db1 as [acc1 ass1 led1 tra1 ope1 eff1 trd1 tp1 op1], db2 as [acc2 ass2 led2 tra2 ope2 eff2 trd2 tp2 op2]. cbn in *.
  assert (∀ a, a ∈ (map_to_list (h_participants h)).*1 → ids acc2 !! a = ids acc1 !! a) as Hp.
  { intros a Hin. destruct (K1 a) as [i Hi]; [rewrite !elem_of_app; auto|]. by rewrite Hi, (lookup_weaken _ _ _ _ Hi Hs). }
  rewrite (effect_rows_grow acc1 acc2) in E2; [|done|intros a Hin; apply K1, elem_of_app; by left].
  rewrite (trade_rows_grow acc1 acc2 ass1 ass2) in R2; [|done..| |done]; [|intros a Hin; apply K1; rewrite !elem_of_app; auto].
  rewrite R1 in R2. injection R2 as <-. rewrite (participant_rows_ext _ (ids acc2) (ids acc1)) in P2 by done.
  rewrite (participant_rows_ext _ (ids acc2) (ids acc1)) in Q2 by done.
  unfold with_new_ids, set_assets, set_accounts. cbn. congruence.
Qed.

(** C4: a ledger whose history was ingested can be ingested again: after its
    range is deleted the same run succeeds, and every row is as it was, with the
    ids that its accounts and assets had. *)
Theorem reingest_ledger_same sequence lcm txs row start stop db stats db1 :
  ledger_ready sequence lcm txs row → LedgerRangeInclusive sequence sequence = Ret (start, stop) →
  db_ok db → absent start stop db → map_Forall (λ _ r, ledger_conflict row r = false) (history_ledgers db) →
  RunTransactionProcessorsOnLedger sequence db = Ret (stats, db1) →
  ∃ db2, RunTransactionProcessorsOnLedger sequence (DeleteRangeAll start stop db1) = Ret (stats, db2) ∧
    db2 = with_new_ids db2 db1 ∧ ids (history_accounts db1) ⊆ ids (history_accounts db2) ∧ ids (history_assets db1) ⊆ ids (history_assets db2).
Proof.
  intros Hready Hrange Hdb Ha Hc Hrun. destruct (run_writes _ _ _ _ _ _ _ Hready Hrange Hdb Ha Hc) as (h & db' & Hrun' & Hh & Hok & Hw).
  rewrite Hrun in Hrun'. injection Hrun' as -> ->. rewrite (delete_written _ _ _ _ _ _ _ _ _ Hready Hrange Ha Hok Hw).
  destruct (run_writes sequence lcm txs row start stop (with_new_ids db' db) Hready Hrange) as (h' & db2 & Hrun2 & Hh2 & _ & Hw2).
  { apply (written_ok _ _ _ _ Hw). }
  { unfold absent, DeleteRangeAll, with_new_ids in *. destruct db. cbn in *. by injection Ha as -> -> -> -> -> -> ->. }
  { exact Hc. }
  rewrite Hh in Hh2. injection Hh2 as <-. exists db2. split; [done|]. split; [by eapply written_same|].
  split; [apply (written_accounts _ _ _ _ Hw2)|apply (written_assets _ _ _ _ Hw2)].
Qed.
End run.

(** *** An example: a ledger with one transaction *)
Module Example_history.
Import Example_operation.
#[local] Instance text : XdrText := {|
  EnvelopeText _ := Some [1]; ResultText _ _ := Some [2]; MetaText _ := Some [3]; FeeMetaText _ := Some [4]; HeaderText _ := Some [5] |}.
#[local] Instance network : Network := {|
  sha256 x := x; MarshalPayload _ _ := Some [1]; NetworkPassphrase := [65]; MasterKey := alice |}.
Definition meta : LedgerCloseMeta :=
  MkCloseMeta (MkHistoryEntry [7] (MkHeader 15 [6] 1600000000 [] 64 0 0 100 0 0)) [Envelope transaction]
    [MkResultMeta (Tx_Result transaction) (FeeChanges transaction) (Meta transaction)] [].
#[local] Instance sources : LedgerSources := {|
  GetLedger seq := if seq =? 64 then Some (Some meta) else Some None; BucketListHash _ := None; GetState _ := None |}.
Definition row : LedgerRow := match ledger_row (LedgerHeaderEntry meta) [transaction] with Ret r => r | _ => MkLedgerRow 0 0 0 [] None 0 0 0 0 0 0 0 0 0 0 0 0 [] end.
Definition empty_db : HistoryDB := MkHistory (MkIds ∅ 1) (MkIds ∅ 1) ∅ ∅ ∅ ∅ ∅ ∅ ∅.

Lemma wf_byte b : 0 ≤ b < 256 → wf_account (MkAccountId (replicate 32 b)).
Proof. intros Hb. split; [done|]. apply Forall_replicate. exact Hb. Qed.

Lemma claim_fits_example : claim_fits claim.
Proof.
  split; [cbn; lia|]. split; [|done]. split; [|by apply wf_byte].
  split; [done|]. repeat (apply Forall_cons; split; [unfold is_u8; lia|]). apply Forall_nil. exact I.
Qed.

Definition fund_operation : transactionOperationWrapper := MkOp 0 transaction fund 64.
Lemma operations_are_two : ledger_operations (LedgerHeaderEntry meta) [transaction] = [fund_operation; operation].
Proof. done. Qed.

Lemma few_effects op :
  match op_effects op with Ret l => Z.of_nat (length l) <? 2 ^ 32 | _ => true end = true →
  ∀ l, op_effects op = Ret l → Z.of_nat (length l) < 2 ^ 32.
Proof. intros H l Hl. rewrite Hl in H. by apply Z.ltb_lt. Qed.

Lemma operations_fit : Forall operation_fits [fund_operation; operation].
Proof.
  repeat (apply Forall_cons; split); [split|split|done].
  - by apply few_effects; vm_compute.
  - intros rs claims o _ Hc. cbn in Hc. injection Hc as <- <-. split_and!; [cbn; lia|done|done].
  - by apply few_effects; vm_compute.
  - intros rs claims o [= <-] Hc. cbn in Hc. injection Hc as <- <-. split_and!; [cbn; lia| |done].
    apply Forall_cons. split; [apply claim_fits_example|done].
Qed.

Lemma fund_typed : operation_typed fund_operation.
Proof.
  split; [done| |]; [exists []; by split_and!|]. intros _. by eexists _, _.
Qed.

Lemma ready : ledger_ready 64 meta [transaction] row.
Proof.
  split; [done|done| | | |by vm_compute].
  - eexists. split; [by vm_compute|]. done.
  - split; [cbn; lia|cbn; lia|by apply Forall_cons|]. rewrite operations_are_two. apply operations_fit.
  - apply Forall_cons. split; [|done]. split; [|done|by split_and!; eexists|done].
    intros op Hop. assert (op ∈ [fund_operation; operation]) as Hin by exact Hop.
    rewrite !elem_of_cons in Hin. destruct Hin as [->|[->|?%elem_of_nil]]; [apply fund_typed|apply example_typed|done].
Qed.

Lemma empty_ok : db_ok empty_db.
Proof.
  split; [|split]; [split..|].
  - intros k i Hk. cbn in Hk. by rewrite lookup_empty in Hk.
  - intros k k' i Hk. cbn in Hk. by rewrite lookup_empty in Hk.
  - intros k i Hk. cbn in Hk. by rewrite lookup_empty in Hk.
  - intros k k' i Hk. cbn in Hk. by rewrite lookup_empty in Hk.
  - intros k [i Hk]. cbn in Hk. by rewrite lookup_empty in Hk.
Qed.
End Example_history.
#[local] Existing Instances Example_history.text Example_history.network Example_history.sources.

Theorem RunTransactionProcessorsOnLedger_writes_witness :
  ∃ stats h db', RunTransactionProcessorsOnLedger 64 Example_history.empty_db = Ret (stats, db') ∧
    ledger_history (LedgerHeaderEntry Example_history.meta) [Example_operation.transaction] = Ret h ∧
    history_written Example_history.empty_db h Example_history.row db' ∧
    DeleteRangeAll (64 * 2 ^ 32) (65 * 2 ^ 32) db' = with_new_ids db' Example_history.empty_db.
Proof.
  apply (RunTransactionProcessorsOnLedger_writes 64 Example_history.meta [Example_operation.transaction] Example_history.row).
  - apply Example_history.ready.
  - vm_compute. reflexivity.
  - apply Example_history.empty_ok.
  - reflexivity.
  - apply map_Forall_empty.
Defined.

Theorem reingest_ledger_same_witness :
  ∃ stats db1 db2, RunTransactionProcessorsOnLedger 64 Example_history.empty_db = Ret (stats, db1) ∧
    RunTransactionProcessorsOnLedger 64 (DeleteRangeAll (64 * 2 ^ 32) (65 * 2 ^ 32) db1) = Ret (stats, db2) ∧
    db2 = with_new_ids db2 db1 ∧ ids (history_accounts db1) ⊆ ids (history_accounts db2) ∧
    ids (history_assets db1) ⊆ ids (history_assets db2).
Proof.
  destruct (run_writes 64 Example_history.meta [Example_operation.transaction] Example_history.row (64 * 2 ^ 32) (65 * 2 ^ 32)
    Example_history.empty_db Example_history.ready ltac:(vm_compute; reflexivity) Example_history.empty_ok ltac:(reflexivity)
    ltac:(apply map_Forall_empty)) as (h & db1 & Hrun & _).
  eexists _, db1.
  destruct (reingest_ledger_same 64 Example_history.meta [Example_operation.transaction] Example_history.row (64 * 2 ^ 32) (65 * 2 ^ 32)
    Example_history.empty_db _ db1 Example_history.ready ltac:(vm_compute; reflexivity) Example_history.empty_ok ltac:(reflexivity)
    ltac:(apply map_Forall_empty) Hrun) as (db2 & H).
  exists db2. split; [exact Hrun|exact H].
Defined.
