(* ===== verification/IngestVerify.v ===== *)
(** * aurora: verification of the state

    Models [verify.go] of [src/services/aurora/internal/ingest]: the entries that
    the rows of the database stand for (RowEntries.v) are compared with the
    entries of a history archive, in batches, and the asset statistics with those
    of the trust lines.  What the whole decides is in VerifyState.v. *)

From S2P Require Import Prelude Strkey Xdr LedgerEntry HistoryRange ChangeCache StateVerifier HistoryTables StatPages RowEntries.
From S2P Require Import ChangeProcessor StateProcessors SignersProcessor AssetStats ProcessorRunner.
#[local] Opaque address.

(** ** Adding the entries of the database *)

#[export] Instance ExpAssetStat_eq_dec : EqDecision ExpAssetStat.
Proof. solve_decision. Defined.

Section verification.
Context `{LC : LedgerCache} `{RO : RowOrder} (MarshalBinary : LedgerEntry → option (list Z)).

Definition verifier_write (v : StateVerifier) (entry : LedgerEntry) : outcome verification_error StateVerifier :=
  map_fail FromVerifier (Write MarshalBinaryBase64 MarshalBinary (Some transformEntry) v entry).
(** The loop over the rows of a query. *)
Definition write_rows {R} (entry_of : R → outcome verification_error LedgerEntry) (rows : list R) (v : StateVerifier)
  : outcome verification_error StateVerifier :=
  mfold (λ v row, entry ← entry_of row; verifier_write v entry) v rows.

Definition addAccountsToStateVerifier (v : StateVerifier) (t : Tables) (ids : list gostring)
  : outcome verification_error StateVerifier :=
  match ids with
  | [] => Ret v
  | _ =>
      maps ← mfold add_signer (MkSignerMaps ∅ ∅ ∅) (SignersForAccounts ids (t_signers t));
      write_rows (account_of_row maps) (GetAccountsByIDs ids (t_accounts t)) v
  end.
Definition addDataToStateVerifier (v : StateVerifier) (t : Tables) (keys : list (AccountId * gostring))
  : outcome verification_error StateVerifier :=
  match keys with
  | [] => Ret v
  | _ =>
      data ← map_fail ErrQuery (GetAccountDataByKeys MarshalBinaryBase64 keys (t_data t));
      write_rows data_of_row data v
  end.
Definition addOffersToStateVerifier (v : StateVerifier) (t : Tables) (ids : list Z)
  : outcome verification_error StateVerifier :=
  match ids with
  | [] => Ret v
  | _ => write_rows offer_of_row (GetOffersByIDs ids (t_offers t)) v
  end.
Definition addTrustLinesToStateVerifier (v : StateVerifier) (assetStats : AssetStatSet) (t : Tables)
    (keys : list (AccountId * Asset)) : outcome verification_error (StateVerifier * AssetStatSet) :=
  match keys with
  | [] => Ret (v, assetStats)
  | _ =>
      trustLines ← map_fail ErrQuery (GetTrustLinesByKeys MarshalBinaryBase64 keys (t_trust_lines t));
      mfold (λ '(v, assetStats) row,
        trustline ← trust_line_of_row row;
        entry ← addLedgerEntrySponsor (tr_LastModifiedLedger row) (DataTrustLine trustline) (tr_Sponsor row);
        v ← verifier_write v entry;
        assetStats ← map_fail StateErrAddStat (Add assetStats trustline);
        Ret (v, assetStats)) (v, assetStats) trustLines
  end.
Definition addClaimableBalanceToStateVerifier (v : StateVerifier) (t : Tables) (ids : list ClaimableBalanceId)
  : outcome verification_error StateVerifier :=
  match ids with
  | [] => Ret v
  | _ => write_rows balance_of_row (GetClaimableBalancesByID ids (t_balances t)) v
  end.

(** ** The loop over the archive *)

(** The keys of a batch, by their type. *)
Record BatchKeys := MkBatchKeys {
  k_accounts : list gostring; k_data : list (AccountId * gostring); k_offers : list Z;
  k_trustLines : list (AccountId * Asset); k_cBalances : list ClaimableBalanceId }.
Definition add_key (b : BatchKeys) (key : LedgerKey) : outcome verification_error BatchKeys :=
  let '(MkBatchKeys accounts data offers trustLines cBalances) := b in
  match key with
  | LedgerEntryTypeAccount a =>
      id ← must (AccountId_Address (Some a)); Ret (MkBatchKeys (accounts ++ [id]) data offers trustLines cBalances)
  | LedgerEntryTypeData a name => Ret (MkBatchKeys accounts (data ++ [(a, name)]) offers trustLines cBalances)
  | LedgerEntryTypeOffer _ id => Ret (MkBatchKeys accounts data (offers ++ [id]) trustLines cBalances)
  | LedgerEntryTypeTrustline a asset => Ret (MkBatchKeys accounts data offers (trustLines ++ [(a, asset)]) cBalances)
  | LedgerEntryTypeClaimableBalance id => Ret (MkBatchKeys accounts data offers trustLines (cBalances ++ [id]))
  end.

Definition verify_batch (t : Tables) (st : StateVerifier * AssetStatSet) (keys : list LedgerKey)
  : outcome verification_error (StateVerifier * AssetStatSet) :=
  let '(v, assetStats) := st in
  b ← mfold add_key (MkBatchKeys [] [] [] [] []) keys;
  v ← addAccountsToStateVerifier v t (k_accounts b);
  v ← addDataToStateVerifier v t (k_data b);
  v ← addOffersToStateVerifier v t (k_offers b);
  '(v, assetStats) ← addTrustLinesToStateVerifier v assetStats t (k_trustLines b);
  v ← addClaimableBalanceToStateVerifier v t (k_cBalances b);
  Ret (v, assetStats).

(** Enough fuel is given by [verify_tables_spec]; running out is a panic. *)
Fixpoint verification_loop (fuel : nat) (t : Tables) (st : StateVerifier * AssetStatSet)
  : outcome verification_error (StateVerifier * AssetStatSet) :=
  match fuel with
  | O => Panic
  | S fuel' =>
      '(v, keys) ← map_fail FromVerifier (GetLedgerKeys MarshalBinaryBase64 (Some transformEntry) st.1 verifyBatchSize);
      match keys with
      | [] => Ret (v, st.2)
      | _ => st ← verify_batch t (v, st.2) keys; verification_loop fuel' t st
      end
  end.

(** ** Asset statistics *)
Definition assetStatsBatchSize : Z := 500.

Definition check_stat (set : AssetStatSet) (assetStat : ExpAssetStat) : outcome verification_error AssetStatSet :=
  match AssetStatSet_Remove set (asset_stat_key assetStat) with
  | (None, _) => Fail StateErrStatMissing
  | (Some fromSet, set) => if bool_decide (fromSet = assetStat) then Ret set else Fail StateErrStatMismatch
  end.
Fixpoint check_pages (fuel : nat) (set : AssetStatSet) (page : PageQuery) (t : AssetStatTable)
  : outcome verification_error AssetStatSet :=
  match fuel with
  | O => Panic
  | S fuel' =>
      assetStats ← map_fail ErrPage (GetAssetStats [] [] page t);
      match last assetStats with
      | None => Ret set
      | Some s =>
          set ← mfold check_stat set assetStats;
          check_pages fuel' set (MkPage (PagingToken s) (pg_Order page) (pg_Limit page)) t
      end
  end.
Definition checkAssetStats (fuel : nat) (set : AssetStatSet) (t : AssetStatTable) : outcome verification_error unit :=
  set ← check_pages fuel set (MkPage [] (str "asc") assetStatsBatchSize) t;
  if (0 <? size set)%nat then Fail StateErrStatsLeft else Ret tt.

(** ** verifyState *)
Definition verify_tables (fuel : nat) (stateReader : list (verify_error + LedgerEntry)) (t : Tables)
  : outcome verification_error unit :=
  '(verifier, assetStats) ← verification_loop fuel t (MkVerifier stateReader 0 false ∅, ∅);
  let countAll := CountAccounts (t_accounts t) + CountAccountsData (t_data t) + CountOffers (t_offers t)
                  + CountTrustLines (t_trust_lines t) + CountClaimableBalances (t_balances t) in
  _ ← map_fail FromVerifier (Verify verifier countAll);
  checkAssetStats fuel assetStats (t_asset_stats t).

(** What the calls that leave the process answer: the start of the transaction,
    the last ingested ledger in the database, the latest ledger of the archive,
    whether the service is shut down during the wait, and the state reader. *)
Record VerifyAnswers := MkVerifyAnswers {
  v_begin : bool; v_lastLedger : option Z; v_latest : option Z; v_shutdown : bool;
  v_GetState : Z → option (list (verify_error + LedgerEntry)) }.

Definition verifyState (answers : VerifyAnswers) (verifyAgainstLatestCheckpoint : bool) (fuel : nat) (t : Tables)
  : outcome verification_error unit :=
  if negb (v_begin answers) then Fail ErrCall else
  match v_lastLedger answers with
  | None => Fail ErrCall
  | Some ledgerSequence =>
      if negb (IsCheckpoint ledgerSequence) then Ret tt else
      goes_on ← (if verifyAgainstLatestCheckpoint then
                   match v_latest answers with
                   | None => Fail ErrCall
                   | Some historyLatestSequence =>
                       Ret (negb (ledgerSequence <? historyLatestSequence) && negb (v_shutdown answers))
                   end
                 else Ret true);
      if negb goes_on then Ret tt else
      match v_GetState answers ledgerSequence with
      | None => Fail ErrCall
      | Some stateReader => verify_tables fuel stateReader t
      end
  end.
End verification.

(** ** The batches of the loop fetch the entries of the ledger *)

Lemma NoDup_fmap_finer {A B C} (f : A → B) (g : A → C) l :
  NoDup (f <$> l) → (∀ x y, x ∈ l → y ∈ l → g x = g y → f x = f y) → NoDup (g <$> l).
Proof.
  induction l as [|x l IH]; intros Hn Hg; [constructor|]. rewrite fmap_cons in *. apply NoDup_cons in Hn as [Hx Hn].
  constructor; [|apply IH; [done|intros; apply Hg; try done; by right]].
  intros (y & Hy & Hin)%list_elem_of_fmap. apply Hx. apply list_elem_of_fmap. exists y. split; [|done].
  apply Hg; [by left|by right|done].
Qed.

Lemma filter_fmap_snd {A B} (P : B → Prop) `{!∀ x, Decision (P x)} (l : list (A * B)) : filter P l.*2 = (filter (λ ab, P ab.2) l).*2.
Proof.
  induction l as [|[a b] l IH]; [done|]. rewrite fmap_cons, !filter_cons. cbn [snd]. destruct (decide (P b)); [|done].
  rewrite fmap_cons. by f_equal.
Qed.

Lemma NoDup_fst_filter {A B} (P : A * B → Prop) `{!∀ x, Decision (P x)} (l : list (A * B)) : NoDup l.*1 → NoDup (filter P l).*1.
Proof. intros Hn. eapply sublist_NoDup; [done|]. by apply fmap_sublist, sublist_filter. Qed.

Section fetches.
Context `{LC : LedgerCache} `{RO : RowOrder} (names : Names) (M : LedgerEntry → list Z).
Abbreviation ok := (named names).
Abbreviation K := MarshalBinaryBase64.
Abbreviation Writes := (mfold (Write K (λ e, Some (M e)) (Some transformEntry))).

(** The rows that stand for an entry. *)
Definition decoded {R} (entry_of : R → outcome verification_error LedgerEntry) (rows : list R) : list LedgerEntry :=
  omap (λ r, match entry_of r with Ret e => Some e | _ => None end) rows.

#[local] Instance decoded_perm {R} (entry_of : R → outcome verification_error LedgerEntry) :
  Proper ((≡ₚ) ==> (≡ₚ)) (decoded entry_of).
Proof. intros rs rs' Hp. unfold decoded. by rewrite Hp. Qed.

Lemma decoded_map {R A} (entry_of : R → outcome verification_error LedgerEntry) (row : A → R) (g : A → LedgerEntry) l :
  (∀ x, x ∈ l → entry_of (row x) = Ret (g x)) → decoded entry_of (row <$> l) = g <$> l.
Proof.
  intros Hl. unfold decoded. rewrite omap_fmap. induction l as [|x l IH]; [done|]. cbn [omap list_omap].
  rewrite Hl by by left. rewrite fmap_cons. f_equal. apply IH. intros y Hy. apply Hl. by right.
Qed.

Lemma write_rows_decoded {R} (entry_of : R → outcome verification_error LedgerEntry) rows v :
  (∀ r, r ∈ rows → ∃ e, entry_of r = Ret e) →
  write_rows (λ e, Some (M e)) entry_of rows v = map_fail FromVerifier (Writes v (decoded entry_of rows)).
Proof.
  unfold write_rows. revert v. induction rows as [|r rows IH]; intros v Hr; [done|].
  destruct (Hr r) as [e He]; [by left|]. unfold decoded. cbn [mfold omap list_omap]. rewrite He. outcome_simpl.
  cbn [mfold]. unfold verifier_write. destruct (Write _ _ _ v e) as [v'| |]; cbn [map_fail outcome_bind]; [|done..].
  apply IH. intros r' Hr'. apply Hr. by right.
Qed.

(** The rows of a query by key, for a table that represents entries. *)
Section query.
Context {Kt R : Type} `{Countable Kt} (rkey : R → Kt) (kof : LedgerEntry → Kt) (row_of : LedgerEntry → R) (ty : LedgerEntryType).
Context (Hkeys : row_keys ok rkey kof row_of ty).

Definition found (s : rows) (B : list LedgerEntry) : list LedgerEntry := omap (λ e, s !! entry_key K e) B.

Lemma found_elem s B e : e ∈ found s B ↔ ∃ e', e' ∈ B ∧ s !! entry_key K e' = Some e.
Proof. apply list_elem_of_omap. Qed.

Lemma found_keys_NoDup s B : keyed ok s → NoDup (entry_key K <$> B) → NoDup (entry_key K <$> found s B).
Proof.
  intros Hs. unfold found. induction B as [|e B IH]; [done|]. rewrite fmap_cons. intros [He Hn]%NoDup_cons.
  cbn [omap list_omap]. destruct (s !! entry_key K e) as [w|] eqn:E; [|by apply IH]. rewrite fmap_cons. constructor; [|by apply IH].
  destruct (Hs _ _ E) as [Hw _]. intros (w' & Hk & (e' & He' & Hw')%found_elem)%list_elem_of_fmap.
  destruct (Hs _ _ Hw') as [Hkw' _]. apply He. apply list_elem_of_fmap. exists e'. split; [|done].
  unfold entry_key, key_text in Hk |- *. rewrite Hw, Hkw' in Hk. simpl in Hk. unfold entry_key, key_text in Hk. congruence.
Qed.

Lemma found_kof s B e :
  keyed ok s → all_type ty s → Forall (λ e, ok e ∧ data_type (Data e) = ty) B → e ∈ found s B → kof e ∈ kof <$> B.
Proof using Hkeys.
  intros Hs Hty HB (e' & He' & He)%found_elem. rewrite Forall_forall in HB.
  destruct (HB _ He') as [Ho' Ht'], (Hs _ _ He) as [Hke _].
  apply list_elem_of_fmap. exists e'. split; [|done]. apply (kof_key _ _ _ _ _ Hkeys); [by eapply Hty|done|].
  destruct Ho' as [_ [k' Hk']]. unfold entry_key, key_text in Hke. rewrite Hk' in Hke. simpl in Hke.
  by eapply MarshalBinaryBase64_inj.
Qed.

Lemma query_rows s (t : gmap Kt R) B :
  keyed ok s → all_type ty s → represents kof row_of s t → Forall (λ e, ok e ∧ data_type (Data e) = ty) B →
  NoDup (entry_key K <$> B) →
  (filter (λ kr, kr.1 ∈ kof <$> B) (map_to_list t)).*2 ≡ₚ row_of <$> found s B.
Proof using Hkeys.
  intros Hs Hty [H1 H2] HB Hn. pose proof (λ e, found_kof s B e Hs Hty HB) as Hkof. rewrite Forall_forall in HB.
  assert (∀ e, e ∈ found s B → ok e ∧ data_type (Data e) = ty) as Hf.
  { intros e (e' & _ & He)%found_elem. split; [by eapply Hs|by eapply Hty]. }
  assert (filter (λ kr : Kt * R, kr.1 ∈ kof <$> B) (map_to_list t) ≡ₚ (λ e, (kof e, row_of e)) <$> found s B) as ->.
  2:{ by rewrite <- list_fmap_compose. }
  apply NoDup_Permutation.
  - apply NoDup_filter, NoDup_map_to_list.
  - apply (NoDup_fmap_1 fst). rewrite <- list_fmap_compose. apply (NoDup_fmap_finer (entry_key K)); [by apply found_keys_NoDup|].
    intros e1 e2 [Ho1 Ht1]%Hf [Ho2 Ht2]%Hf Heq. unfold entry_key. f_equal. by apply (kof_inj _ _ _ _ _ Hkeys).
  - intros [q r]. rewrite list_elem_of_filter, elem_of_map_to_list, (list_elem_of_fmap (λ e, (kof e, row_of e))). cbn [fst]. split.
    + intros [(e' & -> & He')%list_elem_of_fmap Hr]. destruct (H2 _ _ Hr) as (k & e & He & Hq).
      destruct (Hs _ _ He) as [Hke Ho], (HB _ He') as [Ho' Ht'].
      assert (LedgerEntry_LedgerKey e = LedgerEntry_LedgerKey e') as Hk by (apply (kof_inj _ _ _ _ _ Hkeys); try done; by eapply Hty).
      exists e. rewrite Hq. split; [apply H1 in He; congruence|]. apply found_elem. exists e'. split; [done|].
      unfold entry_key, key_text. rewrite <- Hk, Hke. done.
    + intros (e & [= -> ->] & Hin). split; [by apply Hkof|]. apply found_elem in Hin as (e' & He' & He). by eapply H1.
Qed.

Lemma query_decoded (entry_of : R → outcome verification_error LedgerEntry) s (t : gmap Kt R) B :
  keyed ok s → all_type ty s → represents kof row_of s t → Forall (λ e, ok e ∧ data_type (Data e) = ty) B →
  NoDup (entry_key K <$> B) →
  (∀ k e, s !! k = Some e → kof e ∈ kof <$> B → entry_of (row_of e) = Ret (normal e)) →
  decoded entry_of (filter (λ kr, kr.1 ∈ kof <$> B) (map_to_list t)).*2 ≡ₚ normal <$> found s B.
Proof using Hkeys.
  intros Hs Hty Hr HB Hn Hd. rewrite <- (decoded_map entry_of row_of normal (found s B)).
  - by rewrite (query_rows s t B).
  - intros e Hin. pose proof (found_kof s B e Hs Hty HB Hin) as Hq. apply found_elem in Hin as (e' & _ & He). by eapply Hd.
Qed.

Lemma query_row (P : Kt * R → Prop) `{!∀ kr, Decision (P kr)} s (t : gmap Kt R) r :
  represents kof row_of s t → r ∈ (filter P (map_to_list t)).*2 → ∃ k e, s !! k = Some e ∧ r = row_of e ∧ P (kof e, r).
Proof using Type.
  intros [H1 H2] ([q r'] & -> & [HP Hr%elem_of_map_to_list]%list_elem_of_filter)%list_elem_of_fmap.
  destruct (H2 _ _ Hr) as (k & e & He & <-). exists k, e. split; [done|]. split; [|done]. apply H1 in He. simpl. congruence.
Qed.
End query.

(** *** The keys of a batch *)
Definition keys_accounts (keys : list LedgerKey) : list gostring :=
  omap (λ k, match k with LedgerEntryTypeAccount a => Some (address a) | _ => None end) keys.
Definition keys_data (keys : list LedgerKey) : list (AccountId * gostring) :=
  omap (λ k, match k with LedgerEntryTypeData a n => Some (a, n) | _ => None end) keys.
Definition keys_offers (keys : list LedgerKey) : list Z :=
  omap (λ k, match k with LedgerEntryTypeOffer _ i => Some i | _ => None end) keys.
Definition keys_trust_lines (keys : list LedgerKey) : list (AccountId * Asset) :=
  omap (λ k, match k with LedgerEntryTypeTrustline a x => Some (a, x) | _ => None end) keys.
Definition keys_balances (keys : list LedgerKey) : list ClaimableBalanceId :=
  omap (λ k, match k with LedgerEntryTypeClaimableBalance b => Some b | _ => None end) keys.

Lemma add_keys keys a d o t c :
  mfold add_key (MkBatchKeys a d o t c) keys =
  Ret (MkBatchKeys (a ++ keys_accounts keys) (d ++ keys_data keys) (o ++ keys_offers keys)
    (t ++ keys_trust_lines keys) (c ++ keys_balances keys)).
Proof.
  revert a d o t c. induction keys as [|k keys IH]; intros a d o t c; [by rewrite !app_nil_r|].
  cbn [mfold]. destruct k; cbn [add_key]; rewrite ?Address_total; outcome_simpl; cbn [must outcome_bind];
    rewrite IH, <- app_assoc; done.
Qed.

(** *** The entries that a batch writes *)
Definition maps_for (t : Tables) (ids : list gostring) : SignerMaps :=
  match mfold add_signer (MkSignerMaps ∅ ∅ ∅) (SignersForAccounts ids (t_signers t)) with
  | Ret m => m
  | _ => MkSignerMaps ∅ ∅ ∅
  end.
Definition trust_entry (row : TrustLineRow) : outcome verification_error LedgerEntry :=
  trustline ← trust_line_of_row row;
  addLedgerEntrySponsor (tr_LastModifiedLedger row) (DataTrustLine trustline) (tr_Sponsor row).
Definition account_entries (t : Tables) (ids : list gostring) : list LedgerEntry :=
  decoded (account_of_row (maps_for t ids)) (GetAccountsByIDs ids (t_accounts t)).
Definition data_entries (t : Tables) (keys : list (AccountId * gostring)) : list LedgerEntry :=
  decoded data_of_row
    (filter (λ kr, kr.1 ∈ (λ k, key_text K (LedgerEntryTypeData k.1 k.2)) <$> keys) (map_to_list (t_data t))).*2.
Definition offer_entries (t : Tables) (ids : list Z) : list LedgerEntry :=
  decoded offer_of_row (GetOffersByIDs ids (t_offers t)).
Definition trust_line_entries (t : Tables) (keys : list (AccountId * Asset)) : list LedgerEntry :=
  decoded trust_entry
    (filter (λ kr, kr.1 ∈ (λ k, key_text K (LedgerEntryTypeTrustline k.1 k.2)) <$> keys) (map_to_list (t_trust_lines t))).*2.
Definition balance_entries (t : Tables) (ids : list ClaimableBalanceId) : list LedgerEntry :=
  decoded balance_of_row (GetClaimableBalancesByID ids (t_balances t)).
Definition fetch_entries (t : Tables) (keys : list LedgerKey) : list LedgerEntry :=
  account_entries t (keys_accounts keys) ++ data_entries t (keys_data keys) ++ offer_entries t (keys_offers keys) ++
  trust_line_entries t (keys_trust_lines keys) ++ balance_entries t (keys_balances keys).

(** *** Tables that follow a ledger *)
Section follow.
Context (fut : list Change) (s : rows) (t : Tables) (Hfollow : tables_follow fut s t) (Hkeyed : keyed ok s).
Abbreviation accounts := (of_type TypeAccount s).

Lemma type_keyed ty : keyed ok (of_type ty s).
Proof using Hkeyed. by apply of_type_keyed. Qed.

Lemma follow_account k e : accounts !! k = Some e → ∃ a, Data e = DataAccount a ∧ account_wf a ∧ entry_wf names e.
Proof using Hkeyed.
  intros He. destruct (type_keyed _ _ _ He) as [_ [Hw _]]. pose proof (of_type_all TypeAccount s _ _ He) as Ht.
  destruct (Data e) as [a| | | |] eqn:E; try done. exists a. split_and!; [done| |done]. destruct Hw as [_ Hw]. by rewrite E in Hw.
Qed.

Lemma signer_row_follow q r : t_signers t !! q = Some r → signer_key r = q ∧
  ∃ k e a, accounts !! k = Some e ∧ Data e = DataAccount a ∧ account_wf a ∧ q.1 = address (Account_AccountId a) ∧
    account_signer a q.2 = Some r.
Proof using Hfollow Hkeyed.
  intros Hr. destruct (signers_ok _ _ _ Hfollow) as [H1 H2]. destruct q as [b x]. destruct (H2 b x) as (k & e & He & <-); [by eexists|].
  destruct (follow_account k e He) as (a & Ha & Hw & _). rewrite (H1 _ _ He) in Hr.
  unfold signer_row, account_key in *. rewrite Ha in *. split; [by apply account_signer_key in Hr|].
  exists k, e, a. done.
Qed.

Lemma SignersForAccounts_elem ids r :
  r ∈ SignersForAccounts ids (t_signers t) ↔ sr_Account r ∈ ids ∧ t_signers t !! signer_key r = Some r.
Proof using Hfollow Hkeyed.
  unfold SignersForAccounts. rewrite list_elem_of_fmap. split.
  - intros ([q r'] & -> & [Hq Hr%elem_of_map_to_list]%list_elem_of_filter). destruct (signer_row_follow _ _ Hr) as [<- _]. done.
  - intros [Ha Hr]. exists (signer_key r, r). split; [done|]. apply list_elem_of_filter. split; [done|]. by apply elem_of_map_to_list.
Qed.

Lemma SignersForAccounts_keys ids : NoDup (signer_key <$> SignersForAccounts ids (t_signers t)).
Proof using Hfollow Hkeyed.
  unfold SignersForAccounts. rewrite <- list_fmap_compose.
  assert (signer_key ∘ snd <$> filter (λ kr : gostring * gostring * AccountSignerRow, kr.1.1 ∈ ids) (map_to_list (t_signers t)) =
    fst <$> filter (λ kr : gostring * gostring * AccountSignerRow, kr.1.1 ∈ ids) (map_to_list (t_signers t))) as ->.
  { apply list_fmap_ext. intros i [q r] Hi%list_elem_of_lookup_2. apply list_elem_of_filter in Hi as [_ Hr%elem_of_map_to_list].
    by destruct (signer_row_follow _ _ Hr) as [<- _]. }
  apply NoDup_fst_filter, NoDup_fst_map_to_list.
Qed.

Lemma maps_for_ok ids : mfold add_signer (MkSignerMaps ∅ ∅ ∅) (SignersForAccounts ids (t_signers t)) = Ret (maps_for t ids) ∧
  maps_of signer_of (SignersForAccounts ids (t_signers t)) (maps_for t ids).
Proof using Hfollow Hkeyed.
  unfold maps_for. destruct (add_signers signer_of (SignersForAccounts ids (t_signers t))) as (m & -> & Hm); [..|done].
  - apply SignersForAccounts_keys.
  - intros r [_ Hr]%SignersForAccounts_elem Hne. destruct (signer_row_follow _ _ Hr) as (_ & k & e & a & _ & _ & Hw & Ha & Hs).
    cbn [signer_key fst snd] in Ha, Hs. destruct (account_signer_elem a (sr_Signer r) r) as (x & Hx & _ & ->); [done..|congruence|].
    unfold signer_of. by rewrite row_signer_total.
Qed.

Lemma account_listed ids k e a :
  accounts !! k = Some e → Data e = DataAccount a → address (Account_AccountId a) ∈ ids →
  lists_account a (SignersForAccounts ids (t_signers t)).
Proof using Hfollow Hkeyed.
  intros He Ha Hid. destruct (signers_ok _ _ _ Hfollow) as [H1 _].
  assert (∀ x, t_signers t !! (address (Account_AccountId a), x) = account_signer a x) as Hsame.
  { intros x. specialize (H1 _ _ He x). unfold account_key, signer_row in H1. by rewrite Ha in H1. }
  split.
  - apply SignersForAccounts_keys.
  - intros r [_ Hr]%SignersForAccounts_elem Hacc. rewrite <- Hsame. unfold signer_key in Hr. by rewrite Hacc in Hr.
  - intros x r Hr. apply SignersForAccounts_elem. rewrite (account_signer_key _ _ _ Hr), Hsame. split; [|done].
    pose proof (account_signer_key _ _ _ Hr) as [= -> _]. done.
Qed.

Lemma account_rows_decode ids k e :
  accounts !! k = Some e → account_key e ∈ ids → account_of_row (maps_for t ids) (account_row e) = Ret (normal e).
Proof using Hfollow Hkeyed.
  intros He Hid. destruct (follow_account k e He) as (a & Ha & Hw & Hwf). unfold account_key in Hid. rewrite Ha in Hid.
  eapply account_of_row_normal; [done..|by eapply account_listed|apply maps_for_ok].
Qed.

Lemma filter_no_key {Kt R} `{Countable Kt} (m : gmap Kt R) :
  filter (λ kr : Kt * R, kr.1 ∈ @nil Kt) (map_to_list m) = [].
Proof using Type. apply filter_none, Forall_forall. intros kr _. apply not_elem_of_nil. Qed.

(** The loops over the rows of the queries write these entries. *)
Lemma add_accounts v ids :
  addAccountsToStateVerifier (λ e, Some (M e)) v t ids = map_fail FromVerifier (Writes v (account_entries t ids)).
Proof using Hfollow Hkeyed.
  unfold account_entries, addAccountsToStateVerifier. destruct ids as [|i ids].
  { unfold GetAccountsByIDs. by rewrite filter_no_key. }
  rewrite (proj1 (maps_for_ok (i :: ids))). outcome_simpl. apply write_rows_decoded. intros r Hr.
  destruct (query_row account_key account_row _ _ _ r (accounts_ok _ _ _ Hfollow) Hr) as (k & e & He & -> & Hid).
  exists (normal e). by eapply account_rows_decode.
Qed.

Lemma data_row_decode k e : of_type TypeData s !! k = Some e → data_of_row (data_rows e) = Ret (normal e).
Proof using Hkeyed.
  intros He. destruct (type_keyed _ _ _ He) as [_ [Hw _]]. by apply (data_of_row_normal names), (of_type_all TypeData s k).
Qed.
Lemma offer_row_decode k e : of_type TypeOffer s !! k = Some e → offer_of_row (offer_row e) = Ret (normal e).
Proof using Hkeyed.
  intros He. destruct (type_keyed _ _ _ He) as [_ [Hw _]]. by apply (offer_of_row_normal names), (of_type_all TypeOffer s k).
Qed.
Lemma trust_row_decode k e :
  of_type TypeTrustline s !! k = Some e →
  ∃ l, trust_line_of_row (trust_line_rows e) = Ret l ∧ Data (normal e) = DataTrustLine l ∧ trust_entry (trust_line_rows e) = Ret (normal e).
Proof using Hkeyed.
  intros He. destruct (type_keyed _ _ _ He) as [_ [Hw _]].
  destruct (trust_line_of_row_normal names e (ledger_key_text e) Hw) as (l & Hl & Ha & Hd); [by apply (of_type_all TypeTrustline s k)|].
  exists l. split_and!; [done..|]. unfold trust_entry, trust_line_rows. rewrite Hl. outcome_simpl. done.
Qed.
Lemma balance_row_decode k e : of_type TypeClaimableBalance s !! k = Some e → balance_of_row (balance_row e) = Ret (normal e).
Proof using Hkeyed.
  intros He. destruct (type_keyed _ _ _ He) as [_ [Hw _]]. by apply (balance_of_row_normal names), (of_type_all TypeClaimableBalance s k).
Qed.

Lemma add_data v keys :
  Forall (λ k, is_Some (K (LedgerEntryTypeData k.1 k.2))) keys →
  addDataToStateVerifier (λ e, Some (M e)) v t keys = map_fail FromVerifier (Writes v (data_entries t keys)).
Proof using Hfollow Hkeyed.
  intros Hn. unfold data_entries, addDataToStateVerifier. destruct keys as [|i keys]; [cbn [fmap list_fmap]; by rewrite filter_no_key|].
  unfold GetAccountDataByKeys.
  rewrite (mfold_map _ (λ k, key_text K (LedgerEntryTypeData k.1 k.2)) (i :: keys) []).
  2:{ rewrite Forall_forall in Hn. intros acc [a n] [x Hx]%Hn. unfold ledgerKeyDataToString, ledgerKeyToString, key_text.
      cbn [fst snd] in *. by rewrite Hx. }
  outcome_simpl. cbn [map_fail outcome_bind app]. apply write_rows_decoded. intros r Hr.
  destruct (query_row data_key data_rows _ _ _ r (data_ok _ _ _ Hfollow) Hr) as (k & e & He & -> & _).
  exists (normal e). by eapply data_row_decode.
Qed.

(** The live offers. *)
Lemma offer_query ids :
  GetOffersByIDs ids (t_offers t) ≡ₚ (filter (λ kr, kr.1 ∈ ids) (map_to_list (live (offer_rows (t_offers t))))).*2.
Proof using Hfollow.
  unfold GetOffersByIDs. rewrite filter_fmap_snd. f_equiv. apply NoDup_Permutation; [apply NoDup_filter, NoDup_map_to_list..|].
  intros [q r]. rewrite !list_elem_of_filter, !elem_of_map_to_list. cbn [fst snd]. destruct (offers_ok _ _ _ Hfollow) as ([H1 H2] & _).
  assert (live (offer_rows (t_offers t)) !! q = Some r → or_OfferID r = q) as Hid.
  { intros Hr. destruct (H2 _ _ Hr) as (k & e & He & <-). rewrite (H1 _ _ He) in Hr. injection Hr as <-.
    pose proof (of_type_all TypeOffer s _ _ He) as Ht. unfold offer_row, offer_key. by destruct (Data e). }
  unfold live in *. rewrite map_lookup_filter_Some in *. naive_solver.
Qed.

Lemma add_offers v ids :
  addOffersToStateVerifier (λ e, Some (M e)) v t ids = map_fail FromVerifier (Writes v (offer_entries t ids)).
Proof using Hfollow Hkeyed.
  unfold offer_entries, addOffersToStateVerifier.
  assert (∀ r, r ∈ GetOffersByIDs ids (t_offers t) → ∃ e, offer_of_row r = Ret e) as Hr.
  { intros r. rewrite offer_query. intros Hr.
    destruct (query_row offer_key offer_row _ _ _ r (proj1 (offers_ok _ _ _ Hfollow)) Hr) as (k & e & He & -> & _).
    exists (normal e). by eapply offer_row_decode. }
  destruct ids as [|i ids]; [|by apply write_rows_decoded].
  assert (GetOffersByIDs [] (t_offers t) = []) as ->; [|done].
  apply filter_none, Forall_forall. intros r _ [_ Hin]. by apply elem_of_nil in Hin.
Qed.

Lemma add_balances v ids :
  addClaimableBalanceToStateVerifier (λ e, Some (M e)) v t ids = map_fail FromVerifier (Writes v (balance_entries t ids)).
Proof using Hfollow Hkeyed.
  unfold balance_entries, addClaimableBalanceToStateVerifier. destruct ids as [|i ids].
  { unfold GetClaimableBalancesByID. by rewrite filter_no_key. }
  apply write_rows_decoded. intros r Hr.
  destruct (query_row balance_key balance_row _ _ _ r (balances_ok _ _ _ Hfollow) Hr) as (k & e & He & -> & _).
  exists (normal e). by eapply balance_row_decode.
Qed.

(** The trust lines are added to the statistics too. *)
Definition add_line (D : AssetStatSet) (e : LedgerEntry) : AssetStatSet :=
  match Data e with
  | DataTrustLine l => match Add D l with Ret D' => D' | _ => D end
  | _ => D
  end.

Lemma Add_total D l : ∃ D', Add D l = Ret D'.
Proof using Type.
  unfold Add. destruct (negb _); [by eexists|]. unfold AddDelta. destruct (_ && _); [by eexists|].
  rewrite ExtractType_stat. cbn [map_fail]. outcome_simpl. destruct (D !! _); [|by eexists]. cbv zeta.
  match goal with |- context [if ?b then _ else _] => destruct b end; by eexists.
Qed.

Lemma add_trust_lines v D keys :
  Forall (λ k, is_Some (K (LedgerEntryTypeTrustline k.1 k.2))) keys →
  addTrustLinesToStateVerifier (λ e, Some (M e)) v D t keys =
  match Writes v (trust_line_entries t keys) with
  | Ret v' => Ret (v', foldl add_line D (trust_line_entries t keys))
  | Fail e => Fail (FromVerifier e)
  | Panic => Panic
  end.
Proof using Hfollow Hkeyed.
  intros Hn. unfold trust_line_entries, addTrustLinesToStateVerifier.
  destruct keys as [|i keys]; [cbn [fmap list_fmap]; by rewrite filter_no_key|].
  unfold GetTrustLinesByKeys.
  rewrite (mfold_map _ (λ k, key_text K (LedgerEntryTypeTrustline k.1 k.2)) (i :: keys) []).
  2:{ rewrite Forall_forall in Hn. intros acc [a n] [x Hx]%Hn. unfold ledgerKeyTrustLineToString, ledgerKeyToString, key_text.
      cbn [fst snd] in *. by rewrite Hx. }
  outcome_simpl. cbn [map_fail outcome_bind app].
  assert (∀ r, r ∈ (filter (λ kr : gostring * TrustLineRow, kr.1 ∈ (λ k, key_text K (LedgerEntryTypeTrustline k.1 k.2)) <$> (i :: keys))
    (map_to_list (t_trust_lines t))).*2 → ∃ l e, trust_line_of_row r = Ret l ∧ trust_entry r = Ret e ∧ Data e = DataTrustLine l) as Hrow.
  { intros r Hr. destruct (query_row ledger_key_text trust_line_rows _ _ _ r (trust_lines_ok _ _ _ Hfollow) Hr) as (k & e & He & -> & _).
    destruct (trust_row_decode k e He) as (l & ? & ? & ?). eauto. }
  revert Hrow. generalize (filter (λ kr : gostring * TrustLineRow, kr.1 ∈ (λ k, key_text K (LedgerEntryTypeTrustline k.1 k.2)) <$> (i :: keys))
    (map_to_list (t_trust_lines t))).*2. intros rs. revert v D. induction rs as [|r rs IH]; intros v D Hrow; [done|].
  destruct (Hrow r) as (l & e & Hl & He & Hd); [by left|]. unfold decoded. cbn [omap list_omap mfold]. rewrite He. cbn [mfold foldl].
  unfold trust_entry in He. rewrite Hl in *. outcome_simpl. cbn [outcome_bind] in *. rewrite He. cbn [outcome_bind].
  unfold verifier_write. destruct (Write _ _ _ v e) as [v'| |]; cbn [map_fail outcome_bind]; [|done..].
  destruct (Add_total D l) as [D' HD]. unfold add_line at 2. rewrite Hd, HD. cbn [map_fail outcome_bind]. apply IH.
  intros r' Hr'. apply Hrow. by right.
Qed.

(** Entries other than trust lines leave the statistics as they are. *)
Lemma add_line_other D l : (∀ e, e ∈ l → data_type (Data e) ≠ TypeTrustline) → foldl add_line D l = D.
Proof using Type.
  revert D. induction l as [|e l IH]; intros D Hl; [done|]. cbn [foldl].
  assert (add_line D e = D) as ->; [|apply IH; intros e' He'; apply Hl; by right].
  specialize (Hl e ltac:(by left)). unfold add_line. by destruct (Data e).
Qed.

(** What the queries stand for are entries of the ledger, of their type. *)
Definition stands (ty : LedgerEntryType) (e : LedgerEntry) : Prop := ∃ k e0, of_type ty s !! k = Some e0 ∧ e = normal e0.

Lemma stands_type ty e : stands ty e → data_type (Data e) = ty.
Proof using Type.
  intros (k & e0 & H0 & ->). pose proof (of_type_all ty s _ _ H0) as Ht. unfold normal. cbn. by destruct (Data e0).
Qed.

Lemma decoded_elem {R} (entry_of : R → outcome verification_error LedgerEntry) (row : LedgerEntry → R) ty rs e :
  (∀ r, r ∈ rs → ∃ k e, of_type ty s !! k = Some e ∧ r = row e ∧ entry_of (row e) = Ret (normal e)) →
  e ∈ decoded entry_of rs → stands ty e.
Proof using Type.
  intros Hrs (r & Hr & He)%list_elem_of_omap. destruct (Hrs r Hr) as (k & e0 & H0 & -> & Hd). rewrite Hd in He. injection He as <-.
  by exists k, e0.
Qed.

Lemma account_entries_stand ids e : e ∈ account_entries t ids → stands TypeAccount e.
Proof using Hfollow Hkeyed.
  apply decoded_elem with (row := account_row). intros r Hr.
  destruct (query_row account_key account_row _ _ _ r (accounts_ok _ _ _ Hfollow) Hr) as (k & e0 & He & -> & Hid).
  exists k, e0. split_and!; [done..|]. by eapply account_rows_decode.
Qed.
Lemma data_entries_stand keys e : e ∈ data_entries t keys → stands TypeData e.
Proof using Hfollow Hkeyed.
  apply decoded_elem with (row := data_rows). intros r Hr.
  destruct (query_row data_key data_rows _ _ _ r (data_ok _ _ _ Hfollow) Hr) as (k & e0 & He & -> & Hid).
  exists k, e0. split_and!; [done..|]. by eapply data_row_decode.
Qed.
Lemma offer_entries_stand ids e : e ∈ offer_entries t ids → stands TypeOffer e.
Proof using Hfollow Hkeyed.
  apply decoded_elem with (row := offer_row). intros r. rewrite offer_query. intros Hr.
  destruct (query_row offer_key offer_row _ _ _ r (proj1 (offers_ok _ _ _ Hfollow)) Hr) as (k & e0 & He & -> & Hid).
  exists k, e0. split_and!; [done..|]. by eapply offer_row_decode.
Qed.
Lemma trust_line_entries_stand keys e : e ∈ trust_line_entries t keys → stands TypeTrustline e.
Proof using Hfollow Hkeyed.
  apply decoded_elem with (row := trust_line_rows). intros r Hr.
  destruct (query_row ledger_key_text trust_line_rows _ _ _ r (trust_lines_ok _ _ _ Hfollow) Hr) as (k & e0 & He & -> & _).
  exists k, e0. split_and!; [done..|]. by destruct (trust_row_decode k e0 He) as (? & _ & _ & ?).
Qed.
Lemma balance_entries_stand ids e : e ∈ balance_entries t ids → stands TypeClaimableBalance e.
Proof using Hfollow Hkeyed.
  apply decoded_elem with (row := balance_row). intros r Hr.
  destruct (query_row balance_key balance_row _ _ _ r (balances_ok _ _ _ Hfollow) Hr) as (k & e0 & He & -> & Hid).
  exists k, e0. split_and!; [done..|]. by eapply balance_row_decode.
Qed.

Lemma Forall_omap {A B} (P : A → Prop) (Q : B → Prop) (f : A → option B) (l : list A) :
  Forall P l → (∀ x y, P x → f x = Some y → Q y) → Forall Q (omap f l).
Proof using Type.
  intros Hl Hf. apply Forall_forall. intros y (x & Hx & Hy)%list_elem_of_omap. rewrite Forall_forall in Hl. eapply Hf; [by apply Hl|done].
Qed.

(** A batch writes the entries it fetches, and counts the trust lines among them. *)
Lemma verify_batch_fetch v D keys :
  Forall (λ k, is_Some (K k)) keys →
  verify_batch (λ e, Some (M e)) t (v, D) keys =
  match Writes v (fetch_entries t keys) with
  | Ret v' => Ret (v', foldl add_line D (fetch_entries t keys))
  | Fail e => Fail (FromVerifier e)
  | Panic => Panic
  end.
Proof using Hfollow Hkeyed.
  intros Hn. unfold verify_batch, fetch_entries. rewrite add_keys. cbn [app]. outcome_simpl.
  cbn [k_accounts k_data k_offers k_trustLines k_cBalances].
  rewrite !foldl_app, (add_line_other D), (add_line_other D), (add_line_other D), (add_line_other (foldl _ _ _)).
  2:{ by intros e ->%balance_entries_stand%stands_type. } 2:{ by intros e ->%offer_entries_stand%stands_type. }
  2:{ by intros e ->%data_entries_stand%stands_type. } 2:{ by intros e ->%account_entries_stand%stands_type. }
  rewrite add_accounts, !mfold_app.
  destruct (Writes v _) as [v1| |]; cbn [map_fail outcome_bind]; [|done..].
  rewrite add_data by by (eapply Forall_omap; [done|]; intros [] y ? [= <-]).
  rewrite mfold_app. destruct (Writes v1 _) as [v2| |]; cbn [map_fail outcome_bind]; [|done..].
  rewrite add_offers, mfold_app. destruct (Writes v2 _) as [v3| |]; cbn [map_fail outcome_bind]; [|done..].
  rewrite add_trust_lines by by (eapply Forall_omap; [done|]; intros [] y ? [= <-]).
  rewrite mfold_app. destruct (Writes v3 _) as [v4| |]; cbn [map_fail outcome_bind]; [|done..].
  rewrite add_balances. destruct (Writes v4 _) as [v5| |]; done.
Qed.

(** *** The entries fetched are those of the ledger with the keys of the batch *)
Definition typed (ty : LedgerEntryType) (B : list LedgerEntry) : list LedgerEntry := filter (λ e, data_type (Data e) = ty) B.

Lemma typed_cons ty e B : typed ty (e :: B) = if decide (data_type (Data e) = ty) then e :: typed ty B else typed ty B.
Proof using Type. unfold typed. by rewrite filter_cons. Qed.

Lemma typed_perm B :
  typed TypeAccount B ++ typed TypeData B ++ typed TypeOffer B ++ typed TypeTrustline B ++ typed TypeClaimableBalance B ≡ₚ B.
Proof using Type.
  induction B as [|e B IH]; [done|]. rewrite !typed_cons. etrans; [|apply perm_skip, IH].
  destruct (data_type (Data e)); repeat case_decide; try done; cbn [app]; by repeat rewrite <- Permutation_middle.
Qed.

Lemma typed_all ty B : Forall ok B → Forall (λ e, ok e ∧ data_type (Data e) = ty) (typed ty B).
Proof using Type.
  intros HB. apply Forall_forall. intros e [Ht He]%list_elem_of_filter. rewrite Forall_forall in HB. split; [by apply HB|done].
Qed.

Lemma typed_NoDup ty B : NoDup (entry_key K <$> B) → NoDup (entry_key K <$> typed ty B).
Proof using Type. intros Hn. eapply sublist_NoDup; [done|]. by apply fmap_sublist, sublist_filter. Qed.

(** The keys of an entry of a type. *)
Lemma keys_of_typed {A} ty (f : LedgerKey → option A) (g : LedgerEntry → A) B :
  (∀ e, data_type (Data e) = ty → f (LedgerEntry_LedgerKey e) = Some (g e)) →
  (∀ e, data_type (Data e) ≠ ty → f (LedgerEntry_LedgerKey e) = None) →
  omap f (LedgerEntry_LedgerKey <$> B) = g <$> typed ty B.
Proof using Type.
  intros H1 H2. induction B as [|e B IH]; [done|]. rewrite typed_cons, fmap_cons. cbn [omap list_omap].
  case_decide as Ht; [rewrite H1 by done; rewrite fmap_cons; by f_equal|by rewrite H2].
Qed.

Lemma found_typed ty B : Forall ok B → found (of_type ty s) (typed ty B) = found s (typed ty B).
Proof using Hkeyed.
  intros HB%(typed_all ty). unfold found. induction HB as [|e B' [[_ [k Hk]] Ht] _ IH]; [done|]. cbn [omap list_omap]. rewrite IH.
  rewrite of_type_lookup. destruct (s !! entry_key K e) as [w|] eqn:E; [|done]. simpl. rewrite decide_True; [done|].
  destruct (Hkeyed _ _ E) as [Hw _]. unfold entry_key, key_text in Hw. rewrite Hk in Hw. simpl in Hw.
  pose proof (MarshalBinaryBase64_inj _ _ _ Hw Hk) as Heq. rewrite <- Ht. unfold LedgerEntry_LedgerKey in Heq.
  destruct (Data w), (Data e); done.
Qed.

Lemma piece {Kt R} `{Countable Kt} (rkey : R → Kt) kof row ty (tbl : gmap Kt R) (entry_of : R → outcome verification_error LedgerEntry) B :
  row_keys ok rkey kof row ty → represents kof row (of_type ty s) tbl →
  (∀ k e, of_type ty s !! k = Some e → kof e ∈ kof <$> typed ty B → entry_of (row e) = Ret (normal e)) →
  Forall ok B → NoDup (entry_key K <$> B) →
  decoded entry_of (filter (λ kr, kr.1 ∈ kof <$> typed ty B) (map_to_list tbl)).*2 ≡ₚ normal <$> found s (typed ty B).
Proof using Hkeyed.
  intros Hk Hr Hd HB Hn. rewrite <- found_typed by done.
  apply (query_decoded rkey kof row ty Hk); [apply type_keyed|apply of_type_all|done|by apply typed_all|by apply typed_NoDup|].
  done.
Qed.

Definition good (k : LedgerKey) : Prop := ∃ e, ok e ∧ LedgerEntry_LedgerKey e = k.
Lemma good_entries keys : Forall good keys → ∃ B, keys = LedgerEntry_LedgerKey <$> B ∧ Forall ok B.
Proof using Type.
  induction 1 as [|k keys (e & He & <-) _ (B & -> & HB)]; [by exists []|]. exists (e :: B). split; [done|by constructor].
Qed.

Lemma text_keys_typed {A} ty (f : LedgerKey → option A) (g : A → LedgerKey) B :
  (∀ e, data_type (Data e) = ty → g <$> f (LedgerEntry_LedgerKey e) = Some (LedgerEntry_LedgerKey e)) →
  (∀ e, data_type (Data e) ≠ ty → f (LedgerEntry_LedgerKey e) = None) →
  (λ x, key_text K (g x)) <$> omap f (LedgerEntry_LedgerKey <$> B) = ledger_key_text <$> typed ty B.
Proof using Type.
  intros H1 H2. induction B as [|e B IH]; [done|]. rewrite typed_cons, fmap_cons. cbn [omap list_omap].
  case_decide as Ht; [|by rewrite H2]. specialize (H1 e Ht). destruct (f (LedgerEntry_LedgerKey e)) as [x|]; [|done].
  injection H1 as H1. rewrite !fmap_cons, H1. by f_equal.
Qed.

Lemma normal_key e : LedgerEntry_LedgerKey (normal e) = LedgerEntry_LedgerKey e.
Proof using Type. unfold normal, LedgerEntry_LedgerKey. by destruct e as [seq [] ext]. Qed.

(** Whatever keys are asked for, the answer has entries of the ledger only. *)
Lemma fetch_stored keys w : w ∈ fetch_entries t keys → (normal <$> s) !! entry_key K w = Some w.
Proof using Hfollow Hkeyed.
  intros Hw. assert (∃ ty, stands ty w) as (ty & k & e & [He _]%map_lookup_filter_Some & ->).
  { unfold fetch_entries in Hw. rewrite !elem_of_app in Hw.
    destruct Hw as [?%account_entries_stand|[?%data_entries_stand|[?%offer_entries_stand|[?%trust_line_entries_stand|
      ?%balance_entries_stand]]]]; by eexists. }
  destruct (Hkeyed _ _ He) as [Hk _]. unfold entry_key, key_text. rewrite normal_key, Hk. simpl. by rewrite lookup_fmap, He.
Qed.

Lemma known_good k : known K (normal <$> s) k → good k.
Proof using Hkeyed.
  intros [HK [w (e & <- & He)%lookup_fmap_Some]]. destruct (Hkeyed _ _ He) as [Hk Ho]. exists e. split; [done|].
  by eapply MarshalBinaryBase64_inj.
Qed.

Lemma fetch_perm keys :
  Forall (known K (normal <$> s)) keys → NoDup (key_text K <$> keys) →
  fetch_entries t keys ≡ₚ omap (λ k, (normal <$> s) !! key_text K k) keys.
Proof using Hfollow Hkeyed.
  intros Hkn%(Forall_impl _ good); [|apply known_good]. revert Hkn.
  intros (B & -> & HB)%good_entries Hn. rewrite <- list_fmap_compose in Hn.
  assert (omap (λ k, (normal <$> s) !! key_text K k) (LedgerEntry_LedgerKey <$> B) = normal <$> found s B) as ->.
  { rewrite omap_fmap. unfold found. clear. induction B as [|e B IH]; [done|]. cbn [omap list_omap]. rewrite lookup_fmap, IH.
    unfold entry_key. by destruct (s !! key_text K (LedgerEntry_LedgerKey e)). }
  assert (found s B ≡ₚ found s (typed TypeAccount B ++ typed TypeData B ++ typed TypeOffer B ++ typed TypeTrustline B ++
    typed TypeClaimableBalance B)) as -> by (unfold found; by rewrite typed_perm).
  unfold found. rewrite !omap_app, !fmap_app. unfold fetch_entries.
  f_equiv; [|f_equiv; [|f_equiv; [|f_equiv]]].
  - unfold account_entries, GetAccountsByIDs, keys_accounts. rewrite (keys_of_typed TypeAccount _ account_key).
    + eapply piece; [apply account_keys|apply Hfollow| |done..]. intros k e He Hq. by eapply account_rows_decode.
    + intros e. unfold account_key, LedgerEntry_LedgerKey. by destruct (Data e).
    + intros e. unfold LedgerEntry_LedgerKey. by destruct (Data e).
  - unfold data_entries, keys_data. rewrite (text_keys_typed TypeData).
    + eapply piece; [apply data_keys|apply Hfollow| |done..]. intros k e He _. by eapply data_row_decode.
    + intros e. unfold LedgerEntry_LedgerKey. by destruct (Data e).
    + intros e. unfold LedgerEntry_LedgerKey. by destruct (Data e).
  - unfold offer_entries. rewrite offer_query. unfold keys_offers. rewrite (keys_of_typed TypeOffer _ offer_key).
    + eapply piece; [apply offer_keys|apply Hfollow| |done..]. intros k e He _. by eapply offer_row_decode.
    + intros e. unfold offer_key, LedgerEntry_LedgerKey. by destruct (Data e).
    + intros e. unfold LedgerEntry_LedgerKey. by destruct (Data e).
  - unfold trust_line_entries, keys_trust_lines. rewrite (text_keys_typed TypeTrustline).
    + eapply piece; [apply trust_line_keys|apply Hfollow| |done..]. intros k e He _. by destruct (trust_row_decode k e He) as (? & _ & _ & ?).
    + intros e. unfold LedgerEntry_LedgerKey. by destruct (Data e).
    + intros e. unfold LedgerEntry_LedgerKey. by destruct (Data e).
  - unfold balance_entries, GetClaimableBalancesByID, keys_balances. rewrite (keys_of_typed TypeClaimableBalance _ balance_key).
    + eapply piece; [apply balance_keys|apply Hfollow| |done..]. intros k e He _. by eapply balance_row_decode.
    + intros e. unfold balance_key, LedgerEntry_LedgerKey. by destruct (Data e).
    + intros e. unfold LedgerEntry_LedgerKey. by destruct (Data e).
Qed.
End follow.
End fetches.
