(* ===== verification/VerifyState.v ===== *)
(** * aurora: what verifyState decides

    The whole of [verifyState] of [src/services/aurora/internal/ingest/verify.go]
    and its correctness: over tables that follow a ledger, it accepts exactly the
    archives that hold the entries of that ledger. *)

From S2P Require Import Transaction LedgerReaders.
From S2P Require Import Prelude Strkey Xdr LedgerEntry HistoryRange ChangeCache StateVerifier HistoryTables StatPages RowEntries.
From S2P Require Import ChangeProcessor StateProcessors SignersProcessor AssetStats ProcessorRunner IngestVerify.
#[local] Opaque address.

(** ** The loop *)
Section loop.
Context `{LC : LedgerCache} `{RO : RowOrder} (names : Names) (M : LedgerEntry → list Z).
Abbreviation ok := (named names).
Abbreviation K := MarshalBinaryBase64.
Abbreviation transform := (Some transformEntry).
Abbreviation marshalled := (λ e, Some (M e)).

Lemma keys_loop_named F reader : ∀ count n entries keys v' keys',
  Forall (λ k, is_Some (K k)) keys → keys_loop K F reader count n entries keys = Ret (v', keys') →
  Forall (λ k, is_Some (K k)) keys'.
Proof.
  induction reader as [|[err|e] reader IH]; intros count n entries keys v' keys' Hk; cbn [keys_loop];
    (destruct (count <=? 0); [by intros [= _ <-]|]); [by intros [= _ <-]|done|].
  outcome_simpl. destruct (match F with None => _ | Some _ => _ end) as [[ignore e']| |]; cbn [outcome_bind]; [|done..].
  destruct ignore; [by apply IH|]. unfold marshal. destruct (K (LedgerEntry_LedgerKey e')) as [x|] eqn:E; cbn [outcome_bind]; [|done].
  apply IH. apply Forall_app. split; [done|]. constructor; [by eexists|constructor].
Qed.

Lemma GetLedgerKeys_named F v n v' keys : GetLedgerKeys K F v n = Ret (v', keys) → Forall (λ k, is_Some (K k)) keys.
Proof.
  unfold GetLedgerKeys. outcome_simpl. destruct (checkUnreadEntries v); cbn [outcome_bind]; [|done..].
  destruct (keys_loop K F _ _ _ _ _) as [[v1 ks]| |] eqn:E; cbn [outcome_bind]; [|done..]. intros [= _ <-].
  by eapply keys_loop_named; [|exact E].
Qed.

Context (fut : list Change) (s : rows) (t : Tables) (Hfollow : tables_follow fut s t) (Hkeyed : keyed ok s).

(** The loop is the one of StateVerifier.v, over the entries that the queries
    stand for; the statistics are those of the entries fetched. *)
Lemma verification_loop_refines fuel v D :
  verification_loop marshalled fuel t (v, D) =
  match verify_loop K marshalled transform (fetch_entries t) fuel verifyBatchSize v with
  | Ret v' => Ret (v', foldl add_line D (fetched K M transform (fetch_entries t) verifyBatchSize fuel v))
  | Fail e => Fail (FromVerifier e)
  | Panic => Panic
  end.
Proof using Hfollow Hkeyed.
  revert v D. induction fuel as [|fuel IH]; intros v D; [done|]. cbn [verification_loop verify_loop fetched fst snd].
  destruct (GetLedgerKeys K transform v verifyBatchSize) as [[v1 keys]| |] eqn:E; outcome_simpl; cbn [map_fail outcome_bind]; [|done..].
  apply GetLedgerKeys_named in E. destruct keys as [|k keys]; [done|].
  rewrite (verify_batch_fetch names M fut s t Hfollow Hkeyed) by done.
  destruct (mfold _ v1 _) as [v2| |]; cbn [outcome_bind]; [|done..]. rewrite IH.
  destruct (verify_loop _ _ _ _ fuel _ v2) as [v3| |]; [|done..]. by rewrite foldl_app.
Qed.
End loop.

(** ** The statistics of the trust lines *)
Definition sum_of (f : LedgerEntry → Z) (l : list LedgerEntry) : Z := foldr (λ e acc, f e + acc) 0 l.

#[local] Instance sum_of_perm f : Proper ((≡ₚ) ==> eq) (sum_of f).
Proof. intros l l' Hp. induction Hp; simpl in *; lia. Qed.

Lemma total_sum f s : total f s = sum_of f (map_to_list s).*2.
Proof.
  induction s as [|k e s Hk IH] using map_ind; [by rewrite map_to_list_empty|].
  rewrite total_insert by done. rewrite map_to_list_insert by done. simpl. by rewrite IH.
Qed.

Lemma total_of_type f ty s : (∀ e, data_type (Data e) ≠ ty → f e = 0) → total f (of_type ty s) = total f s.
Proof.
  intros Hf. induction s as [|k e s Hk IH] using map_ind; [unfold of_type; by rewrite map_filter_empty|].
  rewrite total_insert by done. unfold of_type in *. destruct (decide (data_type (Data e) = ty)) as [Ht|Ht].
  - rewrite map_filter_insert_True, total_insert by (done || apply map_lookup_filter_None; by left). by rewrite IH.
  - rewrite map_filter_insert_False, delete_id by done. by rewrite IH, Hf.
Qed.

Lemma i32_idemp x : i32 (i32 x) = i32 x.
Proof. apply i32_small, i32_range. Qed.

Lemma add_line_sum D e (A N : assetStatKey → Z) :
  (∀ q, D !! q = stat_value (A q) (i32 (N q))) →
  ∀ q, add_line D e !! q = stat_value (A q + line_amount q e) (i32 (N q + line_count q e)).
Proof.
  intros HD q. unfold add_line, line_amount, line_count, line_authorized.
  destruct (Data e) as [|l| | |]; rewrite ?Z.add_0_r; try apply HD.
  unfold Add. destruct (IsAuthorized (TrustLine_Flags l)); cbn [negb]; rewrite ?andb_false_r, ?andb_true_r, ?Z.add_0_r; [|apply HD].
  destruct (AddDelta_spec D (TrustLine_Asset l) (TrustLine_Balance l) 1) as (D' & -> & HD').
  - auto.
  - intros v Hv. rewrite HD in Hv. pose proof Hv as [-> _]%stat_value_Some. cbn [amount numAccounts]. by rewrite i32_idemp.
  - rewrite HD'. destruct (decide (q = asset_stat (TrustLine_Asset l))) as [->|Hq].
    + rewrite bool_decide_true by done. rewrite HD, stat_or_0_value. cbn [amount numAccounts]. by rewrite i32_add.
    + rewrite bool_decide_false, !Z.add_0_r by congruence. apply HD.
Qed.

Lemma add_lines_sum l D (A N : assetStatKey → Z) :
  (∀ q, D !! q = stat_value (A q) (i32 (N q))) →
  ∀ q, foldl add_line D l !! q = stat_value (A q + sum_of (line_amount q) l) (i32 (N q + sum_of (line_count q) l)).
Proof.
  revert D A N. induction l as [|e l IH]; intros D A N HD q; simpl; [by rewrite !Z.add_0_r|].
  rewrite (IH _ (λ q, A q + line_amount q e) (λ q, N q + line_count q e)); [by rewrite <- !Z.add_assoc|]. by apply add_line_sum.
Qed.

(** ** checkAssetStats *)
Section stats.
Context `{RO : RowOrder}.

(** What the set holds for a row. *)
Definition stat_of (D : AssetStatSet) (r : ExpAssetStat) : option ExpAssetStat :=
  stat_row (asset_stat_key r) <$> D !! asset_stat_key r.

Lemma check_stats rs D :
  NoDup (asset_stat_key <$> rs) →
  (∃ D', mfold check_stat D rs = Ret D' ∧ (∀ r, r ∈ rs → stat_of D r = Some r) ∧
     ∀ q, D' !! q = if decide (q ∈ asset_stat_key <$> rs) then None else D !! q) ∨
  (∃ e, mfold check_stat D rs = Fail e ∧ is_state_failure e = true ∧ ∃ r, r ∈ rs ∧ stat_of D r ≠ Some r).
Proof.
  revert D. induction rs as [|r rs IH]; intros D Hn.
  { left. exists D. split_and!; [done|by intros r ?%elem_of_nil|]. intros q. by rewrite decide_False by apply not_elem_of_nil. }
  rewrite fmap_cons in Hn. apply NoDup_cons in Hn as [Hr Hn]. cbn [mfold]. unfold check_stat at 2 4, AssetStatSet_Remove.
  destruct (D !! asset_stat_key r) as [v|] eqn:E.
  2:{ right. exists StateErrStatMissing. split_and!; [done..|]. exists r. split; [by left|]. unfold stat_of. by rewrite E. }
  case_bool_decide as Hv; cbn [outcome_bind].
  2:{ right. exists StateErrStatMismatch. split_and!; [done..|]. exists r. split; [by left|]. unfold stat_of. rewrite E.
      intros [= Heq]. done. }
  assert (∀ r', r' ∈ rs → stat_of (delete (asset_stat_key r) D) r' = stat_of D r') as Hsame.
  { intros r' Hr'. unfold stat_of. rewrite lookup_delete_ne; [done|]. intros Heq. apply Hr. rewrite Heq. by apply list_elem_of_fmap_2. }
  destruct (IH (delete (asset_stat_key r) D) Hn) as [(D' & HD' & Hall & Hlook)|(e & He & Hst & r' & Hr' & Hne)].
  - left. exists D'. split; [done|]. split.
    + intros r' [->|Hr']%elem_of_cons; [unfold stat_of; rewrite E; exact (f_equal Some Hv)|]. rewrite <- Hsame by done. by apply Hall.
    + intros q. rewrite Hlook. destruct (decide (q = asset_stat_key r)) as [->|Hq].
      * rewrite lookup_delete_eq. rewrite (decide_True (P := asset_stat_key r ∈ asset_stat_key <$> r :: rs)) by by left. by case_decide.
      * rewrite lookup_delete_ne by done. rewrite fmap_cons. destruct (decide (q ∈ asset_stat_key <$> rs)).
        -- by rewrite decide_True by by right.
        -- rewrite decide_False; [done|]. by intros [?|?]%elem_of_cons.
  - right. exists e. split_and!; [done..|]. exists r'. split; [by right|]. by rewrite <- Hsame.
Qed.

(** The pages are the rows in their order. *)
Lemma check_pages_listing fuel D t done todo :
  pageable (map_to_list t).*2 → listing t = done ++ todo → (length todo < fuel)%nat →
  check_pages fuel D (MkPage (cursor_after done) (str "asc") assetStatsBatchSize) t = mfold check_stat D todo.
Proof.
  intros Hp. revert D done todo. induction fuel as [|fuel IH]; intros D done todo Hl Hf; [lia|].
  cbn [check_pages pg_Order pg_Limit]. rewrite (GetAssetStats_page t done todo) by done. cbn [map_fail]. outcome_simpl.
  destruct (last (take (Z.to_nat assetStatsBatchSize) todo)) as [r|] eqn:E.
  - rewrite <- (take_drop (Z.to_nat assetStatsBatchSize) todo) at 2. rewrite mfold_app.
    destruct (mfold check_stat D _) as [D'| |]; cbn [outcome_bind]; [|done..].
    assert (PagingToken r = cursor_after (done ++ take (Z.to_nat assetStatsBatchSize) todo)) as ->.
    { unfold cursor_after. by rewrite last_app, E. }
    apply IH; [by rewrite <- app_assoc, take_drop|]. rewrite length_drop.
    destruct todo as [|r' todo]; [by rewrite take_nil in E|]. simpl in *. lia.
  - apply last_None in E. assert (todo = []) as ->; [|done]. destruct todo; [done|]. by apply take_nil_inv in E as [|].
Qed.

(** The statistics are accepted exactly when the set has the rows of the table. *)
Lemma checkAssetStats_spec fuel D t :
  pageable (map_to_list t).*2 → (∀ q r, t !! q = Some r → asset_stat_key r = q) → (size t < fuel)%nat →
  (checkAssetStats fuel D t = Ret tt ∧ ∀ q, t !! q = stat_row q <$> D !! q) ∨
  (∃ e, checkAssetStats fuel D t = Fail e ∧ is_state_failure e = true ∧ ¬ ∀ q, t !! q = stat_row q <$> D !! q).
Proof.
  intros Hp Hkey Hf. assert (listing t ≡ₚ (map_to_list t).*2) as Hl by apply order_by_perm.
  assert (∀ r, r ∈ listing t ↔ t !! asset_stat_key r = Some r) as Hin.
  { intros r. rewrite Hl, list_elem_of_fmap. split.
    - intros ([q r'] & -> & Hr%elem_of_map_to_list). cbn [snd]. by rewrite (Hkey _ _ Hr).
    - intros Hr. exists (asset_stat_key r, r). split; [done|]. by apply elem_of_map_to_list. }
  assert (NoDup (asset_stat_key <$> listing t)) as Hn.
  { apply (NoDup_fmap_finer stat_position); [rewrite Hl; apply Hp|]. intros x y _ _ [= _ Hc Hi]. unfold stat_position. by rewrite Hc, Hi. }
  unfold checkAssetStats. change (MkPage [] (str "asc")) with (MkPage (cursor_after []) (str "asc")).
  rewrite (check_pages_listing fuel D t [] (listing t)); [|done|done|].
  2:{ rewrite Hl, length_fmap. by rewrite length_map_to_list. }
  destruct (check_stats (listing t) D Hn) as [(D' & -> & Hall & Hlook)|(e & -> & He & r & Hr & Hne)]; outcome_simpl.
  2:{ right. exists e. split_and!; [done..|]. intros Heq. apply Hne. unfold stat_of. rewrite <- Heq. by apply Hin. }
  destruct (0 <? size D')%nat eqn:E; [right|left].
  - exists StateErrStatsLeft. split_and!; [done..|]. intros Heq. apply Nat.ltb_lt in E.
    assert (D' ≠ ∅) as (q & v & Hq)%map_choose.
    { intros ->. rewrite map_size_empty in E. lia. }
    rewrite Hlook in Hq. case_decide as Hd; [done|].
    apply Hd. specialize (Heq q). rewrite Hq in Heq. simpl in Heq. apply list_elem_of_fmap. eexists. split; [|apply Hin; by rewrite (Hkey _ _ Heq)].
    by rewrite (Hkey _ _ Heq).
  - split; [done|]. intros q. apply Nat.ltb_ge in E. assert (D' = ∅) as -> by (apply map_size_empty_inv; lia).
    specialize (Hlook q). rewrite lookup_empty in Hlook. case_decide as Hd.
    + apply list_elem_of_fmap in Hd as (r & -> & Hr). specialize (Hall r Hr). unfold stat_of in Hall. rewrite Hall. by apply Hin.
    + rewrite <- Hlook. simpl. destruct (t !! q) as [r|] eqn:Er; [|done]. exfalso. apply Hd. rewrite <- (Hkey _ _ Er).
      apply list_elem_of_fmap_2, Hin. by rewrite (Hkey _ _ Er).
Qed.
End stats.

(** ** Correctness *)
Section correct.
Context `{LC : LedgerCache} `{RO : RowOrder} (names : Names) (M : LedgerEntry → list Z).
Abbreviation ok := (named names).
Abbreviation K := MarshalBinaryBase64.

(** *** The sizes of the tables *)
Lemma represents_size {Kt R} `{Countable Kt} (rkey : R → Kt) kof (row_of : LedgerEntry → R) ty s (t : gmap Kt R) :
  row_keys ok rkey kof row_of ty → keyed ok s → all_type ty s → represents kof row_of s t → size t = size s.
Proof.
  intros Hkeys Hs Hty [H1 H2]. rewrite <- !length_map_to_list. 
  assert (map_to_list t ≡ₚ (λ ke, (kof ke.2, row_of ke.2)) <$> map_to_list s) as ->; [|apply length_fmap].
  apply NoDup_Permutation; [apply NoDup_map_to_list| |].
  - apply (NoDup_fmap_1 fst). rewrite <- list_fmap_compose. apply (NoDup_fmap_finer fst); [apply NoDup_fst_map_to_list|].
    intros [k1 e1] [k2 e2] He1%elem_of_map_to_list He2%elem_of_map_to_list Heq. simpl in *.
    destruct (Hs _ _ He1) as [Hk1 Ho1], (Hs _ _ He2) as [Hk2 Ho2].
    rewrite (kof_inj _ _ _ _ _ Hkeys e1 e2) in Hk1 by (done || by eapply Hty). congruence.
  - intros [q r]. rewrite elem_of_map_to_list, list_elem_of_fmap. split.
    + intros Hr. destruct (H2 _ _ Hr) as (k & e & He & <-). exists (k, e). rewrite (H1 _ _ He) in Hr. injection Hr as <-.
      split; [done|]. by apply elem_of_map_to_list.
    + intros ([k e] & [= -> ->] & He%elem_of_map_to_list). by apply H1 in He.
Qed.

Lemma sizes_of_types (s : rows) :
  (size (of_type TypeAccount s) + size (of_type TypeData s) + size (of_type TypeOffer s) + size (of_type TypeTrustline s) +
   size (of_type TypeClaimableBalance s))%nat = size s.
Proof.
  induction s as [|k e s Hk IH] using map_ind; [done|].
  assert (∀ ty, size (of_type ty (<[k:=e]> s)) = if decide (data_type (Data e) = ty) then S (size (of_type ty s)) else size (of_type ty s)) as Hsz.
  { intros ty. unfold of_type. case_decide as Ht.
    - rewrite map_filter_insert_True by done. apply map_size_insert_None, map_lookup_filter_None. by left.
    - by rewrite map_filter_insert_False, delete_id. }
  rewrite !Hsz, map_size_insert_None by done. destruct (data_type (Data e)); repeat case_decide; try done; lia.
Qed.

Lemma CountOffers_live t : CountOffers t = Z.of_nat (size (live (offer_rows t))).
Proof.
  unfold CountOffers, GetAllOffers, live. f_equal. rewrite filter_fmap_snd, length_fmap, map_filter_alt.
  rewrite map_size_list_to_map by apply NoDup_fst_filter, NoDup_fst_map_to_list. f_equal. apply list_filter_iff. by intros [q r].
Qed.

Lemma counts fut s t :
  tables_follow fut s t → keyed ok s →
  CountAccounts (t_accounts t) + CountAccountsData (t_data t) + CountOffers (t_offers t) + CountTrustLines (t_trust_lines t) +
  CountClaimableBalances (t_balances t) = Z.of_nat (size s).
Proof.
  intros [H1 H2 H3 H4 H5 _ _] Hs. rewrite CountOffers_live. unfold CountAccounts, CountAccountsData, CountTrustLines, CountClaimableBalances.
  pose proof (λ ty, of_type_keyed ok ty s Hs) as Hk. pose proof (λ ty, of_type_all ty s) as Ht.
  rewrite (represents_size _ _ _ _ _ _ (account_keys names) (Hk _) (Ht _) H1).
  rewrite (represents_size _ _ _ _ _ _ (data_keys names) (Hk _) (Ht _) H2).
  rewrite (represents_size _ _ _ _ _ _ (offer_keys names) (Hk _) (Ht _) (proj1 H3)).
  rewrite (represents_size _ _ _ _ _ _ (trust_line_keys names) (Hk _) (Ht _) H4).
  rewrite (represents_size _ _ _ _ _ _ (balance_keys names) (Hk _) (Ht _) H5).
  rewrite <- (sizes_of_types s). lia.
Qed.

(** *** The asset statistics of the table *)
Lemma asset_stat_ok a ty code issuer :
  valid_asset a → a ≠ AssetTypeNative → asset_stat a = (ty, code, issuer) →
  (∃ i, wf_account i ∧ issuer = address i) ∧ (1 ≤ length code ≤ 12)%nat ∧ Forall (λ c, is_alnum c = true) code ∧
  ty = if (length code <=? 4)%nat then 1 else 2.
Proof.
  unfold asset_stat, ExtractType, Extract.
  destruct a as [|c i|c i]; [done| |]; intros [(c' & -> & Hl & Hc) Hi] _; rewrite Encode_address; outcome_simpl;
    cbn [must outcome_bind]; intros [= <- <- <-]; rewrite (valid_code_trim _ _ c' eq_refl) by (done || lia).
  - rewrite (proj2 (Nat.leb_le _ _)) by lia. split_and!; eauto with lia.
  - rewrite (proj2 (Nat.leb_gt _ _)) by lia. split_and!; eauto with lia.
Qed.

Lemma counted_line q s : total (line_count q) s ≠ 0 →
  ∃ k e l, s !! k = Some e ∧ Data e = DataTrustLine l ∧ asset_stat (TrustLine_Asset l) = q.
Proof.
  induction s as [|k e s Hk IH] using map_ind; [done|]. rewrite total_insert by done. intros Hne.
  destruct (decide (line_count q e = 0)) as [H0|H0].
  - destruct IH as (k' & e' & l & He' & ? & ?); [lia|]. exists k', e', l. split; [|done].
    rewrite lookup_insert_ne; [done|]. intros ->. congruence.
  - unfold line_count, line_authorized in H0. destruct (Data e) as [|l| | |] eqn:E; try done.
    exists k, e, l. rewrite lookup_insert_eq. split_and!; [done..|]. by case_bool_decide.
Qed.

Lemma stat_row_asset fut s t q r :
  tables_follow fut s t → keyed ok s → t_asset_stats t !! q = Some r →
  asset_stat_key r = q ∧ ∃ a, valid_asset a ∧ a ≠ AssetTypeNative ∧ asset_stat a = q.
Proof.
  intros Hf Hs Hr. destruct (asset_stats_ok _ _ _ Hf) as [Hrep _]. rewrite Hrep in Hr.
  destruct (stat_value _ _) as [v|] eqn:E; [|done]. injection Hr as <-. split; [by destruct q as [[ty c] i]|].
  apply stat_value_Some in E as [_ Hne].
  destruct (totals_bounds q (of_type TypeTrustline s)) as [_ H0].
  destruct (counted_line q (of_type TypeTrustline s)) as (k & e & l & He & Hd & Hq); [tauto|].
  destruct (of_type_keyed ok TypeTrustline s Hs _ _ He) as [_ [[_ Hw] _]]. rewrite Hd in Hw. destruct Hw as (_ & Hv & Hn & _).
  by exists (TrustLine_Asset l).
Qed.

Lemma stats_pageable fut s t : tables_follow fut s t → keyed ok s → pageable (map_to_list (t_asset_stats t)).*2.
Proof.
  intros Hf Hs.
  assert (∀ r, r ∈ (map_to_list (t_asset_stats t)).*2 → ∃ q, t_asset_stats t !! q = Some r) as Hin.
  { intros r ([q r'] & -> & Hr%elem_of_map_to_list)%list_elem_of_fmap. by exists q. }
  split.
  - apply (NoDup_fmap_finer asset_stat_key).
    + rewrite <- list_fmap_compose.
      replace (asset_stat_key ∘ snd <$> map_to_list (t_asset_stats t)) with (map_to_list (t_asset_stats t)).*1;
        [apply NoDup_fst_map_to_list|].
      apply list_fmap_ext. intros i [q r] Hi%list_elem_of_lookup_2%elem_of_map_to_list.
      by destruct (stat_row_asset fut s t q r Hf Hs Hi) as [<- _].
    + intros r1 r2 [q1 H1]%Hin [q2 H2]%Hin [= Hc Hi].
      destruct (stat_row_asset _ _ _ _ _ Hf Hs H1) as [Hk1 (a1 & Hv1 & Hn1 & Ha1)].
      destruct (stat_row_asset _ _ _ _ _ Hf Hs H2) as [Hk2 (a2 & Hv2 & Hn2 & Ha2)].
      rewrite <- Hk1 in Ha1. rewrite <- Hk2 in Ha2.
      apply asset_stat_ok in Ha1 as (_ & _ & _ & Ht1), Ha2 as (_ & _ & _ & Ht2); [|done..].
      unfold asset_stat_key. by rewrite Ht1, Ht2, Hc, Hi.
  - apply Forall_forall. intros r [q Hq]%Hin. destruct (stat_row_asset _ _ _ _ _ Hf Hs Hq) as [Hk (a & Hv & Hn & Ha)].
    rewrite <- Hk in Ha. apply asset_stat_ok in Ha as (Hi & Hl & Hc & Ht); [|done..].
    split; [done..|]. rewrite Ht. case_match; auto.
Qed.

(** *** Normal forms *)
Lemma normal_line q e : line_amount q (normal e) = line_amount q e ∧ line_count q (normal e) = line_count q e.
Proof. unfold normal, line_amount, line_count, line_authorized. by destruct e as [seq [] ext]. Qed.

(** What is needed of the entries of an archive: signers and claimants that
    differ, a sponsor (or none) for each signer, a key that has a text. *)
Definition archivable (e : LedgerEntry) : Prop := entry_ok e ∧ is_Some (K (LedgerEntry_LedgerKey e)).

Lemma ok_archivable e : ok e → archivable e.
Proof.
  intros [[_ Hw] HK]. split; [|done]. unfold entry_ok. destruct (Data e) as [a| | | |b]; try done.
  - split; [by apply signer_texts_NoDup|apply Hw].
  - apply Hw.
Qed.

Lemma sum_of_normal f l : (∀ e, f (normal e) = f e) → sum_of f (normal <$> l) = sum_of f l.
Proof. intros Hf. induction l as [|e l IH]; [done|]. rewrite fmap_cons. cbn [sum_of foldr]. rewrite Hf. unfold sum_of in IH. by rewrite IH. Qed.

Lemma kept_all es : kept (λ _, false) es = es.
Proof. unfold kept. by rewrite filter_all by (apply Forall_forall; auto). Qed.

(** An archive that agrees lists the entries of the ledger. *)
Lemma archive_listing s es :
  NoDup (entry_key K <$> es) → normal <$> s = archive_rows K (λ _, false) normal es → normal <$> es ≡ₚ normal <$> (map_to_list s).*2.
Proof.
  intros Hn Heq.
  assert (map_to_list (normal <$> s) ≡ₚ (λ e, (entry_key K e, normal e)) <$> es) as Hp.
  { rewrite Heq. unfold archive_rows. rewrite kept_all. apply map_to_list_to_map. by rewrite <- list_fmap_compose. }
  rewrite map_to_list_fmap in Hp. apply (fmap_Permutation snd) in Hp. rewrite <- !list_fmap_compose in Hp. rewrite <- list_fmap_compose. by symmetry.
Qed.

(** And an archive that lists them agrees. *)
Lemma listing_archive s es :
  keyed ok s → NoDup (entry_key K <$> es) → es ≡ₚ (map_to_list s).*2 → normal <$> s = archive_rows K (λ _, false) normal es.
Proof.
  intros Hs Hn Hp. unfold archive_rows. rewrite kept_all. symmetry. apply map_eq. intros k. rewrite lookup_fmap.
  assert (NoDup ((λ e, (entry_key K e, normal e)) <$> es).*1) as Hn' by by rewrite <- list_fmap_compose.
  destruct (s !! k) as [e|] eqn:E; simpl.
  - destruct (Hs _ _ E) as [Hk _]. apply elem_of_list_to_map; [done|]. apply list_elem_of_fmap. exists e. split.
    + unfold entry_key, key_text. by rewrite Hk.
    + rewrite Hp. apply list_elem_of_fmap. exists (k, e). split; [done|]. by apply elem_of_map_to_list.
  - apply not_elem_of_list_to_map. rewrite <- list_fmap_compose. intros (e & -> & He)%list_elem_of_fmap.
    rewrite Hp in He. apply list_elem_of_fmap in He as ([k' e'] & -> & He%elem_of_map_to_list). simpl in E.
    destruct (Hs _ _ He) as [Hk _]. unfold entry_key, key_text in E. rewrite Hk in E. simpl in E. congruence.
Qed.

(** The statistics of such an archive are those of the table. *)
Lemma archive_stats fut s t l :
  tables_follow fut s t → l ≡ₚ normal <$> (map_to_list s).*2 →
  ∀ q, t_asset_stats t !! q = stat_row q <$> foldl add_line ∅ l !! q.
Proof.
  intros Hf Hl q. destruct (asset_stats_ok _ _ _ Hf) as [Hrep Hsz]. rewrite Hrep. f_equal.
  rewrite (add_lines_sum l ∅ (λ _, 0) (λ _, 0)) by (intros q'; by rewrite lookup_empty).
  rewrite Hl, !sum_of_normal, <- !total_sum by (intros e; apply normal_line). rewrite !Z.add_0_l.
  assert (∀ e, data_type (Data e) ≠ TypeTrustline → line_amount q e = 0 ∧ line_count q e = 0) as H0.
  { intros e. unfold line_amount, line_count. by destruct (Data e). }
  pose proof (totals_bounds q (of_type TypeTrustline s)) as [Hb _].
  rewrite !total_of_type in * by (intros e He; by apply H0). rewrite i32_small; [done|]. unfold is_i32. lia.
Qed.

Context (Hinj : ∀ e1 e2, M e1 = M e2 → e1 = e2).

Lemma verify_tables_result fuel fut s t es :
  tables_follow fut s t → keyed ok s → Forall archivable es → NoDup (entry_key K <$> es) →
  (length es + size (t_asset_stats t) + 2 ≤ fuel)%nat →
  let result := verify_tables (λ e, Some (M e)) fuel (inr <$> es) t in
  (result = Ret tt ∧ normal <$> s = archive_rows K (λ _, false) normal es) ∨
  (∃ err, result = Fail err ∧ is_state_failure err = true ∧ normal <$> s ≠ archive_rows K (λ _, false) normal es).
Proof using Hinj.
  intros Hf Hs Hes Hn Hfuel result.
  assert (∀ k w, (normal <$> s) !! k = Some w → K (LedgerEntry_LedgerKey w) = Some k) as Hstore.
  { intros k w (e & <- & He)%lookup_fmap_Some. rewrite normal_key. by apply Hs. }
  pose proof (fetch_perm names fut s t Hf Hs) as Hfetch. pose proof (fetch_stored names fut s t Hf Hs) as Hfetched.
  assert (Forall (steady K (Some transformEntry) (λ _, false) normal normal_after) es) as Hst.
  { eapply Forall_impl; [done|]. intros e [Hok HK]. by apply transformEntry_steady. }
  assert (NoDup (entry_key K <$> kept (λ _, false) es)) as Hn' by by rewrite kept_all.
  set (v0 := MkVerifier (inr <$> es) 0 false ∅).
  pose proof (verify_loop_spec K M (Some transformEntry) (λ _, false) normal normal_after (normal <$> s) (fetch_entries t)
    verifyBatchSize Hinj Hstore Hfetched Hfetch ltac:(done) fuel es v0 (Z.of_nat (size s)) eq_refl eq_refl Hst Hn' ltac:(lia)) as Hspec.
  assert (agrees K (λ _, false) normal (normal <$> s) es (readEntries v0) (Z.of_nat (size s)) ↔
    normal <$> s = archive_rows K (λ _, false) normal es) as Hag.
  { rewrite <- agrees_iff by by rewrite kept_all. by rewrite map_size_fmap. }
  setoid_rewrite Hag in Hspec. subst result. unfold verify_tables. rewrite (verification_loop_refines names M fut s t Hf Hs), (counts fut s t Hf Hs).
  fold v0.
  pose proof (fetched_spec K M (Some transformEntry) (λ _, false) normal normal_after (normal <$> s) (fetch_entries t)
    verifyBatchSize Hinj Hstore Hfetched Hfetch ltac:(done) fuel es v0 (Z.of_nat (size s)) eq_refl eq_refl Hst Hn') as Hread.
  unfold verify_from in *. destruct (verify_loop _ _ _ _ fuel _ v0) as [v1|e|]; cbn [outcome_bind] in *; outcome_simpl; cbn [outcome_bind].
  - destruct Hspec as [[Hv Heq]|(err & Hv & He & Hneq)]; rewrite Hv in *; cbn [map_fail outcome_bind].
    2:{ right. by exists (FromVerifier err). }
    left. split; [|done]. specialize (Hread eq_refl). rewrite kept_all, (archive_listing s es Hn Heq) in Hread.
    pose proof (archive_stats fut s t _ Hf Hread) as Hstats.
    destruct (checkAssetStats_spec fuel (foldl add_line ∅ (fetched K M (Some transformEntry) (fetch_entries t) verifyBatchSize fuel v0))
      (t_asset_stats t)) as [[-> _]|(err & _ & _ & Hno)]; [by eapply stats_pageable| |lia|done|done].
    intros q r Hr. by eapply stat_row_asset.
  - destruct Hspec as [[[=] _]|(err & [= <-] & He & Hneq)]. right. by exists (FromVerifier e).
  - by destruct Hspec as [[[=] _]|(err & [=] & _)].
Qed.

(** The archive of a ledger is at hand and nothing cancels the verification. *)
Definition verifies_at (seq : Z) (es : list LedgerEntry) (answers : VerifyAnswers) (latest : bool) : Prop :=
  v_begin answers = true ∧ v_lastLedger answers = Some seq ∧ IsCheckpoint seq = true ∧
  (latest = true → v_shutdown answers = false ∧ ∃ l, v_latest answers = Some l ∧ l ≤ seq) ∧
  v_GetState answers seq = Some (inr <$> es).

Lemma verifyState_verifies fuel seq es answers latest t :
  verifies_at seq es answers latest →
  verifyState (λ e, Some (M e)) answers latest fuel t = verify_tables (λ e, Some (M e)) fuel (inr <$> es) t.
Proof using Type.
  intros (Hb & Hl & Hc & Hg & Hr). unfold verifyState. rewrite Hb, Hl, Hc. cbn [negb]. outcome_simpl.
  destruct latest; cbn [outcome_bind negb]; [|by rewrite Hr].
  destruct Hg as (-> & l & -> & Hle); [done|]. cbn [outcome_bind]. rewrite (proj2 (Z.ltb_ge _ _) Hle). cbn [negb andb]. by rewrite Hr.
Qed.
End correct.

(** ** Properties *)

(** C5: at a checkpoint, over tables that follow a well-formed ledger, with the
    archive at hand and nothing that cancels it, [verifyState] returns no error
    exactly when the history archive holds the entries of the ledger, up to the
    normal form of an entry; for any other archive it returns a state error,
    whatever its offers, sellers, balances and claimants are, provided that each
    key is in it once and has a text, and that no account lists a signer twice or
    a sponsor too few or too many and no balance a claimant twice.  It never
    panics, the batches and pages do not matter, and it ends. *)
Theorem verifyState_decides `{LC : LedgerCache} `{RO : RowOrder} names M fut s t seq es answers latest fuel :
  (∀ e1 e2, M e1 = M e2 → e1 = e2) → tables_follow fut s t → keyed (named names) s →
  Forall archivable es → NoDup (entry_key MarshalBinaryBase64 <$> es) → verifies_at seq es answers latest →
  (length es + size (t_asset_stats t) + 2 ≤ fuel)%nat →
  let result := verifyState (λ e, Some (M e)) answers latest fuel t in
  (result = Ret tt ∧ normal <$> s = archive_rows MarshalBinaryBase64 (λ _, false) normal es) ∨
  (∃ err, result = Fail err ∧ is_state_failure err = true ∧
    normal <$> s ≠ archive_rows MarshalBinaryBase64 (λ _, false) normal es).
Proof.
  intros Hinj Hf Hs Hes Hn Hv Hfuel result. subst result. rewrite (verifyState_verifies M fuel seq es answers latest t Hv).
  by apply (verify_tables_result names M Hinj fuel fut).
Qed.


(** *** An example *)
Module Example_verify.
Import Example_run.
#[local] Existing Instances cache signer_order stats_order.
#[local] Instance row_order : RowOrder.
Proof.
  refine {| row_ltb a b := str_ltb a.1 b.1 || bool_decide (a.1 = b.1) && str_ltb a.2 b.2; order_by := sort_by |}.
  - intros [a b]. simpl. by rewrite !str_ltb_irrefl, andb_false_r.
  - intros [a1 a2] [b1 b2] [c1 c2]. simpl. rewrite !orb_true_iff, !andb_true_iff, !bool_decide_eq_true.
    intros [H1|[-> H1]] [H2|[-> H2]]; eauto using str_ltb_trans.
  - intros [a1 a2] [b1 b2] Hne. simpl. rewrite !orb_true_iff, !andb_true_iff, !bool_decide_eq_true.
    destruct (str_ltb a1 b1) eqn:E1; [by left; left|]. destruct (str_ltb b1 a1) eqn:E2; [by right; left|].
    pose proof (str_ltb_antisym _ _ E1 E2) as ->. destruct (str_ltb a2 b2) eqn:E3; [by left; right|]. right. right. split; [done|].
    destruct (str_ltb b2 a2) eqn:E4; [done|]. by pose proof (str_ltb_antisym _ _ E3 E4) as ->.
  - apply sort_by_sorts.
Defined.
Definition M (e : LedgerEntry) : list Z := [Z.pos (encode e)].
Lemma M_inj e1 e2 : M e1 = M e2 → e1 = e2.
Proof. by intros [= E%encode_inj]. Qed.

Definition archived_entries : list LedgerEntry := [account 60 500; line 61 100].
Definition answers : VerifyAnswers := MkVerifyAnswers true (Some 63) (Some 63) false (λ _, Some (inr <$> archived_entries)).
Lemma answers_verify : verifies_at 63 archived_entries answers true.
Proof. split_and!; try done. intros _. split; [done|]. by exists 63. Qed.
Lemma archived_archivable : Forall archivable archived_entries.
Proof. repeat (apply Forall_cons; split); [apply (ok_archivable names), account_named|by apply (ok_archivable names), line_named|done]. Qed.
Lemma archived_keys : NoDup (entry_key MarshalBinaryBase64 <$> archived_entries).
Proof. apply (bool_decide_unpack _). by vm_compute. Qed.
Lemma entries_keyed : keyed (named names) entries.
Proof. apply (apply_exacts_keyed names archived ∅); [apply keyed_empty|apply archived_wf|vm_compute; reflexivity]. Qed.
End Example_verify.
#[local] Existing Instances Example_run.network Example_run.sources.
#[local] Existing Instances Example_run.cache Example_run.signer_order Example_run.stats_order Example_verify.row_order.

Theorem verifyState_decides_witness :
  ∃ t, tables_follow [] Example_run.entries t ∧
    let result := verifyState (λ e, Some (Example_verify.M e)) Example_verify.answers true (size (t_asset_stats t) + 4) t in
    (result = Ret tt ∧ normal <$> Example_run.entries =
      archive_rows MarshalBinaryBase64 (λ _, false) normal Example_verify.archived_entries) ∨
    (∃ err, result = Fail err ∧ is_state_failure err = true ∧ normal <$> Example_run.entries ≠
      archive_rows MarshalBinaryBase64 (λ _, false) normal Example_verify.archived_entries).
Proof.
  destruct (RunHistoryArchiveIngestion_follows Example_run.names (λ _, Some []) 63 Example_run.archived []
    Example_run.entries (MkTables ∅ ∅ (MkOfferTable ∅ 0) ∅ ∅ ∅ ∅)) as (stats & t & _ & Hf).
  - apply Example_run.archive_has_archived.
  - apply Example_run.archived_wf.
  - by repeat (apply Forall_cons; split).
  - vm_compute. reflexivity.
  - vm_compute. constructor.
  - vm_compute. done.
  - exists t. split; [exact Hf|].
    apply (verifyState_decides Example_run.names Example_verify.M [] Example_run.entries t 63 Example_verify.archived_entries).
    + apply Example_verify.M_inj.
    + exact Hf.
    + apply Example_verify.entries_keyed.
    + apply Example_verify.archived_archivable.
    + apply Example_verify.archived_keys.
    + apply Example_verify.answers_verify.
    + simpl. lia.
Defined.


(** The rows of signers of accounts that do not exist are never looked at. *)
Example signers_not_counted :
  verify_tables (λ e, Some (Example_verify.M e)) 2 []
    (MkTables ∅ ∅ (MkOfferTable ∅ 0) ∅ ∅ {[ ([1], [2]) := MkSignerRow [1] [2] 5 None ]} ∅) = Ret tt.
Proof. by vm_compute. Qed.

(** The offer of another seller in the archive, in the place of the one of the
    ledger and beside it. *)
Example other_sellers :
  let offer seller := MkEntry 64 (DataOffer (MkOffer seller 7 Example_run.usd AssetTypeNative 10 (Price.MkPrice 1 2) 0)) None in
  let row := offer_row (offer Example_run.alice) in
  let t := MkTables ∅ ∅ (MkOfferTable {[ 7 := row ]} 0) ∅ ∅ ∅ ∅ in
  let verify es := verify_tables (λ e, Some (Example_verify.M e)) 4 (inr <$> es) t in
  verify [offer Example_run.alice] = Ret tt ∧
  verify [offer Example_run.issuer] = Fail (FromVerifier StateErrNotInArchive) ∧
  verify [offer Example_run.alice; offer Example_run.issuer] = Fail (FromVerifier StateErrNotFoundLocally).
Proof. vm_compute. repeat split. Qed.
