(* ===== verification/OrderBook.v ===== *)
(** * orderbook: the in-memory graph of all offers

    Models [src/exp/orderbook/edges.go], [batch.go] and the state-changing and
    listing operations of [graph.go].  A Go map is a [gmap]; the edge sets held
    in the maps are reached through them only, so updating one in place is
    replacing it in its map.  The graph and its single batch point to each
    other and change together: they are one record.  Locks are left out: every
    operation is one step. *)

From S2P Require Import Prelude Price Xdr LedgerEntry.

Inductive orderbook_error :=
  | errOfferNotPresent
  | errEmptyOffers
  | errAssetAmountIsZero
  | errSoldTooMuch
  | errBatchAlreadyApplied
  | errUnexpectedLedger
  | errPrice (e : price_error)
  | errInvalidSortType.

Definition selling_key (o : OfferEntry) : gostring := asset_string (Selling o).
Definition buying_key (o : OfferEntry) : gostring := asset_string (Buying o).

(** ** Edge sets (edges.go) *)

Abbreviation edgeSet := (gmap gostring (list OfferEntry)).

(** [sort.Search]: the binary search of the Go standard library; the interval
    [i, j) shrinks, so its length is fuel enough. *)
Fixpoint search_loop (fuel : nat) (f : nat → bool) (i j : nat) : nat :=
  match fuel with
  | O => i
  | S fuel' =>
      if (i <? j)%nat then
        let h := ((i + j) / 2)%nat in
        if f h then search_loop fuel' f i h else search_loop fuel' f (S h) j
      else i
  end.
Definition Search (n : nat) (f : nat → bool) : nat := search_loop (S n) f 0 n.

Definition swap {A} (l : list A) (i j : nat) : list A :=
  match l !! i, l !! j with
  | Some x, Some y => <[i := y]> (<[j := x]> l)
  | _, _ => l
  end.
(** [for insertIndex < last]: [n] is the number of iterations left. *)
Fixpoint swap_loop {A} (n : nat) (l : list A) (insertIndex last : nat) : list A :=
  match n with
  | O => l
  | S n' => swap_loop n' (swap l insertIndex last) (S insertIndex) last
  end.

Definition edgeSet_add (e : edgeSet) (key : gostring) (offer : OfferEntry) : edgeSet :=
  let offers := default [] (e !! key) in
  match offers with
  | [] => <[key := [offer]]> e
  | _ =>
      let insertIndex := Search (length offers) (λ i,
        match offers !! i with
        | Some o => Cheaper (OfferPrice offer) (OfferPrice o)
        | None => false
        end) in
      let offers := offers ++ [offer] in
      let last := (length offers - 1)%nat in
      <[key := swap_loop (last - insertIndex) offers insertIndex last]> e
  end.

(** The scan of [remove]: the offers without the first one of the id, if any. *)
Fixpoint remove_first (offerID : Z) (edges : list OfferEntry) : option (list OfferEntry) :=
  match edges with
  | [] => None
  | o :: edges' =>
      if OfferId o =? offerID then Some edges' else cons o <$> remove_first offerID edges'
  end.

Definition edgeSet_remove (e : edgeSet) (offerID : Z) (key : gostring) : bool * edgeSet :=
  match remove_first offerID (default [] (e !! key)) with
  | None => (false, e)
  | Some [] => (true, delete key e)
  | Some edges => (true, <[key := edges]> e)
  end.

(** ** The graph (graph.go, batch.go) *)

Record tradingPair := MkPair { buyingAsset : gostring; sellingAsset : gostring }.

Inductive orderBookOperation :=
  | addOfferOperation (offer : OfferEntry)
  | removeOfferOperation (offerID : Z).

Record orderBookBatchedUpdates := MkBatch {
  operations : list orderBookOperation;
  committed : bool }.

Record OrderBookGraph := MkGraph {
  edgesForSellingAsset : gmap gostring edgeSet;
  edgesForBuyingAsset : gmap gostring edgeSet;
  tradingPairForOffer : gmap Z tradingPair;
  lastLedger : Z;
  batchedUpdates : orderBookBatchedUpdates }.

Definition batch : orderBookBatchedUpdates := MkBatch [] false.
Definition NewOrderBookGraph : OrderBookGraph := MkGraph ∅ ∅ ∅ 0 batch.

Definition set_batch (g : OrderBookGraph) (b : orderBookBatchedUpdates) : OrderBookGraph :=
  MkGraph (edgesForSellingAsset g) (edgesForBuyingAsset g) (tradingPairForOffer g) (lastLedger g) b.
Definition set_lastLedger (g : OrderBookGraph) (ledger : Z) : OrderBookGraph :=
  MkGraph (edgesForSellingAsset g) (edgesForBuyingAsset g) (tradingPairForOffer g) ledger
    (batchedUpdates g).

Definition batch_addOffer (tx : orderBookBatchedUpdates) (offer : OfferEntry) : orderBookBatchedUpdates :=
  MkBatch (operations tx ++ [addOfferOperation offer]) (committed tx).
Definition batch_removeOffer (tx : orderBookBatchedUpdates) (offerID : Z) : orderBookBatchedUpdates :=
  MkBatch (operations tx ++ [removeOfferOperation offerID]) (committed tx).

Definition AddOffer (g : OrderBookGraph) (offer : OfferEntry) : OrderBookGraph :=
  set_batch g (batch_addOffer (batchedUpdates g) offer).
Definition RemoveOffer (g : OrderBookGraph) (offerID : Z) : OrderBookGraph :=
  set_batch g (batch_removeOffer (batchedUpdates g) offerID).
Definition Discard (g : OrderBookGraph) : OrderBookGraph := set_batch g batch.
Definition Clear (g : OrderBookGraph) : OrderBookGraph := MkGraph ∅ ∅ ∅ 0 batch.

Definition Pending (g : OrderBookGraph) : list OfferEntry * list Z :=
  foldl (λ acc update,
    match update with
    | addOfferOperation offer => (acc.1 ++ [offer], acc.2)
    | removeOfferOperation offerID => (acc.1, acc.2 ++ [offerID])
    end) ([], []) (operations (batchedUpdates g)).

(** One of the two edge maps: add the edge set of the asset if it is missing,
    and add the offer to it. *)
Definition edges_add (edges : gmap gostring edgeSet) (asset other : gostring) (offer : OfferEntry)
  : gmap gostring edgeSet :=
  match edges !! asset with
  | None => <[asset := edgeSet_add ∅ other offer]> edges
  | Some set => <[asset := edgeSet_add set other offer]> edges
  end.

Definition edges_remove (edges : gmap gostring edgeSet) (asset other : gostring) (offerID : Z)
  : outcome orderbook_error (gmap gostring edgeSet) :=
  match edges !! asset with
  | None => Fail errOfferNotPresent
  | Some set =>
      match edgeSet_remove set offerID other with
      | (false, _) => Fail errOfferNotPresent
      | (true, set') =>
          if (size set' =? 0)%nat then Ret (delete asset edges) else Ret (<[asset := set']> edges)
      end
  end.

(** An error of [remove] leaves the graph half updated; its callers panic. *)
Definition graph_remove (g : OrderBookGraph) (offerID : Z) : outcome orderbook_error OrderBookGraph :=
  match tradingPairForOffer g !! offerID with
  | None => Fail errOfferNotPresent
  | Some tp =>
      selling ← edges_remove (edgesForSellingAsset g) (sellingAsset tp) (buyingAsset tp) offerID;
      buying ← edges_remove (edgesForBuyingAsset g) (buyingAsset tp) (sellingAsset tp) offerID;
      Ret (MkGraph selling buying (delete offerID (tradingPairForOffer g)) (lastLedger g)
             (batchedUpdates g))
  end.

Definition graph_add (g : OrderBookGraph) (offer : OfferEntry) : outcome orderbook_error OrderBookGraph :=
  g ← match tradingPairForOffer g !! OfferId offer with
      | Some _ => graph_remove g (OfferId offer)
      | None => Ret g
      end;
  let selling := selling_key offer in
  let buying := buying_key offer in
  Ret (MkGraph (edges_add (edgesForSellingAsset g) selling buying offer)
         (edges_add (edgesForBuyingAsset g) buying selling offer)
         (<[OfferId offer := MkPair buying selling]> (tradingPairForOffer g))
         (lastLedger g) (batchedUpdates g)).

Definition apply_operation (g : OrderBookGraph) (operation : orderBookOperation)
  : outcome orderbook_error OrderBookGraph :=
  match operation with
  | addOfferOperation offer => must (graph_add g offer)
  | removeOfferOperation offerID =>
      match tradingPairForOffer g !! offerID with
      | None => Ret g
      | Some _ => must (graph_remove g offerID)
      end
  end.

(** The graph after the call and the error returned. *)
Definition batch_apply (g : OrderBookGraph) (ledger : Z)
  : outcome orderbook_error (OrderBookGraph * option orderbook_error) :=
  if committed (batchedUpdates g) then Panic else
  let g := set_batch g (MkBatch (operations (batchedUpdates g)) true) in
  if (0 <? lastLedger g) && (ledger <=? lastLedger g) then Ret (g, Some errUnexpectedLedger) else
  g ← mfold apply_operation g (operations (batchedUpdates g));
  Ret (set_lastLedger g ledger, None).

Definition Apply (g : OrderBookGraph) (ledger : Z)
  : outcome orderbook_error (OrderBookGraph * option orderbook_error) :=
  '(g, err) ← batch_apply g ledger;
  match err with
  | Some e => Ret (g, Some e)
  | None => Ret (set_batch g batch, None)
  end.

(** Go iterates a map in an unspecified order; [map_to_list] is one of them. *)
Definition Offers (g : OrderBookGraph) : list OfferEntry :=
  concat ((λ kv : gostring * edgeSet, concat (snd <$> map_to_list kv.2))
            <$> map_to_list (edgesForSellingAsset g)).
Definition OffersMap (g : OrderBookGraph) : gmap Z OfferEntry :=
  foldl (λ m entry, <[OfferId entry := entry]> m) ∅ (Offers g).
Definition IsEmpty (g : OrderBookGraph) : bool := (size (edgesForSellingAsset g) =? 0)%nat.

(** The offers of a pair at the best [maxPriceLevels] prices.  The loop keeps
    the last offer taken to see a new price. *)
Fixpoint findOffers_loop (last : option OfferEntry) (maxPriceLevels : Z) (offers : list OfferEntry)
  : list OfferEntry :=
  match offers with
  | [] => []
  | offer :: offers' =>
      let maxPriceLevels :=
        match last with
        | Some o => if Equal (OfferPrice o) (OfferPrice offer) then maxPriceLevels else maxPriceLevels - 1
        | None => maxPriceLevels - 1
        end in
      if maxPriceLevels <? 0 then []
      else offer :: findOffers_loop (Some offer) maxPriceLevels offers'
  end.

Definition findOffers (g : OrderBookGraph) (selling buying : gostring) (maxPriceLevels : Z)
  : list OfferEntry :=
  match edgesForSellingAsset g !! selling with
  | None => []
  | Some edges =>
      match edges !! buying with
      | None => []
      | Some offers => findOffers_loop None maxPriceLevels offers
      end
  end.

Definition FindAsksAndBids (g : OrderBookGraph) (selling buying : Asset) (maxPriceLevels : Z)
  : list OfferEntry * list OfferEntry * Z :=
  (findOffers g (asset_string selling) (asset_string buying) maxPriceLevels,
   findOffers g (asset_string buying) (asset_string selling) maxPriceLevels,
   lastLedger g).

(** ** Binary search and insertion *)

Lemma search_loop_spec fuel f i j :
  (∀ a b, (a ≤ b)%nat → f a = true → f b = true) → (i ≤ j)%nat → (j - i ≤ fuel)%nat →
  let r := search_loop fuel f i j in
  (i ≤ r ≤ j)%nat ∧ (∀ k, (i ≤ k < r)%nat → f k = false) ∧ (∀ k, (r ≤ k < j)%nat → f k = true).
Proof.
  intros Hf. revert i j. induction fuel as [|fuel IH]; intros i j Hij Hfu; cbn [search_loop].
  { split; [lia|]. split; intros; lia. }
  destruct (Nat.ltb_spec i j) as [Hlt|Hge].
  2:{ split; [lia|]. split; intros; lia. }
  cbv zeta. set (h := ((i + j) / 2)%nat).
  assert (i ≤ h < j)%nat as Hh.
  { unfold h. split; [apply Nat.div_le_lower_bound; lia|apply Nat.Div0.div_lt_upper_bound; lia]. }
  destruct (f h) eqn:E.
  - destruct (IH i h) as (H1 & H2 & H3); [lia..|]. split; [lia|]. split; [done|].
    intros k Hk. destruct (decide (k < h)%nat); [apply H3; lia|]. apply (Hf h); [lia|done].
  - destruct (IH (S h) j) as (H1 & H2 & H3); [lia..|]. split; [lia|]. split; [|done].
    intros k Hk. destruct (decide (S h ≤ k)%nat); [apply H2; lia|].
    destruct (f k) eqn:Ek; [|done]. rewrite <- E. symmetry. apply (Hf k); [lia|done].
Qed.

Lemma swap_loop_spec {A} (l1 l2 : list A) x :
  swap_loop (length l2) (l1 ++ l2 ++ [x]) (length l1) (length l1 + length l2) = l1 ++ x :: l2.
Proof.
  revert l1 x. induction l2 as [|y l2 IH]; intros l1 x; [done|]. cbn [length swap_loop].
  assert (swap (l1 ++ (y :: l2) ++ [x]) (length l1) (length l1 + S (length l2))
    = (l1 ++ [x]) ++ l2 ++ [y]) as ->.
  { unfold swap.
    assert ((l1 ++ (y :: l2) ++ [x]) !! length l1 = Some y) as -> by by apply list_lookup_middle.
    assert ((l1 ++ (y :: l2) ++ [x]) !! (length l1 + S (length l2))%nat = Some x) as ->.
    { rewrite app_assoc. apply list_lookup_middle. rewrite length_app. simpl. lia. }
    assert ((l1 ++ (y :: l2) ++ [x]) = (l1 ++ y :: l2) ++ [x]) as -> by by rewrite <- app_assoc.
    rewrite insert_app_r_alt by (rewrite length_app; simpl; lia).
    rewrite length_app. cbn [length]. rewrite Nat.sub_diag. cbn [insert list_insert].
    rewrite <- !app_assoc. rewrite insert_app_r_alt by lia. by rewrite Nat.sub_diag. }
  specialize (IH (l1 ++ [x]) y). rewrite length_app in IH. cbn [length] in IH.
  replace (length l1 + S (length l2))%nat with (length l1 + 1 + length l2)%nat by lia.
  replace (S (length l1)) with (length l1 + 1)%nat by lia. rewrite IH. by rewrite <- app_assoc.
Qed.

(** ** Price-time priority

    The reference order: an offer goes before the first more expensive one. *)

Definition cheaper (x y : OfferEntry) : bool := Cheaper (OfferPrice x) (OfferPrice y).

Fixpoint ins (x : OfferEntry) (l : list OfferEntry) : list OfferEntry :=
  match l with
  | [] => [x]
  | y :: l' => if cheaper x y then x :: y :: l' else y :: ins x l'
  end.
Definition price_time (l : list OfferEntry) : list OfferEntry := foldl (λ acc x, ins x acc) [] l.

Definition offer_ok (o : OfferEntry) : Prop :=
  price_ok (OfferPrice o) ∧ wf_asset (Selling o) ∧ wf_asset (Buying o) ∧ amount_ok (Amount o).
Definition price_sorted : list OfferEntry → Prop := StronglySorted (λ x y, cheaper y x = false).

Lemma ins_perm x l : ins x l ≡ₚ x :: l.
Proof.
  induction l as [|y l IH]; simpl; [done|]. case_if; [done|].
  rewrite IH. apply Permutation_swap.
Qed.

Lemma price_time_snoc l o : price_time (l ++ [o]) = ins o (price_time l).
Proof. unfold price_time. by rewrite foldl_app. Qed.

Lemma price_time_perm l : price_time l ≡ₚ l.
Proof.
  induction l as [|o l IH] using rev_ind; [done|].
  rewrite price_time_snoc, ins_perm, IH. by rewrite Permutation_app_comm.
Qed.

Lemma ins_sorted x l :
  offer_ok x → Forall offer_ok l → price_sorted l → price_sorted (ins x l).
Proof.
  intros Hx Hl Hs. induction Hs as [|y l Hs IH Hy]; simpl; [by repeat constructor|].
  apply Forall_cons in Hl as [Hoy Hl]. destruct (cheaper x y) eqn:E.
  - constructor; [by constructor|]. constructor; [by apply Cheaper_asym; [apply Hx|apply Hoy|]|].
    rewrite Forall_forall in Hy, Hl |- *. intros z Hz.
    apply (not_Cheaper_trans _ (OfferPrice y)); [by apply Hl|apply Hoy|apply Hx|by apply Hy|].
    by apply Cheaper_asym; [apply Hx|apply Hoy|].
  - constructor; [by apply IH|]. rewrite ins_perm. by constructor.
Qed.

Lemma price_time_sorted l : Forall offer_ok l → price_sorted (price_time l).
Proof.
  induction l as [|o l IH] using rev_ind; intros Hl; [constructor|].
  apply Forall_app in Hl as [Hl Ho]. apply Forall_cons in Ho as [Ho _].
  rewrite price_time_snoc. apply ins_sorted; [done| |by apply IH]. by rewrite price_time_perm.
Qed.

Lemma cheaper_before x y z :
  offer_ok x → offer_ok y → offer_ok z →
  cheaper x y = true → cheaper z y = false → cheaper x z = true.
Proof.
  intros [Hx _] [Hy _] [Hz _] H1 H2. unfold cheaper in *.
  destruct (Cheaper (OfferPrice x) (OfferPrice z)) eqn:E; [done|].
  by rewrite (not_Cheaper_trans _ (OfferPrice z) _ Hx Hz Hy E H2) in H1.
Qed.

(** On a sorted list, filtering and inserting commute. *)
Lemma ins_head x l : Forall (λ y, cheaper x y = true) l → ins x l = x :: l.
Proof. destruct l as [|y l]; [done|]. intros [H _]%Forall_cons. simpl. by rewrite H. Qed.

Lemma filter_ins (P : OfferEntry → Prop) `{!∀ o, Decision (P o)} x l :
  offer_ok x → Forall offer_ok l → price_sorted l →
  filter P (ins x l) = if decide (P x) then ins x (filter P l) else filter P l.
Proof.
  intros Hx Hl Hs. induction Hs as [|y l Hs IH Hy]; cbn [ins].
  { rewrite filter_cons. by destruct (decide (P x)). }
  apply Forall_cons in Hl as [Hoy Hl]. destruct (cheaper x y) eqn:E.
  - rewrite filter_cons. destruct (decide (P x)); [|done]. symmetry. apply ins_head.
    assert (Forall (λ z, cheaper x z = true) (y :: l)) as Hall.
    { constructor; [done|]. rewrite Forall_forall in Hy, Hl |- *. intros z Hz.
      apply (cheaper_before x y z); auto. }
    rewrite Forall_forall in Hall |- *. intros z Hz. apply list_elem_of_filter in Hz as [_ Hz]. auto.
  - rewrite !filter_cons, IH by done. destruct (decide (P y)); [|done].
    destruct (decide (P x)); [|done]. cbn [ins]. by rewrite E.
Qed.

Lemma price_time_filter (P : OfferEntry → Prop) `{!∀ o, Decision (P o)} l :
  Forall offer_ok l → filter P (price_time l) = price_time (filter P l).
Proof.
  induction l as [|o l IH] using rev_ind; intros Hl; [done|].
  apply Forall_app in Hl as [Hl Ho]. apply Forall_cons in Ho as [Ho _].
  rewrite price_time_snoc, filter_ins; [|done|by rewrite price_time_perm|by apply price_time_sorted].
  rewrite filter_app, IH, filter_cons, filter_nil by done.
  destruct (decide (P o)); [by rewrite price_time_snoc|by rewrite app_nil_r].
Qed.

(** ** Edge sets keep the reference order *)

Lemma sorted_lookup l a b y z :
  price_sorted l → (a < b)%nat → l !! a = Some y → l !! b = Some z → cheaper z y = false.
Proof.
  intros Hs. revert a b. induction Hs as [|w l Hs IH Hw]; intros a b Hab Ea Eb; [done|].
  destruct b as [|b]; [lia|]. simpl in Eb. destruct a as [|a]; simpl in Ea.
  - injection Ea as ->. rewrite Forall_forall in Hw. by eapply Hw, list_elem_of_lookup_2.
  - apply (IH a b); [lia|done..].
Qed.

Lemma lookup_monotone x l a b :
  offer_ok x → Forall offer_ok l → price_sorted l → (a ≤ b)%nat →
  match l !! a with Some o => cheaper x o | None => true end = true →
  match l !! b with Some o => cheaper x o | None => true end = true.
Proof.
  intros Hx Hl Hs Hab Ha. destruct (l !! b) as [z|] eqn:Eb; [|done].
  destruct (lookup_lt_is_Some_2 l a) as [y Ea]; [apply lookup_lt_Some in Eb; lia|].
  rewrite Ea in Ha. destruct (decide (a = b)) as [->|]; [congruence|].
  rewrite Forall_forall in Hl. apply (cheaper_before x y z);
    [done|by eapply Hl, list_elem_of_lookup_2|by eapply Hl, list_elem_of_lookup_2|done|].
  apply (sorted_lookup l a b); [done|lia|done..].
Qed.

Lemma ins_split x l idx :
  (idx ≤ length l)%nat →
  (∀ k o, (k < idx)%nat → l !! k = Some o → cheaper x o = false) →
  (∀ o, l !! idx = Some o → cheaper x o = true) →
  ins x l = take idx l ++ x :: drop idx l.
Proof.
  revert l. induction idx as [|idx IH]; intros l Hl H1 H2.
  - rewrite take_0, drop_0. destruct l as [|y l]; [done|]. simpl. by rewrite (H2 y).
  - destruct l as [|y l]; [simpl in Hl; lia|]. simpl. rewrite (H1 0%nat y) by (done || lia).
    f_equal. apply IH; [simpl in Hl; lia| |done].
    intros k o Hk Hko. apply (H1 (S k)); [lia|done].
Qed.

Lemma edgeSet_add_lookup e key o l k :
  offer_ok o → Forall offer_ok l → price_sorted l → default [] (e !! key) = l →
  edgeSet_add e key o !! k = if decide (k = key) then Some (ins o l) else e !! k.
Proof.
  intros Ho Hl Hs He. unfold edgeSet_add. rewrite He.
  assert (∀ v, <[key := v]> e !! k = if decide (k = key) then Some v else e !! k) as Hi.
  { intros v. destruct (decide (k = key)) as [->|]; [by rewrite lookup_insert_eq|].
    by rewrite lookup_insert_ne. }
  destruct l as [|y l']; [by rewrite Hi|]. set (l := y :: l') in *. rewrite Hi.
  destruct (decide (k = key)); [|done]. f_equal.
  set (f := λ i, match l !! i with Some x => Cheaper (OfferPrice o) (OfferPrice x) | None => false end).
  set (f' := λ i, match l !! i with Some x => cheaper o x | None => true end).
  assert (Search (length l) f = Search (length l) f') as ->.
  { unfold Search. enough (∀ n i j, (j ≤ length l)%nat → search_loop n f i j = search_loop n f' i j) by auto.
    induction n as [|n IH]; intros i j Hj; cbn [search_loop]; [done|]. cbv zeta.
    destruct (Nat.ltb_spec i j); [|done].
    assert ((i + j) / 2 < length l)%nat as Hh by (apply Nat.Div0.div_lt_upper_bound; lia).
    assert (f ((i + j) / 2)%nat = f' ((i + j) / 2)%nat) as ->.
    { unfold f, f'. by destruct (lookup_lt_is_Some_2 l _ Hh) as [? ->]. }
    destruct (f' _); apply IH; lia. }
  destruct (search_loop_spec (S (length l)) f' 0 (length l)) as (H1 & H2 & H3); [|lia..|].
  { intros a b Hab. by apply lookup_monotone. }
  fold (Search (length l) f') in *. set (idx := Search (length l) f') in *. clearbody idx.
  rewrite (ins_split o l idx); [|lia| |].
  2:{ intros k' x Hk' Hx. specialize (H2 k' ltac:(lia)). unfold f' in H2. by rewrite Hx in H2. }
  2:{ intros x Hx. specialize (H3 idx). unfold f' in H3. rewrite Hx in H3. apply H3.
      apply lookup_lt_Some in Hx. lia. }
  pose proof (swap_loop_spec (take idx l) (drop idx l) o) as E.
  rewrite app_assoc, take_drop in E. rewrite <- E. rewrite length_take, length_drop, length_app.
  cbn [length]. f_equal; lia.
Qed.

Definition without (id : Z) (l : list OfferEntry) : list OfferEntry := filter (λ o, OfferId o ≠ id) l.

Lemma without_absent id l : id ∉ OfferId <$> l → without id l = l.
Proof.
  intros H. unfold without. induction l as [|o l IH]; [done|].
  rewrite fmap_cons, not_elem_of_cons in H. destruct H as [H1 H2].
  rewrite filter_cons_True by done. by rewrite IH.
Qed.

Lemma remove_first_spec id l :
  NoDup (OfferId <$> l) →
  remove_first id l = if decide (id ∈ OfferId <$> l) then Some (without id l) else None.
Proof.
  induction l as [|o l IH]; intros Hn; [done|]. cbn [remove_first].
  rewrite fmap_cons in Hn |- *. apply NoDup_cons in Hn as [Ho Hn].
  unfold without. destruct (Z.eqb_spec (OfferId o) id) as [<-|Hne].
  - rewrite decide_True by by left. rewrite filter_cons_False by naive_solver.
    f_equal. symmetry. by apply without_absent.
  - rewrite filter_cons_True by done. rewrite IH by done. unfold without.
    destruct (decide (id ∈ OfferId <$> l)) as [Hin|Hin].
    + by rewrite decide_True by by right.
    + rewrite decide_False; [done|]. rewrite not_elem_of_cons. naive_solver.
Qed.

(** ** Edge maps

    An edge map holds a list of offers, given oldest first, when each of its
    entries is the offers of the two assets in price-time order and no entry is
    empty. *)

Definition offers_at (E : gmap gostring edgeSet) (a b : gostring) : list OfferEntry :=
  default [] (E !! a ≫= λ s : edgeSet, s !! b).

Definition no_empty (E : gmap gostring edgeSet) : Prop :=
  ∀ a s, E !! a = Some s → s ≠ ∅ ∧ ∀ b, s !! b ≠ Some [].

Definition pair_offers (k1 k2 : OfferEntry → gostring) (a b : gostring) : list OfferEntry → list OfferEntry :=
  filter (λ o, k1 o = a ∧ k2 o = b).

Record levels (k1 k2 : OfferEntry → gostring) (offers : list OfferEntry) (E : gmap gostring edgeSet)
  : Prop := {
  levels_at : ∀ a b, offers_at E a b = price_time (pair_offers k1 k2 a b offers);
  levels_no_empty : no_empty E }.

Lemma offers_at_set E a b : offers_at E a b = default [] (default ∅ (E !! a) !! b).
Proof. unfold offers_at. by destruct (E !! a). Qed.

Lemma edges_add_insert E a b o :
  edges_add E a b o = <[a := edgeSet_add (default ∅ (E !! a)) b o]> E.
Proof. unfold edges_add. by destruct (E !! a). Qed.

Lemma edgeSet_remove_lookup e id key :
  NoDup (OfferId <$> default [] (e !! key)) → id ∈ OfferId <$> default [] (e !! key) →
  ∃ e', edgeSet_remove e id key = (true, e') ∧
    ∀ k, e' !! k = if decide (k = key)
      then (match without id (default [] (e !! key)) with [] => None | l => Some l end)
      else e !! k.
Proof.
  intros Hn Hin. unfold edgeSet_remove. rewrite remove_first_spec, decide_True by done.
  destruct (without id (default [] (e !! key))) as [|o l]; eexists; (split; [done|]); intros k;
    destruct (decide (k = key)) as [->|].
  - apply lookup_delete_eq.
  - by apply lookup_delete_ne.
  - apply lookup_insert_eq.
  - by apply lookup_insert_ne.
Qed.

Section levels.
Context (k1 k2 : OfferEntry → gostring).
Implicit Types (offers : list OfferEntry) (E : gmap gostring edgeSet).

Lemma pair_offers_ok a b offers : Forall offer_ok offers → Forall offer_ok (pair_offers k1 k2 a b offers).
Proof. apply Forall_filter_2. Qed.

Lemma pair_offers_snoc a b offers o :
  pair_offers k1 k2 a b (offers ++ [o]) =
    if decide (k1 o = a ∧ k2 o = b) then pair_offers k1 k2 a b offers ++ [o]
    else pair_offers k1 k2 a b offers.
Proof.
  unfold pair_offers. rewrite filter_app, filter_cons, filter_nil.
  destruct (decide _); [done|]. by rewrite app_nil_r.
Qed.

Lemma pair_offers_without a b id offers :
  pair_offers k1 k2 a b (without id offers) = without id (pair_offers k1 k2 a b offers).
Proof. apply filter_filter_comm. Qed.

Lemma levels_empty : levels k1 k2 [] ∅.
Proof. split; [|by intros ??]. intros a b. unfold offers_at. by rewrite lookup_empty. Qed.

Lemma levels_add offers o E :
  Forall offer_ok offers → offer_ok o → levels k1 k2 offers E →
  levels k1 k2 (offers ++ [o]) (edges_add E (k1 o) (k2 o) o).
Proof.
  intros Hoff Ho [Hat Hne]. rewrite edges_add_insert.
  set (s := default ∅ (E !! k1 o)).
  assert (∀ k, edgeSet_add s (k2 o) o !! k =
    if decide (k = k2 o) then Some (ins o (offers_at E (k1 o) (k2 o))) else s !! k) as Hs.
  { intros k. pose proof (pair_offers_ok (k1 o) (k2 o) _ Hoff) as Hp.
    apply edgeSet_add_lookup; [done| | |by rewrite offers_at_set]; rewrite Hat.
    - by rewrite price_time_perm.
    - by apply price_time_sorted. }
  split.
  - intros a b. rewrite offers_at_set, pair_offers_snoc.
    destruct (decide (k1 o = a)) as [<-|Ha].
    + rewrite lookup_insert_eq. cbn [default]. rewrite Hs.
      destruct (decide (b = k2 o)) as [->|Hb].
      * rewrite decide_True by done. cbn [default]. by rewrite price_time_snoc, Hat.
      * rewrite decide_False by naive_solver. rewrite <- Hat. by rewrite offers_at_set.
    + rewrite lookup_insert_ne, decide_False by naive_solver. by rewrite <- Hat, offers_at_set.
  - intros a t. destruct (decide (k1 o = a)) as [<-|Ha].
    + rewrite lookup_insert_eq. intros [= <-]. split.
      * intros He. specialize (Hs (k2 o)). rewrite He, lookup_empty, decide_True in Hs by done. done.
      * intros b. rewrite Hs. destruct (decide (b = k2 o)).
        -- intros [= He]. pose proof (ins_perm o (offers_at E (k1 o) (k2 o))) as Hp.
           rewrite He in Hp. by apply Permutation_nil_cons in Hp.
        -- unfold s. destruct (E !! k1 o) as [s'|] eqn:E1; simpl; [by apply (Hne (k1 o) s')|].
           by rewrite lookup_empty.
    + rewrite lookup_insert_ne by done. apply Hne.
Qed.

Lemma levels_remove offers o E :
  Forall offer_ok offers → NoDup (OfferId <$> offers) → o ∈ offers → levels k1 k2 offers E →
  ∃ E', edges_remove E (k1 o) (k2 o) (OfferId o) = Ret E' ∧
        levels k1 k2 (without (OfferId o) offers) E'.
Proof.
  intros Hoff Hn Ho [Hat Hne].
  assert (o ∈ pair_offers k1 k2 (k1 o) (k2 o) offers) as Hin by by apply list_elem_of_filter.
  assert (o ∈ offers_at E (k1 o) (k2 o)) as HinE by by rewrite Hat, price_time_perm.
  unfold edges_remove. destruct (E !! k1 o) as [s|] eqn:E1.
  2:{ unfold offers_at in HinE. rewrite E1 in HinE. by apply not_elem_of_nil in HinE. }
  assert (offers_at E (k1 o) (k2 o) = default [] (s !! k2 o)) as Es.
  { rewrite offers_at_set, E1. done. }
  destruct (edgeSet_remove_lookup s (OfferId o) (k2 o)) as (s' & -> & Hs').
  { rewrite <- Es, Hat, price_time_perm. by apply NoDup_key_filter. }
  { rewrite <- Es. by apply list_elem_of_fmap_2. }
  rewrite <- Es in Hs'.
  assert (∀ E', (∀ a, E' !! a = if decide (a = k1 o) then (if decide (s' = ∅) then None else Some s') else E !! a) →
    levels k1 k2 (without (OfferId o) offers) E') as Hlev.
  { intros E' HE'. split.
    - intros a b. rewrite pair_offers_without. unfold without at 1.
      rewrite <- price_time_filter by by apply pair_offers_ok. rewrite <- Hat.
      rewrite !offers_at_set, HE'. destruct (decide (a = k1 o)) as [->|Ha].
      + assert (default ∅ (if decide (s' = ∅) then None else Some s') = s') as ->
          by by destruct (decide (s' = ∅)).
        rewrite E1. cbn [default]. rewrite Hs'. destruct (decide (b = k2 o)) as [->|Hb].
        * rewrite Es. unfold without. by destruct (filter _ _).
        * symmetry. fold (without (OfferId o) (default [] (s !! b))). apply without_absent.
          intros Hid. apply list_elem_of_fmap in Hid as (x & Hx & Hxin).
          assert (x ∈ pair_offers k1 k2 (k1 o) b offers) as Hxp.
          { by rewrite <- price_time_perm, <- Hat, offers_at_set, E1. }
          apply list_elem_of_filter in Hxp as [[_ Hxb] Hxo].
          assert (x = o) as ->; [|done].
          by eapply (NoDup_key OfferId).
      + symmetry. apply without_absent. intros Hid. apply list_elem_of_fmap in Hid as (x & Hx & Hxin).
        assert (x ∈ pair_offers k1 k2 a b offers) as Hxp.
        { by rewrite <- price_time_perm, <- Hat, offers_at_set. }
        apply list_elem_of_filter in Hxp as [[Hxa _] Hxo].
        assert (x = o) as ->; [|done].
        by eapply (NoDup_key OfferId).
    - intros a t. rewrite HE'. destruct (decide (a = k1 o)) as [->|Ha]; [|apply Hne].
      destruct (decide (s' = ∅)); [done|]. intros [= <-]. split; [done|]. intros b. rewrite Hs'.
      destruct (decide (b = k2 o)); [by destruct (without _ _)|]. by apply (Hne (k1 o)). }
  destruct (Nat.eqb_spec (size s') 0) as [Hz|Hz]; eexists; (split; [done|]); apply Hlev; intros a;
    destruct (decide (a = k1 o)) as [->|].
  - rewrite lookup_delete_eq, decide_True; [done|]. by apply map_size_empty_inv.
  - by apply lookup_delete_ne.
  - rewrite lookup_insert_eq, decide_False; [done|]. intros ->. by rewrite map_size_empty in Hz.
  - by apply lookup_insert_ne.
Qed.
End levels.

(** ** The abstract order book

    A list of offers, oldest first; an offer that is added again loses its
    time priority.  [closed] says that the batch was refused and not discarded:
    the next [Apply] panics. *)

Record Book := MkBook {
  book : list OfferEntry; book_ledger : Z; pending : list orderBookOperation; closed : bool }.

Inductive call :=
  | CAddOffer (offer : OfferEntry)
  | CRemoveOffer (offerID : Z)
  | CDiscard
  | CApply (ledger : Z)
  | CClear.

Definition book_operation (l : list OfferEntry) (op : orderBookOperation) : list OfferEntry :=
  match op with
  | addOfferOperation o => without (OfferId o) l ++ [o]
  | removeOfferOperation id => without id l
  end.

Definition book_call (b : Book) (c : call) : option (Book * option orderbook_error) :=
  match c with
  | CAddOffer o =>
      Some (MkBook (book b) (book_ledger b) (pending b ++ [addOfferOperation o]) (closed b), None)
  | CRemoveOffer id =>
      Some (MkBook (book b) (book_ledger b) (pending b ++ [removeOfferOperation id]) (closed b), None)
  | CDiscard => Some (MkBook (book b) (book_ledger b) [] false, None)
  | CClear => Some (MkBook [] 0 [] false, None)
  | CApply ledger =>
      if closed b then None
      else if (0 <? book_ledger b) && (ledger <=? book_ledger b) then
        Some (MkBook (book b) (book_ledger b) (pending b) true, Some errUnexpectedLedger)
      else Some (MkBook (foldl book_operation (book b) (pending b)) ledger [] false, None)
  end.

Definition graph_call (g : OrderBookGraph) (c : call)
  : outcome orderbook_error (OrderBookGraph * option orderbook_error) :=
  match c with
  | CAddOffer o => Ret (AddOffer g o, None)
  | CRemoveOffer id => Ret (RemoveOffer g id, None)
  | CDiscard => Ret (Discard g, None)
  | CApply ledger => Apply g ledger
  | CClear => Ret (Clear g, None)
  end.

Definition operation_ok (op : orderBookOperation) : Prop :=
  match op with addOfferOperation o => offer_ok o | _ => True end.
Definition call_ok (c : call) : Prop :=
  match c with CAddOffer o => offer_ok o | _ => True end.

Definition pair_of (o : OfferEntry) : tradingPair := MkPair (buying_key o) (selling_key o).

Definition pairs (l : list OfferEntry) : gmap Z tradingPair :=
  list_to_map ((λ o, (OfferId o, pair_of o)) <$> l).

(** The three maps of the graph hold the offers [l]. *)
Record holds (g : OrderBookGraph) (l : list OfferEntry) : Prop := {
  holds_ok : Forall offer_ok l;
  holds_ids : NoDup (OfferId <$> l);
  holds_selling : levels selling_key buying_key l (edgesForSellingAsset g);
  holds_buying : levels buying_key selling_key l (edgesForBuyingAsset g);
  holds_pairs : ∀ id, tradingPairForOffer g !! id = pairs l !! id }.

Record refines (g : OrderBookGraph) (b : Book) : Prop := {
  refines_holds : holds g (book b);
  refines_ledger : lastLedger g = book_ledger b;
  refines_batch : batchedUpdates g = MkBatch (pending b) (closed b);
  refines_pending : Forall operation_ok (pending b) }.

(** *** The pair map *)

Lemma pairs_in l o : NoDup (OfferId <$> l) → o ∈ l → pairs l !! OfferId o = Some (pair_of o).
Proof.
  intros Hn Ho. apply elem_of_list_to_map_1.
  - by rewrite <- list_fmap_compose.
  - apply list_elem_of_fmap. by exists o.
Qed.

Lemma pairs_out l id : id ∉ OfferId <$> l → pairs l !! id = None.
Proof. intros H. apply not_elem_of_list_to_map_1. by rewrite <- list_fmap_compose. Qed.

Lemma pairs_None l id : NoDup (OfferId <$> l) → pairs l !! id = None → id ∉ OfferId <$> l.
Proof. intros Hn Hp (o & -> & Ho)%list_elem_of_fmap. by rewrite pairs_in in Hp. Qed.

Lemma pairs_Some l id p :
  NoDup (OfferId <$> l) → pairs l !! id = Some p → ∃ o, o ∈ l ∧ OfferId o = id ∧ p = pair_of o.
Proof.
  intros Hn Hp. apply elem_of_list_to_map_2, list_elem_of_fmap in Hp as (o & [= -> ->] & Ho). eauto.
Qed.

Lemma without_in id l o : o ∈ without id l ↔ OfferId o ≠ id ∧ o ∈ l.
Proof. unfold without. by rewrite list_elem_of_filter. Qed.

Lemma without_ids id l id' : id' ∈ OfferId <$> without id l ↔ id' ≠ id ∧ id' ∈ OfferId <$> l.
Proof. rewrite !list_elem_of_fmap. setoid_rewrite without_in. naive_solver. Qed.

Lemma pairs_without l id id' :
  NoDup (OfferId <$> l) → pairs (without id l) !! id' = delete id (pairs l) !! id'.
Proof.
  intros Hn. assert (NoDup (OfferId <$> without id l)) as Hw by by apply NoDup_key_filter.
  destruct (decide (id' = id)) as [->|Hne].
  - rewrite lookup_delete_eq. apply pairs_out. rewrite without_ids. naive_solver.
  - rewrite lookup_delete_ne by done. destruct (pairs l !! id') as [p|] eqn:E.
    + apply pairs_Some in E as (o & Ho & <- & ->); [|done].
      apply pairs_in; [done|]. by apply without_in.
    + apply pairs_out. rewrite without_ids. apply pairs_None in E; naive_solver.
Qed.

Lemma pairs_snoc l o id :
  OfferId o ∉ OfferId <$> l → pairs (l ++ [o]) !! id = <[OfferId o := pair_of o]> (pairs l) !! id.
Proof.
  intros Ho. unfold pairs. rewrite fmap_app, list_to_map_app. cbn [fmap list_fmap list_to_map foldr curry].
  destruct (decide (id = OfferId o)) as [->|Hne].
  - rewrite lookup_insert_eq, lookup_union_r by by apply pairs_out. apply lookup_insert_eq.
  - rewrite lookup_insert_ne by done.
    destruct (pairs l !! id) as [p|] eqn:E; unfold pairs in E.
    + by rewrite (lookup_union_Some_l _ _ _ _ E).
    + rewrite lookup_union_r by done. rewrite E. cbn [fst snd]. by rewrite lookup_insert_ne, lookup_empty by done.
Qed.

(** *** The operations *)

Lemma holds_remove g l id :
  holds g l → id ∈ OfferId <$> l →
  ∃ g', graph_remove g id = Ret g' ∧ holds g' (without id l) ∧
        lastLedger g' = lastLedger g ∧ batchedUpdates g' = batchedUpdates g.
Proof.
  intros [Hok Hn Hs Hb Hp] (o & -> & Ho)%list_elem_of_fmap.
  unfold graph_remove. rewrite Hp, pairs_in by done. cbn [sellingAsset buyingAsset pair_of].
  destruct (levels_remove _ _ l o _ Hok Hn Ho Hs) as (Es & Hes & Hls).
  destruct (levels_remove _ _ l o _ Hok Hn Ho Hb) as (Eb & Heb & Hlb).
  rewrite Hes. outcome_simpl. rewrite Heb. cbn [outcome_bind]. eexists. split; [done|].
  split; [|done]. split; [by apply Forall_filter_2|by apply NoDup_key_filter|done|done|].
  intros id. cbn [tradingPairForOffer]. rewrite pairs_without by done.
  destruct (decide (id = OfferId o)) as [->|]; [by rewrite !lookup_delete_eq|].
  rewrite !lookup_delete_ne by done. apply Hp.
Qed.

Lemma holds_add g l o :
  holds g l → offer_ok o →
  ∃ g', graph_add g o = Ret g' ∧ holds g' (without (OfferId o) l ++ [o]) ∧
        lastLedger g' = lastLedger g ∧ batchedUpdates g' = batchedUpdates g.
Proof.
  intros Hg Ho. unfold graph_add.
  assert (∃ g1, match tradingPairForOffer g !! OfferId o with
                | Some _ => graph_remove g (OfferId o) | None => Ret g end = Ret g1 ∧
    holds g1 (without (OfferId o) l) ∧ lastLedger g1 = lastLedger g ∧
    batchedUpdates g1 = batchedUpdates g) as (g1 & -> & H1 & H2 & H3).
  { destruct (tradingPairForOffer g !! OfferId o) as [p|] eqn:E; rewrite (holds_pairs g l Hg) in E.
    - apply holds_remove; [done|]. apply pairs_Some in E as (x & Hx & <- & _); [|apply Hg].
      by apply list_elem_of_fmap_2.
    - exists g. split; [done|]. rewrite without_absent; [done|]. apply pairs_None; [apply Hg|done]. }
  outcome_simpl. eexists. split; [done|]. split; [|done].
  destruct H1 as [Hok Hn Hs Hb Hp].
  assert (OfferId o ∉ OfferId <$> without (OfferId o) l) as Hnot by (rewrite without_ids; naive_solver).
  split.
  - apply Forall_app. split; [done|]. apply Forall_cons. by split.
  - rewrite fmap_app. apply NoDup_app. split; [done|]. split; [|apply NoDup_singleton].
    intros x Hx ->%list_elem_of_singleton. done.
  - by apply levels_add.
  - by apply levels_add.
  - intros id. cbn [tradingPairForOffer]. rewrite pairs_snoc by done.
    destruct (decide (id = OfferId o)) as [->|]; [by rewrite !lookup_insert_eq|].
    rewrite !lookup_insert_ne by done. apply Hp.
Qed.

Lemma holds_operation g l op :
  holds g l → operation_ok op →
  ∃ g', apply_operation g op = Ret g' ∧ holds g' (book_operation l op) ∧
        lastLedger g' = lastLedger g ∧ batchedUpdates g' = batchedUpdates g.
Proof.
  intros Hg Ho. destruct op as [o|id]; cbn [apply_operation book_operation].
  - destruct (holds_add g l o Hg Ho) as (g' & -> & H). by exists g'.
  - destruct (tradingPairForOffer g !! id) as [p|] eqn:E; rewrite (holds_pairs g l Hg) in E.
    + apply pairs_Some in E as (x & Hx & <- & _); [|apply Hg].
      destruct (holds_remove g l (OfferId x) Hg) as (g' & -> & H); [by apply list_elem_of_fmap_2|].
      by exists g'.
    + exists g. rewrite without_absent; [done|]. apply pairs_None; [apply Hg|done].
Qed.

Lemma holds_operations g l ops :
  holds g l → Forall operation_ok ops →
  ∃ g', mfold apply_operation g ops = Ret g' ∧ holds g' (foldl book_operation l ops) ∧
        lastLedger g' = lastLedger g ∧ batchedUpdates g' = batchedUpdates g.
Proof.
  intros Hg Hops. revert g l Hg. induction Hops as [|op ops Ho Hops IH]; intros g l Hg; simpl.
  { by exists g. }
  destruct (holds_operation g l op Hg Ho) as (g1 & -> & H1 & <- & <-). simpl. by apply IH.
Qed.

Lemma holds_maps g g' l :
  holds g l → edgesForSellingAsset g' = edgesForSellingAsset g →
  edgesForBuyingAsset g' = edgesForBuyingAsset g → tradingPairForOffer g' = tradingPairForOffer g →
  holds g' l.
Proof. intros [] E1 E2 E3. split; by rewrite ?E1, ?E2, ?E3. Qed.

Lemma holds_empty g :
  edgesForSellingAsset g = ∅ → edgesForBuyingAsset g = ∅ → tradingPairForOffer g = ∅ → holds g [].
Proof.
  intros E1 E2 E3. split; rewrite ?E1, ?E2, ?E3; [constructor|constructor|apply levels_empty..|done].
Qed.

(** Every call of the graph does what the abstract book says. *)
Lemma refines_call g b c :
  refines g b → call_ok c →
  match book_call b c with
  | Some (b', err) => ∃ g', graph_call g c = Ret (g', err) ∧ refines g' b'
  | None => graph_call g c = Panic
  end.
Proof.
  intros [Hh Hl Hb Hp] Hc. destruct c as [o|id| |ledger|]; cbn [book_call graph_call].
  - eexists. split; [done|]. unfold AddOffer, batch_addOffer. rewrite Hb.
    split; [by apply (holds_maps g)|done|done|]. apply Forall_app. split; [done|]. apply Forall_cons. by split.
  - eexists. split; [done|]. unfold RemoveOffer, batch_removeOffer. rewrite Hb.
    split; [by apply (holds_maps g)|done|done|]. apply Forall_app. split; [done|]. apply Forall_cons. by split.
  - eexists. split; [done|]. split; [by apply (holds_maps g)|done|done|constructor].
  - unfold Apply, batch_apply. rewrite Hb. cbn [committed operations].
    destruct (closed b); [done|]. set (g1 := set_batch g (MkBatch (pending b) true)).
    assert (lastLedger g1 = book_ledger b) as Hl1 by done. rewrite Hl1.
    assert (operations (batchedUpdates g1) = pending b) as -> by done.
    destruct ((0 <? book_ledger b) && (ledger <=? book_ledger b)); outcome_simpl.
    + eexists. split; [done|]. split; [by apply (holds_maps g)|done|done|done].
    + destruct (holds_operations g1 (book b) (pending b)) as (g' & -> & H1 & _ & _);
        [by apply (holds_maps g)|done|]. cbn [outcome_bind].
      eexists. split; [done|]. split; [by apply (holds_maps g')|done|done|constructor].
  - eexists. split; [done|]. split; [by apply holds_empty|done|done|constructor].
Qed.

Definition graph_step (acc : OrderBookGraph * list (option orderbook_error)) (c : call)
  : outcome orderbook_error (OrderBookGraph * list (option orderbook_error)) :=
  '(g, err) ← graph_call acc.1 c; Ret (g, acc.2 ++ [err]).
Definition graph_run (calls : list call) := mfold graph_step (NewOrderBookGraph, []) calls.

Fixpoint book_run_from (b : Book) (errs : list (option orderbook_error)) (calls : list call)
  : option (Book * list (option orderbook_error)) :=
  match calls with
  | [] => Some (b, errs)
  | c :: calls' =>
      match book_call b c with
      | None => None
      | Some (b', err) => book_run_from b' (errs ++ [err]) calls'
      end
  end.
Definition empty_book : Book := MkBook [] 0 [] false.
Definition book_run (calls : list call) := book_run_from empty_book [] calls.

Lemma refines_new : refines NewOrderBookGraph empty_book.
Proof. split; [by apply holds_empty|done|done|constructor]. Qed.

Lemma refines_run calls :
  Forall call_ok calls →
  match book_run calls with
  | Some (b, errs) => ∃ g, graph_run calls = Ret (g, errs) ∧ refines g b
  | None => graph_run calls = Panic
  end.
Proof.
  intros Hc. unfold book_run, graph_run. pose proof refines_new as Hr. revert Hr.
  generalize NewOrderBookGraph empty_book ([] : list (option orderbook_error)).
  induction Hc as [|c calls Hc Hcs IH]; intros g b errs Hr; cbn [book_run_from mfold]; [by exists g|].
  pose proof (refines_call g b c Hr Hc) as H.
  destruct (book_call b c) as [[b' err]|].
  - destruct H as (g' & E & Hr').
    assert (graph_step (g, errs) c = Ret (g', errs ++ [err])) as ->.
    { unfold graph_step. cbn [fst snd]. by rewrite E. }
    by apply IH.
  - assert (graph_step (g, errs) c = Panic) as -> by (unfold graph_step; cbn [fst]; by rewrite H).
    done.
Qed.

(** *** Listing *)

Lemma levels_elem k1 k2 l E a b o :
  levels k1 k2 l E → o ∈ offers_at E a b ↔ o ∈ l ∧ k1 o = a ∧ k2 o = b.
Proof.
  intros [Hat _]. rewrite Hat, price_time_perm. unfold pair_offers.
  rewrite list_elem_of_filter. tauto.
Qed.

Lemma levels_set k1 k2 l E a s b : 
  levels k1 k2 l E → E !! a = Some s → default [] (s !! b) = price_time (pair_offers k1 k2 a b l).
Proof. intros [Hat _] Hs. by rewrite <- Hat, offers_at_set, Hs. Qed.

Lemma Offers_perm g l : holds g l → Offers g ≡ₚ l.
Proof.
  intros [Hok Hn Hs _ _]. assert (NoDup l) as Hnl by by eapply NoDup_fmap_1.
  unfold Offers. set (E := edgesForSellingAsset g) in *.
  set (h := λ kv : gostring * edgeSet, concat (snd <$> map_to_list kv.2)).
  assert (∀ a s, E !! a = Some s → ∀ o, o ∈ h (a, s) ↔ ∃ b, o ∈ default [] (s !! b)) as Hin.
  { intros a s Ha o. unfold h. rewrite elem_of_concat. split.
    - intros (lo & ([b lo'] & -> & Hb)%list_elem_of_fmap & Ho). exists b.
      apply elem_of_map_to_list in Hb. cbn [snd] in Hb. by rewrite Hb.
    - intros (b & Ho). destruct (s !! b) as [lo|] eqn:Hb; [|by apply not_elem_of_nil in Ho].
      exists lo. split; [|done]. apply list_elem_of_fmap. exists (b, lo).
      split; [done|]. by apply elem_of_map_to_list. }
  apply NoDup_Permutation; [|done|].
  - apply (NoDup_concat_key selling_key); [apply NoDup_fst_map_to_list|].
    intros [a s] Ha%elem_of_map_to_list. split.
    + unfold h. apply (NoDup_concat_key buying_key); [apply NoDup_fst_map_to_list|].
      intros [b lo] Hb%elem_of_map_to_list. cbn [fst snd].
      pose proof (levels_set _ _ _ _ a s b Hs Ha) as E1. cbn [snd] in Hb. rewrite Hb in E1. cbn [default] in E1.
      unfold id in E1. subst lo. split.
      * rewrite price_time_perm. by apply NoDup_filter.
      * intros x. rewrite price_time_perm. by intros [[_ ?] _]%list_elem_of_filter.
    + intros o (b & Ho)%Hin; [|done]. rewrite (levels_set _ _ _ _ a s b Hs Ha), price_time_perm in Ho.
      by apply list_elem_of_filter in Ho as [[? _] _].
  - intros o. rewrite elem_of_concat. split.
    + intros (lo & ([a s] & -> & Ha)%list_elem_of_fmap & Ho). apply elem_of_map_to_list in Ha.
      apply Hin in Ho as (b & Ho); [|done].
      rewrite (levels_set _ _ _ _ a s b Hs Ha), price_time_perm in Ho.
      by apply list_elem_of_filter in Ho as [_ ?].
    + intros Ho. assert (o ∈ offers_at E (selling_key o) (buying_key o)) as Hat
        by by apply (levels_elem _ _ _ _ _ _ _ Hs).
      rewrite offers_at_set in Hat. destruct (E !! selling_key o) as [s|] eqn:Ha.
      2:{ simpl in Hat. rewrite lookup_empty in Hat. by apply not_elem_of_nil in Hat. }
      exists (h (selling_key o, s)). split.
      * apply list_elem_of_fmap. eexists. split; [done|]. by apply elem_of_map_to_list.
      * apply Hin; [done|]. by exists (buying_key o).
Qed.

Lemma IsEmpty_spec g l : holds g l → IsEmpty g = bool_decide (l = []).
Proof.
  intros Hg. unfold IsEmpty. pose proof (Offers_perm g l Hg) as Hp.
  destruct (Nat.eqb_spec (size (edgesForSellingAsset g)) 0) as [Hz|Hz]; symmetry.
  - apply map_size_empty_inv in Hz. unfold Offers in Hp. rewrite Hz, map_to_list_empty in Hp.
    apply bool_decide_eq_true_2. by apply Permutation_nil.
  - apply bool_decide_eq_false_2. intros ->. apply Hz. destruct Hg as [_ _ [Hat Hne] _ _].
    apply map_size_empty_iff, map_empty. intros a.
    destruct (edgesForSellingAsset g !! a) as [s|] eqn:Ha; [|done]. exfalso.
    destruct (Hne a s Ha) as [Hs Hb]. apply Hs, map_empty. intros b.
    specialize (Hat a b). rewrite offers_at_set, Ha in Hat. cbn in Hat.
    destruct (s !! b) eqn:Eb; [|done]. simpl in Hat. subst. by destruct (Hb b).
Qed.

(** *** Price levels *)

(** The offers of a sorted list, one group per price. *)
Fixpoint price_groups (l : list OfferEntry) : list (list OfferEntry) :=
  match l with
  | [] => []
  | x :: l' =>
      match price_groups l' with
      | (y :: g) :: gs =>
          if Equal (OfferPrice x) (OfferPrice y) then (x :: y :: g) :: gs else [x] :: (y :: g) :: gs
      | gs => [x] :: gs
      end
  end.

Lemma price_groups_head x l : ∃ g gs, price_groups (x :: l) = (x :: g) :: gs.
Proof.
  simpl. destruct (price_groups l) as [|[|y g] gs]; [by eexists _, _..|]. case_if; by eexists _, _.
Qed.

Lemma price_groups_concat l : concat (price_groups l) = l.
Proof.
  induction l as [|x l IH]; [done|]. simpl.
  destruct (price_groups l) as [|[|y g] gs]; simpl in *; [by subst|by rewrite IH|].
  case_if; simpl; by rewrite <- IH.
Qed.

Lemma findOffers_loop_groups x k l :
  x :: findOffers_loop (Some x) (Z.of_nat k) l = concat (take (S k) (price_groups (x :: l))).
Proof.
  revert x k. induction l as [|y l IH]; intros x k; [by rewrite take_ge by (simpl; lia)|].
  cbn [findOffers_loop]. specialize (IH y).
  destruct (price_groups_head y l) as (g & gs & Eg).
  assert (price_groups (x :: y :: l) = if Equal (OfferPrice x) (OfferPrice y)
    then (x :: y :: g) :: gs else [x] :: (y :: g) :: gs) as Ex.
  { cbn [price_groups] in Eg |- *. by rewrite Eg. }
  rewrite Ex. rewrite Eg in IH. destruct (Equal (OfferPrice x) (OfferPrice y)).
  - rewrite (proj2 (Z.ltb_ge (Z.of_nat k) 0)) by lia. rewrite IH. done.
  - destruct k as [|k].
    + by rewrite (proj2 (Z.ltb_lt (Z.of_nat 0 - 1) 0)) by lia.
    + rewrite (proj2 (Z.ltb_ge _ 0)) by lia.
      replace (Z.of_nat (S k) - 1) with (Z.of_nat k) by lia. by rewrite IH.
Qed.

Lemma findOffers_loop_spec k l :
  findOffers_loop None (Z.of_nat k) l = concat (take k (price_groups l)).
Proof.
  destruct l as [|x l]; [by destruct k|]. cbn [findOffers_loop]. destruct k as [|k].
  - by rewrite (proj2 (Z.ltb_lt (Z.of_nat 0 - 1) 0)) by lia.
  - rewrite (proj2 (Z.ltb_ge _ 0)) by lia.
    replace (Z.of_nat (S k) - 1) with (Z.of_nat k) by lia. apply findOffers_loop_groups.
Qed.

Lemma findOffers_spec g l a b k :
  holds g l →
  findOffers g a b (Z.of_nat k) =
    concat (take k (price_groups (price_time (pair_offers selling_key buying_key a b l)))).
Proof.
  intros Hg. rewrite <- findOffers_loop_spec, <- (levels_at _ _ _ _ (holds_selling g l Hg)).
  unfold findOffers, offers_at. destruct (edgesForSellingAsset g !! a) as [s|]; [|done]. simpl.
  by destruct (s !! b).
Qed.

(** The offers between two assets. *)
Definition offers_between (first second : OfferEntry → Asset) (a b : Asset)
  : list OfferEntry → list OfferEntry := filter (λ o, first o = a ∧ second o = b).
(** The offers that sell one asset for another. *)
Definition offers_for (selling buying : Asset) : list OfferEntry → list OfferEntry :=
  offers_between Selling Buying selling buying.

Lemma pair_offers_between (first second : OfferEntry → Asset) l a b :
  Forall (λ o, wf_asset (first o) ∧ wf_asset (second o)) l → wf_asset a → wf_asset b →
  pair_offers (λ o, asset_string (first o)) (λ o, asset_string (second o))
    (asset_string a) (asset_string b) l = offers_between first second a b l.
Proof.
  intros Hok Ha Hb. unfold pair_offers, offers_between.
  induction Hok as [|o l (Ho1 & Ho2) Hok IH]; [done|]. rewrite !filter_cons, IH.
  destruct (decide _) as [[E1 E2]|E1], (decide _) as [E2'|E2']; try done.
  - exfalso. apply E2'. split; by apply asset_string_inj.
  - exfalso. apply E1. destruct E2' as [-> ->]. done.
Qed.

Lemma pair_offers_assets l selling buying :
  Forall offer_ok l → wf_asset selling → wf_asset buying →
  pair_offers selling_key buying_key (asset_string selling) (asset_string buying) l =
  offers_for selling buying l.
Proof.
  intros Hok. apply (pair_offers_between Selling Buying).
  eapply Forall_impl; [done|]. by intros o (_ & ? & ? & _).
Qed.

(** ** Properties *)

(** C9: the graph implements the abstract order book: after any sequence of
    calls with valid offers it returns the same errors and holds the same
    offers in price-time order in both edge maps, and no internal
    inconsistency ever makes [Apply] panic; it panics only when the abstract
    book says so, after an unexpected ledger that was not followed by
    [Discard] or [Clear]. *)
Theorem OrderBookGraph_refines calls :
  Forall call_ok calls →
  match book_run calls with
  | Some (b, errs) => ∃ g, graph_run calls = Ret (g, errs) ∧ refines g b
  | None => graph_run calls = Panic
  end.
Proof. apply refines_run. Qed.

Definition offer_example (id n d : Z) : OfferEntry :=
  MkOffer (MkAccountId (replicate 32 1)) id AssetTypeNative
    (AssetTypeCreditAlphanum4 (str "USD" ++ [0]) (MkAccountId (replicate 32 2))) 100 (MkPrice n d) 0.

Lemma offer_example_ok id n d : price_ok (MkPrice n d) → offer_ok (offer_example id n d).
Proof.
  intros Hp. split; [done|]. split; [done|].
  split; [|by unfold amount_ok, MaxInt64; simpl; lia]. split; (split; [done|]).
  - repeat (apply List.Forall_cons; [unfold is_u8; simpl; lia|]); apply List.Forall_nil.
  - apply Forall_replicate. unfold is_u8. lia.
Qed.

Definition calls_example : list call :=
  [CAddOffer (offer_example 1 2 1); CAddOffer (offer_example 2 1 1); CApply 5;
   CAddOffer (offer_example 3 1 1); CRemoveOffer 1; CApply 5; CDiscard; CAddOffer (offer_example 4 2 2);
   CApply 6].

Lemma calls_example_ok : Forall call_ok calls_example.
Proof.
  repeat (apply List.Forall_cons; [try exact I; apply offer_example_ok; unfold price_ok, MaxInt32; simpl; lia|]).
  apply List.Forall_nil.
Qed.

Theorem OrderBookGraph_refines_witness :
  ∃ g, graph_run calls_example = Ret (g, [None; None; None; None; None; Some errUnexpectedLedger; None; None; None]) ∧
       refines g (MkBook [offer_example 1 2 1; offer_example 2 1 1; offer_example 4 2 2] 6 [] false).
Proof. exact (OrderBookGraph_refines calls_example calls_example_ok). Defined.

(** [Offers] lists exactly the offers of the book (in an order that depends
    on the iteration of the maps), [OffersMap] maps each id to its offer, and
    [IsEmpty] tells whether there are none. *)
Theorem Offers_listing calls b errs :
  Forall call_ok calls → book_run calls = Some (b, errs) →
  ∃ g, graph_run calls = Ret (g, errs) ∧ Offers g ≡ₚ book b ∧
    (∀ id o, OffersMap g !! id = Some o ↔ o ∈ book b ∧ OfferId o = id) ∧
    IsEmpty g = bool_decide (book b = []).
Proof.
  intros Hc Hb. pose proof (refines_run calls Hc) as H. rewrite Hb in H.
  destruct H as (g & Hg & [Hh _ _ _]). exists g. split; [done|].
  pose proof (Offers_perm g _ Hh) as Hp. split; [done|]. split; [|by apply IsEmpty_spec].
  assert (NoDup (OfferId <$> Offers g)) as Hn by (rewrite Hp; apply Hh).
  intros id o. unfold OffersMap. rewrite <- Hp. split.
  - destruct (decide (id ∈ OfferId <$> Offers g)) as [(x & -> & Hx)%list_elem_of_fmap|Hno].
    + rewrite foldl_insert_lookup by done. by intros [= <-].
    + by rewrite foldl_insert_None.
  - intros [Ho <-]. by apply foldl_insert_lookup.
Qed.

Theorem Offers_listing_witness :
  ∃ g, graph_run calls_example = Ret (g, [None; None; None; None; None; Some errUnexpectedLedger; None; None; None]) ∧
    Offers g ≡ₚ [offer_example 1 2 1; offer_example 2 1 1; offer_example 4 2 2] ∧
    (∀ id o, OffersMap g !! id = Some o ↔
       o ∈ [offer_example 1 2 1; offer_example 2 1 1; offer_example 4 2 2] ∧ OfferId o = id) ∧
    IsEmpty g = false.
Proof.
  exact (Offers_listing calls_example
    (MkBook [offer_example 1 2 1; offer_example 2 1 1; offer_example 4 2 2] 6 [] false)
    [None; None; None; None; None; Some errUnexpectedLedger; None; None; None] calls_example_ok eq_refl).
Defined.

(** [FindAsksAndBids] returns, for each side, exactly the offers of the
    pair at the best [maxPriceLevels] prices, cheapest first and oldest first
    within a price, together with the ledger of the last applied batch. *)
Theorem FindAsksAndBids_spec calls b errs selling buying k :
  Forall call_ok calls → book_run calls = Some (b, errs) → wf_asset selling → wf_asset buying →
  ∃ g, graph_run calls = Ret (g, errs) ∧
    FindAsksAndBids g selling buying (Z.of_nat k) =
      (concat (take k (price_groups (price_time (offers_for selling buying (book b))))),
       concat (take k (price_groups (price_time (offers_for buying selling (book b))))),
       book_ledger b) ∧
    price_sorted (price_time (offers_for selling buying (book b))).
Proof.
  intros Hc Hb Hs Hbu. pose proof (refines_run calls Hc) as H. rewrite Hb in H.
  destruct H as (g & Hg & [Hh Hl _ _]). exists g. split; [done|].
  pose proof (holds_ok g _ Hh) as Hok. unfold FindAsksAndBids.
  rewrite !(findOffers_spec g (book b)), !pair_offers_assets, Hl by done.
  split; [done|]. apply price_time_sorted. by apply Forall_filter_2.
Qed.

Theorem FindAsksAndBids_spec_witness :
  let usd := AssetTypeCreditAlphanum4 (str "USD" ++ [0]) (MkAccountId (replicate 32 2)) in
  let l := [offer_example 1 2 1; offer_example 2 1 1; offer_example 4 2 2] in
  ∃ g, graph_run calls_example = Ret (g, [None; None; None; None; None; Some errUnexpectedLedger; None; None; None]) ∧
    FindAsksAndBids g AssetTypeNative usd (Z.of_nat 1) =
      (concat (take 1 (price_groups (price_time (offers_for AssetTypeNative usd l)))),
       concat (take 1 (price_groups (price_time (offers_for usd AssetTypeNative l)))), 6) ∧
    price_sorted (price_time (offers_for AssetTypeNative usd l)).
Proof.
  destruct (offer_example_ok 1 1 1 ltac:(unfold price_ok, MaxInt32; simpl; lia)) as (_ & H1 & H2 & _).
  exact (FindAsksAndBids_spec calls_example
    (MkBook [offer_example 1 2 1; offer_example 2 1 1; offer_example 4 2 2] 6 [] false)
    [None; None; None; None; None; Some errUnexpectedLedger; None; None; None] _ _ 1
    calls_example_ok eq_refl H1 H2).
Defined.

(** The second [Apply] after an unexpected ledger panics although its ledger is
    the expected one. *)
Example Apply_after_unexpected_ledger :
  book_run [CApply 5; CApply 5; CApply 6] = None ∧ graph_run [CApply 5; CApply 5; CApply 6] = Panic.
Proof. by vm_compute. Qed.
