(* ===== verification/OrderBookStream.v ===== *)
(** * aurora: the order book stream

    Models [src/services/aurora/internal/ingest/orderbook.go]: every aurora node
    keeps the graph of all offers (OrderBook.v) in memory and brings it up to
    date with the table of offers, which the change processors of some node
    maintain (StateProcessors.v).  The stream reads the table in a transaction,
    so one [Update] sees one state of the database; each of its queries may
    fail.  The stream and the ingestion of ledgers (ProcessorRunner.v) are put
    together in a step relation, and the graph is shown to hold the offers of
    the table after every update, unless a state was built since the graph was
    loaded the last time. *)

From S2P Require Import Prelude Xdr LedgerEntry ChangeCache Transaction LedgerReaders HistoryTables ChangeProcessor StateProcessors.
From S2P Require Import SignersProcessor AssetStats ProcessorRunner OrderBook.
From S2P Require Price.

(** ** What the stream reads *)
Inductive stream_query :=
  | QBeginTx
  | QGetExpStateInvalid
  | QGetLatestLedger
  | QGetLastLedgerExpIngestNonBlocking
  | QGetOfferCompactionSequence
  | QGetAllOffers
  | QGetUpdatedOffers.

Inductive stream_error :=
  | ErrQuery (q : stream_query)
  | ErrApply (e : orderbook_error).

(** The state of the database in a transaction, and the queries that fail. *)
Record IngestionQ := MkIngestionQ {
  q_ExpStateInvalid : bool;
  q_historyLedgers : list Z;
  q_LastLedgerExpIngest : Z;
  q_offers : OfferTable;
  q_fails : stream_query → bool }.

Definition query {A} (q : IngestionQ) (name : stream_query) (a : A) : outcome stream_error A :=
  if q_fails q name then Fail (ErrQuery name) else Ret a.
Definition GetExpStateInvalid (q : IngestionQ) : outcome stream_error bool :=
  query q QGetExpStateInvalid (q_ExpStateInvalid q).
Definition GetLatestLedger (q : IngestionQ) : outcome stream_error Z :=
  query q QGetLatestLedger (foldr Z.max 0 (q_historyLedgers q)).
Definition GetLastLedgerExpIngestNonBlocking (q : IngestionQ) : outcome stream_error Z :=
  query q QGetLastLedgerExpIngestNonBlocking (q_LastLedgerExpIngest q).
(** The text of the sequence is read back as a signed number of 32 bits. *)
Definition GetOfferCompactionSequence (q : IngestionQ) : outcome stream_error Z :=
  if MaxInt32 <? offer_compaction_sequence (q_offers q) then Fail (ErrQuery QGetOfferCompactionSequence) else
  query q QGetOfferCompactionSequence (offer_compaction_sequence (q_offers q)).

(** ** The stream *)
Definition minute : Z := 60 * 1000000000.
Definition verificationFrequency : Z := 60 * minute.

Record OrderBookStream := MkStream {
  graph : OrderBookGraph;
  LatestLedgerGauge : Z;
  Stream_lastLedger : Z;
  lastVerification : Z }.

Definition NewOrderBookStream (graph : OrderBookGraph) (now : Z) : OrderBookStream := MkStream graph 0 0 now.
Definition set_graph (g : OrderBookGraph) (o : OrderBookStream) : OrderBookStream :=
  MkStream g (LatestLedgerGauge o) (Stream_lastLedger o) (lastVerification o).
Definition set_lastLedger (ledger : Z) (o : OrderBookStream) : OrderBookStream :=
  MkStream (graph o) (LatestLedgerGauge o) ledger (lastVerification o).
Definition set_lastVerification (now : Z) (o : OrderBookStream) : OrderBookStream :=
  MkStream (graph o) (LatestLedgerGauge o) (Stream_lastLedger o) now.

Record ingestionStatus := MkStatus {
  HistoryConsistentWithState : bool;
  StateInvalid : bool;
  LastIngestedLedger : Z;
  LastOfferCompactionLedger : Z }.

Definition getIngestionStatus (q : IngestionQ) : outcome stream_error ingestionStatus :=
  stateInvalid ← GetExpStateInvalid q;
  lastHistoryLedger ← GetLatestLedger q;
  lastIngestedLedger ← GetLastLedgerExpIngestNonBlocking q;
  lastOfferCompactionLedger ← GetOfferCompactionSequence q;
  Ret (MkStatus ((lastIngestedLedger =? lastHistoryLedger) || (lastHistoryLedger =? 0)) stateInvalid
    lastIngestedLedger lastOfferCompactionLedger).

Definition addOfferToGraph (g : OrderBookGraph) (offer : OfferRow) : outcome stream_error OrderBookGraph :=
  sellerID ← must (MustAddress (or_SellerID offer));
  Ret (AddOffer g (MkOffer sellerID (or_OfferID offer) (or_SellingAsset offer) (or_BuyingAsset offer) (or_Amount offer)
    (Price.MkPrice (or_Pricen offer) (or_Priced offer)) (or_Flags offer))).

Definition update_reset (o : OrderBookStream) (status : ingestionStatus) : bool :=
  if StateInvalid status then true
  else if negb (HistoryConsistentWithState status) then true
  else if LastIngestedLedger status <? Stream_lastLedger o then true
  else if (0 <? Stream_lastLedger o) && (Stream_lastLedger o <? LastOfferCompactionLedger status) then true
  else Stream_lastLedger o =? 0.

(** The end of both branches of [update], with the deferred [Discard]. *)
Definition apply_updates (reset : bool) (o : OrderBookStream) (g : OrderBookGraph) (status : ingestionStatus)
  : outcome stream_error (OrderBookStream * (bool * option stream_error)) :=
  '(g, err) ← must (Apply g (LastIngestedLedger status));
  match err with
  | Some e => Ret (set_graph (Discard g) o, (reset, Some (ErrApply e)))
  | None => Ret (MkStream (Discard g) (LastIngestedLedger status) (LastIngestedLedger status) (lastVerification o),
                 (reset, None))
  end.

(** The stream after the call, whether the graph was reset, and the error. *)
Definition update (o : OrderBookStream) (q : IngestionQ) (status : ingestionStatus)
  : outcome stream_error (OrderBookStream * (bool * option stream_error)) :=
  if update_reset o status then
    let o := set_lastLedger 0 (set_graph (Clear (graph o)) o) in
    if StateInvalid status || negb (HistoryConsistentWithState status) then Ret (o, (true, None)) else
    if q_fails q QGetAllOffers
    then Ret (set_graph (Discard (graph o)) o, (true, Some (ErrQuery QGetAllOffers))) else
    g ← mfold addOfferToGraph (graph o) (GetAllOffers (q_offers q));
    apply_updates true o g status
  else if LastIngestedLedger status =? Stream_lastLedger o then Ret (o, (false, None)) else
    if q_fails q QGetUpdatedOffers
    then Ret (set_graph (Discard (graph o)) o, (false, Some (ErrQuery QGetUpdatedOffers))) else
    g ← mfold (λ g offer, if or_Deleted offer then Ret (RemoveOffer g (or_OfferID offer)) else addOfferToGraph g offer)
          (graph o) (GetUpdatedOffers (Stream_lastLedger o) (q_offers q));
    apply_updates false o g status.

(** The comparison of a row with an offer of the graph. *)
Definition offer_differs (offerRow : OfferRow) (offerEntry : OfferEntry) : outcome stream_error bool :=
  if negb (or_OfferID offerRow =? OfferId offerEntry) then Ret true
  else if negb (or_Amount offerRow =? Amount offerEntry) then Ret true
  else if negb (or_Priced offerRow =? Price.D (OfferPrice offerEntry)) then Ret true
  else if negb (or_Pricen offerRow =? Price.N (OfferPrice offerEntry)) then Ret true
  else if negb (Asset_Equals (or_BuyingAsset offerRow) (Buying offerEntry)) then Ret true
  else if negb (Asset_Equals (or_SellingAsset offerRow) (Selling offerEntry)) then Ret true
  else
    sellerID ← must (AccountId_Address (Some (SellerId offerEntry)));
    Ret (negb (bool_decide (or_SellerID offerRow = sellerID))).

Fixpoint offers_differ (l : list (OfferRow * OfferEntry)) : outcome stream_error bool :=
  match l with
  | [] => Ret false
  | (offerRow, offerEntry) :: l' =>
      mismatch ← offer_differs offerRow offerEntry;
      if mismatch : bool then Ret true else offers_differ l'
  end.

(** The jitter of the verification, and the times of the comparison with the
    last verification and of the new one. *)
Record Clock := MkClock { jitter : Z; now_since : Z; now_verified : Z }.

Section stream.
(** [sort.Slice] *)
Context (sort_slice : ∀ A, (A → A → bool) → list A → list A).

Definition verifyAllOffers (now : Z) (o : OrderBookStream) (q : IngestionQ) : outcome stream_error OrderBookStream :=
  let offers := Offers (graph o) in
  if q_fails q QGetAllOffers then Ret o else
  let ingestionOffers := GetAllOffers (q_offers q) in
  let o := set_lastVerification now o in
  mismatch ←
    (if negb (length offers =? length ingestionOffers)%nat then Ret true else
     let offers := sort_slice _ (λ x y, OfferId x <? OfferId y) offers in
     let ingestionOffers := sort_slice _ (λ x y, or_OfferID x <? or_OfferID y) ingestionOffers in
     offers_differ (zip ingestionOffers offers));
  Ret (if mismatch : bool then set_lastLedger 0 o else o).

Definition Update (o : OrderBookStream) (q : IngestionQ) (clock : Clock)
  : outcome stream_error (OrderBookStream * option stream_error) :=
  if q_fails q QBeginTx then Ret (o, Some (ErrQuery QBeginTx)) else
  match getIngestionStatus q with
  | Panic => Panic
  | Fail e => Ret (o, Some e)
  | Ret status =>
      '(o, (reset, err)) ← update o q status;
      match err with
      | Some e => Ret (o, Some e)
      | None =>
          if reset : bool then Ret (o, None) else
          if (0 <? Stream_lastLedger o) && (verificationFrequency + jitter clock <=? now_since clock - lastVerification o)
          then o ← verifyAllOffers (now_verified clock) o q; Ret (o, None)
          else Ret (o, None)
      end
  end.

(** One update for each tick, until the context is done; errors are logged. *)
Definition Run (o : OrderBookStream) (ticks : list (IngestionQ * Clock)) : outcome stream_error OrderBookStream :=
  mfold (λ o '(q, clock), '(o, _) ← Update o q clock; Ret o) o ticks.
End stream.

(** ** Rows and offers *)
Definition row_seller (r : OfferRow) : AccountId :=
  match MustAddress (or_SellerID r) with Ret a => a | _ => MkAccountId [] end.
Definition entry_of_row (r : OfferRow) : OfferEntry :=
  MkOffer (row_seller r) (or_OfferID r) (or_SellingAsset r) (or_BuyingAsset r) (or_Amount r) (Price.MkPrice (or_Pricen r) (or_Priced r)) (or_Flags r).

(** The row of a valid offer. *)
Definition row_valid (r : OfferRow) : Prop :=
  wf_account (row_seller r) ∧ or_SellerID r = address (row_seller r) ∧ offer_ok (entry_of_row r).

(** The offers that are in a table, and tables of valid offers. *)
Definition table_offers (t : OfferTable) : list OfferEntry := entry_of_row <$> GetAllOffers t.
Definition table_valid (t : OfferTable) : Prop :=
  ∀ id r, offer_rows t !! id = Some r → or_OfferID r = id ∧ row_valid r.

(** What the stream does with a row. *)
Definition row_operation (r : OfferRow) : orderBookOperation :=
  if or_Deleted r then removeOfferOperation (or_OfferID r) else addOfferOperation (entry_of_row r).

Lemma row_seller_address r a : wf_account a → or_SellerID r = address a → row_seller r = a.
Proof. intros Ha Hr. unfold row_seller, MustAddress. by rewrite Hr, SetAddress_address. Qed.

Lemma addOfferToGraph_valid g r : row_valid r → addOfferToGraph g r = Ret (AddOffer g (entry_of_row r)).
Proof.
  intros (Hw & Ha & _). unfold addOfferToGraph, entry_of_row. revert Hw Ha. unfold row_seller, MustAddress.
  destruct (AccountId_SetAddress (or_SellerID r)) as [a|e|] eqn:E; [done|intros [Hl _]; done..].
Qed.

Lemma row_operation_ok r : row_valid r → operation_ok (row_operation r).
Proof. intros (_ & _ & Ho). unfold row_operation. by destruct (or_Deleted r). Qed.

Lemma all_offers_elem t r : table_valid t → r ∈ GetAllOffers t ↔ offer_rows t !! or_OfferID r = Some r ∧ or_Deleted r = false.
Proof.
  intros Ht. unfold GetAllOffers. rewrite list_elem_of_filter, list_elem_of_fmap. split.
  - intros [Hd ([id r'] & -> & Hr%elem_of_map_to_list)]. simpl in *. by destruct (Ht _ _ Hr) as [-> _].
  - intros [Hr Hd]. split; [done|]. exists (or_OfferID r, r). split; [done|]. by apply elem_of_map_to_list.
Qed.

Lemma updated_offers_elem t n r :
  table_valid t → r ∈ GetUpdatedOffers n t ↔ offer_rows t !! or_OfferID r = Some r ∧ n < or_LastModifiedLedger r.
Proof.
  intros Ht. unfold GetUpdatedOffers. rewrite list_elem_of_filter, list_elem_of_fmap. split.
  - intros [Hd ([id r'] & -> & Hr%elem_of_map_to_list)]. simpl in *. by destruct (Ht _ _ Hr) as [-> _].
  - intros [Hr Hd]. split; [done|]. exists (or_OfferID r, r). split; [done|]. by apply elem_of_map_to_list.
Qed.

Lemma table_rows_NoDup t : table_valid t → NoDup (or_OfferID <$> (map_to_list (offer_rows t)).*2).
Proof.
  intros Ht. rewrite <- list_fmap_compose.
  replace ((or_OfferID ∘ snd) <$> map_to_list (offer_rows t)) with ((map_to_list (offer_rows t)).*1);
    [apply NoDup_fst_map_to_list|].
  apply Forall_fmap_ext, Forall_forall. intros [id r] Hr%elem_of_map_to_list. simpl. symmetry. by apply Ht.
Qed.

Lemma table_offers_ids t : table_valid t → NoDup (OfferId <$> table_offers t).
Proof.
  intros Ht. unfold table_offers. rewrite <- list_fmap_compose. apply NoDup_key_filter. by apply table_rows_NoDup.
Qed.

(** ** Offers that agree with a table *)

(** The offers [l] have what the table says of one id. *)
Definition agrees (t : OfferTable) (l : list OfferEntry) (id : Z) : Prop :=
  match offer_rows t !! id with
  | Some r => if or_Deleted r then id ∉ OfferId <$> l else entry_of_row r ∈ l
  | None => id ∉ OfferId <$> l
  end.

Lemma agrees_perm t l :
  table_valid t → NoDup (OfferId <$> l) → (∀ id, agrees t l id) → l ≡ₚ table_offers t.
Proof.
  intros Ht Hn Ha. apply NoDup_Permutation; [by eapply NoDup_fmap_1|eapply NoDup_fmap_1; by apply table_offers_ids|].
  intros o. unfold table_offers. rewrite list_elem_of_fmap. split.
  - intros Ho. specialize (Ha (OfferId o)). unfold agrees in Ha.
    assert (OfferId o ∈ OfferId <$> l) as Hin by by apply list_elem_of_fmap_2.
    destruct (offer_rows t !! OfferId o) as [r|] eqn:E; [|done]. destruct (or_Deleted r) eqn:Ed; [done|].
    destruct (Ht _ _ E) as [Hid _]. exists r. split; [by eapply (NoDup_key OfferId)|].
    apply all_offers_elem; [done|]. by rewrite Hid.
  - intros (r & -> & [Hr Hd]%all_offers_elem); [|done]. specialize (Ha (or_OfferID r)). unfold agrees in Ha.
    by rewrite Hr, Hd in Ha.
Qed.

Lemma agrees_table t id : table_valid t → agrees t (table_offers t) id.
Proof.
  intros Ht. unfold agrees, table_offers. rewrite <- list_fmap_compose.
  assert (∀ r, r ∈ GetAllOffers t → or_OfferID r = id → offer_rows t !! id = Some r ∧ or_Deleted r = false) as Hin.
  { intros r Hr <-. by apply all_offers_elem. }
  destruct (offer_rows t !! id) as [r|] eqn:E; [destruct (or_Deleted r) eqn:Ed|].
  - intros (r' & Hid & Hr')%list_elem_of_fmap. destruct (Hin r') as [[= <-] ?]; [done..|congruence].
  - apply list_elem_of_fmap_2, all_offers_elem; [done|]. by destruct (Ht _ _ E) as [-> _].
  - intros (r' & Hid & Hr')%list_elem_of_fmap. by destruct (Hin r').
Qed.

(** *** Applying rows *)
Lemma book_operations_elem rs l o :
  NoDup (or_OfferID <$> rs) →
  o ∈ foldl book_operation l (row_operation <$> rs) ↔
    (o ∈ l ∧ OfferId o ∉ or_OfferID <$> rs) ∨ ∃ r, r ∈ rs ∧ or_Deleted r = false ∧ o = entry_of_row r.
Proof.
  revert l. induction rs as [|r rs IH]; intros l Hn; simpl.
  { split; [intros; left; split; [done|apply not_elem_of_nil]|]. intros [[? _]|(r & Hr%elem_of_nil & _)]; done. }
  rewrite fmap_cons in Hn. apply NoDup_cons in Hn as [Hr Hn]. rewrite IH by done.
  assert (o ∈ book_operation l (row_operation r) ↔
    (o ∈ l ∧ OfferId o ≠ or_OfferID r) ∨ (or_Deleted r = false ∧ o = entry_of_row r)) as ->.
  { unfold row_operation. destruct (or_Deleted r); simpl; rewrite ?elem_of_app, without_in, ?list_elem_of_singleton; naive_solver. }
  rewrite not_elem_of_cons. setoid_rewrite elem_of_cons. split.
  - intros [[[[H1 H2]|[H1 ->]] H3]|(r' & H1 & H2 & ->)]; [by left|right; exists r; auto|right; exists r'; auto].
  - intros [(H1 & H2 & H3)|(r' & [->|H1] & H2 & ->)]; [by left; auto| |right; by exists r'].
    left. split; [auto|done].
Qed.

Lemma row_operations_pending rs g l n ops :
  Forall row_valid rs → refines g (MkBook l n ops false) →
  ∃ g', mfold (λ g offer, if or_Deleted offer then Ret (RemoveOffer g (or_OfferID offer)) else addOfferToGraph g offer) g rs
          = Ret g' ∧ refines g' (MkBook l n (ops ++ (row_operation <$> rs)) false).
Proof.
  revert g ops. induction rs as [|r rs IH]; intros g ops Hv Hg; [exists g; by rewrite app_nil_r|].
  apply Forall_cons in Hv as [Hr Hv]. cbn [mfold].
  assert (∃ g1, (if or_Deleted r then Ret (RemoveOffer g (or_OfferID r)) else addOfferToGraph g r) = Ret g1 :> outcome stream_error _ ∧
    refines g1 (MkBook l n (ops ++ [row_operation r]) false)) as (g1 & -> & Hg1).
  { unfold row_operation. destruct (or_Deleted r).
    - pose proof (refines_call g _ (CRemoveOffer (or_OfferID r)) Hg I) as (g1 & [= <-] & H1). by eexists.
    - rewrite addOfferToGraph_valid by done.
      pose proof (refines_call g _ (CAddOffer (entry_of_row r)) Hg) as (g1 & [= <-] & H1); [apply Hr|by eexists]. }
  cbn [outcome_bind]. destruct (IH g1 (ops ++ [row_operation r]) Hv Hg1) as (g' & -> & Hg'). exists g'. split; [done|].
  by rewrite fmap_cons, cons_middle, app_assoc.
Qed.

Lemma all_offers_operations g rs :
  Forall (λ r, or_Deleted r = false) rs →
  mfold addOfferToGraph g rs =
    mfold (λ g offer, if or_Deleted offer then Ret (RemoveOffer g (or_OfferID offer)) else addOfferToGraph g offer) g rs.
Proof.
  intros Hrs. revert g. induction Hrs as [|r rs Hr _ IH]; intros g; [done|]. cbn [mfold]. rewrite Hr.
  destruct (addOfferToGraph g r); [apply IH|done..].
Qed.

(** ** One update *)

(** The stream shows the table as it is after the ledger [L]. *)
Definition synced (L : Z) (t : OfferTable) (s : OrderBookStream) : Prop :=
  ∃ l, refines (graph s) (MkBook l L [] false) ∧ l ≡ₚ table_offers t ∧ Stream_lastLedger s = L.

(** What the stream missed of an id since the ledger [last] can be seen in the
    table: its row was modified later, or it was compacted later. *)
Definition catches_up (last L : Z) (t : OfferTable) (l : list OfferEntry) (id : Z) : Prop :=
  match offer_rows t !! id with
  | Some r => or_LastModifiedLedger r ≤ last → agrees t l id
  | None => id ∈ OfferId <$> l → last < offer_compaction_sequence t ≤ L - offerCompactionWindow
  end.

(** The graph of a stream holds [l], of the ledger that the stream saw last. *)
Definition book_of (s : OrderBookStream) (l : list OfferEntry) : Prop :=
  Forall (λ o, wf_account (SellerId o)) l ∧
  ∃ n, refines (graph s) (MkBook l n [] false) ∧
    (Stream_lastLedger s ≠ 0 → n = Stream_lastLedger s ∧ 0 < Stream_lastLedger s).
Definition sane (s : OrderBookStream) : Prop := ∃ l, book_of s l.
Definition tracks (L : Z) (t : OfferTable) (s : OrderBookStream) : Prop :=
  ∃ l, book_of s l ∧
    (Stream_lastLedger s ≠ 0 → Stream_lastLedger s ≤ L ∧ ∀ id, catches_up (Stream_lastLedger s) L t l id).
(** The graph is of the ledger [L], whatever it holds. *)
Definition at_ledger (L : Z) (s : OrderBookStream) : Prop :=
  ∃ l, Forall (λ o, wf_account (SellerId o)) l ∧ refines (graph s) (MkBook l L [] false) ∧ Stream_lastLedger s = L.

(** The tables of the ingestion up to the ledger [L]. *)
Record table_at (L : Z) (t : OfferTable) : Prop := {
  table_at_valid : table_valid t;
  table_at_modified : ∀ id r, offer_rows t !! id = Some r → or_LastModifiedLedger r ≤ L;
  table_at_ledger : 0 ≤ L }.

Lemma refines_NoDup g l n ops c : refines g (MkBook l n ops c) → NoDup (OfferId <$> l).
Proof. intros [[] _ _ _]. done. Qed.

Lemma table_offers_wf t : table_valid t → Forall (λ o, wf_account (SellerId o)) (table_offers t).
Proof.
  intros Ht. apply Forall_fmap, Forall_forall. intros r Hr. apply all_offers_elem in Hr as [Hr _]; [|done].
  destruct (Ht _ _ Hr) as [_ [? _]]. done.
Qed.

Lemma tracks_sane L t s : tracks L t s → sane s.
Proof. intros (l & Hl & _). by exists l. Qed.

Lemma synced_at_ledger L t s : table_valid t → synced L t s → at_ledger L s.
Proof. intros Ht (l & Hg & Hl & HL). exists l. split_and!; [|done..]. rewrite Hl. by apply table_offers_wf. Qed.

Lemma at_ledger_sane L s : 0 ≤ L → at_ledger L s → sane s.
Proof. intros H0 (l & Hw & Hg & HL). exists l. split; [done|]. exists L. split; [done|]. lia. Qed.

Lemma synced_tracks L t s : table_at L t → synced L t s → tracks L t s.
Proof.
  intros Ht Hs. pose proof (table_at_ledger _ _ Ht) as H0. pose proof Hs as (l & Hg & Hl & HL).
  exists l. split; [split; [rewrite Hl; apply table_offers_wf, Ht|exists L; split; [done|lia]]|].
  intros Hne. rewrite HL in *. split; [done|]. intros id.
  pose proof (agrees_table t id (table_at_valid _ _ Ht)) as Ha. unfold catches_up, agrees in *.
  destruct (offer_rows t !! id) as [r|]; [intros _; destruct (or_Deleted r); by rewrite Hl|].
  intros Hin. rewrite Hl in Hin. done.
Qed.

Lemma tracks_synced L t s : table_at L t → tracks L t s → Stream_lastLedger s = L → L ≠ 0 → synced L t s.
Proof.
  intros Ht (l & (_ & n & Hg & Hn) & Hc) HL Hne. rewrite HL in *. destruct (Hn Hne) as [-> _], (Hc Hne) as [_ Hid].
  exists l. split_and!; [done| |done]. apply agrees_perm; [apply Ht|by eapply refines_NoDup|].
  intros id. specialize (Hid id). unfold catches_up, agrees in *.
  destruct (offer_rows t !! id) as [r|] eqn:E; [|intros Hin; specialize (Hid Hin); unfold offerCompactionWindow in *; lia].
  apply Hid. by eapply table_at_modified.
Qed.

Lemma graph_offers g l n : refines g (MkBook l n [] false) → Offers g ≡ₚ l ∧ OrderBook.lastLedger g = n.
Proof. intros [Hh Hl _ _]. split; [by apply Offers_perm|done]. Qed.

Lemma Discard_rest g l n : refines g (MkBook l n [] false) → Discard g = g.
Proof. intros [_ _ Hb _]. destruct g. cbn in Hb. by subst. Qed.

Lemma apply_updates_spec reset o g status l n rs :
  refines g (MkBook l n (row_operation <$> rs) false) → n = 0 ∨ n < LastIngestedLedger status →
  ∃ g', apply_updates reset o g status =
      Ret (MkStream g' (LastIngestedLedger status) (LastIngestedLedger status) (lastVerification o), (reset, None)) ∧
    refines g' (MkBook (foldl book_operation l (row_operation <$> rs)) (LastIngestedLedger status) [] false).
Proof.
  intros Hg Hn. pose proof (refines_call g _ (CApply (LastIngestedLedger status)) Hg I) as H.
  cbn [book_call book book_ledger pending closed] in H.
  assert ((0 <? n) && (LastIngestedLedger status <=? n) = false) as Hno by lia. rewrite Hno in H.
  destruct H as (g1 & E & Hg1). cbn [graph_call] in E. unfold apply_updates. rewrite E. cbn [must]. outcome_simpl.
  exists (Discard g1). split; [done|]. pose proof (refines_call g1 _ CDiscard Hg1 I) as (g2 & [= <-] & H2). done.
Qed.

(** What a full reload and the rows modified since [last] make of the book. *)
Lemma reload_perm t : table_valid t → NoDup (OfferId <$> foldl book_operation [] (row_operation <$> GetAllOffers t)) →
  foldl book_operation [] (row_operation <$> GetAllOffers t) ≡ₚ table_offers t.
Proof.
  intros Ht Hn. apply NoDup_Permutation; [by eapply NoDup_fmap_1|eapply NoDup_fmap_1; by apply table_offers_ids|].
  intros o. rewrite book_operations_elem by (apply NoDup_key_filter; by apply table_rows_NoDup).
  unfold table_offers. rewrite (list_elem_of_fmap entry_of_row). split.
  - intros [[?%elem_of_nil _]|(r & Hr & _ & ->)]; [done|by exists r].
  - intros (r & -> & Hr). right. exists r. split_and!; [done| |done]. by apply all_offers_elem in Hr as [_ ?].
Qed.

Lemma catch_up_perm L t l last :
  table_valid t → (∀ id, catches_up last L t l id) → offer_compaction_sequence t ≤ last →
  let l' := foldl book_operation l (row_operation <$> GetUpdatedOffers last t) in
  NoDup (OfferId <$> l') → l' ≡ₚ table_offers t.
Proof.
  intros Ht Hc Hs l' Hn. apply agrees_perm; [done..|]. intros id.
  assert (∀ o, o ∈ l' ↔ (o ∈ l ∧ OfferId o ∉ or_OfferID <$> GetUpdatedOffers last t) ∨
    ∃ r, r ∈ GetUpdatedOffers last t ∧ or_Deleted r = false ∧ o = entry_of_row r) as Hl'.
  { intros o. apply book_operations_elem, NoDup_key_filter. by apply table_rows_NoDup. }
  specialize (Hc id). unfold catches_up, agrees in *. destruct (offer_rows t !! id) as [r|] eqn:E.
  - destruct (Ht _ _ E) as [Hid _]. destruct (decide (or_LastModifiedLedger r ≤ last)) as [Hle|Hgt].
    + assert (id ∉ or_OfferID <$> GetUpdatedOffers last t) as Hno.
      { intros (r' & -> & [Hr' ?]%updated_offers_elem)%list_elem_of_fmap; [|done].
        rewrite E in Hr'. injection Hr' as ->. lia. }
      specialize (Hc Hle). destruct (or_Deleted r) eqn:Ed.
      * intros (o & -> & [[Ho _]|(r' & Hr' & _ & ->)]%Hl')%list_elem_of_fmap; [by apply Hc, list_elem_of_fmap_2|].
        apply Hno. by apply (list_elem_of_fmap_2 or_OfferID).
      * apply Hl'. left. split; [done|]. cbn [entry_of_row OfferId]. by rewrite Hid.
    + assert (r ∈ GetUpdatedOffers last t) as Hr by (apply updated_offers_elem; [done|]; rewrite Hid; split; [done|lia]).
      destruct (or_Deleted r) eqn:Ed; [|by apply Hl'; right; exists r].
      intros (o & Ho & [[_ Hno]|(r' & Hr' & Hd & ->)]%Hl')%list_elem_of_fmap.
      * apply Hno. rewrite <- Ho, <- Hid. by apply (list_elem_of_fmap_2 or_OfferID).
      * apply updated_offers_elem in Hr' as [Hr' _]; [|done]. cbn [entry_of_row OfferId] in Ho. congruence.
  - intros (o & Ho & [[Hin _]|(r' & Hr' & Hd & ->)]%Hl')%list_elem_of_fmap.
    + assert (id ∈ OfferId <$> l) as Hidl by (rewrite Ho; by apply list_elem_of_fmap_2). specialize (Hc Hidl). lia.
    + apply updated_offers_elem in Hr' as [Hr' _]; [|done]. cbn [entry_of_row OfferId] in Ho. congruence.
Qed.

(** The status that is read when no query fails. *)
Definition status_of (q : IngestionQ) : ingestionStatus :=
  let lastHistoryLedger := foldr Z.max 0 (q_historyLedgers q) in
  MkStatus ((q_LastLedgerExpIngest q =? lastHistoryLedger) || (lastHistoryLedger =? 0)) (q_ExpStateInvalid q)
    (q_LastLedgerExpIngest q) (offer_compaction_sequence (q_offers q)).
Definition usable (q : IngestionQ) : bool := negb (StateInvalid (status_of q)) && HistoryConsistentWithState (status_of q).

Definition outcome_of_update (shows : OrderBookStream → Prop) (q : IngestionQ) (s s' : OrderBookStream)
    (err : option stream_error) : Prop :=
  match err with
  | None => if usable q then shows s' else graph s' = Clear (graph s) ∧ Stream_lastLedger s' = 0
  | Some e => (∃ name, e = ErrQuery name ∧ (q_fails q name = true ∨ MaxInt32 < offer_compaction_sequence (q_offers q))) ∧
      (s' = s ∨ graph s' = Clear (graph s) ∧ Stream_lastLedger s' = 0)
  end.
Lemma outcome_impl (P Q : OrderBookStream → Prop) q s s' err :
  (P s' → Q s') → outcome_of_update P q s s' err → outcome_of_update Q q s s' err.
Proof. unfold outcome_of_update. destruct err; [done|]. destruct (usable q); [by auto|done]. Qed.

Lemma Clear_rest g : refines (Clear g) (MkBook [] 0 [] false).
Proof. split; [by apply holds_empty|done|done|constructor]. Qed.

Lemma rows_valid t rs : table_valid t → (∀ r, r ∈ rs → offer_rows t !! or_OfferID r = Some r) → Forall row_valid rs.
Proof. intros Ht Hrs. apply Forall_forall. intros r Hr. by eapply Ht, Hrs. Qed.

Lemma update_reload s q :
  table_at (q_LastLedgerExpIngest q) (q_offers q) → update_reset s (status_of q) = true →
  ∃ s' err, update s q (status_of q) = Ret (s', (true, err)) ∧
    outcome_of_update (synced (q_LastLedgerExpIngest q) (q_offers q)) q s s' err ∧
    tracks (q_LastLedgerExpIngest q) (q_offers q) s'.
Proof.
  intros Ht Er. set (L := q_LastLedgerExpIngest q) in *. set (t := q_offers q) in *. pose proof (table_at_valid _ _ Ht) as Hv.
  unfold update. rewrite Er.
  assert (∀ s' : OrderBookStream, graph s' = Clear (graph s) → Stream_lastLedger s' = 0 → tracks L t s') as Hclear.
  { intros s' Hg H0. exists []. rewrite H0. split; [|done]. split; [constructor|]. exists 0. rewrite Hg, H0.
    split; [apply Clear_rest|done]. }
  assert (StateInvalid (status_of q) || negb (HistoryConsistentWithState (status_of q)) = negb (usable q)) as ->
    by (unfold usable; by destruct (StateInvalid _), (HistoryConsistentWithState _)).
  destruct (usable q) eqn:Eu; cbn [negb].
  2:{ eexists _, _. split; [done|]. split; [|by apply Hclear]. unfold outcome_of_update. by rewrite Eu. }
  destruct (q_fails q QGetAllOffers) eqn:Ef.
  { eexists _, _. split; [done|]. split; [|by apply Hclear]. split; [exists QGetAllOffers; auto|by right]. }
  rewrite all_offers_operations.
  2:{ apply Forall_forall. intros r Hr. by apply all_offers_elem in Hr as [_ ?]. }
  destruct (row_operations_pending (GetAllOffers (q_offers q)) (Clear (graph s)) [] 0 [] ) as (g & Hg1 & Hg);
    [apply (rows_valid t); [done|]; intros r Hr; by apply all_offers_elem in Hr as [? _]|apply Clear_rest|].
  cbn [graph set_lastLedger set_graph]. rewrite Hg1. cbn [outcome_bind]. outcome_simpl.
  destruct (apply_updates_spec true (set_lastLedger 0 (set_graph (Clear (graph s)) s)) g (status_of q) [] 0 (GetAllOffers (q_offers q)))
    as (g' & Ha & Hg'); [done|by left|]. rewrite Ha.
  assert (synced L t (MkStream g' L L (lastVerification s))) as Hsync.
  { eexists. split_and!; [done| |done]. apply reload_perm; [done|]. by eapply refines_NoDup. }
  eexists _, _. split; [done|]. split; [|by apply synced_tracks]. unfold outcome_of_update. by rewrite Eu.
Qed.

Lemma not_reset s q :
  update_reset s (status_of q) = false →
  usable q = true ∧ Stream_lastLedger s ≤ q_LastLedgerExpIngest q ∧ Stream_lastLedger s ≠ 0 ∧
  (0 < Stream_lastLedger s → offer_compaction_sequence (q_offers q) ≤ Stream_lastLedger s).
Proof.
  unfold update_reset, usable. destruct (StateInvalid (status_of q)); [done|].
  destruct (HistoryConsistentWithState (status_of q)); [|done]. cbn [negb status_of LastIngestedLedger LastOfferCompactionLedger].
  destruct (Z.ltb_spec (q_LastLedgerExpIngest q) (Stream_lastLedger s)); [done|].
  destruct (Z.ltb_spec 0 (Stream_lastLedger s)), (Z.ltb_spec (Stream_lastLedger s) (offer_compaction_sequence (q_offers q)));
    cbn [andb]; intros; try done; split_and!; lia.
Qed.

(** The rows that were modified since the last ledger are applied. *)
Lemma update_catch_up s q l :
  table_at (q_LastLedgerExpIngest q) (q_offers q) → book_of s l → update_reset s (status_of q) = false →
  let L := q_LastLedgerExpIngest q in
  ∃ s' err, update s q (status_of q) = Ret (s', (false, err)) ∧ lastVerification s' = lastVerification s ∧
    match err with
    | Some e => e = ErrQuery QGetUpdatedOffers ∧ q_fails q QGetUpdatedOffers = true ∧ s' = s
    | None => s' = s ∧ Stream_lastLedger s = L ∨
        Stream_lastLedger s' = L ∧
        refines (graph s')
          (MkBook (foldl book_operation l (row_operation <$> GetUpdatedOffers (Stream_lastLedger s) (q_offers q))) L [] false)
    end.
Proof.
  intros Ht (_ & n & Hg & Hn) Er L. pose proof (table_at_valid _ _ Ht) as Hv. destruct (not_reset s q Er) as (_ & Hle & Hne & _).
  unfold update. rewrite Er. fold L in Hle. destruct (Hn Hne) as [-> Hpos].
  cbn [status_of LastIngestedLedger]. fold L. destruct (Z.eqb_spec L (Stream_lastLedger s)) as [HLs|HLs].
  { eexists _, _. split_and!; [done..|]. by left. }
  destruct (q_fails q QGetUpdatedOffers) eqn:Ef.
  { assert (set_graph (Discard (graph s)) s = s) as Hd by (rewrite (Discard_rest _ _ _ Hg); by destruct s).
    rewrite Hd. by eexists _, _. }
  set (rs := GetUpdatedOffers (Stream_lastLedger s) (q_offers q)).
  destruct (row_operations_pending rs (graph s) l (Stream_lastLedger s) []) as (g & Hg1 & Hg2);
    [apply (rows_valid (q_offers q)); [done|]; intros r Hr; by apply updated_offers_elem in Hr as [? _]|done|].
  rewrite Hg1. outcome_simpl.
  destruct (apply_updates_spec false s g (status_of q) l (Stream_lastLedger s) rs) as (g' & Ha & Hg'); [done|cbn; fold L; lia|].
  cbn [status_of] in Ha. rewrite Ha. eexists _, _. split_and!; [done..|]. by right.
Qed.

Lemma book_operations_wf rs l :
  Forall row_valid rs → Forall (λ o, wf_account (SellerId o)) l →
  Forall (λ o, wf_account (SellerId o)) (foldl book_operation l (row_operation <$> rs)).
Proof.
  intros Hrs. revert l. induction Hrs as [|r rs (Hw & _ & _) _ IH]; intros l Hl; [done|]. cbn [fmap list_fmap foldl].
  apply IH. unfold row_operation. destruct (or_Deleted r); cbn [book_operation]; rewrite ?Forall_app, ?Forall_singleton;
    [|split; [|done]].
  all: apply Forall_forall; intros o [_ Ho]%without_in; rewrite Forall_forall in Hl; by apply Hl.
Qed.

(** Without a reset the stream is taken to the last ledger, whatever it missed. *)
Lemma update_moves s q :
  table_at (q_LastLedgerExpIngest q) (q_offers q) → sane s → update_reset s (status_of q) = false →
  ∃ s' err, update s q (status_of q) = Ret (s', (false, err)) ∧ lastVerification s' = lastVerification s ∧
    match err with
    | Some e => e = ErrQuery QGetUpdatedOffers ∧ q_fails q QGetUpdatedOffers = true ∧ s' = s
    | None => at_ledger (q_LastLedgerExpIngest q) s' ∧
        (tracks (q_LastLedgerExpIngest q) (q_offers q) s → synced (q_LastLedgerExpIngest q) (q_offers q) s')
    end.
Proof.
  intros Ht [l0 Hl0] Er. destruct (not_reset s q Er) as (Hu & _ & Hne & Hcomp).
  destruct (update_catch_up s q l0 Ht Hl0 Er) as (s' & err & Hup & Hv & Herr). exists s', err. split_and!; [done..|].
  destruct err as [e|]; [done|]. split.
  - destruct Hl0 as (Hw & n & Hg & Hn), Herr as [[-> HL]|[HL Hr]].
    + exists l0. rewrite <- HL. destruct (Hn Hne) as [-> _]. done.
    + eexists. split_and!; [|done..]. apply book_operations_wf; [|done]. apply (rows_valid (q_offers q)); [apply Ht|].
      intros r Hr'. by apply updated_offers_elem in Hr' as [? _]; [|apply Ht].
  - intros Htr. destruct Herr as [[-> HL]|[HL _]]; [apply tracks_synced; [done..|congruence]|].
    pose proof Htr as (l & Hl & Hc). destruct (update_catch_up s q l Ht Hl Er) as (s2 & err2 & Hup2 & _ & Herr2).
    rewrite Hup in Hup2. injection Hup2 as <- <-. destruct Herr2 as [[-> HL']|[_ Hr]].
    { apply tracks_synced; [done..|congruence]. }
    destruct (Hc Hne) as [_ Hcu]. destruct Hl as (_ & n & _ & Hn). destruct (Hn Hne) as [_ Hpos].
    eexists. split_and!; [exact Hr| |done]. apply (catch_up_perm (q_LastLedgerExpIngest q)); [apply Ht|done|by apply Hcomp|].
    exact (refines_NoDup _ _ _ _ _ Hr).
Qed.

(** ** The verification *)

(** What is compared of an offer: everything but the flags. *)
Definition flagless (o : OfferEntry) : OfferEntry :=
  MkOffer (SellerId o) (OfferId o) (Selling o) (Buying o) (Amount o) (OfferPrice o) 0.

Lemma offer_differs_spec r o :
  row_valid r → wf_account (SellerId o) →
  offer_differs r o = Ret (negb (bool_decide (flagless (entry_of_row r) = flagless o))).
Proof.
  intros (Hw & Ha & _) Ho. destruct o as [seller id selling buying amount [n d] flags]. unfold offer_differs. cbn [SellerId OfferId Selling Buying Amount OfferPrice Price.N Price.D] in *.
  assert (∀ P : Prop, ∀ D : Decision P, ¬ P → true = negb (bool_decide P)) as Hneg by (intros P D HP; by rewrite bool_decide_false).
  destruct (Z.eqb_spec (or_OfferID r) id) as [H1|H1]; cbn [negb]; [|f_equal; apply Hneg; intros [=]; congruence].
  destruct (Z.eqb_spec (or_Amount r) amount) as [H2|H2]; cbn [negb]; [|f_equal; apply Hneg; intros [=]; congruence].
  destruct (Z.eqb_spec (or_Priced r) d) as [H3|H3]; cbn [negb]; [|f_equal; apply Hneg; intros [=]; congruence].
  destruct (Z.eqb_spec (or_Pricen r) n) as [H4|H4]; cbn [negb]; [|f_equal; apply Hneg; intros [=]; congruence].
  rewrite !Asset_Equals_eq. destruct (decide (or_BuyingAsset r = buying)) as [H5|H5];
    [rewrite bool_decide_true by done|rewrite bool_decide_false by done]; cbn [negb];
    [|f_equal; apply Hneg; intros [=]; congruence].
  destruct (decide (or_SellingAsset r = selling)) as [H6|H6];
    [rewrite bool_decide_true by done|rewrite bool_decide_false by done]; cbn [negb];
    [|f_equal; apply Hneg; intros [=]; congruence].
  rewrite Address_total. cbn [must]. outcome_simpl. do 2 f_equal. apply bool_decide_ext. rewrite Ha. split.
  - intros <-%address_inj; [|done..]. by subst.
  - intros [=]. congruence.
Qed.

Lemma offers_differ_spec rs os :
  Forall row_valid rs → Forall (λ o, wf_account (SellerId o)) os → length rs = length os →
  offers_differ (zip rs os) = Ret (negb (bool_decide (flagless ∘ entry_of_row <$> rs = flagless <$> os))).
Proof.
  intros Hr Ho. revert os Ho. induction Hr as [|r rs Hr Hrs IH]; intros [|o os] Ho Hl; try done.
  apply Forall_cons in Ho as [Ho Hos]. injection Hl as Hl. cbn [zip zip_with offers_differ fmap list_fmap].
  rewrite offer_differs_spec by done. outcome_simpl. cbn [compose].
  destruct (decide (flagless (entry_of_row r) = flagless o)) as [E|E].
  - rewrite (bool_decide_true (flagless (entry_of_row r) = _)) by done. cbn [negb]. rewrite IH by done.
    do 2 f_equal. apply bool_decide_ext. rewrite E. split; [by intros ->|by intros [_ ?]%cons_eq_inj].
  - rewrite !bool_decide_false; [done|by intros [? _]%cons_eq_inj|done].
Qed.

(** Sorting by an id that is unique. *)
Section sort.
Context (sort_slice : ∀ A, (A → A → bool) → list A → list A) (Hsort : ∀ A, sorts (sort_slice A)).

Lemma sort_by_id {A} (id : A → Z) l :
  NoDup (id <$> l) →
  let sorted := sort_slice A (λ x y, id x <? id y) l in
  sorted ≡ₚ l ∧ StronglySorted (λ x y, id x < id y) sorted.
Proof.
  intros Hn sorted. destruct (Hsort A (λ x y, id x <? id y) l) as [Hp Hs]. fold sorted in Hp, Hs. split; [done|].
  specialize (Hs ltac:(intros; lia) ltac:(intros; lia)). rewrite <- Hp in Hn. clear Hp. clearbody sorted.
  induction Hs as [|x sorted Hs IH Hx]; [constructor|]. rewrite fmap_cons in Hn. apply NoDup_cons in Hn as [Hxn Hn].
  constructor; [by apply IH|]. rewrite Forall_forall in Hx |- *. intros y Hy. specialize (Hx y Hy).
  assert (id x ≠ id y); [|lia]. intros Heq. apply Hxn. rewrite Heq. by apply list_elem_of_fmap_2.
Qed.

Lemma sort_same_ids {A B} (f : A → OfferEntry) (g : B → OfferEntry) la lb :
  NoDup (OfferId ∘ f <$> la) → NoDup (OfferId ∘ g <$> lb) →
  (f <$> sort_slice A (λ x y, OfferId (f x) <? OfferId (f y)) la = g <$> sort_slice B (λ x y, OfferId (g x) <? OfferId (g y)) lb
    ↔ f <$> la ≡ₚ g <$> lb).
Proof.
  intros Ha Hb. destruct (sort_by_id (OfferId ∘ f) la Ha) as [Hpa Hsa], (sort_by_id (OfferId ∘ g) lb Hb) as [Hpb Hsb].
  cbn [compose] in *. split.
  - intros Heq. by rewrite <- Hpa, <- Hpb, Heq.
  - intros Hp. rewrite <- Hpa, <- Hpb in Hp.
    apply (StronglySorted_unique_strong (λ x y, OfferId x < OfferId y)); [intros; lia|..|done].
    + by apply StronglySorted_fmap with (R1 := λ x y, OfferId (f x) < OfferId (f y)).
    + by apply StronglySorted_fmap with (R1 := λ x y, OfferId (g x) < OfferId (g y)).
Qed.

(** The verification keeps the ledger exactly if the graph has the offers of the
    table, up to their flags. *)
Definition same_offers (t : OfferTable) (l : list OfferEntry) : Prop :=
  flagless <$> l ≡ₚ flagless <$> table_offers t.
#[export] Instance same_offers_dec t l : Decision (same_offers t l).
Proof. unfold same_offers. apply _. Defined.

Lemma verifyAllOffers_spec now s q l n :
  table_valid (q_offers q) → refines (graph s) (MkBook l n [] false) → Forall (λ o, wf_account (SellerId o)) l →
  q_fails q QGetAllOffers = false →
  ∃ s', verifyAllOffers sort_slice now s q = Ret s' ∧ graph s' = graph s ∧ lastVerification s' = now ∧
    (Stream_lastLedger s' = if bool_decide (same_offers (q_offers q) l) then Stream_lastLedger s else 0).
Proof.
  intros Ht Hg Hw Hf. unfold verifyAllOffers. rewrite Hf. destruct Hg as [Hg _ _ _]. cbn [book] in Hg.
  pose proof (Offers_perm _ _ Hg) as Hp. set (rs := GetAllOffers (q_offers q)).
  assert (same_offers (q_offers q) l ↔ flagless ∘ entry_of_row <$> rs ≡ₚ flagless <$> Offers (graph s)) as Hsame.
  { unfold same_offers, table_offers. fold rs. rewrite Hp, (list_fmap_compose entry_of_row flagless). split; by intros ->. }
  assert (NoDup (OfferId ∘ (flagless ∘ entry_of_row) <$> rs)) as Hn1.
  { pose proof (table_offers_ids _ Ht) as Hn. unfold table_offers in Hn. by rewrite <- list_fmap_compose in Hn. }
  assert (NoDup (OfferId ∘ flagless <$> Offers (graph s))) as Hn2.
  { pose proof (holds_ids _ _ Hg) as Hn. by rewrite <- Hp in Hn. }
  pose proof (sort_same_ids _ _ _ _ Hn1 Hn2) as Hs.
  destruct (Nat.eqb_spec (length (Offers (graph s))) (length rs)) as [Hl|Hl]; cbn [negb].
  - rewrite offers_differ_spec.
    + outcome_simpl. eexists. split; [done|]. cbn [entry_of_row flagless OfferId compose] in Hs.
      destruct (decide (same_offers (q_offers q) l)) as [Hy|Hy].
      * rewrite (bool_decide_true (same_offers _ _)) by done. rewrite bool_decide_true; [done|]. apply Hs, Hsame, Hy.
      * rewrite (bool_decide_false (same_offers _ _)) by done. rewrite bool_decide_false; [done|].
        intros E. by apply Hy, Hsame, Hs.
    + apply Forall_forall. intros r Hr. rewrite (proj1 (sort_by_id or_OfferID rs Hn1)) in Hr.
      apply all_offers_elem in Hr as [Hr _]; [|done]. by eapply Ht.
    + rewrite (proj1 (sort_by_id OfferId (Offers (graph s)) Hn2)), Hp. done.
    + rewrite (proj1 (sort_by_id or_OfferID rs Hn1)), (proj1 (sort_by_id OfferId (Offers (graph s)) Hn2)). done.
  - outcome_simpl. eexists. split; [done|]. rewrite bool_decide_false; [done|].
    intros Hy%Hsame%Permutation_length. rewrite !length_fmap in Hy. congruence.
Qed.
End sort.

(** ** Updates *)

Lemma getIngestionStatus_spec q :
  match getIngestionStatus q with
  | Ret status => status = status_of q
  | Fail e => ∃ name, e = ErrQuery name ∧ (q_fails q name = true ∨ MaxInt32 < offer_compaction_sequence (q_offers q))
  | Panic => False
  end.
Proof.
  unfold getIngestionStatus, GetExpStateInvalid, GetLatestLedger, GetLastLedgerExpIngestNonBlocking,
    GetOfferCompactionSequence, query. outcome_simpl.
  destruct (q_fails q QGetExpStateInvalid) eqn:E1; cbn [outcome_bind]; [by eauto|].
  destruct (q_fails q QGetLatestLedger) eqn:E2; cbn [outcome_bind]; [by eauto|].
  destruct (q_fails q QGetLastLedgerExpIngestNonBlocking) eqn:E3; cbn [outcome_bind]; [by eauto|].
  destruct (Z.ltb_spec MaxInt32 (offer_compaction_sequence (q_offers q))); cbn [outcome_bind]; [by eauto|].
  destruct (q_fails q QGetOfferCompactionSequence) eqn:E4; cbn [outcome_bind]; [by eauto|]. done.
Qed.

Lemma synced_eq L t s s' : graph s' = graph s → Stream_lastLedger s' = Stream_lastLedger s → synced L t s → synced L t s'.
Proof. unfold synced. by intros -> ->. Qed.

Section updates.
Context (sort_slice : ∀ A, (A → A → bool) → list A → list A) (Hsort : ∀ A, sorts (sort_slice A)).

(** The verification of a stream that shows the table finds nothing. *)
Lemma verify_synced now s q L :
  table_valid (q_offers q) → synced L (q_offers q) s →
  ∃ s', verifyAllOffers sort_slice now s q = Ret s' ∧ graph s' = graph s ∧ Stream_lastLedger s' = Stream_lastLedger s.
Proof.
  intros Ht (l & Hg & Hl & HL). destruct (q_fails q QGetAllOffers) eqn:Ef.
  { exists s. unfold verifyAllOffers. by rewrite Ef. }
  destruct (verifyAllOffers_spec sort_slice Hsort now s q l L) as (s' & -> & Hg' & _ & HL'); [done|done| |done|].
  { rewrite Hl. by apply table_offers_wf. }
  exists s'. split_and!; [done..|]. rewrite HL', bool_decide_true; [done|]. unfold same_offers. by rewrite Hl.
Qed.

(** Whether the graph is loaded again: an update starts over, the status being
    read. *)
Definition resets (s : OrderBookStream) (q : IngestionQ) : bool :=
  negb (q_fails q QBeginTx) && match getIngestionStatus q with Ret status => update_reset s status | _ => false end.

(** Of a graph that may have missed something: it is of the last ledger, and if
    it was verified it has the offers of the table or is given up, so that the
    next update resets it. *)
Definition verifies (s : OrderBookStream) (q : IngestionQ) (clock : Clock) : bool :=
  (verificationFrequency + jitter clock <=? now_since clock - lastVerification s) && negb (q_fails q QGetAllOffers).
Definition moved (s : OrderBookStream) (q : IngestionQ) (clock : Clock) (s' : OrderBookStream) : Prop :=
  OrderBook.lastLedger (graph s') = q_LastLedgerExpIngest q ∧
  (Stream_lastLedger s' = q_LastLedgerExpIngest q ∨ Stream_lastLedger s' = 0) ∧
  (verifies s q clock = true → same_offers (q_offers q) (Offers (graph s')) ∨ Stream_lastLedger s' = 0).

(** The verification of a stream of the last ledger. *)
Lemma verify_moved s0 s q clock :
  table_valid (q_offers q) → 0 < Stream_lastLedger s → at_ledger (q_LastLedgerExpIngest q) s →
  lastVerification s = lastVerification s0 →
  ∃ s', (if (0 <? Stream_lastLedger s) && (verificationFrequency + jitter clock <=? now_since clock - lastVerification s)
         then o ← verifyAllOffers sort_slice (now_verified clock) s q; Ret (o, None) else Ret (s, None))
        = Ret (s', None : option stream_error) ∧
    moved s0 q clock s' ∧ sane s'.
Proof.
  intros Ht Hpos (l & Hw & Hg & HL) Hver. destruct (graph_offers _ _ _ Hg) as [Hp Hgl].
  assert (sane s) as Hs by (exists l; split; [done|]; exists (q_LastLedgerExpIngest q); split; [done|]; lia).
  rewrite (proj2 (Z.ltb_lt _ _) Hpos), Hver. cbn [andb]. unfold moved, verifies. rewrite <- HL in *.
  destruct (_ <=? _); cbn [andb]; [|by exists s; split_and!; [done..|by left|done|]].
  destruct (q_fails q QGetAllOffers) eqn:Ef; cbn [negb].
  { exists s. unfold verifyAllOffers. rewrite Ef. by split_and!; [..|by left| |]. }
  destruct (verifyAllOffers_spec sort_slice Hsort (now_verified clock) s q l _ Ht Hg Hw Ef) as (s' & -> & Hg' & _ & HL').
  cbn [outcome_bind]. exists s'. rewrite Hg'. unfold same_offers. rewrite Hp. fold (same_offers (q_offers q) l).
  split; [done|]. case_bool_decide; rewrite HL'.
  - split_and!; [done|by left|by left|]. exists l. split; [done|]. exists (Stream_lastLedger s). by rewrite Hg', HL'.
  - split_and!; [done|by right|by right|]. exists l. split; [done|]. exists (Stream_lastLedger s). by rewrite Hg', HL'.
Qed.

(** An update, of a stream that may have missed something when [built]. *)
Lemma stream_Update_spec built s q clock :
  table_at (q_LastLedgerExpIngest q) (q_offers q) → sane s →
  (built = false → tracks (q_LastLedgerExpIngest q) (q_offers q) s) →
  ∃ s' err, Update sort_slice s q clock = Ret (s', err) ∧
    outcome_of_update (λ s', if negb built || resets s q then synced (q_LastLedgerExpIngest q) (q_offers q) s'
                             else moved s q clock s') q s s' err ∧
    sane s' ∧ (built && negb (resets s q) = false → tracks (q_LastLedgerExpIngest q) (q_offers q) s').
Proof.
  intros Ht Hsane Hs. pose proof (table_at_valid _ _ Ht) as Hv. unfold Update, resets. destruct (q_fails q QBeginTx) eqn:Eb; cbn [negb andb].
  { eexists _, _. split; [done|]. rewrite andb_true_r. split_and!; [split; [exists QBeginTx; auto|by left]|done|done]. }
  pose proof (getIngestionStatus_spec q) as Hst. destruct (getIngestionStatus q) as [status|e|]; [| |done].
  2:{ eexists _, _. split; [done|]. rewrite andb_true_r. split_and!; [split; [done|by left]|done|done]. }
  subst status. destruct (update_reset s (status_of q)) eqn:Er.
  - destruct (update_reload s q Ht Er) as (s' & err & -> & Ho & Htr). outcome_simpl. rewrite orb_true_r.
    pose proof (tracks_sane _ _ _ Htr). destruct err; by eexists _, _.
  - destruct (update_moves s q Ht Hsane Er) as (s' & err & -> & Hver & Ho). outcome_simpl. rewrite orb_false_r, andb_true_r.
    destruct (not_reset s q Er) as (Hu & Hle & Hne & _). destruct err as [e|].
    { destruct Ho as (-> & Hf & ->). eexists _, _. split; [done|]. split_and!; [split; [exists QGetUpdatedOffers; auto|by left]|done|done]. }
    destruct Ho as [Hat Hex].
    assert (0 < Stream_lastLedger s') as Hpos.
    { destruct Hsane as (l & _ & n & _ & Hn), Hat as (_ & _ & _ & ->). destruct (Hn Hne). lia. }
    unfold outcome_of_update. rewrite Hu. destruct built; cbn [negb].
    + destruct (verify_moved s s' q clock Hv Hpos Hat Hver) as (s2 & Heq & Hm & Hsn).
      exists s2, None. split; [exact Heq|done].
    + specialize (Hex (Hs eq_refl)). pose proof (table_at_ledger _ _ Ht).
      assert (∀ s2, graph s2 = graph s' → Stream_lastLedger s2 = Stream_lastLedger s' →
        synced (q_LastLedgerExpIngest q) (q_offers q) s2) as Heq by (intros s2 ? ?; by eapply synced_eq).
      case_if.
      * destruct (verify_synced (now_verified clock) s' q _ Hv Hex) as (s2 & -> & Hg2 & HL2). specialize (Heq s2 Hg2 HL2).
        eexists _, _. split_and!; [done..| |intros _; by apply synced_tracks].
        by eapply at_ledger_sane, synced_at_ledger.
      * eexists _, _. split_and!; [done..| |intros _; by apply synced_tracks].
        by eapply at_ledger_sane, synced_at_ledger.
Qed.
End updates.

(** ** The ingestion of the offers *)

(** An entry that is an offer is valid, and was modified after the ledger [lo]
    and not after [seq]. *)
Definition offer_current (lo seq : Z) (e : LedgerEntry) : Prop :=
  match Data e with
  | DataOffer o => lo < LastModifiedLedgerSeq e ≤ seq ∧ wf_account (SellerId o) ∧ offer_ok o
  | _ => True
  end.
Definition posts_current (lo seq : Z) (c : Change) : Prop := ∀ e, Post c = Some e → offer_current lo seq e.

Definition row_current (lo seq : Z) (r : OfferRow) : Prop := row_valid r ∧ lo < or_LastModifiedLedger r ≤ seq.

(** From [t] to [t'] rows are added and rewritten. *)
Record evolves (lo seq : Z) (t t' : OfferTable) : Prop := {
  evolves_rows : ∀ id r, offer_rows t' !! id = Some r →
    or_OfferID r = id ∧ (row_current lo seq r ∨ offer_rows t !! id = Some r);
  evolves_dom : ∀ id, is_Some (offer_rows t !! id) → is_Some (offer_rows t' !! id);
  evolves_sequence : offer_compaction_sequence t' = offer_compaction_sequence t }.

Lemma evolves_refl lo seq t : table_valid t → evolves lo seq t t.
Proof. intros Ht. split; [|done..]. intros id r Hr. destruct (Ht _ _ Hr). auto. Qed.

Lemma evolves_valid lo seq t t' : table_valid t → evolves lo seq t t' → table_valid t'.
Proof. intros Ht He id r Hr. destruct (evolves_rows _ _ _ _ He _ _ Hr) as [? [[? _]|Hr']]; [done|by apply Ht]. Qed.

Lemma evolves_insert lo seq t t' r :
  evolves lo seq t t' → row_current lo seq r →
  evolves lo seq t (MkOfferTable (<[or_OfferID r := r]> (offer_rows t')) (offer_compaction_sequence t')).
Proof.
  intros [Hr Hd Hs] Hc. split; cbn [offer_rows offer_compaction_sequence]; [|  |done].
  - intros id r' [[<- <-]|[_ H]]%lookup_insert_Some; [auto|by apply Hr].
  - intros id Hid. apply lookup_insert_is_Some'. right. by apply Hd.
Qed.

Lemma ledgerEntryToRow_current lo seq e r : offer_current lo seq e → ledgerEntryToRow e = Ret r → row_current lo seq r.
Proof.
  unfold offer_current, ledgerEntryToRow. destruct (Data e) as [| |o| |]; try done. intros (Hm & Hw & Ho).
  unfold address_of. rewrite Address_total. cbn [must]. outcome_simpl.
  destruct (ledgerEntrySponsorToNullString e) as [sponsor| |]; cbn [outcome_bind]; try done. intros [= <-].
  split; [|done]. unfold row_valid, entry_of_row. rewrite (row_seller_address _ (SellerId o)) by done. split_and!; [done..|]. by destruct o as [? ? ? ? ? [] ?].
Qed.

Lemma insert_offers_evolves lo seq rs t t1 t2 :
  Forall (row_current lo seq) rs → insert_offers rs t1 = Ret t2 → evolves lo seq t t1 → evolves lo seq t t2.
Proof.
  intros Hrs. unfold insert_offers, insert_rows. revert t1. induction Hrs as [|r rs Hr Hrs IH]; intros t1; cbn [mfold].
  { outcome_simpl. intros [= <-]. by destruct t1. }
  destruct (insert_row or_OfferID (offer_rows t1) r) as [m| |] eqn:E; cbn [outcome_bind]; [|done..].
  unfold insert_row in E. case_bool_decide; [done|]. injection E as <-. intros H2 He.
  apply (IH (MkOfferTable (<[or_OfferID r := r]> (offer_rows t1)) (offer_compaction_sequence t1))); [done|].
  by apply evolves_insert.
Qed.

(** An update of one row that is there. *)
Lemma affected_evolves lo seq t t1 t2 id f :
  table_valid t → evolves lo seq t t1 → affected (with_offers (update_row id f) t1) = Ret t2 →
  (∀ r, row_valid r → or_OfferID r = id → or_OfferID (f r) = id ∧ row_current lo seq (f r)) → evolves lo seq t t2.
Proof.
  intros Ht He Ha Hf. unfold with_offers, update_row in Ha. destruct (offer_rows t1 !! id) as [r|] eqn:Hr; [|done].
  injection Ha as <-. destruct (evolves_valid _ _ _ _ Ht He _ _ Hr) as [Hid Hv]. destruct (Hf r Hv Hid) as [Hfid Hc].
  rewrite <- Hfid at 1. by apply evolves_insert.
Qed.

(** The rows that wait in a batch, and the table. *)
Definition batch_evolves (lo seq : Z) (t : OfferTable) (b : list OfferRow * OfferTable) : Prop :=
  Forall (row_current lo seq) b.1 ∧ evolves lo seq t b.2.

Lemma offers_change_evolves lo seq t b b' c :
  table_valid t → lo < seq → posts_current lo seq c → batch_evolves lo seq t b → offers_change seq b c = Ret b' →
  batch_evolves lo seq t b'.
Proof.
  destruct b as [rs t1]. intros Ht Hlo Hc [Hrs He]. cbn [fst snd] in *. unfold offers_change. outcome_simpl.
  destruct (Pre c) as [pre|] eqn:Epre, (Post c) as [post|] eqn:Epost; [| | |done].
  - destruct (ledgerEntryToRow post) as [row| |] eqn:Er; cbn [outcome_bind]; try done.
    apply (ledgerEntryToRow_current lo seq) in Er; [|by apply Hc].
    destruct (affected (UpdateOffer row t1)) as [t2| |] eqn:Ea; cbn [outcome_bind]; try done. intros [= <-].
    split; [done|]. by eapply affected_evolves.
  - destruct (Data pre) as [| |o| |]; try done.
    destruct (affected (HistoryTables.RemoveOffer (OfferId o) seq t1)) as [t2| |] eqn:Ea; cbn [outcome_bind]; try done.
    intros [= <-]. split; [done|]. eapply affected_evolves; [done|done|exact Ea|].
    intros r Hv Hid. split; [done|]. split; [exact Hv|cbn; lia].
  - destruct (ledgerEntryToRow post) as [row| |] eqn:Er; cbn [outcome_bind]; try done.
    apply (ledgerEntryToRow_current lo seq) in Er; [|by apply Hc].
    assert (Forall (row_current lo seq) (rs ++ [row])) as Hrs' by by rewrite Forall_app, Forall_singleton.
    unfold batch_add. case_if; [|by intros [= <-]]. outcome_simpl.
    destruct (insert_offers (rs ++ [row]) t1) as [t2| |] eqn:Ei; cbn [outcome_bind]; try done. intros [= <-].
    split; [constructor|]. by eapply insert_offers_evolves.
Qed.

Lemma mfold_invariant {E S A} (f : S → A → outcome E S) (P : S → Prop) l s s' :
  (∀ s s' x, x ∈ l → P s → f s x = Ret s' → P s') → P s → mfold f s l = Ret s' → P s'.
Proof.
  revert s. induction l as [|x l IH]; intros s Hf Hs; cbn [mfold]; [by intros [= <-]|].
  destruct (f s x) as [s1| |] eqn:E1; cbn [outcome_bind]; try done. apply IH.
  - intros s2 s3 y Hy. apply Hf. by right.
  - apply (Hf s s1 x); [by left|done..].
Qed.

Lemma flushCache_evolves lo seq cs t t1 t2 :
  table_valid t → lo < seq → Forall (posts_current lo seq) cs → evolves lo seq t t1 → flushCache seq cs t1 = Ret t2 →
  evolves lo seq t t2.
Proof.
  intros Ht Hlo Hcs He. unfold flushCache. outcome_simpl.
  destruct (mfold (offers_change seq) ([], t1) cs) as [[rs t']| |] eqn:E; cbn [outcome_bind]; try done.
  apply (mfold_invariant _ (batch_evolves lo seq t)) in E as [Hrs He']; [by intros; eapply insert_offers_evolves| |].
  - intros b b' c Hc. rewrite Forall_forall in Hcs. apply offers_change_evolves; auto.
  - split; [constructor|done].
Qed.

(** *** The cache *)
Section processor.
Context `{LC : LedgerCache}.

Definition cache_current (lo seq : Z) (cache : LedgerEntryChangeCache) : Prop := map_Forall (λ _, posts_current lo seq) cache.

Lemma AddToCache_current lo seq cache cache' c :
  cache_current lo seq cache → posts_current lo seq c → AddToCache cache c = Ret cache' → cache_current lo seq cache'.
Proof.
  intros Hca Hc. unfold AddToCache.
  destruct (AddChange MarshalBinaryBase64 cache c) as [cache1| |] eqn:E; cbn [map_fail]; try done. intros [= <-].
  revert E. unfold AddChange, addCreatedChange, addUpdatedChange, addRemovedChange. outcome_simpl.
  assert (∀ k ty pre, cache_current lo seq (<[k := MkChange ty pre (Post c)]> cache)) as Hmerge.
  { intros k ty pre. apply map_Forall_insert_2; [|done]. exact Hc. }
  assert (∀ k, cache_current lo seq (<[k := c]> cache)) as Hnew by (intros k; by apply map_Forall_insert_2).
  assert (∀ k ty pre, cache_current lo seq (<[k := MkChange ty pre None]> cache)) as Hnone.
  { intros k ty pre. by apply map_Forall_insert_2. }
  destruct (Pre c) as [pre|], (Post c) as [post|]; try done;
    [set (ks := key_string _ post)|set (ks := key_string _ pre)|set (ks := key_string _ post)];
    destruct ks as [k| |]; cbn [outcome_bind]; try done; destruct (cache !! k) as [old|] eqn:Ek; try (by intros [= <-]; auto);
    destruct (LedgerEntryChangeType_of old) as [[]| |]; cbn [outcome_bind]; try done; intros [= <-]; auto;
    by apply map_Forall_delete.
Qed.

Lemma GetChanges_current lo seq cache : cache_current lo seq cache → Forall (posts_current lo seq) (GetChanges iterate cache).
Proof.
  intros Hc. unfold GetChanges. apply Forall_fmap, Forall_forall. intros [k c] Hk. rewrite iterate_perm in Hk.
  apply elem_of_map_to_list in Hk. by apply (Hc k).
Qed.

Definition offers_run (lo seq : Z) (t : OfferTable) (p : LedgerEntryChangeCache * OfferTable) : Prop :=
  cache_current lo seq p.1 ∧ evolves lo seq t p.2.

Lemma ProcessChange_evolves lo seq t p p' c :
  table_valid t → lo < seq → posts_current lo seq c → offers_run lo seq t p →
  ProcessChange (ChangeProcessor0 := OffersProcessor seq) p c = Ret p' → offers_run lo seq t p'.
Proof.
  destruct p as [cache t1]. intros Ht Hlo Hc [Hca He]. cbn [fst snd] in *. unfold ProcessChange.
  case_bool_decide; cbn [negb]; [|by intros [= <-]]. outcome_simpl.
  destruct (AddToCache cache c) as [cache1| |] eqn:Ea; cbn [outcome_bind]; try done.
  pose proof (AddToCache_current _ _ _ _ _ Hca Hc Ea) as Hca1. case_if; [|by intros [= <-]].
  destruct (flush (GetChanges iterate cache1) t1) as [t2| |] eqn:Ef; cbn [outcome_bind]; try done.
  intros [= <-]. split; [apply map_Forall_empty|]. cbn [snd flush OffersProcessor] in *.
  eapply flushCache_evolves; [done|done|by apply GetChanges_current|done|exact Ef].
Qed.

Lemma Commit_evolves lo seq t p t' :
  table_valid t → lo < seq → offers_run lo seq t p → Commit (ChangeProcessor0 := OffersProcessor seq) p = Ret t' →
  ∃ t1, evolves lo seq t t1 ∧ t' = trim_offers seq t1.
Proof.
  destruct p as [cache t1]. intros Ht Hlo [Hca He]. cbn [fst snd] in *. unfold Commit. outcome_simpl.
  destruct (flush (GetChanges iterate cache) t1) as [t2| |] eqn:Ef; cbn [outcome_bind]; try done.
  intros [= <-]. exists t2. split; [|done]. cbn [flush OffersProcessor] in *.
  eapply flushCache_evolves; [done|done|by apply GetChanges_current|done|exact Ef].
Qed.
End processor.

(** *** A ledger *)
Lemma empty_valid n : table_valid (MkOfferTable ∅ n).
Proof. intros id r Hr. cbn [offer_rows] in Hr. by rewrite lookup_empty in Hr. Qed.

Section ingestion.
Context `{NW : Network} `{LS : LedgerSources} `{LC : LedgerCache} `{SO : SignerOrder} `{TO : StatsOrder}.
Context (AccountEntry_MarshalBinary : AccountEntry → option (list Z)).

Lemma run_group_evolves lo seq cached reader t stats t' :
  table_valid (t_offers t) → lo < seq → (∀ c, Ret c ∈ reader → posts_current lo seq c) →
  run_group AccountEntry_MarshalBinary seq cached reader t = Ret (stats, t') →
  ∃ t1, evolves lo seq (t_offers t) t1 ∧ t_offers t' = trim_offers seq t1.
Proof.
  intros Ht Hlo Hr. unfold run_group. outcome_simpl.
  destruct (group_StreamChanges _ _ _ _) as [g| |] eqn:Eg; cbn [outcome_bind]; try done.
  apply (mfold_invariant _ (λ g, offers_run lo seq (t_offers t) (g_offers g))) in Eg.
  - destruct (group_Commit _ seq g) as [t2| |] eqn:Ec; cbn [map_fail outcome_bind]; try done. intros [= _ <-].
    revert Ec. unfold group_Commit. outcome_simpl.
    destruct (Commit (g_data g)); cbn [outcome_bind]; try done.
    destruct (Commit (g_accounts g)); cbn [outcome_bind]; try done.
    destruct (Commit (ChangeProcessor0 := OffersProcessor seq) (g_offers g)) as [offers| |] eqn:Eo; cbn [outcome_bind]; try done.
    destruct (AssetStats_Commit (g_asset_stats g)); cbn [outcome_bind]; try done.
    destruct (Signers_Commit (g_signers g)); cbn [outcome_bind]; try done.
    destruct (Commit (g_trust_lines g)); cbn [outcome_bind]; try done.
    destruct (Commit (g_balances g)); cbn [outcome_bind]; try done. intros [= <-]. by eapply Commit_evolves.
  - intros g0 g1 r Hrin Hrun. destruct r as [c| |]; cbn [map_fail]; outcome_simpl; try done.
    destruct (group_ProcessChange _ seq g0 c) as [g2| |] eqn:Ep; cbn [map_fail]; try done. intros [= <-].
    revert Ep. unfold group_ProcessChange. outcome_simpl.
    destruct (Stats_ProcessChange _ c); cbn [outcome_bind]; try done.
    destruct (ProcessChange (g_data g0) c); cbn [outcome_bind]; try done.
    destruct (ProcessChange (g_accounts g0) c); cbn [outcome_bind]; try done.
    destruct (ProcessChange (ChangeProcessor0 := OffersProcessor seq) (g_offers g0) c) as [offers| |] eqn:Eo; cbn [outcome_bind]; try done.
    destruct (AssetStats_ProcessChange _ c); cbn [outcome_bind]; try done.
    destruct (Signers_ProcessChange _ c); cbn [outcome_bind]; try done.
    destruct (ProcessChange (g_trust_lines g0) c); cbn [outcome_bind]; try done.
    destruct (ProcessChange (g_balances g0) c); cbn [outcome_bind]; try done. intros [= <-]. cbn [g_offers].
    eapply ProcessChange_evolves; [done|done|by apply Hr|exact Hrun|exact Eo].
  - split; [apply map_Forall_empty|by apply evolves_refl].
Qed.

(** The offers in the ledgers and archives are valid and dated. *)
Definition sources_current : Prop :=
  (∀ seq ledgerCloseMeta reader c, GetLedger seq = Some (Some ledgerCloseMeta) → ledger_changes ledgerCloseMeta = Ret reader →
    Ret c ∈ reader → posts_current (seq - 1) seq c) ∧
  (∀ seq reader c, GetState seq = Some reader → Ret c ∈ reader → posts_current (-1) seq c).

Lemma RunChangesOnLedger_evolves seq t stats t' :
  sources_current → table_valid (t_offers t) → RunChangesOnLedger AccountEntry_MarshalBinary seq t = Ret (stats, t') →
  ∃ t1, evolves (seq - 1) seq (t_offers t) t1 ∧ t_offers t' = trim_offers seq t1.
Proof.
  intros [Hs _] Ht. unfold RunChangesOnLedger, runChangeProcessorOnLedger. outcome_simpl.
  destruct (checkIfProtocolVersionSupported seq); cbn [outcome_bind]; try done. unfold must_get_ledger.
  destruct (GetLedger seq) as [[lcm|]|] eqn:Eg; cbn [outcome_bind]; try done.
  destruct (ledger_changes lcm) as [reader| |] eqn:Er; cbn [map_fail outcome_bind]; try done.
  apply run_group_evolves; [done|lia|]. intros c Hc. by eapply Hs.
Qed.

Lemma RunHistoryArchiveIngestion_evolves checkpoint t stats t' :
  sources_current → 0 < checkpoint →
  RunHistoryArchiveIngestion AccountEntry_MarshalBinary checkpoint (TruncateExpingestStateTables t) = Ret (stats, t') →
  ∃ t1, evolves (-1) checkpoint (MkOfferTable ∅ (offer_compaction_sequence (t_offers t))) t1 ∧
    t_offers t' = trim_offers checkpoint t1.
Proof.
  intros [_ Hs] Hpos. unfold RunHistoryArchiveIngestion. outcome_simpl.
  destruct (checkpoint =? 1) eqn:E1; cbn [outcome_bind].
  { apply run_group_evolves; [apply empty_valid|lia|].
    intros c [[= ->]| ?%elem_of_nil]%elem_of_cons; [|done]. by intros e [= <-]. }
  destruct (checkIfProtocolVersionSupported checkpoint); cbn [outcome_bind]; try done.
  destruct (validateBucketList checkpoint); cbn [outcome_bind]; try done.
  destruct (GetState checkpoint) as [reader|] eqn:Er; cbn [outcome_bind]; try done.
  apply run_group_evolves; [apply empty_valid|lia|]. intros c Hc. by eapply Hs.
Qed.
End ingestion.

(** What a ledger does to the table of the ledger before it. *)
Lemma trim_lookup seq t id r : offer_rows (trim_offers seq t) !! id = Some r → offer_rows t !! id = Some r.
Proof. unfold trim_offers. case_if; [|done]. cbn [CompactOffers offer_rows]. by intros [? _]%map_lookup_filter_Some. Qed.

Lemma trim_None seq t id r :
  offer_rows (trim_offers seq t) !! id = None → offer_rows t !! id = Some r →
  or_Deleted r = true ∧ or_LastModifiedLedger r ≤ seq - offerCompactionWindow ∧
  offer_compaction_sequence (trim_offers seq t) = seq - offerCompactionWindow.
Proof.
  unfold trim_offers. case_if; [|by intros ->]. cbn [CompactOffers offer_rows offer_compaction_sequence].
  intros [Hn|Hn]%map_lookup_filter_None Hr; [by rewrite Hn in Hr|]. specialize (Hn r Hr). cbn in Hn.
  apply dec_stable in Hn. tauto.
Qed.

Lemma trim_sequence seq t : offer_compaction_sequence t ≤ seq - offerCompactionWindow - 1 → 0 ≤ offer_compaction_sequence t →
  offer_compaction_sequence t ≤ offer_compaction_sequence (trim_offers seq t) ≤ seq - offerCompactionWindow.
Proof. unfold trim_offers. case_if; cbn [CompactOffers offer_compaction_sequence]; lia. Qed.

Lemma evolves_table_at lo seq t t1 :
  table_valid t → (∀ id r, offer_rows t !! id = Some r → or_LastModifiedLedger r ≤ seq) → 0 ≤ seq → evolves lo seq t t1 →
  table_at seq (trim_offers seq t1).
Proof.
  intros Ht Hm Hs He. split; [| |done].
  - intros id r Hr%trim_lookup. by eapply evolves_valid.
  - intros id r Hr%trim_lookup. destruct (evolves_rows _ _ _ _ He _ _ Hr) as [_ [[_ ?]|Hr']]; [lia|by eapply Hm].
Qed.

Lemma evolves_tracks L t t1 s :
  table_at L t → tracks L t s → evolves L (L + 1) t t1 → tracks (L + 1) (trim_offers (L + 1) t1) s.
Proof.
  intros Ht (l & Hbk & Hc) He. exists l. split; [done|]. intros Hne. destruct (Hc Hne) as (Hle & Hid).
  assert (0 < Stream_lastLedger s) as Hpos by (destruct Hbk as (_ & n & _ & Hn); by destruct (Hn Hne)).
  split; [lia|]. intros id. specialize (Hid id). unfold catches_up, agrees in *.
  destruct (offer_rows (trim_offers (L + 1) t1) !! id) as [r|] eqn:Er.
  - apply trim_lookup in Er. destruct (evolves_rows _ _ _ _ He _ _ Er) as [_ [[_ Hm]|Hr]]; [lia|].
    intros Hle'. rewrite Hr in Hid. by apply Hid.
  - intros Hin. destruct (offer_rows t1 !! id) as [r|] eqn:Er1.
    + destruct (trim_None _ _ _ _ Er Er1) as (Hd & Hm & Hsq). rewrite Hsq.
      destruct (Z.le_gt_cases (or_LastModifiedLedger r) (Stream_lastLedger s)) as [Hl|Hl]; [|lia]. exfalso.
      destruct (evolves_rows _ _ _ _ He _ _ Er1) as [_ [[_ ?]|Hr]]; [lia|]. rewrite Hr, Hd in Hid. by apply Hid.
    + assert (offer_rows t !! id = None) as Hnone.
      { apply eq_None_not_Some. intros Hs%(evolves_dom _ _ _ _ He). rewrite Er1 in Hs. by destruct Hs. }
      rewrite Hnone in Hid. specialize (Hid Hin). pose proof (evolves_sequence _ _ _ _ He) as Hsq. rewrite <- Hsq in Hid.
      pose proof (trim_sequence (L + 1) t1). lia.
Qed.

(** ** The stream and the ingestion

    The database that some node ingests into, and the stream of a node that
    reads it.  A ledger that cannot be ingested changes nothing.  [w_built] is no
    part of the program: it tells that a state was built since the stream was
    reset the last time. *)
Record World := MkWorld {
  w_tables : Tables;
  w_lastIngested : Z;
  w_historyLedgers : list Z;
  w_stateInvalid : bool;
  w_stream : OrderBookStream;
  w_built : bool }.

Definition session (w : World) (fails : stream_query → bool) : IngestionQ :=
  MkIngestionQ (w_stateInvalid w) (w_historyLedgers w) (w_lastIngested w) (t_offers (w_tables w)) fails.
Definition no_fails : stream_query → bool := λ _, false.

Section world.
Context `{NW : Network} `{LS : LedgerSources} `{LC : LedgerCache} `{SO : SignerOrder} `{TO : StatsOrder}.
Context (AccountEntry_MarshalBinary : AccountEntry → option (list Z)).
Context (sort_slice : ∀ A, (A → A → bool) → list A → list A).

(** The next ledger is ingested, the history and the flag of an invalid state
    change in any way, the stream is updated, the state is built from an
    archive. *)
Inductive world_step (w : World) : World → Prop :=
  | step_ledger stats tables :
      RunChangesOnLedger AccountEntry_MarshalBinary (w_lastIngested w + 1) (w_tables w) = Ret (stats, tables) →
      world_step w
        (MkWorld tables (w_lastIngested w + 1) (w_historyLedgers w) (w_stateInvalid w) (w_stream w) (w_built w))
  | step_history ledgers invalid :
      world_step w (MkWorld (w_tables w) (w_lastIngested w) ledgers invalid (w_stream w) (w_built w))
  | step_update fails clock stream err :
      Update sort_slice (w_stream w) (session w fails) clock = Ret (stream, err) →
      world_step w
        (MkWorld (w_tables w) (w_lastIngested w) (w_historyLedgers w) (w_stateInvalid w) stream
           (w_built w && negb (resets (w_stream w) (session w fails))))
  | step_build checkpoint stats tables :
      0 < checkpoint →
      RunHistoryArchiveIngestion AccountEntry_MarshalBinary checkpoint (TruncateExpingestStateTables (w_tables w))
        = Ret (stats, tables) →
      world_step w (MkWorld tables checkpoint (w_historyLedgers w) (w_stateInvalid w) (w_stream w) true).

(** A node starts with an empty graph on any database. *)
Definition world_init (w : World) : Prop :=
  table_at (w_lastIngested w) (t_offers (w_tables w)) ∧ ∃ now, w_stream w = NewOrderBookStream NewOrderBookGraph now.

Definition world_ok (w : World) : Prop :=
  table_at (w_lastIngested w) (t_offers (w_tables w)) ∧ sane (w_stream w) ∧
  (w_built w = false → tracks (w_lastIngested w) (t_offers (w_tables w)) (w_stream w)).

Context (Hsort : ∀ A, sorts (sort_slice A)) (Hsources : sources_current).

Lemma world_step_ok w w' : world_step w w' → world_ok w → world_ok w'.
Proof.
  intros Hstep (Ht & Hsane & Hs). destruct Hstep as [stats tables Hr|ledgers invalid|fails clock stream err Hu|checkpoint stats tables Hc Hr].
  - destruct (RunChangesOnLedger_evolves _ _ _ _ _ Hsources (table_at_valid _ _ Ht) Hr) as (t1 & He & Heq).
    rewrite Z.add_simpl_r in He. unfold world_ok. cbn. rewrite Heq. pose proof Ht as [Hv Hm HL]. split_and!; [|done|].
    + eapply evolves_table_at; [done| |lia|done]. intros id r Hid. specialize (Hm _ _ Hid). lia.
    + intros Hb. eapply evolves_tracks; [done|by apply Hs|done].
  - done.
  - destruct (stream_Update_spec sort_slice Hsort (w_built w) (w_stream w) (session w fails) clock Ht Hsane Hs)
      as (s' & err' & Hu' & _ & Hsane' & Hs').
    rewrite Hu in Hu'. by injection Hu' as -> ->.
  - destruct (RunHistoryArchiveIngestion_evolves _ _ _ _ _ Hsources Hc Hr) as (t1 & He & Heq).
    unfold world_ok. cbn. rewrite Heq. split_and!; [|done|done].
    eapply evolves_table_at; [apply empty_valid| |lia|done]. intros id r Hid. cbn [offer_rows] in Hid.
    by rewrite lookup_empty in Hid.
Qed.

Lemma world_reachable_ok w w' : world_init w → rtc world_step w w' → world_ok w'.
Proof.
  intros [Ht [now Hn]] Hr. assert (world_ok w) as Hw.
  { assert (tracks (w_lastIngested w) (t_offers (w_tables w)) (w_stream w)) as Htr.
    { rewrite Hn. exists []. split; [|done]. split; [constructor|]. exists 0. split; [apply refines_new|done]. }
    split_and!; [done|by eapply tracks_sane|done]. }
  clear Ht now Hn. induction Hr as [|w w1 w' Hstep _ IH]; [done|]. apply IH. by eapply world_step_ok.
Qed.
End world.

(** The offers of the ledger [s]. *)
Definition in_ledger (s : rows) (o : OfferEntry) : Prop := ∃ k e, s !! k = Some e ∧ Data e = DataOffer o.

Lemma entry_of_offer_row e o : Data e = DataOffer o → wf_account (SellerId o) → entry_of_row (offer_row e) = o.
Proof.
  intros He Hw. unfold offer_row. rewrite He. unfold entry_of_row. rewrite (row_seller_address _ (SellerId o)) by done.
  by destruct o as [? ? ? ? ? [] ?].
Qed.

Lemma table_offers_ledger `{LC : LedgerCache} `{SO : SignerOrder} `{TO : StatsOrder} names fut s t o :
  tables_follow fut s t → keyed (named names) s → table_valid (t_offers t) →
  o ∈ table_offers (t_offers t) ↔ in_ledger s o.
Proof.
  intros Hf Hk Ht. destruct (offers_ok _ _ _ Hf) as [[H1 H2] _].
  assert (∀ e o k, s !! k = Some e → Data e = DataOffer o → entry_of_row (offer_row e) = o) as Hrow.
  { intros e o' k He Hd. apply entry_of_offer_row; [done|]. destruct (Hk _ _ He) as [_ [[_ Hw] _]].
    rewrite Hd in Hw. apply Hw. }
  unfold table_offers. rewrite list_elem_of_fmap. split.
  - intros (r & -> & [Hr Hd]%all_offers_elem); [|done].
    assert (live (offer_rows (t_offers t)) !! or_OfferID r = Some r) as Hlive by by apply map_lookup_filter_Some.
    destruct (H2 _ _ Hlive) as (k & e & He & Hke). pose proof (H1 _ _ He) as Hlive'. rewrite Hke, Hlive in Hlive'.
    injection Hlive' as ->. apply map_lookup_filter_Some in He as [He Hty]. destruct (Data e) as [| |o'| |] eqn:Ed; try done.
    exists k, e. split; [done|]. by rewrite (Hrow e o' k).
  - intros (k & e & He & Hd). assert (of_type TypeOffer s !! k = Some e) as Hty.
    { apply map_lookup_filter_Some. by rewrite Hd. }
    apply H1 in Hty. apply map_lookup_filter_Some in Hty as [Hr Hdel]. exists (offer_row e). split; [by rewrite (Hrow e o k)|].
    apply all_offers_elem; [done|]. split; [|done]. destruct (Ht _ _ Hr) as [-> _]. done.
Qed.

Lemma Offers_Clear g : Offers (Clear g) = [].
Proof. apply Permutation_nil_r. apply (Offers_perm _ [] (refines_holds _ _ (Clear_rest g))). Qed.

(** An update of a stream that has seen the last ledger does nothing but verify,
    when it is time. *)
Lemma Update_idle (sort_slice : ∀ A, (A → A → bool) → list A → list A) s q clock :
  (∀ name, q_fails q name = false) → offer_compaction_sequence (q_offers q) ≤ MaxInt32 → usable q = true →
  0 < Stream_lastLedger s → q_LastLedgerExpIngest q = Stream_lastLedger s →
  offer_compaction_sequence (q_offers q) ≤ Stream_lastLedger s →
  Update sort_slice s q clock =
    if verificationFrequency + jitter clock <=? now_since clock - lastVerification s
    then s' ← verifyAllOffers sort_slice (now_verified clock) s q; Ret (s', None) else Ret (s, None).
Proof.
  intros Hf Hc Hu Hpos HL Hcs. unfold Update. rewrite Hf.
  pose proof (getIngestionStatus_spec q) as Hst. destruct (getIngestionStatus q) as [status|e|]; [subst status| |done].
  2:{ destruct Hst as (name & _ & [Hn|?]); [by rewrite Hf in Hn|lia]. }
  assert (update s q (status_of q) = Ret (s, (false, None))) as Hup.
  { unfold update, update_reset, usable in *. destruct (StateInvalid (status_of q)); [done|].
    destruct (HistoryConsistentWithState (status_of q)); [|done]. cbn [negb status_of LastIngestedLedger LastOfferCompactionLedger].
    rewrite HL, Z.ltb_irrefl, (proj2 (Z.ltb_ge _ _) Hcs), andb_false_r, (proj2 (Z.eqb_neq _ 0)) by lia. by rewrite Z.eqb_refl. }
  rewrite Hup. outcome_simpl. by rewrite (proj2 (Z.ltb_lt _ _) Hpos).
Qed.

(** ** Properties *)

(** C6: of a stream that starts with an empty graph on a database of valid offers,
    whatever ledgers with valid and dated offers are ingested, whatever states are
    built and whatever queries fail, an update never panics.  When it returns no
    error, the graph holds exactly the offers of the table, of the last ingested
    ledger, provided that no state was built since the stream last started over,
    or that this update does so; otherwise it is taken to the last ledger, maybe
    with other offers than the new state has, and if the update verifies it then
    the graph agrees with the table up to flags or is given up, to be loaded by
    the next update; while the state is invalid or its ledger is not the last of
    the history the graph is empty.  An update fails only with the error of a
    query, the stream being as before or empty, so that the next update makes up
    for it. *)
Theorem OrderBookStream_follows `{NW : Network} `{LS : LedgerSources} `{LC : LedgerCache} `{SO : SignerOrder} `{TO : StatsOrder}
    AccountEntry_MarshalBinary (sort_slice : ∀ A, (A → A → bool) → list A → list A) w w' fails clock :
  (∀ A, sorts (sort_slice A)) → sources_current → world_init w →
  rtc (world_step AccountEntry_MarshalBinary sort_slice) w w' →
  let q := session w' fails in
  ∃ s' err, Update sort_slice (w_stream w') q clock = Ret (s', err) ∧
    match err with
    | None =>
        if usable q then
          OrderBook.lastLedger (graph s') = w_lastIngested w' ∧
          if negb (w_built w') || resets (w_stream w') q
          then Offers (graph s') ≡ₚ table_offers (q_offers q) ∧ Stream_lastLedger s' = w_lastIngested w'
          else (Stream_lastLedger s' = w_lastIngested w' ∨ Stream_lastLedger s' = 0) ∧
            (verifies (w_stream w') q clock = true → same_offers (q_offers q) (Offers (graph s')) ∨ Stream_lastLedger s' = 0)
        else Offers (graph s') = [] ∧ Stream_lastLedger s' = 0
    | Some e =>
        (∃ name, e = ErrQuery name ∧ (fails name = true ∨ MaxInt32 < offer_compaction_sequence (q_offers q))) ∧
        (s' = w_stream w' ∨ Offers (graph s') = [] ∧ Stream_lastLedger s' = 0)
    end.
Proof.
  intros Hsort Hsrc Hi Hr q. destruct (world_reachable_ok _ _ Hsort Hsrc _ _ Hi Hr) as (Ht & Hsane & Hs).
  destruct (stream_Update_spec sort_slice Hsort (w_built w') (w_stream w') q clock Ht Hsane Hs) as (s' & err & Hu & Ho & _).
  exists s', err. split; [done|]. unfold outcome_of_update in Ho. destruct err as [e|].
  - destruct Ho as [Hq [->|[-> H0]]]; (split; [done|]); [by left|right]. by rewrite Offers_Clear.
  - destruct (usable q); [|destruct Ho as [-> H0]; by rewrite Offers_Clear].
    destruct (negb (w_built w') || _); [|done]. destruct Ho as (l & Hg & Hl & HL).
    destruct (graph_offers _ _ _ Hg) as [-> ->]. done.
Qed.

(** C7: when the tables follow the ledger, as the processors of the ingestion keep
    them, the state is valid and of the last ledger of the history (or there is no
    history), and the sequence of the last compaction of offers fits 32 bits, an
    update whose queries succeed makes the graph hold the offers of the ledger,
    each once, provided that no state was built since the stream last started
    over, or that this update does so. *)
Theorem OrderBookStream_shows_ledger `{NW : Network} `{LS : LedgerSources} `{LC : LedgerCache} `{SO : SignerOrder} `{TO : StatsOrder}
    AccountEntry_MarshalBinary (sort_slice : ∀ A, (A → A → bool) → list A → list A) w w' names fut s clock :
  (∀ A, sorts (sort_slice A)) → sources_current → world_init w →
  rtc (world_step AccountEntry_MarshalBinary sort_slice) w w' →
  tables_follow fut s (w_tables w') → keyed (named names) s →
  let q := session w' no_fails in
  usable q = true → offer_compaction_sequence (q_offers q) ≤ MaxInt32 →
  negb (w_built w') || resets (w_stream w') q = true →
  ∃ s', Update sort_slice (w_stream w') q clock = Ret (s', None) ∧
    (∀ o, o ∈ Offers (graph s') ↔ in_ledger s o) ∧ NoDup (OfferId <$> Offers (graph s')) ∧
    OrderBook.lastLedger (graph s') = w_lastIngested w'.
Proof.
  intros Hsort Hsrc Hi Hr Hf Hk q Hu Hc Hb. destruct (world_reachable_ok _ _ Hsort Hsrc _ _ Hi Hr) as (Ht & Hsane & Hs).
  destruct (stream_Update_spec sort_slice Hsort (w_built w') (w_stream w') q clock Ht Hsane Hs) as (s' & err & Hup & Ho & _).
  unfold outcome_of_update in Ho. destruct err as [e|]; [destruct Ho as [(name & _ & [Hn|Hn]) _]; [done|lia]|].
  rewrite Hu, Hb in Ho. destruct Ho as (l & Hg & Hl & _). destruct (graph_offers _ _ _ Hg) as [Hgl HL].
  exists s'. split; [done|]. split_and!; [|rewrite Hgl; by eapply refines_NoDup|done].
  intros o. rewrite Hgl, Hl. apply (table_offers_ledger names fut); [done..|]. apply Ht.
Qed.

(** C8: the verification repairs the graph: if the offers in memory differ from
    the table, whatever made them differ, an update that verifies notices it and
    the next one loads the table; if they do not differ nothing changes.  The
    flags of offers are not compared. *)
Theorem verification_repairs (sort_slice : ∀ A, (A → A → bool) → list A → list A) s q l clock clock' :
  (∀ A, sorts (sort_slice A)) → (∀ name, q_fails q name = false) → offer_compaction_sequence (q_offers q) ≤ MaxInt32 →
  usable q = true → table_at (q_LastLedgerExpIngest q) (q_offers q) →
  refines (graph s) (MkBook l (Stream_lastLedger s) [] false) → Forall (λ o, wf_account (SellerId o)) l →
  0 < Stream_lastLedger s → q_LastLedgerExpIngest q = Stream_lastLedger s →
  offer_compaction_sequence (q_offers q) ≤ Stream_lastLedger s →
  verificationFrequency + jitter clock ≤ now_since clock - lastVerification s →
  ∃ s1 s2, Update sort_slice s q clock = Ret (s1, None) ∧ Update sort_slice s1 q clock' = Ret (s2, None) ∧
    if bool_decide (same_offers (q_offers q) l) then graph s2 = graph s
    else Stream_lastLedger s1 = 0 ∧ Offers (graph s2) ≡ₚ table_offers (q_offers q).
Proof.
  intros Hsort Hf Hc Hu Ht Hg Hw Hpos HL Hcs Hdue. rewrite (Update_idle sort_slice s) by done. rewrite (proj2 (Z.leb_le _ _) Hdue).
  pose proof (table_at_valid _ _ Ht) as Hv.
  destruct (verifyAllOffers_spec sort_slice Hsort (now_verified clock) s q l _ Hv Hg Hw (Hf _)) as (s1 & -> & Hg1 & _ & HL1).
  outcome_simpl. exists s1. case_bool_decide as Hsame.
  - rewrite (Update_idle sort_slice s1) by (done || by rewrite HL1). case_if; [|by exists s1].
    destruct (verifyAllOffers_spec sort_slice Hsort (now_verified clock') s1 q l (Stream_lastLedger s)) as (s2 & -> & Hg2 & _);
      [done|by rewrite Hg1|done|done|]. exists s2. split_and!; [done..|]. by rewrite Hg2.
  - assert (tracks (q_LastLedgerExpIngest q) (q_offers q) s1) as Hs1.
    { exists l. rewrite HL1. split; [|done]. split; [done|]. exists (Stream_lastLedger s). by rewrite Hg1, HL1. }
    destruct (stream_Update_spec sort_slice Hsort false s1 q clock' Ht (tracks_sane _ _ _ Hs1) (λ _, Hs1))
      as (s2 & err & -> & Ho & _). unfold outcome_of_update in Ho. cbn [negb orb] in Ho.
    destruct err as [e|]; [destruct Ho as [(name & _ & [Hn|Hn]) _]; [by rewrite Hf in Hn|lia]|].
    rewrite Hu in Ho. destruct Ho as (l2 & Hg2 & Hl2 & _). exists s2. split_and!; [done..|].
    by rewrite (proj1 (graph_offers _ _ _ Hg2)).
Qed.

(** *** An example: the archive and the ledger of ProcessorRunner.v *)
#[local] Existing Instances Example_run.network Example_run.sources.
#[local] Existing Instances Example_run.cache Example_run.signer_order Example_run.stats_order.
Module Example_stream.
Import Example_run.
Definition sort : ∀ A, (A → A → bool) → list A → list A := @sort_by.
Definition marshal : AccountEntry → option (list Z) := λ _, Some [].
Definition clock : Clock := MkClock 0 0 0.

Definition world_0 : World :=
  MkWorld (MkTables ∅ ∅ (MkOfferTable ∅ 0) ∅ ∅ ∅ ∅) 0 [] false (NewOrderBookStream NewOrderBookGraph 0) false.
Definition tables_of (r : outcome runner_error (StatsChangeProcessorResults * Tables)) : Tables :=
  match r with Ret (_, t) => t | _ => w_tables world_0 end.
Abbreviation tables_63 := (tables_of (RunHistoryArchiveIngestion marshal 63 (TruncateExpingestStateTables (w_tables world_0)))).
Abbreviation tables_64 := (tables_of (RunChangesOnLedger marshal 64 tables_63)).
Definition world_63 : World := MkWorld tables_63 63 [] false (w_stream world_0) true.
Definition stream_of (r : outcome stream_error (OrderBookStream * option stream_error)) : OrderBookStream :=
  match r with Ret (s, _) => s | _ => w_stream world_0 end.
(** The stream is updated before and after the ledger. *)
Abbreviation stream_63 := (stream_of (Update sort (w_stream world_63) (session world_63 no_fails) clock)).
Definition world_64 : World := MkWorld tables_64 64 [] false stream_63 false.

Lemma tables_of_eq r : match r with Ret _ => true | _ => false end = true → ∃ stats, r = Ret (stats, tables_of r).
Proof. destruct r as [[stats t]| |]; [by eexists|done..]. Qed.

Lemma offer_64_ok : offer_ok (MkOffer alice 7 usd AssetTypeNative 10 (Price.MkPrice 1 2) 0).
Proof.
  split; [unfold Price.price_ok, MaxInt32; simpl; lia|]. split; [|split; [done|unfold Price.amount_ok, MaxInt64; simpl; lia]].
  split; [|apply issuer_wf]. split; [done|]. repeat (apply List.Forall_cons; [unfold is_u8; simpl; lia|]). apply List.Forall_nil.
Qed.
Lemma Ret_elem {E A} (x : A) (l : list A) : (Ret x : outcome E A) ∈ (Ret <$> l) → x ∈ l.
Proof. by intros (y & [= ->] & Hy)%list_elem_of_fmap. Qed.
Lemma changes_64 : ledger_changes (ledger 64) = Ret (Ret <$> ledger_64).
Proof. vm_compute. reflexivity. Qed.
Lemma changes_other seq : seq ≠ 64 → ledger_changes (ledger seq) = Ret [].
Proof. intros Hne. unfold ledger. by rewrite (proj2 (Z.eqb_neq _ _) Hne). Qed.

Lemma example_current : sources_current.
Proof.
  split.
  - intros seq lcm reader c [= <-] Hr Hc e He. destruct (decide (seq = 64)) as [->|Hne].
    + rewrite changes_64 in Hr. assert (reader = Ret <$> ledger_64) as -> by congruence.
      apply Ret_elem in Hc. unfold ledger_64 in Hc. rewrite !elem_of_cons in Hc.
      destruct Hc as [->|[->|[->|?%elem_of_nil]]]; [| | |done]; injection He as <-; [done..|].
      split; [simpl; lia|]. split; [apply alice_wf|apply offer_64_ok].
    + rewrite changes_other in Hr by done. assert (reader = []) as -> by congruence. by apply elem_of_nil in Hc.
  - intros seq reader c Hr Hc e He. assert (reader = Ret <$> archived) as -> by (change (Some (Ret <$> archived) = Some reader) in Hr; congruence).
    apply Ret_elem in Hc. unfold archived in Hc. rewrite !elem_of_cons in Hc. destruct Hc as [->|[->|?%elem_of_nil]]; [..|done]; by injection He as <-.
Qed.

Lemma example_init : world_init world_0.
Proof. split; [split; [apply empty_valid| |done]|by exists 0]. intros id r Hr. cbn in Hr. by rewrite lookup_empty in Hr. Qed.

Lemma built_63 : ∃ stats, RunHistoryArchiveIngestion marshal 63 (TruncateExpingestStateTables (w_tables world_0)) = Ret (stats, tables_63).
Proof. apply tables_of_eq. vm_compute. reflexivity. Qed.
Lemma ingested_64 : ∃ stats, RunChangesOnLedger marshal 64 tables_63 = Ret (stats, tables_64).
Proof. apply tables_of_eq. vm_compute. reflexivity. Qed.
Lemma updated_63 : Update sort (w_stream world_63) (session world_63 no_fails) clock = Ret (stream_63, None).
Proof. vm_compute. reflexivity. Qed.

Lemma example_reachable : rtc (world_step marshal sort) world_0 world_64.
Proof.
  destruct built_63 as (st1 & H1), ingested_64 as (st2 & H2).
  apply (rtc_l _ _ world_63); [exact (step_build _ _ world_0 63 st1 tables_63 eq_refl H1)|].
  apply (rtc_l _ _ (MkWorld tables_63 63 [] false stream_63 false)).
  { pose proof (step_update marshal sort world_63 no_fails clock stream_63 None updated_63) as H.
    assert (w_built world_63 && negb (resets (w_stream world_63) (session world_63 no_fails)) = false) as Hb
      by (vm_compute; reflexivity).
    rewrite Hb in H. exact H. }
  apply rtc_once. exact (step_ledger _ _ (MkWorld tables_63 63 [] false stream_63 false) st2 tables_64 H2).
Qed.

Lemma example_follows : tables_follow [] entries' (w_tables world_64).
Proof.
  destruct (RunHistoryArchiveIngestion_follows names marshal 63 archived ledger_64 entries (w_tables world_0))
    as (st1 & t1 & H1 & Hf1).
  - apply archive_has_archived.
  - apply archived_wf.
  - by repeat (apply Forall_cons; split).
  - vm_compute. reflexivity.
  - vm_compute. apply NoDup_singleton.
  - vm_compute. done.
  - destruct (RunLedgers_follows names marshal entries [(64, ledger_64)] entries' [] t1) as (t2 & H2 & Hf2).
    + apply (closes_cons _ _ _ _ entries'); [apply ledger_has_64|apply ledger_64_wf|apply ledger_64_dated| |constructor].
      vm_compute. reflexivity.
    + apply (apply_exacts_keyed names archived ∅ entries); [apply keyed_empty|apply archived_wf|by vm_compute].
    + exact Hf1.
    + assert (t2 = tables_64) as ->; [|exact Hf2].
      rewrite H1. cbn [tables_of]. unfold RunLedgers in H2. cbn [mfold fst fmap list_fmap] in H2.
      destruct (RunChangesOnLedger marshal 64 t1) as [[st t]| |]; [|done..]. cbn in H2. by injection H2 as ->.
Qed.

Lemma entries'_keyed : keyed (named names) entries'.
Proof.
  apply (apply_exacts_keyed names ledger_64 entries entries'); [|apply ledger_64_wf|by vm_compute].
  apply (apply_exacts_keyed names archived ∅ entries); [apply keyed_empty|apply archived_wf|by vm_compute].
Qed.

Lemma world_64_ok : world_ok world_64.
Proof. exact (world_reachable_ok marshal sort (λ A, sort_by_sorts) example_current _ _ example_init example_reachable). Qed.

(** A stream that lost its offers. *)
Definition stream_lost : OrderBookStream := MkStream (OrderBook.set_lastLedger NewOrderBookGraph 64) 64 64 0.
Lemma stream_lost_refines : refines (graph stream_lost) (MkBook [] 64 [] false).
Proof. split; [by apply holds_empty|done|done|constructor]. Qed.
Definition clock_due : Clock := MkClock minute (61 * minute) (61 * minute).
End Example_stream.

Theorem OrderBookStream_follows_witness :
  let w := Example_stream.world_64 in
  let q := session w (λ name, match name with QGetUpdatedOffers => true | _ => false end) in
  ∃ s' err, Update Example_stream.sort (w_stream w) q Example_stream.clock = Ret (s', err) ∧
    match err with
    | None =>
        if usable q then
          OrderBook.lastLedger (graph s') = w_lastIngested w ∧
          if negb (w_built w) || resets (w_stream w) q
          then Offers (graph s') ≡ₚ table_offers (q_offers q) ∧ Stream_lastLedger s' = w_lastIngested w
          else (Stream_lastLedger s' = w_lastIngested w ∨ Stream_lastLedger s' = 0) ∧
            (verifies (w_stream w) q Example_stream.clock = true →
             same_offers (q_offers q) (Offers (graph s')) ∨ Stream_lastLedger s' = 0)
        else Offers (graph s') = [] ∧ Stream_lastLedger s' = 0
    | Some e =>
        (∃ name, e = ErrQuery name ∧
           (match name with QGetUpdatedOffers => true | _ => false end = true ∨ MaxInt32 < offer_compaction_sequence (q_offers q))) ∧
        (s' = w_stream w ∨ Offers (graph s') = [] ∧ Stream_lastLedger s' = 0)
    end.
Proof.
  exact (OrderBookStream_follows Example_stream.marshal Example_stream.sort _ _
    (λ name, match name with QGetUpdatedOffers => true | _ => false end) Example_stream.clock (λ A, sort_by_sorts)
    Example_stream.example_current Example_stream.example_init Example_stream.example_reachable).
Defined.

Theorem OrderBookStream_shows_ledger_witness :
  let w := Example_stream.world_64 in
  ∃ s', Update Example_stream.sort (w_stream w) (session w no_fails) Example_stream.clock = Ret (s', None) ∧
    (∀ o, o ∈ Offers (graph s') ↔ in_ledger Example_run.entries' o) ∧ NoDup (OfferId <$> Offers (graph s')) ∧
    OrderBook.lastLedger (graph s') = 64.
Proof.
  apply (OrderBookStream_shows_ledger Example_stream.marshal Example_stream.sort _ _ Example_run.names [] Example_run.entries'
    Example_stream.clock (λ A, sort_by_sorts) Example_stream.example_current Example_stream.example_init
    Example_stream.example_reachable Example_stream.example_follows Example_stream.entries'_keyed).
  - vm_compute. reflexivity.
  - apply (bool_decide_eq_true_1 _). vm_compute. reflexivity.
  - vm_compute. reflexivity.
Defined.

Theorem verification_repairs_witness :
  let q := session Example_stream.world_64 no_fails in
  ∃ s1 s2, Update Example_stream.sort Example_stream.stream_lost q Example_stream.clock_due = Ret (s1, None) ∧
    Update Example_stream.sort s1 q Example_stream.clock = Ret (s2, None) ∧
    if bool_decide (same_offers (q_offers q) []) then graph s2 = graph Example_stream.stream_lost
    else Stream_lastLedger s1 = 0 ∧ Offers (graph s2) ≡ₚ table_offers (q_offers q).
Proof.
  apply (verification_repairs Example_stream.sort Example_stream.stream_lost (session Example_stream.world_64 no_fails) []
    Example_stream.clock_due Example_stream.clock (λ A, sort_by_sorts)).
  - done.
  - apply (bool_decide_eq_true_1 _). vm_compute. reflexivity.
  - vm_compute. reflexivity.
  - exact (proj1 Example_stream.world_64_ok).
  - exact Example_stream.stream_lost_refines.
  - constructor.
  - done.
  - done.
  - apply (bool_decide_eq_true_1 _). vm_compute. reflexivity.
  - done.
Defined.

(** The stream that lost its offers is repaired, and is left alone by an update
    that does not verify. *)
Example lost_offers :
  let q := session Example_stream.world_64 no_fails in
  bool_decide (same_offers (q_offers q) []) = false ∧
  Update Example_stream.sort Example_stream.stream_lost q Example_stream.clock = Ret (Example_stream.stream_lost, None).
Proof. split; vm_compute; reflexivity. Qed.

(** A different flag is not noticed. *)
Example flags_unnoticed id n d f f' :
  flagless (MkOffer Example_run.alice id Example_run.usd AssetTypeNative n d f) =
  flagless (MkOffer Example_run.alice id Example_run.usd AssetTypeNative n d f').
Proof. reflexivity. Qed.

(** A state that is built again between two updates, at a later ledger than the
    stream has seen, and without an offer that was removed in between: the
    offer stays in the graph, until the offers are verified. *)
Example built_between_updates :
  let g := Example_stream.stream_of (Update Example_stream.sort (w_stream Example_stream.world_64)
    (session Example_stream.world_64 no_fails) Example_stream.clock) in
  let q := MkIngestionQ false [] 127 (MkOfferTable ∅ 0) no_fails in
  (OfferId <$> Offers (graph g)) = [7] ∧
  match Update Example_stream.sort g q Example_stream.clock with
  | Ret (s', None) => (OfferId <$> Offers (graph s')) = [7] ∧ Stream_lastLedger s' = 127
  | _ => False
  end ∧
  match Update Example_stream.sort g q Example_stream.clock_due with
  | Ret (s', None) => Stream_lastLedger s' = 0
  | _ => False
  end.
Proof. vm_compute. repeat split; reflexivity. Qed.
