(* ===== verification/Paths.v ===== *)
(** * orderbook: payment paths

    Models [src/exp/orderbook/dfs.go] and the path searches of [graph.go].  The
    interface [searchState] is a class; its mutable field [paths] is threaded
    through [dfs], its other fields are the instance's configuration.  The order
    in which Go iterates a map, and the unstable [sort.Slice], are parameters. *)

From S2P Require Import Prelude Price Xdr LedgerEntry OrderBook.

Record Path := MkPath {
  SourceAmount : Z; SourceAsset : Asset; DestinationAsset : Asset; DestinationAmount : Z;
  sourceAssetString : gostring; destinationAssetString : gostring; InteriorNodes : list Asset }.

(** The cached strings are computed on demand. *)
Definition SourceAssetString (p : Path) : gostring :=
  if bool_decide (sourceAssetString p = []) then asset_string (SourceAsset p) else sourceAssetString p.
Definition DestinationAssetString (p : Path) : gostring :=
  if bool_decide (destinationAssetString p = []) then asset_string (DestinationAsset p)
  else destinationAssetString p.

(** ** Consuming offers *)

(** The loops take the offers left, the running total and the amount left. *)
Fixpoint consumeSelling_loop (ignoreOffersFrom : option AccountId) (offers : list OfferEntry)
    (totalConsumed currentAssetAmount : Z) : outcome orderbook_error Z :=
  match offers with
  | [] => Ret (-1)
  | offer :: offers' =>
      if match ignoreOffersFrom with Some a => AccountId_Equals a (SellerId offer) | None => false end
      then consumeSelling_loop ignoreOffersFrom offers' totalConsumed currentAssetAmount
      else
        match ConvertToBuyingUnits (Amount offer) currentAssetAmount
                (N (OfferPrice offer)) (D (OfferPrice offer)) with
        | Panic => Panic
        | Fail ErrOverflow => Ret (-1)
        | Fail e => Fail (errPrice e)
        | Ret (buyingUnitsFromOffer, sellingUnitsFromOffer) =>
            let totalConsumed := i64 (totalConsumed + buyingUnitsFromOffer) in
            let currentAssetAmount := i64 (currentAssetAmount - sellingUnitsFromOffer) in
            if currentAssetAmount =? 0 then Ret totalConsumed
            else if currentAssetAmount <? 0 then Fail errSoldTooMuch
            else consumeSelling_loop ignoreOffersFrom offers' totalConsumed currentAssetAmount
        end
  end.

Definition consumeOffersForSellingAsset (offers : list OfferEntry) (ignoreOffersFrom : option AccountId)
    (currentAssetAmount : Z) : outcome orderbook_error Z :=
  match offers with
  | [] => Fail errEmptyOffers
  | _ =>
      if currentAssetAmount =? 0 then Fail errAssetAmountIsZero
      else consumeSelling_loop ignoreOffersFrom offers 0 currentAssetAmount
  end.

(** The part of the loop body that takes the whole offer. *)
Definition consumeWholeOffer (offer : OfferEntry) (totalConsumed currentAssetAmount : Z)
    (continue : Z → Z → outcome orderbook_error Z) : outcome orderbook_error Z :=
  match ConvertToBuyingUnits (Amount offer) (Amount offer)
          (N (OfferPrice offer)) (D (OfferPrice offer)) with
  | Panic => Panic
  | Fail ErrOverflow => Ret (-1)
  | Fail e => Fail (errPrice e)
  | Ret (buyingUnitsFromOffer, sellingUnitsFromOffer) =>
      let totalConsumed := i64 (totalConsumed + sellingUnitsFromOffer) in
      let currentAssetAmount := i64 (currentAssetAmount - buyingUnitsFromOffer) in
      if currentAssetAmount =? 0 then Ret totalConsumed
      else if currentAssetAmount <? 0 then Fail errSoldTooMuch
      else continue totalConsumed currentAssetAmount
  end.

Fixpoint consumeBuying_loop (offers : list OfferEntry) (totalConsumed currentAssetAmount : Z)
  : outcome orderbook_error Z :=
  match offers with
  | [] => Ret (-1)
  | offer :: offers' =>
      match MulFractionRoundDown currentAssetAmount (D (OfferPrice offer)) (N (OfferPrice offer)) with
      | Panic => Panic
      | Ret amountSold =>
          if amountSold =? 0 then Ret (-1)
          else if amountSold <? 0 then Fail errSoldTooMuch
          else if amountSold <=? Amount offer then Ret (i64 (totalConsumed + amountSold))
          else consumeWholeOffer offer totalConsumed currentAssetAmount (consumeBuying_loop offers')
      | Fail ErrOverflow =>
          consumeWholeOffer offer totalConsumed currentAssetAmount (consumeBuying_loop offers')
      | Fail e => Fail (errPrice e)
      end
  end.

Definition consumeOffersForBuyingAsset (offers : list OfferEntry) (currentAssetAmount : Z)
  : outcome orderbook_error Z :=
  match offers with
  | [] => Fail errEmptyOffers
  | _ =>
      if currentAssetAmount =? 0 then Fail errAssetAmountIsZero
      else consumeBuying_loop offers 0 currentAssetAmount
  end.

(** ** The search *)

Class SearchState (T : Type) := {
  isTerminalNode : T → gostring → Z → bool;
  path_of : T → list Asset → gostring → Z → Path;
  edges : T → gostring → edgeSet;
  consumeOffers : T → Z → list OfferEntry → outcome orderbook_error (Asset * Z) }.

Definition appendToPaths `{SearchState T} (state : T) (paths : list Path)
    (updatedVisitedList : list Asset) (currentAsset : gostring) (currentAssetAmount : Z) : list Path :=
  paths ++ [path_of state updatedVisitedList currentAsset currentAssetAmount].

Section dfs.
Context (iterate : edgeSet → list (gostring * list OfferEntry)).
Context `{SearchState T} (state : T) (maxPathLength : Z).

(** [visited] is as it was when a call returns: it is passed down only.  Every
    level of the recursion extends the visited list, so [maxPathLength + 2] is
    fuel enough ([dfs_spec]). *)
Fixpoint dfs (fuel : nat) (visited : gset gostring) (visitedList : list Asset)
    (currentAssetString : gostring) (currentAsset : Asset) (currentAssetAmount : Z)
    (paths : list Path) : outcome orderbook_error (list Path) :=
  match fuel with
  | O => Panic
  | S fuel' =>
      if currentAssetAmount <=? 0 then Ret paths else
      if bool_decide (currentAssetString ∈ visited) then Ret paths else
      if maxPathLength <? Z.of_nat (length visitedList) then Ret paths else
      let visited := {[ currentAssetString ]} ∪ visited in
      let updatedVisitedList := visitedList ++ [currentAsset] in
      let paths :=
        if isTerminalNode state currentAssetString currentAssetAmount
        then appendToPaths state paths updatedVisitedList currentAssetString currentAssetAmount
        else paths in
      mfold (λ paths '(nextAssetString, offers),
        match offers with
        | [] => Ret paths
        | _ =>
            '(nextAsset, nextAssetAmount) ← consumeOffers state currentAssetAmount offers;
            if nextAssetAmount <=? 0 then Ret paths
            else dfs fuel' visited updatedVisitedList nextAssetString nextAsset nextAssetAmount paths
        end) paths (iterate (edges state currentAssetString))
  end.
End dfs.

Definition dfs_fuel (maxPathLength : Z) : nat := Z.to_nat maxPathLength + 2.

(** From the destination back to the sources, along the offers that sell. *)
Record sellingGraphSearchState := MkSelling {
  s_graph : OrderBookGraph; s_destinationAsset : Asset; s_destinationAssetAmount : Z;
  s_ignoreOffersFrom : option AccountId; s_targetAssets : gmap gostring Z;
  s_validateSourceBalance : bool }.

Definition interior (l : list Asset) : list Asset :=
  if (2 <? length l)%nat then take (length l - 2) (drop 1 l) else [].

Definition last_asset (l : list Asset) : Asset := List.last l AssetTypeNative.

#[export] Instance sellingSearch : SearchState sellingGraphSearchState := {
  isTerminalNode state currentAsset currentAssetAmount :=
    match s_targetAssets state !! currentAsset with
    | Some targetAssetBalance =>
        negb (s_validateSourceBalance state) || (currentAssetAmount <=? targetAssetBalance)
    | None => false
    end;
  path_of state updatedVisitedList currentAsset currentAssetAmount :=
    {| sourceAssetString := currentAsset;
       SourceAmount := currentAssetAmount;
       SourceAsset := last_asset updatedVisitedList;
       InteriorNodes := rev (interior updatedVisitedList);
       DestinationAsset := s_destinationAsset state;
       DestinationAmount := s_destinationAssetAmount state;
       destinationAssetString := [] |};
  edges state currentAssetString :=
    default ∅ (edgesForSellingAsset (s_graph state) !! currentAssetString);
  consumeOffers state currentAssetAmount offers :=
    nextAmount ← consumeOffersForSellingAsset offers (s_ignoreOffersFrom state) currentAssetAmount;
    match offers with [] => Panic | o :: _ => Ret (Buying o, nextAmount) end }.

(** From the source to the destinations, along the offers that buy. *)
Record buyingGraphSearchState := MkBuying {
  b_graph : OrderBookGraph; b_sourceAsset : Asset; b_sourceAssetAmount : Z;
  b_targetAssets : gset gostring }.

#[export] Instance buyingSearch : SearchState buyingGraphSearchState := {
  isTerminalNode state currentAsset currentAssetAmount :=
    bool_decide (currentAsset ∈ b_targetAssets state);
  path_of state updatedVisitedList currentAsset currentAssetAmount :=
    {| SourceAmount := b_sourceAssetAmount state;
       SourceAsset := b_sourceAsset state;
       InteriorNodes := interior updatedVisitedList;
       DestinationAsset := last_asset updatedVisitedList;
       DestinationAmount := currentAssetAmount;
       destinationAssetString := currentAsset;
       sourceAssetString := [] |};
  edges state currentAsset := default ∅ (edgesForBuyingAsset (b_graph state) !! currentAsset);
  consumeOffers state currentAssetAmount offers :=
    nextAmount ← consumeOffersForBuyingAsset offers currentAssetAmount;
    match offers with [] => Panic | o :: _ => Ret (Selling o, nextAmount) end }.

(** ** Sorting and filtering *)

Definition compareSourceAsset (p q : Path) : bool :=
  if Asset_Equals (SourceAsset p) (SourceAsset q) then
    if SourceAmount p =? SourceAmount q then (length (InteriorNodes p) <? length (InteriorNodes q))%nat
    else SourceAmount p <? SourceAmount q
  else str_ltb (SourceAssetString p) (SourceAssetString q).

Definition compareDestinationAsset (p q : Path) : bool :=
  if Asset_Equals (DestinationAsset p) (DestinationAsset q) then
    if DestinationAmount p =? DestinationAmount q
    then (length (InteriorNodes p) <? length (InteriorNodes q))%nat
    else DestinationAmount q <? DestinationAmount p
  else str_ltb (DestinationAssetString p) (DestinationAssetString q).

Definition sourceAssetEquals (p otherPath : Path) : bool :=
  Asset_Equals (SourceAsset p) (SourceAsset otherPath).
Definition destinationAssetEquals (p otherPath : Path) : bool :=
  Asset_Equals (DestinationAsset p) (DestinationAsset otherPath).

Inductive sortByType := sortBySourceAsset | sortByDestinationAsset.

(** [last] is the last path kept, [countForAsset] how many of its asset. *)
Fixpoint filter_loop (assetsEqual : Path → Path → bool) (maxPathsPerAsset : Z)
    (last : option Path) (countForAsset : Z) (allPaths : list Path) : list Path :=
  match allPaths with
  | [] => []
  | entry :: allPaths' =>
      if match last with Some p => negb (assetsEqual p entry) | None => true end then
        entry :: filter_loop assetsEqual maxPathsPerAsset (Some entry) 1 allPaths'
      else if countForAsset <? maxPathsPerAsset then
        entry :: filter_loop assetsEqual maxPathsPerAsset (Some entry) (countForAsset + 1) allPaths'
      else filter_loop assetsEqual maxPathsPerAsset last countForAsset allPaths'
  end.

Section search.
Context (iterate : edgeSet → list (gostring * list OfferEntry)).
Context (sort_slice : (Path → Path → bool) → list Path → list Path).

Definition sortAndFilterPaths (allPaths : list Path) (maxPathsPerAsset : Z) (sortType : sortByType)
  : list Path :=
  match sortType with
  | sortBySourceAsset =>
      filter_loop sourceAssetEquals maxPathsPerAsset None 0 (sort_slice compareSourceAsset allPaths)
  | sortByDestinationAsset =>
      filter_loop destinationAssetEquals maxPathsPerAsset None 0
        (sort_slice compareDestinationAsset allPaths)
  end.

(** [sourceAssetBalances[i]] panics when there are fewer balances. *)
Fixpoint balances_map (sourceAssets : list Asset) (sourceAssetBalances : list Z)
    (m : gmap gostring Z) : outcome orderbook_error (gmap gostring Z) :=
  match sourceAssets, sourceAssetBalances with
  | [], _ => Ret m
  | a :: sourceAssets', b :: balances' => balances_map sourceAssets' balances' (<[asset_string a := b]> m)
  | _ :: _, [] => Panic
  end.

(** The paths, the last ledger and the error. *)
Definition FindPaths (graph : OrderBookGraph) (maxPathLength : Z) (destinationAsset : Asset)
    (destinationAmount : Z) (sourceAccountID : option AccountId) (sourceAssets : list Asset)
    (sourceAssetBalances : list Z) (validateSourceBalance : bool) (maxAssetsPerPath : Z)
  : outcome orderbook_error (list Path * Z * option orderbook_error) :=
  sourceAssetsMap ← balances_map sourceAssets sourceAssetBalances ∅;
  let searchState :=
    MkSelling graph destinationAsset destinationAmount sourceAccountID sourceAssetsMap
      validateSourceBalance in
  match dfs iterate searchState maxPathLength (dfs_fuel maxPathLength) ∅ []
          (asset_string destinationAsset) destinationAsset destinationAmount [] with
  | Panic => Panic
  | Fail e => Ret ([], lastLedger graph, Some e)
  | Ret paths => Ret (sortAndFilterPaths paths maxAssetsPerPath sortBySourceAsset, lastLedger graph, None)
  end.

Definition FindFixedPaths (graph : OrderBookGraph) (maxPathLength : Z) (sourceAsset : Asset)
    (amountToSpend : Z) (destinationAssets : list Asset) (maxAssetsPerPath : Z)
  : outcome orderbook_error (list Path * Z * option orderbook_error) :=
  let target := list_to_set (asset_string <$> destinationAssets) in
  let searchState := MkBuying graph sourceAsset amountToSpend target in
  match dfs iterate searchState maxPathLength (dfs_fuel maxPathLength) ∅ []
          (asset_string sourceAsset) sourceAsset amountToSpend [] with
  | Panic => Panic
  | Fail e => Ret ([], lastLedger graph, Some e)
  | Ret paths =>
      let paths := sort_slice (λ p q, DestinationAmount q <? DestinationAmount p) paths in
      Ret (sortAndFilterPaths paths maxAssetsPerPath sortByDestinationAsset, lastLedger graph, None)
  end.
End search.

(** ** Consuming offers never fails *)

Lemma price_ok_64 p : price_ok p → 0 < N p ≤ MaxInt64 ∧ 0 < D p ≤ MaxInt64.
Proof. unfold price_ok, MaxInt32, MaxInt64. lia. Qed.

Lemma i64_le x : i64 x ≤ MaxInt64.
Proof. pose proof (i64_range x) as H. unfold is_i64, MaxInt64 in *. lia. Qed.

Lemma consumeSelling_loop_ok ignore offers total amt :
  Forall offer_ok offers → 0 < amt ≤ MaxInt64 →
  ∃ r, consumeSelling_loop ignore offers total amt = Ret r ∧ r ≤ MaxInt64.
Proof.
  intros Hok. revert total amt. induction Hok as [|o offers (Hp & _ & _ & Ha) Hok IH]; intros total amt Hamt;
    cbn [consumeSelling_loop]; [by eexists|].
  case_match; [by apply IH|].
  destruct (price_ok_64 _ Hp) as [Hn Hd].
  pose proof (ConvertToBuyingUnits_bounds (Amount o) amt _ _ Ha ltac:(unfold amount_ok; lia) Hn Hd) as Hc.
  destruct (ConvertToBuyingUnits _ _ _ _) as [[buy sold]|e|]; [|subst e; by eexists|done].
  destruct Hc as (Hs & _ & _ & _). unfold amount_ok in Ha.
  rewrite (i64_small (amt - sold)) by (unfold is_i64, MaxInt64 in *; lia).
  destruct (Z.eqb_spec (amt - sold) 0); [eexists; split; [done|apply i64_le]|].
  rewrite (proj2 (Z.ltb_ge (amt - sold) 0)) by lia. apply IH. lia.
Qed.

Lemma consumeWholeOffer_ok o total amt continue :
  offer_ok o → 0 < amt ≤ MaxInt64 →
  Amount o < mul_div_down amt (D (OfferPrice o)) (N (OfferPrice o)) →
  (∀ t a, 0 < a ≤ MaxInt64 → ∃ r, continue t a = Ret r ∧ r ≤ MaxInt64) →
  ∃ r, consumeWholeOffer o total amt continue = Ret r ∧ r ≤ MaxInt64.
Proof.
  intros (Hp & _ & _ & Ha) Hamt Hlt Hk. unfold consumeWholeOffer.
  destruct (price_ok_64 _ Hp) as [Hn Hd].
  pose proof (ConvertToBuyingUnits_bounds (Amount o) (Amount o) _ _ Ha Ha Hn Hd) as Hc.
  destruct (ConvertToBuyingUnits _ _ _ _) as [[buy sold]|e|]; [|subst e; by eexists|done].
  destruct Hc as (Hs & Hb & Hbuy & _). unfold amount_ok in *.
  pose proof (mul_div_down_bounds amt (D (OfferPrice o)) (N (OfferPrice o)) ltac:(lia)) as Hm.
  assert (buy ≤ amt) as Hle.
  { set (n := N (OfferPrice o)) in *. set (d := D (OfferPrice o)) in *. clearbody n d.
    set (q := mul_div_down amt d n) in *. clearbody q.
    assert ((sold + 1) * n ≤ q * n) by (apply Z.mul_le_mono_nonneg_r; lia).
    destruct (Z.le_gt_cases buy amt) as [|Hgt]; [done|].
    assert ((amt + 1) * d ≤ buy * d) by (apply Z.mul_le_mono_nonneg_r; lia). lia. }
  rewrite (i64_small (amt - buy)) by (unfold is_i64, MaxInt64 in *; lia).
  destruct (Z.eqb_spec (amt - buy) 0); [eexists; split; [done|apply i64_le]|].
  rewrite (proj2 (Z.ltb_ge (amt - buy) 0)) by lia. apply Hk. lia.
Qed.

Lemma consumeBuying_loop_ok offers total amt :
  Forall offer_ok offers → 0 < amt ≤ MaxInt64 →
  ∃ r, consumeBuying_loop offers total amt = Ret r ∧ r ≤ MaxInt64.
Proof.
  intros Hok. revert total amt. induction Hok as [|o offers Ho Hok IH]; intros total amt Hamt;
    cbn [consumeBuying_loop]; [by eexists|].
  destruct Ho as (Hp & Hrest) eqn:Eo. clear Eo. destruct (price_ok_64 _ Hp) as [Hn Hd].
  assert (offer_ok o) as Ho' by done.
  rewrite MulFractionRoundDown_fits by (unfold amount_ok; lia).
  unfold fits. destruct (Z.leb_spec (mul_div_down amt (D (OfferPrice o)) (N (OfferPrice o))) MaxInt64).
  - assert (0 ≤ mul_div_down amt (D (OfferPrice o)) (N (OfferPrice o))) by (apply Z.div_pos; nia).
    case_if; [by eexists|]. rewrite (proj2 (Z.ltb_ge _ 0)) by lia.
    destruct (Z.leb_spec (mul_div_down amt (D (OfferPrice o)) (N (OfferPrice o))) (Amount o)).
    + eexists; split; [done|apply i64_le].
    + by apply consumeWholeOffer_ok.
  - apply consumeWholeOffer_ok; [done..| |done].
    destruct Hrest as (_ & _ & Ha). unfold amount_ok in Ha. lia.
Qed.

(** ** The search visits every walk *)

Section dfs_spec.
Context (iterate : edgeSet → list (gostring * list OfferEntry))
  (iterate_perm : ∀ e, iterate e ≡ₚ map_to_list e).
Context `{SearchState T} (state : T) (maxPathLength : Z).
Context (consume_good : ∀ key next offers amt,
  edges state key !! next = Some offers → offers ≠ [] → 0 < amt ≤ MaxInt64 →
  ∃ a n, consumeOffers state amt offers = Ret (a, n) ∧ n ≤ MaxInt64).

(** Where the search is: the assets before the current one, and the current one
    with its amount. *)
Record node := MkNode { hist : list (gostring * Asset); key : gostring; asset : Asset; amount : Z }.

Definition trail (n : node) : list (gostring * Asset) := hist n ++ [(key n, asset n)].

Definition enterable (n : node) : Prop :=
  0 < amount n ∧ (key n ∉ (hist n).*1) ∧ Z.of_nat (length (hist n)) ≤ maxPathLength.

Definition step (n n' : node) : Prop :=
  ∃ offers, edges state (key n) !! key n' = Some offers ∧ offers ≠ [] ∧
    consumeOffers state (amount n) offers = Ret (asset n', amount n') ∧
    hist n' = trail n ∧ enterable n'.

Definition found (n : node) (p : Path) : Prop :=
  ∃ n', rtc step n n' ∧ isTerminalNode state (key n') (amount n') = true ∧
    p = path_of state (trail n').*2 (key n') (amount n').

Definition dfs_node (fuel : nat) (n : node) (paths : list Path) : outcome orderbook_error (list Path) :=
  dfs iterate state maxPathLength fuel (list_to_set (hist n).*1) (hist n).*2 (key n) (asset n) (amount n)
    paths.

Lemma found_unfold n p :
  found n p ↔
    isTerminalNode state (key n) (amount n) = true ∧ p = path_of state (trail n).*2 (key n) (amount n) ∨
    ∃ n', step n n' ∧ found n' p.
Proof.
  split.
  - intros (n' & Hr & Ht & Hp). inversion Hr; subst; [by left|right]. eexists. split; [done|]. by eexists.
  - intros [[Ht Hp]|(n' & Hs & n2 & Hr & Ht & Hp)]; [by exists n|].
    exists n2. split; [by eapply rtc_l|done].
Qed.

Lemma dfs_spec fuel n paths :
  amount n ≤ MaxInt64 → (1 ≤ fuel)%nat → maxPathLength + 2 ≤ Z.of_nat (fuel + length (hist n)) →
  ∃ new, dfs_node fuel n paths = Ret (paths ++ new) ∧
    ∀ p, p ∈ new ↔ enterable n ∧ found n p.
Proof using iterate_perm consume_good.
  revert n paths. induction fuel as [|fuel IH]; intros n paths Hamt Hf1 Hfuel; [lia|].
  unfold dfs_node. cbn [dfs].
  assert (¬ enterable n → ∃ new : list Path, Ret (E := orderbook_error) paths = Ret (paths ++ new) ∧
    ∀ p, p ∈ new ↔ enterable n ∧ found n p) as Hskip.
  { intros Hne. exists []. rewrite app_nil_r. split; [done|]. intros p.
    split; [by intros ?%not_elem_of_nil|tauto]. }
  destruct (Z.leb_spec (amount n) 0); [apply Hskip; unfold enterable; lia|].
  case_bool_decide as Hvis.
  { apply Hskip. rewrite elem_of_list_to_set in Hvis. unfold enterable. tauto. }
  rewrite elem_of_list_to_set in Hvis.
  destruct (Z.ltb_spec maxPathLength (Z.of_nat (length (hist n).*2))) as [Hlen|Hlen];
    rewrite length_fmap in Hlen; [apply Hskip; unfold enterable; lia|].
  assert (enterable n) as Hent by done. clear Hskip.
  set (own := if isTerminalNode state (key n) (amount n)
    then [path_of state (trail n).*2 (key n) (amount n)] else []).
  assert ((if isTerminalNode state (key n) (amount n)
    then appendToPaths state paths ((hist n).*2 ++ [asset n]) (key n) (amount n) else paths)
    = paths ++ own) as ->.
  { unfold own, appendToPaths, trail. rewrite fmap_app. case_match; [done|by rewrite app_nil_r]. }
  assert ({[key n]} ∪ list_to_set (hist n).*1 =@{gset gostring} list_to_set (trail n).*1) as ->.
  { unfold trail. rewrite fmap_app, list_to_set_app_L. cbn. set_solver. }
  assert ((hist n).*2 ++ [asset n] = (trail n).*2) as -> by by (unfold trail; rewrite fmap_app).
  match goal with |- context [mfold ?f _ _] => set (body := f) end.
  assert (∀ l ps, (∀ kv, kv ∈ l → kv ∈ map_to_list (edges state (key n))) →
    ∃ new, mfold body ps l = Ret (ps ++ new) ∧
      ∀ p, p ∈ new ↔ ∃ n', key n' ∈ l.*1 ∧ step n n' ∧ found n' p) as Hloop.
  { induction l as [|[next offers] l IHl]; intros ps Hl; cbn [mfold].
    { exists []. rewrite app_nil_r. split; [done|]. intros p.
      split; [by intros ?%not_elem_of_nil|by intros (? & ?%not_elem_of_nil & _)]. }
    assert (edges state (key n) !! next = Some offers) as Hnext
      by by apply elem_of_map_to_list, Hl; left.
    assert (∃ new, body ps (next, offers) = Ret (ps ++ new) ∧
      ∀ p, p ∈ new ↔ ∃ n', key n' = next ∧ step n n' ∧ found n' p) as (new1 & -> & H1).
    { unfold body. destruct offers as [|o offers].
      { exists []. rewrite app_nil_r. split; [done|]. intros p. split; [by intros ?%not_elem_of_nil|].
        intros (n' & <- & (offers' & Hoff & Hne & _) & _). congruence. }
      destruct (consume_good (key n) next (o :: offers) (amount n)) as (a & m & Ec & Hm); [done|done|lia|].
      rewrite Ec. outcome_simpl.
      set (n1 := MkNode (trail n) next a m).
      assert (∀ n', key n' = next → step n n' → n' = n1) as Huniq.
      { intros [h k a' m'] Hk (offers' & Hoff & _ & Hc & Hh & _). cbn in *. subst k h.
        rewrite Hnext in Hoff. injection Hoff as <-. rewrite Ec in Hc. by injection Hc as -> ->. }
      assert (∀ p, (∃ n', key n' = next ∧ step n n' ∧ found n' p) ↔ enterable n1 ∧ found n1 p) as Hiff.
      { intros p. split.
        - intros (n' & Hk & Hs & Hp). rewrite <- (Huniq n' Hk Hs). by destruct Hs as (? & ? & ? & ? & ? & ?).
        - intros [He Hp]. exists n1. split; [done|]. split; [|done]. by exists (o :: offers). }
      destruct (Z.leb_spec m 0).
      - exists []. rewrite app_nil_r. split; [done|]. intros p. rewrite Hiff.
        split; [by intros ?%not_elem_of_nil|]. intros [[? _] _]. cbn in *. lia.
      - destruct (IH n1 ps) as (new & En & Hnew); [done|lia| |].
        { unfold n1, trail. cbn [hist]. rewrite length_app. cbn [length]. lia. }
        exists new. split; [exact En|]. intros p. by rewrite Hnew, Hiff. }
    cbn [outcome_bind]. destruct (IHl (ps ++ new1)) as (new2 & -> & H2); [intros; apply Hl; by right|].
    exists (new1 ++ new2). split; [by rewrite app_assoc|]. intros p. rewrite elem_of_app, H1, H2.
    rewrite fmap_cons. setoid_rewrite elem_of_cons. cbn [fst]. naive_solver. }
  destruct (Hloop (iterate (edges state (key n))) (paths ++ own)) as (new & -> & Hnew).
  { intros kv. by rewrite iterate_perm. }
  exists (own ++ new). split; [by rewrite app_assoc|]. intros p.
  rewrite elem_of_app, Hnew, found_unfold.
  assert (p ∈ own ↔ isTerminalNode state (key n) (amount n) = true ∧
    p = path_of state (trail n).*2 (key n) (amount n)) as ->.
  { unfold own. case_match; [rewrite list_elem_of_singleton; tauto|].
    split; [by intros ?%not_elem_of_nil|by intros [? _]]. }
  assert ((∃ n', key n' ∈ (iterate (edges state (key n))).*1 ∧ step n n' ∧ found n' p) ↔
    ∃ n', step n n' ∧ found n' p) as ->; [|tauto].
  split; [naive_solver|]. intros (n' & Hs & Hp). exists n'. split; [|done].
  destruct Hs as (offers & Hoff & _). apply list_elem_of_fmap. exists (key n', offers).
  split; [done|]. rewrite iterate_perm. by apply elem_of_map_to_list.
Qed.
End dfs_spec.

(** ** Walks over the book *)

(** A walk: the assets before the current one, and the current one with its
    amount.  [first] is the asset the current one is matched with, [second] the
    one an offer leads to. *)
Record walk := MkWalk { before : list Asset; current : Asset; held : Z }.

Definition node_of (w : walk) : node :=
  MkNode ((λ a, (asset_string a, a)) <$> before w) (asset_string (current w)) (current w) (held w).
Definition wf_walk (w : walk) : Prop := Forall wf_asset (before w) ∧ wf_asset (current w).

Definition hop (first second : OfferEntry → Asset) (consume : list OfferEntry → Z → outcome orderbook_error Z)
    (maxPathLength : Z) (l : list OfferEntry) (w w' : walk) : Prop :=
  let offers := price_time (offers_between first second (current w) (current w') l) in
  offers ≠ [] ∧ consume offers (held w) = Ret (held w') ∧
  before w' = before w ++ [current w] ∧
  0 < held w' ∧ (current w' ∉ before w') ∧ Z.of_nat (length (before w')) ≤ maxPathLength.

Lemma node_of_trail w : trail (node_of w) = (λ a, (asset_string a, a)) <$> (before w ++ [current w]).
Proof. unfold trail. simpl. by rewrite fmap_app. Qed.

Lemma asset_string_elem a l :
  wf_asset a → Forall wf_asset l → asset_string a ∈ asset_string <$> l ↔ a ∈ l.
Proof.
  intros Ha Hl. split; [|apply list_elem_of_fmap_2].
  intros (b & E & Hb)%list_elem_of_fmap. rewrite Forall_forall in Hl.
  by rewrite (asset_string_inj a b Ha (Hl b Hb) E).
Qed.

Section walks.
Context (first second : OfferEntry → Asset) (consume : list OfferEntry → Z → outcome orderbook_error Z).
Context (l : list OfferEntry) (E : gmap gostring edgeSet) (maxPathLength : Z).
Context (Hlevels : levels (λ o, asset_string (first o)) (λ o, asset_string (second o)) l E).
Context (Hwf : Forall (λ o, wf_asset (first o) ∧ wf_asset (second o)) l).
Context (Hok : Forall offer_ok l).
Context (consume_ok : ∀ offers amt, Forall offer_ok offers → offers ≠ [] → 0 < amt ≤ MaxInt64 →
  ∃ r, consume offers amt = Ret r ∧ r ≤ MaxInt64).
Context `{SearchState T} (state : T).
Context (Hedges : ∀ k, edges state k = default ∅ (E !! k)).
Context (Hconsume : ∀ amt offers, consumeOffers state amt offers =
  nextAmount ← consume offers amt;
  match offers with [] => Panic | o :: _ => Ret (second o, nextAmount) end).

Lemma edges_offers k1 k2 offers :
  edges state k1 !! k2 = Some offers →
  offers = price_time (pair_offers (λ o, asset_string (first o)) (λ o, asset_string (second o)) k1 k2 l)
  ∧ Forall offer_ok offers.
Proof using Hlevels Hok Hedges.
  rewrite Hedges. intros Ho. rewrite <- (levels_at _ _ _ _ Hlevels), offers_at_set, Ho.
  split; [done|]. assert (offers = offers_at E k1 k2) as -> by by rewrite offers_at_set, Ho.
  rewrite (levels_at _ _ _ _ Hlevels), price_time_perm. by apply Forall_filter_2.
Qed.

Lemma walk_consume_good k1 k2 offers amt :
  edges state k1 !! k2 = Some offers → offers ≠ [] → 0 < amt ≤ MaxInt64 →
  ∃ a n, consumeOffers state amt offers = Ret (a, n) ∧ n ≤ MaxInt64.
Proof using Hlevels Hok Hedges Hconsume consume_ok.
  intros Ho Hne Hamt. destruct (edges_offers _ _ _ Ho) as [_ Hoffers].
  destruct (consume_ok offers amt Hoffers Hne Hamt) as (r & Hr & Hr').
  rewrite Hconsume, Hr. outcome_simpl. destruct offers as [|o offers]; [done|]. by eexists _, _.
Qed.

Lemma between_elem a b o : o ∈ price_time (offers_between first second a b l) ↔ o ∈ l ∧ first o = a ∧ second o = b.
Proof. rewrite price_time_perm. unfold offers_between. rewrite list_elem_of_filter. tauto. Qed.

Lemma step_hop w n' :
  wf_walk w →
  step state maxPathLength (node_of w) n' ↔
    ∃ w', n' = node_of w' ∧ wf_walk w' ∧ hop first second consume maxPathLength l w w'.
Proof using Hlevels Hwf Hok Hedges Hconsume.
  intros [Hwb Hwc]. split.
  - intros (offers & Ho & Hne & Hc & Hh & (Hpos & Hnew & Hlen)). cbn [key amount node_of] in *.
    destruct (edges_offers _ _ _ Ho) as [Eo _].
    rewrite Hconsume in Hc. destruct offers as [|o offers]; [done|].
    assert (o ∈ l ∧ asset_string (first o) = asset_string (current w) ∧
      asset_string (second o) = key n') as (Hol & Hof & Hos).
    { assert (o ∈ o :: offers) as Hin by by left. rewrite Eo, price_time_perm in Hin.
      by apply list_elem_of_filter in Hin as [[? ?] ?]. }
    rewrite Forall_forall in Hwf. destruct (Hwf o Hol) as [Hwf1 Hwf2].
    apply asset_string_inj in Hof; [|done..].
    destruct (consume (o :: offers) (held w)) as [r| |] eqn:Er; [|done..].
    outcome_simpl. injection Hc as Ha Hr.
    exists (MkWalk (before w ++ [current w]) (second o) r).
    destruct n' as [h k a m]. cbn [hist key asset amount] in *. subst h k a m.
    rewrite node_of_trail in *. split; [done|]. split.
    { split; [|done]. apply Forall_app. by repeat constructor. }
    unfold hop. cbn [before current held].
    assert (price_time (offers_between first second (current w) (second o) l) = o :: offers) as ->.
    { rewrite Eo, <- pair_offers_between; [done|by apply Forall_forall|done..]. }
    split_and!; try done.
    + rewrite <- list_fmap_compose in Hnew. unfold compose in Hnew. cbn [fst] in Hnew.
      rewrite asset_string_elem in Hnew; [done|done|]. apply Forall_app. by repeat constructor.
    + by rewrite length_fmap in Hlen.
  - intros (w' & -> & [Hwb' Hwc'] & (Hne & Hc & Hb & Hpos & Hnew & Hlen)).
    set (offers := price_time (offers_between first second (current w) (current w') l)) in *.
    assert (offers = price_time (pair_offers (λ o, asset_string (first o)) (λ o, asset_string (second o))
      (asset_string (current w)) (asset_string (current w')) l)) as Eo.
    { by rewrite pair_offers_between. }
    exists offers. split_and!; try done.
    + cbn [key node_of]. rewrite <- (levels_at _ _ _ _ Hlevels), offers_at_set, <- Hedges in Eo.
      destruct (edges state _ !! _) as [x|]; [by rewrite Eo|]. by simpl in Eo.
    + rewrite Hconsume. cbn [amount node_of]. rewrite Hc. outcome_simpl.
      destruct offers as [|o offers'] eqn:Eoff; [done|].
      assert (o ∈ offers) as Hin by (rewrite Eoff; by left).
      unfold offers in Hin. apply between_elem in Hin as (_ & _ & ->). done.
    + rewrite node_of_trail, <- Hb. done.
    + unfold enterable. cbn [key hist amount node_of]. rewrite length_fmap.
      rewrite <- list_fmap_compose. unfold compose. cbn [fst]. by rewrite asset_string_elem.
Qed.

Lemma steps_hops w n' :
  wf_walk w →
  rtc (step state maxPathLength) (node_of w) n' ↔
    ∃ w', n' = node_of w' ∧ wf_walk w' ∧ rtc (hop first second consume maxPathLength l) w w'.
Proof using Hlevels Hwf Hok Hedges Hconsume.
  intros Hw. split.
  - intros Hr. remember (node_of w) as n eqn:En. revert w En Hw.
    induction Hr as [n|n n1 n2 Hs Hr IH]; intros w -> Hw; [by exists w|].
    apply step_hop in Hs as (w1 & -> & Hw1 & Hh); [|done].
    destruct (IH w1 eq_refl Hw1) as (w' & -> & Hw' & Hr'). exists w'.
    split_and!; [done..|]. by eapply rtc_l.
  - intros (w' & -> & Hw' & Hr). revert Hw. induction Hr as [w|w w1 w2 Hh Hr IH]; intros Hw; [done|].
    assert (wf_walk w1) as Hw1.
    { destruct Hh as (Hne & _ & Hb & _). destruct Hw as [? ?]. split.
      - rewrite Hb. apply Forall_app. by repeat constructor.
      - destruct (price_time (offers_between first second (current w) (current w1) l)) as [|o os] eqn:Eo; [done|].
        assert (o ∈ o :: os) as Hin by by left. rewrite <- Eo in Hin.
        apply between_elem in Hin as (Hol & _ & <-). rewrite Forall_forall in Hwf. by apply Hwf. }
    eapply rtc_l; [|by apply IH]. apply step_hop; [done|]. by exists w1.
Qed.

(** The search from an asset finds the paths of all walks that end in a
    terminal asset, and nothing else; it does not fail. *)
Lemma dfs_walks iterate start amt :
  (∀ e, iterate e ≡ₚ map_to_list e) → wf_asset start → amt ≤ MaxInt64 →
  ∃ paths, dfs iterate state maxPathLength (dfs_fuel maxPathLength) ∅ [] (asset_string start) start amt [] = Ret paths ∧
    ∀ p, p ∈ paths ↔ 0 < amt ∧ 0 ≤ maxPathLength ∧
      ∃ w, rtc (hop first second consume maxPathLength l) (MkWalk [] start amt) w ∧ wf_walk w ∧
        isTerminalNode state (asset_string (current w)) (held w) = true ∧
        p = path_of state (before w ++ [current w]) (asset_string (current w)) (held w).
Proof using Hlevels Hwf Hok Hedges Hconsume consume_ok.
  intros Hit Hs Hamt.
  destruct (dfs_spec iterate Hit state maxPathLength walk_consume_good (dfs_fuel maxPathLength)
    (node_of (MkWalk [] start amt)) []) as (new & Hd & Hnew).
  { done. } { unfold dfs_fuel. lia. } { unfold dfs_fuel. lia. }
  exists new. split; [exact Hd|]. intros p. rewrite Hnew. unfold enterable, found. cbn [node_of hist key amount].
  assert (wf_walk (MkWalk [] start amt)) as Hw by done.
  setoid_rewrite (steps_hops _ _ Hw). split.
  - intros [(? & _ & Hl) (n' & (w & -> & Hww & Hr) & Ht & Hp)]. split; [done|]. split; [done|].
    exists w. split_and!; try done.
    rewrite node_of_trail in Hp. rewrite <- list_fmap_compose in Hp. unfold compose in Hp. cbn [snd] in Hp.
    by rewrite list_fmap_id in Hp.
  - intros (Hpos & Hl & w & Hr & Hww & Ht & Hp). split.
    { split_and!; [done|by apply not_elem_of_nil|done]. }
    exists (node_of w). split; [by exists w|]. split; [done|].
    rewrite node_of_trail, <- list_fmap_compose. unfold compose. cbn [snd]. by rewrite list_fmap_id.
Qed.
End walks.

(** ** Sorting and filtering *)

Section filter_loop.
Context (f : Path → Asset) (assetsEqual : Path → Path → bool) (k : Z).
Context (Heq : ∀ p q, assetsEqual p q = bool_decide (f p = f q)).

(** Paths of one asset are contiguous. *)
Fixpoint grouped (l : list Path) : Prop :=
  match l with
  | [] => True
  | x :: l' => grouped l' ∧ match l' with [] => True | y :: _ => f y = f x ∨ Forall (λ z, f z ≠ f x) l' end
  end.

Definition kept_per_asset : nat := Z.to_nat (Z.max 1 k).
Definition of_asset (a : Asset) : list Path → list Path := filter (λ p, f p = a).

Lemma of_asset_absent a l : Forall (λ z, f z ≠ a) l → of_asset a l = [].
Proof.
  unfold of_asset. induction 1 as [|x l Hx Hl IH]; [done|]. by rewrite filter_cons_False.
Qed.

Lemma filter_loop_sublist last c l : sublist (filter_loop assetsEqual k last c l) l.
Proof.
  revert last c. induction l as [|x l IH]; intros last c; cbn [filter_loop]; [constructor|].
  repeat case_match; by constructor.
Qed.

Lemma filter_loop_take p c l a :
  grouped (p :: l) → 1 ≤ c ≤ Z.max 1 k →
  of_asset a (filter_loop assetsEqual k (Some p) c l) =
    take (if decide (a = f p) then kept_per_asset - Z.to_nat c else kept_per_asset) (of_asset a l).
Proof using Heq.
  revert p c. induction l as [|y l IH]; intros p c Hg Hc; [by cbn; rewrite take_nil|].
  destruct Hg as [Hgl Hgp]. cbn [filter_loop]. rewrite Heq.
  destruct (decide (f p = f y)) as [Epy|Epy].
  - rewrite bool_decide_eq_true_2 by done. cbn [negb].
    assert (grouped (p :: l)) as Hgpl.
    { destruct Hgl as [H1 H2]. split; [done|]. destruct l as [|z l]; [done|]. by rewrite Epy. }
    destruct (Z.ltb_spec c k) as [Hck|Hck].
    + unfold of_asset at 1 2. rewrite !filter_cons. fold (of_asset a).
      rewrite (IH y (c + 1)) by (done || lia). rewrite <- Epy.
      destruct (decide (f p = a)) as [<-|Ha]; [|by rewrite !decide_False by done].
      rewrite !decide_True by done.
      replace (kept_per_asset - Z.to_nat c)%nat with (S (kept_per_asset - Z.to_nat (c + 1)))%nat
        by (unfold kept_per_asset; lia). done.
    + rewrite (IH p c) by done. unfold of_asset at 2. rewrite filter_cons. fold (of_asset a).
      destruct (decide (a = f p)) as [->|Ha]; [|by rewrite decide_False by congruence].
      replace (kept_per_asset - Z.to_nat c)%nat with 0%nat by (unfold kept_per_asset; lia). done.
  - rewrite bool_decide_eq_false_2 by done. cbn [negb].
    unfold of_asset at 1 2. rewrite !filter_cons. fold (of_asset a).
    rewrite (IH y 1) by (done || lia).
    destruct Hgp as [?|Hgp]; [congruence|].
    destruct (decide (f y = a)) as [<-|Ha].
    + rewrite decide_True, decide_False by congruence.
      replace kept_per_asset with (S (kept_per_asset - Z.to_nat 1))%nat at 2
        by (unfold kept_per_asset; lia). done.
    + rewrite decide_False by congruence. destruct (decide (a = f p)) as [->|]; [|done].
      rewrite of_asset_absent by by apply Forall_cons in Hgp as [_ ?]. by rewrite !take_nil.
Qed.

Lemma filter_loop_spec l a :
  grouped l → of_asset a (filter_loop assetsEqual k None 0 l) = take kept_per_asset (of_asset a l).
Proof using Heq.
  destruct l as [|x l]; intros Hg; [by cbn; rewrite take_nil|]. cbn [filter_loop].
  unfold of_asset at 1 2. rewrite !filter_cons. fold (of_asset a).
  rewrite filter_loop_take by (done || lia). destruct (decide (f x = a)) as [<-|Ha].
  - rewrite decide_True by done.
    replace kept_per_asset with (S (kept_per_asset - Z.to_nat 1))%nat at 2
      by (unfold kept_per_asset; lia). done.
  - by rewrite decide_False by congruence.
Qed.
End filter_loop.

(** Both comparisons order paths by the asset's string, then the amount, then
    the length. *)
Definition path_less (dir : Z → Z → bool) (k1 k2 : gostring * Z * nat) : bool :=
  let '(s1, a1, n1) := k1 in let '(s2, a2, n2) := k2 in
  if bool_decide (s1 = s2) then (if a1 =? a2 then (n1 <? n2)%nat else dir a1 a2) else str_ltb s1 s2.

Lemma path_less_asym dir k1 k2 :
  (∀ x y, dir x y = true → dir y x = false) →
  path_less dir k1 k2 = true → path_less dir k2 k1 = false.
Proof.
  intros Hd. destruct k1 as [[s1 a1] n1], k2 as [[s2 a2] n2]. simpl.
  destruct (decide (s1 = s2)) as [E|E].
  - subst s2. rewrite !bool_decide_eq_true_2 by done. rewrite (Z.eqb_sym a2 a1).
    destruct (Z.eqb_spec a1 a2); [|apply Hd]. rewrite Nat.ltb_lt, Nat.ltb_ge. lia.
  - rewrite !bool_decide_eq_false_2 by congruence. intros L.
    destruct (str_ltb s2 s1) eqn:L'; [|done].
    pose proof (str_ltb_trans _ _ _ L L') as L''. by rewrite str_ltb_irrefl in L''.
Qed.

Lemma path_less_trans dir k1 k2 k3 :
  (∀ x y z, dir y x = false → dir z y = false → dir z x = false) →
  (∀ x y, dir x y = false → dir y x = false → x = y) →
  path_less dir k2 k1 = false → path_less dir k3 k2 = false → path_less dir k3 k1 = false.
Proof.
  intros Hd Ha. destruct k1 as [[s1 a1] n1], k2 as [[s2 a2] n2], k3 as [[s3 a3] n3]. simpl.
  destruct (decide (s2 = s1)) as [E12|H12], (decide (s3 = s2)) as [E23|H23].
  - subst s2 s3. rewrite !bool_decide_eq_true_2 by done.
    destruct (Z.eqb_spec a2 a1) as [F12|F12], (Z.eqb_spec a3 a2) as [F23|F23],
      (Z.eqb_spec a3 a1) as [F13|F13]; rewrite ?Nat.ltb_ge; try lia; intros H1 H2.
    + by subst a2.
    + by subst a3.
    + subst a3. exfalso. by apply F12, Ha.
    + by apply (Hd _ a2).
  - subst s2. by rewrite bool_decide_eq_true_2, !bool_decide_eq_false_2 by done.
  - subst s3. by rewrite (bool_decide_eq_true_2 (s2 = s2)), !bool_decide_eq_false_2 by done.
  - rewrite !(bool_decide_eq_false_2 (s2 = s1)), !(bool_decide_eq_false_2 (s3 = s2)) by done.
    intros H1 H2. assert (str_ltb s1 s2 = true) as L1.
    { destruct (str_ltb s1 s2) eqn:E; [done|]. exfalso. apply H12. by apply str_ltb_antisym. }
    assert (str_ltb s2 s3 = true) as L2.
    { destruct (str_ltb s2 s3) eqn:E; [done|]. exfalso. apply H23. by apply str_ltb_antisym. }
    pose proof (str_ltb_trans _ _ _ L1 L2) as L3. rewrite bool_decide_eq_false_2.
    + destruct (str_ltb s3 s1) eqn:E; [|done].
      pose proof (str_ltb_trans _ _ _ L3 E) as L. by rewrite str_ltb_irrefl in L.
    + intros ->. by rewrite str_ltb_irrefl in L3.
Qed.

Definition source_path_ok (p : Path) : Prop :=
  wf_asset (SourceAsset p) ∧ SourceAssetString p = asset_string (SourceAsset p).
Definition destination_path_ok (p : Path) : Prop :=
  wf_asset (DestinationAsset p) ∧ DestinationAssetString p = asset_string (DestinationAsset p).
Definition source_key (p : Path) : gostring * Z * nat :=
  (asset_string (SourceAsset p), SourceAmount p, length (InteriorNodes p)).
Definition destination_key (p : Path) : gostring * Z * nat :=
  (asset_string (DestinationAsset p), DestinationAmount p, length (InteriorNodes p)).

Lemma Asset_Equals_string a b :
  wf_asset a → wf_asset b → Asset_Equals a b = bool_decide (asset_string a = asset_string b).
Proof.
  intros Ha Hb. rewrite Asset_Equals_eq. apply bool_decide_ext. split; [by intros ->|].
  by apply asset_string_inj.
Qed.

Lemma compareSourceAsset_key p q :
  source_path_ok p → source_path_ok q →
  compareSourceAsset p q = path_less Z.ltb (source_key p) (source_key q).
Proof.
  intros [Hp Ep] [Hq Eq]. unfold compareSourceAsset. rewrite Ep, Eq, Asset_Equals_string by done. done.
Qed.

Lemma compareDestinationAsset_key p q :
  destination_path_ok p → destination_path_ok q →
  compareDestinationAsset p q = path_less (λ x y, y <? x) (destination_key p) (destination_key q).
Proof.
  intros [Hp Ep] [Hq Eq]. unfold compareDestinationAsset. rewrite Ep, Eq, Asset_Equals_string by done. done.
Qed.

Section sort_and_filter.
Context (sort_slice : (Path → Path → bool) → list Path → list Path) (Hsort : sorts sort_slice).
Context (f : Path → Asset) (assetsEqual : Path → Path → bool) (k : Z).
Context (Heq : ∀ p q, assetsEqual p q = bool_decide (f p = f q)).
Context (less : Path → Path → bool) (dir : Z → Z → bool) (pkey : Path → gostring * Z * nat).
Context (Hd : ∀ x y z, dir y x = false → dir z y = false → dir z x = false).
Context (Ha : ∀ x y, dir x y = false → dir y x = false → x = y).
Context (Hasym : ∀ x y, dir x y = true → dir y x = false).
Context (Hkey : ∀ p, (pkey p).1.1 = asset_string (f p)).

Lemma sorted_grouped l :
  Forall (λ p, wf_asset (f p)) l →
  StronglySorted (λ x y, path_less dir (pkey y) (pkey x) = false) l → grouped f l.
Proof using Hkey.
  intros Hw Hs. induction Hs as [|x l Hs IH Hx]; [done|]. apply Forall_cons in Hw as [Hwx Hw].
  split; [by apply IH|]. destruct l as [|y l]; [done|].
  destruct (decide (f y = f x)) as [|Hne]; [by left|right].
  assert (∀ p q, path_less dir (pkey q) (pkey p) = false → wf_asset (f p) → wf_asset (f q) → f q ≠ f p →
    str_ltb (asset_string (f p)) (asset_string (f q)) = true) as Hlt.
  { intros p q H Hp Hq Hpq. pose proof (Hkey p) as E1. pose proof (Hkey q) as E2.
    destruct (pkey p) as [[s1 a1] n1], (pkey q) as [[s2 a2] n2]. simpl in *. subst.
    rewrite bool_decide_eq_false_2 in H by by intros ?%asset_string_inj.
    destruct (str_ltb (asset_string (f p)) (asset_string (f q))) eqn:E; [done|].
    exfalso. by apply Hpq, asset_string_inj, str_ltb_antisym. }
  apply Forall_cons in Hx as [Hxy Hx]. apply Forall_cons in Hw as [Hwy Hw].
  pose proof (Hlt x y Hxy Hwx Hwy Hne) as L1. apply Forall_cons. split; [done|].
  apply StronglySorted_inv in Hs as [_ Hy]. rewrite Forall_forall in Hy, Hw |- *. intros z Hz Ez.
  destruct (decide (f z = f y)) as [Ezy|Hzy]; [congruence|].
  pose proof (Hlt y z (Hy z Hz) Hwy (Hw z Hz) Hzy) as L2. rewrite Ez in L2.
  pose proof (str_ltb_trans _ _ _ L1 L2) as L3. by rewrite str_ltb_irrefl in L3.
Qed.

Lemma sort_filter_spec l :
  Forall (λ p, wf_asset (f p)) l →
  (∀ p q, p ∈ l → q ∈ l → less p q = path_less dir (pkey p) (pkey q)) →
  let sorted := sort_slice less l in
  sorted ≡ₚ l ∧ StronglySorted (λ x y, less y x = false) sorted ∧
  sublist (filter_loop assetsEqual k None 0 sorted) sorted ∧
  ∀ a, of_asset f a (filter_loop assetsEqual k None 0 sorted) =
       take (kept_per_asset k) (of_asset f a sorted).
Proof using Hsort Heq Hd Ha Hasym Hkey.
  intros Hw Hl. destruct (Hsort less l) as [Hp Hs]. cbv zeta.
  assert (StronglySorted (λ x y, less y x = false) (sort_slice less l)) as Hss.
  { apply Hs; [intros x y Hx Hy; rewrite !Hl by done; by apply path_less_asym|].
    intros x y z Hx Hy Hz. rewrite !Hl by done. by apply path_less_trans. }
  split; [done|]. split; [done|]. split; [apply filter_loop_sublist|].
  intros a. apply filter_loop_spec; [done|]. apply sorted_grouped; [by rewrite Hp|].
  assert (∀ x, x ∈ sort_slice less l → x ∈ l) as Hin by (intros x; by rewrite Hp).
  revert Hin Hss. generalize (sort_slice less l) as sl. induction sl as [|x sl IH]; intros Hin Hss; [constructor|].
  apply StronglySorted_inv in Hss as [Hss Hx]. constructor; [apply IH; [intros; apply Hin; by right|done]|].
  rewrite Forall_forall in Hx |- *. intros y Hy. rewrite <- Hl; [by apply Hx|apply Hin; by right|apply Hin; by left].
Qed.
End sort_and_filter.

(** ** Properties *)

(** *** What a successful consumption exchanges *)

Record fill := MkFill { f_offer : OfferEntry; f_sold : Z; f_bought : Z }.

Definition fill_ok (x : fill) : Prop :=
  let n := N (OfferPrice (f_offer x)) in let d := D (OfferPrice (f_offer x)) in
  0 ≤ f_sold x ≤ Amount (f_offer x) ∧ f_sold x * n ≤ f_bought x * d < f_sold x * n + d.
(** Nothing of value is left of the offer. *)
Definition exhausted (x : fill) : Prop :=
  let n := N (OfferPrice (f_offer x)) in let d := D (OfferPrice (f_offer x)) in
  mul_div_down (f_sold x) n d = mul_div_down (Amount (f_offer x)) n d.
Definition sum (l : list Z) : Z := foldr Z.add 0 l.
Definition not_from (ignore : option AccountId) : list OfferEntry → list OfferEntry :=
  filter (λ o, ignore ≠ Some (SellerId o)).

Lemma ignored_spec ignore o :
  match ignore with Some a => AccountId_Equals a (SellerId o) | None => false end =
  bool_decide (ignore = Some (SellerId o)).
Proof.
  destruct ignore as [[a]|]; [|done]. destruct (SellerId o) as [b]. unfold AccountId_Equals. simpl.
  apply bool_decide_ext. naive_solver.
Qed.

Lemma consumeSelling_loop_fills ignore offers total amt r :
  Forall offer_ok offers → 0 < amt ≤ MaxInt64 → is_i64 total →
  consumeSelling_loop ignore offers total amt = Ret r →
  r = -1 ∨ ∃ fills last,
    (f_offer <$> fills ++ [last]) `prefix_of` not_from ignore offers ∧
    Forall fill_ok (fills ++ [last]) ∧ Forall exhausted fills ∧
    sum (f_sold <$> fills ++ [last]) = amt ∧ r = i64 (total + sum (f_bought <$> fills ++ [last])).
Proof.
  intros Hok. revert total amt. induction Hok as [|o offers Ho Hok IH]; intros total amt Hamt Htot;
    cbn [consumeSelling_loop]; [intros [= <-]; by left|].
  rewrite ignored_spec. unfold not_from. case_bool_decide as Hig.
  { rewrite filter_cons_False by naive_solver. by apply IH. }
  rewrite filter_cons_True by done. fold (not_from ignore).
  destruct Ho as (Hp & _ & _ & Ha). destruct (price_ok_64 _ Hp) as [Hn Hd].
  pose proof (ConvertToBuyingUnits_bounds (Amount o) amt _ _ Ha ltac:(unfold amount_ok; lia) Hn Hd) as Hc.
  destruct (ConvertToBuyingUnits _ _ _ _) as [[buy sold]|e|]; [|subst e; intros [= <-]; by left|done].
  destruct Hc as (Hs & Hb & Hbuy & Hex). unfold amount_ok in Ha, Hbuy.
  rewrite (i64_small (amt - sold)) by (unfold is_i64, MaxInt64 in *; lia).
  set (x := MkFill o sold buy).
  assert (fill_ok x) as Hx by (unfold fill_ok, x; simpl; lia).
  destruct (Z.eqb_spec (amt - sold) 0) as [E|E].
  - intros [= <-]. right. exists [], x. split_and!.
    + by apply prefix_cons, prefix_nil.
    + by apply Forall_cons.
    + constructor.
    + simpl. lia.
    + f_equal. simpl. lia.
  - rewrite (proj2 (Z.ltb_ge (amt - sold) 0)) by lia. intros Hr.
    apply IH in Hr as [->|(fills & last & H1 & H2 & H3 & H4 & H5)]; [by left| |lia|apply i64_range].
    right. exists (x :: fills), last. split_and!.
    + cbn. by apply prefix_cons.
    + by constructor.
    + constructor; [|done]. unfold exhausted, x. simpl. apply Hex. lia.
    + cbn [app fmap list_fmap sum foldr x f_sold] in *. unfold sum in *. simpl in *. lia.
    + rewrite H5. cbn [app fmap list_fmap f_bought x]. unfold sum. cbn [foldr].
      unfold i64, wrap_s. f_equal. Z.div_mod_to_equations. lia.
Qed.

(** for valid offers and a positive amount the search of the selling side
    never fails; a result other than -1 is the total price of a prefix of the
    offers not made by the ignored account, of which all but the last are
    exhausted, which together sell exactly the amount, each paid at its price
    rounded up.  The total is reduced to 64 bits. *)
Theorem consumeOffersForSellingAsset_spec offers ignore amt :
  Forall offer_ok offers → offers ≠ [] → 0 < amt ≤ MaxInt64 →
  ∃ r, consumeOffersForSellingAsset offers ignore amt = Ret r ∧
    (r = -1 ∨ ∃ fills last,
      (f_offer <$> fills ++ [last]) `prefix_of` not_from ignore offers ∧
      Forall fill_ok (fills ++ [last]) ∧ Forall exhausted fills ∧
      sum (f_sold <$> fills ++ [last]) = amt ∧ r = i64 (sum (f_bought <$> fills ++ [last]))).
Proof.
  intros Hok Hne Hamt. destruct (consumeSelling_loop_ok ignore offers 0 amt Hok Hamt) as (r & Hr & _).
  exists r. split.
  - unfold consumeOffersForSellingAsset. destruct offers; [done|].
    by rewrite (proj2 (Z.eqb_neq amt 0)) by lia.
  - by apply (consumeSelling_loop_fills ignore offers 0 amt).
Qed.

Theorem consumeOffersForSellingAsset_spec_witness :
  ∃ r, consumeOffersForSellingAsset [offer_example 1 2 1; offer_example 2 5 2] None 150 = Ret r ∧
    (r = -1 ∨ ∃ fills last,
      (f_offer <$> fills ++ [last]) `prefix_of` not_from None [offer_example 1 2 1; offer_example 2 5 2] ∧
      Forall fill_ok (fills ++ [last]) ∧ Forall exhausted fills ∧
      sum (f_sold <$> fills ++ [last]) = 150 ∧ r = i64 (sum (f_bought <$> fills ++ [last]))).
Proof.
  apply consumeOffersForSellingAsset_spec; [|done|unfold MaxInt64; lia].
  repeat (apply List.Forall_cons; [apply offer_example_ok; unfold price_ok, MaxInt32; simpl; lia|]).
  apply List.Forall_nil.
Defined.

(** The running total wraps around: three offers that together cost more than
    2^64 are reported as a small positive price. *)
Example consumeOffers_total_wraps :
  let o id := MkOffer (MkAccountId []) id AssetTypeNative AssetTypeNative 8589934591 (MkPrice 1073741824 1) 0 in
  consumeOffersForSellingAsset [o 1; o 2; o 3] None (3 * 8589934591) = Ret (3 * 9223372035781033984 - 2 ^ 64).
Proof. by vm_compute. Qed.

(** *** The searches *)

(** The balance of a source asset: the last one listed. *)
Fixpoint last_balance (a : Asset) (assets : list Asset) (balances : list Z) : option Z :=
  match assets, balances with
  | x :: assets', b :: balances' =>
      match last_balance a assets' balances' with
      | Some c => Some c
      | None => if decide (x = a) then Some b else None
      end
  | _, _ => None
  end.

Lemma balances_map_spec assets balances m :
  Forall wf_asset assets → (length assets ≤ length balances)%nat →
  ∃ m', balances_map assets balances m = Ret m' ∧
    ∀ a, wf_asset a → m' !! asset_string a =
      match last_balance a assets balances with Some b => Some b | None => m !! asset_string a end.
Proof.
  intros Hw. revert balances m. induction Hw as [|x assets Hx Hw IH]; intros [|b balances] m Hl;
    simpl in Hl; try lia; cbn [balances_map last_balance]; try by exists m.
  destruct (IH balances (<[asset_string x := b]> m)) as (m' & -> & Hm'); [lia|].
  exists m'. split; [done|]. intros a Ha. rewrite Hm' by done.
  destruct (last_balance a assets balances); [done|]. destruct (decide (x = a)) as [->|Hne].
  - by rewrite lookup_insert_eq.
  - rewrite lookup_insert_ne; [done|]. by intros ?%asset_string_inj.
Qed.

Lemma offers_wf l : Forall offer_ok l → Forall (λ o, wf_asset (Selling o) ∧ wf_asset (Buying o)) l.
Proof. intros Hl. eapply Forall_impl; [done|]. by intros o (_ & ? & ? & _). Qed.
Lemma offers_wf' l : Forall offer_ok l → Forall (λ o, wf_asset (Buying o) ∧ wf_asset (Selling o)) l.
Proof. intros Hl. eapply Forall_impl; [done|]. by intros o (_ & ? & ? & _). Qed.

Lemma consumeSelling_ok ignore offers amt :
  Forall offer_ok offers → offers ≠ [] → 0 < amt ≤ MaxInt64 →
  ∃ r, consumeOffersForSellingAsset offers ignore amt = Ret r ∧ r ≤ MaxInt64.
Proof.
  intros Hok Hne Hamt. unfold consumeOffersForSellingAsset. destruct offers; [done|].
  rewrite (proj2 (Z.eqb_neq amt 0)) by lia. by apply consumeSelling_loop_ok.
Qed.
Lemma consumeBuying_ok offers amt :
  Forall offer_ok offers → offers ≠ [] → 0 < amt ≤ MaxInt64 →
  ∃ r, consumeOffersForBuyingAsset offers amt = Ret r ∧ r ≤ MaxInt64.
Proof.
  intros Hok Hne Hamt. unfold consumeOffersForBuyingAsset. destruct offers; [done|].
  rewrite (proj2 (Z.eqb_neq amt 0)) by lia. by apply consumeBuying_loop_ok.
Qed.

(** A walk of the book from the destination to a source, each step over the
    offers that sell the asset it is at, and the path it makes. *)
Definition selling_hop (ignore : option AccountId) : Z → list OfferEntry → walk → walk → Prop :=
  hop Selling Buying (λ offers amt, consumeOffersForSellingAsset offers ignore amt).
Definition buying_hop : Z → list OfferEntry → walk → walk → Prop :=
  hop Buying Selling consumeOffersForBuyingAsset.

(** C11: for a book of valid offers [FindPaths] never fails.  The paths it ranks
    are exactly those of the walks over the offers, from the destination
    asset and without repeating an asset or exceeding the length, that reach a
    source asset whose balance (when it is checked) covers the price. *)
Theorem FindPaths_spec iterate sort_slice calls b errs maxPathLength dest amt ignore sources balances
    validate k :
  (∀ e, iterate e ≡ₚ map_to_list e) → Forall call_ok calls → book_run calls = Some (b, errs) →
  wf_asset dest → amt ≤ MaxInt64 → Forall wf_asset sources → (length sources ≤ length balances)%nat →
  ∃ g all, graph_run calls = Ret (g, errs) ∧
    FindPaths iterate sort_slice g maxPathLength dest amt ignore sources balances validate k =
      Ret (sortAndFilterPaths sort_slice all k sortBySourceAsset, book_ledger b, None) ∧
    ∀ p, p ∈ all ↔ 0 < amt ∧ 0 ≤ maxPathLength ∧
      ∃ w balance, rtc (selling_hop ignore maxPathLength (book b)) (MkWalk [] dest amt) w ∧
        wf_walk w ∧ last_balance (current w) sources balances = Some balance ∧
        (validate = true → held w ≤ balance) ∧
        p = MkPath (held w) (current w) dest amt (asset_string (current w)) []
              (rev (interior (before w ++ [current w]))).
Proof.
  intros Hit Hc Hb Hdest Hamt Hsrc Hlen.
  pose proof (refines_run calls Hc) as H. rewrite Hb in H.
  destruct H as (g & Hg & [Hh Hl _ _]). exists g.
  destruct (balances_map_spec sources balances ∅ Hsrc Hlen) as (m & Hm & Hlook).
  unfold FindPaths. rewrite Hm. outcome_simpl.
  set (state := MkSelling g dest amt ignore m validate).
  assert (∀ k, edges state k = default ∅ (edgesForSellingAsset g !! k)) as He by done.
  assert (∀ amt offers, consumeOffers state amt offers =
    nextAmount ← consumeOffersForSellingAsset offers ignore amt;
    match offers with [] => Panic | o :: _ => Ret (Buying o, nextAmount) end) as Hco by done.
  pose proof (holds_ok g _ Hh) as Hok.
  destruct (dfs_walks Selling Buying (λ offers amt, consumeOffersForSellingAsset offers ignore amt)
    (book b) (edgesForSellingAsset g) maxPathLength (holds_selling g _ Hh) (offers_wf _ Hok) Hok
    (consumeSelling_ok ignore) state He Hco iterate dest amt Hit Hdest Hamt)
    as (paths & -> & Hpaths).
  exists paths. split; [done|]. rewrite Hl. split; [done|]. intros p. rewrite Hpaths.
  assert (∀ w, wf_walk w → isTerminalNode state (asset_string (current w)) (held w) = true ↔
    ∃ balance, last_balance (current w) sources balances = Some balance ∧
      (validate = true → held w ≤ balance)) as Hterm.
  { intros w [_ Hw]. cbn. rewrite Hlook, lookup_empty by done.
    destruct (last_balance (current w) sources balances) as [bal|]; [|naive_solver].
    destruct validate; simpl; [rewrite Z.leb_le|]; naive_solver. }
  assert (∀ w, path_of state (before w ++ [current w]) (asset_string (current w)) (held w) =
    MkPath (held w) (current w) dest amt (asset_string (current w)) []
      (rev (interior (before w ++ [current w])))) as Hpath.
  { intros w. cbn. unfold last_asset. by rewrite List.last_last. }
  split.
  - intros (? & ? & w & Hr & Hw & (bal & Hbal & Hv)%Hterm & Hp); [|done].
    split_and!; [done..|]. exists w, bal. rewrite <- Hpath. done.
  - intros (? & ? & w & bal & Hr & Hw & Hbal & Hv & Hp). split_and!; [done..|]. exists w.
    rewrite Hpath. split_and!; [done..| |done]. apply Hterm; [done|]. by exists bal.
Qed.

Theorem FindPaths_spec_witness :
  let usd := AssetTypeCreditAlphanum4 (str "USD" ++ [0]) (MkAccountId (replicate 32 2)) in
  let l := [offer_example 1 2 1; offer_example 2 1 1; offer_example 4 2 2] in
  ∃ g all, graph_run calls_example = Ret (g, [None; None; None; None; None; Some errUnexpectedLedger; None; None; None]) ∧
    FindPaths map_to_list sort_by g 3 AssetTypeNative 150 None [usd] [200] true 5 =
      Ret (sortAndFilterPaths sort_by all 5 sortBySourceAsset, 6, None) ∧
    ∀ p, p ∈ all ↔ 0 < 150 ∧ 0 ≤ 3 ∧
      ∃ w balance, rtc (selling_hop None 3 l) (MkWalk [] AssetTypeNative 150) w ∧
        wf_walk w ∧ last_balance (current w) [usd] [200] = Some balance ∧
        (true = true → held w ≤ balance) ∧
        p = MkPath (held w) (current w) AssetTypeNative 150 (asset_string (current w)) []
              (rev (interior (before w ++ [current w]))).
Proof.
  destruct (offer_example_ok 1 1 1 ltac:(unfold price_ok, MaxInt32; simpl; lia)) as (_ & _ & H2 & _).
  exact (FindPaths_spec map_to_list sort_by calls_example
    (MkBook [offer_example 1 2 1; offer_example 2 1 1; offer_example 4 2 2] 6 [] false)
    [None; None; None; None; None; Some errUnexpectedLedger; None; None; None] 3 AssetTypeNative 150 None
    _ [200] true 5 (λ e, Permutation_refl _) calls_example_ok eq_refl I ltac:(unfold MaxInt64; lia)
    ltac:(apply Forall_cons; split; [exact H2|constructor]) (le_n _)).
Defined.

(** C12: for a book of valid offers [FindFixedPaths] never fails.  The paths it
    ranks are exactly those of the walks over the offers that buy, from the
    source asset and without repeating an asset or exceeding the length, that
    reach a destination asset. *)
Theorem FindFixedPaths_spec iterate sort_slice calls b errs maxPathLength source amt destinations k :
  (∀ e, iterate e ≡ₚ map_to_list e) → sorts sort_slice →
  Forall call_ok calls → book_run calls = Some (b, errs) →
  wf_asset source → amt ≤ MaxInt64 → Forall wf_asset destinations →
  ∃ g all, graph_run calls = Ret (g, errs) ∧
    FindFixedPaths iterate sort_slice g maxPathLength source amt destinations k =
      Ret (sortAndFilterPaths sort_slice all k sortByDestinationAsset, book_ledger b, None) ∧
    ∀ p, p ∈ all ↔ 0 < amt ∧ 0 ≤ maxPathLength ∧
      ∃ w, rtc (buying_hop maxPathLength (book b)) (MkWalk [] source amt) w ∧
        wf_walk w ∧ current w ∈ destinations ∧
        p = MkPath amt source (current w) (held w) [] (asset_string (current w))
              (interior (before w ++ [current w])).
Proof.
  intros Hit Hsort Hc Hb Hsrc Hamt Hdest.
  pose proof (refines_run calls Hc) as H. rewrite Hb in H.
  destruct H as (g & Hg & [Hh Hl _ _]). exists g.
  unfold FindFixedPaths. set (state := MkBuying g source amt (list_to_set (asset_string <$> destinations))).
  assert (∀ k, edges state k = default ∅ (edgesForBuyingAsset g !! k)) as He by done.
  assert (∀ amt offers, consumeOffers state amt offers =
    nextAmount ← consumeOffersForBuyingAsset offers amt;
    match offers with [] => Panic | o :: _ => Ret (Selling o, nextAmount) end) as Hco by done.
  pose proof (holds_ok g _ Hh) as Hok.
  destruct (dfs_walks Buying Selling consumeOffersForBuyingAsset
    (book b) (edgesForBuyingAsset g) maxPathLength (holds_buying g _ Hh) (offers_wf' _ Hok) Hok
    consumeBuying_ok state He Hco iterate source amt Hit Hsrc Hamt)
    as (paths & -> & Hpaths).
  eexists. split; [done|]. rewrite Hl. split; [done|]. intros p.
  rewrite (proj1 (Hsort _ paths)), Hpaths.
  assert (∀ w, wf_walk w → isTerminalNode state (asset_string (current w)) (held w) = true ↔
    current w ∈ destinations) as Hterm.
  { intros w [_ Hw]. cbn. rewrite bool_decide_eq_true, elem_of_list_to_set. by apply asset_string_elem. }
  assert (∀ w, path_of state (before w ++ [current w]) (asset_string (current w)) (held w) =
    MkPath amt source (current w) (held w) [] (asset_string (current w))
      (interior (before w ++ [current w]))) as Hpath.
  { intros w. cbn. unfold last_asset. by rewrite List.last_last. }
  split.
  - intros (? & ? & w & Hr & Hw & Ht%Hterm & Hp); [|done]. split_and!; [done..|].
    exists w. by rewrite <- Hpath.
  - intros (? & ? & w & Hr & Hw & Ht & Hp). split_and!; [done..|]. exists w.
    rewrite Hpath. split_and!; [done..| |done]. by apply Hterm.
Qed.

Theorem FindFixedPaths_spec_witness :
  let usd := AssetTypeCreditAlphanum4 (str "USD" ++ [0]) (MkAccountId (replicate 32 2)) in
  let l := [offer_example 1 2 1; offer_example 2 1 1; offer_example 4 2 2] in
  ∃ g all, graph_run calls_example = Ret (g, [None; None; None; None; None; Some errUnexpectedLedger; None; None; None]) ∧
    FindFixedPaths map_to_list sort_by g 3 usd 150 [AssetTypeNative] 5 =
      Ret (sortAndFilterPaths sort_by all 5 sortByDestinationAsset, 6, None) ∧
    ∀ p, p ∈ all ↔ 0 < 150 ∧ 0 ≤ 3 ∧
      ∃ w, rtc (buying_hop 3 l) (MkWalk [] usd 150) w ∧
        wf_walk w ∧ current w ∈ [AssetTypeNative] ∧
        p = MkPath 150 usd (current w) (held w) [] (asset_string (current w))
              (interior (before w ++ [current w])).
Proof.
  destruct (offer_example_ok 1 1 1 ltac:(unfold price_ok, MaxInt32; simpl; lia)) as (_ & _ & H2 & _).
  exact (FindFixedPaths_spec map_to_list sort_by calls_example
    (MkBook [offer_example 1 2 1; offer_example 2 1 1; offer_example 4 2 2] 6 [] false)
    [None; None; None; None; None; Some errUnexpectedLedger; None; None; None] 3 _ 150 [AssetTypeNative]
    5 (λ e, Permutation_refl _) sort_by_sorts calls_example_ok eq_refl H2 ltac:(unfold MaxInt64; lia)
    ltac:(apply Forall_cons; split; [exact I|constructor])).
Defined.

(** on the paths the searches build, [sortAndFilterPaths] returns, for each
    source (or destination) asset, the best [maxPathsPerAsset] of its paths (at
    least one): the cheapest (or those delivering most), shorter ones first. *)
Theorem sortAndFilterPaths_spec sort_slice all k :
  sorts sort_slice →
  (Forall source_path_ok all →
   ∃ sorted, sorted ≡ₚ all ∧ StronglySorted (λ x y, compareSourceAsset y x = false) sorted ∧
     sublist (sortAndFilterPaths sort_slice all k sortBySourceAsset) sorted ∧
     ∀ a, of_asset SourceAsset a (sortAndFilterPaths sort_slice all k sortBySourceAsset) =
          take (kept_per_asset k) (of_asset SourceAsset a sorted)) ∧
  (Forall destination_path_ok all →
   ∃ sorted, sorted ≡ₚ all ∧ StronglySorted (λ x y, compareDestinationAsset y x = false) sorted ∧
     sublist (sortAndFilterPaths sort_slice all k sortByDestinationAsset) sorted ∧
     ∀ a, of_asset DestinationAsset a (sortAndFilterPaths sort_slice all k sortByDestinationAsset) =
          take (kept_per_asset k) (of_asset DestinationAsset a sorted)).
Proof.
  intros Hs. split; intros Hok; eexists.
  - apply (sort_filter_spec sort_slice Hs SourceAsset sourceAssetEquals k (λ p q, Asset_Equals_eq _ _)
      compareSourceAsset Z.ltb source_key); try (intros; lia); [done|eapply Forall_impl; [exact Hok|by intros ? [? _]]|].
    rewrite Forall_forall in Hok. intros p q Hp Hq. by apply compareSourceAsset_key; apply Hok.
  - apply (sort_filter_spec sort_slice Hs DestinationAsset destinationAssetEquals k
      (λ p q, Asset_Equals_eq _ _) compareDestinationAsset (λ x y, y <? x) destination_key);
      try (intros; lia); [done|eapply Forall_impl; [exact Hok|by intros ? [? _]]|].
    rewrite Forall_forall in Hok. intros p q Hp Hq. by apply compareDestinationAsset_key; apply Hok.
Qed.

Theorem sortAndFilterPaths_spec_witness :
  let p amt := MkPath amt AssetTypeNative AssetTypeNative 9 (str "native") [] [] in
  ∃ sorted, sorted ≡ₚ [p 3; p 1; p 2] ∧ StronglySorted (λ x y, compareSourceAsset y x = false) sorted ∧
     sublist (sortAndFilterPaths sort_by [p 3; p 1; p 2] 2 sortBySourceAsset) sorted ∧
     ∀ a, of_asset SourceAsset a (sortAndFilterPaths sort_by [p 3; p 1; p 2] 2 sortBySourceAsset) =
          take (kept_per_asset 2) (of_asset SourceAsset a sorted).
Proof.
  intros p. apply (proj1 (sortAndFilterPaths_spec sort_by [p 3; p 1; p 2] 2 sort_by_sorts)).
  repeat (apply List.Forall_cons; [by vm_compute|]). apply List.Forall_nil.
Defined.
