(* ===== verification/IngestFsm.v ===== *)
(** * ingest: the ingestion state machine

    Models [src/services/aurora/internal/ingest/fsm.go], the driver in
    [main.go], and the transactions of [src/support/db/session.go].

    The database is the part of it that the machine reads and writes: the keys
    of the key-value store, the sequences in [history_ledgers], and the state
    tables, whose rows belong to the processors and are a parameter.  Every call
    that leaves the process (a statement, the ledger backend, the history
    archive, hcnet-core) takes the next [answer] of an oracle, which says
    whether it fails and what it returns: theorems quantify over all oracles.
    Logging and metrics are left out. *)

From S2P Require Import HistoryRunner.
From S2P Require Import Prelude Toid.

Inductive remote :=
  | CallBegin | CallCommit | CallGetLastLedgerExpIngest | CallGetExpIngestVersion
  | CallGetLatestLedger | CallUpdateLastLedgerExpIngest | CallUpdateExpStateInvalid
  | CallUpdateExpIngestVersion | CallTruncateExpingestStateTables | CallDeleteRangeAll
  | CallGetLatestLedgerSequence | CallIsPrepared | CallPrepareRange | CallGetLedger
  | CallRunHistoryArchiveIngestion | CallRunAllProcessorsOnLedger
  | CallRunTransactionProcessorsOnLedger | CallVerifyState.

Inductive ingest_error :=
  | ErrCall (c : remote)
  | ErrAlreadyInTransaction
  | ErrNotInTransaction
  | ErrTerminalState
  | ErrUnexpectedCheckpointLedger
  | ErrUnexpectedLatestLedger
  | ErrIngestLedgerTooFar
  | ErrInvalidRange (from to : Z)
  | ErrExpectedTransaction
  | ErrToid (e : toid_error)
  | ErrReingestRangeConflict
  | ErrDatabaseNotEmpty
  | ErrLedgerMustBePositive.

(** ** Nodes and transitions *)

Inductive stateMachineNode :=
  | stopState
  | startState (suggestedCheckpoint : Z)
  | buildState (checkpointLedger : Z) (stop : bool)
  | resumeState (latestSuccessfullyProcessedLedger : Z)
  | historyRangeState (fromLedger toLedger : Z)
  | reingestHistoryRangeState (fromLedger toLedger : Z) (force : bool)
  | waitForCheckpointState
  | verifyRangeState (fromLedger toLedger : Z) (verifyState : bool)
  | stressTestState.

#[export] Instance stateMachineNode_eq_dec : EqDecision stateMachineNode.
Proof. solve_decision. Defined.

(** The sleep is in seconds. *)
Record transition := MkTransition { t_node : stateMachineNode; sleepDuration : Z }.
Definition defaultSleep : Z := 1.

Definition stop : transition := MkTransition stopState 0.
Definition start : transition := MkTransition (startState 0) defaultSleep.
Definition startSuggestedCheckpoint (checkpoint : Z) : transition :=
  MkTransition (startState checkpoint) defaultSleep.
Definition rebuild (checkpointLedger : Z) : transition :=
  MkTransition (buildState checkpointLedger false) defaultSleep.
Definition resume (latest : Z) : transition := MkTransition (resumeState latest) defaultSleep.
Definition resumeImmediately (latest : Z) : transition := MkTransition (resumeState latest) 0.
Definition retryResume (latest : Z) : transition := MkTransition (resumeState latest) defaultSleep.
Definition historyRange (fromLedger toLedger : Z) : transition :=
  MkTransition (historyRangeState fromLedger toLedger) defaultSleep.
Definition waitForCheckPoint : transition := MkTransition waitForCheckpointState 0.

(** ** The processors, as the machine relies on them

    [archive n] adds the entries of the snapshot at checkpoint [n] to the state
    tables, [apply_changes n] applies the changes of ledger [n]; [None] is an
    error that the processors themselves report. *)
Class StateTables (T : Type) := {
  truncate_tables : T → T;
  archive : Z → T → option T;
  apply_changes : Z → T → option T }.

(** What the processors promise: [at_ledger n s] says that [s] is the ledger
    state after ledger [n]. *)
Class StateTablesLaws (T : Type) `{StateTables T} := {
  at_ledger : Z → T → Prop;
  archive_at : ∀ n t s, 0 < n → archive n (truncate_tables t) = Some s → at_ledger n s;
  apply_changes_at : ∀ n s s', 0 < n → at_ledger n s → apply_changes (n + 1) s = Some s' → at_ledger (n + 1) s' }.

Section fsm.
Context {T : Type} `{StateTables T}.

(** ** The database and the session *)

Record DB := MkDB {
  lastLedgerExpIngest : Z;
  expIngestVersion : Z;
  expStateInvalid : bool;
  historyLedgers : list Z;
  stateTables : T }.

Record answer := MkAnswer {
  fails : bool;          (* the call returns an error *)
  applied : bool;        (* a failing commit took effect all the same *)
  partial : DB;          (* what failing processors leave in the transaction *)
  number : Z;            (* a sequence of the network *)
  flag : bool }.

Record world := MkWorld { committed : DB; tx : option DB; clock : nat }.

Definition visible (w : world) : DB := match tx w with Some d => d | None => committed w end.
Definition set_visible (w : world) (d : DB) : world :=
  match tx w with
  | Some _ => MkWorld (committed w) (Some d) (clock w)
  | None => MkWorld d None (clock w)
  end.
Definition tick (w : world) : world := MkWorld (committed w) (tx w) (S (clock w)).

Context (oracle : nat → answer).
Definition ask (w : world) : answer := oracle (clock w).

(** An operation returns an error or a value, as a Go call does. *)
Definition op (A : Type) : Type := world → world * (ingest_error + A).

Definition Begin : op unit := λ w,
  match tx w with
  | Some _ => (w, inl ErrAlreadyInTransaction)
  | None =>
      if fails (ask w) then (tick w, inl (ErrCall CallBegin))
      else (MkWorld (committed w) (Some (committed w)) (S (clock w)), inr tt)
  end.
(** [tx] is cleared whatever the database answers. *)
Definition Commit : op unit := λ w,
  match tx w with
  | None => (w, inl ErrNotInTransaction)
  | Some d =>
      if fails (ask w) then
        (MkWorld (if applied (ask w) then d else committed w) None (S (clock w)), inl (ErrCall CallCommit))
      else (MkWorld d None (S (clock w)), inr tt)
  end.
(** Its error is never looked at. *)
Definition Rollback (w : world) : world := MkWorld (committed w) None (clock w).

Definition query {A} (c : remote) (f : DB → A) : op A := λ w,
  if fails (ask w) then (tick w, inl (ErrCall c)) else (tick w, inr (f (visible w))).
Definition update (c : remote) (f : DB → DB) : op unit := λ w,
  if fails (ask w) then (tick w, inl (ErrCall c))
  else (tick (set_visible w (f (visible w))), inr tt).
(** A processor run may fail half way, because of a call of it or by itself. *)
Definition process (c : remote) (f : DB → option DB) : op unit := λ w,
  match (if fails (ask w) then None else f (visible w)) with
  | Some d => (tick (set_visible w d), inr tt)
  | None => (tick (set_visible w (partial (ask w))), inl (ErrCall c))
  end.
Definition external {A} (c : remote) (f : answer → A) : op A := λ w,
  if fails (ask w) then (tick w, inl (ErrCall c)) else (tick w, inr (f (ask w))).

Definition GetLastLedgerExpIngest : op Z := query CallGetLastLedgerExpIngest lastLedgerExpIngest.
Definition GetLastLedgerExpIngestNonBlocking : op Z :=
  query CallGetLastLedgerExpIngest lastLedgerExpIngest.
Definition GetExpIngestVersion : op Z := query CallGetExpIngestVersion expIngestVersion.
(** [COALESCE(MAX(sequence), 0)] *)
Definition GetLatestLedger : op Z := query CallGetLatestLedger (λ d, foldr Z.max 0 (historyLedgers d)).
Definition UpdateLastLedgerExpIngest (ledger : Z) : op unit :=
  update CallUpdateLastLedgerExpIngest (λ d,
    MkDB ledger (expIngestVersion d) (expStateInvalid d) (historyLedgers d) (stateTables d)).
Definition UpdateExpStateInvalid (b : bool) : op unit :=
  update CallUpdateExpStateInvalid (λ d,
    MkDB (lastLedgerExpIngest d) (expIngestVersion d) b (historyLedgers d) (stateTables d)).
Definition UpdateExpIngestVersion (version : Z) : op unit :=
  update CallUpdateExpIngestVersion (λ d,
    MkDB (lastLedgerExpIngest d) version (expStateInvalid d) (historyLedgers d) (stateTables d)).
Definition TruncateExpingestStateTables : op unit :=
  update CallTruncateExpingestStateTables (λ d,
    MkDB (lastLedgerExpIngest d) (expIngestVersion d) (expStateInvalid d) (historyLedgers d)
      (truncate_tables (stateTables d))).
(** A ledger row's id is the total order id of the ledger. *)
Definition DeleteRangeAll (start_ end_ : Z) : op unit :=
  update CallDeleteRangeAll (λ d,
    MkDB (lastLedgerExpIngest d) (expIngestVersion d) (expStateInvalid d)
      (filter (λ seq, ¬ (start_ ≤ packed (New seq 0 0) < end_)) (historyLedgers d)) (stateTables d)).

Definition RunHistoryArchiveIngestion (checkpointLedger : Z) : op unit :=
  process CallRunHistoryArchiveIngestion (λ d,
    t ← archive checkpointLedger (stateTables d);
    Some (MkDB (lastLedgerExpIngest d) (expIngestVersion d) (expStateInvalid d) (historyLedgers d) t)).
Definition RunTransactionProcessorsOnLedger (ledger : Z) : op unit :=
  process CallRunTransactionProcessorsOnLedger (λ d,
    Some (MkDB (lastLedgerExpIngest d) (expIngestVersion d) (expStateInvalid d)
      (historyLedgers d ++ [ledger]) (stateTables d))).
Definition RunAllProcessorsOnLedger (ledger : Z) : op unit :=
  process CallRunAllProcessorsOnLedger (λ d,
    t ← apply_changes ledger (stateTables d);
    Some (MkDB (lastLedgerExpIngest d) (expIngestVersion d) (expStateInvalid d)
      (historyLedgers d ++ [ledger]) t)).

Definition historyAdapter_GetLatestLedgerSequence : op Z := external CallGetLatestLedgerSequence number.
Definition ledgerBackend_GetLatestLedgerSequence : op Z := external CallGetLatestLedgerSequence number.
Definition IsPrepared : op bool := external CallIsPrepared flag.
Definition PrepareRange : op unit := external CallPrepareRange (λ _, tt).
Definition GetLedger : op unit := external CallGetLedger (λ _, tt).
Definition verifyState : op unit := external CallVerifyState (λ _, tt).

(** [updateCursor]: its error is logged only. *)
Definition updateCursor (w : world) : world := tick w.
(** Reads the invalid flag and may start the verification in the background,
    which uses a session of its own. *)
Definition maybeVerifyState (w : world) : world := tick w.

(** ** Running a node

    A handler's body ends early with the transition and the error it returns,
    panics, or runs out of the fuel of one of its loops. *)
Inductive result (A : Type) :=
  | Value (a : A)
  | Return (t : transition) (err : option ingest_error)
  | Crash
  | OutOfFuel.
Arguments Value {A} a.
Arguments Return {A} t err.
Arguments Crash {A}.
Arguments OutOfFuel {A}.

Definition body (A : Type) : Type := world → world * result A.

Definition bind {A B} (m : body A) (k : A → body B) : body B := λ w,
  match m w with
  | (w, Value a) => k a w
  | (w, Return t e) => (w, Return t e)
  | (w, Crash) => (w, Crash)
  | (w, OutOfFuel) => (w, OutOfFuel)
  end.
Definition return_ {A} (t : transition) (err : option ingest_error) : body A := λ w, (w, Return t err).
(** [if err != nil { return next, err }] *)
Definition try_ {A} (next : transition) (o : op A) : body A := λ w,
  match o w with
  | (w, inl e) => (w, Return next (Some e))
  | (w, inr a) => (w, Value a)
  end.
Definition effect (f : world → world) : body unit := λ w, (f w, Value tt).
(** [defer s.historyQ.Rollback()], which also runs on a panic *)
Definition defer_rollback {A} (m : body A) : body A := λ w,
  let '(w, r) := m w in (Rollback w, r).

(** [for cur := from; cur <= to; cur++], with the 32-bit increment. *)
Fixpoint for_ledgers (fuel : nat) (cur to : Z) (m : Z → body unit) : body unit :=
  match fuel with
  | O => λ w, (w, OutOfFuel)
  | S fuel' =>
      if cur <=? to then bind (m cur) (λ _, for_ledgers fuel' (u32 (cur + 1)) to m)
      else λ w, (w, Value tt)
  end.
(** Enough unless [to] is the largest sequence, when the loop never ends. *)
Definition range_fuel (from to : Z) : nat := Z.to_nat (to - from + 2).
#[local] Instance body_mbind : MBind body := λ A B k m, bind m k.

Definition completeIngestion (ledger : Z) : op unit := λ w,
  if ledger =? 0 then (w, inl ErrLedgerMustBePositive) else
  match UpdateLastLedgerExpIngest ledger w with
  | (w, inl e) => (w, inl e)
  | (w, inr _) => Commit w
  end.

(** Whether the ingestion lock was released to prepare the range. *)
Definition maybePrepareRange (from : Z) : op bool := λ w,
  match IsPrepared w with
  | (w, inl e) => (w, inl e)
  | (w, inr true) => (w, inr false)
  | (w, inr false) =>
      match PrepareRange (Rollback w) with
      | (w, inl e) => (w, inl e)
      | (w, inr _) => (w, inr true)
      end
  end.

(** *** startState *)
Definition start_run (suggestedCheckpoint : Z) : body unit :=
  _ ← try_ start Begin;
  defer_rollback (
    lastIngestedLedger ← try_ start GetLastLedgerExpIngest;
    ingestVersion ← try_ start GetExpIngestVersion;
    if CurrentVersion <? ingestVersion then return_ stop None else
    lastHistoryLedger ← try_ start GetLatestLedger;
    if negb (ingestVersion =? CurrentVersion) || (lastIngestedLedger =? 0) then
      lastCheckpoint ←
        (if negb (suggestedCheckpoint =? 0) then λ w, (w, Value suggestedCheckpoint)
         else try_ start historyAdapter_GetLatestLedgerSequence);
      if negb (lastHistoryLedger =? 0) then
        if lastCheckpoint <? lastHistoryLedger then return_ waitForCheckPoint None
        else if lastHistoryLedger <? lastCheckpoint then
          return_ (historyRange (u32 (lastHistoryLedger + 1)) lastCheckpoint) None
        else return_ (rebuild lastCheckpoint) None
      else return_ (rebuild lastCheckpoint) None
    else if lastIngestedLedger <? lastHistoryLedger then
      _ ← try_ start (UpdateLastLedgerExpIngest 0);
      _ ← try_ start Commit;
      return_ start None
    else if negb (lastHistoryLedger =? 0) && (lastHistoryLedger <? lastIngestedLedger) then
      return_ (historyRange (u32 (lastHistoryLedger + 1)) lastIngestedLedger) None
    else return_ (resume lastIngestedLedger) None).

(** *** buildState *)
Definition build_run (checkpointLedger : Z) (b_stop : bool) : body unit :=
  let nextFailState := if b_stop then stop else start in
  if checkpointLedger =? 0 then return_ nextFailState (Some ErrUnexpectedCheckpointLedger) else
  _ ← try_ nextFailState Begin;
  defer_rollback (
    lastIngestedLedger ← try_ nextFailState GetLastLedgerExpIngest;
    ingestVersion ← try_ nextFailState GetExpIngestVersion;
    if (ingestVersion =? CurrentVersion) && (0 <? lastIngestedLedger) then return_ nextFailState None else
    _ ← effect updateCursor;
    _ ← try_ nextFailState (UpdateLastLedgerExpIngest 0);
    _ ← try_ nextFailState (UpdateExpStateInvalid false);
    _ ← try_ nextFailState TruncateExpingestStateTables;
    lockReleased ←
      (if negb (checkpointLedger =? 1) then try_ nextFailState (maybePrepareRange checkpointLedger)
       else λ w, (w, Value false));
    if lockReleased : bool then return_ (startSuggestedCheckpoint checkpointLedger) None else
    _ ← try_ nextFailState (RunHistoryArchiveIngestion checkpointLedger);
    _ ← try_ nextFailState (UpdateExpIngestVersion CurrentVersion);
    _ ← try_ nextFailState (completeIngestion checkpointLedger);
    if b_stop then return_ stop None else return_ (resume checkpointLedger) None).

(** *** resumeState *)
Definition resume_run (latest : Z) : body unit :=
  if latest =? 0 then return_ start (Some ErrUnexpectedLatestLedger) else
  _ ← try_ (retryResume latest) Begin;
  defer_rollback (
    lastIngestedLedger ← try_ (retryResume latest) GetLastLedgerExpIngest;
    let ingestLedger := u32 (latest + 1) in
    if u32 (lastIngestedLedger + 1) <? ingestLedger then return_ start (Some ErrIngestLedgerTooFar) else
    let ingestLedger :=
      if ingestLedger <=? lastIngestedLedger then u32 (lastIngestedLedger + 1) else ingestLedger in
    ingestVersion ← try_ (retryResume latest) GetExpIngestVersion;
    if negb (ingestVersion =? CurrentVersion) then return_ start None else
    lastHistoryLedger ← try_ (retryResume latest) GetLatestLedger;
    if negb (lastHistoryLedger =? 0) && negb (lastHistoryLedger =? lastIngestedLedger)
    then return_ start None else
    lockReleased ← try_ start (maybePrepareRange ingestLedger);
    if lockReleased : bool then return_ start None else
    latestLedgerCore ← try_ (retryResume latest) ledgerBackend_GetLatestLedgerSequence;
    if latestLedgerCore <? ingestLedger then
      _ ← try_ (retryResume latest) GetLedger;
      return_ (retryResume latestLedgerCore) None
    else
    _ ← try_ (retryResume latest) (RunAllProcessorsOnLedger ingestLedger);
    _ ← try_ (retryResume latest) (completeIngestion ingestLedger);
    _ ← effect updateCursor;
    _ ← effect maybeVerifyState;
    return_ (resumeImmediately ingestLedger) None).

(** *** historyRangeState *)
Definition runTransactionProcessorsOnLedger (next : transition) (ledger : Z) : body unit :=
  try_ next (RunTransactionProcessorsOnLedger ledger).

Definition historyRange_run (fromLedger toLedger : Z) : body unit :=
  if (fromLedger =? 0) || (toLedger =? 0) || (toLedger <? fromLedger)
  then return_ start (Some (ErrInvalidRange fromLedger toLedger)) else
  _ ← try_ start Begin;
  defer_rollback (
    _ ← try_ start GetLastLedgerExpIngest;
    lastHistoryLedger ← try_ start GetLatestLedger;
    if negb (lastHistoryLedger =? u32 (fromLedger - 1)) then return_ start None else
    lockReleased ← try_ start (maybePrepareRange fromLedger);
    if lockReleased : bool then return_ start None else
    _ ← for_ledgers (range_fuel fromLedger toLedger) fromLedger toLedger
          (runTransactionProcessorsOnLedger start);
    _ ← try_ start Commit;
    return_ start None).

(** *** reingestHistoryRangeState *)
Definition ingestRange (fromLedger toLedger : Z) : body unit := λ w,
  match tx w with
  | None => return_ stop (Some ErrExpectedTransaction) w
  | Some _ =>
      match LedgerRangeInclusive (i32 fromLedger) (i32 toLedger) with
      | Panic => (w, Crash)
      | Fail e => return_ stop (Some (ErrToid e)) w
      | Ret (start_, end_) =>
          (_ ← try_ stop (DeleteRangeAll start_ end_);
           for_ledgers (range_fuel fromLedger toLedger) fromLedger toLedger
             (runTransactionProcessorsOnLedger stop)) w
      end
  end.

Definition reingest_run (fromLedger toLedger : Z) (force : bool) : body unit :=
  if (fromLedger =? 0) || (toLedger =? 0) || (toLedger <? fromLedger)
  then return_ stop (Some (ErrInvalidRange fromLedger toLedger)) else
  _ ← try_ stop PrepareRange;
  let fromLedger := if fromLedger =? 1 then 2 else fromLedger in
  if force then
    _ ← try_ stop Begin;
    defer_rollback (
      _ ← try_ stop GetLastLedgerExpIngest;
      _ ← ingestRange fromLedger toLedger;
      _ ← try_ stop Commit;
      return_ stop None)
  else
    lastIngestedLedger ← try_ stop GetLastLedgerExpIngestNonBlocking;
    if (0 <? lastIngestedLedger) && (lastIngestedLedger <=? toLedger)
    then return_ stop (Some ErrReingestRangeConflict) else
    _ ← for_ledgers (range_fuel fromLedger toLedger) fromLedger toLedger (λ ledger,
          _ ← try_ stop Begin;
          defer_rollback (
            _ ← ingestRange ledger ledger;
            try_ stop Commit));
    return_ stop None.

(** *** verifyRangeState and stressTestState *)
Definition verifyRange_run (fromLedger toLedger : Z) (v_verifyState : bool) : body unit :=
  if (fromLedger =? 0) || (toLedger =? 0) || (toLedger <? fromLedger)
  then return_ stop (Some (ErrInvalidRange fromLedger toLedger)) else
  _ ← try_ stop Begin;
  defer_rollback (
    lastIngestedLedger ← try_ stop GetLastLedgerExpIngest;
    if negb (lastIngestedLedger =? 0) then return_ stop (Some ErrDatabaseNotEmpty) else
    _ ← try_ stop (RunHistoryArchiveIngestion fromLedger);
    _ ← try_ stop (completeIngestion fromLedger);
    _ ← for_ledgers (range_fuel fromLedger toLedger) (u32 (fromLedger + 1)) toLedger (λ sequence,
          _ ← try_ stop Begin;
          _ ← try_ stop (RunAllProcessorsOnLedger sequence);
          try_ stop (completeIngestion sequence));
    _ ← (if v_verifyState then try_ stop verifyState else λ w, (w, Value tt));
    return_ stop None).

Definition stressTest_run : body unit :=
  _ ← try_ stop Begin;
  defer_rollback (
    lastIngestedLedger ← try_ stop GetLastLedgerExpIngest;
    if negb (lastIngestedLedger =? 0) then return_ stop (Some ErrDatabaseNotEmpty) else
    let sequence := u32 (lastIngestedLedger + 1) in
    _ ← try_ stop (RunAllProcessorsOnLedger sequence);
    _ ← try_ stop (completeIngestion sequence);
    return_ stop None).

Definition run (cur : stateMachineNode) : body unit :=
  match cur with
  | stopState => return_ stop (Some ErrTerminalState)
  | startState suggestedCheckpoint => start_run suggestedCheckpoint
  | buildState checkpointLedger b_stop => build_run checkpointLedger b_stop
  | resumeState latest => resume_run latest
  | historyRangeState fromLedger toLedger => historyRange_run fromLedger toLedger
  | reingestHistoryRangeState fromLedger toLedger force => reingest_run fromLedger toLedger force
  | waitForCheckpointState => return_ start None
  | verifyRangeState fromLedger toLedger v => verifyRange_run fromLedger toLedger v
  | stressTestState => stressTest_run
  end.

(** ** The driver (main.go)

    [shutdown n] says whether the context is done after the [n]-th node.  The
    machine runs until it stops, so the number of nodes run is the fuel. *)
Inductive machine_result :=
  | Finished (err : option ingest_error)
  | UnexpectedTransaction
  | Panicked
  | StillRunning (cur : stateMachineNode).

Fixpoint runStateMachine (shutdown : nat → bool) (fuel : nat) (cur : stateMachineNode) (w : world)
  : world * machine_result :=
  match fuel with
  | O => (w, StillRunning cur)
  | S fuel' =>
      match tx w with
      | Some _ => (w, UnexpectedTransaction)
      | None =>
          match run cur w with
          | (w, Return next err) =>
              if decide (t_node next = stopState) then (w, Finished err)
              else if shutdown fuel' then (w, Finished None)
              else runStateMachine shutdown fuel' (t_node next) w
          | (w, OutOfFuel) => (w, StillRunning cur)
          | (w, Value _) | (w, Crash) => (w, Panicked)
          end
      end
  end.

(** The retries of [ReingestRange]; every run takes at most one node. *)
Fixpoint reingest_retry (shutdown : nat → bool) (retries : nat) (fromLedger toLedger : Z) (force : bool)
    (w : world) (last : machine_result) : world * machine_result :=
  match last, retries with
  | Finished (Some _), S retries' =>
      let '(w, r) := runStateMachine shutdown 2 (reingestHistoryRangeState fromLedger toLedger force) w in
      reingest_retry shutdown retries' fromLedger toLedger force w r
  | _, _ => (w, last)
  end.
Definition ReingestRange (shutdown : nat → bool) (maxReingestRetries : nat) (fromLedger toLedger : Z)
    (force : bool) (w : world) : world * machine_result :=
  let '(w, r) := runStateMachine shutdown 2 (reingestHistoryRangeState fromLedger toLedger force) w in
  reingest_retry shutdown maxReingestRetries fromLedger toLedger force w r.

Definition BuildGenesisState (shutdown : nat → bool) (w : world) : world * machine_result :=
  runStateMachine shutdown 2 (buildState 1 true) w.
Definition VerifyRange (shutdown : nat → bool) (fromLedger toLedger : Z) (v : bool) (w : world)
  : world * machine_result := runStateMachine shutdown 2 (verifyRangeState fromLedger toLedger v) w.
Definition Run (shutdown : nat → bool) (fuel : nat) (w : world) : world * machine_result :=
  runStateMachine shutdown fuel (startState 0) w.

(** ** A calculus of handlers

    [wp m Q c t]: from the committed database [c] and the open transaction [t],
    whatever the clock, [m] ends in a database, transaction and result that
    satisfy [Q]. *)
Definition wp {A} (m : body A) (Q : DB → option DB → result A → Prop) (c : DB) (t : option DB) : Prop :=
  ∀ n, Q (committed (m (MkWorld c t n)).1) (tx (m (MkWorld c t n)).1) (m (MkWorld c t n)).2.

Lemma wp_return {A} tr e (Q : DB → option DB → result A → Prop) c t :
  Q c t (Return tr e) → wp (return_ tr e) Q c t.
Proof using Type. by intros HQ n. Qed.

Lemma wp_value {A} (a : A) (Q : DB → option DB → result A → Prop) c t :
  Q c t (Value a) → wp (λ w, (w, Value a)) Q c t.
Proof using Type. by intros HQ n. Qed.

Lemma wp_bind {A B} (m : body A) (k : A → body B) Q c t :
  wp m (λ c t r, match r with
    | Value a => wp (k a) Q c t
    | Return tr e => Q c t (Return tr e)
    | Crash => Q c t Crash
    | OutOfFuel => Q c t OutOfFuel
    end) c t → wp (m ≫= k) Q c t.
Proof using Type.
  intros Hm n. specialize (Hm n). unfold mbind, body_mbind, bind.
  destruct (m (MkWorld c t n)) as [[c' t' n'] r]. by destruct r; simpl in *.
Qed.

Lemma wp_query {A} next cl (f : DB → A) Q c t :
  Q c t (Return next (Some (ErrCall cl))) → Q c t (Value (f (match t with Some d => d | None => c end))) →
  wp (try_ next (query cl f)) Q c t.
Proof using Type. intros H1 H2 n. unfold try_, query. by destruct (fails _). Qed.

Lemma wp_update next cl f Q c d :
  Q c (Some d) (Return next (Some (ErrCall cl))) → Q c (Some (f d)) (Value tt) →
  wp (try_ next (update cl f)) Q c (Some d).
Proof using Type. intros H1 H2 n. unfold try_, update. by destruct (fails _). Qed.

Lemma wp_process next cl f Q c d :
  (∀ d', Q c (Some d') (Return next (Some (ErrCall cl)))) → (∀ d', f d = Some d' → Q c (Some d') (Value tt)) →
  wp (try_ next (process cl f)) Q c (Some d).
Proof using Type.
  intros H1 H2 n. unfold try_, process, visible. simpl. destruct (fails _); [apply H1|].
  destruct (f d) as [d'|]; [by apply H2|apply H1].
Qed.

Lemma wp_external {A} next cl (f : answer → A) Q c t :
  Q c t (Return next (Some (ErrCall cl))) → (∀ n, Q c t (Value (f (oracle n)))) →
  wp (try_ next (external cl f)) Q c t.
Proof using Type. intros H1 H2 n. unfold try_, external. destruct (fails _); [done|apply H2]. Qed.

Lemma wp_begin next Q c :
  Q c None (Return next (Some (ErrCall CallBegin))) → Q c (Some c) (Value tt) →
  wp (try_ next Begin) Q c None.
Proof using Type. intros H1 H2 n. unfold try_, Begin. simpl. by destruct (fails _). Qed.

Lemma wp_commit next Q c d :
  (∀ c', c' = c ∨ c' = d → Q c' None (Return next (Some (ErrCall CallCommit)))) → Q d None (Value tt) →
  wp (try_ next Commit) Q c (Some d).
Proof using Type.
  intros H1 H2 n. unfold try_, Commit. simpl. destruct (fails _); [|done].
  simpl. apply H1. destruct (applied _); tauto.
Qed.

Lemma wp_defer {A} (m : body A) Q c t : wp m (λ c _ r, Q c None r) c t → wp (defer_rollback m) Q c t.
Proof using Type.
  intros Hm n. specialize (Hm n). unfold defer_rollback.
  by destruct (m (MkWorld c t n)) as [w r].
Qed.

Lemma wp_effect f Q c t :
  (∀ w, committed (f w) = committed w ∧ tx (f w) = tx w) → Q c t (Value tt) → wp (effect f) Q c t.
Proof using Type. intros Hf HQ n. unfold effect. simpl. by destruct (Hf (MkWorld c t n)) as [-> ->]. Qed.

Lemma wp_prepare next from Q c t :
  (∀ e, Q c t (Return next (Some e))) → (∀ e, Q c None (Return next (Some e))) →
  Q c None (Value true) → Q c t (Value false) →
  wp (try_ next (maybePrepareRange from)) Q c t.
Proof using Type.
  intros H1 H2 H3 H4 n. unfold try_, maybePrepareRange, IsPrepared, PrepareRange, external.
  destruct (fails _); [apply H1|]. destruct (flag _); [apply H4|].
  simpl. destruct (fails _); simpl; [apply H2|apply H3].
Qed.

Definition set_last (ledger : Z) (d : DB) : DB :=
  MkDB ledger (expIngestVersion d) (expStateInvalid d) (historyLedgers d) (stateTables d).

Lemma wp_complete next ledger Q c d :
  (∀ e, Q c (Some d) (Return next (Some e))) →
  (ledger ≠ 0 → ∀ c' e, c' = c ∨ c' = set_last ledger d → Q c' None (Return next (Some e))) →
  (ledger ≠ 0 → Q (set_last ledger d) None (Value tt)) →
  wp (try_ next (completeIngestion ledger)) Q c (Some d).
Proof using Type.
  intros H1 H2 H3 n. unfold try_, completeIngestion, UpdateLastLedgerExpIngest, update.
  destruct (Z.eqb_spec ledger 0); [apply H1|].
  destruct (fails _); [apply H1|]. unfold Commit. simpl.
  destruct (fails _); simpl; [|by apply H3]. apply H2; [done|]. destruct (applied _); tauto.
Qed.

(** Loops: [I cur] holds when the loop reaches [cur]. *)
Lemma wp_for (I : Z → DB → option DB → Prop) Q m to :
  to < MaxUint32 →
  (∀ cur c t, 0 ≤ cur ≤ to → I cur c t →
     wp (m cur) (λ c t r, match r with
       | Value _ => I (cur + 1) c t
       | Return tr e => Q c t (Return tr e)
       | Crash => Q c t Crash
       | OutOfFuel => False
       end) c t) →
  (∀ cur c t, to < cur → I cur c t → Q c t (Value tt)) →
  ∀ fuel cur c t, 0 ≤ cur ≤ MaxUint32 → to - cur + 2 ≤ Z.of_nat fuel → (1 ≤ fuel)%nat → I cur c t →
  wp (for_ledgers fuel cur to m) Q c t.
Proof using Type.
  intros Hto Hm Hend fuel. induction fuel as [|fuel IH]; intros cur c t Hcur Hfuel Hf HI; [lia|].
  cbn [for_ledgers]. destruct (Z.leb_spec cur to) as [Hle|Hgt].
  - apply (wp_bind (m cur) (λ _, for_ledgers fuel (u32 (cur + 1)) to m)).
    intros n. pose proof (Hm cur c t ltac:(lia) HI n) as Hn. simpl in Hn.
    destruct (m cur (MkWorld c t n)) as [[c' t' n'] r]. simpl in *.
    destruct r as [[]|tr e| |]; try done.
    rewrite u32_small by (unfold is_u32, MaxUint32 in *; lia). apply IH; (done || lia).
  - apply wp_value. by eapply Hend.
Qed.

(** The transaction only: no assumption on the range. *)
Lemma wp_for_any (I : DB → option DB → Prop) Q m to :
  (∀ cur c t, I c t → wp (m cur) (λ c t r, match r with
       | Value _ => I c t
       | Return tr e => Q c t (Return tr e)
       | Crash => Q c t Crash
       | OutOfFuel => Q c t OutOfFuel
       end) c t) →
  (∀ c t, I c t → Q c t (Value tt) ∧ Q c t OutOfFuel) →
  ∀ fuel cur c t, I c t → wp (for_ledgers fuel cur to m) Q c t.
Proof using Type.
  intros Hm Hend fuel. induction fuel as [|fuel IH]; intros cur c t HI; cbn [for_ledgers].
  { intros n. simpl. by apply Hend. }
  destruct (cur <=? to); [|by apply wp_value, Hend].
  apply (wp_bind (m cur) (λ _, for_ledgers fuel (u32 (cur + 1)) to m)).
  intros n. pose proof (Hm cur c t HI n) as Hn. simpl in Hn.
  destruct (m cur (MkWorld c t n)) as [[c' t' n'] r]. simpl in *.
  destruct r as [[]|tr e| |]; try done. by apply IH.
Qed.

(** One step of a handler: each call opens its failing and its succeeding
    branch. *)
Ltac wp_step :=
  first
    [ apply wp_return
    | apply wp_defer
    | apply wp_bind
    | apply wp_begin
    | apply wp_query
    | apply wp_prepare
    | apply wp_complete
    | apply wp_update
    | apply wp_process
    | apply wp_external
    | apply wp_commit
    | apply wp_effect; [done|]
    | apply wp_value ].

Ltac wp_go :=
  repeat (simpl; first
    [ wp_step
    | match goal with |- wp (if ?b then _ else _) _ _ _ => destruct b eqn:? end
    | match goal with
      | |- Some _ = Some _ → _ => intros [= <-]
      | |- (_ ≫= _) = Some _ → _ => intros (? & ? & [= <-])%bind_Some
      | |- ∀ _, _ => intros ?
      end ]).

(** ** Every node disposes of its transaction *)

(** What holds when a node ends, however it ends. *)
Definition closed (_ : DB) (t : option DB) (r : result unit) : Prop := t = None ∧ r ≠ Value tt.

Lemma start_closed cp c : wp (start_run cp) closed c None.
Proof using Type. unfold start_run. wp_go; by split. Qed.

Lemma build_closed cp b c : wp (build_run cp b) closed c None.
Proof using Type. unfold build_run. wp_go; by split. Qed.

Lemma resume_closed l c : wp (resume_run l) closed c None.
Proof using Type. unfold resume_run. wp_go; by split. Qed.


Lemma wp_mono {A} (m : body A) (Q Q' : DB → option DB → result A → Prop) c t :
  (∀ c t r, Q c t r → Q' c t r) → wp m Q c t → wp m Q' c t.
Proof using Type. intros HQ Hm n. apply HQ, Hm. Qed.

Lemma wp_ingestRange from to Q c d :
  match LedgerRangeInclusive (i32 from) (i32 to) with
  | Panic => Q c (Some d) Crash
  | Fail e => Q c (Some d) (Return stop (Some (ErrToid e)))
  | Ret (a, b) =>
      wp (_ ← try_ stop (DeleteRangeAll a b);
          for_ledgers (range_fuel from to) from to (runTransactionProcessorsOnLedger stop)) Q c (Some d)
  end → wp (ingestRange from to) Q c (Some d).
Proof using Type.
  intros HQ n. unfold ingestRange. simpl.
  destruct (LedgerRangeInclusive _ _) as [[a b]|e|]; [apply HQ|done..].
Qed.

Lemma ingestRange_frame from to c d :
  wp (ingestRange from to) (λ c' t' _, c' = c ∧ ∃ d', t' = Some d') c (Some d).
Proof using Type.
  apply wp_ingestRange. destruct (LedgerRangeInclusive _ _) as [[a b]|e|]; eauto.
  wp_go; eauto.
  apply wp_for_any with (I := λ c' t', c' = c ∧ ∃ d', t' = Some d'); eauto.
  intros cur c' t' [-> [d' ->]]. unfold runTransactionProcessorsOnLedger. wp_go; eauto.
Qed.

Lemma historyRange_closed from to c : wp (historyRange_run from to) closed c None.
Proof using Type.
  unfold historyRange_run. wp_go; try by split.
  apply wp_for_any with (I := λ _ t, ∃ d, t = Some d); [| |by eauto].
  - intros cur c' t [d ->]. unfold runTransactionProcessorsOnLedger. wp_go; eauto; by split.
  - intros c' t [d ->]. split; [|by split]. wp_go; by split.
Qed.

Lemma reingest_closed from to force c : wp (reingest_run from to force) closed c None.
Proof using Type.
  unfold reingest_run. wp_go; try by split.
  - eapply wp_mono, ingestRange_frame. intros c' t [[]|tr e| |] [-> [d ->]]; try by split.
    wp_go; by split.
  - apply wp_for_any with (I := λ _ t, t = None); [| |done].
    + intros cur c' t ->. wp_go; try by split.
      eapply wp_mono, ingestRange_frame. intros c1 t [[]|tr e| |] [-> [d ->]]; try by split.
      wp_go; by split.
    + intros c' t ->. split; [|by split]. wp_go. by split.
Qed.

Lemma verifyRange_closed from to v c : wp (verifyRange_run from to v) closed c None.
Proof using Type.
  unfold verifyRange_run. wp_go; try by split.
  apply wp_for_any with (I := λ _ t, t = None); [| |done].
  - intros cur c' t ->. wp_go; by split.
  - intros c' t ->. split; [|by split]. wp_go; by split.
Qed.

Lemma stressTest_closed c : wp stressTest_run closed c None.
Proof using Type. unfold stressTest_run. wp_go; by split. Qed.

Lemma run_closed cur c : wp (run cur) closed c None.
Proof using Type.
  destruct cur; simpl; auto using start_closed, build_closed, resume_closed, historyRange_closed,
    reingest_closed, verifyRange_closed, stressTest_closed; wp_go; by split.
Qed.

(** The same for a world, whatever its clock. *)
Lemma wp_run (m : body unit) Q c n w r :
  wp m Q c None → m (MkWorld c None n) = (w, r) → Q (committed w) (tx w) r.
Proof using Type. intros Hm E. specialize (Hm n). by rewrite E in Hm. Qed.

Lemma runStateMachine_closed shutdown fuel cur w :
  tx w = None →
  tx (runStateMachine shutdown fuel cur w).1 = None ∧
  (runStateMachine shutdown fuel cur w).2 ≠ UnexpectedTransaction.
Proof using Type.
  revert cur w. induction fuel as [|fuel IH]; intros cur [c t n] Ht; simpl in *; [done|]. subst t.
  destruct (run cur _) as [w r] eqn:E. apply (wp_run _ closed) in E as [Ht Hr]; [|apply run_closed].
  destruct r as [[]|tr e| |]; try done.
  destruct (decide _); [done|]. destruct (shutdown fuel); [done|]. by apply IH.
Qed.


(** ** Consistency of the database *)

Context {L : StateTablesLaws T}.

Definition contiguous (l : list Z) : Prop := ∃ lo n, l = seqZ lo n ∧ 0 < lo ∧ lo + n ≤ MaxUint32.

(** What a reader of the database relies on. *)
Record consistent (d : DB) : Prop := {
  last_bounds : 0 ≤ lastLedgerExpIngest d < MaxUint32;
  history_contiguous : contiguous (historyLedgers d);
  state_current : expIngestVersion d = CurrentVersion → 0 < lastLedgerExpIngest d →
    at_ledger (lastLedgerExpIngest d) (stateTables d) }.

Definition is_sequence (x : Z) : Prop := 0 ≤ x < MaxUint32.

(** The nodes of [Run], and the one of [BuildGenesisState]. *)
Definition main_node (cur : stateMachineNode) : Prop :=
  match cur with
  | stopState | waitForCheckpointState => True
  | startState n | buildState n _ | resumeState n => is_sequence n
  | historyRangeState from to => is_sequence from ∧ is_sequence to
  | _ => False
  end.

Context (Hnumber : ∀ n, is_sequence (number (oracle n))).

Definition main_result (c : DB) (t : option DB) (r : result unit) : Prop :=
  consistent c ∧ t = None ∧ ∃ tr e, r = Return tr e ∧ main_node (t_node tr).

Lemma main_return tr e c : consistent c → main_node (t_node tr) → main_result c None (Return tr e).
Proof using Type. intros. split; [done|]. split; [done|]. by exists tr, e. Qed.

Lemma u32_succ x : is_sequence x → u32 (x + 1) = x + 1.
Proof using Type. intros Hx. apply u32_small. unfold is_sequence, is_u32, MaxUint32 in *. lia. Qed.

Lemma latest_seqZ lo n :
  0 < lo → 0 ≤ n → foldr Z.max 0 (seqZ lo n) = if decide (n = 0) then 0 else lo + n - 1.
Proof using Type.
  intros Hlo Hn. revert lo Hlo. pattern n. apply natlike_ind; [done| |done].
  intros x Hx IH lo Hlo. rewrite seqZ_cons by lia. simpl.
  replace (Z.pred (Z.succ x)) with x by lia. rewrite IH by lia. repeat case_decide; lia.
Qed.

(** The latest ledger of a contiguous history, and its next one. *)
Lemma contiguous_latest l :
  contiguous l →
  is_sequence (foldr Z.max 0 l) ∧
  ∀ next, is_sequence next → 0 < next →
    foldr Z.max 0 l = 0 ∨ foldr Z.max 0 l = next - 1 → contiguous (l ++ [next]).
Proof using Type.
  intros (lo & n & -> & Hlo & Hb).
  destruct (Z.leb_spec n 0) as [Hn|Hn].
  { rewrite seqZ_nil by lia. split; [done|]. intros next Hnext Hpos _.
    exists next, 1. split; [done|]. unfold is_sequence in *. lia. }
  rewrite latest_seqZ by lia. case_decide; [lia|]. split; [unfold is_sequence; lia|].
  intros next Hnext Hpos [?|?]; [lia|]. exists lo, (n + 1). unfold is_sequence in *.
  rewrite seqZ_app by lia. split; [|lia]. f_equal. by replace (lo + n) with next by lia.
Qed.

Lemma latest_snoc l next : 0 ≤ next → foldr Z.max 0 (l ++ [next]) = Z.max (foldr Z.max 0 l) next.
Proof using Type. intros. induction l; simpl; lia. Qed.

(** A ledger appended to the history, with the state untouched. *)
Definition history_added (next : Z) (d : DB) : DB :=
  MkDB (lastLedgerExpIngest d) (expIngestVersion d) (expStateInvalid d)
    (historyLedgers d ++ [next]) (stateTables d).

Lemma history_added_consistent next d :
  is_sequence next → 0 < next → foldr Z.max 0 (historyLedgers d) = next - 1 → consistent d →
  consistent (history_added next d) ∧ foldr Z.max 0 (historyLedgers (history_added next d)) = next.
Proof using Type.
  intros Hn Hpos Hlast [Hl Hh Hs]. unfold history_added. split.
  - split; simpl; [done| |done]. apply contiguous_latest; [done..|]. by right.
  - simpl. rewrite latest_snoc; lia.
Qed.

Lemma consistent_zero d : lastLedgerExpIngest d = 0 → contiguous (historyLedgers d) → consistent d.
Proof using Type. intros Hd Hh. split; [rewrite Hd; done|done|]. rewrite Hd. lia. Qed.

(** Closes the branches that leave the database as it was. *)
Ltac main_tac :=
  try (apply main_return; [solve [auto]|]; simpl; try done;
       repeat split; try rewrite u32_succ by done; unfold is_sequence in *; lia).

Lemma start_consistent cp c :
  is_sequence cp → consistent c → wp (start_run cp) main_result c None.
Proof using Hnumber.
  intros Hcp Hc. pose proof Hc as [Hl Hh _]. destruct (contiguous_latest _ Hh) as [Hhl _].
  assert (consistent (set_last 0 c)) by by apply consistent_zero.
  unfold start_run. wp_go; try specialize (Hnumber n); main_tac.
  destruct H1 as [->| ->]; main_tac.
Qed.

(** The database after a successful [buildState], and after one more ledger. *)
Definition built (cp : Z) (d : DB) (t : T) : DB := MkDB cp CurrentVersion false (historyLedgers d) t.
Definition ingested (ledger : Z) (d : DB) (t : T) : DB :=
  MkDB ledger (expIngestVersion d) (expStateInvalid d) (historyLedgers d ++ [ledger]) t.

Lemma built_consistent cp d t :
  is_sequence cp → contiguous (historyLedgers d) → archive cp (truncate_tables (stateTables d)) = Some t →
  consistent (built cp d t).
Proof using Type. intros Hcp Hh Ht. split; [done|done|]. intros _ Hpos. by eapply archive_at. Qed.

Lemma ingested_consistent d t :
  is_sequence (lastLedgerExpIngest d + 1) → consistent d →
  expIngestVersion d = CurrentVersion → 0 < lastLedgerExpIngest d →
  foldr Z.max 0 (historyLedgers d) = 0 ∨ foldr Z.max 0 (historyLedgers d) = lastLedgerExpIngest d →
  apply_changes (lastLedgerExpIngest d + 1) (stateTables d) = Some t →
  consistent (ingested (lastLedgerExpIngest d + 1) d t).
Proof using Type.
  intros Hn [Hl Hh Hs] Hv Hpos Hlast Ht. split; simpl; [done| |].
  - apply contiguous_latest; (done || lia).
  - intros _ _. by apply (apply_changes_at _ (stateTables d)); [|apply Hs|].
Qed.

Lemma build_consistent cp b c :
  is_sequence cp → consistent c → wp (build_run cp b) main_result c None.
Proof using Hnumber.
  intros Hcp Hc. pose proof Hc as [Hl Hh _]. pose proof (built_consistent cp c) as Hb.
  assert (main_node (t_node (if b then stop else start))) by by destruct b.
  unfold build_run. destruct (Z.eqb_spec cp 0); [by apply wp_return, main_return|].
  wp_go; try (by apply main_return);
    match goal with H : archive _ _ = Some ?t |- _ => specialize (Hb t Hcp Hh H) end;
    repeat match goal with H : _ ∨ _ |- _ => destruct H as [->| ->] end; by apply main_return.
Qed.

(** The ledger that [resumeState] ingests is the one after the last ingested. *)
Lemma resume_ledger latest last :
  is_sequence last → (u32 (last + 1) <? latest + 1) = false →
  (if latest + 1 <=? last then u32 (last + 1) else latest + 1) = last + 1.
Proof using Type. intros Hl. rewrite u32_succ by done. case_match; lia. Qed.

Lemma resume_consistent latest c :
  is_sequence latest → consistent c → wp (resume_run latest) main_result c None.
Proof using Hnumber.
  intros Hlat Hc. pose proof Hc as [Hl Hh _].
  pose proof (ingested_consistent c) as Hi.
  unfold resume_run. rewrite u32_succ by done.
  wp_go; try specialize (Hnumber n); try (by apply main_return);
    rewrite resume_ledger in * by done; rewrite u32_succ in * by done;
    unfold is_sequence in *;
    match goal with H : apply_changes _ _ = Some ?t |- _ =>
      assert (consistent (ingested (lastLedgerExpIngest c + 1) c t)) by (apply Hi; done || lia) end;
    (assert (is_sequence (lastLedgerExpIngest c + 1)) by (unfold is_sequence; lia));
    repeat match goal with H : _ ∨ _ |- _ => destruct H as [->| ->] end; by apply main_return.
Qed.

Lemma historyRange_consistent from to c :
  is_sequence from → is_sequence to → consistent c → wp (historyRange_run from to) main_result c None.
Proof using Hnumber.
  intros Hfrom Hto Hc. pose proof Hc as [Hl Hh Hs].
  unfold historyRange_run. wp_go; try (by apply main_return).
  pose (I := λ cur (c' : DB) (t : option DB), c' = c ∧ ∃ d, t = Some d ∧ from ≤ cur ∧
    (foldr Z.max 0 (historyLedgers d) = cur - 1) ∧ consistent d).
  apply wp_for with (I := I); subst I; simpl.
  - apply Hto.
  - intros cur c' t Hcur (-> & d & -> & Hle & Hlast & Hd). unfold runTransactionProcessorsOnLedger.
    assert (is_sequence cur ∧ 0 < cur) as [Hseq Hpos] by (unfold is_sequence in *; lia).
    destruct (history_added_consistent cur d Hseq Hpos Hlast Hd) as [Hadd Hmax].
    wp_go; [by apply main_return|]. split; [done|]. exists (history_added cur d).
    split; [done|]. rewrite Hmax. split; [lia|]. split; [lia|done].
  - intros cur c' t Hcur (-> & d & -> & Hle & Hlast & Hd). wp_go; [|by apply main_return].
    destruct H0 as [->| ->]; by apply main_return.
  - unfold is_sequence in *. lia.
  - unfold range_fuel. unfold is_sequence in *. lia.
  - unfold range_fuel. unfold is_sequence in *. lia.
  - split; [done|]. exists c. rewrite u32_small in Heqb0 by (unfold is_sequence, is_u32, MaxUint32 in *; lia).
    split; [done|]. split; [done|]. split; [lia|done].
Qed.

Lemma run_consistent cur c : main_node cur → consistent c → wp (run cur) main_result c None.
Proof using Hnumber.
  intros Hcur Hc. destruct cur; simpl in Hcur |- *; try done;
    try by (apply wp_return, main_return).
  - by apply start_consistent.
  - by apply build_consistent.
  - by apply resume_consistent.
  - apply historyRange_consistent; tauto.
Qed.

Lemma runStateMachine_consistent shutdown fuel cur w w' r :
  tx w = None → main_node cur → consistent (committed w) →
  runStateMachine shutdown fuel cur w = (w', r) →
  consistent (committed w') ∧ match r with
    | Finished _ => True
    | StillRunning next => main_node next
    | _ => False
    end.
Proof using Hnumber.
  revert cur w. induction fuel as [|fuel IH]; intros cur [c t n] Ht Hcur Hc; simpl in *; subst t.
  { by intros [= <- <-]. }
  destruct (run cur _) as [w1 r1] eqn:E. apply (wp_run _ main_result) in E; [|by apply run_consistent].
  destruct E as (Hc1 & Ht1 & tr & e & -> & Htr).
  destruct (decide _); [by intros [= <- <-]|]. destruct (shutdown fuel); [by intros [= <- <-]|].
  by apply IH.
Qed.


(** ** Progress *)

(** No call fails, the range is prepared, and the network is at [upto]. *)
Definition healthy (upto : Z) (a : answer) : Prop :=
  fails a = false ∧ flag a = true ∧ upto ≤ number a.

Section progress.
Context (upto : Z) (Hh : ∀ n, healthy upto (oracle n)).

Lemma hp_query {A} next cl (f : DB → A) Q c t :
  Q c t (Value (f (match t with Some d => d | None => c end))) → wp (try_ next (query cl f)) Q c t.
Proof using Hh. intros HQ n. unfold try_, query, ask. by rewrite (proj1 (Hh _)). Qed.

Lemma hp_update next cl f Q c d :
  Q c (Some (f d)) (Value tt) → wp (try_ next (update cl f)) Q c (Some d).
Proof using Hh. intros HQ n. unfold try_, update, ask. by rewrite (proj1 (Hh _)). Qed.

Lemma hp_process next cl f Q c d :
  is_Some (f d) → (∀ d', f d = Some d' → Q c (Some d') (Value tt)) → wp (try_ next (process cl f)) Q c (Some d).
Proof using Hh.
  intros [d' Hd] HQ n. unfold try_, process, ask, visible. rewrite (proj1 (Hh _)). simpl. rewrite Hd. by apply HQ.
Qed.

Lemma hp_external {A} next cl (f : answer → A) Q c t :
  (∀ a, healthy upto a → Q c t (Value (f a))) → wp (try_ next (external cl f)) Q c t.
Proof using Hh. intros HQ n. unfold try_, external, ask. rewrite (proj1 (Hh _)). apply HQ, Hh. Qed.

Lemma hp_begin next Q c : Q c (Some c) (Value tt) → wp (try_ next Begin) Q c None.
Proof using Hh. intros HQ n. unfold try_, Begin, ask. simpl. by rewrite (proj1 (Hh _)). Qed.

Lemma hp_commit next Q c d : Q d None (Value tt) → wp (try_ next Commit) Q c (Some d).
Proof using Hh. intros HQ n. unfold try_, Commit, ask. simpl. by rewrite (proj1 (Hh _)). Qed.

Lemma hp_prepare next from Q c t : Q c t (Value false) → wp (try_ next (maybePrepareRange from)) Q c t.
Proof using Hh.
  intros HQ n. unfold try_, maybePrepareRange, IsPrepared, external, ask.
  destruct (Hh (clock (MkWorld c t n))) as (-> & -> & _). apply HQ.
Qed.

Lemma hp_complete next ledger Q c d :
  ledger ≠ 0 → Q (set_last ledger d) None (Value tt) →
  wp (try_ next (completeIngestion ledger)) Q c (Some d).
Proof using Hh.
  intros Hl HQ n. unfold try_, completeIngestion, UpdateLastLedgerExpIngest, update, Commit, ask.
  destruct (Z.eqb_spec ledger 0); [done|]. rewrite (proj1 (Hh _)). simpl. by rewrite (proj1 (Hh _)).
Qed.
End progress.

Ltac hp_go H :=
  repeat (simpl; first
    [ apply wp_return | apply wp_defer | apply wp_bind
    | apply (hp_begin _ H) | apply (hp_query _ H) | apply (hp_prepare _ H) | apply (hp_complete _ H)
    | apply (hp_update _ H) | apply (hp_process _ H) | apply (hp_external _ H) | apply (hp_commit _ H)
    | apply wp_effect; [done|] | apply wp_value
    | match goal with |- wp (if ?b then _ else _) _ _ _ => destruct b eqn:? end
    | match goal with
      | |- (_ ≫= _) = Some _ → _ => intros (? & ? & [= <-])%bind_Some
      | |- ∀ _, _ => intros ?
      end ]).

(** Where a node leads when every call succeeds. *)
Definition leads (cur : stateMachineNode) (c : DB) (next : stateMachineNode) (c' : DB) : Prop :=
  wp (run cur) (λ c1 t r, c1 = c' ∧ t = None ∧ ∃ tr, r = Return tr None ∧ t_node tr = next) c None.

Lemma resume_leads upto latest c :
  (∀ n, healthy upto (oracle n)) → latest = lastLedgerExpIngest c →
  0 < latest → latest < upto → upto < MaxUint32 →
  expIngestVersion c = CurrentVersion →
  foldr Z.max 0 (historyLedgers c) = 0 ∨ foldr Z.max 0 (historyLedgers c) = latest →
  ∀ t, apply_changes (latest + 1) (stateTables c) = Some t →
  leads (resumeState latest) c (resumeState (latest + 1)) (ingested (latest + 1) c t).
Proof using Type.
  intros Hh Hlat Hpos Hup Hmax Hv Hhist t Ht. unfold leads. simpl.
  unfold resume_run. subst latest. assert (is_sequence (lastLedgerExpIngest c)) by (unfold is_sequence; lia).
  hp_go Hh; rewrite ?u32_succ in * by done;
    repeat match goal with
      | Ha : healthy _ _ |- _ => destruct Ha as (_ & _ & Ha)
      | H : context [if ?b then _ else _] |- _ => destruct b eqn:?
      | |- context [if ?b then _ else _] => destruct b eqn:?
      end; try lia.
  - simpl. rewrite Ht. by eexists.
  - simplify_eq. split; [done|]. split; [done|]. by eexists.
Qed.

Lemma build_leads upto cp c :
  (∀ n, healthy upto (oracle n)) → cp ≠ 0 →
  expIngestVersion c ≠ CurrentVersion ∨ lastLedgerExpIngest c ≤ 0 →
  ∀ t, archive cp (truncate_tables (stateTables c)) = Some t →
  leads (buildState cp false) c (resumeState cp) (built cp c t).
Proof using Type.
  intros Hh Hcp Hc t Ht. unfold leads. simpl. unfold build_run.
  destruct (Z.eqb_spec cp 0); [done|].
  hp_go Hh; try done; try lia; try (simpl; rewrite Ht; by eexists).
  all: simplify_eq; (split; [done|]; split; [done|]; by eexists).
Qed.

Lemma leads_step cur c next c' n k :
  leads cur c next c' → next ≠ stopState →
  ∃ n', runStateMachine (λ _, false) (S k) cur (MkWorld c None n) =
    runStateMachine (λ _, false) k next (MkWorld c' None n').
Proof using Type.
  intros Hl Hs. specialize (Hl n). simpl. destruct (run cur _) as [[c1 t1 n1] r]. simpl in Hl.
  destruct Hl as (-> & -> & tr & -> & <-). exists n1. by rewrite decide_False.
Qed.

Lemma resume_catches_up upto c n k :
  (∀ n, healthy upto (oracle n)) → 0 < lastLedgerExpIngest c →
  lastLedgerExpIngest c + Z.of_nat k ≤ upto → upto < MaxUint32 →
  expIngestVersion c = CurrentVersion →
  foldr Z.max 0 (historyLedgers c) = 0 ∨ foldr Z.max 0 (historyLedgers c) = lastLedgerExpIngest c →
  at_ledger (lastLedgerExpIngest c) (stateTables c) →
  (∀ i t, lastLedgerExpIngest c ≤ i < lastLedgerExpIngest c + Z.of_nat k → at_ledger i t → is_Some (apply_changes (i + 1) t)) →
  ∃ w', runStateMachine (λ _, false) k (resumeState (lastLedgerExpIngest c)) (MkWorld c None n) =
      (w', StillRunning (resumeState (lastLedgerExpIngest c + Z.of_nat k))) ∧
    lastLedgerExpIngest (committed w') = lastLedgerExpIngest c + Z.of_nat k ∧
    historyLedgers (committed w') = historyLedgers c ++ seqZ (lastLedgerExpIngest c + 1) (Z.of_nat k) ∧
    at_ledger (lastLedgerExpIngest c + Z.of_nat k) (stateTables (committed w')).
Proof using Type.
  revert c n. induction k as [|k IH]; intros c n Hh Hpos Hup Hmax Hv Hhist Hat Hrun.
  { exists (MkWorld c None n). rewrite !Z.add_0_r. simpl. by rewrite app_nil_r. }
  destruct (Hrun (lastLedgerExpIngest c) (stateTables c)) as [t Ht]; [lia|done|].
  destruct (leads_step (resumeState (lastLedgerExpIngest c)) c
    (resumeState (lastLedgerExpIngest c + 1)) (ingested (lastLedgerExpIngest c + 1) c t) n k) as [n' ->];
    [by apply (resume_leads upto); (done || lia)|done|].
  destruct (IH (ingested (lastLedgerExpIngest c + 1) c t) n' Hh) as (w' & E & H1 & H2 & H3);
    simpl; try done; try lia.
  - right. rewrite latest_snoc by lia. lia.
  - by eapply apply_changes_at.
  - intros i ti Hi. apply Hrun. lia.
  - simpl in E, H1, H2, H3. exists w'. rewrite E.
    replace (lastLedgerExpIngest c + 1 + Z.of_nat k) with (lastLedgerExpIngest c + Z.of_nat (S k)) in * by lia.
    split; [done|]. split; [done|]. split; [|done].
    rewrite H2, <-app_assoc. f_equal. rewrite (seqZ_cons _ (Z.of_nat (S k))) by lia. simpl.
    do 2 f_equal; lia.
Qed.

(** ** Reingestion *)

(** What reingesting [from, to] makes of the database. *)
Definition reingested (from to : Z) (d : DB) : DB :=
  MkDB (lastLedgerExpIngest d) (expIngestVersion d) (expStateInvalid d)
    (filter (λ x, ¬ (from ≤ x ≤ to)) (historyLedgers d) ++ seqZ from (to - from + 1)) (stateTables d).

Lemma reingested_nothing from d : reingested from (from - 1) d = d.
Proof using Type.
  unfold reingested. rewrite seqZ_nil, app_nil_r by lia. destruct d as [l v i h s]; simpl. f_equal.
  apply filter_all, Forall_forall. lia.
Qed.

(** One ledger more, ingested in a transaction of its own. *)
Lemma reingested_next from cur d :
  from ≤ cur → reingested cur cur (reingested from (cur - 1) d) = reingested from cur d.
Proof using Type.
  intros Hle. unfold reingested; simpl. f_equal.
  rewrite filter_app. replace (cur - cur + 1) with 1 by lia.
  replace (cur - 1 - from + 1) with (cur - from) by lia.
  rewrite (seqZ_app from (cur - from) 1) by lia.
  replace (from + (cur - from)) with cur by lia. rewrite app_assoc. f_equal. f_equal.
  - rewrite list_filter_filter. apply list_filter_iff. intros x. lia.
  - apply filter_all, Forall_forall. intros x Hx. apply elem_of_seqZ in Hx. lia.
Qed.

(** The range of identifiers that is deleted is that of the ledgers. *)
Lemma range_ids from to :
  2 ≤ from ≤ to → to < MaxInt32 →
  ∃ a b, LedgerRangeInclusive (i32 from) (i32 to) = Ret (a, b) ∧
    ∀ x, (a ≤ packed (New x 0 0) < b) ↔ (from ≤ x ≤ to).
Proof using Type.
  intros Hf Ht. unfold MaxInt32 in Ht. rewrite !i32_small by (unfold is_i32; lia).
  unfold LedgerRangeInclusive.
  destruct (Z.ltb_spec to from); [lia|].
  destruct (Z.leb_spec from 0); [lia|]. destruct (Z.leb_spec to 0); [lia|]. cbn [orb].
  rewrite i32_small by (unfold is_i32; lia). destruct (Z.eqb_spec from 1); [lia|].
  rewrite !ToInt64_packed by (unfold wf, New; simpl; lia).
  do 2 eexists. split; [done|]. intros x. unfold packed, New; simpl. lia.
Qed.

Lemma ingestRange_spec from to Q c d :
  2 ≤ from ≤ to → to < MaxInt32 →
  (∀ e d', Q c (Some d') (Return stop (Some e))) → Q c (Some (reingested from to d)) (Value tt) →
  wp (ingestRange from to) Q c (Some d).
Proof using Type.
  intros Hf Ht Herr Hok. apply wp_ingestRange.
  destruct (range_ids from to Hf Ht) as (a & b & -> & Hab). wp_go; [done|].
  set (h := filter _ _).
  pose (I := λ cur (c' : DB) t', c' = c ∧ from ≤ cur ≤ to + 1 ∧ t' = Some (MkDB (lastLedgerExpIngest d)
    (expIngestVersion d) (expStateInvalid d) (h ++ seqZ from (cur - from)) (stateTables d))).
  apply wp_for with (I := I); subst I; unfold range_fuel, MaxInt32, MaxUint32 in *; simpl; try lia.
  - intros cur c' t' Hcur (-> & Hle & ->). unfold runTransactionProcessorsOnLedger. wp_go; [done|].
    split; [done|]. split; [lia|]. do 2 f_equal.
    replace (cur + 1 - from) with (cur - from + 1) by lia. rewrite (seqZ_app from (cur - from) 1) by lia.
    simpl. rewrite <-app_assoc. by replace (from + (cur - from)) with cur by lia.
  - intros cur c' t' Hcur (-> & Hle & ->). replace (cur - from) with (to - from + 1) by lia.
    subst h. rewrite (list_filter_iff (λ seq, ¬ a ≤ packed (New seq 0 0) < b) (λ x, ¬ (from ≤ x ≤ to))).
    + done.
    + intros x. by rewrite Hab.
  - split; [done|]. split; [lia|]. by rewrite Z.sub_diag, seqZ_nil, app_nil_r by lia.
Qed.

(** The first ledger that is reingested: ledger 1 is pregenerated. *)
Definition reingest_first (from : Z) : Z := if from =? 1 then 2 else from.

(** What a run of [reingestHistoryRangeState] on [c] may end in: the ledgers up
    to [upto] are reingested and the rest of the database is untouched. *)
Definition reingest_result (from to : Z) (force : bool) (c c' : DB) (t : option DB) (r : result unit) : Prop :=
  t = None ∧ ∃ e upto, r = Return stop e ∧ c' = reingested from upto c ∧ from - 1 ≤ upto ≤ to ∧
    (e = None → upto = to) ∧
    (force = true → upto = from - 1 ∨ upto = to) ∧
    (force = false → 0 < lastLedgerExpIngest c ≤ to → upto = from - 1 ∧ e ≠ None).

Lemma reingest_unchanged from to force c e :
  from ≤ to → reingest_result from to force c c None (Return stop (Some e)).
Proof using Type.
  intros Hle. split; [done|]. exists (Some e), (from - 1). rewrite reingested_nothing.
  repeat split; (done || lia || tauto).
Qed.

Lemma reingest_forced from to c e :
  from ≤ to → reingest_result from to true c (reingested from to c) None (Return stop e).
Proof using Type.
  intros Hle. split; [done|]. exists e, to. repeat split; (done || lia || tauto).
Qed.

Lemma reingest_partial from upto to c e :
  from - 1 ≤ upto ≤ to → (e = None → upto = to) → ¬ 0 < lastLedgerExpIngest c ≤ to →
  reingest_result from to false c (reingested from upto c) None (Return stop e).
Proof using Type.
  intros Hle He Hl. split; [done|]. exists e, upto. repeat split; (done || lia || tauto).
Qed.

Lemma reingest_spec from to force c :
  1 ≤ from ≤ to → 2 ≤ to < MaxInt32 →
  wp (reingest_run from to force) (reingest_result (reingest_first from) to force c) c None.
Proof using Type.
  intros Hf Ht. unfold reingest_run. fold (reingest_first from).
  assert (2 ≤ reingest_first from ≤ to) as Hfirst by (unfold reingest_first; destruct (Z.eqb_spec from 1); lia).
  set (first := reingest_first from) in *.
  destruct ((from =? 0) || (to =? 0) || (to <? from)) eqn:?; [lia|].
  wp_go; try (by apply reingest_unchanged; lia).
  - apply ingestRange_spec; try lia; [intros e d'; by apply reingest_unchanged; lia|].
    wp_go; [|by apply reingest_forced; lia].
    destruct H0 as [->| ->]; [by apply reingest_unchanged; lia|by apply reingest_forced; lia].
  - pose (I := λ cur (c' : DB) (t : option DB), t = None ∧ first ≤ cur ≤ to + 1 ∧ c' = reingested first (cur - 1) c).
    apply wp_for with (I := I); subst I; unfold range_fuel, MaxInt32, MaxUint32 in *; simpl; try lia.
    + intros cur c' t Hcur (-> & Hle & ->). wp_go.
      * apply reingest_partial; (done || lia).
      * apply ingestRange_spec; [lia|unfold MaxInt32; lia|intros e d'; apply reingest_partial; (done || lia)|].
        rewrite reingested_next by lia. wp_go.
        -- destruct H0 as [->| ->]; apply reingest_partial; (done || lia).
        -- split; [done|]. split; [lia|]. by replace (cur + 1 - 1) with cur by lia.
    + intros cur c' t Hcur (-> & Hle & ->). wp_go. apply reingest_partial; (done || lia).
    + split; [done|]. split; [lia|]. by rewrite reingested_nothing.
Qed.
End fsm.
Arguments Value {A} a.
Arguments Return {A} t err.
Arguments Crash {A}.
Arguments OutOfFuel {A}.

(** ** A cluster of instances on one database

    A node reads and writes the database under the row lock that
    [GetLastLedgerExpIngest] takes, up to its only commit, so the runs of
    different instances are atomic steps; each step has an oracle of its own. *)
Section cluster.
Context {T : Type} `{StateTables T}.

(** [markStateInvalid], called by the background verification. *)
Definition markStateInvalid (d : DB (T := T)) : DB :=
  MkDB (lastLedgerExpIngest d) (expIngestVersion d) true (historyLedgers d) (stateTables d).

Inductive cluster_step : DB (T := T) * list stateMachineNode → DB (T := T) * list stateMachineNode → Prop :=
  | cluster_join d nodes : cluster_step (d, nodes) (d, nodes ++ [startState 0])
  | cluster_genesis d nodes : cluster_step (d, nodes) (d, nodes ++ [buildState 1 true])
  | cluster_leave d nodes i : cluster_step (d, nodes) (d, <[i := stopState]> nodes)
  | cluster_invalid d nodes : cluster_step (d, nodes) (markStateInvalid d, nodes)
  | cluster_run oracle d nodes i cur n w tr err :
      (∀ n, is_sequence (number (oracle n))) →
      nodes !! i = Some cur →
      run oracle cur (MkWorld d None n) = (w, Return tr err) →
      cluster_step (d, nodes) (committed w, <[i := t_node tr]> nodes).

Lemma markStateInvalid_consistent `{!StateTablesLaws T} d : consistent d → consistent (markStateInvalid d).
Proof. by intros [Hl Hh Hs]; split. Qed.

Lemma cluster_step_consistent `{!StateTablesLaws T} s s' :
  cluster_step s s' → consistent s.1 ∧ Forall main_node s.2 → consistent s'.1 ∧ Forall main_node s'.2.
Proof.
  intros Hstep [Hc Hn]. destruct Hstep as [d ns|d ns|d ns i|d ns|o d ns i cur n w tr err Ho Hi E]; simpl in *.
  - split; [done|]. apply Forall_app; split; [done|]. by repeat constructor.
  - split; [done|]. apply Forall_app; split; [done|]. by repeat constructor.
  - split; [done|]. by apply Forall_insert.
  - split; [by apply markStateInvalid_consistent|done].
  - assert (main_node cur) as Hcur by by eapply Forall_lookup_1.
    apply (wp_run _ main_result) in E; [|by apply run_consistent].
    destruct E as (Hc' & _ & tr' & e' & [= <- <-] & Htr). split; [done|]. by apply Forall_insert.
Qed.

Lemma cluster_reachable_consistent `{!StateTablesLaws T} s s' :
  rtc cluster_step s s' → consistent s.1 ∧ Forall main_node s.2 → consistent s'.1 ∧ Forall main_node s'.2.
Proof. induction 1 as [|s1 s2 s3 H12 _ IH]; [done|]. intros Hs. by eapply IH, cluster_step_consistent. Qed.
End cluster.

(** A database that no instance has written, and tables that hold the sequence
    they stand for, for the examples. *)
#[local] Instance Z_tables : StateTables Z := {|
  truncate_tables _ := 0; archive n _ := Some n; apply_changes n _ := Some n |}.
#[local] Instance Z_tables_laws : StateTablesLaws Z.
Proof. exists (λ n s, s = n); [by intros n t s _ [= <-]|by intros n s s' _ _ [= <-]]. Defined.

Definition empty_db : DB (T := Z) := MkDB 0 0 false [] 0.
Definition steady (n : Z) : nat → answer (T := Z) := λ _, MkAnswer false false empty_db n true.

(** ** Properties *)

(** whatever the calls answer and whichever node it starts from, the machine
    never enters a node with the transaction of another, and when it stops, by
    itself or by a shutdown, no transaction is left open. *)
Theorem runStateMachine_disposes_tx {T} `{StateTables T} oracle shutdown fuel cur w :
  tx w = None →
  tx (runStateMachine oracle shutdown fuel cur w).1 = None ∧
  (runStateMachine oracle shutdown fuel cur w).2 ≠ UnexpectedTransaction.
Proof. apply runStateMachine_closed. Qed.

Theorem runStateMachine_disposes_tx_witness :
  tx (runStateMachine (steady 63) (λ _, false) 5 (startState 0) (MkWorld empty_db None 0)).1 = None ∧
  (runStateMachine (steady 63) (λ _, false) 5 (startState 0) (MkWorld empty_db None 0)).2
    ≠ UnexpectedTransaction.
Proof. apply runStateMachine_disposes_tx. reflexivity. Defined.

(** C10: in a cluster whose instances run [Run] or [BuildGenesisState] on one
    database, in any order, with any calls failing (commits that take effect
    and report a failure included), joining, leaving and marking the state
    invalid: the ledgers of the history stay a contiguous range, and when the
    version is current the state tables are those after the last ingested
    ledger. *)
Theorem cluster_consistent {T} `{StateTablesLaws T} d s :
  consistent d → rtc cluster_step (d, []) s → consistent s.1 ∧ Forall main_node s.2.
Proof. intros Hd Hs. by apply (cluster_reachable_consistent (d, [])). Qed.

Lemma empty_db_consistent : consistent empty_db.
Proof. by split; [|exists 1, 0|]. Qed.

Theorem cluster_consistent_witness :
  consistent (built 63 empty_db 63) ∧ Forall main_node [resumeState 63].
Proof.
  apply (cluster_consistent empty_db (built 63 empty_db 63, [resumeState 63]) empty_db_consistent).
  eapply rtc_l; [apply cluster_join|]. simpl.
  eapply rtc_l; [eapply (cluster_run (steady 63) _ _ 0%nat (startState 0) 0%nat); [done|done|vm_compute; reflexivity]|]. simpl.
  eapply rtc_l; [eapply (cluster_run (steady 63) _ _ 0%nat (buildState 63 false) 0%nat); [done|done|vm_compute; reflexivity]|].
  vm_compute. apply rtc_refl.
Defined.

(** [Run] never panics and never loops inside a node: from a consistent
    database, and with the sequences of the network below the largest integer,
    every node returns a transition to another of its nodes, so that after any
    number of nodes the machine has stopped or is at a node. *)
Theorem Run_safe {T} `{StateTablesLaws T} oracle shutdown fuel w w' r :
  (∀ n, is_sequence (number (oracle n))) → tx w = None → consistent (committed w) →
  Run oracle shutdown fuel w = (w', r) →
  consistent (committed w') ∧ match r with
    | Finished _ => True
    | StillRunning next => main_node next
    | _ => False
    end.
Proof. intros Hn Ht Hc E. by apply (runStateMachine_consistent oracle Hn shutdown fuel (startState 0) w). Qed.

Theorem Run_safe_witness :
  consistent (built 63 empty_db 63) ∧ main_node (resumeState 63).
Proof.
  apply (Run_safe (steady 63) (λ _, false) 2 (MkWorld empty_db None 0) (MkWorld (built 63 empty_db 63) None 17)
    (StillRunning (resumeState 63))).
  - done.
  - done.
  - apply empty_db_consistent.
  - by vm_compute.
Defined.

(** C13: when no call fails, the ledger backend answers at every node that the
    range is prepared, every call that asks for the latest ledger of the network
    is told at least [upto], and the processors have nothing to report, an
    instance that builds the state from checkpoint [cp] over a database without
    history, whose state is of another version or empty, and runs [k] more nodes
    (up to [upto], below the largest 32-bit number) has ingested exactly the [k]
    ledgers after the checkpoint, each once and in order, and its tables are the
    state after the last of them. *)
Theorem build_catches_up {T} `{StateTablesLaws T} oracle upto cp k d n :
  (∀ n, healthy upto (oracle n)) → 0 < cp → cp + Z.of_nat k ≤ upto → upto < MaxUint32 →
  expIngestVersion d ≠ CurrentVersion ∨ lastLedgerExpIngest d ≤ 0 → historyLedgers d = [] →
  is_Some (archive cp (truncate_tables (stateTables d))) →
  (∀ i t, cp ≤ i < cp + Z.of_nat k → at_ledger i t → is_Some (apply_changes (i + 1) t)) →
  ∃ w', runStateMachine oracle (λ _, false) (S k) (buildState cp false) (MkWorld d None n) =
      (w', StillRunning (resumeState (cp + Z.of_nat k))) ∧
    lastLedgerExpIngest (committed w') = cp + Z.of_nat k ∧
    historyLedgers (committed w') = seqZ (cp + 1) (Z.of_nat k) ∧
    at_ledger (cp + Z.of_nat k) (stateTables (committed w')).
Proof.
  intros Hh Hcp Hup Hmax Hd Hhist [t Ht] Hrun.
  destruct (leads_step oracle (buildState cp false) d (resumeState cp) (built cp d t) n k) as [n' ->];
    [by apply (build_leads oracle upto); (done || lia)|done|].
  destruct (resume_catches_up oracle upto (built cp d t) n' k) as (w' & E & H1 & H2 & H3);
    simpl; try done.
  - left. by rewrite Hhist.
  - by eapply archive_at.
  - simpl in *. exists w'. rewrite E, H1, H2, Hhist. done.
Qed.

Theorem build_catches_up_witness :
  ∃ w', runStateMachine (steady 70) (λ _, false) 4 (buildState 63 false) (MkWorld empty_db None 0) =
      (w', StillRunning (resumeState 66)) ∧
    lastLedgerExpIngest (committed w') = 66 ∧
    historyLedgers (committed w') = [64; 65; 66] ∧
    at_ledger 66 (stateTables (committed w')).
Proof.
  apply (build_catches_up (steady 70) 70 63 3 empty_db 0); try done.
  by right.
Defined.

(** C14: reingesting a range replaces exactly the ledgers of the range in the
    history (from ledger 2 on), ledger by ledger up to where it failed, or all
    or nothing with [force]; it returns no error only when the whole range is
    done, it always returns, and it never touches the state.  Without [force]
    a range that reaches the last ingested ledger is refused. *)
Theorem reingest_replaces {T} `{StateTables T} oracle from to force (c : DB (T := T)) n :
  1 ≤ from ≤ to → 2 ≤ to < MaxInt32 →
  let '(w, r) := reingest_run oracle from to force (MkWorld c None n) in
  tx w = None ∧ ∃ e upto, r = Return stop e ∧
    committed w = reingested (reingest_first from) upto c ∧ reingest_first from - 1 ≤ upto ≤ to ∧
    (e = None → upto = to) ∧
    (force = true → upto = reingest_first from - 1 ∨ upto = to) ∧
    (force = false → 0 < lastLedgerExpIngest c ≤ to → upto = reingest_first from - 1 ∧ e ≠ None).
Proof.
  intros Hf Ht. pose proof (reingest_spec oracle from to force c Hf Ht n) as Hs.
  by destruct (reingest_run _ _ _ _ _) as [w r].
Qed.

Theorem reingest_replaces_witness :
  let c := MkDB 10 12 false [3; 4; 5; 6; 7; 8; 9; 10] 10 in
  let '(w, r) := reingest_run (steady 70) 4 6 false (MkWorld c None 0) in
  tx w = None ∧ ∃ e upto, r = Return stop e ∧
    committed w = reingested (reingest_first 4) upto c ∧ reingest_first 4 - 1 ≤ upto ≤ 6 ∧
    (e = None → upto = 6) ∧
    (false = true → upto = reingest_first 4 - 1 ∨ upto = 6) ∧
    (false = false → 0 < lastLedgerExpIngest c ≤ 6 → upto = reingest_first 4 - 1 ∧ e ≠ None).
Proof. apply (reingest_replaces (steady 70) 4 6 false); unfold MaxInt32; lia. Defined.

(** The range [1, 1] is empty once ledger 1 is skipped: with [force] it is an
    error, without it nothing is done and there is none. *)
Example reingest_first_ledger :
  (reingest_run (steady 70) 1 1 true (MkWorld empty_db None 0)).2 =
    Return stop (Some (ErrToid ErrFromAfterTo)) ∧
  (reingest_run (steady 70) 1 1 false (MkWorld empty_db None 0)).2 = Return stop None.
Proof. by vm_compute. Qed.

(** A range that ends in the largest 32-bit signed sequence panics. *)
Example reingest_last_ledger :
  (reingest_run (steady 70) MaxInt32 MaxInt32 true (MkWorld empty_db None 0)).2 = Crash.
Proof. by vm_compute. Qed.
