(* ===== verification/Parallel.v ===== *)
(** * ingest: reingestion by parallel workers

    Models [src/services/aurora/internal/ingest/parallel.go].  The goroutines
    are a step relation: the loop that queues the sub-ranges, the workers, the
    unbuffered channel between them (a sub-range goes from the loop to a worker
    that waits for one), the [stop] channel, and the error of the lowest failed
    range.  Whether the reingestion of a sub-range fails is up to the step.  The
    workers are spawned before, by a factory that may fail. *)

From S2P Require Import Prelude.

Definition historyCheckpointLedgerInterval : Z := 64.
Definition minBatchSize : Z := historyCheckpointLedgerInterval.

Record ledgerRange := MkLedgerRange { from : Z; to : Z }.
#[export] Instance ledgerRange_eq_dec : EqDecision ledgerRange.
Proof. solve_decision. Defined.

(** [uint32(workerCount)] *)
Definition calculateParallelLedgerBatchSize (rangeSize batchSizeSuggestion workerCount : Z) : Z :=
  let batchSize :=
    if (batchSizeSuggestion =? 0) || (rangeSize / batchSizeSuggestion <? u32 workerCount)
    then rangeSize / u32 workerCount else batchSizeSuggestion in
  let batchSize := if batchSize <? minBatchSize then minBatchSize else batchSize in
  u32 (batchSize / historyCheckpointLedgerInterval * historyCheckpointLedgerInterval).

(** One round of the queueing loop: the end of the sub-range that starts at
    [subRangeFrom]. *)
Definition subRangeTo (batchSize toLedger subRangeFrom : Z) : Z :=
  let subRangeTo := u32 (subRangeFrom + (batchSize - 1)) in
  if toLedger <? subRangeTo then toLedger else subRangeTo.

(** The error of [newParallelSystems]: "workerCount must be > 0", and the one of a
    [systemFactory] that fails. *)
Inductive parallel_error := ErrWorkerCount | ErrNewSystem.
Definition newParallelSystems (workerCount : Z) : outcome parallel_error Z :=
  if workerCount <? 1 then Fail ErrWorkerCount else Ret workerCount.

Section parallel.
Context (toLedger batchSize : Z).

(** A worker waits for a sub-range or for [stop], reingests one, has failed and
    is about to report its error, has reported it and is about to close [stop],
    or has returned. *)
Inductive worker :=
  | Waiting
  | Running (r : ledgerRange)
  | Failing (r : ledgerRange)
  | Stopping
  | Returned.

(** [queueing] is the next sub-range's start, until the loop is left; [jobs] are
    the sub-ranges sent so far, [done_jobs] those reingested without error,
    [failed_jobs] those whose reingestion returned an error. *)
Record system := MkSystem {
  queueing : option Z;
  stopped : bool;
  workers : list worker;
  lowestRangeErr : option ledgerRange;
  jobs : list ledgerRange;
  done_jobs : list ledgerRange;
  failed_jobs : list ledgerRange }.

(** The start of [ReingestRange]: every worker is spawned and waits. *)
Definition ReingestRange_start (fromLedger : Z) (workerCount : nat) : system :=
  MkSystem (Some fromLedger) false (replicate workerCount Waiting) None [] [] [].

(** The loop that spawns the workers ends with the first system that the factory
    cannot make: the workers before it wait, and nothing is queued. *)
Fixpoint spawn_workers (ws : list worker) (factory : list bool) : list worker * option parallel_error :=
  match factory with
  | [] => (ws, None)
  | true :: factory => spawn_workers (ws ++ [Waiting]) factory
  | false :: _ => (ws, Some ErrNewSystem)
  end.
Definition ReingestRange_spawn (fromLedger : Z) (factory : list bool) : system * option parallel_error :=
  let '(ws, err) := spawn_workers [] factory in
  (MkSystem (match err with None => Some fromLedger | Some _ => None end) false ws None [] [] [], err).

(** [lowestRangeErr == nil || lowestRangeErr.ledgerRange.from > rangeErr.ledgerRange.from] *)
Definition record_error (lowest : option ledgerRange) (r : ledgerRange) : option ledgerRange :=
  match lowest with
  | None => Some r
  | Some l => if from r <? from l then Some r else Some l
  end.

Inductive step : system → system → Prop :=
  | queue_send s subRangeFrom i :
      queueing s = Some subRangeFrom → subRangeFrom < toLedger → workers s !! i = Some Waiting →
      let r := MkLedgerRange subRangeFrom (subRangeTo batchSize toLedger subRangeFrom) in
      step s (MkSystem (Some (u32 (to r + 1))) (stopped s) (<[i := Running r]> (workers s))
        (lowestRangeErr s) (jobs s ++ [r]) (done_jobs s) (failed_jobs s))
  | queue_stopped s subRangeFrom :
      queueing s = Some subRangeFrom → subRangeFrom < toLedger → stopped s = true →
      step s (MkSystem None true (workers s) (lowestRangeErr s) (jobs s) (done_jobs s) (failed_jobs s))
  | queue_end s subRangeFrom :
      queueing s = Some subRangeFrom → ¬ subRangeFrom < toLedger →
      step s (MkSystem None true (workers s) (lowestRangeErr s) (jobs s) (done_jobs s) (failed_jobs s))
  | worker_stop s i :
      workers s !! i = Some Waiting → stopped s = true →
      step s (MkSystem (queueing s) (stopped s) (<[i := Returned]> (workers s))
        (lowestRangeErr s) (jobs s) (done_jobs s) (failed_jobs s))
  | worker_success s i r :
      workers s !! i = Some (Running r) →
      step s (MkSystem (queueing s) (stopped s) (<[i := Waiting]> (workers s))
        (lowestRangeErr s) (jobs s) (done_jobs s ++ [r]) (failed_jobs s))
  | worker_failure s i r :
      workers s !! i = Some (Running r) →
      step s (MkSystem (queueing s) (stopped s) (<[i := Failing r]> (workers s))
        (lowestRangeErr s) (jobs s) (done_jobs s) (failed_jobs s ++ [r]))
  | worker_report s i r :
      workers s !! i = Some (Failing r) →
      step s (MkSystem (queueing s) (stopped s) (<[i := Stopping]> (workers s))
        (record_error (lowestRangeErr s) r) (jobs s) (done_jobs s) (failed_jobs s))
  | worker_close s i :
      workers s !! i = Some Stopping →
      step s (MkSystem (queueing s) true (<[i := Returned]> (workers s))
        (lowestRangeErr s) (jobs s) (done_jobs s) (failed_jobs s)).

(** [wg.Wait] is passed; what [ReingestRange] returns is the restart range. *)
Definition finished (s : system) : Prop := queueing s = None ∧ Forall (λ w, w = Returned) (workers s).
Definition ReingestRange_result (s : system) : option ledgerRange :=
  (λ e, MkLedgerRange (from e) toLedger) <$> lowestRangeErr s.


(** ** The start *)
Lemma spawn_workers_waiting factory n :
  ∃ k err, spawn_workers (replicate n Waiting) factory = (replicate (n + k) Waiting, err) ∧
    (Forall (λ ok, ok = true) factory → k = length factory ∧ err = None) ∧
    (false ∈ factory → err = Some ErrNewSystem).
Proof.
  revert n. induction factory as [|[] factory IH]; intros n; cbn [spawn_workers].
  - exists 0%nat, None. rewrite Nat.add_0_r. split_and!; [done|done|by intros ?%elem_of_nil].
  - destruct (IH (S n)) as (k & err & E & Hall & Hbad). exists (S k), err.
    rewrite <- replicate_S_end.
    rewrite E. replace (S n + k)%nat with (n + S k)%nat by lia. split_and!; [done| |].
    + intros [_ H]%Forall_cons. destruct (Hall H) as [-> ->]. done.
    + intros [?|H]%elem_of_cons; [done|by apply Hbad].
  - exists 0%nat, (Some ErrNewSystem). rewrite Nat.add_0_r. split_and!; [done| |done]. by intros [? _]%Forall_cons.
Qed.

(** When the factory makes every system, the run starts as [ReingestRange_start]
    says.  When it fails, [ReingestRange] returns its error, and the workers that
    were spawned wait for ever. *)
Lemma ReingestRange_spawn_all fromLedger factory :
  Forall (λ ok, ok = true) factory →
  ReingestRange_spawn fromLedger factory = (ReingestRange_start fromLedger (length factory), None).
Proof.
  intros Hall. unfold ReingestRange_spawn, ReingestRange_start.
  destruct (spawn_workers_waiting factory 0) as (k & err & E & H & _). cbn [replicate] in E. rewrite E.
  by destruct (H Hall) as [-> ->].
Qed.

Lemma ReingestRange_spawn_failed fromLedger factory :
  false ∈ factory →
  ∃ k, let s := MkSystem None false (replicate k Waiting) None [] [] [] in
    ReingestRange_spawn fromLedger factory = (s, Some ErrNewSystem) ∧ ∀ s', ¬ step s s'.
Proof.
  intros Hbad. unfold ReingestRange_spawn.
  destruct (spawn_workers_waiting factory 0) as (k & err & E & _ & H). cbn [replicate] in E. rewrite E, (H Hbad).
  exists k. split; [done|]. intros s' Hs. inversion Hs; simplify_eq/=;
    match goal with H : replicate _ _ !! _ = Some _ |- _ => apply lookup_replicate in H as [H _]; done end.
Qed.

(** ** Termination

    Every step decreases the measure: a sub-range costs the queueing loop three
    units, of which the worker that takes it gets two. *)
Definition worker_weight (w : worker) : nat :=
  match w with Waiting => 1 | Running _ => 3 | Failing _ => 2 | Stopping => 1 | Returned => 0 end.
Definition workers_weight (ws : list worker) : nat := sum_list_with worker_weight ws.
Definition measure (s : system) : nat :=
  match queueing s with Some f => 1 + 3 * Z.to_nat (toLedger - f) | None => 0 end + workers_weight (workers s).

Lemma workers_weight_insert ws i w v :
  ws !! i = Some w → (workers_weight (<[i := v]> ws) + worker_weight w = workers_weight ws + worker_weight v)%nat.
Proof.
  unfold workers_weight. revert i; induction ws as [|u ws IH]; intros [|i] H; simplify_eq/=; [lia|].
  specialize (IH _ H). lia.
Qed.

Context (Hbatch : 1 ≤ batchSize) (Hwrap : toLedger + batchSize < 2 ^ 32).

Lemma subRangeTo_range f : f < toLedger → 0 ≤ f →
  f ≤ subRangeTo batchSize toLedger f ≤ toLedger ∧ u32 (subRangeTo batchSize toLedger f + 1) = subRangeTo batchSize toLedger f + 1.
Proof.
  intros Hf H0. unfold subRangeTo. rewrite (u32_small (f + _)) by (unfold is_u32; lia).
  split; [|apply u32_small; unfold is_u32]; case_if; lia.
Qed.

(** ** The invariant *)
Fixpoint tiles (lo : Z) (js : list ledgerRange) (hi : Z) : Prop :=
  match js with
  | [] => lo = hi
  | r :: js' => from r = lo ∧ from r ≤ to r ∧ tiles (to r + 1) js' hi
  end.

Lemma tiles_snoc lo js hi r : tiles lo js hi → from r = hi → from r ≤ to r → tiles lo (js ++ [r]) (to r + 1).
Proof. revert lo; induction js as [|j js IH]; intros lo; naive_solver. Qed.

Lemma tiles_le lo js hi : tiles lo js hi → lo ≤ hi.
Proof. revert lo; induction js as [|j js IH]; intros lo; simpl; [lia|]. intros (? & ? & ?%IH). lia. Qed.

Lemma tiles_cover lo js hi x : tiles lo js hi → lo ≤ x < hi → ∃ r, r ∈ js ∧ from r ≤ x ≤ to r.
Proof.
  revert lo; induction js as [|j js IH]; intros lo; simpl; [lia|]. intros (<- & ? & Ht) Hx.
  destruct (decide (x ≤ to j)); [exists j; split; [left|lia]|].
  destruct (IH _ Ht) as (r & ? & ?); [lia|]. exists r. split; [by right|done].
Qed.

Lemma tiles_bounds lo js hi r : tiles lo js hi → r ∈ js → lo ≤ from r ∧ from r ≤ to r < hi.
Proof.
  revert lo; induction js as [|j js IH]; intros lo; simpl; [by intros _ ?%elem_of_nil|].
  intros (<- & ? & Ht) [->|Hr]%elem_of_cons; [apply tiles_le in Ht; lia|]. specialize (IH _ Ht Hr). lia.
Qed.

Lemma tiles_before lo js hi r :
  tiles lo js hi → r ∈ js → ∃ js', tiles lo js' (from r) ∧ ∀ q, q ∈ js' → q ∈ js.
Proof.
  revert lo; induction js as [|j js IH]; intros lo; simpl; [by intros _ ?%elem_of_nil|].
  intros (<- & ? & Ht) [->|Hr]%elem_of_cons; [exists []; split; [done|by intros ? ?%elem_of_nil]|].
  destruct (IH _ Ht Hr) as (js' & ? & Hin). exists (j :: js'). split; [done|].
  intros q [->|Hq]%elem_of_cons; [by left|right; auto].
Qed.

Definition holds (w : worker) (r : ledgerRange) : Prop := w = Running r ∨ w = Failing r.

(** A job that was sent is done, is in a worker's hands, or failed and then the
    recorded error is not above it. *)
Definition accounted (s : system) (r : ledgerRange) : Prop :=
  r ∈ done_jobs s ∨ (∃ i w, workers s !! i = Some w ∧ holds w r) ∨
  (∃ e, lowestRangeErr s = Some e ∧ from e ≤ from r).

Record inv (fromLedger : Z) (s : system) : Prop := {
  inv_tiles : ∃ n, tiles fromLedger (jobs s) n ∧ (jobs s ≠ [] → n ≤ toLedger + 1) ∧
    match queueing s with
    | Some f => f = n
    | None => toLedger ≤ n ∨ lowestRangeErr s ≠ None
    end;
  inv_shape : ∀ r, r ∈ jobs s → from r < toLedger ∧ to r = subRangeTo batchSize toLedger (from r);
  inv_accounted : ∀ r, r ∈ jobs s → accounted s r;
  inv_done : ∀ r, r ∈ done_jobs s → r ∈ jobs s;
  inv_held : ∀ i w r, workers s !! i = Some w → holds w r → r ∈ jobs s;
  inv_lowest : ∀ e, lowestRangeErr s = Some e → e ∈ jobs s;
  inv_stopping : ∀ i, workers s !! i = Some Stopping → lowestRangeErr s ≠ None;
  inv_stopped : stopped s = true → queueing s ≠ None → lowestRangeErr s ≠ None;
  inv_queue_left : queueing s = None → stopped s = true;
  inv_returned : ∀ i, workers s !! i = Some Returned → stopped s = true }.

Lemma worker_insert_Some (ws : list worker) i v j u :
  <[i := v]> ws !! j = Some u → (j = i ∧ u = v) ∨ ws !! j = Some u.
Proof. intros [(-> & -> & ?)|[? ?]]%list_lookup_insert_Some; auto. Qed.

Lemma accounted_move s s' r i w v :
  accounted s r → workers s !! i = Some w → workers s' = <[i := v]> (workers s) →
  (∀ q, q ∈ done_jobs s → q ∈ done_jobs s') →
  (∀ e, lowestRangeErr s = Some e → ∃ e', lowestRangeErr s' = Some e' ∧ from e' ≤ from e) →
  (∀ q, holds w q → holds v q ∨ accounted s' q) → accounted s' r.
Proof.
  intros Ha Hi Hw Hd He Hv. destruct Ha as [H|[(j & u & Hj & Hu)|(e & Hl & Hle)]].
  - left. auto.
  - destruct (decide (j = i)) as [->|Hn].
    + rewrite Hi in Hj. simplify_eq. destruct (Hv _ Hu) as [Hr|Ha]; [|done].
      right; left. exists i, v. rewrite Hw, list_lookup_insert_eq by eauto using lookup_lt_Some. done.
    + right; left. exists j, u. rewrite Hw, list_lookup_insert_ne by done. done.
  - destruct (He _ Hl) as (e' & ? & ?). right; right. exists e'. split; [done|lia].
Qed.

Lemma record_error_lowest l r :
  ∃ e, record_error l r = Some e ∧ from e ≤ from r ∧ (∀ e', l = Some e' → from e ≤ from e') ∧ (e = r ∨ l = Some e).
Proof.
  destruct l as [l|]; simpl; [case_if|]; eexists; split_and!; eauto; intros; simplify_eq; try lia.
Qed.

Ltac worker_cases := repeat match goal with
  | H : <[_ := _]> _ !! _ = Some _ |- _ => apply worker_insert_Some in H as [[? ?]|H]; simplify_eq
  | H : holds _ _ |- _ => destruct H as [H|H]; simplify_eq
  end.

Lemma inv_start fromLedger n : inv fromLedger (ReingestRange_start fromLedger n).
Proof.
  split; simpl; try done; try (by intros ? ?%elem_of_nil).
  - exists fromLedger. done.
  - intros i w r [-> _]%lookup_replicate Hh. worker_cases.
  - intros i [H _]%lookup_replicate. done.
  - intros i [H _]%lookup_replicate. done.
Qed.

Lemma inv_queue_send fromLedger s f i r :
  0 ≤ fromLedger → inv fromLedger s → queueing s = Some f → f < toLedger → workers s !! i = Some Waiting →
  r = MkLedgerRange f (subRangeTo batchSize toLedger f) →
  inv fromLedger (MkSystem (Some (u32 (to r + 1))) (stopped s) (<[i := Running r]> (workers s))
    (lowestRangeErr s) (jobs s ++ [r]) (done_jobs s) (failed_jobs s)).
Proof.
  intros H0 I Hf Hlt Hi Hr. destruct (inv_tiles _ _ I) as (n & Ht & Hn & Hq). rewrite Hf in Hq. subst n.
  pose proof (tiles_le _ _ _ Ht). destruct (subRangeTo_range f) as (Hto & Hu); [lia..|].
  assert (to r = subRangeTo batchSize toLedger f ∧ from r = f) as [Hr1 Hr2] by (subst; done).
  split; simpl.
  - exists (to r + 1). split_and!; [by apply (tiles_snoc _ _ f); [..|lia]|lia|]. rewrite Hr1. done.
  - intros q [Hq| ->%list_elem_of_singleton]%elem_of_app; [by apply (inv_shape _ _ I)|]. by rewrite Hr2.
  - intros q [Hq| ->%list_elem_of_singleton]%elem_of_app.
    + eapply accounted_move; [by apply (inv_accounted _ _ I)|done|simpl; done|done| |]; simpl; [intros e He; exists e; split; [done|lia]|].
      intros q' Hh; worker_cases.
    + right; left. exists i, (Running r). simpl. rewrite list_lookup_insert_eq by eauto using lookup_lt_Some.
      split; [done|by left].
  - intros q Hq. apply elem_of_app; left. by apply (inv_done _ _ I).
  - intros j w q Hj Hh. apply elem_of_app. worker_cases; [right; by left|left; eapply (inv_held _ _ I); [done|by left]
      |left; eapply (inv_held _ _ I); [done|by right]].
  - intros e He. apply elem_of_app; left. by apply (inv_lowest _ _ I).
  - intros j Hj. worker_cases. by apply (inv_stopping _ _ I j).
  - intros Hst _. apply (inv_stopped _ _ I Hst). by rewrite Hf.
  - done.
  - intros j Hj. worker_cases. by apply (inv_returned _ _ I j).
Qed.

Lemma inv_queue_left_rule fromLedger s f :
  inv fromLedger s → queueing s = Some f → (f < toLedger → stopped s = true) →
  inv fromLedger (MkSystem None true (workers s) (lowestRangeErr s) (jobs s) (done_jobs s) (failed_jobs s)).
Proof.
  intros I Hf Hst. destruct (inv_tiles _ _ I) as (n & Ht & Hn & Hq). rewrite Hf in Hq. subst n.
  split; simpl; try apply I; try done.
  exists f. split_and!; [done..|]. destruct (decide (f < toLedger)) as [Hlt|]; [right|left; lia].
  apply (inv_stopped _ _ I); [auto|by rewrite Hf].
Qed.

(** A worker moves from [w] to [v]; the state around it changes as [v] says. *)
Lemma inv_worker fromLedger s i w v s' :
  inv fromLedger s → workers s !! i = Some w → workers s' = <[i := v]> (workers s) →
  queueing s' = queueing s → jobs s' = jobs s →
  (stopped s = true → stopped s' = true) →
  (stopped s' = true → stopped s = true ∨ lowestRangeErr s ≠ None) →
  (v = Returned → stopped s' = true) →
  (v = Stopping → lowestRangeErr s' ≠ None) →
  (∀ q, q ∈ done_jobs s → q ∈ done_jobs s') →
  (∀ q, q ∈ done_jobs s' → q ∈ done_jobs s ∨ holds w q) →
  (∀ e, lowestRangeErr s = Some e → ∃ e', lowestRangeErr s' = Some e' ∧ from e' ≤ from e) →
  (∀ e, lowestRangeErr s' = Some e → lowestRangeErr s = Some e ∨ holds w e) →
  (∀ q, holds w q → holds v q ∨ accounted s' q) → (∀ q, holds v q → holds w q) →
  inv fromLedger s'.
Proof.
  intros I Hi Hw Hq Hj Hst Hst' HR HS Hd Hd' He He' Hv Hv'.
  assert (∀ q, holds w q → q ∈ jobs s) as Hheld by (intros; by eapply (inv_held _ _ I)).
  assert (lowestRangeErr s ≠ None → lowestRangeErr s' ≠ None) as Hne.
  { intros Hne. destruct (lowestRangeErr s) as [e|] eqn:E; [|done]. destruct (He e) as (? & -> & _); done. }
  split; rewrite ?Hj, ?Hq.
  - destruct (inv_tiles _ _ I) as (n & Ht & Hn & H). exists n. split_and!; [done..|].
    destruct (queueing s); [done|]. destruct H; auto.
  - intros r Hr. by apply (inv_shape _ _ I).
  - intros r Hr. eapply accounted_move; [by apply (inv_accounted _ _ I)|done..].
  - intros r [Hr|Hr]%Hd'; [by apply (inv_done _ _ I)|auto].
  - intros j u r Hl Hh. rewrite Hw in Hl. apply worker_insert_Some in Hl as [[-> ->]|Hl]; [auto|].
    by eapply (inv_held _ _ I).
  - intros e [H|H]%He'; [by apply (inv_lowest _ _ I)|auto].
  - intros j Hl. rewrite Hw in Hl. apply worker_insert_Some in Hl as [[-> <-]|Hl]; [auto|].
    by apply Hne, (inv_stopping _ _ I j).
  - intros [H|H]%Hst' H'; [|auto]. by apply Hne, (inv_stopped _ _ I).
  - intros H. by apply Hst, (inv_queue_left _ _ I).
  - intros j Hl. rewrite Hw in Hl. apply worker_insert_Some in Hl as [[-> <-]|Hl]; [auto|].
    by apply Hst, (inv_returned _ _ I j).
Qed.

Lemma inv_step fromLedger s s' : 0 ≤ fromLedger → inv fromLedger s → step s s' → inv fromLedger s'.
Proof.
  intros H0 I Hs.
  destruct Hs as [s f i Hf Hlt Hi r|s f Hf Hlt Hst|s f Hf Hlt|s i Hi Hst|s i r Hi|s i r Hi|s i r Hi|s i Hi].
  1: by eapply inv_queue_send.
  1-2: eapply inv_queue_left_rule; [done..|lia || done].
  all: eapply (inv_worker _ s i); [done|exact Hi|reflexivity|simpl..]; try done; try (by eauto);
    try (by intros e He; exists e); try (by intros q Hq; worker_cases); try (by auto).
  - intros q Hq. apply elem_of_app. auto.
  - intros q [Hq| ->%list_elem_of_singleton]%elem_of_app; [auto|right; by left].
  - intros q Hq. worker_cases. right; left. simpl. apply elem_of_app; right; by left.
  - intros q Hq. worker_cases. left. by right.
  - intros q Hq. worker_cases. by left.
  - intros _. destruct (record_error_lowest (lowestRangeErr s) r) as (e & -> & _). done.
  - intros e He. destruct (record_error_lowest (lowestRangeErr s) r) as (e' & -> & ? & Hle & _). eauto.
  - intros e He. destruct (record_error_lowest (lowestRangeErr s) r) as (e' & He' & ? & _ & [->|Hl]);
      rewrite He' in He; simplify_eq; [right; by right|auto].
  - intros q Hq. worker_cases. right; right; right. simpl.
    destruct (record_error_lowest (lowestRangeErr s) q) as (e' & -> & ? & _). eauto.
  - intros _. right. by apply (inv_stopping _ _ I i).
Qed.

Lemma inv_reachable fromLedger n s :
  0 ≤ fromLedger → rtc step (ReingestRange_start fromLedger n) s → inv fromLedger s.
Proof.
  intros H0. generalize (inv_start fromLedger n). intros I Hs. induction Hs; [done|]. eauto using inv_step.
Qed.

(** ** Progress *)
Lemma step_length s s' : step s s' → length (workers s') = length (workers s).
Proof. destruct 1; simpl; rewrite ?length_insert; done. Qed.

Lemma reachable_length s s' : rtc step s s' → length (workers s') = length (workers s).
Proof. induction 1 as [|s s1 s' H1 _ IH]; [done|]. rewrite IH. by apply step_length. Qed.

Lemma worker_not_returned (ws : list worker) :
  Forall (λ w, w = Returned) ws ∨ ∃ i w, ws !! i = Some w ∧ w ≠ Returned.
Proof.
  induction ws as [|w ws [IH|(i & v & ? & ?)]]; [by left| |right; by exists (S i), v].
  destruct w; [right; by eexists 0%nat, _..|left; by constructor].
Qed.

Lemma progress fromLedger s : inv fromLedger s → workers s ≠ [] → finished s ∨ ∃ s', step s s'.
Proof.
  intros I Hne. destruct (worker_not_returned (workers s)) as [Hall|(i & w & Hi & Hw)].
  - destruct (queueing s) as [f|] eqn:Hf; [|by left]. right.
    destruct (workers s) as [|w ws] eqn:Ews; [done|]. inversion Hall; subst.
    assert (stopped s = true) by (by apply (inv_returned _ _ I 0%nat); rewrite Ews).
    destruct (decide (f < toLedger)); eexists; [by eapply queue_stopped|by eapply queue_end].
  - right. destruct w as [|r|r| |]; [|eexists; by eapply worker_success|eexists; by eapply worker_report
      |eexists; by eapply worker_close|done].
    destruct (queueing s) as [f|] eqn:Hf.
    + destruct (decide (f < toLedger)); eexists; [by eapply queue_send|by eapply queue_end].
    + eexists. eapply worker_stop; [done|]. by apply (inv_queue_left _ _ I).
Qed.

Lemma measure_step fromLedger s s' : 0 ≤ fromLedger → inv fromLedger s → step s s' → (measure s' < measure s)%nat.
Proof.
  intros H0 I Hs. unfold measure.
  destruct Hs as [s f i Hf Hlt Hi r|s f Hf Hlt Hst|s f Hf Hlt|s i Hi Hst|s i r Hi|s i r Hi|s i r Hi|s i Hi]; simpl.
  1: { destruct (inv_tiles _ _ I) as (n & Ht & _ & Hq). rewrite Hf in *. subst n. apply tiles_le in Ht.
       destruct (subRangeTo_range f) as (Hto & ->); [lia..|].
       pose proof (workers_weight_insert _ _ _ (Running r) Hi) as Hwt. simpl in Hwt. lia. }
  1-2: rewrite Hf; lia.
  all: match goal with |- context[<[_ := ?v]> _] =>
    pose proof (workers_weight_insert _ _ _ v Hi) as Hwt; simpl in Hwt; lia end.
Qed.

(** ** What is recorded of the failures *)
Record failures_recorded (s : system) : Prop := {
  failed_known : ∀ r, r ∈ failed_jobs s →
    (∃ i, workers s !! i = Some (Failing r)) ∨ ∃ e, lowestRangeErr s = Some e ∧ from e ≤ from r;
  failing_failed : ∀ i r, workers s !! i = Some (Failing r) → r ∈ failed_jobs s;
  lowest_failed : ∀ e, lowestRangeErr s = Some e → e ∈ failed_jobs s }.

(** A worker that is not about to report an error moves on. *)
Lemma recorded_move s s' i w v :
  failures_recorded s → workers s !! i = Some w → workers s' = <[i := v]> (workers s) →
  (∀ r, w ≠ Failing r) → (∀ r, v = Failing r → failed_jobs s' = failed_jobs s ++ [r]) →
  (failed_jobs s' = failed_jobs s ∨ ∃ r, v = Failing r) → lowestRangeErr s' = lowestRangeErr s →
  failures_recorded s'.
Proof using Type.
  intros [H1 H2 H3] Hi Hw Hno Hv Hf Hl.
  assert (∀ r, r ∈ failed_jobs s → r ∈ failed_jobs s') as Hkeep.
  { intros r Hr. destruct Hf as [->|[q Hq]]; [done|]. rewrite (Hv q Hq). apply elem_of_app. by left. }
  assert (workers s' !! i = Some v) as Hvi by (rewrite Hw, list_lookup_insert_eq; eauto using lookup_lt_Some).
  split; rewrite ?Hl.
  - intros r Hr. assert (r ∈ failed_jobs s ∨ v = Failing r) as [Hr'| ->].
    { destruct Hf as [Hf|[q ->]]; [rewrite Hf in Hr; by left|]. rewrite (Hv q eq_refl) in Hr.
      apply elem_of_app in Hr as [?| ->%list_elem_of_singleton]; auto. }
    2:{ left. by exists i. }
    destruct (H1 r Hr') as [[j Hj]|?]; [left; exists j|by right].
    rewrite Hw, list_lookup_insert_ne; [done|]. intros ->. rewrite Hi in Hj. injection Hj as ->. by apply (Hno r).
  - intros j r Hj. rewrite Hw in Hj. apply worker_insert_Some in Hj as [[-> Hj]|Hj]; [|by eapply Hkeep, H2].
    rewrite (Hv r) by done. apply elem_of_app. right. by left.
  - intros e He. by apply Hkeep, H3.
Qed.

Lemma recorded_step s s' : failures_recorded s → step s s' → failures_recorded s'.
Proof using Type.
  intros H Hs. destruct Hs as [s f i Hf Hlt Hi r|s f Hf Hlt Hst|s f Hf Hlt|s i Hi Hst|s i r Hi|s i r Hi|s i r Hi|s i Hi].
  2-3: destruct H; split; done.
  5: {
    destruct H as [H1 H2 H3]. destruct (record_error_lowest (lowestRangeErr s) r) as (e & He & Her & Hle & Hor).
    split; simpl; rewrite ?He.
    - intros q [[j Hj]|(e' & He' & Hq)]%H1.
      + destruct (decide (j = i)) as [->|Hn]; [|left; exists j; by rewrite list_lookup_insert_ne].
        right. exists e. rewrite Hi in Hj. injection Hj as <-. done.
      + right. exists e. split; [done|]. specialize (Hle _ He'). lia.
    - intros j q Hj. apply worker_insert_Some in Hj as [[_ ?]|Hj]; [done|by eapply H2].
    - intros e' [= <-]. destruct Hor as [->|?]; [by eapply H2|by apply H3]. }
  all: eapply recorded_move; [done|exact Hi|done|done| | |done]; simpl; try (by left); try done; try (by right; eexists).
  by intros q [= ->].
Qed.

Lemma recorded_reachable fromLedger n s : rtc step (ReingestRange_start fromLedger n) s → failures_recorded s.
Proof using Type.
  assert (failures_recorded (ReingestRange_start fromLedger n)) as H.
  { split; simpl; [by intros r ?%elem_of_nil| |done]. by intros i r [? _]%lookup_replicate. }
  intros Hs. revert H. induction Hs; eauto using recorded_step.
Qed.

Lemma finished_failures s :
  failures_recorded s → finished s →
  match lowestRangeErr s with
  | Some e => e ∈ failed_jobs s ∧ ∀ r, r ∈ failed_jobs s → from e ≤ from r
  | None => failed_jobs s = []
  end.
Proof using Type.
  intros [H1 _ H3] [_ Hall]. rewrite Forall_lookup in Hall.
  assert (∀ r, r ∈ failed_jobs s → ∃ e, lowestRangeErr s = Some e ∧ from e ≤ from r) as Hlow.
  { intros r [[i Hi]|?]%H1; [by specialize (Hall _ _ Hi)|done]. }
  destruct (lowestRangeErr s) as [e|].
  - split; [by apply H3|]. intros r (e' & [= <-] & ?)%Hlow. done.
  - destruct (failed_jobs s) as [|r l]; [done|]. by destruct (Hlow r) as (? & ? & _); [by left|].
Qed.

(** ** The ledgers covered at the end *)
Definition covered (s : system) (l : Z) : Prop := ∃ r, r ∈ done_jobs s ∧ from r ≤ l ≤ to r.

Lemma strided_end lo js n :
  0 ≤ lo → tiles lo js n → (∀ r, r ∈ js → from r < toLedger ∧ to r = subRangeTo batchSize toLedger (from r)) →
  (n - lo) mod batchSize = 0 ∨ n = toLedger + 1.
Proof.
  revert lo; induction js as [|r js IH]; intros lo H0; simpl; [intros <- _; left; rewrite Z.sub_diag; by apply Zmod_0_l|].
  intros (<- & Hle & Ht) Hall. destruct (Hall r) as [Hlt Hto]; [by left|].
  assert (∀ q, q ∈ js → from q < toLedger ∧ to q = subRangeTo batchSize toLedger (from q)) as Hall'
    by (intros; apply Hall; by right).
  unfold subRangeTo in Hto. rewrite u32_small in Hto by (unfold is_u32; lia).
  destruct (Z.ltb_spec toLedger (from r + (batchSize - 1))).
  - right. destruct js as [|q js]; simpl in Ht; [lia|]. destruct (Hall' q) as [? _]; [by left|]. lia.
  - destruct (IH (to r + 1)) as [Hm|]; [lia|done..| |by right]. left.
    replace (n - from r) with (n - (to r + 1) + 1 * batchSize) by lia. rewrite Z.mod_add; lia.
Qed.

Lemma finished_covered fromLedger s l n :
  inv fromLedger s → finished s → tiles fromLedger (jobs s) n → fromLedger ≤ l < n →
  (∀ e, lowestRangeErr s = Some e → l < from e) → covered s l.
Proof.
  intros I [_ Hf] Ht Hl He. destruct (tiles_cover _ _ _ l Ht Hl) as (r & Hr & Hrl).
  destruct (inv_accounted _ _ I r Hr) as [Hd|[(i & w & Hi & Hh)|(e & Hle & Hre)]]; [by exists r| |].
  - rewrite Forall_lookup in Hf. specialize (Hf _ _ Hi). subst w. destruct Hh; done.
  - specialize (He _ Hle). lia.
Qed.

Lemma finished_success fromLedger s :
  0 ≤ fromLedger → inv fromLedger s → finished s → lowestRangeErr s = None →
  (∀ l, fromLedger ≤ l < toLedger → covered s l) ∧
  (covered s toLedger ↔ fromLedger < toLedger ∧ (toLedger - fromLedger) mod batchSize ≠ 0).
Proof.
  intros H0 I Hfin Hnone. destruct (inv_tiles _ _ I) as (n & Ht & Hn & Hq).
  pose proof Hfin as [Hqn _]. rewrite Hqn in Hq. destruct Hq as [Hq|Hq]; [|done].
  pose proof (strided_end _ _ _ H0 Ht (inv_shape _ _ I)) as Hs.
  assert (∀ l, fromLedger ≤ l < n → covered s l) as Hc.
  { intros l Hl. eapply finished_covered; [done..|]. intros e He. by rewrite Hnone in He. }
  split; [intros l Hl; apply Hc; lia|]. split.
  - intros (r & Hr & Hrl). apply (inv_done _ _ I) in Hr. destruct (inv_shape _ _ I r Hr) as [Hlt Hto].
    destruct (tiles_bounds _ _ _ _ Ht Hr) as [? ?]. split; [lia|]. intros Hm.
    destruct (tiles_before _ _ _ _ Ht Hr) as (l1 & Ht1 & Hin).
    destruct (strided_end _ _ _ H0 Ht1) as [Hm'|]; [intros q ?; by apply (inv_shape _ _ I), Hin| |lia].
    unfold subRangeTo in Hto. rewrite u32_small in Hto by (unfold is_u32; lia).
    assert (toLedger - from r < batchSize) by (revert Hto; case_if; lia).
    replace (toLedger - fromLedger) with ((toLedger - from r) + (from r - fromLedger)) in Hm by lia.
    rewrite Z.add_mod, Hm', Z.add_0_r, Z.mod_mod, Z.mod_small in Hm by lia. lia.
  - intros [Hlt Hm]. apply Hc. destruct Hs as [Hs|Hs]; [|lia]. split; [lia|].
    destruct (decide (n = toLedger)) as [->|]; [done|lia].
Qed.

Lemma finished_failure fromLedger s e :
  0 ≤ fromLedger → inv fromLedger s → finished s → lowestRangeErr s = Some e →
  fromLedger ≤ from e < toLedger ∧ (∀ l, fromLedger ≤ l < from e → covered s l).
Proof.
  intros H0 I Hfin He. destruct (inv_tiles _ _ I) as (n & Ht & _).
  pose proof (inv_lowest _ _ I _ He) as Hin. destruct (inv_shape _ _ I _ Hin) as [? _].
  destruct (tiles_bounds _ _ _ _ Ht Hin) as [? ?]. split; [lia|]. intros l Hl.
  eapply finished_covered; [done..|lia|]. intros e' He'. simplify_eq. lia.
Qed.

Lemma terminates fromLedger s : 0 ≤ fromLedger → inv fromLedger s → Acc (flip step) s.
Proof.
  intros H0. remember (measure s) as m eqn:Hm. revert s Hm.
  induction m as [m IH] using lt_wf_ind. intros s -> I. constructor. intros s' Hs. unfold flip in Hs.
  eapply IH; [by eapply measure_step|done|by eapply inv_step].
Qed.
End parallel.

Lemma calculateParallelLedgerBatchSize_spec rangeSize suggestion workerCount :
  is_u32 rangeSize → is_u32 suggestion → 1 ≤ workerCount < 2 ^ 32 →
  let b := calculateParallelLedgerBatchSize rangeSize suggestion workerCount in
  64 ≤ b < 2 ^ 32 ∧ b mod 64 = 0 ∧ b ≤ Z.max 64 (Z.max suggestion (rangeSize / workerCount)) ∧
  (64 ≤ suggestion → workerCount ≤ rangeSize / suggestion → b = suggestion / 64 * 64).
Proof.
  intros Hr Hs Hw b. subst b. unfold calculateParallelLedgerBatchSize, minBatchSize, historyCheckpointLedgerInterval.
  rewrite (u32_small workerCount) by (unfold is_u32; lia). unfold is_u32 in *.
  set (b0 := if _ || _ then _ else _).
  assert (0 ≤ b0 < 2 ^ 32 ∧ b0 ≤ Z.max suggestion (rangeSize / workerCount) ∧
    (64 ≤ suggestion → workerCount ≤ rangeSize / suggestion → b0 = suggestion)) as (H1 & H2 & H3).
  { assert (0 ≤ rangeSize / workerCount ≤ rangeSize) by (split; [apply Z.div_pos|apply Z.div_le_upper_bound]; nia).
    subst b0. destruct ((suggestion =? 0) || (rangeSize / suggestion <? workerCount)) eqn:E; split_and!; lia. }
  clearbody b0. destruct (Z.ltb_spec b0 64); rewrite u32_small by (unfold is_u32; zlia); split_and!; try zlia.
Qed.

(** C15: parallel reingestion leaves no gap below its restart point.  With at
    least one worker, over a range that fits 32 bits with one more batch, for
    every schedule of the workers and every pattern of failures, when the run is
    over: if an error is reported, its restart range begins where the lowest of
    the sub-ranges begins whose reingestion failed, inside [fromLedger, toLedger),
    it ends at toLedger, and every ledger below it was reingested; if none is
    reported, no sub-range failed, every ledger of [fromLedger, toLedger) was
    reingested, and the last ledger toLedger exactly when the range has more than
    one ledger and its length minus one is not a multiple of the batch size: the
    loop's strict comparison drops a last sub-range of one ledger. *)
Theorem ReingestRange_no_gap fromLedger toLedger suggestion workerCount n s :
  is_u32 fromLedger → is_u32 toLedger → is_u32 suggestion → newParallelSystems workerCount = Ret n → n < 2 ^ 32 →
  let batchSize := calculateParallelLedgerBatchSize (u32 (toLedger - fromLedger)) suggestion n in
  toLedger + batchSize < 2 ^ 32 →
  rtc (step toLedger batchSize) (ReingestRange_start fromLedger (Z.to_nat n)) s → finished s →
  match ReingestRange_result toLedger s with
  | Some e => fromLedger ≤ from e < toLedger ∧ to e = toLedger ∧ (∀ l, fromLedger ≤ l < from e → covered s l) ∧
      (∃ r, r ∈ failed_jobs s ∧ from r = from e) ∧ ∀ r, r ∈ failed_jobs s → from e ≤ from r
  | None => failed_jobs s = [] ∧ (∀ l, fromLedger ≤ l < toLedger → covered s l) ∧
      (covered s toLedger ↔ fromLedger < toLedger ∧ (toLedger - fromLedger) mod batchSize ≠ 0)
  end.
Proof.
  intros Hf Ht Hs Hn Hn' b Hb Hr Hfin. unfold newParallelSystems in Hn. revert Hn; case_if; [done|]. intros Hn. simplify_eq.
  destruct (calculateParallelLedgerBatchSize_spec (u32 (toLedger - fromLedger)) suggestion n) as [Hpos _];
    [apply u32_range|done|lia|]. fold b in Hpos. destruct Hf.
  assert (inv toLedger b fromLedger s) as I by (eapply inv_reachable; [lia..|done]).
  pose proof (finished_failures s (recorded_reachable toLedger b fromLedger _ s Hr) Hfin) as Hfail.
  unfold ReingestRange_result. destruct (lowestRangeErr s) as [e|] eqn:He; simpl.
  - destruct (finished_failure toLedger b fromLedger s e) as [? ?]; [done..|]. destruct Hfail. split_and!; [lia..|done|done|by exists e|done].
  - split; [done|]. eapply finished_success; [|done..]. lia.
Qed.


(** ** A run that loses the last ledger: [1, 65] with one worker *)
Definition run65 : system := MkSystem None true [Returned] None [MkLedgerRange 1 64] [MkLedgerRange 1 64] [].

Lemma run65_reachable : rtc (step 65 64) (ReingestRange_start 1 1) run65.
Proof.
  eapply rtc_l; [by apply (queue_send 65 64 _ 1 0%nat)|]. eapply rtc_l; [by apply (worker_success 65 64 _ 0%nat (MkLedgerRange 1 64))|].
  eapply rtc_l; [by apply (queue_end 65 64 _ 65)|]. eapply rtc_l; [by apply (worker_stop 65 64 _ 0%nat)|]. reflexivity.
Qed.

Example last_ledger_lost : covered run65 64 ∧ ¬ covered run65 65.
Proof.
  split; [exists (MkLedgerRange 1 64); split; [by left|simpl; lia]|].
  intros (r & Hr%list_elem_of_singleton & ?). subst. simpl in *. lia.
Qed.

Lemma ReingestRange_no_gap_witness :
  ReingestRange_result 65 run65 = None ∧ failed_jobs run65 = [] ∧ (∀ l, 1 ≤ l < 65 → covered run65 l) ∧
  (covered run65 65 ↔ 1 < 65 ∧ (65 - 1) mod 64 ≠ 0).
Proof.
  split; [done|]. apply (ReingestRange_no_gap 1 65 0 1 1 run65); try done.
  - exact run65_reachable.
  - split; [done|by repeat constructor].
Defined.

